(* ===== verification/_CoqProject ===== *)
-Q . S2P
Prelude.v
LibRe.v
LibReJson.v
Jzon.v
EconnMsg.v
EconnFmt.v
EconnFmtSpec.v
EconnFmtProps.v
Econn.v
EconnSpec.v
EconnPair.v
EconnWitness.v
ConfPos.v
Dict.v
ConfMember.v
UserHash.v
AudioLevel.v
UserList.v
UserListSpec.v
UserListSft.v
UserListOps.v
UserListProps.v
UserListMembers.v
UserListApproved.v
UserListWitness.v
FrameHdr.v
Keystore.v
KeystoreSpec.v
KeystoreOps.v
KeystoreProps.v
KeystoreWitness.v
Icall.v
CcallKeys.v
CcallKeysSpec.v
CcallKeysWitness.v
CcallKeysInv.v
CcallSft.v
Config.v
ConfigProps.v
Ccall.v
CcallOps.v
CcallMsg.v
CcallSpec.v
CcallInv.v
CcallSafe.v
CcallProps.v
CcallAgree.v
CcallWire.v
CcallWitness.v
WireWitness.v
Ecall.v
EcallOps.v
EcallMsg.v
EcallSpec.v
EcallSafe.v
EcallProps.v
EcallView.v
EcallLive.v
EcallVideo.v
EcallSetup.v
EcallPair.v
EcallTalk.v
EcallWitness.v
Egcall.v
EgcallSpec.v
EgcallSafe.v
EgcallProps.v
EgcallEnd.v
EgcallWitness.v
Wcall.v
WcallOps.v
WcallSafe.v
WcallInv.v
WcallProps.v
WcallEvent.v
WcallWitness.v
FrameCrypto.v
FrameCryptoSpec.v
FrameCryptoProps.v
FrameCryptoWitness.v
