(* ===== verification/Prelude.v ===== *)
(** * Wire AVS: a verification of the calling library's core

    AVS ([src/src], C) is the library that sets up and runs Wire's calls.  This
    development models the parts that carry its own logic and proves what makes
    them correct.

    ** The program and its parts

    - [econn] is the connection between two clients of a call: a state machine
      driven by the application, by messages (SETUP, UPDATE, CANCEL, HANGUP, ...)
      and by a timer.  Its messages travel as JSON texts ([econn_fmt], over [jzon]
      and libre's dictionaries), with properties ([props.c]) as shared objects.
    - [keystore] holds the session and media keys of a conference, derives them
      with HKDF, rotates and erases them.  [frame_encryptor], [frame_decryptor]
      and [frame_hdr] encrypt media frames under these keys.
    - [userlist] is the list of the members of a conference: it merges the list
      of approved clients with the participants the SFT server reports, elects
      the client that generates the keys, and tells the call who needs a decoder
      and who needs a key.  [hash.c] makes the identifiers the server sees.
    - [conf_pos] orders the participants, [conf_member] holds the members of a
      media flow, [audio_level] the levels of the speakers.
    - [ccall] is the conference call.  It ties the member list to the key store: the
      key generator makes, sends and rotates session keys, the others ask for them
      and accept them from the key generator.  Around that it is a state machine:
      calls are announced among the clients (CONFSTART, CONFCHECK, CONFEND), of
      several calls the earliest wins, a client joins over the servers of the
      configuration, its connection is kept alive by pings and re-established, and
      the call ends when nobody answers or everybody has left.
    - [ecall] is the call between two clients.  It owns an [econn] that negotiates
      the call and a media flow that produces the SDP texts of the negotiation and
      carries the data channel; it allocates a new flow when the call is
      renegotiated, exchanges the states of microphone and camera with the other
      side, and tells the application what happens.
    - [egcall] is the call among several clients without a server: it has an [ecall]
      for every client it is connected to and a roster ([dict]) of those that take
      part, and keeps the call alive with messages to the whole conversation.
    - [config] asks the backend for the servers of calls, keeps them fresh and tells
      the calls about them.
    - [wcall] is the interface of the application.  An instance has a list of calls,
      at most one per conversation, each with a call object ([ecall], [egcall] or
      [ccall]) behind the interface of [icall]; it chooses which call has the media
      devices, holds messages back until the configuration is there, carries the
      requests of other threads over a queue ([marshal.c]), and answers for a
      notification whether it is about a call ([event.c]).
    - Below, libre, OpenSSL, libsodium and WebRTC do the system's work.

    ** Files

    - [Prelude]: error codes, machine integers, the monads [M] (an object and the
      events it emits) and [MU] (the same with undefined behaviour), total
      weakest preconditions [wp], partial ones [wlp], tactics, list lemmas.
    - [LibRe]: the functions of libre the code calls, as a class with laws, and a
      concrete instance.
    - [LibReJson]: libre's dictionaries, JSON, Base64 and number formats as a class
      with laws, and a concrete instance; [Jzon] ([jzon.c], [jsonc.c]) with what an
      object looks like after a series of steps ([adds]).
    - [EconnFmt] ([econn_fmt/msg.c], [props.c], [zapi/call.c]): encoder and decoder
      of every message; [EconnFmtSpec]: the members of an encoded message, the
      messages that can be sent; [EconnFmtProps]: the properties; [CcallWire]: the
      decoder in front of the conference call; [WireWitness].
    - [EconnMsg] (messages, [avs_econn.h], [msg.c], [econn_help.c]), [Econn]
      ([econn.c], [state.c]): one definition per function.  [EconnSpec]: the
      abstract protocol machine and the refinement; [EconnPair]: two connections
      talking to each other; [EconnWitness].
    - [ConfPos], [ConfMember], [AudioLevel]: the files of the same names.
    - [Dict] ([dict.c]): a table of buckets, and the finite map it stands for.
    - [Config] ([config.c], [avs_config.h]): one definition per function, the blocks
      of [config_update] as [read_servers]; [ConfigProps]: the properties, and the
      configuration as [CcallSft] has it.
    - [UserHash] ([hash.c]), [UserList] ([userlist.c]): [userlist] and
      [userinfo] are the structs, every function is a definition of the same
      name, the loops of the two long ones are [sft_*] and [se_*].
      [UserListSpec]: the invariant; [UserListSft]: what a report of the server
      does to each member; [UserListOps]: the approved clients and the invariant
      under them; [UserListProps], [UserListMembers], [UserListApproved]: the
      properties; [UserListWitness].
    - [FrameHdr] ([frame_hdr.c]): writer and reader on byte buffers.
    - [Keystore] ([keystore.c], [hkdf.c]); [KeystoreSpec]: calls and invariant;
      [KeystoreOps]: what each operation does; [KeystoreProps]: runs and the agreement of
      two stores; [KeystoreWitness].
    - [CcallKeys] (the functions of [ccall.c] that deal with keys); its state
      contains a [userlist] and a [keystore], and [on_ul] and [on_store] run their
      operations in it.  [CcallKeysSpec]: who is sent keys and whose keys are
      taken, and a key generator with a member that joins late;
      [CcallKeysWitness].
    - The rest of [ccall.c]: [CcallSft] (URLs of servers, the configuration),
      [Ccall] (states, messages, ending, reconnecting, timers), [CcallOps] (the
      handlers given to the connection, joining, the functions of the application)
      and [CcallMsg] (messages of clients and servers, allocation, and [cc_op],
      everything that can happen to a call).  [conf_call] is the struct, with the
      [ccall] of [CcallKeys] as a part; [on_keys] and [with_users] run the
      operations of the parts.  [CcallKeysInv], [CcallSpec], [CcallInv],
      [CcallSafe]: the invariant, from the functions on keys up to every operation;
      [CcallProps], [CcallAgree]: the properties; [CcallWitness].
    - [Icall] ([avs_icall.h]): what the call objects share.  The end-to-end call
      ([ecall.c], [ecall.h], [trace.c]): [Ecall] (the struct, properties, sending,
      closing), [EcallOps] (flows, offers and answers, camera and microphone, the
      handlers given to the connection) and [EcallMsg] (timers, the handlers given
      to the flow, messages, the rest of the interface, allocation, and [ecall_op],
      everything that can happen to a call).  [on_econn] runs an operation of the
      connection and dispatches its events.  [EcallSpec], [EcallSafe]: the
      invariant, through every operation; [EcallProps]: runs, flows and closing;
      [EcallLive]: time-outs; [EcallVideo]: the camera and the
      properties of messages; [EcallView]: what an operation leaves of the state
      and shows the application; [EcallSetup], [EcallPair], [EcallTalk]: two calls
      talking to each other; [EcallWitness].
    - [Egcall] ([egcall.c]): the group call, with the references that keep it alive
      and the [ecall]s that exist, linked or not; [EgcallSpec] ([egcall_op],
      everything that can happen to it, and the invariant of its memory),
      [EgcallSafe] (every operation), [EgcallProps], [EgcallEnd] (the properties),
      [EgcallWitness].
    - [Wcall] ([wcall.c]: the structs, lists, lookups, closing, and the handlers given
      to the call objects) and [WcallOps] ([wcall_add], the functions of the
      application, messages, the media devices, and [mqueue_handler] of
      [marshal.c]).  [WcallSafe], [WcallInv]: how an instance may change and its
      invariant, from releasing a call up to every event; [WcallProps] ([wc_op],
      everything that can happen to an instance): the properties.  [WcallEvent]
      ([event.c]): calls from notifications, with their properties.  [WcallWitness].
    - [FrameCrypto] ([frame_encryptor.c], [frame_decryptor.c]); [FrameCryptoSpec],
      [FrameCryptoProps], [FrameCryptoWitness].

    ** How the code is modelled

    An object is a record with the fields of the struct, an operation a function
    that returns the C result, the new object and the callbacks, messages and
    locks in the order they happen.  Objects on the heap carry their address, and
    pointers are addresses: following a [NULL] or freed pointer, and an access
    outside a buffer, is [None].  Integers are [Z], reduced with [uwrap] where C
    reduces them.  Answers of the environment (clock, allocator, cryptographic
    library, peerflow) are functions of a counter, so that no two calls are
    assumed to agree; what the code relies on is stated in the classes [LibReSpec], [LibReJsonSpec],
    [KsEnvLen], [KsEnvOk], [EVPSpec], [SodiumLen] and [SodiumSpec], each with a
    concrete instance.  [CkEnv] and [CcEnv] are the environment of the conference
    call, [CallEnvOk] what it relies on; [EcEnv] is that of the end-to-end call,
    [media_ok] a system in which its flows work; [EgEnv] is that of the group call,
    [EgEnvOk] and [EgAddOk] one in which allocations succeed and new [ecall]s can be
    set up.  [WcEnv] is that of an instance: among other things, which callbacks a
    call object makes while one of its functions runs; [WcEnvOk] is what the call
    objects promise about them (in [FnEnd] they may close the call, as [egcall] does).

    ** What the theorems show

    - Connections: every run follows the protocol machine; two ends set up,
      collide and hang up as they should; a connection in which somebody has to
      answer times out; the close handler runs once; messages of other clients,
      in wrong states and failures of the transport are handled.
    - Messages: what is encoded is decoded to the same message, for every type;
      every decoded message is well formed, whatever text arrived, and the
      conference call handles it safely when its URLs are set.
    - Keys: the invariant of the store and memory safety for every sequence of
      calls; a sender that rotates and a receiver that hashes forward agree; keys
      that were erased stay erased; locks are balanced.
    - Media: what is encrypted is decrypted to the same bytes, across the key
      store, the header and the cipher; no initialisation vector is used twice;
      accepted frames are authentic; parser and writer stay in their buffers.
    - Members: the invariant for every sequence of calls; the election of the key
      generator, its uniqueness and agreement among clients; approval of exactly
      the listed clients; presence, order, decoders and keys after a report; the
      summaries shown to the application.
    - Conference keys: session keys are sent by the key generator of an active
      call to approved members in the call and to nobody else; keys of anybody
      else are ignored; a member that joins late is sent the current key and
      derives the same keys as the key generator through its rotations; new keys
      have fresh indices.
    - Conference calls: the invariant of the call and the absence of undefined
      behaviour for every sequence of operations with the stated arguments; clients that have heard of the
      same calls agree on one; a call that waits for a server times out, and whether the
      application is told; a dead
      connection is noticed, reconnected at most twice and given up; calls ring
      when they should.
    - Calls: the invariant and the absence of undefined behaviour for every sequence
      of operations with the stated arguments; flows are neither leaked nor closed twice, and those that were
      closed are not heard again, except that a relay is missing; a call that is not answered ends; its end is
      reported once; two calls set each other up from the two applications down to
      the texts on the wire, keep their media states in step, and hang up.
    - Group calls: no sequence of operations within the stated conditions is undefined, and the object lives
      exactly as long as it is held; an active call gives signs of life, one that
      nobody speaks of is forgotten; a call is left once, whatever the order in which
      the [ecall]s of its list close, and what one does that closes after them.
    - Instances: within the stated contract an operation is undefined exactly when it
      uses a call that was released, by a call object that closes it while it is ended or
      by a late response of a server, and the calls have different conversations; a failure of the devices ends every call; a batch of
      notifications is reported in order.
    - Configuration: a response is read as it was written and everybody is told; once
      started, a request waits for its response or the timer for the next one runs, as
      long as requests are accepted and responses can be read.
    - A dictionary is a finite map.
    - Positions are a function of who takes part; lookups of flow members find the
      first match; the indicator of a speaker goes out, neither too early nor too late.
    - Theorems named after a defect ([absent_member_gets_decoder],
      [decrypt_short_frame_undefined], [frame_count_misattributed],
      [keystore_rotate_undefined], [keystore_lookup_writes_under_read_lock],
      [useless_config_reenters], [null_url_undefined], [optional_props_undecodable],
      [withdrawn_video_request_applied], [nonstring_property_undefined],
      [stale_ecall_ends_rejoined_call], [failed_add_destroys_call],
      [garbled_response_stops_refresh], [failed_request_stops_refresh], [lost_servers_counted],
      [hang_up_unjoined_undefined], [late_sft_response_undefined],
      [queued_message_dropped], [duration_blocks_start], [conference_end_undefined],
      [second_instance_never_created])
      state what the code does where that is not what it means to do.

    ** Bounds and fuel

    Loops over lists are structural.  The forward hashing of the key store is
    given as many rounds as there are indices between the key it starts from and
    the one asked for, and every round makes the key of the next index; the loop
    of [calc_len] is given the four rounds that empty a 32-bit value.  That these
    are enough is part of the theorems: a loop that ran out would be [None] or
    the wrong length.  The loop of [ecall] over the messages that wait for the data
    channel is given as many rounds as there are messages; it needs more only when
    the channel that was just established refuses a message as not established
    (then the C loop does not end either), which the theorems exclude by name.
    The search of [event.c] for an instance does not advance past the first one: it is
    given fuel, and [second_instance_never_created] holds for every amount of it.

    ** Not modelled

    - The composition of [ccall] and [egcall] with [ecall]: they use only results of
      [ecall] and its callbacks, so their calls into it are events, and its callbacks
      operations.
    - The queues and [chunk.c]: they rest on threads and on libre's regular
      expressions.  Of [jzon], doubles and the functions that print.
    - The smoothing of audio levels (floating point), and functions that only
      print or release memory.  Reference counts are modelled where a pointer can
      outlive its object; copies of strings are taken to succeed where the code
      ignores the result.
    - Handlers of callbacks: a call records the callback, and what a handler does
      to other objects is the business of the component that installs it: [ccall]
      gives handlers to the member list, to its connection and to the configuration,
      and they are modelled with it.
    - The composition of [wcall] with the call objects: a call into one is an event with
      the callbacks it makes, answered by [WcEnv].  Of [wcall], the creation and
      destruction of instances, the functions that only put a request on the queue,
      setters of handlers, the quality of the network (floating point) and printing.
    - [mediamgr], [flowmgr], [msystem], [jsflow], [peerflow] and the test
      engine: marshalling between threads, devices and foreign interfaces. *)

From Stdlib Require Export ZArith Lia Sorting.Sorted Strings.String.
From stdpp Require Export prelude list list_numbers strings sorting.

#[global] Set Default Goal Selector "!".
#[global] Open Scope Z_scope.

(** ** Error codes

    The values of [errno.h] on the platforms the library is built for, and
    the special codes of [include/avs_base.h]. *)

Definition ENOENT : Z := 2.
Definition EIO : Z := 5.
Definition EBADF : Z := 9.
Definition EAGAIN : Z := 11.
Definition ENOMEM : Z := 12.
Definition EINVAL : Z := 22.
Definition ERANGE : Z := 34.
Definition ENOSYS : Z := 38.
Definition EPROTO : Z := 71.
Definition EBADMSG : Z := 74.
Definition EOVERFLOW : Z := 75.
Definition EPROTONOSUPPORT : Z := 93.
Definition ENOTSUP : Z := 95.
Definition EALREADY : Z := 114.
Definition ECANCELED : Z := 125.
Definition ETIMEDOUT_ECONN : Z := -1000.

(** ** Machine integers *)

Declare Scope avs_scope.
Delimit Scope avs_scope with avs.

(** Linear arithmetic with division and remainder. *)
Ltac lia_div := Z.div_mod_to_equations; lia.

(** Conversion to an unsigned integer of [w] bits. *)
Definition uwrap (w x : Z) : Z := x mod 2 ^ w.

Abbreviation u8 := (uwrap 8).
Abbreviation u32 := (uwrap 32).
Abbreviation u64 := (uwrap 64).

Definition UINT32_MAX : Z := 2 ^ 32 - 1.

Lemma uwrap_range w x : 0 <= w → 0 <= uwrap w x < 2 ^ w.
Proof. intros. unfold uwrap. apply Z.mod_pos_bound, Z.pow_pos_nonneg; lia. Qed.

Lemma uwrap_small w x : 0 <= x < 2 ^ w → uwrap w x = x.
Proof. intros. unfold uwrap. by apply Z.mod_small. Qed.

(** A number as an [int]. *)
Definition s32 (x : Z) : Z := let y := u32 x in if y <? 2 ^ 31 then y else y - 2 ^ 32.

Lemma s32_range x : - 2 ^ 31 <= s32 x < 2 ^ 31.
Proof.
  unfold s32. pose proof (uwrap_range 32 x). destruct (Z.ltb_spec (u32 x) (2 ^ 31)); lia.
Qed.

Lemma s32_small x : - 2 ^ 31 <= x < 2 ^ 31 → s32 x = x.
Proof.
  intros Hx. unfold s32, uwrap. destruct (Z.ltb_spec (x mod 2 ^ 32) (2 ^ 31)); lia_div.
Qed.

(** An unsigned number that was stored as an [int] is read back unchanged. *)
Lemma u32_s32 x : 0 <= x < 2 ^ 32 → u32 (s32 x) = x.
Proof.
  intros Hx. unfold s32. rewrite (uwrap_small 32 x) by done.
  destruct (Z.ltb_spec x (2 ^ 31)); unfold uwrap; lia_div.
Qed.

(** A byte of a [uint8_t] buffer. *)
Definition byte_ok (b : Z) : Prop := 0 <= b < 256.
Definition bytes_ok (l : list Z) : Prop := Forall byte_ok l.

#[global] Instance byte_ok_dec b : Decision (byte_ok b).
Proof. unfold byte_ok. apply _. Defined.

(** The characters of a string as bytes. *)
Fixpoint bytes_of_string (s : string) : list Z :=
  match s with
  | EmptyString => []
  | String c s => Z.of_nat (Ascii.nat_of_ascii c) :: bytes_of_string s
  end.

(** ** Effects

    A C function that reads and writes an object [S], calls back into the
    application and returns [A]: the callbacks and the messages handed to the
    transport are the events [E], in the order they happen. *)

Definition M (S E A : Type) : Type := S → A * S * list E.

#[global] Instance M_ret {S E} : MRet (M S E) := λ _ a s, (a, s, []).
#[global] Instance M_bind {S E} : MBind (M S E) := λ A B k m s,
  match m s with
  | (a, s1, e1) => match k a s1 with (b, s2, e2) => (b, s2, e1 ++ e2) end
  end.

Definition get {S E} : M S E S := λ s, (s, s, []).
Definition modify {S E} (f : S → S) : M S E () := λ s, ((), f s, []).
Definition emit {S E} (e : E) : M S E () := λ s, ((), s, [e]).
Definition when {S E} (b : bool) (m : M S E ()) : M S E () :=
  if b then m else mret ().

(** Result, final object and events of a call. *)
Definition result {S E A} (r : A * S * list E) : A := r.1.1.
Definition final {S E A} (r : A * S * list E) : S := r.1.2.
Definition events {S E A} (r : A * S * list E) : list E := r.2.

(** Split a result into its three parts by evaluating the effects. *)
Ltac run_M :=
  unfold mbind, mret, M_bind, M_ret, get, modify, emit, when in *.

(** ** Effects with undefined behaviour

    Code that follows pointers: [None] is a memory access C leaves undefined
    (a [NULL] or dangling pointer, an index outside a buffer), or a loop that
    would run on after the rounds it was given.  A theorem that excludes
    [None] is a memory-safety and termination theorem. *)

Definition MU (S E A : Type) : Type := S → option (A * S * list E).

#[global] Instance MU_ret {S E} : MRet (MU S E) := λ _ a s, Some (a, s, []).
#[global] Instance MU_bind {S E} : MBind (MU S E) := λ A B k m s,
  match m s with
  | None => None
  | Some (a, s1, e1) =>
    match k a s1 with
    | None => None
    | Some (b, s2, e2) => Some (b, s2, e1 ++ e2)
    end
  end.

Definition uget {S E} : MU S E S := λ s, Some (s, s, []).
Definition umodify {S E} (f : S → S) : MU S E () := λ s, Some ((), f s, []).
Definition uemit {S E} (e : list E) : MU S E () := λ s, Some ((), s, e).
Definition undef {S E A} : MU S E A := λ _, None.
Definition of_ptr {S E A} (o : option A) : MU S E A :=
  match o with Some a => mret a | None => undef end.

(** A call whose result is ignored. *)
Definition udone {S E A} (m : MU S E A) : MU S E () := _ ← m; mret ().

(** Total correctness: [m] has a defined behaviour from [s], and its result,
    final object and events satisfy [Q]. *)
Definition wp {S E A} (m : MU S E A) (Q : A → S → list E → Prop) (s : S) : Prop :=
  match m s with Some (a, s', e) => Q a s' e | None => False end.

Section Wp.
Context {S E : Type}.

Lemma wp_ret {A} (a : A) (Q : A → S → list E → Prop) s : Q a s [] → wp (mret a) Q s.
Proof. done. Qed.

Lemma wp_bind {A B} (m : MU S E A) (k : A → MU S E B) Q s :
  wp m (λ a s1 e1, wp (k a) (λ b s2 e2, Q b s2 (e1 ++ e2)) s1) s → wp (m ≫= k) Q s.
Proof.
  unfold wp, mbind, MU_bind. destruct (m s) as [[[a s1] e1]|]; [|done].
  by destruct (k a s1) as [[[b s2] e2]|].
Qed.

Lemma wp_bind_inv {A B} (m : MU S E A) (k : A → MU S E B) Q s :
  wp (m ≫= k) Q s → wp m (λ a s1 e1, wp (k a) (λ b s2 e2, Q b s2 (e1 ++ e2)) s1) s.
Proof.
  unfold wp, mbind, MU_bind. destruct (m s) as [[[a s1] e1]|]; [|done].
  by destruct (k a s1) as [[[b s2] e2]|].
Qed.

Lemma wp_get (Q : S → S → list E → Prop) s : Q s s [] → wp uget Q s.
Proof. done. Qed.

Lemma wp_modify (f : S → S) (Q : () → S → list E → Prop) s :
  Q () (f s) [] → wp (umodify f) Q s.
Proof. done. Qed.

Lemma wp_emit (e : list E) (Q : () → S → list E → Prop) s : Q () s e → wp (uemit e) Q s.
Proof. done. Qed.

Lemma wp_of_ptr {A} (o : option A) (Q : A → S → list E → Prop) a s :
  o = Some a → Q a s [] → wp (of_ptr o) Q s.
Proof. by intros ->. Qed.

Lemma wp_mono {A} (m : MU S E A) (Q Q' : A → S → list E → Prop) s :
  wp m Q s → (∀ a s' e, Q a s' e → Q' a s' e) → wp m Q' s.
Proof. unfold wp. destruct (m s) as [[[a s'] e]|]; auto. Qed.

Lemma wp_and {A} (m : MU S E A) (Q Q' : A → S → list E → Prop) s :
  wp m Q s → wp m Q' s → wp m (λ a s' e, Q a s' e ∧ Q' a s' e) s.
Proof. unfold wp. by destruct (m s) as [[[a s'] e]|]. Qed.

Lemma wp_defined {A} (m : MU S E A) Q s :
  wp m Q s → ∃ a s' e, m s = Some (a, s', e) ∧ Q a s' e.
Proof. unfold wp. destruct (m s) as [[[a s'] e]|]; [|done]. eauto. Qed.

Lemma wp_udone {A} (m : MU S E A) (P : S → list E → Prop) s :
  wp m (λ _ s' e, P s' e) s → wp (udone m) (λ _ s' e, P s' e) s.
Proof.
  unfold wp, udone, mbind, MU_bind. destruct (m s) as [[[a s'] e]|]; [|done].
  cbn. by rewrite app_nil_r.
Qed.

Lemma wp_of_run {A} (m : MU S E A) (Q : A → S → list E → Prop) s a s' e :
  m s = Some (a, s', e) → Q a s' e → wp m Q s.
Proof. unfold wp. by intros ->. Qed.
End Wp.

(** Partial correctness, for properties of everything a computation can do:
    [Q] holds of its result if its behaviour is defined. *)
Definition wlp {S E A} (m : MU S E A) (Q : A → S → list E → Prop) (s : S) : Prop :=
  match m s with Some (a, s', e) => Q a s' e | None => True end.

Section Wlp.
Context {S E : Type}.

Lemma wlp_bind {A B} (m : MU S E A) (k : A → MU S E B) Q s :
  wlp m (λ a s1 e1, wlp (k a) (λ b s2 e2, Q b s2 (e1 ++ e2)) s1) s → wlp (m ≫= k) Q s.
Proof.
  unfold wlp, mbind, MU_bind. destruct (m s) as [[[a s1] e1]|]; [|done].
  by destruct (k a s1) as [[[b s2] e2]|].
Qed.

Lemma wlp_mono {A} (m : MU S E A) (Q Q' : A → S → list E → Prop) s :
  wlp m Q s → (∀ a s' e, Q a s' e → Q' a s' e) → wlp m Q' s.
Proof. unfold wlp. destruct (m s) as [[[a s'] e]|]; auto. Qed.

Lemma wp_wlp {A} (m : MU S E A) (Q Q' : A → S → list E → Prop) s :
  wp m Q s → wlp m Q' s → wp m (λ a s' e, Q a s' e ∧ Q' a s' e) s.
Proof. unfold wp, wlp. by destruct (m s) as [[[a s'] e]|]. Qed.
End Wlp.

(** One step of the code: the primitive at the head of the goal. *)
Ltac wp_step :=
  lazymatch goal with
  | |- wp (_ ≫= _) _ _ => apply wp_bind
  | |- wp (mret _) _ _ => apply wp_ret
  | |- wp uget _ _ => apply wp_get
  | |- wp (umodify _) _ _ => apply wp_modify
  | |- wp (uemit _) _ _ => apply wp_emit
  end; cbn beta.
Ltac wp_steps := repeat wp_step.

(** ** Case analysis on the tests of the code *)

(** Every [if] and [match] in the goal, keeping the equations. *)
Ltac split_cases :=
  repeat once (case_match; simplify_eq/=).

(** Booleans of comparisons turned into propositions. *)
Ltac to_prop :=
  repeat once match goal with
  | H : (_ =? _) = true |- _ => apply Z.eqb_eq in H
  | H : (_ =? _) = false |- _ => apply Z.eqb_neq in H
  | H : (_ <? _) = true |- _ => apply Z.ltb_lt in H
  | H : (_ <? _) = false |- _ => apply Z.ltb_ge in H
  | H : (_ <=? _) = true |- _ => apply Z.leb_le in H
  | H : (_ <=? _) = false |- _ => apply Z.leb_gt in H
  | H : bool_decide _ = true |- _ => apply bool_decide_eq_true in H
  | H : bool_decide _ = false |- _ => apply bool_decide_eq_false in H
  | H : negb _ = true |- _ => apply negb_true_iff in H
  | H : negb _ = false |- _ => apply negb_false_iff in H
  | H : (_ && _)%bool = true |- _ => apply andb_true_iff in H as [? ?]
  | H : (_ || _)%bool = false |- _ => apply orb_false_iff in H as [? ?]
  end.

(** Membership in a list of constants, by evaluation. *)
Ltac in_list := apply (bool_decide_unpack _); vm_compute; exact I.

Create HintDb avs.
#[export] Hint Resolve uwrap_range : avs.

(** ** Reachability

    Sequences of calls on one object: what every call preserves holds of
    everything that can be reached. *)

Section Reach.
Context {S : Type} (step : S → S → Prop).

Lemma rtc_invariant (I : S → Prop) s s' :
  (∀ a b, I a → step a b → I b) → rtc step s s' → I s → I s'.
Proof. intros Hstep. induction 1; eauto. Qed.
End Reach.

(** ** Lists *)

(** The index-free view of a C list walk that stops at the first hit. *)
Lemma find_Some_split {A} (f : A → bool) l x :
  List.find f l = Some x → f x = true ∧ x ∈ l.
Proof.
  intros H. apply List.find_some in H as [Hin Hf].
  split; [done|]. by apply list_elem_of_In.
Qed.

Lemma find_None_all {A} (f : A → bool) l :
  List.find f l = None → ∀ x, x ∈ l → f x = false.
Proof. intros H x Hx%list_elem_of_In. by eapply List.find_none. Qed.

Lemma find_ext_in {A} (f g : A → bool) l :
  (∀ x, x ∈ l → f x = g x) → List.find f l = List.find g l.
Proof.
  induction l as [|y l IH]; intros H; [done|]. cbn.
  rewrite H by set_solver. destruct (g y); [done|].
  apply IH. intros x Hx. apply H. set_solver.
Qed.

Lemma elem_mid {A} (x : A) l1 l2 : x ∈ l1 ++ x :: l2.
Proof. apply elem_of_app. right. by left. Qed.

#[export] Hint Resolve elem_mid : avs.
