(* ===== verification/LibRe.v ===== *)
(** * The interface to libre

    AVS is written against libre ([re.h]), a separate library whose sources
    are not part of the repository.  [LibRe] lists the functions the modelled
    code calls; [LibReSpec] states what the code relies on.  A [char *] that
    may be [NULL] is an [option string]; a [char\[N\]] array is the string it
    holds.  [LibReRef] is one concrete implementation that satisfies the laws,
    so that every definition of the development can be evaluated. *)

From S2P Require Import Prelude.

Class LibRe := {
  (** [str_casecmp(s1, s2)]: compare, ignoring case. *)
  str_casecmp : option string → option string → Z;
  (** The contents of an [n]-byte array after [str_ncpy(dst, src, n)]. *)
  str_ncpy : string → nat → string;
  (** [str_isset(s)]: not [NULL] and not empty. *)
  str_isset : option string → bool;
  (** [list_sort(list, sh, arg)]: [sh le1 le2] tells that [le1] may stay in
      front of [le2]. *)
  list_sort : ∀ {A : Type}, (A → A → bool) → list A → list A;
  (** [hash_joaat_str_ci(str)]: case-insensitive 32-bit hash. *)
  hash_joaat_str_ci : string → Z;
}.

Class LibReSpec `{L : LibRe} : Prop := {
  str_casecmp_refl s : str_casecmp s s = 0;
  str_casecmp_sym s t : str_casecmp s t = 0 → str_casecmp t s = 0;
  str_casecmp_trans s t u :
    str_casecmp s t = 0 → str_casecmp t u = 0 → str_casecmp s u = 0;
  str_casecmp_null s : str_casecmp (Some s) None ≠ 0;
  str_ncpy_fits s n : (String.length s < n)%nat → str_ncpy s n = s;
  str_ncpy_bound s n : (0 < n)%nat → (String.length (str_ncpy s n) < n)%nat;
  str_isset_Some s : str_isset (Some s) = bool_decide (s ≠ ""%string);
  str_isset_None : str_isset None = false;
  list_sort_perm {A} (sh : A → A → bool) l : list_sort sh l ≡ₚ l;
  list_sort_sorted {A} (sh : A → A → bool) l :
    (∀ x y, sh x y = true ∨ sh y x = true) →
    (∀ x y z, sh x y = true → sh y z = true → sh x z = true) →
    StronglySorted (λ x y, sh x y = true) (list_sort sh l);
  hash_joaat_range s : 0 <= hash_joaat_str_ci s < 2 ^ 32;
  hash_joaat_ci s t :
    str_casecmp (Some s) (Some t) = 0 →
    hash_joaat_str_ci s = hash_joaat_str_ci t;
}.

(** [strcaseeq(a, b)] of [include/avs_string.h]. *)
Definition strcaseeq `{LibRe} (a b : option string) : bool :=
  str_casecmp a b =? 0.

(** Identifiers are compared up to case: the equivalence under which the
    components look up users and clients. *)
Definition ci_eq `{LibRe} (a b : option string) : Prop := str_casecmp a b = 0.

Section CiEq.
Context `{LibReSpec}.

#[export] Instance ci_eq_equivalence : Equivalence ci_eq.
Proof.
  split.
  - intros s. apply str_casecmp_refl.
  - intros s t. apply str_casecmp_sym.
  - intros s t u. apply str_casecmp_trans.
Qed.

#[export] Instance strcaseeq_proper : Proper (ci_eq ==> ci_eq ==> eq) strcaseeq.
Proof.
  intros a a' Ha b b' Hb. unfold strcaseeq.
  apply eq_bool_prop_intro. rewrite !Is_true_true, !Z.eqb_eq.
  change (ci_eq a b ↔ ci_eq a' b'). by rewrite Ha, Hb.
Qed.

Lemma strcaseeq_true a b : strcaseeq a b = true ↔ ci_eq a b.
Proof. unfold strcaseeq, ci_eq. by rewrite Z.eqb_eq. Qed.

Lemma strcaseeq_refl a : strcaseeq a a = true.
Proof. by rewrite strcaseeq_true. Qed.

Lemma strcaseeq_comm a b : strcaseeq a b = strcaseeq b a.
Proof.
  apply eq_bool_prop_intro. rewrite !Is_true_true, !strcaseeq_true.
  by split; symmetry.
Qed.
End CiEq.

(** ** A concrete implementation *)

Module LibReRef.

Definition lower_ascii (c : Ascii.ascii) : Ascii.ascii :=
  let n := Ascii.nat_of_ascii c in
  if ((65 <=? n) && (n <=? 90))%nat%bool then Ascii.ascii_of_nat (n + 32) else c.

Fixpoint lower (s : string) : string :=
  match s with
  | EmptyString => EmptyString
  | String c s => String (lower_ascii c) (lower s)
  end.

Definition casecmp (a b : option string) : Z :=
  if bool_decide ((lower <$> a) = (lower <$> b)) then 0 else 1.

Fixpoint take_str (n : nat) (s : string) : string :=
  match n, s with
  | S n, String c s => String c (take_str n s)
  | _, _ => EmptyString
  end.

Fixpoint insert_by {A} (sh : A → A → bool) (x : A) (l : list A) : list A :=
  match l with
  | [] => [x]
  | y :: l' => if sh x y then x :: l else y :: insert_by sh x l'
  end.

Fixpoint sort_by {A} (sh : A → A → bool) (l : list A) : list A :=
  match l with
  | [] => []
  | x :: l => insert_by sh x (sort_by sh l)
  end.

Fixpoint sum_codes (s : string) : Z :=
  match s with
  | EmptyString => 7
  | String c s => uwrap 32 (31 * sum_codes s + Z.of_nat (Ascii.nat_of_ascii c))
  end.

#[export] Instance libre : LibRe := {|
  str_casecmp := casecmp;
  str_ncpy := λ s n, take_str (n - 1) s;
  str_isset := λ s, match s with Some s => bool_decide (s ≠ ""%string) | None => false end;
  list_sort := λ A sh l, sort_by sh l;
  hash_joaat_str_ci := λ s, sum_codes (lower s);
|}.

Lemma casecmp_spec a b : casecmp a b = 0 ↔ (lower <$> a) = (lower <$> b).
Proof. unfold casecmp. case_bool_decide; split; congruence. Qed.

Lemma take_str_all n s : (String.length s ≤ n)%nat → take_str n s = s.
Proof.
  revert n. induction s as [|c s IH]; intros [|n] Hn; simpl in *; try done; [lia|].
  f_equal. apply IH. lia.
Qed.

Lemma take_str_length n s : (String.length (take_str n s) ≤ n)%nat.
Proof.
  revert n. induction s as [|c s IH]; intros [|n]; simpl; try lia.
  specialize (IH n). lia.
Qed.

Lemma insert_by_perm {A} (sh : A → A → bool) x l : insert_by sh x l ≡ₚ x :: l.
Proof.
  induction l as [|y l IH]; simpl; [done|]. case_match; [done|].
  rewrite IH. by apply perm_swap.
Qed.

Lemma sort_by_perm {A} (sh : A → A → bool) l : sort_by sh l ≡ₚ l.
Proof. induction l as [|x l IH]; simpl; [done|]. by rewrite insert_by_perm, IH. Qed.

Lemma insert_by_sorted {A} (sh : A → A → bool) x l :
  (∀ x y, sh x y = true ∨ sh y x = true) →
  (∀ x y z, sh x y = true → sh y z = true → sh x z = true) →
  StronglySorted (λ x y, sh x y = true) l →
  StronglySorted (λ x y, sh x y = true) (insert_by sh x l).
Proof.
  intros Htot Htr. induction 1 as [|y l Hl IH Hy]; simpl.
  { repeat constructor. }
  case_match eqn:Hxy.
  - constructor; [by constructor|]. constructor; [done|].
    eapply Forall_impl; [exact Hy|]. intros z Hz. by eapply Htr.
  - constructor; [done|]. rewrite insert_by_perm. constructor; [|done].
    destruct (Htot x y); congruence.
Qed.

Lemma sum_codes_range s : 0 <= sum_codes s < 2 ^ 32.
Proof. destruct s; simpl; [lia|]. apply uwrap_range. lia. Qed.

#[export] Instance libre_spec : LibReSpec (L := libre).
Proof.
  split; cbn -[Z.pow].
  - intros s. by apply casecmp_spec.
  - intros s t. rewrite !casecmp_spec. congruence.
  - intros s t u. rewrite !casecmp_spec. congruence.
  - intros s. rewrite casecmp_spec. cbn. congruence.
  - intros s n Hn. apply take_str_all. lia.
  - intros s n Hn. pose proof (take_str_length (n - 1) s). lia.
  - done.
  - done.
  - intros A sh l. apply sort_by_perm.
  - intros A sh l Htot Htr. induction l; simpl; [constructor|].
    by apply insert_by_sorted.
  - intros s. apply sum_codes_range.
  - intros s t. rewrite casecmp_spec. simpl. congruence.
Qed.

End LibReRef.
