(* ===== verification/LibReJson.v ===== *)
(** * The interface to libre, continued: dictionaries, JSON, numbers and Base64

    The message format of AVS rests on libre's ordered dictionary ([odict]), its
    JSON reader and writer, its [printf] and number scanners and its Base64
    coder.  The entries of a dictionary are read and written by AVS directly
    ([entry.type], [entry.u], the list [lst]), so they are a data type here;
    the functions are the class [LibReJson], what the code relies on is
    [LibReJsonSpec], and [LibReJsonRef] is a concrete instance.  Strings are
    those that C can hold: they end at their first zero byte. *)

From Stdlib Require Import Ascii DecimalString DecimalN.
From stdpp Require Import countable.
From S2P Require Import Prelude LibRe.

#[local] Open Scope Z_scope.
#[local] Set Warnings "-register-all".

(** [struct odict_entry] (and [struct json_object], which contains nothing
    else): the type of the entry and its value.  A double is its bit pattern. *)
Inductive json_object :=
| ODICT_OBJECT (lst : list (string * json_object))
| ODICT_ARRAY (lst : list (string * json_object))
| ODICT_STRING (s : string)
| ODICT_INT (i : Z)
| ODICT_DOUBLE (bits : Z)
| ODICT_BOOL (b : bool)
| ODICT_NULL.

(** [struct odict]: the entries under their keys, in the order of the list. *)
Abbreviation odict := (list (string * json_object)).

(** [struct pl]: [None] is [PL_INIT]. *)
Abbreviation pl := (option string).

Class LibReJson := {
  (** [odict_entry_add(o, key, type, value)] *)
  odict_entry_add : odict → string → json_object → odict;
  (** [odict_lookup(o, key)] *)
  odict_lookup : odict → string → option json_object;
  (** [odict_count(o, false)] *)
  odict_count : odict → nat;
  (** The text [json_encode_odict] prints. *)
  json_encode_odict : odict → string;
  (** [json_decode_odict(&o, 16, buf, len, maxlev)]: an error or a dictionary. *)
  json_decode_odict : string → nat → Z + odict;
  (** The match of [re_regex(buf, len, "\[^ \t\r\n\]1", &pl)]. *)
  re_first_token : string → option Ascii.ascii;
  (** [base64_encode(buf, len, b64, &olen)], [base64_decode(str, len, buf, &olen)] *)
  base64_encode : list Z → nat → Z + string;
  base64_decode : string → nat → Z + list Z;
  (** What [re_vsdprintf] makes of a format that is given no arguments, of
      [%s] and of [%u], [%llu], [%zu] and [%d] for a number that is not negative. *)
  re_format : string → string;
  re_s : option string → string;
  re_u : Z → string;
  pl_set_str : pl → option string → pl;
  pl_u32 : pl → Z;
  pl_u64 : pl → Z;
}.

(** A number in decimal digits. *)
Definition decimal (n : Z) : string := NilZero.string_of_uint (N.to_uint (Z.to_N n)).

(** The keys of the [n] elements of an array. *)
Definition index_keys (n : nat) : list string := (λ i, decimal (Z.of_nat i)) <$> seq 0 n.

(** What can be written and read back: keys are used once, the elements of an
    array are numbered, integers fit [int64_t], containers are nested at most
    [d] deep. *)
Fixpoint json_ok (d : nat) (v : json_object) : Prop :=
  match v with
  | ODICT_OBJECT l =>
    match d with
    | O => False
    | S d => NoDup l.*1 ∧ Forall (λ e, json_ok d e.2) l
    end
  | ODICT_ARRAY l =>
    match d with
    | O => False
    | S d => l.*1 = index_keys (length l) ∧ Forall (λ e, json_ok d e.2) l
    end
  | ODICT_INT i => - 2 ^ 63 <= i < 2 ^ 63
  | ODICT_DOUBLE _ => False
  | _ => True
  end.

Fixpoint no_percent (s : string) : Prop :=
  match s with
  | EmptyString => True
  | String c s => c ≠ "%"%char ∧ no_percent s
  end.

(** The length of the Base64 text of [n] bytes. *)
Definition base64_len (n : nat) : nat := (4 * ((n + 2) / 3))%nat.

Class LibReJsonSpec `{L : LibRe} `{J : LibReJson} : Prop := {
  str_casecmp_lower s t :
    str_casecmp (Some s) (Some t) = 0 → LibReRef.lower s = LibReRef.lower t;
  odict_entry_add_fresh o k v : k ∉ o.*1 → odict_entry_add o k v = o ++ [(k, v)];
  odict_lookup_in o k v : NoDup o.*1 → (k, v) ∈ o → odict_lookup o k = Some v;
  odict_lookup_out o k : k ∉ o.*1 → odict_lookup o k = None;
  odict_count_length o : odict_count o = length o;
  json_decode_encode o d maxlev :
    json_ok d (ODICT_OBJECT o) → (d < maxlev)%nat →
    json_decode_odict (json_encode_odict o) maxlev = inr o;
  json_encode_token o : re_first_token (json_encode_odict o) = Some "{"%char;
  json_encode_nonempty o : json_encode_odict o ≠ ""%string;
  base64_encode_fits b olen :
    bytes_ok b → (base64_len (length b) ≤ olen)%nat →
    ∃ s, base64_encode b olen = inr s
         ∧ String.length s = base64_len (length b) ∧ no_percent s
         ∧ ∀ n, (3 * (String.length s / 4) ≤ n)%nat → base64_decode s n = inr b;
  base64_decode_bytes s n b : base64_decode s n = inr b → bytes_ok b;
  re_format_plain s : no_percent s → re_format s = s;
  re_s_Some s : re_s (Some s) = s;
  re_u_decimal n : 0 <= n → re_u n = decimal n;
  pl_set_str_Some p s : pl_set_str p (Some s) = Some s;
  pl_u32_decimal n : 0 <= n < 2 ^ 32 → pl_u32 (Some (decimal n)) = n;
  pl_u64_decimal n : 0 <= n < 2 ^ 64 → pl_u64 (Some (decimal n)) = n;
  pl_u32_range p : 0 <= pl_u32 p < 2 ^ 32;
  pl_u64_range p : 0 <= pl_u64 p < 2 ^ 64;
}.

(** ** [sscanf(s, "%u", &x)] of the C library

    White space, a sign, decimal digits; a value beyond [unsigned long] is
    clamped, and stored in 32 bits.  [None]: nothing is stored. *)

Fixpoint skip_space (s : string) : string :=
  match s with
  | String c s' =>
    let n := Ascii.nat_of_ascii c in
    if (n =? 32)%nat || ((9 <=? n) && (n <=? 13))%nat then skip_space s' else s
  | EmptyString => EmptyString
  end.

Definition is_digit (c : Ascii.ascii) : bool :=
  let n := Ascii.nat_of_ascii c in ((48 <=? n) && (n <=? 57))%nat.

Fixpoint digits (s : string) : string :=
  match s with
  | String c s' => if is_digit c then String c (digits s') else EmptyString
  | EmptyString => EmptyString
  end.

Definition scan_digits (s : string) : option Z :=
  d ← NilZero.uint_of_string (digits s); Some (Z.of_N (N.of_uint d)).

Definition sscanf_u (s : string) : option Z :=
  match skip_space s with
  | String "-" s' => (λ v, u32 (- Z.min v (2 ^ 64 - 1))) <$> scan_digits s'
  | String "+" s' => (λ v, u32 (Z.min v (2 ^ 64 - 1))) <$> scan_digits s'
  | s' => (λ v, u32 (Z.min v (2 ^ 64 - 1))) <$> scan_digits s'
  end.

Lemma digits_of_uint d : digits (NilEmpty.string_of_uint d) = NilEmpty.string_of_uint d.
Proof. induction d as [|d IH|d IH|d IH|d IH|d IH|d IH|d IH|d IH|d IH|d IH]; cbn; by rewrite ?IH. Qed.

Lemma to_uint_not_nil n : N.to_uint n ≠ Decimal.Nil.
Proof.
  intros E. pose proof (DecimalN.Unsigned.of_to n) as H. rewrite E in H. cbn in H. by subst.
Qed.

Lemma decimal_digits n : digits (decimal n) = decimal n.
Proof.
  unfold decimal, NilZero.string_of_uint. destruct (N.to_uint _) eqn:E; rewrite <- ?E; [done|..];
    apply digits_of_uint.
Qed.

Lemma scan_decimal n : 0 <= n → scan_digits (decimal n) = Some n.
Proof.
  intros Hn. unfold scan_digits. rewrite decimal_digits. unfold decimal.
  rewrite NilZero.usu by apply to_uint_not_nil. cbn.
  by rewrite DecimalN.Unsigned.of_to, Z2N.id.
Qed.

(** The first character of a decimal is a digit. *)
Lemma decimal_head n : ∃ c s, decimal n = String c s ∧ is_digit c = true.
Proof.
  unfold decimal, NilZero.string_of_uint. pose proof (to_uint_not_nil (Z.to_N n)).
  destruct (N.to_uint _); [done|..]; cbn; eauto.
Qed.

Lemma sscanf_decimal n : 0 <= n < 2 ^ 32 → sscanf_u (decimal n) = Some n.
Proof.
  intros Hn. pose proof (scan_decimal n ltac:(lia)) as Hs. unfold sscanf_u.
  destruct (decimal_head n) as (c & s & E & Hc). rewrite E in Hs |- *.
  transitivity ((λ v, u32 (Z.min v (2 ^ 64 - 1))) <$> scan_digits (String c s)).
  { by destruct c as [[] [] [] [] [] [] [] []]. }
  rewrite Hs. cbn. rewrite Z.min_l by lia. by rewrite uwrap_small by lia.
Qed.

(** ** A concrete implementation *)

Module LibReJsonRef.

(** *** JSON values as trees, and trees as texts *)

Abbreviation tree := (gen_tree (string + Z)).

Fixpoint to_tree (v : json_object) : tree :=
  let entries := map (λ e : string * json_object,
                        GenNode 9 [GenLeaf (inl e.1); to_tree e.2]) in
  match v with
  | ODICT_OBJECT l => GenNode 0 (entries l)
  | ODICT_ARRAY l => GenNode 1 (entries l)
  | ODICT_STRING s => GenNode 2 [GenLeaf (inl s)]
  | ODICT_INT i => GenNode 3 [GenLeaf (inr i)]
  | ODICT_DOUBLE b => GenNode 4 [GenLeaf (inr b)]
  | ODICT_BOOL b => GenNode (if b then 6 else 5) []
  | ODICT_NULL => GenNode 7 []
  end.

Fixpoint of_tree (t : tree) : json_object :=
  let entries := map (λ t : tree,
    match t with
    | GenNode _ [GenLeaf (inl k); t] => (k, of_tree t)
    | _ => (""%string, ODICT_NULL)
    end) in
  match t with
  | GenNode 0 l => ODICT_OBJECT (entries l)
  | GenNode 1 l => ODICT_ARRAY (entries l)
  | GenNode 2 [GenLeaf (inl s)] => ODICT_STRING s
  | GenNode 3 [GenLeaf (inr i)] => ODICT_INT i
  | GenNode 4 [GenLeaf (inr b)] => ODICT_DOUBLE b
  | GenNode 5 _ => ODICT_BOOL false
  | GenNode 6 _ => ODICT_BOOL true
  | _ => ODICT_NULL
  end.

Fixpoint of_to_tree (v : json_object) : of_tree (to_tree v) = v.
Proof.
  destruct v as [l|l|s|i|b|[]|]; cbn; f_equal.
  all: rewrite map_map.
  all: induction l as [|[k v] l IH]; cbn; [done|].
  all: by rewrite IH, of_to_tree.
Qed.

Fixpoint bits (p : positive) : string :=
  match p with
  | xH => EmptyString
  | xO p => String "0" (bits p)
  | xI p => String "1" (bits p)
  end.

Fixpoint of_bits (s : string) : positive :=
  match s with
  | EmptyString => xH
  | String c s => if Ascii.eqb c "0" then xO (of_bits s) else xI (of_bits s)
  end.

Lemma of_bits_bits p : of_bits (bits p) = p.
Proof. induction p; cbn; congruence. Qed.

Definition to_text (o : odict) : string :=
  String "{" (bits (encode (to_tree (ODICT_OBJECT o)))).

Definition of_text (s : string) : Z + odict :=
  match s with
  | String c s =>
    match (decode (of_bits s) : option tree) with
    | Some t => match of_tree t with ODICT_OBJECT o => inr o | _ => inl EBADMSG end
    | None => inl EBADMSG
    end
  | EmptyString => inl EBADMSG
  end.

Lemma of_to_text o : of_text (to_text o) = inr o.
Proof. unfold of_text, to_text. by rewrite of_bits_bits, decode_encode, of_to_tree. Qed.

(** *** Dictionaries *)

Fixpoint lookup_first (o : odict) (k : string) : option json_object :=
  match o with
  | [] => None
  | (k', v) :: o => if bool_decide (k' = k) then Some v else lookup_first o k
  end.

Lemma lookup_first_in o k v : NoDup o.*1 → (k, v) ∈ o → lookup_first o k = Some v.
Proof.
  induction o as [|[k' v'] o IH]; cbn; [by intros _ ?%elem_of_nil|].
  intros [Hk Ho]%NoDup_cons [E|Hin]%elem_of_cons.
  - injection E as -> ->. by rewrite bool_decide_true.
  - rewrite bool_decide_false; [by apply IH|]. intros ->. apply Hk.
    apply list_elem_of_fmap. by exists (k, v).
Qed.

Lemma lookup_first_out o k : k ∉ o.*1 → lookup_first o k = None.
Proof.
  induction o as [|[k' v'] o IH]; cbn; [done|]. intros [Hk Ho]%not_elem_of_cons.
  rewrite bool_decide_false by congruence. by apply IH.
Qed.

(** *** Base64 *)

Definition alphabet : list Ascii.ascii :=
  list_ascii_of_string "ABCDEFGHIJKLMNOPQRSTUVWXYZabcdefghijklmnopqrstuvwxyz0123456789+/".

Definition chr (x : Z) : Ascii.ascii := nth (Z.to_nat x) alphabet "="%char.
Definition val (c : Ascii.ascii) : option Z :=
  (λ r, Z.of_nat r.1) <$> list_find (c =.) alphabet.

Fixpoint b64_encode (b : list Z) : string :=
  match b with
  | x :: y :: z :: b =>
    String (chr (x / 4)) (String (chr (x mod 4 * 16 + y / 16))
      (String (chr (y mod 16 * 4 + z / 64)) (String (chr (z mod 64)) (b64_encode b))))
  | [x; y] =>
    String (chr (x / 4)) (String (chr (x mod 4 * 16 + y / 16))
      (String (chr (y mod 16 * 4)) "="))
  | [x] => String (chr (x / 4)) (String (chr (x mod 4 * 16)) "==")
  | [] => EmptyString
  end.

Fixpoint b64_decode (s : string) : option (list Z) :=
  match s with
  | EmptyString => Some []
  | String c1 (String c2 (String c3 (String c4 s))) =>
    x1 ← val c1; x2 ← val c2;
    match val c3, val c4 with
    | Some x3, Some x4 =>
      b ← b64_decode s;
      Some (u8 (x1 * 4 + x2 / 16) :: u8 (x2 mod 16 * 16 + x3 / 4) :: u8 (x3 mod 4 * 64 + x4) :: b)
    | Some x3, None => Some [u8 (x1 * 4 + x2 / 16); u8 (x2 mod 16 * 16 + x3 / 4)]
    | None, _ => Some [u8 (x1 * 4 + x2 / 16)]
    end
  | _ => None
  end.

Lemma val_chr x : 0 <= x < 64 → val (chr x) = Some x.
Proof.
  intros Hx.
  assert (Forall (λ n, val (chr (Z.of_nat n)) = Some (Z.of_nat n)) (seq 0 64)) as H.
  { apply (bool_decide_unpack _). by vm_compute. }
  rewrite Forall_forall in H. specialize (H (Z.to_nat x)). rewrite Z2Nat.id in H by lia.
  apply H, elem_of_seq. lia.
Qed.

Lemma chr_no_percent x : chr x ≠ "%"%char.
Proof.
  unfold chr.
  assert (Forall (λ c, c ≠ "%"%char) ("="%char :: alphabet)) as H.
  { apply (bool_decide_unpack _). by vm_compute. }
  rewrite Forall_forall in H. apply H.
  destruct (nth_in_or_default (Z.to_nat x) alphabet "="%char) as [Hin|E].
  - right. by apply list_elem_of_In.
  - rewrite E. left.
Qed.

(** Three bytes at a time. *)
Lemma triples (P : list Z → Prop) :
  P [] → (∀ x, P [x]) → (∀ x y, P [x; y]) → (∀ x y z b, P b → P (x :: y :: z :: b)) →
  ∀ b, P b.
Proof.
  intros H0 H1 H2 H3. fix IH 1. intros [|x [|y [|z b]]]; [done|done|done|]. apply H3, IH.
Qed.

Lemma b64_decode_encode b : bytes_ok b → b64_decode (b64_encode b) = Some b.
Proof.
  assert (val "=" = None) as He by by vm_compute.
  unfold bytes_ok, byte_ok. induction b as [|x|x y|x y z b IH] using triples; [done|..];
    rewrite !Forall_cons; intros Hb; cbn [b64_encode b64_decode].
  all: rewrite ?He, !val_chr by lia_div; cbn; rewrite ?IH by tauto; cbn; unfold uwrap.
  all: repeat f_equal; lia_div.
Qed.

Lemma b64_encode_length b : String.length (b64_encode b) = base64_len (length b).
Proof.
  unfold base64_len. induction b as [|x|x y|x y z b IH] using triples; [done..|].
  cbn [b64_encode String.length length]. rewrite IH.
  replace (S (S (S (length b))) + 2)%nat with (length b + 2 + 1 * 3)%nat by lia.
  rewrite Nat.div_add by lia. lia.
Qed.

Lemma b64_encode_no_percent b : no_percent (b64_encode b).
Proof.
  induction b as [|x|x y|x y z b IH] using triples; cbn; repeat split; try done.
  all: apply chr_no_percent.
Qed.

Fixpoint b64_decode_bytes (s : string) : ∀ b, b64_decode s = Some b → bytes_ok b.
Proof.
  destruct s as [|c1 [|c2 [|c3 [|c4 s]]]]; [by intros b [= <-]; constructor|intros b [=]..|].
  cbn [b64_decode].
  destruct (val c1) as [x1|], (val c2) as [x2|]; cbn -[val]; [|intros b [=]..].
  assert (∀ x, byte_ok (u8 x)) by (intros; apply uwrap_range; lia).
  destruct (val c3) as [x3|], (val c4) as [x4|]; cbn -[b64_decode uwrap].
  2-4: intros b E; injection E as <-; unfold bytes_ok; rewrite !Forall_cons; auto.
  destruct (b64_decode s) as [b'|] eqn:E; [|intros b [=]]. intros b [= <-].
  apply b64_decode_bytes in E. unfold bytes_ok in *. rewrite !Forall_cons. auto.
Qed.

(** *** Numbers *)

Definition pl_number (w : Z) (p : pl) : Z :=
  match p with
  | Some s => uwrap w (default 0 (scan_digits s))
  | None => 0
  end.

#[export] Instance librejson : LibReJson := {|
  odict_entry_add := λ o k v, o ++ [(k, v)];
  odict_lookup := lookup_first;
  odict_count := λ o, length o;
  json_encode_odict := to_text;
  json_decode_odict := λ s _, of_text s;
  re_first_token := λ s, match skip_space s with String c _ => Some c | _ => None end;
  base64_encode := λ b n,
    if (n <? base64_len (length b))%nat then inl EOVERFLOW else inr (b64_encode b);
  base64_decode := λ s n,
    if (n <? 3 * (String.length s / 4))%nat then inl EOVERFLOW else
    match b64_decode s with Some b => inr b | None => inl EINVAL end;
  re_format := λ s, s;
  re_s := λ s, default ""%string s;
  re_u := decimal;
  pl_set_str := λ p s, match s with Some s => Some s | None => p end;
  pl_u32 := pl_number 32;
  pl_u64 := pl_number 64;
|}.

Lemma pl_number_decimal w n : 0 <= n < 2 ^ w → pl_number w (Some (decimal n)) = n.
Proof. intros Hn. cbn. rewrite scan_decimal by lia. by apply uwrap_small. Qed.

Lemma pl_number_range w p : 0 <= w → 0 <= pl_number w p < 2 ^ w.
Proof. intros. destruct p; cbn; [by apply uwrap_range|]. pose proof (Z.pow_pos_nonneg 2 w). lia. Qed.

#[export] Instance librejson_spec : LibReJsonSpec (L := LibReRef.libre) (J := librejson).
Proof.
  split; cbn -[Z.pow Nat.div Nat.mul Nat.ltb base64_len b64_encode b64_decode to_text of_text decimal pl_number].
  - intros s t. rewrite LibReRef.casecmp_spec. cbn. by intros [= ?].
  - done.
  - intros. by apply lookup_first_in.
  - intros. by apply lookup_first_out.
  - done.
  - intros. apply of_to_text.
  - done.
  - done.
  - intros b n Hb Hn. exists (b64_encode b). rewrite (proj2 (Nat.ltb_ge _ _)) by lia.
    split; [done|]. split; [apply b64_encode_length|]. split; [apply b64_encode_no_percent|].
    intros m Hm. rewrite (proj2 (Nat.ltb_ge _ _)) by lia. by rewrite b64_decode_encode.
  - intros s n b. case_match; [done|]. destruct (b64_decode s) eqn:E; [|done].
    intros [= <-]. by eapply b64_decode_bytes.
  - done.
  - done.
  - done.
  - done.
  - intros. by apply pl_number_decimal.
  - intros. by apply pl_number_decimal.
  - intros. by apply pl_number_range.
  - intros. by apply pl_number_range.
Qed.

End LibReJsonRef.
