(* ===== verification/Jzon.v ===== *)
(** * JSON access ([src/jzon/jzon.c], [src/jzon/jsonc.c])

    The layer between the message code and libre's dictionaries.  A pointer to a
    [json_object] that may be [NULL] is an [option]; a function that stores
    through a pointer and returns an error code returns the error or the value
    ([cres]); a function that changes a container returns the new container.
    Allocation succeeds. *)

From Stdlib Require Import Ascii.
From S2P Require Import Prelude LibRe LibReJson.

(** An error code or a value. *)
Definition cres (A : Type) : Type := Z + A.

#[global] Instance cres_ret : MRet cres := λ _ a, inr a.
#[global] Instance cres_bind : MBind cres := λ A B k m,
  match m with inl err => inl err | inr a => k a end.

(** A result that is not tested: the variable keeps its value on errors. *)
Definition or_keep {A} (m : cres A) (old : A) : A :=
  match m with inl _ => old | inr a => a end.

Definition failed {A} (m : cres A) : bool :=
  match m with inl _ => true | inr _ => false end.

(** [enum odict_type] *)
Inductive odict_type :=
| TYPE_OBJECT | TYPE_ARRAY | TYPE_STRING | TYPE_INT | TYPE_DOUBLE | TYPE_BOOL | TYPE_NULL.

#[global] Instance odict_type_eq_dec : EqDecision odict_type.
Proof. solve_decision. Defined.

Definition entry_type (v : json_object) : odict_type :=
  match v with
  | ODICT_OBJECT _ => TYPE_OBJECT
  | ODICT_ARRAY _ => TYPE_ARRAY
  | ODICT_STRING _ => TYPE_STRING
  | ODICT_INT _ => TYPE_INT
  | ODICT_DOUBLE _ => TYPE_DOUBLE
  | ODICT_BOOL _ => TYPE_BOOL
  | ODICT_NULL => TYPE_NULL
  end.

Section Jzon.
Context `{LibRe, LibReJson}.

(** ** [jsonc.c] *)

(** [jzon_is_container] *)
Definition jzon_is_container (obj : option json_object) : bool :=
  match obj with
  | Some (ODICT_OBJECT _) | Some (ODICT_ARRAY _) => true
  | _ => false
  end.

(** [jzon_odict] *)
Definition jzon_odict (jobj : option json_object) : option odict :=
  match jobj with
  | Some (ODICT_OBJECT o) | Some (ODICT_ARRAY o) => Some o
  | _ => None
  end.

(** [jzon_container_alloc] *)
Definition jzon_container_alloc (type : odict_type) : option json_object :=
  match type with
  | TYPE_OBJECT => Some (ODICT_OBJECT [])
  | TYPE_ARRAY => Some (ODICT_ARRAY [])
  | _ => None
  end.

(** [json_object_new_object], [jzon_alloc_object], [json_object_new_array],
    [jzon_alloc_array] *)
Definition json_object_new_object : json_object := ODICT_OBJECT [].
Definition json_object_new_array : json_object := ODICT_ARRAY [].

(** [json_object_new_string] *)
Definition json_object_new_string (str : option string) : option json_object :=
  ODICT_STRING <$> str.

(** [json_object_new_int], [json_object_new_boolean] *)
Definition json_object_new_int (i : Z) : json_object := ODICT_INT (s32 i).
Definition json_object_new_boolean (b : bool) : json_object := ODICT_BOOL b.

(** A container with other entries. *)
Definition set_odict (jobj : json_object) (o : odict) : json_object :=
  match jobj with
  | ODICT_OBJECT _ => ODICT_OBJECT o
  | ODICT_ARRAY _ => ODICT_ARRAY o
  | v => v
  end.

(** [add_entry] *)
Definition add_entry (jobj : json_object) (key : string) (val : json_object)
    : cres json_object :=
  match jzon_odict (Some jobj) with
  | None => inl ENOSYS
  | Some odict => inr (set_odict jobj (odict_entry_add odict key val))
  end.

(** [json_object_object_add] *)
Definition json_object_object_add (jobj : json_object) (key : string)
    (val : option json_object) : json_object :=
  if negb (jzon_is_container (Some jobj)) then jobj else
  or_keep (add_entry jobj key (default ODICT_NULL val)) jobj.

(** [json_object_array_add]: the new array, or [None] for -1. *)
Definition json_object_array_add (jobj : json_object) (val : option json_object)
    : option json_object :=
  match jobj with
  | ODICT_ARRAY o =>
    let key := re_u (Z.of_nat (odict_count o)) in
    match add_entry jobj key (default ODICT_NULL val) with
    | inl _ => None
    | inr jobj => Some jobj
    end
  | _ => None
  end.

(** [json_object_array_length] *)
Definition json_object_array_length (jobj : option json_object) : Z :=
  match jobj with
  | Some (ODICT_ARRAY o) => s32 (Z.of_nat (odict_count o))
  | _ => 0
  end.

(** [json_object_array_get_idx] *)
Definition json_object_array_get_idx (obj : option json_object) (idx : Z)
    : option json_object :=
  match obj with
  | None => None
  | Some obj =>
    if idx <? 0 then None else
    match obj with
    | ODICT_ARRAY o => odict_lookup o (re_u idx)
    | _ => None
    end
  end.

(** [json_object_object_get_ex] *)
Definition json_object_object_get_ex (obj : option json_object) (key : string)
    : option json_object :=
  match obj with
  | Some (ODICT_OBJECT o) => odict_lookup o key
  | _ => None
  end.

(** [json_object_get_string] *)
Definition json_object_get_string (jobj : option json_object) : option string :=
  match jobj with
  | Some (ODICT_STRING s) => Some s
  | _ => None
  end.

(** [json_object_get_type], [json_object_is_type] *)
Definition json_object_get_type (obj : option json_object) : option odict_type :=
  entry_type <$> obj.
Definition json_object_is_type (obj : option json_object) (type : odict_type) : bool :=
  match obj with
  | None => false
  | Some v => bool_decide (type = entry_type v)
  end.

(** [json_object_get_int], [json_object_get_boolean] *)
Definition json_object_get_int (obj : option json_object) : Z :=
  match obj with Some (ODICT_INT i) => i | _ => 0 end.
Definition json_object_get_boolean (obj : option json_object) : bool :=
  match obj with Some (ODICT_BOOL b) => b | _ => false end.

(** ** [jzon.c] *)

(** [jzon_str] *)
Definition jzon_str (obj : option json_object) (key : string) : option string :=
  match json_object_object_get_ex obj key with
  | None => None
  | value => json_object_get_string value
  end.

(** [jzon_strdup] *)
Definition jzon_strdup (obj : option json_object) (key : string) : cres (option string) :=
  match obj with
  | None => inl EINVAL
  | _ =>
    match json_object_object_get_ex obj key with
    | None => inl ENOENT
    | Some (ODICT_STRING s) => inr (Some s)
    | Some ODICT_NULL => inr None
    | Some _ => inl EPROTO
    end
  end.

(** [jzon_strdup_opt] *)
Definition jzon_strdup_opt (obj : option json_object) (key : string)
    (dflt : option string) : cres (option string) :=
  match jzon_strdup obj key with
  | inl err => if err =? ENOENT then inr dflt else inl err
  | r => r
  end.

(** [jzon_int], [jzon_u32], [jzon_bool]: the value of an entry of the right
    type. *)
Definition jzon_typed {A} (obj : option json_object) (key : string) (type : odict_type)
    (get : option json_object → A) : cres A :=
  match obj with
  | None => inl EINVAL
  | _ =>
    match json_object_object_get_ex obj key with
    | None => inl ENOENT
    | value =>
      if bool_decide (json_object_get_type value = Some type) then inr (get value)
      else inl EPROTO
    end
  end.
Definition jzon_int (obj : option json_object) (key : string) : cres Z :=
  jzon_typed obj key TYPE_INT (λ v, s32 (json_object_get_int v)).
Definition jzon_u32 (obj : option json_object) (key : string) : cres Z :=
  jzon_typed obj key TYPE_INT (λ v, u32 (json_object_get_int v)).
Definition jzon_bool (obj : option json_object) (key : string) : cres bool :=
  jzon_typed obj key TYPE_BOOL json_object_get_boolean.

(** [jzon_int_opt], [jzon_bool_opt] *)
Definition jzon_int_opt (obj : option json_object) (key : string) (dflt : Z) : cres Z :=
  match jzon_int obj key with
  | inl err => if err =? ENOENT then inr dflt else inl err
  | r => r
  end.
Definition jzon_bool_opt (obj : option json_object) (key : string) (dflt : bool) : bool :=
  or_keep (jzon_bool obj key) dflt.

(** [generic_object], [jzon_object], [jzon_array], [jzon_is_null] *)
Definition generic_object (jobj : option json_object) (key : string) (type : odict_type)
    : cres json_object :=
  match jobj with
  | None => inl EINVAL
  | _ =>
    match json_object_object_get_ex jobj key with
    | None => inl ENOENT
    | Some dst => if negb (json_object_is_type (Some dst) type) then inl EPROTO else inr dst
    end
  end.
Definition jzon_object (jobj : option json_object) (key : string) : cres json_object :=
  generic_object jobj key TYPE_OBJECT.
Definition jzon_array (jobj : option json_object) (key : string) : cres json_object :=
  generic_object jobj key TYPE_ARRAY.
Definition jzon_is_null (jobj : option json_object) (key : string) : Z :=
  match generic_object jobj key TYPE_NULL with inl err => err | inr _ => 0 end.

(** [jzon_is_object], [jzon_is_array] *)
Definition jzon_is_object (jobj : option json_object) : bool :=
  bool_decide (json_object_get_type jobj = Some TYPE_OBJECT).
Definition jzon_is_array (jobj : option json_object) : bool :=
  bool_decide (json_object_get_type jobj = Some TYPE_ARRAY).

(** The arguments of [jzon_creatf]: a letter of the format with its value. *)
Inductive jarg :=
| fmt_s (value : option string)
| fmt_n
| fmt_i (value : Z)
| fmt_f (bits : Z)
| fmt_b (value : bool)
| fmt_bad.

(** [jzon_vcreatf], [jzon_creatf] *)
Fixpoint jzon_vcreatf_loop (jobj : json_object) (args : list (option string * jarg))
    : cres json_object :=
  match args with
  | [] => inr jobj
  | (None, _) :: _ => inl EINVAL
  | (Some key, a) :: args =>
    match a with
    | fmt_s value =>
      jzon_vcreatf_loop (json_object_object_add jobj key (json_object_new_string value)) args
    | fmt_n => jzon_vcreatf_loop (json_object_object_add jobj key None) args
    | fmt_i i =>
      jzon_vcreatf_loop (json_object_object_add jobj key (Some (json_object_new_int i))) args
    | fmt_f d =>
      jzon_vcreatf_loop (json_object_object_add jobj key (Some (ODICT_DOUBLE d))) args
    | fmt_b b =>
      jzon_vcreatf_loop (json_object_object_add jobj key (Some (json_object_new_boolean b)))
        args
    | fmt_bad => inl EINVAL
    end
  end.
Definition jzon_creatf (args : list (option string * jarg)) : cres json_object :=
  jzon_vcreatf_loop json_object_new_object args.

(** [jzon_print], [jzon_encode] *)
Definition jzon_encode (jobj : option json_object) : cres string :=
  match jobj with
  | None => inl EINVAL
  | _ =>
    match jzon_odict jobj with
    | None => inl EINVAL
    | Some o => inr (json_encode_odict o)
    end
  end.

(** [jzon_decode]; [buf] is the [len] bytes that are given. *)
Definition jzon_decode (buf : option string) : cres json_object :=
  match buf with
  | None | Some EmptyString => inl EINVAL
  | Some buf =>
    match re_first_token buf with
    | Some "{"%char => o ← (json_decode_odict buf 8 : cres odict); mret (ODICT_OBJECT o)
    | Some "["%char => o ← (json_decode_odict buf 8 : cres odict); mret (ODICT_ARRAY o)
    | _ => inl EBADMSG
    end
  end.

(** [jzon_apply]: the handler is called for the entries in order until it says
    true; the entry it stopped at and the state it left. *)
Fixpoint apply_entries {S} (ah : string → json_object → S → bool * S) (l : odict) (arg : S)
    : option json_object * S :=
  match l with
  | [] => (None, arg)
  | (key, v) :: l =>
    let r := ah key v arg in
    if r.1 then (Some v, r.2) else apply_entries ah l r.2
  end.
Definition jzon_apply {S} (jobj : option json_object)
    (ah : string → json_object → S → bool * S) (arg : S) : option json_object * S :=
  match jzon_odict jobj with
  | None => (None, arg)
  | Some o => apply_entries ah o arg
  end.

(** [jzon_get_odict]; it is called for containers. *)
Definition jzon_get_odict (jobj : option json_object) : option odict := jzon_odict jobj.

(** ** Building an object

    The message code adds members to an object and tests the result of some of
    the calls: [enc] is such a step, with the error code and the object after it. *)

Definition enc : Type := json_object → Z * json_object.

Definition enc_ok : enc := λ j, (0, j).
(** The result is tested ([goto out]). *)
Definition enc_then (a b : enc) : enc := λ j,
  let r := a j in if r.1 =? 0 then b r.2 else r.
(** The result is ignored. *)
Definition enc_also (a b : enc) : enc := λ j, b (a j).2.
Definition enc_if (c : bool) (a : enc) : enc := if c then a else enc_ok.
Definition enc_opt {A} (o : option A) (a : A → enc) : enc :=
  match o with Some x => a x | None => enc_ok end.

(** [jzon_add_str], with the formatted string; [jzon_add_int], [jzon_add_bool] *)
Definition jzon_add_str (key str : string) : enc := λ jobj,
  (0, json_object_object_add jobj key (json_object_new_string (Some str))).
Definition jzon_add_int (key : string) (val : Z) : enc := λ jobj,
  (0, json_object_object_add jobj key (Some (json_object_new_int val))).
Definition jzon_add_bool (key : string) (val : bool) : enc := λ jobj,
  (0, json_object_object_add jobj key (Some (json_object_new_boolean val))).

(** [jzon_add_base64]: the Base64 text is the format of [jzon_add_str]. *)
Definition jzon_add_base64 (key : string) (buf : option (list Z)) : enc := λ jobj,
  match buf with
  | None => (EINVAL, jobj)
  | Some buf =>
    match base64_encode buf (4 * ((length buf + 2) / 3)) with
    | inl err => (err, jobj)
    | inr b64 => jzon_add_str key (re_format b64) jobj
    end
  end.

End Jzon.

Declare Scope enc_scope.
Delimit Scope enc_scope with enc.
Notation "a >>? b" := (enc_then a b) (at level 63, right associativity) : enc_scope.
Notation "a >>! b" := (enc_also a b) (at level 63, right associativity) : enc_scope.
#[local] Open Scope enc_scope.

(** ** What an object looks like after a series of steps

    The members a step adds: each under its key, some only on a condition. *)
Definition field : Type := string * option json_object.

Definition present (fs : list field) : odict :=
  omap (λ f : field, (λ v, (f.1, v)) <$> f.2) fs.

Fixpoint field_of (fs : list field) (k : string) : option json_object :=
  match fs with
  | [] => None
  | (k', v) :: fs => if String.eqb k' k then v else field_of fs k
  end.

(** The elements of an array under their numbers. *)
Definition numbered (vs : list json_object) : odict := zip (index_keys (length vs)) vs.

Section JzonSpec.
Context `{LibReSpec} `{!LibReJson} `{!LibReJsonSpec}.

Lemma present_app fs gs : present (fs ++ gs) = present fs ++ present gs.
Proof. apply omap_app. Qed.

Lemma present_keys fs : sublist (present fs).*1 fs.*1.
Proof.
  unfold present. induction fs as [|[k [v|]] fs IH]; cbn; [done|..].
  - by apply sublist_skip.
  - by apply sublist_cons.
Qed.

Lemma field_of_None fs k : k ∉ fs.*1 → field_of fs k = None.
Proof.
  induction fs as [|[k' v] fs IH]; cbn; [done|]. intros [Hk Hf]%not_elem_of_cons.
  destruct (String.eqb_spec k' k); [congruence|]. by apply IH.
Qed.

Lemma field_of_present fs k v : field_of fs k = Some v → (k, v) ∈ present fs.
Proof.
  unfold present. induction fs as [|[k' [v'|]] fs IH]; cbn; [done|..];
    destruct (String.eqb_spec k' k) as [->|]; try done; intros E; try by apply IH.
  - injection E as ->. left.
  - right. by apply IH.
Qed.

Lemma field_of_absent fs k :
  NoDup fs.*1 → field_of fs k = None → k ∉ (present fs).*1.
Proof.
  unfold present. induction fs as [|[k' v] fs IH]; cbn; [intros; apply not_elem_of_nil|].
  intros [Hk Hf]%NoDup_cons. destruct (String.eqb_spec k' k) as [->|Hne].
  - intros ->. intros Hin. apply Hk. eapply elem_of_submseteq; [exact Hin|].
    apply sublist_submseteq, present_keys.
  - intros E. specialize (IH Hf E). destruct v; cbn; [|done].
    apply not_elem_of_cons. split; [congruence|done].
Qed.

(** Looking up a key of such an object. *)
Lemma lookup_present fs k :
  NoDup fs.*1 → odict_lookup (present fs) k = field_of fs k.
Proof.
  intros Hd. destruct (field_of fs k) as [v|] eqn:E.
  - apply odict_lookup_in; [|by apply field_of_present].
    eapply sublist_NoDup; [exact Hd|]. apply present_keys.
  - apply odict_lookup_out. by apply field_of_absent.
Qed.

(** The step adds these members and succeeds. *)
Definition adds (a : enc) (fs : list field) : Prop :=
  ∀ o, NoDup (o.*1 ++ fs.*1) → a (ODICT_OBJECT o) = (0, ODICT_OBJECT (o ++ present fs)).

Lemma adds_ok : adds enc_ok [].
Proof. intros o _. by rewrite app_nil_r. Qed.

Lemma adds_seq (seq : enc → enc → enc) a b fs gs :
  (seq = enc_then ∨ seq = enc_also) → adds a fs → adds b gs → adds (seq a b) (fs ++ gs).
Proof.
  intros Hs Ha Hb o Ho. rewrite fmap_app, app_assoc in Ho.
  assert (a (ODICT_OBJECT o) = (0, ODICT_OBJECT (o ++ present fs))) as Ea.
  { apply Ha. by eapply NoDup_app in Ho as [? _]. }
  assert (b (ODICT_OBJECT (o ++ present fs)) = (0, ODICT_OBJECT (o ++ present (fs ++ gs)))) as Eb.
  { rewrite present_app, app_assoc. apply Hb. rewrite fmap_app.
    eapply sublist_NoDup; [exact Ho|]. by repeat apply sublist_app; try apply present_keys. }
  destruct Hs as [->| ->]; unfold enc_then, enc_also; by rewrite Ea.
Qed.

Lemma adds_then a b fs gs : adds a fs → adds b gs → adds (a >>? b) (fs ++ gs).
Proof. apply adds_seq; auto. Qed.
Lemma adds_also a b fs gs : adds a fs → adds b gs → adds (a >>! b) (fs ++ gs).
Proof. apply adds_seq; auto. Qed.

Lemma adds_none a k : adds a [] → adds a [(k, None)].
Proof. intros Ha o Ho. apply Ha. rewrite app_nil_r. by eapply NoDup_app in Ho as [? _]. Qed.

Lemma adds_if (c : bool) a k v :
  (c = true → adds a [(k, v)]) → adds (enc_if c a) [(k, if c then v else None)].
Proof. intros Ha. destruct c; [by apply Ha|]. apply adds_none, adds_ok. Qed.

Lemma adds_opt {A} (x : option A) (a : A → enc) k f :
  (∀ y, x = Some y → adds (a y) [(k, Some (f y))]) → adds (enc_opt x a) [(k, f <$> x)].
Proof. intros Ha. destruct x; [by apply Ha|]. apply adds_none, adds_ok. Qed.

Lemma object_add_fresh o k v :
  k ∉ o.*1 → json_object_object_add (ODICT_OBJECT o) k (Some v) = ODICT_OBJECT (o ++ [(k, v)]).
Proof. intros Hk. unfold json_object_object_add. cbn. by rewrite odict_entry_add_fresh. Qed.

Lemma adds_add k v :
  adds (λ j, (0, json_object_object_add j k (Some v))) [(k, Some v)].
Proof.
  intros o Ho. rewrite object_add_fresh; [done|]. apply NoDup_app in Ho as (_ & Hk & _).
  intros Hin. apply (Hk _ Hin). left.
Qed.

Lemma adds_str k s : adds (jzon_add_str k s) [(k, Some (ODICT_STRING s))].
Proof. apply adds_add. Qed.
Lemma adds_int k i : adds (jzon_add_int k i) [(k, Some (ODICT_INT (s32 i)))].
Proof. apply adds_add. Qed.
Lemma adds_bool k b : adds (jzon_add_bool k b) [(k, Some (ODICT_BOOL b))].
Proof. apply adds_add. Qed.

(** *** Base64 *)

Definition b64 (b : list Z) : string :=
  or_keep (base64_encode b (base64_len (length b))) ""%string.

Lemma b64_decodes b n :
  bytes_ok b → (3 * (String.length (b64 b) / 4) ≤ n)%nat → base64_decode (b64 b) n = inr b.
Proof.
  intros Hb Hn. unfold b64 in *.
  destruct (base64_encode_fits b _ Hb (Nat.le_refl _)) as (s & E & _ & _ & Hd).
  rewrite E in *. by apply Hd.
Qed.

Lemma b64_length b : bytes_ok b → String.length (b64 b) = base64_len (length b).
Proof.
  intros Hb. unfold b64.
  destruct (base64_encode_fits b _ Hb (Nat.le_refl _)) as (s & -> & El & _). done.
Qed.

Lemma adds_base64 k b :
  bytes_ok b → adds (jzon_add_base64 k (Some b)) [(k, Some (ODICT_STRING (b64 b)))].
Proof.
  intros Hb o Ho. unfold jzon_add_base64, b64. fold (base64_len (length b)).
  destruct (base64_encode_fits b _ Hb (Nat.le_refl _)) as (s & -> & _ & Hp & _).
  rewrite re_format_plain by done. by apply adds_str.
Qed.

(** *** Arrays *)

Lemma decimal_inj m n : 0 <= m → 0 <= n → decimal m = decimal n → m = n.
Proof. intros Hm Hn E. apply scan_decimal in Hm, Hn. rewrite E in Hm. congruence. Qed.

Lemma index_keys_snoc n : index_keys (S n) = index_keys n ++ [decimal (Z.of_nat n)].
Proof. unfold index_keys. by rewrite seq_S, fmap_app. Qed.

Lemma index_keys_length n : length (index_keys n) = n.
Proof. unfold index_keys. by rewrite length_fmap, length_seq. Qed.

Lemma index_keys_elem k n : k ∈ index_keys n ↔ ∃ i, (i < n)%nat ∧ k = decimal (Z.of_nat i).
Proof.
  unfold index_keys. rewrite list_elem_of_fmap. split.
  - intros (i & -> & Hi%elem_of_seq). exists i. split; [lia|done].
  - intros (i & Hi & ->). exists i. split; [done|]. apply elem_of_seq. lia.
Qed.

Lemma numbered_keys vs : (numbered vs).*1 = index_keys (length vs).
Proof. unfold numbered. apply fst_zip. by rewrite index_keys_length. Qed.

Lemma numbered_vals vs : (numbered vs).*2 = vs.
Proof. unfold numbered. apply snd_zip. by rewrite index_keys_length. Qed.

Lemma index_keys_nodup n : NoDup (index_keys n).
Proof.
  unfold index_keys. apply NoDup_fmap_2_strong; [|apply NoDup_seq].
  intros i j _ _ E. apply decimal_inj in E; lia.
Qed.

Lemma numbered_snoc vs v :
  numbered (vs ++ [v]) = numbered vs ++ [(decimal (Z.of_nat (length vs)), v)].
Proof.
  unfold numbered. rewrite length_app, Nat.add_comm. cbn [length Nat.add].
  rewrite index_keys_snoc, zip_with_app by (by rewrite index_keys_length). done.
Qed.

Lemma numbered_length vs : length (numbered vs) = length vs.
Proof. unfold numbered. rewrite length_zip_with, index_keys_length. lia. Qed.

Lemma array_add_numbered vs v :
  json_object_array_add (ODICT_ARRAY (numbered vs)) (Some v)
  = Some (ODICT_ARRAY (numbered (vs ++ [v]))).
Proof.
  unfold json_object_array_add. cbn. rewrite odict_count_length, numbered_length.
  rewrite re_u_decimal by lia. rewrite numbered_snoc, odict_entry_add_fresh; [done|].
  rewrite numbered_keys, index_keys_elem. intros (i & Hi & E%decimal_inj); lia.
Qed.

Lemma array_get_numbered vs (i : nat) :
  json_object_array_get_idx (Some (ODICT_ARRAY (numbered vs))) (Z.of_nat i) = vs !! i.
Proof.
  unfold json_object_array_get_idx. rewrite (proj2 (Z.ltb_ge _ _)) by lia.
  rewrite re_u_decimal by lia.
  destruct (vs !! i) as [v|] eqn:E.
  - apply odict_lookup_in; [rewrite numbered_keys; apply index_keys_nodup|].
    apply list_elem_of_lookup. exists i. unfold numbered.
    rewrite lookup_zip_with, E. cbn. unfold index_keys.
    rewrite list_lookup_fmap, lookup_seq_lt by (by eapply lookup_lt_Some). done.
  - apply odict_lookup_out. rewrite numbered_keys, index_keys_elem.
    intros (j & Hj & Ej%decimal_inj); [|lia..]. apply lookup_ge_None in E. lia.
Qed.

(** A handler that ignores the keys runs over the elements. *)
Lemma apply_numbered {S} (ah : json_object → S → bool * S) (f : json_object → S → S) vs s :
  (∀ v s, v ∈ vs → ah v s = (false, f v s)) →
  apply_entries (λ _, ah) (numbered vs) s = (None, foldl (λ s v, f v s) s vs).
Proof.
  intros Hf. rewrite <- (numbered_vals vs) at 2. rewrite <- (numbered_vals vs) in Hf.
  revert s. induction (numbered vs) as [|[k v] l IH]; intros s; cbn; [done|].
  rewrite Hf by left. cbn. apply IH. intros v' s' Hv. apply Hf. by right.
Qed.

Lemma numbered_ok d vs : Forall (json_ok d) vs → json_ok (S d) (ODICT_ARRAY (numbered vs)).
Proof.
  intros Hv. cbn. split.
  { by rewrite numbered_keys, numbered_length. }
  rewrite <- (numbered_vals vs), Forall_fmap in Hv. exact Hv.
Qed.

Lemma present_ok d fs :
  NoDup fs.*1 → Forall (λ f : field, ∀ v, f.2 = Some v → json_ok d v) fs →
  json_ok (S d) (ODICT_OBJECT (present fs)).
Proof.
  intros Hd Hf. cbn. split; [eapply sublist_NoDup; [done|apply present_keys]|].
  unfold present. clear Hd. induction Hf as [|[k [v|]] fs Hv Hf IH]; cbn; [constructor|..]; [|done].
  constructor; [by apply Hv|done].
Qed.

End JzonSpec.
