(* ===== verification/EconnMsg.v ===== *)
(** * ECONN messages ([include/avs_econn.h], [src/econn/msg.c],
    [src/econn/econn_help.c])

    The message types of the calling protocol, the message object that the
    connection code builds and reads, and the helpers that are pure functions
    of it: names, transport selection, winner of a call collision, creator
    test. *)

From S2P Require Import Prelude LibRe.

(** [enum econn_msg] *)
Inductive econn_msg :=
| ECONN_SETUP | ECONN_CANCEL
| ECONN_HANGUP | ECONN_PROPSYNC
| ECONN_GROUP_START | ECONN_GROUP_LEAVE | ECONN_GROUP_CHECK | ECONN_GROUP_SETUP
| ECONN_CONF_CONN | ECONN_CONF_START | ECONN_CONF_END | ECONN_CONF_PART
| ECONN_CONF_KEY | ECONN_CONF_CHECK | ECONN_CONF_STREAMS
| ECONN_UPDATE | ECONN_REJECT | ECONN_ALERT | ECONN_PING
| ECONN_DEVPAIR_PUBLISH | ECONN_DEVPAIR_ACCEPT.

(** [enum econn_state] *)
Inductive econn_state :=
| ECONN_IDLE
| ECONN_PENDING_OUTGOING
| ECONN_PENDING_INCOMING
| ECONN_CONFLICT_RESOLUTION
| ECONN_ANSWERED
| ECONN_DATACHAN_ESTABLISHED
| ECONN_HANGUP_SENT
| ECONN_HANGUP_RECV
| ECONN_UPDATE_SENT
| ECONN_UPDATE_RECV
| ECONN_TERMINATING.

(** [enum econn_dir] *)
Inductive econn_dir := ECONN_DIR_UNKNOWN | ECONN_DIR_OUTGOING | ECONN_DIR_INCOMING.

(** [enum econn_transport] *)
Inductive econn_transport := ECONN_TRANSP_BACKEND | ECONN_TRANSP_DIRECT.

#[global] Instance econn_msg_eq_dec : EqDecision econn_msg.
Proof. solve_decision. Defined.
#[global] Instance econn_state_eq_dec : EqDecision econn_state.
Proof. solve_decision. Defined.
#[global] Instance econn_dir_eq_dec : EqDecision econn_dir.
Proof. solve_decision. Defined.
#[global] Instance econn_transport_eq_dec : EqDecision econn_transport.
Proof. solve_decision. Defined.

Definition ECONN_MESSAGE_TIME_UNKNOWN : Z := 0.

Definition ECONN_ID_LEN : nat := 128.

(** A [struct econn_props *]: the connection code only passes the reference
    on, it never looks into the dictionary. *)
Definition econn_props_ref := positive.

(** [enum group_part_muted_state] *)
Inductive group_part_muted_state :=
| MUTED_STATE_UNKNOWN
| MUTED_STATE_MUTED
| MUTED_STATE_UNMUTED.

(** [struct econn_group_part] *)
Record econn_group_part := {
  gp_userid : option string;
  gp_clientid : option string;
  gp_authorized : bool;
  gp_muted_state : group_part_muted_state;
  gp_ssrca : Z;
  gp_ssrcv : Z;
  gp_ts : Z;
}.

(** [struct econn_key_info] *)
Record econn_key_info := {
  ek_idx : Z;
  ek_data : list Z;
}.

(** [struct zapi_ice_server] *)
Record zapi_ice_server := {
  srv_url : string;
  srv_username : string;
  srv_credential : string;
}.

(** [enum econn_confconn_status]; messages carry any number, and
    [ECONN_CONFCONN_other] is one that has no name. *)
Inductive econn_confconn_status :=
| ECONN_CONFCONN_OK
| ECONN_CONFCONN_REJECTED_BLACKLIST
| ECONN_CONFCONN_REJECTED_AUTH_INVALID
| ECONN_CONFCONN_REJECTED_AUTH_EXPIRED
| ECONN_CONFCONN_REJECTED_AUTH_LIMIT
| ECONN_CONFCONN_REJECTED_AUTH_CANTSTART
| ECONN_CONFCONN_other (v : Z).

(** [struct confconn] *)
Record confconn := {
  cn_turnv : list zapi_ice_server;
  cn_update : bool;
  cn_env : Z;
  cn_tool : option string;
  cn_toolver : option string;
  cn_status : econn_confconn_status;
  cn_selective_audio : bool;
  cn_selective_video : bool;
  cn_vstreams : Z;
  cn_sft_url : option string;
  cn_sft_tuple : option string;
  cn_sft_username : option string;
  cn_sft_credential : option string;
}.

(** [struct confstart] and [struct confcheck], which has no properties. *)
Record confstart := {
  cs_props : option econn_props_ref;
  cs_sft_url : option string;
  cs_sft_tuple : option string;
  cs_secret : list Z;
  cs_timestamp : Z;
  cs_seqno : Z;
  cs_sftl : list string;
}.

(** [struct confpart] *)
Record confpart := {
  cp_timestamp : Z;
  cp_seqno : Z;
  cp_should_start : bool;
  cp_partl : list (option econn_group_part);
  cp_entropy : option (list Z);
  cp_sftl : list string;
}.

(** [struct econn_stream_info] *)
Record econn_stream_info := {
  si_userid : string;
  si_quality : Z;
  si_ssrcv_clientid : string;
  si_ssrcv_hi : Z;
  si_ssrcv_lo : Z;
}.

(** The union of [struct econn_message]; [u_zero] stands for the union after
    [memset]. *)
Inductive econn_payload :=
| u_zero
| u_setup (sdp_msg : option string) (props : option econn_props_ref)
          (url sft_tuple : option string)
| u_propsync (props : option econn_props_ref)
| u_alert (level : Z) (descr : option string)
| u_confconn (c : confconn)
| u_confstart (c : confstart)
| u_confcheck (c : confstart)
| u_confpart (c : confpart)
| u_confkey (keyl : list (option econn_key_info))
| u_confstreams (streaml : list econn_stream_info) (mode : option string)
| u_groupstart (props : option econn_props_ref)
| u_devpair_publish (turnv : list zapi_ice_server) (sdp username : option string)
| u_devpair_accept (sdp : option string).

#[global] Instance group_part_muted_state_eq_dec : EqDecision group_part_muted_state.
Proof. solve_decision. Defined.
#[global] Instance econn_group_part_eq_dec : EqDecision econn_group_part.
Proof. solve_decision. Defined.
#[global] Instance econn_key_info_eq_dec : EqDecision econn_key_info.
Proof. solve_decision. Defined.
#[global] Instance zapi_ice_server_eq_dec : EqDecision zapi_ice_server.
Proof. solve_decision. Defined.
#[global] Instance econn_confconn_status_eq_dec : EqDecision econn_confconn_status.
Proof. solve_decision. Defined.
#[global] Instance confconn_eq_dec : EqDecision confconn.
Proof. solve_decision. Defined.
#[global] Instance confstart_eq_dec : EqDecision confstart.
Proof. solve_decision. Defined.
#[global] Instance confpart_eq_dec : EqDecision confpart.
Proof. solve_decision. Defined.
#[global] Instance econn_stream_info_eq_dec : EqDecision econn_stream_info.
Proof. solve_decision. Defined.
#[global] Instance econn_payload_eq_dec : EqDecision econn_payload.
Proof. solve_decision. Defined.

(** [struct econn_message] *)
Record econn_message := {
  msg_type : econn_msg;
  sessid_sender : string;
  src_userid : string;
  src_clientid : string;
  dest_userid : string;
  dest_clientid : string;
  resp : bool;
  transient : bool;
  msg_time : Z;
  msg_age : Z;
  msg_u : econn_payload;
}.

#[global] Instance econn_message_eq_dec : EqDecision econn_message.
Proof. solve_decision. Defined.

(** [msg->u.setup.sdp_msg], [msg->u.setup.props], [msg->u.setup.url],
    [msg->u.setup.sft_tuple], [msg->u.alert.level] and [msg->u.alert.descr]. *)
Definition setup_sdp_msg (m : econn_message) : option string :=
  match msg_u m with u_setup s _ _ _ => s | _ => None end.
Definition setup_props (m : econn_message) : option econn_props_ref :=
  match msg_u m with u_setup _ p _ _ => p | _ => None end.
Definition setup_url (m : econn_message) : option string :=
  match msg_u m with u_setup _ _ u _ => u | _ => None end.
Definition setup_sft_tuple (m : econn_message) : option string :=
  match msg_u m with u_setup _ _ _ t => t | _ => None end.
Definition alert_level (m : econn_message) : Z :=
  match msg_u m with u_alert l _ => l | _ => 0 end.
Definition alert_descr (m : econn_message) : option string :=
  match msg_u m with u_alert _ d => d | _ => None end.

(** [econn_message_init]: everything cleared but the type and the sender's
    session. *)
Definition econn_message_init `{LibRe} (t : econn_msg) (sessid : string)
    : econn_message := {|
  msg_type := t;
  sessid_sender := str_ncpy sessid ECONN_ID_LEN;
  src_userid := ""; src_clientid := "";
  dest_userid := ""; dest_clientid := "";
  resp := false; transient := false;
  msg_time := 0; msg_age := 0;
  msg_u := u_zero;
|}.

(** [econn_message_isrequest] *)
Definition econn_message_isrequest (m : econn_message) : bool := negb (resp m).

(** [econn_msg_name] *)
Definition econn_msg_name (t : econn_msg) : string :=
  match t with
  | ECONN_SETUP => "SETUP"
  | ECONN_CANCEL => "CANCEL"
  | ECONN_UPDATE => "UPDATE"
  | ECONN_HANGUP => "HANGUP"
  | ECONN_REJECT => "REJECT"
  | ECONN_PROPSYNC => "PROPSYNC"
  | ECONN_GROUP_START => "GROUPSTART"
  | ECONN_GROUP_LEAVE => "GROUPLEAVE"
  | ECONN_GROUP_CHECK => "GROUPCHECK"
  | ECONN_GROUP_SETUP => "GROUPSETUP"
  | ECONN_DEVPAIR_PUBLISH => "DEVPAIR_PUBLISH"
  | ECONN_DEVPAIR_ACCEPT => "DEVPAIR_ACCEPT"
  | ECONN_ALERT => "ALERT"
  | ECONN_CONF_CONN => "CONFCONN"
  | ECONN_CONF_START => "CONFSTART"
  | ECONN_CONF_END => "CONFEND"
  | ECONN_CONF_PART => "CONFPART"
  | ECONN_CONF_KEY => "CONFKEY"
  | ECONN_CONF_CHECK => "CONFCHECK"
  | ECONN_CONF_STREAMS => "CONFSTREAMS"
  | ECONN_PING => "PING"
  end.

(** [econn_state_name] *)
Definition econn_state_name (st : econn_state) : string :=
  match st with
  | ECONN_IDLE => "Idle"
  | ECONN_PENDING_OUTGOING => "Pending-Outgoing"
  | ECONN_PENDING_INCOMING => "Pending-Incoming"
  | ECONN_CONFLICT_RESOLUTION => "Conflict-Resolution"
  | ECONN_ANSWERED => "Answered"
  | ECONN_DATACHAN_ESTABLISHED => "DatachanEstablished"
  | ECONN_HANGUP_SENT => "HangupSent"
  | ECONN_HANGUP_RECV => "HangupRecv"
  | ECONN_TERMINATING => "Terminating"
  | ECONN_UPDATE_RECV => "UpdateRecv"
  | ECONN_UPDATE_SENT => "UpdateSent"
  end.

(** [econn_transp_resolve]; [None] is the [(enum econn_transport)-1] of the
    default branch. *)
Definition econn_transp_resolve (t : econn_msg) : option econn_transport :=
  match t with
  | ECONN_SETUP | ECONN_CANCEL | ECONN_UPDATE => Some ECONN_TRANSP_BACKEND
  | ECONN_HANGUP => Some ECONN_TRANSP_DIRECT
  | ECONN_REJECT => Some ECONN_TRANSP_BACKEND
  | ECONN_PROPSYNC => Some ECONN_TRANSP_DIRECT
  | ECONN_GROUP_START | ECONN_GROUP_LEAVE | ECONN_GROUP_CHECK
  | ECONN_GROUP_SETUP => Some ECONN_TRANSP_BACKEND
  | ECONN_DEVPAIR_PUBLISH | ECONN_DEVPAIR_ACCEPT
  | ECONN_ALERT => Some ECONN_TRANSP_BACKEND
  | ECONN_CONF_CONN => Some ECONN_TRANSP_DIRECT
  | ECONN_CONF_START | ECONN_CONF_END => Some ECONN_TRANSP_BACKEND
  | ECONN_CONF_PART => Some ECONN_TRANSP_DIRECT
  | ECONN_CONF_CHECK => Some ECONN_TRANSP_BACKEND
  | ECONN_CONF_STREAMS | ECONN_PING => Some ECONN_TRANSP_DIRECT
  | ECONN_CONF_KEY => None
  end.

(** The sign of the C library's [strcmp]: lexicographic order of the bytes
    taken as unsigned numbers. *)
Definition strcmp (a b : string) : Z :=
  match String.compare a b with Lt => -1 | Eq => 0 | Gt => 1 end.

(** [econn_iswinner] *)
Definition econn_iswinner (userid_self clientid userid_remote clientid_remote : string)
    : bool :=
  let r := strcmp userid_self userid_remote in
  let r := if r =? 0 then strcmp clientid clientid_remote else r in
  0 <? r.

(** [econn_is_creator] *)
Definition econn_is_creator `{LibRe} (userid_self userid_remote : option string)
    (msg : option econn_message) : bool :=
  match msg with
  | Some msg =>
    if negb (str_isset userid_self) || negb (str_isset userid_remote) then false
    else negb (str_casecmp userid_self userid_remote =? 0)
         && econn_message_isrequest msg
         && bool_decide (msg_type msg = ECONN_SETUP)
  | None => false
  end.

(** [econn_is_creator_full] *)
Definition econn_is_creator_full `{LibRe}
    (userid_self clientid_self userid_remote clientid_remote : option string)
    (msg : option econn_message) : bool :=
  match msg with
  | Some msg =>
    if negb (str_isset userid_self) || negb (str_isset userid_remote) then false
    else (negb (str_casecmp userid_self userid_remote =? 0)
          || negb (str_casecmp clientid_self clientid_remote =? 0))
         && econn_message_isrequest msg
         && bool_decide (msg_type msg = ECONN_SETUP)
  | None => false
  end.

(** ** Facts about [strcmp] and the winner *)

Lemma strcmp_antisym a b : strcmp a b = - strcmp b a.
Proof.
  unfold strcmp. rewrite String.compare_antisym.
  by destruct (String.compare b a).
Qed.

Lemma strcmp_zero a b : strcmp a b = 0 ↔ a = b.
Proof.
  unfold strcmp. split.
  - intros H. apply String.compare_eq_iff. by destruct (String.compare a b).
  - intros ->.
    pose proof (String.compare_antisym b b). by destruct (String.compare b b).
Qed.

(** The winner test is antisymmetric and decides every collision between two
    different clients. *)
Lemma iswinner_opposite u1 c1 u2 c2 :
  (u1, c1) ≠ (u2, c2) →
  econn_iswinner u1 c1 u2 c2 = negb (econn_iswinner u2 c2 u1 c1).
Proof.
  intros Hne. unfold econn_iswinner.
  rewrite (strcmp_antisym u2 u1), (strcmp_antisym c2 c1).
  pose proof (strcmp_zero u1 u2) as Hu. pose proof (strcmp_zero c1 c2) as Hc.
  destruct (Z.eqb_spec (strcmp u1 u2) 0) as [E|E].
  - rewrite E, Z.opp_0, Z.eqb_refl.
    assert (strcmp c1 c2 ≠ 0) by (intros E'; apply Hne; f_equal; tauto).
    destruct (Z.ltb_spec 0 (strcmp c1 c2)), (Z.ltb_spec 0 (- strcmp c1 c2)); lia || done.
  - destruct (Z.eqb_spec (- strcmp u1 u2) 0); [lia|].
    destruct (Z.ltb_spec 0 (strcmp u1 u2)), (Z.ltb_spec 0 (- strcmp u1 u2)); lia || done.
Qed.

Lemma iswinner_irrefl u c : econn_iswinner u c u c = false.
Proof.
  unfold econn_iswinner. rewrite (proj2 (strcmp_zero u u) eq_refl). cbn.
  by rewrite (proj2 (strcmp_zero c c) eq_refl).
Qed.
