(* ===== verification/EconnFmt.v ===== *)
(** * The message format ([src/econn_fmt/msg.c], [src/econn/props.c],
      [src/zapi/call.c], [src/string/stringlist.c])

    Messages as JSON texts: [econn_message_encode] and [econn_message_decode]
    with everything they call.  Properties ([struct econn_props]) are shared
    objects; a [props_heap] maps the references of the messages to their
    dictionaries.  A payload that is not the member of the union the type of the
    message asks for, a dangling reference and a [NULL] list element are
    undefined ([None]).  Allocation succeeds. *)

From Stdlib Require Import Ascii.
From stdpp Require Import gmap.
From S2P Require Import Prelude LibRe LibReJson Jzon EconnMsg.

#[local] Open Scope string_scope.
#[local] Open Scope Z_scope.
#[local] Open Scope enc_scope.

Definition econn_proto_version : string := "3.0".

(** ** Properties *)

Definition props_heap : Type := gmap econn_props_ref odict.

Section Fmt.
Context `{LibRe, LibReJson}.

(** [str_ncpy(dst, src, n)] into an array of zeros; [NULL] leaves it. *)
Definition ncpy0 (src : option string) (n : nat) : string :=
  match src with Some s => str_ncpy s n | None => "" end.

(** [econn_props_alloc] *)
Definition econn_props_alloc (h : props_heap) (dict : option odict)
    : econn_props_ref * props_heap :=
  let p := fresh (dom h) in (p, <[p := default [] dict]> h).

(** [econn_props_add] *)
Definition econn_props_add (h : props_heap) (props : option econn_props_ref)
    (key val : option string) : option (Z * props_heap) :=
  match props, key, val with
  | Some p, Some key, Some val =>
    d ← h !! p; Some (0, <[p := odict_entry_add d key (ODICT_STRING val)]> h)
  | _, _, _ => Some (EINVAL, h)
  end.

(** The dictionary after the value of the entry under [key] was replaced. *)
Fixpoint set_entry (d : odict) (key : string) (v : json_object) : odict :=
  match d with
  | [] => []
  | (k, w) :: d => if String.eqb k key then (k, v) :: d else (k, w) :: set_entry d key v
  end.

(** [econn_props_update]: the string of the entry is released, so it has to be
    one, and without a new value the entry keeps the released pointer. *)
Definition econn_props_update (h : props_heap) (p : econn_props_ref) (key : string)
    (val : option string) : option (Z * props_heap) :=
  d ← h !! p;
  match odict_lookup d key, val with
  | Some (ODICT_STRING _), Some val => Some (0, <[p := set_entry d key (ODICT_STRING val)]> h)
  | Some (ODICT_STRING _), None => None
  | Some _, _ => None
  | None, _ => econn_props_add h (Some p) (Some key) val
  end.

(** [econn_props_get] *)
Definition econn_props_get (h : props_heap) (props : option econn_props_ref)
    (key : option string) : option (option string) :=
  match props, key with
  | Some p, Some k =>
    if negb (str_isset key) then Some None else
    d ← h !! p;
    match odict_lookup d k with
    | None => Some None
    | Some (ODICT_STRING s) => Some (Some s)
    | Some _ => None
    end
  | _, _ => Some None
  end.

(** ** Encoding *)

(** [econn_props_encode] *)
Definition econn_props_encode (h : props_heap) (props : econn_props_ref) : option enc :=
  dict ← h !! props;
  Some (λ j, match jzon_get_odict (Some j) with
             | Some target =>
               (0, set_odict j (odict_entry_add target "props" (ODICT_OBJECT dict)))
             | None => (EINVAL, j)
             end).

(** Properties that may be missing. *)
Definition props_encode_opt (h : props_heap) (props : option econn_props_ref) : option enc :=
  match props with
  | None => Some enc_ok
  | Some p => econn_props_encode h p
  end.

(** An array of objects, added one by one with [json_object_array_add]. *)
Definition array_of (vs : list json_object) : json_object :=
  foldl (λ j v, default j (json_object_array_add j (Some v))) json_object_new_array vs.

(** One step after the other, on a new object. *)
Definition object_of (a : enc) : json_object := (a json_object_new_object).2.

Definition add_object (key : string) (v : json_object) : enc := λ j,
  (0, json_object_object_add j key (Some v)).

(** One participant, and [econn_parts_encode] *)
Definition part_encode (part : econn_group_part) : json_object :=
  object_of (
    jzon_add_str "userid" (re_s (gp_userid part)) >>!
    jzon_add_str "clientid" (re_s (gp_clientid part)) >>!
    jzon_add_bool "authorized" (gp_authorized part) >>!
    jzon_add_str "ssrc_audio" (re_s (Some (re_u (gp_ssrca part)))) >>!
    jzon_add_str "ssrc_video" (re_s (Some (re_u (gp_ssrcv part)))) >>!
    jzon_add_int "timestamp" (gp_ts part) >>!
    match gp_muted_state part with
    | MUTED_STATE_UNMUTED => jzon_add_bool "muted" false
    | MUTED_STATE_MUTED => jzon_add_bool "muted" true
    | MUTED_STATE_UNKNOWN => enc_ok
    end).
Definition econn_parts_encode (partl : list (option econn_group_part)) : option enc :=
  ps ← mapM id partl;
  Some (add_object "participants" (array_of (part_encode <$> ps))).

(** One key, and [econn_keys_encode] *)
Definition key_encode (key : econn_key_info) : json_object :=
  object_of (jzon_add_int "idx" (ek_idx key) >>!
             jzon_add_base64 "data" (Some (ek_data key))).
Definition econn_keys_encode (keyl : list (option econn_key_info)) : option enc :=
  ks ← mapM id keyl;
  Some (add_object "keys" (array_of (key_encode <$> ks))).

(** One stream, and [econn_streams_encode] *)
Definition stream_encode (stream : econn_stream_info) : json_object :=
  object_of (
    jzon_add_str "userid" (re_s (Some (si_userid stream))) >>!
    jzon_add_int "quality" (si_quality stream) >>!
    enc_if (negb (si_ssrcv_hi stream =? 0)) (jzon_add_int "ssrcv_hi" (si_ssrcv_hi stream)) >>!
    enc_if (negb (si_ssrcv_lo stream =? 0)) (jzon_add_int "ssrcv_lo" (si_ssrcv_lo stream)) >>!
    enc_if (str_isset (Some (si_ssrcv_clientid stream)))
      (jzon_add_str "clientid" (re_s (Some (si_ssrcv_clientid stream))))).
Definition econn_streams_encode (streaml : list econn_stream_info) : enc :=
  add_object "streams" (array_of (stream_encode <$> streaml)).

(** [econn_stringlist_encode] *)
Definition econn_stringlist_encode (strl : list string) (name : string) : enc :=
  enc_if (0 <? length strl)%nat (add_object name (array_of (ODICT_STRING <$> strl))).

(** [zapi_iceservers_encode] *)
Definition iceserver_encode (srv : zapi_ice_server) : cres json_object :=
  jzon_creatf [(Some "urls", fmt_s (Some (srv_url srv)));
               (Some "username", fmt_s (Some (srv_username srv)));
               (Some "credential", fmt_s (Some (srv_credential srv)))].
Fixpoint iceservers_loop (jices : json_object) (srvv : list zapi_ice_server)
    : cres json_object :=
  match srvv with
  | [] => inr jices
  | srv :: srvv =>
    jice ← iceserver_encode srv;
    match json_object_array_add jices (Some jice) with
    | None => inl ENOMEM
    | Some jices => iceservers_loop jices srvv
    end
  end.
Definition zapi_iceservers_encode (srvv : list zapi_ice_server) : enc := λ jobj,
  match srvv with
  | [] => (EINVAL, jobj)
  | _ =>
    match iceservers_loop json_object_new_array srvv with
    | inl err => (err, jobj)
    | inr jices => (0, json_object_object_add jobj "ice_servers" (Some jices))
    end
  end.

Definition status_value (st : econn_confconn_status) : Z :=
  match st with
  | ECONN_CONFCONN_OK => 0
  | ECONN_CONFCONN_REJECTED_BLACKLIST => 1
  | ECONN_CONFCONN_REJECTED_AUTH_INVALID => 2
  | ECONN_CONFCONN_REJECTED_AUTH_EXPIRED => 3
  | ECONN_CONFCONN_REJECTED_AUTH_LIMIT => 4
  | ECONN_CONFCONN_REJECTED_AUTH_CANTSTART => 5
  | ECONN_CONFCONN_other v => v
  end.

(** The case of SETUP, GROUP_SETUP and UPDATE. *)
Definition setup_encode (h : props_heap) (sdp : option string)
    (props : option econn_props_ref) (url tuple : option string) : option enc :=
  p ← props_encode_opt h props;
  Some (jzon_add_str "sdp" (re_s sdp) >>? p >>?
        enc_opt url (λ u, jzon_add_str "url" (re_s (Some u))) >>?
        enc_opt tuple (λ t, jzon_add_str "sft_tuple" (re_s (Some t)))).

(** The case of CONF_CONN. *)
Definition confconn_encode (c : confconn) : enc :=
  enc_if (0 <? length (cn_turnv c))%nat (zapi_iceservers_encode (cn_turnv c)) >>?
  jzon_add_bool "update" (cn_update c) >>!
  jzon_add_str "tool" (re_s (cn_tool c)) >>!
  jzon_add_str "toolver" (re_s (cn_toolver c)) >>!
  jzon_add_int "env" (cn_env c) >>!
  jzon_add_int "status" (status_value (cn_status c)) >>!
  jzon_add_bool "selective_audio" (cn_selective_audio c) >>!
  jzon_add_bool "selective_video" (cn_selective_video c) >>!
  jzon_add_int "vstreams" (cn_vstreams c) >>!
  enc_opt (cn_sft_url c) (λ s, jzon_add_str "sft_url" (re_s (Some s))) >>!
  enc_opt (cn_sft_tuple c) (λ s, jzon_add_str "sft_tuple" (re_s (Some s))) >>!
  enc_opt (cn_sft_username c) (λ s, jzon_add_str "username" (re_s (Some s))) >>!
  enc_opt (cn_sft_credential c) (λ s, jzon_add_str "credential" (re_s (Some s))) >>!
  enc_ok.

(** A secret that is [NULL] as long as it has no bytes. *)
Definition secret_ptr (secret : list Z) : option (list Z) :=
  match secret with [] => None | _ => Some secret end.

(** The cases of CONF_START, up to the properties, and CONF_CHECK. *)
Definition confstart_encode (c : confstart) : enc :=
  jzon_add_str "sft_url" (re_s (cs_sft_url c)) >>!
  enc_opt (cs_sft_tuple c) (λ t, jzon_add_str "sft_tuple" (re_s (Some t))) >>!
  jzon_add_base64 "secret" (secret_ptr (cs_secret c)) >>!
  jzon_add_str "timestamp" (re_u (cs_timestamp c)) >>!
  jzon_add_str "seqno" (re_u (cs_seqno c)) >>!
  econn_stringlist_encode (cs_sftl c) "sfts".

(** The case of CONF_PART. *)
Definition confpart_encode (c : confpart) : option enc :=
  parts ← econn_parts_encode (cp_partl c);
  Some (jzon_add_bool "should_start" (cp_should_start c) >>!
        jzon_add_str "timestamp" (re_u (cp_timestamp c)) >>!
        jzon_add_str "seqno" (re_u (cp_seqno c)) >>!
        jzon_add_base64 "entropy" (cp_entropy c) >>!
        parts >>!
        econn_stringlist_encode (cp_sftl c) "sfts" >>!
        enc_ok).

(** The member of the union that a type uses, when the union is cleared. *)
Definition confconn_zero : confconn := {|
  cn_turnv := []; cn_update := false; cn_env := 0; cn_tool := None; cn_toolver := None;
  cn_status := ECONN_CONFCONN_OK; cn_selective_audio := false; cn_selective_video := false;
  cn_vstreams := 0; cn_sft_url := None; cn_sft_tuple := None; cn_sft_username := None;
  cn_sft_credential := None |}.
Definition confstart_zero : confstart := {|
  cs_props := None; cs_sft_url := None; cs_sft_tuple := None; cs_secret := [];
  cs_timestamp := 0; cs_seqno := 0; cs_sftl := [] |}.
Definition confpart_zero : confpart := {|
  cp_timestamp := 0; cp_seqno := 0; cp_should_start := false; cp_partl := [];
  cp_entropy := None; cp_sftl := [] |}.
Definition zero_member (type : econn_msg) : econn_payload :=
  match type with
  | ECONN_SETUP | ECONN_GROUP_SETUP | ECONN_UPDATE => u_setup None None None None
  | ECONN_PROPSYNC => u_propsync None
  | ECONN_GROUP_START => u_groupstart None
  | ECONN_CONF_CONN => u_confconn confconn_zero
  | ECONN_CONF_START => u_confstart confstart_zero
  | ECONN_CONF_CHECK => u_confcheck confstart_zero
  | ECONN_CONF_PART => u_confpart confpart_zero
  | ECONN_CONF_KEY => u_confkey []
  | ECONN_CONF_STREAMS => u_confstreams [] None
  | ECONN_DEVPAIR_PUBLISH => u_devpair_publish [] None None
  | ECONN_DEVPAIR_ACCEPT => u_devpair_accept None
  | ECONN_ALERT => u_alert 0 None
  | ECONN_CANCEL | ECONN_HANGUP | ECONN_REJECT | ECONN_GROUP_LEAVE | ECONN_GROUP_CHECK
  | ECONN_CONF_END | ECONN_PING => u_zero
  end.
Definition member (type : econn_msg) (u : econn_payload) : econn_payload :=
  match u with u_zero => zero_member type | _ => u end.

(** The [switch] of [econn_message_encode]. *)
Definition payload_encode (h : props_heap) (type : econn_msg) (u : econn_payload) : option enc :=
  match type, member type u with
  | (ECONN_SETUP | ECONN_GROUP_SETUP | ECONN_UPDATE), u_setup sdp props url tuple =>
    setup_encode h sdp props url tuple
  | (ECONN_CANCEL | ECONN_HANGUP | ECONN_REJECT | ECONN_GROUP_LEAVE | ECONN_GROUP_CHECK
     | ECONN_CONF_END | ECONN_PING), _ => Some enc_ok
  | ECONN_PROPSYNC, u_propsync (Some p) => econn_props_encode h p
  | ECONN_PROPSYNC, u_propsync None => Some (λ j, (EINVAL, j))
  | ECONN_GROUP_START, u_groupstart props => props_encode_opt h props
  | ECONN_CONF_CONN, u_confconn c => Some (confconn_encode c)
  | ECONN_CONF_START, u_confstart c =>
    p ← props_encode_opt h (cs_props c); Some (confstart_encode c >>! p)
  | ECONN_CONF_CHECK, u_confcheck c => Some (confstart_encode c >>! enc_ok)
  | ECONN_CONF_PART, u_confpart c => confpart_encode c
  | ECONN_CONF_KEY, u_confkey keyl =>
    keys ← econn_keys_encode keyl; Some (keys >>! enc_ok)
  | ECONN_CONF_STREAMS, u_confstreams streaml mode =>
    Some (jzon_add_str "mode" (re_s mode) >>! econn_streams_encode streaml >>! enc_ok)
  | ECONN_DEVPAIR_PUBLISH, u_devpair_publish turnv sdp username =>
    Some (zapi_iceservers_encode turnv >>?
          jzon_add_str "sdp" (re_s sdp) >>? jzon_add_str "username" (re_s username))
  | ECONN_DEVPAIR_ACCEPT, u_devpair_accept sdp => Some (jzon_add_str "sdp" (re_s sdp))
  | ECONN_ALERT, u_alert level descr =>
    Some (jzon_add_int "level" level >>? jzon_add_str "descr" (re_s descr))
  | _, _ => None
  end.

(** The identifiers of the ends, and the mark of a response. *)
Definition header_encode (msg : econn_message) : enc :=
  enc_if (str_isset (Some (src_userid msg)))
    (jzon_add_str "src_userid" (re_s (Some (src_userid msg)))) >>?
  enc_if (str_isset (Some (src_clientid msg)))
    (jzon_add_str "src_clientid" (re_s (Some (src_clientid msg)))) >>?
  enc_if (str_isset (Some (dest_userid msg)))
    (jzon_add_str "dest_userid" (re_s (Some (dest_userid msg)))) >>?
  enc_if (str_isset (Some (dest_clientid msg)))
    (jzon_add_str "dest_clientid" (re_s (Some (dest_clientid msg)))) >>?
  jzon_add_bool "resp" (resp msg).

(** [econn_message_encode] *)
Definition econn_message_encode (h : props_heap) (msg : econn_message) : option (cres string) :=
  payload ← payload_encode h (msg_type msg) (msg_u msg);
  Some (jobj ← jzon_creatf [(Some "version", fmt_s (Some econn_proto_version));
                            (Some "type", fmt_s (Some (econn_msg_name (msg_type msg))));
                            (Some "sessid", fmt_s (Some (sessid_sender msg)))];
        let r := (header_encode msg >>? payload) jobj in
        if r.1 =? 0 then jzon_encode (Some r.2) else inl r.1).

(** ** Decoding *)

(** [econn_props_decode] *)
Definition econn_props_decode (h : props_heap) (jobj : json_object)
    : cres (econn_props_ref * props_heap) :=
  jobj_props ← jzon_object (Some jobj) "props";
  mret (econn_props_alloc h (jzon_get_odict (Some jobj_props))).

(** Properties that may be missing. *)
Definition props_decode_opt (h : props_heap) (jobj : json_object)
    : option econn_props_ref * props_heap :=
  match econn_props_decode h jobj with
  | inl _ => (None, h)
  | inr (p, h) => (Some p, h)
  end.

(** [part_decode_handler]: an entry that cannot be read is skipped. *)
Definition part_decode (jobj : json_object) : cres econn_group_part :=
  let obj := Some jobj in
  userid ← jzon_strdup obj "userid";
  clientid ← jzon_strdup obj "clientid";
  authorized ← jzon_bool obj "authorized";
  let ts := match jzon_int obj "timestamp" with inl _ => 0 | inr ts => u64 ts end in
  let muted_state := match jzon_bool obj "muted" with
                     | inl _ => MUTED_STATE_UNKNOWN
                     | inr true => MUTED_STATE_MUTED
                     | inr false => MUTED_STATE_UNMUTED
                     end in
  match jzon_str obj "ssrc_audio", jzon_str obj "ssrc_video" with
  | Some a, Some v =>
    mret {| gp_userid := userid; gp_clientid := clientid; gp_authorized := authorized;
            gp_muted_state := muted_state; gp_ssrca := default 0 (sscanf_u a);
            gp_ssrcv := default 0 (sscanf_u v); gp_ts := ts |}
  | _, _ => inl EINVAL
  end.
Definition part_decode_handler (jobj : json_object) (partl : list (option econn_group_part))
    : bool * list (option econn_group_part) :=
  match part_decode jobj with
  | inl _ => (false, partl)
  | inr part => (false, (partl ++ [Some part])%list)
  end.

(** [econn_parts_decode], whose error is only reported. *)
Definition econn_parts_decode (jobj : json_object) : cres (list (option econn_group_part)) :=
  jparts ← jzon_array (Some jobj) "participants";
  mret (jzon_apply (Some jparts) (λ _, part_decode_handler) []).2.

(** [key_decode_handler]: the error of [base64_decode] ends the loop. *)
Definition key_decode_handler (jobj : json_object) (keyl : list (option econn_key_info))
    : bool * list (option econn_key_info) :=
  match jzon_int (Some jobj) "idx" with
  | inl _ => (false, keyl)
  | inr i =>
    match jzon_str (Some jobj) "data" with
    | None => (false, keyl)
    | Some dstr =>
      match base64_decode dstr (String.length dstr) with
      | inl err => (negb (err =? 0), keyl)
      | inr d => (false, (keyl ++ [Some {| ek_idx := u32 i; ek_data := d |}])%list)
      end
    end
  end.

(** [econn_keys_decode] *)
Definition econn_keys_decode (jobj : json_object) : cres (list (option econn_key_info)) :=
  jkeys ← jzon_array (Some jobj) "keys";
  mret (jzon_apply (Some jkeys) (λ _, key_decode_handler) []).2.

(** [econn_stream_info_alloc] *)
Definition econn_stream_info_alloc (userid : string) (quality : Z) : econn_stream_info := {|
  si_userid := str_ncpy userid ECONN_ID_LEN; si_quality := u32 quality;
  si_ssrcv_clientid := ""; si_ssrcv_hi := 0; si_ssrcv_lo := 0 |}.

(** [stream_decode_handler] *)
Definition stream_decode_handler (jobj : json_object) (streaml : list econn_stream_info)
    : bool * list econn_stream_info :=
  match jzon_int (Some jobj) "quality", jzon_str (Some jobj) "userid" with
  | inr quality, Some userid =>
    let ssrcv_hi := or_keep (jzon_u32 (Some jobj) "ssrcv_hi") 0 in
    let ssrcv_lo := or_keep (jzon_u32 (Some jobj) "ssrcv_lo") 0 in
    let stream := econn_stream_info_alloc userid quality in
    (false, (streaml ++
      [{| stream with si_ssrcv_hi := ssrcv_hi; si_ssrcv_lo := ssrcv_lo;
          si_ssrcv_clientid := ncpy0 (jzon_str (Some jobj) "clientid") ECONN_ID_LEN |}])%list)
  | _, _ => (false, streaml)
  end.

(** [econn_streams_decode] *)
Definition econn_streams_decode (jobj : json_object) : cres (list econn_stream_info) :=
  jstreams ← jzon_array (Some jobj) "streams";
  mret (jzon_apply (Some jstreams) (λ _, stream_decode_handler) []).2.

(** [stringlist_append] and [string_decode_handler] *)
Definition stringlist_append (list : list string) (str : string) : Datatypes.list string :=
  (list ++ [str])%list.
Definition string_decode_handler (jobj : json_object) (strl : list string)
    : bool * list string :=
  match json_object_get_string (Some jobj) with
  | Some val => (false, stringlist_append strl val)
  | None => (false, strl)
  end.

(** [econn_stringlist_decode], whose error is ignored: the list stays empty. *)
Definition econn_stringlist_decode (jobj : json_object) (name : string) : list string :=
  match jzon_array (Some jobj) name with
  | inl _ => []
  | inr jarray => (jzon_apply (Some jarray) (λ _, string_decode_handler) []).2
  end.

(** [zapi_iceservers_decode]: one element, then the loop. *)
Definition iceserver_decode (jice : json_object) : cres zapi_ice_server :=
  let obj := Some jice in
  let url := match jzon_array obj "urls" with
             | inr urls_arr =>
               json_object_get_string (json_object_array_get_idx (Some urls_arr) 0)
             | inl _ =>
               match jzon_str obj "urls" with
               | Some url => Some url
               | None => jzon_str obj "url"
               end
             end in
  match url with
  | None => inl EPROTO
  | Some url =>
    mret {| srv_url := str_ncpy url 256; srv_username := ncpy0 (jzon_str obj "username") 128;
            srv_credential := ncpy0 (jzon_str obj "credential") 128 |}
  end.
Fixpoint iceservers_decode_loop (jarr : json_object) (i n : nat) : cres (list zapi_ice_server) :=
  match n with
  | O => mret []
  | S n =>
    match json_object_array_get_idx (Some jarr) (Z.of_nat i) with
    | None => inl ENOENT
    | Some jice =>
      srv ← iceserver_decode jice;
      srvv ← iceservers_decode_loop jarr (S i) n;
      mret (srv :: srvv)
    end
  end.
Definition zapi_iceservers_decode (jarr : json_object) : cres (list zapi_ice_server) :=
  if negb (jzon_is_array (Some jarr)) then inl EINVAL else
  iceservers_decode_loop jarr 0 (Z.to_nat (json_object_array_length (Some jarr))).

(** [(enum econn_confconn_status) status] *)
Definition status_of (v : Z) : econn_confconn_status :=
  if v =? 0 then ECONN_CONFCONN_OK
  else if v =? 1 then ECONN_CONFCONN_REJECTED_BLACKLIST
  else if v =? 2 then ECONN_CONFCONN_REJECTED_AUTH_INVALID
  else if v =? 3 then ECONN_CONFCONN_REJECTED_AUTH_EXPIRED
  else if v =? 4 then ECONN_CONFCONN_REJECTED_AUTH_LIMIT
  else if v =? 5 then ECONN_CONFCONN_REJECTED_AUTH_CANTSTART
  else ECONN_CONFCONN_other v.

(** A required string: [EBADMSG] when it is missing. *)
Definition need_str (jobj : json_object) (key : string) : cres string :=
  match jzon_str (Some jobj) key with None => inl EBADMSG | Some s => inr s end.

(** A Base64 text, read into a buffer of three quarters of its length. *)
Definition decode_secret (secret : string) : cres (list Z) :=
  base64_decode secret (String.length secret * 3 / 4).

(** The branches of CONF_START, up to the properties, and of CONF_CHECK.
    [pl_set_str] leaves [pl] alone when the member is missing. *)
Definition confstart_decode (jobj : json_object) : cres confstart :=
  let obj := Some jobj in
  sft_url ← jzon_strdup obj "sft_url";
  let tuple := jzon_str obj "sft_tuple" in
  let pl := pl_set_str None (jzon_str obj "timestamp") in
  let timestamp := pl_u64 pl in
  let pl := pl_set_str pl (jzon_str obj "seqno") in
  let seqno := pl_u32 pl in
  secret ← need_str jobj "secret";
  sdata ← decode_secret secret;
  mret {| cs_props := None; cs_sft_url := sft_url; cs_sft_tuple := tuple;
          cs_secret := sdata; cs_timestamp := timestamp; cs_seqno := seqno;
          cs_sftl := econn_stringlist_decode jobj "sfts" |}.

(** The branch of CONF_CONN. *)
Definition confconn_decode (jobj : json_object) : cres confconn :=
  let obj := Some jobj in
  turnv ← (match jzon_array obj "ice_servers" with
           | inl _ => mret []
           | inr jturns => zapi_iceservers_decode jturns
           end : cres (list zapi_ice_server));
  let vstreams := or_keep (jzon_int obj "vstreams") 0 in
  let vstreams := if vstreams <? 0 then 0 else vstreams in
  let vstreams := if 32 <? vstreams then 32 else vstreams in
  mret {| cn_turnv := turnv; cn_update := or_keep (jzon_bool obj "update") false;
          cn_env := or_keep (jzon_int obj "env") 0;
          cn_tool := jzon_str obj "tool"; cn_toolver := jzon_str obj "toolver";
          cn_status := status_of (or_keep (jzon_int obj "status") 0);
          cn_selective_audio := or_keep (jzon_bool obj "selective_audio") false;
          cn_selective_video := or_keep (jzon_bool obj "selective_video") false;
          cn_vstreams := vstreams;
          cn_sft_url := jzon_str obj "sft_url"; cn_sft_tuple := jzon_str obj "sft_tuple";
          cn_sft_username := jzon_str obj "username";
          cn_sft_credential := jzon_str obj "credential" |}.

(** The branch of CONF_PART. *)
Definition confpart_decode (jobj : json_object) : cres confpart :=
  let obj := Some jobj in
  let should_start := or_keep (jzon_bool obj "should_start") false in
  let pl := pl_set_str None (jzon_str obj "timestamp") in
  let timestamp := pl_u64 pl in
  let pl := pl_set_str pl (jzon_str obj "seqno") in
  let seqno := pl_u32 pl in
  entropy ← (match jzon_str obj "entropy" with
             | None => mret None
             | Some e => edata ← decode_secret e; mret (Some edata)
             end : cres (option (list Z)));
  mret {| cp_timestamp := timestamp; cp_seqno := seqno; cp_should_start := should_start;
          cp_partl := or_keep (econn_parts_decode jobj) []; cp_entropy := entropy;
          cp_sftl := econn_stringlist_decode jobj "sfts" |}.

(** The branch of DEVPAIR_PUBLISH. *)
Definition devpair_publish_decode (jobj : json_object) : cres econn_payload :=
  jturns ← jzon_array (Some jobj) "ice_servers";
  turnv ← zapi_iceservers_decode jturns;
  sdp ← jzon_strdup (Some jobj) "sdp";
  username ← jzon_strdup (Some jobj) "username";
  mret (u_devpair_publish turnv sdp username).

(** The branch of each type.  The properties of an UPDATE that cannot be read
    are reported as missing, but the error stands. *)
Definition payload_decode (h : props_heap) (type : econn_msg) (jobj : json_object)
    : cres (econn_payload * props_heap) :=
  let obj := Some jobj in
  match type with
  | ECONN_SETUP =>
    sdp ← need_str jobj "sdp";
    '(p, h) ← econn_props_decode h jobj;
    mret (u_setup (Some sdp) (Some p) (jzon_str obj "url") (jzon_str obj "sft_tuple"), h)
  | ECONN_GROUP_SETUP | ECONN_UPDATE =>
    sdp ← need_str jobj "sdp";
    '(p, h) ← econn_props_decode h jobj;
    mret (u_setup (Some sdp) (Some p) None None, h)
  | ECONN_CANCEL | ECONN_HANGUP | ECONN_REJECT | ECONN_GROUP_LEAVE | ECONN_GROUP_CHECK
  | ECONN_CONF_END | ECONN_PING => mret (u_zero, h)
  | ECONN_PROPSYNC =>
    '(p, h) ← econn_props_decode h jobj; mret (u_propsync (Some p), h)
  | ECONN_GROUP_START =>
    let r := props_decode_opt h jobj in mret (u_groupstart r.1, r.2)
  | ECONN_CONF_START =>
    c ← confstart_decode jobj;
    let r := props_decode_opt h jobj in
    mret (u_confstart {| c with cs_props := r.1 |}, r.2)
  | ECONN_CONF_CHECK => c ← confstart_decode jobj; mret (u_confcheck c, h)
  | ECONN_CONF_CONN => c ← confconn_decode jobj; mret (u_confconn c, h)
  | ECONN_CONF_PART => c ← confpart_decode jobj; mret (u_confpart c, h)
  | ECONN_CONF_KEY => keyl ← econn_keys_decode jobj; mret (u_confkey keyl, h)
  | ECONN_CONF_STREAMS =>
    streaml ← econn_streams_decode jobj;
    mode ← jzon_strdup obj "mode";
    mret (u_confstreams streaml mode, h)
  | ECONN_DEVPAIR_PUBLISH => u ← devpair_publish_decode jobj; mret (u, h)
  | ECONN_DEVPAIR_ACCEPT => sdp ← jzon_strdup obj "sdp"; mret (u_devpair_accept sdp, h)
  | ECONN_ALERT =>
    level ← jzon_u32 obj "level";
    descr ← jzon_strdup obj "descr";
    mret (u_alert level descr, h)
  end.

(** The type of a message, by the chain of comparisons with the names. *)
Definition decode_order : list econn_msg :=
  [ECONN_SETUP; ECONN_GROUP_SETUP; ECONN_UPDATE; ECONN_CANCEL; ECONN_HANGUP; ECONN_REJECT;
   ECONN_PROPSYNC; ECONN_GROUP_START; ECONN_GROUP_LEAVE; ECONN_GROUP_CHECK;
   ECONN_CONF_START; ECONN_CONF_CHECK; ECONN_CONF_CONN; ECONN_CONF_END; ECONN_CONF_PART;
   ECONN_CONF_KEY; ECONN_CONF_STREAMS; ECONN_DEVPAIR_PUBLISH; ECONN_DEVPAIR_ACCEPT;
   ECONN_ALERT; ECONN_PING].
Definition decode_type (type : string) : option econn_msg :=
  find (λ t, str_casecmp (Some type) (Some (econn_msg_name t)) =? 0) decode_order.

(** A successful result: a message, or the message as it was allocated, of the
    type 0, which has no name. *)
Inductive decoded :=
| Decoded (msg : econn_message) (h : props_heap)
| DecodedBlank.

(** [econn_message_decode]; [str] is the [len] bytes that are given. *)
Definition econn_message_decode (h : props_heap) (curr_time mtime : Z) (str : option string)
    : cres decoded :=
  jobj ← jzon_decode str;
  let obj := Some jobj in
  type ← need_str jobj "type";
  ver ← need_str jobj "version";
  if negb (str_casecmp (Some econn_proto_version) (Some ver) =? 0) then inl EPROTO else
  match jzon_str obj "sessid" with
  | None => mret DecodedBlank
  | Some sessid =>
    resp ← jzon_bool obj "resp";
    match decode_type type with
    | None => inl EPROTONOSUPPORT
    | Some t =>
      '(u, h) ← payload_decode h t jobj;
      mret (Decoded {|
        msg_type := t;
        sessid_sender := str_ncpy sessid ECONN_ID_LEN;
        src_userid := ncpy0 (jzon_str obj "src_userid") ECONN_ID_LEN;
        src_clientid := ncpy0 (jzon_str obj "src_clientid") ECONN_ID_LEN;
        dest_userid := ncpy0 (jzon_str obj "dest_userid") ECONN_ID_LEN;
        dest_clientid := ncpy0 (jzon_str obj "dest_clientid") ECONN_ID_LEN;
        resp := resp; transient := false;
        msg_time := u32 mtime;
        msg_age := u32 (if curr_time <? mtime then 0 else curr_time - mtime);
        msg_u := u |} h)
    end
  end.

End Fmt.
