(* ===== verification/EconnFmtSpec.v ===== *)
(** * What the message format preserves

    The members an encoded message has ([header_fields], [payload_fields]), what
    the decoder makes of them, and the messages for which nothing is lost
    ([message_ok]). *)

From Stdlib Require Import Ascii.
From stdpp Require Import gmap.
From S2P Require Import Prelude LibRe LibReJson Jzon EconnMsg EconnFmt.

#[local] Open Scope string_scope.
#[local] Open Scope Z_scope.
#[local] Open Scope enc_scope.

Create HintDb fok.

(** ** Messages that can be sent *)

Definition id_fits (s : string) : Prop := (String.length s < ECONN_ID_LEN)%nat.

Definition srv_fits (srv : zapi_ice_server) : Prop :=
  (String.length (srv_url srv) < 256)%nat ∧ (String.length (srv_username srv) < 128)%nat
  ∧ (String.length (srv_credential srv) < 128)%nat.
Definition turnv_fits (srvv : list zapi_ice_server) : Prop :=
  Forall srv_fits srvv ∧ Z.of_nat (length srvv) < 2 ^ 31.

Record part_fits (p : econn_group_part) : Prop := {
  pf_userid : is_Some (gp_userid p);
  pf_clientid : is_Some (gp_clientid p);
  pf_ssrca : 0 <= gp_ssrca p < 2 ^ 32;
  pf_ssrcv : 0 <= gp_ssrcv p < 2 ^ 32;
  pf_ts : 0 <= gp_ts p < 2 ^ 31;
}.

Record key_fits (k : econn_key_info) : Prop := {
  kf_idx : 0 <= ek_idx k < 2 ^ 32;
  kf_data : bytes_ok (ek_data k);
}.

Record stream_fits (s : econn_stream_info) : Prop := {
  sf_userid : id_fits (si_userid s);
  sf_quality : 0 <= si_quality s < 2 ^ 32;
  sf_clientid : id_fits (si_ssrcv_clientid s);
  sf_hi : 0 <= si_ssrcv_hi s < 2 ^ 32;
  sf_lo : 0 <= si_ssrcv_lo s < 2 ^ 32;
}.

(** The dictionary of properties: distinct keys, strings. *)
Definition props_fit (h : props_heap) (p : econn_props_ref) : Prop :=
  ∃ d, h !! p = Some d ∧ json_ok 1 (ODICT_OBJECT d).
Definition props_fit_opt (h : props_heap) (p : option econn_props_ref) : Prop :=
  match p with Some p => props_fit h p | None => True end.

Record confconn_fits (c : confconn) : Prop := {
  nf_turnv : turnv_fits (cn_turnv c);
  nf_env : - 2 ^ 31 <= cn_env c < 2 ^ 31;
  nf_tool : is_Some (cn_tool c);
  nf_toolver : is_Some (cn_toolver c);
  nf_status : status_of (s32 (status_value (cn_status c))) = cn_status c;
  nf_vstreams : 0 <= cn_vstreams c <= 32;
}.

Record confstart_fits (h : props_heap) (c : confstart) : Prop := {
  tf_props : props_fit_opt h (cs_props c);
  tf_url : is_Some (cs_sft_url c);
  tf_secret : cs_secret c ≠ [] ∧ bytes_ok (cs_secret c);
  tf_timestamp : 0 <= cs_timestamp c < 2 ^ 64;
  tf_seqno : 0 <= cs_seqno c < 2 ^ 32;
}.

Record confpart_fits (c : confpart) : Prop := {
  rf_timestamp : 0 <= cp_timestamp c < 2 ^ 64;
  rf_seqno : 0 <= cp_seqno c < 2 ^ 32;
  rf_partl : ∃ ps, cp_partl c = Some <$> ps ∧ Forall part_fits ps;
  rf_entropy : ∀ e, cp_entropy c = Some e → bytes_ok e;
}.

(** The payload is the one of the type, pointers the decoder requires are set and
    numbers have their C types. *)
Definition payload_fits (h : props_heap) (type : econn_msg) (u : econn_payload) : Prop :=
  match type, u with
  | (ECONN_SETUP | ECONN_GROUP_SETUP | ECONN_UPDATE), u_setup (Some _) (Some p) _ _ =>
    props_fit h p
  | (ECONN_CANCEL | ECONN_HANGUP | ECONN_REJECT | ECONN_GROUP_LEAVE | ECONN_GROUP_CHECK
     | ECONN_CONF_END | ECONN_PING), _ => True
  | ECONN_PROPSYNC, u_propsync (Some p) => props_fit h p
  | ECONN_GROUP_START, u_groupstart p => props_fit_opt h p
  | ECONN_CONF_CONN, u_confconn c => confconn_fits c
  | ECONN_CONF_START, u_confstart c => confstart_fits h c
  | ECONN_CONF_CHECK, u_confcheck c => confstart_fits h c ∧ cs_props c = None
  | ECONN_CONF_PART, u_confpart c => confpart_fits c
  | ECONN_CONF_KEY, u_confkey keyl => ∃ ks, keyl = Some <$> ks ∧ Forall key_fits ks
  | ECONN_CONF_STREAMS, u_confstreams sl (Some _) => Forall stream_fits sl
  | ECONN_DEVPAIR_PUBLISH, u_devpair_publish turnv (Some _) (Some _) =>
    turnv ≠ [] ∧ turnv_fits turnv
  | ECONN_DEVPAIR_ACCEPT, u_devpair_accept (Some _) => True
  | ECONN_ALERT, u_alert level (Some _) => 0 <= level < 2 ^ 32
  | _, _ => False
  end.

Record header_ok (m : econn_message) : Prop := {
  ho_sessid : id_fits (sessid_sender m);
  ho_src_userid : id_fits (src_userid m);
  ho_src_clientid : id_fits (src_clientid m);
  ho_dest_userid : id_fits (dest_userid m);
  ho_dest_clientid : id_fits (dest_clientid m);
}.

Record message_ok (h : props_heap) (m : econn_message) : Prop := {
  mo_header : header_ok m;
  mo_payload : payload_fits h (msg_type m) (msg_u m);
}.

(** ** What every decoded message satisfies

    Numbers in the range of their C types, strings that fit their arrays, list
    elements that are not [NULL], the member of the union that belongs to the
    type, and live properties. *)

Record part_typed (p : econn_group_part) : Prop := {
  pt_ssrca : 0 <= gp_ssrca p < 2 ^ 32;
  pt_ssrcv : 0 <= gp_ssrcv p < 2 ^ 32;
  pt_ts : 0 <= gp_ts p < 2 ^ 64;
}.

Record confconn_typed (c : confconn) : Prop := {
  nt_turnv : Forall srv_fits (cn_turnv c);
  nt_env : - 2 ^ 31 <= cn_env c < 2 ^ 31;
  nt_vstreams : 0 <= cn_vstreams c <= 32;
}.

Record confstart_typed (c : confstart) : Prop := {
  tt_secret : bytes_ok (cs_secret c);
  tt_timestamp : 0 <= cs_timestamp c < 2 ^ 64;
  tt_seqno : 0 <= cs_seqno c < 2 ^ 32;
}.

Record confpart_typed (c : confpart) : Prop := {
  rt_timestamp : 0 <= cp_timestamp c < 2 ^ 64;
  rt_seqno : 0 <= cp_seqno c < 2 ^ 32;
  rt_partl : ∃ ps, cp_partl c = Some <$> ps ∧ Forall part_typed ps;
  rt_entropy : ∀ e, cp_entropy c = Some e → bytes_ok e;
}.

Definition props_live (h : props_heap) (p : option econn_props_ref) : Prop :=
  ∀ r, p = Some r → is_Some (h !! r).

Definition payload_typed (h : props_heap) (type : econn_msg) (u : econn_payload) : Prop :=
  match type, u with
  | (ECONN_SETUP | ECONN_GROUP_SETUP | ECONN_UPDATE), u_setup (Some _) (Some p) _ _ =>
    props_live h (Some p)
  | (ECONN_CANCEL | ECONN_HANGUP | ECONN_REJECT | ECONN_GROUP_LEAVE | ECONN_GROUP_CHECK
     | ECONN_CONF_END | ECONN_PING), u_zero => True
  | ECONN_PROPSYNC, u_propsync (Some p) => props_live h (Some p)
  | ECONN_GROUP_START, u_groupstart p => props_live h p
  | ECONN_CONF_CONN, u_confconn c => confconn_typed c
  | ECONN_CONF_START, u_confstart c => confstart_typed c ∧ props_live h (cs_props c)
  | ECONN_CONF_CHECK, u_confcheck c => confstart_typed c
  | ECONN_CONF_PART, u_confpart c => confpart_typed c
  | ECONN_CONF_KEY, u_confkey keyl => ∃ ks, keyl = Some <$> ks ∧ Forall key_fits ks
  | ECONN_CONF_STREAMS, u_confstreams sl _ => Forall stream_fits sl
  | ECONN_DEVPAIR_PUBLISH, u_devpair_publish turnv _ _ => Forall srv_fits turnv
  | ECONN_DEVPAIR_ACCEPT, u_devpair_accept _ => True
  | ECONN_ALERT, u_alert level _ => 0 <= level < 2 ^ 32
  | _, _ => False
  end.

Record message_typed (h : props_heap) (m : econn_message) : Prop := {
  mt_sessid : id_fits (sessid_sender m);
  mt_src_userid : id_fits (src_userid m);
  mt_src_clientid : id_fits (src_clientid m);
  mt_dest_userid : id_fits (dest_userid m);
  mt_dest_clientid : id_fits (dest_clientid m);
  mt_time : 0 <= msg_time m < 2 ^ 32;
  mt_age : 0 <= msg_age m < 2 ^ 32;
  mt_payload : payload_typed h (msg_type m) (msg_u m);
}.

(** ** Messages as they arrive

    GROUP_SETUP and UPDATE lose the URL and the tuple; types without a payload
    lose whatever the union held. *)
Definition delivered_payload (type : econn_msg) (u : econn_payload) : econn_payload :=
  match type, u with
  | (ECONN_GROUP_SETUP | ECONN_UPDATE), u_setup sdp p _ _ => u_setup sdp p None None
  | (ECONN_CANCEL | ECONN_HANGUP | ECONN_REJECT | ECONN_GROUP_LEAVE | ECONN_GROUP_CHECK
     | ECONN_CONF_END | ECONN_PING), _ => u_zero
  | _, _ => u
  end.

(** The properties of a payload, and the payload with others. *)
Definition payload_props (u : econn_payload) : option econn_props_ref :=
  match u with
  | u_setup _ p _ _ | u_propsync p | u_groupstart p => p
  | u_confstart c => cs_props c
  | _ => None
  end.
Definition with_props (p : option econn_props_ref) (u : econn_payload) : econn_payload :=
  match u with
  | u_setup sdp _ url t => u_setup sdp p url t
  | u_propsync _ => u_propsync p
  | u_groupstart _ => u_groupstart p
  | u_confstart c => u_confstart {| c with cs_props := p |}
  | _ => u
  end.

(** The message as it arrives at a client that keeps the properties under [p]. *)
Definition delivered (m : econn_message) (curr_time mtime : Z) (p : option econn_props_ref)
    : econn_message :=
  {| m with transient := false; msg_time := u32 mtime;
            msg_age := u32 (if curr_time <? mtime then 0 else curr_time - mtime);
            msg_u := with_props p (delivered_payload (msg_type m) (msg_u m)) |}.

(** ** The members of an encoded message *)

Section Fields.
Context `{LibRe, LibReJson}.

Definition str_field (k s : string) : field := (k, Some (ODICT_STRING s)).
Definition opt_field (k : string) (s : option string) : field := (k, ODICT_STRING <$> s).
Definition int_field (k : string) (i : Z) : field := (k, Some (ODICT_INT (s32 i))).
Definition bool_field (k : string) (b : bool) : field := (k, Some (ODICT_BOOL b)).
Definition id_field (k s : string) : field :=
  (k, if str_isset (Some s) then Some (ODICT_STRING s) else None).
Definition nz_field (k : string) (i : Z) : field :=
  (k, if negb (i =? 0) then Some (ODICT_INT (s32 i)) else None).
Definition array_field (k : string) (vs : list json_object) : field :=
  (k, Some (ODICT_ARRAY (numbered vs))).
Definition array_field_ne (k : string) (vs : list json_object) : field :=
  (k, if (0 <? length vs)%nat then Some (ODICT_ARRAY (numbered vs)) else None).
Definition props_field (h : props_heap) (p : option econn_props_ref) : field :=
  ("props", ODICT_OBJECT <$> (p ≫= (h !!.))).

Definition header_fields (m : econn_message) : list field :=
  [str_field "version" econn_proto_version; str_field "type" (econn_msg_name (msg_type m));
   str_field "sessid" (sessid_sender m);
   id_field "src_userid" (src_userid m); id_field "src_clientid" (src_clientid m);
   id_field "dest_userid" (dest_userid m); id_field "dest_clientid" (dest_clientid m);
   bool_field "resp" (resp m)].

Definition part_fields (p : econn_group_part) : list field :=
  [str_field "userid" (default "" (gp_userid p)); str_field "clientid" (default "" (gp_clientid p));
   bool_field "authorized" (gp_authorized p);
   str_field "ssrc_audio" (decimal (gp_ssrca p)); str_field "ssrc_video" (decimal (gp_ssrcv p));
   int_field "timestamp" (gp_ts p);
   ("muted", match gp_muted_state p with
             | MUTED_STATE_UNMUTED => Some (ODICT_BOOL false)
             | MUTED_STATE_MUTED => Some (ODICT_BOOL true)
             | MUTED_STATE_UNKNOWN => None
             end)].
Definition key_fields (k : econn_key_info) : list field :=
  [int_field "idx" (ek_idx k); str_field "data" (b64 (ek_data k))].
Definition stream_fields (s : econn_stream_info) : list field :=
  [str_field "userid" (si_userid s); int_field "quality" (si_quality s);
   nz_field "ssrcv_hi" (si_ssrcv_hi s); nz_field "ssrcv_lo" (si_ssrcv_lo s);
   id_field "clientid" (si_ssrcv_clientid s)].
Definition srv_fields (s : zapi_ice_server) : list field :=
  [str_field "urls" (srv_url s); str_field "username" (srv_username s);
   str_field "credential" (srv_credential s)].

Definition obj (fs : list field) : json_object := ODICT_OBJECT (present fs).

Definition confconn_fields (c : confconn) : list field :=
  [array_field_ne "ice_servers" ((λ s, obj (srv_fields s)) <$> cn_turnv c);
   bool_field "update" (cn_update c);
   str_field "tool" (default "" (cn_tool c)); str_field "toolver" (default "" (cn_toolver c));
   int_field "env" (cn_env c); int_field "status" (status_value (cn_status c));
   bool_field "selective_audio" (cn_selective_audio c);
   bool_field "selective_video" (cn_selective_video c); int_field "vstreams" (cn_vstreams c);
   opt_field "sft_url" (cn_sft_url c); opt_field "sft_tuple" (cn_sft_tuple c);
   opt_field "username" (cn_sft_username c); opt_field "credential" (cn_sft_credential c)].
Definition confstart_fields (c : confstart) : list field :=
  [str_field "sft_url" (default "" (cs_sft_url c)); opt_field "sft_tuple" (cs_sft_tuple c);
   str_field "secret" (b64 (cs_secret c)); str_field "timestamp" (decimal (cs_timestamp c));
   str_field "seqno" (decimal (cs_seqno c)); array_field_ne "sfts" (ODICT_STRING <$> cs_sftl c)].
Definition confpart_fields (c : confpart) : list field :=
  [bool_field "should_start" (cp_should_start c);
   str_field "timestamp" (decimal (cp_timestamp c)); str_field "seqno" (decimal (cp_seqno c));
   ("entropy", (λ e, ODICT_STRING (b64 e)) <$> cp_entropy c);
   array_field "participants" ((λ p, obj (part_fields p)) <$> omap id (cp_partl c));
   array_field_ne "sfts" (ODICT_STRING <$> cp_sftl c)].

Definition payload_fields (h : props_heap) (type : econn_msg) (u : econn_payload) : list field :=
  match type, u with
  | (ECONN_SETUP | ECONN_GROUP_SETUP | ECONN_UPDATE), u_setup sdp p url t =>
    [str_field "sdp" (default "" sdp); props_field h p; opt_field "url" url;
     opt_field "sft_tuple" t]
  | ECONN_PROPSYNC, u_propsync p => [props_field h p]
  | ECONN_GROUP_START, u_groupstart p => [props_field h p]
  | ECONN_CONF_CONN, u_confconn c => confconn_fields c
  | ECONN_CONF_START, u_confstart c => confstart_fields c ++ [props_field h (cs_props c)]
  | ECONN_CONF_CHECK, u_confcheck c => confstart_fields c
  | ECONN_CONF_PART, u_confpart c => confpart_fields c
  | ECONN_CONF_KEY, u_confkey keyl =>
    [array_field "keys" ((λ k, obj (key_fields k)) <$> omap id keyl)]
  | ECONN_CONF_STREAMS, u_confstreams sl mode =>
    [str_field "mode" (default "" mode);
     array_field "streams" ((λ s, obj (stream_fields s)) <$> sl)]
  | ECONN_DEVPAIR_PUBLISH, u_devpair_publish turnv sdp username =>
    [array_field "ice_servers" ((λ s, obj (srv_fields s)) <$> turnv);
     str_field "sdp" (default "" sdp); str_field "username" (default "" username)]
  | ECONN_DEVPAIR_ACCEPT, u_devpair_accept sdp => [str_field "sdp" (default "" sdp)]
  | ECONN_ALERT, u_alert level descr =>
    [int_field "level" level; str_field "descr" (default "" descr)]
  | _, _ => []
  end.

End Fields.

(** Keys are literals: they are different because they are. *)
Ltac keys_differ := apply (bool_decide_unpack _); vm_compute; exact I.

Section Encode.
Context `{LibReSpec} `{!LibReJson} `{!LibReJsonSpec}.

(** ** Encoding adds the members *)

Lemma array_of_numbered vs : array_of vs = ODICT_ARRAY (numbered vs).
Proof.
  unfold array_of. change json_object_new_array with (ODICT_ARRAY (numbered [])).
  change vs with ([] ++ vs)%list at 2. generalize (@nil json_object) as ws.
  induction vs as [|v vs IH]; intros ws; cbn [foldl]; [by rewrite app_nil_r|].
  rewrite array_add_numbered. etransitivity; [apply (IH (ws ++ [v])%list)|]. by rewrite <- app_assoc.
Qed.

Lemma object_of_adds a fs : adds a fs → NoDup fs.*1 → object_of a = obj fs.
Proof. intros Ha Hd. unfold object_of, json_object_new_object. by rewrite Ha. Qed.

Lemma adds_array k vs : adds (add_object k (array_of vs)) [array_field k vs].
Proof. rewrite array_of_numbered. apply adds_add. Qed.

Lemma adds_strings strl k :
  adds (econn_stringlist_encode strl k) [array_field_ne k (ODICT_STRING <$> strl)].
Proof.
  unfold econn_stringlist_encode, array_field_ne. rewrite length_fmap.
  apply adds_if. intros _. apply adds_array.
Qed.

Lemma adds_id k s :
  adds (enc_if (str_isset (Some s)) (jzon_add_str k (re_s (Some s)))) [id_field k s].
Proof. apply adds_if. intros _. rewrite re_s_Some. apply adds_str. Qed.

Lemma adds_nz k i : adds (enc_if (negb (i =? 0)) (jzon_add_int k i)) [nz_field k i].
Proof. apply adds_if. intros _. apply adds_int. Qed.

Lemma adds_optstr k s :
  adds (enc_opt s (λ x, jzon_add_str k (re_s (Some x)))) [opt_field k s].
Proof. apply adds_opt. intros x _. rewrite re_s_Some. apply adds_str. Qed.

Lemma adds_some k s :
  is_Some s → adds (jzon_add_str k (re_s s)) [str_field k (default "" s)].
Proof. intros [x ->]. rewrite re_s_Some. apply adds_str. Qed.

Lemma adds_number k n :
  0 <= n → adds (jzon_add_str k (re_u n)) [str_field k (decimal n)].
Proof. intros Hn. rewrite re_u_decimal by done. apply adds_str. Qed.

Lemma adds_number_s k n :
  0 <= n → adds (jzon_add_str k (re_s (Some (re_u n)))) [str_field k (decimal n)].
Proof. rewrite re_s_Some. apply adds_number. Qed.

Lemma adds_props h p d :
  h !! p = Some d → ∃ a, econn_props_encode h p = Some a ∧ adds a [props_field h (Some p)].
Proof.
  intros Hp. eexists. unfold econn_props_encode. rewrite Hp. split; [done|].
  unfold props_field. cbn. rewrite Hp. intros o Ho. cbn.
  rewrite odict_entry_add_fresh; [done|]. apply NoDup_app in Ho as (_ & Hk & _).
  intros Hin. apply (Hk _ Hin). left.
Qed.

Lemma adds_props_opt h p :
  props_fit_opt h p → ∃ a, props_encode_opt h p = Some a ∧ adds a [props_field h p].
Proof.
  destruct p as [p|]; cbn.
  - intros (d & Hd & _). by eapply adds_props.
  - intros _. exists enc_ok. split; [done|]. apply adds_none, adds_ok.
Qed.

(** The steps in order, with one member each. *)
Ltac adds_one :=
  first [ apply adds_array | apply adds_strings | apply adds_id | apply adds_nz
        | apply adds_optstr | (apply adds_some; done) | (apply adds_number; lia)
        | (apply adds_number_s; lia) | apply adds_str | apply adds_int | apply adds_bool
        | done ].
Ltac adds_step :=
  lazymatch goal with
  | |- adds (enc_then _ _) (?f :: ?fs) => apply (adds_then _ _ [f] fs); [adds_one|]
  | |- adds (enc_also _ enc_ok) ?fs =>
    rewrite <- (app_nil_r fs); apply adds_also; [|apply adds_ok]
  | |- adds (enc_also _ _) (?f :: ?fs) => apply (adds_also _ _ [f] fs); [adds_one|]
  end.
Ltac adds_all := repeat adds_step; try adds_one.

Lemma adds_header m : adds (header_encode m) (drop 3 (header_fields m)).
Proof. unfold header_encode, header_fields. cbn [drop]. adds_all. Qed.

Lemma part_encode_obj p : part_fits p → part_encode p = obj (part_fields p).
Proof.
  intros []. apply object_of_adds; [|keys_differ]. unfold part_fields. adds_all.
  destruct (gp_muted_state p); [apply adds_none, adds_ok|apply adds_bool..].
Qed.

Lemma key_encode_obj k : key_fits k → key_encode k = obj (key_fields k).
Proof.
  intros []. apply object_of_adds; [|keys_differ]. unfold key_fields. adds_all.
  by apply adds_base64.
Qed.

Lemma stream_encode_obj s : stream_fits s → stream_encode s = obj (stream_fields s).
Proof.
  intros []. apply object_of_adds; [|keys_differ]. unfold stream_fields.
  apply (adds_also _ _ [_] [_; _; _; _]); [rewrite re_s_Some; apply adds_str|]. adds_all.
Qed.

Lemma iceserver_encode_obj s : iceserver_encode s = inr (obj (srv_fields s)).
Proof.
  unfold iceserver_encode, jzon_creatf, json_object_new_object.
  cbn [jzon_vcreatf_loop json_object_new_string fmap option_fmap option_map].
  by rewrite !object_add_fresh by keys_differ.
Qed.

Lemma iceservers_loop_obj srvv ws :
  iceservers_loop (ODICT_ARRAY (numbered ws)) srvv
  = inr (ODICT_ARRAY (numbered (ws ++ ((λ s, obj (srv_fields s)) <$> srvv)))).
Proof.
  revert ws. induction srvv as [|s srvv IH]; intros ws; cbn [iceservers_loop].
  { by rewrite app_nil_r. }
  rewrite iceserver_encode_obj. unfold mbind, cres_bind. rewrite array_add_numbered.
  rewrite IH. by rewrite <- app_assoc.
Qed.

Lemma adds_iceservers srvv :
  srvv ≠ [] →
  adds (zapi_iceservers_encode srvv)
    [array_field "ice_servers" ((λ s, obj (srv_fields s)) <$> srvv)].
Proof.
  intros Hne o Ho. unfold zapi_iceservers_encode. destruct srvv as [|s srvv]; [done|].
  change json_object_new_array with (ODICT_ARRAY (numbered [])). rewrite iceservers_loop_obj.
  by apply (adds_add "ice_servers").
Qed.

Lemma adds_iceservers_ne srvv :
  adds (enc_if (0 <? length srvv)%nat (zapi_iceservers_encode srvv))
    [array_field_ne "ice_servers" ((λ s, obj (srv_fields s)) <$> srvv)].
Proof.
  unfold array_field_ne. rewrite length_fmap. apply adds_if. intros Hn.
  apply adds_iceservers. by intros ->.
Qed.

Lemma adds_setup h sdp p url t :
  props_fit h p →
  ∃ a, setup_encode h (Some sdp) (Some p) url t = Some a
       ∧ adds a [str_field "sdp" sdp; props_field h (Some p); opt_field "url" url;
                 opt_field "sft_tuple" t].
Proof.
  intros (d & Hd & _). destruct (adds_props h p d Hd) as (a & E & Ha).
  unfold setup_encode, props_encode_opt. rewrite E. eexists. split; [done|].
  apply (adds_then _ _ [_] [_; _; _]); [by apply (adds_some "sdp" (Some sdp))|]. adds_all.
Qed.

Lemma adds_confconn c : confconn_fits c → adds (confconn_encode c) (confconn_fields c).
Proof.
  intros []. unfold confconn_encode, confconn_fields.
  apply (adds_then _ _ [_] [_; _; _; _; _; _; _; _; _; _; _; _]); [apply adds_iceservers_ne|].
  do 11 adds_step. adds_step. adds_one.
Qed.

Lemma secret_ptr_some s : s ≠ [] → secret_ptr s = Some s.
Proof. by destruct s. Qed.

Lemma adds_confstart h c : confstart_fits h c → adds (confstart_encode c) (confstart_fields c).
Proof.
  intros [_ Hu [Hne Hb] Ht Hs]. unfold confstart_encode, confstart_fields.
  rewrite secret_ptr_some by done. do 2 adds_step.
  apply (adds_also _ _ [_] [_; _; _]); [by apply adds_base64|]. adds_all.
Qed.

Lemma mapM_some {A} (l : list A) : mapM id (Some <$> l) = Some l.
Proof. apply mapM_fmap_Some. done. Qed.

Lemma omap_some {A} (l : list A) : omap id (Some <$> l) = l.
Proof. induction l as [|x l IH]; [done|]. cbn. by rewrite <- IH at 2. Qed.

Lemma encode_all {A} (f g : A → json_object) (P : A → Prop) l :
  (∀ x, P x → f x = g x) → Forall P l → f <$> l = g <$> l.
Proof. intros Hfg Hl. apply list_fmap_ext. intros i x Hx. eapply Hfg, Forall_lookup_1; eauto. Qed.

Lemma adds_entropy e :
  (∀ b, e = Some b → bytes_ok b) → ∀ gs b,
  adds b gs →
  adds (jzon_add_base64 "entropy" e >>! b) (("entropy", (λ e, ODICT_STRING (b64 e)) <$> e) :: gs).
Proof.
  intros He gs b Hb. destruct e as [e|]; cbn.
  - apply (adds_also _ _ [_] gs); [by apply adds_base64, He|done].
  - intros o Ho. unfold enc_also. cbn. apply (Hb o).
    apply NoDup_app in Ho as (? & Hk & [_ ?]%NoDup_cons). apply NoDup_app. split; [done|].
    split; [|done]. intros k Hin Hg. apply (Hk k Hin). by right.
Qed.

Lemma adds_confpart c :
  confpart_fits c → ∃ a, confpart_encode c = Some a ∧ adds a (confpart_fields c).
Proof.
  intros [Ht Hs (ps & Ep & Hps) He]. unfold confpart_encode, econn_parts_encode, confpart_fields.
  rewrite Ep, mapM_some, omap_some. eexists. split; [done|].
  rewrite (encode_all part_encode (λ p, obj (part_fields p)) part_fits)
    by auto using part_encode_obj.
  do 3 adds_step. apply adds_entropy; [done|]. adds_all.
Qed.

(** Every payload that fits can be encoded. *)
Lemma adds_payload h t u :
  payload_fits h t u → ∃ a, payload_encode h t u = Some a ∧ adds a (payload_fields h t u).
Proof.
  intros Hf. destruct t, u; cbn in Hf; repeat case_match; try done; subst; cbn.
  all: try by (eexists; split; [done|apply adds_ok]).
  all: try by apply adds_setup.
  - destruct Hf as (d & Hd & _). by eapply adds_props.
  - by apply adds_props_opt.
  - eexists. split; [done|]. by apply adds_confconn.
  - destruct (adds_props_opt h (cs_props c) (tf_props _ _ Hf)) as (a & -> & Ha).
    eexists. split; [done|].
    apply (adds_also _ _ (confstart_fields c) [_]); [by eapply adds_confstart|done].
  - destruct (adds_confpart c Hf) as (a & -> & Ha). by exists a.
  - destruct Hf as (ks & -> & Hk). unfold econn_keys_encode.
    rewrite mapM_some, omap_some. eexists. split; [done|].
    rewrite (encode_all key_encode (λ k, obj (key_fields k)) key_fits) by auto using key_encode_obj.
    adds_all.
  - eexists. split; [done|]. rewrite <- (app_nil_r (confstart_fields c)).
    apply adds_also; [eapply adds_confstart, (proj1 Hf)|apply adds_ok].
  - eexists. split; [done|]. unfold econn_streams_encode.
    rewrite (encode_all stream_encode (λ k, obj (stream_fields k)) stream_fits)
      by auto using stream_encode_obj.
    apply (adds_also _ _ [_] [_]); [by apply (adds_some _ (Some _))|]. adds_all.
  - eexists. split; [done|].
    apply (adds_then _ _ [_] [_]); [apply adds_int|]. by apply (adds_some _ (Some _)).
  - eexists. split; [done|].
    apply (adds_then _ _ [_] [_; _]); [apply adds_iceservers, Hf|].
    apply (adds_then _ _ [_] [_]); by apply (adds_some _ (Some _)).
  - eexists. split; [done|]. by apply (adds_some _ (Some _)).
Qed.

(** ** The text *)

Lemma fields_nodup h m t u : NoDup (header_fields m ++ payload_fields h t u)%list.*1.
Proof. destruct t, u; keys_differ. Qed.

Lemma json_ok_S d v : json_ok d v → json_ok (S d) v.
Proof.
  revert v. induction d as [|d IH]; intros [l|l|s|i|b|b|]; try done.
  all: intros [Hk Hl]; split; [done|]; eapply Forall_impl; [exact Hl|]; intros e; apply IH.
Qed.

(** A member that can be written [d] levels deep. *)
Definition field_ok (d : nat) (f : field) : Prop := ∀ v, f.2 = Some v → json_ok d v.

Lemma str_field_ok d k s : field_ok d (str_field k s).
Proof. intros v [= <-]. by destruct d. Qed.
Lemma opt_field_ok d k s : field_ok d (opt_field k s).
Proof. destruct s; intros v [= <-]. by destruct d. Qed.
Lemma id_field_ok d k s : field_ok d (id_field k s).
Proof. intros v. unfold id_field. cbn. case_match; [intros [= <-]|done]. by destruct d. Qed.
Lemma int_field_ok d k i : field_ok d (int_field k i).
Proof. intros v [= <-]. pose proof (s32_range i). destruct d; cbn; lia. Qed.
Lemma nz_field_ok d k i : field_ok d (nz_field k i).
Proof.
  intros v. unfold nz_field. cbn [snd]. case_match; [|done]. by apply (int_field_ok d k i).
Qed.
Lemma bool_field_ok d k b : field_ok d (bool_field k b).
Proof. intros v [= <-]. by destruct d. Qed.
Lemma bool_opt_ok d k (b : option bool) : field_ok d (k, ODICT_BOOL <$> b).
Proof. destruct b; intros v [= <-]. by destruct d. Qed.
Lemma array_field_ok d k vs : Forall (json_ok d) vs → field_ok (S d) (array_field k vs).
Proof. intros Hv v [= <-]. by apply numbered_ok. Qed.
Lemma array_field_ne_ok d k vs : Forall (json_ok d) vs → field_ok (S d) (array_field_ne k vs).
Proof.
  intros Hv v. unfold array_field_ne. cbn [snd]. case_match; [|done].
  intros [= <-]. by apply numbered_ok.
Qed.
Lemma props_field_ok h p : props_fit_opt h p → field_ok 2 (props_field h p).
Proof.
  destruct p as [p|]; [|intros _ v [=]]. intros (d & Hd & Hok) v.
  unfold props_field. cbn. rewrite Hd. intros [= <-].
  exact (json_ok_S 1 (ODICT_OBJECT d) Hok).
Qed.

Lemma strings_ok d l : Forall (json_ok d) (ODICT_STRING <$> l).
Proof. apply Forall_fmap, Forall_true. intros s. by destruct d. Qed.

Lemma objs_ok {A} (f : A → list field) l :
  (∀ x, x ∈ l → NoDup (f x).*1 ∧ Forall (field_ok 0) (f x)) →
  Forall (json_ok 1) ((λ x, obj (f x)) <$> l).
Proof.
  intros Hf. apply Forall_fmap, Forall_forall. intros x Hx.
  apply present_ok; by apply Hf.
Qed.

#[local] Hint Resolve str_field_ok opt_field_ok id_field_ok int_field_ok nz_field_ok bool_field_ok : fok.
#[local] Hint Resolve array_field_ok array_field_ne_ok strings_ok props_field_ok : fok.
Ltac fields_ok := repeat (apply Forall_cons; split); try apply Forall_nil_2; auto with fok.

Lemma srvs_ok l : Forall (json_ok 1) ((λ s, obj (srv_fields s)) <$> l).
Proof. apply objs_ok. intros s _. split; [keys_differ|]. unfold srv_fields. fields_ok. Qed.
Lemma parts_ok l : Forall (json_ok 1) ((λ p, obj (part_fields p)) <$> l).
Proof.
  apply objs_ok. intros p _. split; [keys_differ|]. unfold part_fields. fields_ok.
  destruct (gp_muted_state p); [apply (bool_opt_ok 0 _ None)|apply bool_field_ok..].
Qed.
Lemma keys_ok l : Forall (json_ok 1) ((λ p, obj (key_fields p)) <$> l).
Proof. apply objs_ok. intros p _. split; [keys_differ|]. unfold key_fields. fields_ok. Qed.
Lemma streams_ok l : Forall (json_ok 1) ((λ p, obj (stream_fields p)) <$> l).
Proof. apply objs_ok. intros p _. split; [keys_differ|]. unfold stream_fields. fields_ok. Qed.
#[local] Hint Resolve srvs_ok parts_ok keys_ok streams_ok : fok.

Lemma payload_fields_ok h t u :
  payload_fits h t u → Forall (field_ok 2) (payload_fields h t u).
Proof.
  intros Hf. destruct t, u; cbn in Hf; repeat case_match; try done; subst.
  all: cbn; unfold confconn_fields, confstart_fields, confpart_fields; cbn.
  all: try (pose proof (tf_props _ _ Hf)).
  all: fields_ok.
  destruct (cp_entropy c); intros v [= <-]. done.
Qed.

(** ** The text of a message *)

Definition message_fields (h : props_heap) (m : econn_message) : list field :=
  (header_fields m ++ payload_fields h (msg_type m) (msg_u m))%list.

Lemma message_json_ok h m :
  Forall (field_ok 2) (payload_fields h (msg_type m) (msg_u m)) →
  json_ok 3 (obj (message_fields h m)).
Proof.
  intros Hp. apply present_ok; [apply fields_nodup|].
  change (Forall (field_ok 2) (message_fields h m)). apply Forall_app. split.
  - unfold header_fields. fields_ok.
  - done.
Qed.

Lemma encode_text h m a :
  payload_encode h (msg_type m) (msg_u m) = Some a →
  adds a (payload_fields h (msg_type m) (msg_u m)) →
  econn_message_encode h m = Some (inr (json_encode_odict (present (message_fields h m)))).
Proof.
  intros E Ha. unfold econn_message_encode. rewrite E. cbn [mbind option_bind].
  unfold jzon_creatf, json_object_new_object.
  cbn [jzon_vcreatf_loop json_object_new_string fmap option_fmap option_map].
  rewrite !object_add_fresh by keys_differ. unfold mbind, cres_bind.
  pose proof (adds_then _ _ _ _ (adds_header m) Ha) as Hall.
  pose proof (fields_nodup h m (msg_type m) (msg_u m)) as Hd.
  cbv zeta. rewrite !Hall by exact Hd. done.
Qed.

Lemma decode_text d fs :
  json_ok d (obj fs) → (d < 8)%nat →
  jzon_decode (Some (json_encode_odict (present fs))) = inr (obj fs).
Proof.
  intros Hf Hd8. unfold jzon_decode. pose proof (json_encode_token (present fs)) as Ht.
  pose proof (json_encode_nonempty (present fs)) as Hne.
  pose proof (json_decode_encode _ d 8 Hf Hd8) as Hd.
  destruct (json_encode_odict _) as [|c s]; [done|]. rewrite Ht, Hd. done.
Qed.

Lemma get_obj fs k :
  NoDup fs.*1 → json_object_object_get_ex (Some (obj fs)) k = field_of fs k.
Proof. apply lookup_present. Qed.

End Encode.
