(* ===== verification/EconnFmtProps.v ===== *)
(** * Messages arrive as they were sent

    The decoder on the members the encoder wrote, and the properties of the
    format: delivery of messages, what every decoded message satisfies, what is
    lost or refused. *)

From Stdlib Require Import Ascii.
From stdpp Require Import gmap.
From S2P Require Import Prelude LibRe LibReJson Jzon EconnMsg EconnFmt EconnFmtSpec.

#[local] Open Scope string_scope.
#[local] Open Scope Z_scope.
#[local] Open Scope enc_scope.

(** The members of a known object are read by evaluation. *)
Ltac read :=
  unfold need_str, jzon_str, jzon_strdup, jzon_bool, jzon_int, jzon_u32, jzon_typed, jzon_array,
    jzon_object, generic_object;
  rewrite ?get_obj by keys_differ;
  cbn -[decimal b64 uwrap s32 sscanf_u numbered base64_decode Nat.ltb];
  repeat match goal with
  | |- context [bool_decide (?a = ?a)] => rewrite (bool_decide_true (a = a)) by done
  | |- context [bool_decide (TYPE_ARRAY = TYPE_STRING)] => rewrite bool_decide_false by done
  end; cbn -[decimal b64 uwrap s32 sscanf_u numbered base64_decode Nat.ltb].

Section Decode.
Context `{LibReSpec} `{!LibReJson} `{!LibReJsonSpec}.

Lemma ncpy0_id s n :
  (String.length s < n)%nat →
  ncpy0 (match (if str_isset (Some s) then Some (ODICT_STRING s) else None) with
         | Some (ODICT_STRING s) => Some s
         | _ => None
         end) n = s.
Proof.
  intros Hs. destruct (str_isset (Some s)) eqn:E; cbn; [by apply str_ncpy_fits|].
  rewrite str_isset_Some in E. apply bool_decide_eq_false in E. by apply dec_stable in E.
Qed.

Lemma s32_idem x : s32 (s32 x) = s32 x.
Proof. apply s32_small, s32_range. Qed.

Lemma part_decode_obj p : part_fits p → part_decode (obj (part_fields p)) = inr p.
Proof.
  intros [[u Eu] [c Ec] Ha Hv Ht]. unfold part_decode, part_fields. read.
  rewrite !sscanf_decimal by done. rewrite s32_idem, s32_small by lia.
  rewrite uwrap_small by lia. destruct p as [pu pc pa [] ? ? ?]; cbn in *; by subst.
Qed.

Lemma key_decode_obj k l :
  key_fits k → key_decode_handler (obj (key_fields k)) l = (false, (l ++ [Some k])%list).
Proof.
  intros [Hi Hd]. unfold key_decode_handler, key_fields. read.
  rewrite b64_decodes, s32_idem, u32_s32; [by destruct k|done|done|].
  pose proof (Nat.Div0.mul_div_le (String.length (b64 (ek_data k))) 4). lia.
Qed.

Lemma or_nz x :
  0 <= x < 2 ^ 32 →
  or_keep (match (if negb (x =? 0) then Some (ODICT_INT (s32 x)) else None) with
           | Some j => if bool_decide (Some (entry_type j) = Some TYPE_INT)
                       then inr (u32 (match j with ODICT_INT i => i | _ => 0 end)) else inl EPROTO
           | None => inl ENOENT
           end) 0 = x.
Proof.
  intros Hx. destruct (Z.eqb_spec x 0) as [->|]; [done|]. cbn -[s32 uwrap].
  rewrite bool_decide_true by done. by apply u32_s32.
Qed.

Lemma stream_decode_obj s l :
  stream_fits s → stream_decode_handler (obj (stream_fields s)) l = (false, (l ++ [s])%list).
Proof.
  intros [Hu Hq Hc Hh Hl]. unfold stream_decode_handler, stream_fields. read.
  rewrite ncpy0_id, !or_nz, s32_idem, u32_s32, str_ncpy_fits by done. by destruct s.
Qed.

Lemma iceserver_decode_obj s : srv_fits s → iceserver_decode (obj (srv_fields s)) = inr s.
Proof.
  intros (Hu & Hn & Hc). unfold iceserver_decode, srv_fields. read.
  unfold ncpy0. rewrite !str_ncpy_fits by done.
 by destruct s.
Qed.

(** Arrays of objects, read element by element. *)
Lemma apply_append {A B} (ah : json_object → list B → bool * list B) (f : A → json_object)
    (g : A → B) (P : A → Prop) l :
  (∀ x acc, P x → ah (f x) acc = (false, (acc ++ [g x])%list)) → Forall P l →
  (apply_entries (λ _, ah) (numbered (f <$> l)) []).2 = g <$> l.
Proof.
  intros Hf Hl.
  assert (∀ vs acc xs, vs.*2 = f <$> xs → Forall P xs →
          (apply_entries (λ _, ah) vs acc).2 = (acc ++ (g <$> xs))%list) as Hgen.
  { induction vs as [|[k v] vs IH]; intros acc [|x xs] E Hx; try done; cbn.
    - by rewrite app_nil_r.
    - cbn in E. injection E as -> E. apply Forall_cons in Hx as [Hx Hxs].
      rewrite Hf by done. cbn. rewrite (IH _ xs) by done. by rewrite <- app_assoc. }
  by rewrite (Hgen _ _ l) by (done || apply numbered_vals).
Qed.

(** Servers written by [f] and read by the decoder as [g] has them. *)
Lemma iceservers_decode_numbered {A} (f : A → list field) (g : A → zapi_ice_server) ws i l :
  Forall (λ w, iceserver_decode (obj (f w)) = inr (g w)) ws →
  drop i l = (λ w, obj (f w)) <$> ws →
  iceservers_decode_loop (ODICT_ARRAY (numbered l)) i (length ws) = inr (g <$> ws).
Proof.
  intros Hs. revert i. induction Hs as [|s srvv Hs Hss IH]; intros i E; [done|].
  cbn [iceservers_decode_loop length]. rewrite array_get_numbered.
  rewrite fmap_cons in E.
  assert (l !! i = Some (obj (f s))) as ->.
  { rewrite <- (Nat.add_0_r i), <- lookup_drop, E. done. }
  rewrite Hs. unfold mbind, cres_bind.
  rewrite (IH (S i)); [done|]. by rewrite <- Nat.add_1_r, <- drop_drop, E.
Qed.

Lemma iceservers_decode_written {A} (f : A → list field) (g : A → zapi_ice_server) ws :
  Forall (λ w, iceserver_decode (obj (f w)) = inr (g w)) ws → Z.of_nat (length ws) < 2 ^ 31 →
  zapi_iceservers_decode (ODICT_ARRAY (numbered ((λ w, obj (f w)) <$> ws))) = inr (g <$> ws).
Proof.
  intros Hs Hl. unfold zapi_iceservers_decode, jzon_is_array, json_object_array_length.
  cbn [json_object_get_type fmap option_fmap option_map entry_type].
  rewrite bool_decide_true by done. cbn [negb].
  rewrite odict_count_length, numbered_length, length_fmap, s32_small, Nat2Z.id by lia.
  by eapply iceservers_decode_numbered.
Qed.

Lemma iceservers_decode_obj srvv :
  turnv_fits srvv →
  zapi_iceservers_decode (ODICT_ARRAY (numbered ((λ s, obj (srv_fields s)) <$> srvv))) = inr srvv.
Proof.
  intros [Hs Hl]. rewrite (iceservers_decode_written srv_fields id) by
    (done || by eapply Forall_impl; [exact Hs|apply iceserver_decode_obj]).
  by rewrite list_fmap_id.
Qed.

Lemma strings_decode (strl : list string) :
  (apply_entries (λ _, string_decode_handler) (numbered (ODICT_STRING <$> strl)) []).2 = strl.
Proof.
  rewrite (apply_append _ _ id (λ _, True)); [by rewrite list_fmap_id|done|by apply Forall_true].
Qed.

(** ** The type *)

Lemma names_differ t t' :
  LibReRef.lower (econn_msg_name t) = LibReRef.lower (econn_msg_name t') → t = t'.
Proof.
  set (of_name := λ s, find (λ t, String.eqb (LibReRef.lower (econn_msg_name t)) s) decode_order).
  intros E. assert (∀ t, of_name (LibReRef.lower (econn_msg_name t)) = Some t) as Hn
    by (intros []; by vm_compute).
  apply (f_equal of_name) in E. rewrite !Hn in E. congruence.
Qed.

Lemma decode_type_name t : decode_type (econn_msg_name t) = Some t.
Proof.
  assert (∀ t', (str_casecmp (Some (econn_msg_name t)) (Some (econn_msg_name t')) =? 0)
                = bool_decide (t = t')) as Hc.
  { intros t'. case_bool_decide as E; [subst; by rewrite str_casecmp_refl|].
    apply Z.eqb_neq. intros Hc. apply E, names_differ, str_casecmp_lower, Hc. }
  unfold decode_type. rewrite (find_ext_in _ (λ t', bool_decide (t = t'))) by auto.
  by destruct t.
Qed.

(** ** Payloads *)

Lemma props_alloc_spec h d p h' :
  econn_props_alloc h (Some d) = (p, h') → h ⊆ h' ∧ h' !! p = Some d.
Proof.
  intros [= <- <-]. split; [|apply lookup_insert_eq].
  apply insert_subseteq, not_elem_of_dom, is_fresh.
Qed.

(** The decoder's result, with the properties at a place of its own. *)
Definition arrives (h h2 : props_heap) (u : econn_payload)
    (r : cres (econn_payload * props_heap)) : Prop :=
  ∃ p h2', r = inr (with_props p u, h2') ∧ h2 ⊆ h2'
           ∧ (p ≫= (h2' !!.)) = (payload_props u ≫= (h !!.)).

Lemma arrives_plain h h2 u : payload_props u = None → with_props None u = u →
  arrives h h2 u (inr (u, h2)).
Proof. intros Hp Hu. exists None, h2. rewrite Hp, Hu. done. Qed.

Lemma arrives_props h h2 p d u p' h2' :
  h !! p = Some d → payload_props u = Some p → econn_props_alloc h2 (Some d) = (p', h2') →
  arrives h h2 u (inr (with_props (Some p') u, h2')).
Proof.
  intros Hd Hp [Hs Hl]%props_alloc_spec. exists (Some p'), h2'. split; [done|].
  split; [done|]. rewrite Hp. cbn. by rewrite Hl, Hd.
Qed.

(** The fields of a message with some payload. *)
Definition with_payload (h : props_heap) (m : econn_message) (t : econn_msg) (u : econn_payload)
    : json_object := obj (header_fields m ++ payload_fields h t u)%list.

Lemma opt_str (o : option string) :
  match ODICT_STRING <$> o with Some (ODICT_STRING s) => Some s | _ => None end = o.
Proof. by destruct o. Qed.

Lemma arrives_setup h h2 m t sdp p url tup :
  t = ECONN_SETUP ∨ t = ECONN_GROUP_SETUP ∨ t = ECONN_UPDATE → props_fit h p →
  arrives h h2 (delivered_payload t (u_setup (Some sdp) (Some p) url tup))
    (payload_decode h2 t (with_payload h m t (u_setup (Some sdp) (Some p) url tup))).
Proof.
  intros Ht (d & Hd & _). unfold payload_decode, econn_props_decode, with_payload.
  destruct Ht as [->|[->| ->]]; read; rewrite Hd; read; rewrite ?opt_str.
  all: exact (arrives_props h h2 p d (u_setup _ _ _ _) _ _ Hd eq_refl eq_refl).
Qed.

(** Properties that may be missing. *)
Lemma arrives_groupstart h h2 m p :
  props_fit_opt h p →
  arrives h h2 (u_groupstart p)
    (payload_decode h2 ECONN_GROUP_START (with_payload h m ECONN_GROUP_START (u_groupstart p))).
Proof.
  unfold payload_decode, props_decode_opt, econn_props_decode, with_payload.
  destruct p as [p|]; read; [intros (d & Hd & _); rewrite Hd; read|intros _].
  - exact (arrives_props h h2 p d (u_groupstart _) _ _ Hd eq_refl eq_refl).
  - by apply arrives_plain.
Qed.

Lemma arrives_propsync h h2 m p :
  props_fit h p →
  arrives h h2 (u_propsync (Some p))
    (payload_decode h2 ECONN_PROPSYNC (with_payload h m ECONN_PROPSYNC (u_propsync (Some p)))).
Proof.
  intros (d & Hd & _). unfold payload_decode, econn_props_decode, with_payload. read. rewrite Hd. read.
  exact (arrives_props h h2 p d (u_propsync _) _ _ Hd eq_refl eq_refl).
Qed.

Lemma secret_decodes b : bytes_ok b → decode_secret (b64 b) = inr b.
Proof.
  intros Hb. unfold decode_secret. apply b64_decodes; [done|]. rewrite b64_length by done.
  unfold base64_len. generalize ((length b + 2) / 3)%nat. intros n.
  rewrite (Nat.mul_comm 4 n), Nat.div_mul by lia.
  replace (n * 4 * 3)%nat with (3 * n * 4)%nat by lia. rewrite Nat.div_mul by lia. lia.
Qed.

Lemma sfts_decode (l : list string) :
  match match (if (0 <? length (ODICT_STRING <$> l))%nat
               then Some (ODICT_ARRAY (numbered (ODICT_STRING <$> l))) else None) with
        | Some dst => if negb (bool_decide (TYPE_ARRAY = entry_type dst)) then inl EPROTO else inr dst
        | None => inl ENOENT
        end with
  | inl _ => []
  | inr jarray => (jzon_apply (Some jarray) (λ _, string_decode_handler) []).2
  end = l.
Proof.
  destruct l as [|s l]; [done|]. cbn [length fmap list_fmap Nat.ltb Nat.leb entry_type].
  rewrite bool_decide_true by done. exact (strings_decode (s :: l)).
Qed.

Lemma confstart_decode_obj h m t c rest :
  confstart_fits h c →
  payload_fields h t rest = (confstart_fields c ++ [props_field h (cs_props c)])%list
  ∨ payload_fields h t rest = confstart_fields c →
  confstart_decode (with_payload h m t rest) = inr {| c with cs_props := None |}.
Proof.
  intros [Hp [url Eu] [Hne Hb] Ht Hs] Hf. unfold confstart_decode, econn_stringlist_decode, with_payload.
  destruct Hf as [-> | ->]; unfold confstart_fields; read.
  all: rewrite secret_decodes by done; cbn -[uwrap decimal Nat.ltb].
  all: rewrite !pl_set_str_Some, pl_u64_decimal, pl_u32_decimal, sfts_decode, opt_str by done.
  all: by rewrite Eu.
Qed.

Lemma arrives_confstart h h2 m c :
  confstart_fits h c →
  arrives h h2 (u_confstart c)
    (payload_decode h2 ECONN_CONF_START (with_payload h m ECONN_CONF_START (u_confstart c))).
Proof.
  intros Hc. unfold payload_decode, props_decode_opt, econn_props_decode.
  rewrite (confstart_decode_obj h m _ c) by auto. unfold with_payload, confstart_fields.
  pose proof (tf_props _ _ Hc) as Hp. cbn [mbind cres_bind].
  destruct c as [[p|] ? ? ? ? ? ?]; read; [destruct Hp as (d & Hd & _); cbn in Hd; rewrite Hd; read|].
  - exact (arrives_props h h2 p d (u_confstart {| cs_props := Some p |}) _ _ Hd eq_refl eq_refl).
  - by apply arrives_plain.
Qed.

Lemma arrives_confcheck h h2 m c :
  confstart_fits h c → cs_props c = None →
  arrives h h2 (u_confcheck c)
    (payload_decode h2 ECONN_CONF_CHECK (with_payload h m ECONN_CONF_CHECK (u_confcheck c))).
Proof.
  intros Hc Hp. unfold payload_decode. rewrite (confstart_decode_obj h m _ c) by auto.
  destruct c; cbn in Hp; subst. by apply arrives_plain.
Qed.

Lemma iceservers_ne_decode srvv :
  turnv_fits srvv →
  match match (if (0 <? length ((λ s, obj (srv_fields s)) <$> srvv))%nat
               then Some (ODICT_ARRAY (numbered ((λ s, obj (srv_fields s)) <$> srvv))) else None) with
        | Some dst => if negb (bool_decide (TYPE_ARRAY = entry_type dst)) then inl EPROTO else inr dst
        | None => inl ENOENT
        end with
  | inl _ => mret []
  | inr jturns => zapi_iceservers_decode jturns
  end = inr srvv.
Proof.
  intros Hs. destruct srvv as [|s l]; [done|].
  cbn [length fmap list_fmap Nat.ltb Nat.leb entry_type].
  rewrite bool_decide_true by done. exact (iceservers_decode_obj (s :: l) Hs).
Qed.

Lemma clamp_vstreams v :
  0 <= v <= 32 →
  (if 32 <? (if s32 v <? 0 then 0 else s32 v) then 32 else if s32 v <? 0 then 0 else s32 v) = v.
Proof.
  intros Hv. rewrite s32_small by lia.
  rewrite (proj2 (Z.ltb_ge v 0)), (proj2 (Z.ltb_ge 32 v)) by lia. done.
Qed.

Lemma arrives_confconn h h2 m c :
  confconn_fits c →
  arrives h h2 (u_confconn c)
    (payload_decode h2 ECONN_CONF_CONN (with_payload h m ECONN_CONF_CONN (u_confconn c))).
Proof.
  intros [Ht He [to Eto] [tv Etv] Hst Hv]. unfold payload_decode, confconn_decode, with_payload.
  read. unfold confconn_fields. read. rewrite iceservers_ne_decode by done.
  cbn -[s32 fmap]. rewrite !opt_str, !s32_idem, Hst, clamp_vstreams, s32_small by done.
  destruct c; cbn in Eto, Etv; subst. by apply arrives_plain.
Qed.

Lemma parts_decode ps :
  Forall part_fits ps →
  (apply_entries (λ _, part_decode_handler) (numbered ((λ p, obj (part_fields p)) <$> ps)) []).2
  = Some <$> ps.
Proof.
  apply apply_append. intros p acc Hp. unfold part_decode_handler. by rewrite part_decode_obj.
Qed.

Lemma arrives_confpart h h2 m c :
  confpart_fits c →
  arrives h h2 (u_confpart c)
    (payload_decode h2 ECONN_CONF_PART (with_payload h m ECONN_CONF_PART (u_confpart c))).
Proof.
  intros [Ht Hs (ps & Ep & Hps) He].
  unfold payload_decode, confpart_decode, econn_parts_decode, econn_stringlist_decode, with_payload.
  read. unfold confpart_fields. read. rewrite Ep, omap_some, parts_decode by done.
  rewrite !pl_set_str_Some, pl_u64_decimal, pl_u32_decimal, sfts_decode by done.
  destruct c as [? ? ? ? [e|] ?]; cbn in Ep, He |- *; subst.
  - rewrite secret_decodes by auto. by apply arrives_plain.
  - by apply arrives_plain.
Qed.

Lemma arrives_confkey h h2 m ks :
  Forall key_fits ks →
  arrives h h2 (u_confkey (Some <$> ks))
    (payload_decode h2 ECONN_CONF_KEY
       (with_payload h m ECONN_CONF_KEY (u_confkey (Some <$> ks)))).
Proof.
  intros Hk. unfold payload_decode, econn_keys_decode, with_payload. read.
  rewrite omap_some.
  rewrite (apply_append key_decode_handler _ Some key_fits) by auto using key_decode_obj.
  by apply arrives_plain.
Qed.

Lemma arrives_confstreams h h2 m sl mode :
  Forall stream_fits sl →
  arrives h h2 (u_confstreams sl (Some mode))
    (payload_decode h2 ECONN_CONF_STREAMS
       (with_payload h m ECONN_CONF_STREAMS (u_confstreams sl (Some mode)))).
Proof.
  intros Hs. unfold payload_decode, econn_streams_decode, with_payload. read.
  rewrite (apply_append stream_decode_handler _ id stream_fits) by auto using stream_decode_obj.
  rewrite list_fmap_id. by apply arrives_plain.
Qed.

Lemma arrives_publish h h2 m turnv sdp username :
  turnv_fits turnv →
  arrives h h2 (u_devpair_publish turnv (Some sdp) (Some username))
    (payload_decode h2 ECONN_DEVPAIR_PUBLISH
       (with_payload h m ECONN_DEVPAIR_PUBLISH
          (u_devpair_publish turnv (Some sdp) (Some username)))).
Proof.
  intros Ht. unfold payload_decode, devpair_publish_decode, with_payload. read.
  rewrite iceservers_decode_obj by done. read. by apply arrives_plain.
Qed.

Lemma payload_arrives h h2 m t u :
  payload_fits h t u →
  arrives h h2 (delivered_payload t u) (payload_decode h2 t (with_payload h m t u)).
Proof.
  intros Hf. destruct t, u; cbn in Hf; repeat case_match; try done; subst; cbn [delivered_payload].
  all: try by apply arrives_plain.
  all: try by (apply (arrives_setup h h2 m ECONN_SETUP); auto).
  all: try by (apply (arrives_setup h h2 m ECONN_GROUP_SETUP); auto).
  all: try by (apply (arrives_setup h h2 m ECONN_UPDATE); auto).
  - by apply arrives_propsync.
  - by apply arrives_groupstart.
  - by apply arrives_confconn.
  - by apply arrives_confstart.
  - by apply arrives_confpart.
  - destruct Hf as (ks & -> & Hk). by apply arrives_confkey.
  - by apply arrives_confcheck; apply Hf.
  - by apply arrives_confstreams.
  - unfold payload_decode, with_payload. read. rewrite u32_s32 by done. by apply arrives_plain.
  - apply arrives_publish, Hf.
  - unfold payload_decode, with_payload. read. by apply arrives_plain.
Qed.

(** The header is read; the other members decide. *)
Lemma decode_header h2 m rest curr_time mtime :
  header_ok m → NoDup (header_fields m ++ rest)%list.*1 → json_ok 3 (obj (header_fields m ++ rest)) →
  econn_message_decode h2 curr_time mtime
    (Some (json_encode_odict (present (header_fields m ++ rest))))
  = match payload_decode h2 (msg_type m) (obj (header_fields m ++ rest)) with
    | inl err => inl err
    | inr (u', h2') =>
      inr (Decoded {| m with transient := false; msg_time := u32 mtime;
             msg_age := u32 (if curr_time <? mtime then 0 else curr_time - mtime);
             msg_u := u' |} h2')
    end.
Proof.
  intros [] Hd Hj. unfold econn_message_decode. rewrite (decode_text 3) by (done || lia).
  pose proof (λ k, get_obj _ k Hd) as Hget. revert Hget.
  generalize (obj (header_fields m ++ rest)) as jobj.
  intros jobj Hget. unfold need_str, jzon_str, jzon_bool, jzon_typed.
  unfold mbind, cres_bind, mret, cres_ret. rewrite !Hget.
  cbn -[payload_decode uwrap decode_type econn_proto_version ECONN_ID_LEN].
  rewrite str_casecmp_refl, decode_type_name, bool_decide_true by done. cbn -[uwrap payload_decode].
  rewrite !ncpy0_id, str_ncpy_fits by done. done.
Qed.

(** A message that fits arrives. *)
Lemma message_arrives h h2 m curr_time mtime :
  message_ok h m →
  ∃ text p h2',
    econn_message_encode h m = Some (inr text)
    ∧ econn_message_decode h2 curr_time mtime (Some text)
      = inr (Decoded (delivered m curr_time mtime p) h2')
    ∧ h2 ⊆ h2'
    ∧ (p ≫= (h2' !!.)) = (payload_props (delivered_payload (msg_type m) (msg_u m)) ≫= (h !!.)).
Proof.
  intros Hm. destruct (payload_arrives h h2 m _ _ (mo_payload _ _ Hm)) as (p & h2' & E & Hs & Hp).
  destruct (adds_payload h _ _ (mo_payload _ _ Hm)) as (a & Ea & Ha).
  exists (json_encode_odict (present (message_fields h m))), p, h2'.
  split; [by eapply encode_text|]. split; [|done].
  unfold message_fields. unfold with_payload in E.
  rewrite decode_header; [by rewrite E|apply Hm|apply fields_nodup|].
  apply message_json_ok, payload_fields_ok, Hm.
Qed.

(** C19: A message that satisfies [message_ok] is encoded, and the text is decoded to the
    same message: header, payload and the contents of its properties arrive unchanged,
    in properties of the receiver's own; the time of arrival gives its age.  Only the
    URL and tuple of GROUP_SETUP and UPDATE messages are not transmitted
    ([delivered_payload]).  The conditions of [message_ok] are what the format can
    carry and the decoder asks for: identifiers and the strings of servers are
    shorter than their arrays, numbers have their C types (the timestamp of a
    participant is below 2^31, and at most 32 video streams are asked for), the
    payload is the one of the type, the strings that the decoder requires of this type
    are there (the SDP, the URL of an announcement, the tool and its version, the
    identifiers of participants, the mode, the user name, the description), and so
    are the properties of SETUP, GROUP_SETUP, UPDATE and PROPSYNC, while CONFCHECK has
    none; properties have distinct names and plain values; a secret is not empty, lists
    have no missing elements, and a DEVPAIR_PUBLISH has a server. *)
Theorem message_delivered h h2 m curr_time mtime :
  message_ok h m →
  ∃ text p h2',
    econn_message_encode h m = Some (inr text)
    ∧ econn_message_decode h2 curr_time mtime (Some text)
      = inr (Decoded (delivered m curr_time mtime p) h2')
    ∧ h2 ⊆ h2'
    ∧ (p ≫= (h2' !!.)) = (payload_props (delivered_payload (msg_type m) (msg_u m)) ≫= (h !!.)).
Proof. apply message_arrives. Qed.

(** ** Every decoded message *)

(** A property of the value of a call that may fail. *)
Definition cres_all {A} (P : A → Prop) (r : cres A) : Prop :=
  match r with inl _ => True | inr a => P a end.

Lemma cres_all_bind {A B} (m : cres A) (k : A → cres B) P Q :
  cres_all P m → (∀ a, P a → cres_all Q (k a)) → cres_all Q (m ≫= k).
Proof. destruct m; cbn; auto. Qed.

Lemma cres_all_True {A} (r : cres A) : cres_all (λ _, True) r.
Proof. by destruct r. Qed.

Lemma cres_all_skip {A B} (m : cres A) (k : A → cres B) Q :
  (∀ a, cres_all Q (k a)) → cres_all Q (m ≫= k).
Proof. destruct m; cbn; auto. Qed.

Lemma ncpy_typed s n : (0 < n)%nat → (String.length (str_ncpy s n) < n)%nat.
Proof. apply str_ncpy_bound. Qed.

Lemma ncpy0_typed s n : (0 < n)%nat → (String.length (ncpy0 s n) < n)%nat.
Proof. intros Hn. destruct s; cbn; [by apply str_ncpy_bound|done]. Qed.

Lemma jzon_int_typed o k : cres_all (λ i, - 2 ^ 31 <= i < 2 ^ 31) (jzon_int o k).
Proof.
  unfold jzon_int, jzon_typed. destruct o; [|done].
  destruct (json_object_object_get_ex _ _) as [v|]; [|done].
  case_bool_decide; [|done]. apply s32_range.
Qed.

Lemma jzon_u32_typed o k : cres_all (λ i, 0 <= i < 2 ^ 32) (jzon_u32 o k).
Proof.
  unfold jzon_u32, jzon_typed. destruct o; [|done].
  destruct (json_object_object_get_ex _ _) as [v|]; [|done].
  case_bool_decide; [|done]. by apply uwrap_range.
Qed.

Lemma or_keep_all {A} (P : A → Prop) r x : cres_all P r → P x → P (or_keep r x).
Proof. by destruct r. Qed.

(** Whatever a handler appends satisfies what each of its additions does. *)
Lemma apply_all {A} (ah : json_object → list A → bool * list A) (P : A → Prop) :
  (∀ v acc, ∃ xs, (ah v acc).2 = (acc ++ xs)%list ∧ Forall P xs) →
  ∀ o, Forall P (jzon_apply o (λ _, ah) []).2.
Proof.
  intros Hah o. unfold jzon_apply. destruct (jzon_odict o) as [l|]; [|constructor].
  assert (∀ acc, Forall P acc → Forall P (apply_entries (λ _, ah) l acc).2) as Hg; [|by apply Hg].
  induction l as [|[k v] l IH]; intros acc Hacc; cbn; [done|].
  destruct (Hah v acc) as (xs & E & Hx). assert (Forall P (ah v acc).2).
  { rewrite E. by apply Forall_app. }
  case_match; cbn; [done|by apply IH].
Qed.

Lemma iceserver_typed v : cres_all srv_fits (iceserver_decode v).
Proof.
  unfold iceserver_decode. cbv zeta. case_match; [|done]. cbn.
  split; [apply ncpy_typed; lia|]. split; apply ncpy0_typed; lia.
Qed.

Lemma iceservers_typed v : cres_all (Forall srv_fits) (zapi_iceservers_decode v).
Proof.
  unfold zapi_iceservers_decode. case_match; [done|]. generalize 0%nat as i.
  induction (Z.to_nat _) as [|n IH]; intros i; cbn; [constructor|].
  case_match; [|done]. eapply cres_all_bind; [apply iceserver_typed|]. intros s Hs.
  eapply cres_all_bind; [apply IH|]. intros ss Hss. by constructor.
Qed.

Lemma stream_typed v acc :
  ∃ xs, (stream_decode_handler v acc).2 = (acc ++ xs)%list ∧ Forall stream_fits xs.
Proof.
  assert (∃ xs, acc = (acc ++ xs)%list ∧ Forall stream_fits xs) as Hno
    by (exists []; by rewrite app_nil_r).
  unfold stream_decode_handler. pose proof (jzon_int_typed (Some v) "quality") as Hq.
  destruct (jzon_int _ _) as [e|q]; [done|]. destruct (jzon_str _ "userid"); [|done].
  eexists [_]. split; [done|]. constructor; [|constructor]. split;
    cbn [si_userid si_quality si_ssrcv_clientid si_ssrcv_hi si_ssrcv_lo econn_stream_info_alloc].
  - apply ncpy_typed. unfold ECONN_ID_LEN. lia.
  - by apply uwrap_range.
  - apply ncpy0_typed. unfold ECONN_ID_LEN. lia.
  - apply (or_keep_all (λ i, 0 <= i < 2 ^ 32)); [apply jzon_u32_typed|lia].
  - apply (or_keep_all (λ i, 0 <= i < 2 ^ 32)); [apply jzon_u32_typed|lia].
Qed.

(** A list of pointers that are not [NULL]. *)
Definition all_some {A} (P : A → Prop) (o : option A) : Prop :=
  match o with Some x => P x | None => False end.

Lemma all_some_list {A} (P : A → Prop) l :
  Forall (all_some P) l → ∃ xs, l = Some <$> xs ∧ Forall P xs.
Proof.
  induction 1 as [|[x|] l Hx Hl IH]; [by exists []| |done].
  destruct IH as (xs & -> & Hxs). exists (x :: xs). split; [done|by constructor].
Qed.

Lemma key_typed v acc :
  ∃ xs, (key_decode_handler v acc).2 = (acc ++ xs)%list ∧ Forall (all_some key_fits) xs.
Proof.
  assert (∃ xs, acc = (acc ++ xs)%list ∧ Forall (all_some key_fits) xs) as Hno
    by (exists []; by rewrite app_nil_r).
  unfold key_decode_handler. destruct (jzon_int _ _) as [e|i]; [done|].
  destruct (jzon_str _ _) as [d|]; [|done].
  destruct (base64_decode _ _) as [e|b] eqn:Eb; [done|].
  eexists [_]. split; [done|]. constructor; [|constructor]. split; cbn -[Z.pow uwrap].
  - by apply uwrap_range.
  - by eapply base64_decode_bytes.
Qed.

Lemma sscanf_typed s : 0 <= default 0 (sscanf_u s) < 2 ^ 32.
Proof.
  unfold sscanf_u. destruct (skip_space s) as [|[[] [] [] [] [] [] [] []] s'];
    destruct (scan_digits _); cbn -[Z.pow uwrap]; try lia; by apply uwrap_range.
Qed.

Lemma part_decode_typed v : cres_all part_typed (part_decode v).
Proof.
  unfold part_decode. do 3 (apply cres_all_skip; intros ?). cbv zeta.
  do 2 (case_match; [|done]). split; cbn [gp_ssrca gp_ssrcv gp_ts]; [apply sscanf_typed..|].
  destruct (jzon_int _ _); [lia|by apply uwrap_range].
Qed.

Lemma part_typed_step v acc :
  ∃ xs, (part_decode_handler v acc).2 = (acc ++ xs)%list ∧ Forall (all_some part_typed) xs.
Proof.
  unfold part_decode_handler. pose proof (part_decode_typed v) as Hp.
  destruct (part_decode v) as [e|p]; cbn; [exists []; by rewrite app_nil_r|].
  exists [Some p]. split; [done|]. constructor; [done|constructor].
Qed.

Lemma secret_typed s : cres_all bytes_ok (decode_secret s).
Proof.
  unfold decode_secret, cres_all. destruct (base64_decode _ _) eqn:E; [done|].
  by eapply base64_decode_bytes.
Qed.

Lemma confstart_decode_typed j : cres_all confstart_typed (confstart_decode j).
Proof.
  unfold confstart_decode. apply cres_all_skip. intros url. cbv zeta.
  apply cres_all_skip. intros s. eapply cres_all_bind; [apply secret_typed|].
  intros b Hb. split; cbn [cs_secret cs_timestamp cs_seqno]; [done|apply pl_u64_range|apply pl_u32_range].
Qed.

Lemma confconn_decode_typed j : cres_all confconn_typed (confconn_decode j).
Proof.
  unfold confconn_decode. cbv zeta. apply (cres_all_bind _ _ (Forall srv_fits)).
  { destruct (jzon_array _ _); [constructor|apply iceservers_typed]. }
  intros l Hl. split; cbn [cn_turnv cn_env cn_vstreams]; [done| |].
  - apply (or_keep_all (λ i, - 2 ^ 31 <= i < 2 ^ 31)); [apply jzon_int_typed|lia].
  - generalize (or_keep (jzon_int (Some j) "vstreams") 0). intros v.
    destruct (Z.ltb_spec v 0); [done|]. destruct (Z.ltb_spec 32 v); lia.
Qed.

Lemma confpart_decode_typed j : cres_all confpart_typed (confpart_decode j).
Proof.
  unfold confpart_decode. cbv zeta.
  apply (cres_all_bind _ _ (λ e, ∀ b, e = Some b → bytes_ok b)).
  { case_match; [|done]. eapply cres_all_bind; [apply secret_typed|]. by intros b Hb b' [= <-]. }
  intros e He. split; cbn [cp_timestamp cp_seqno cp_partl cp_entropy];
    [apply pl_u64_range|apply pl_u32_range| |done].
  apply all_some_list. unfold econn_parts_decode.
  destruct (jzon_array _ _) as [?|ps]; cbn; [constructor|].
  apply (apply_all part_decode_handler (all_some part_typed)), part_typed_step.
Qed.

Lemma props_decode_live h j :
  cres_all (λ r : econn_props_ref * props_heap, props_live r.2 (Some r.1)) (econn_props_decode h j).
Proof.
  unfold econn_props_decode. apply cres_all_skip. intros d r [= <-].
  eexists. apply lookup_insert_eq.
Qed.

Lemma props_decode_opt_live h j : props_live (props_decode_opt h j).2 (props_decode_opt h j).1.
Proof.
  unfold props_decode_opt. pose proof (props_decode_live h j) as Hl.
  destruct (econn_props_decode h j) as [?|[p h']]; done.
Qed.

Lemma keys_decode_typed j :
  cres_all (λ keyl, ∃ ks, keyl = Some <$> ks ∧ Forall key_fits ks) (econn_keys_decode j).
Proof.
  unfold econn_keys_decode. apply cres_all_skip. intros a. apply all_some_list.
  apply (apply_all key_decode_handler (all_some key_fits)), key_typed.
Qed.

Lemma streams_decode_typed j : cres_all (Forall stream_fits) (econn_streams_decode j).
Proof.
  unfold econn_streams_decode. apply cres_all_skip. intros a.
  apply (apply_all stream_decode_handler stream_fits), stream_typed.
Qed.

Lemma publish_decode_typed h j :
  cres_all (payload_typed h ECONN_DEVPAIR_PUBLISH) (devpair_publish_decode j).
Proof.
  unfold devpair_publish_decode. apply cres_all_skip. intros a.
  eapply cres_all_bind; [apply iceservers_typed|]. intros l Hl.
  do 2 (apply cres_all_skip; intros ?). exact Hl.
Qed.

Lemma payload_decode_typed h t j :
  cres_all (λ r : econn_payload * props_heap, payload_typed r.2 t r.1) (payload_decode h t j).
Proof.
  pose proof (props_decode_live h j) as Hp. pose proof (props_decode_opt_live h j) as Ho.
  destruct t; cbn [payload_decode]; cbv zeta; try done.
  - apply cres_all_skip. intros sdp. by eapply cres_all_bind; [exact Hp|]; intros [p h'] Hl.
  - by eapply cres_all_bind; [exact Hp|]; intros [p h'] Hl.
  - apply cres_all_skip. intros sdp. by eapply cres_all_bind; [exact Hp|]; intros [p h'] Hl.
  - by eapply cres_all_bind; [apply confconn_decode_typed|].
  - eapply cres_all_bind; [apply confstart_decode_typed|]. intros c [Hs Ht Hq]. split; [|done].
    by split.
  - by eapply cres_all_bind; [apply confpart_decode_typed|].
  - by eapply cres_all_bind; [apply keys_decode_typed|].
  - by eapply cres_all_bind; [apply confstart_decode_typed|].
  - eapply cres_all_bind; [apply streams_decode_typed|]. intros sl Hs. by apply cres_all_skip.
  - apply cres_all_skip. intros sdp. by eapply cres_all_bind; [exact Hp|]; intros [p h'] Hl.
  - eapply cres_all_bind; [apply jzon_u32_typed|]. intros l Hl. by apply cres_all_skip.
  - by eapply cres_all_bind; [apply (publish_decode_typed h)|].
  - by apply cres_all_skip.
Qed.

(** Decoding adds properties to the heap and changes none. *)
Lemma props_decode_grows h j :
  cres_all (λ r : econn_props_ref * props_heap, h ⊆ r.2) (econn_props_decode h j).
Proof.
  unfold econn_props_decode. apply cres_all_skip. intros d. cbn.
  apply insert_subseteq, not_elem_of_dom, is_fresh.
Qed.

Lemma payload_decode_grows h t j :
  cres_all (λ r : econn_payload * props_heap, h ⊆ r.2) (payload_decode h t j).
Proof.
  pose proof (props_decode_grows h j) as Hp.
  assert (h ⊆ (props_decode_opt h j).2) as Ho.
  { unfold props_decode_opt. by destruct (econn_props_decode h j) as [?|[p h']]. }
  destruct t; cbn [payload_decode]; cbv zeta; try done.
  all: repeat first [eapply cres_all_bind; [exact Hp|]; intros [p h'] Hl
                    |apply cres_all_skip; intros ?];
    first [exact Hl|exact Ho|change (h ⊆ h); reflexivity].
Qed.

(** What a decoded message is made of. *)
Lemma decode_inv h curr_time mtime text m h' :
  econn_message_decode h curr_time mtime text = inr (Decoded m h') →
  ∃ j type sessid,
    jzon_decode text = inr j ∧ jzon_str (Some j) "type" = Some type
    ∧ decode_type type = Some (msg_type m)
    ∧ jzon_bool (Some j) "resp" = inr (resp m)
    ∧ payload_decode h (msg_type m) j = inr (msg_u m, h')
    ∧ m = {| msg_type := msg_type m; sessid_sender := str_ncpy sessid ECONN_ID_LEN;
             src_userid := ncpy0 (jzon_str (Some j) "src_userid") ECONN_ID_LEN;
             src_clientid := ncpy0 (jzon_str (Some j) "src_clientid") ECONN_ID_LEN;
             dest_userid := ncpy0 (jzon_str (Some j) "dest_userid") ECONN_ID_LEN;
             dest_clientid := ncpy0 (jzon_str (Some j) "dest_clientid") ECONN_ID_LEN;
             resp := resp m; transient := false; msg_time := u32 mtime;
             msg_age := u32 (if curr_time <? mtime then 0 else curr_time - mtime);
             msg_u := msg_u m |}.
Proof.
  unfold econn_message_decode, mbind, cres_bind, mret, cres_ret, need_str.
  destruct (jzon_decode text) as [|j]; [done|].
  destruct (jzon_str (Some j) "type") as [type|] eqn:Et; [|done].
  destruct (jzon_str (Some j) "version") as [ver|]; [|done].
  destruct (negb _); [done|]. destruct (jzon_str (Some j) "sessid") as [sessid|]; [|done].
  destruct (jzon_bool _ _) as [|rsp] eqn:Er; [done|].
  destruct (decode_type type) as [t|] eqn:Ety; [|done].
  destruct (payload_decode h t j) as [|[u h0]] eqn:Eu; [done|]. intros [= <- <-].
  exists j, type, sessid. done.
Qed.

Lemma decoded_payload_typed h curr_time mtime text m h' :
  econn_message_decode h curr_time mtime text = inr (Decoded m h') →
  payload_typed h' (msg_type m) (msg_u m).
Proof.
  intros (j & _ & _ & _ & _ & _ & _ & Hu & _)%decode_inv.
  pose proof (payload_decode_typed h (msg_type m) j) as Ht. by rewrite Hu in Ht.
Qed.

(** C27: Whatever text arrives, a message that is decoded from it is well formed:
    its identifiers fit their arrays, its numbers are in the range of their C
    types (at most 32 video streams), keys and secrets are bytes, no element of
    a list is [NULL], the payload is the one of its type and its properties are
    live objects; its type is one of the known ones, and it is not transient. *)
Theorem decoded_message_typed h curr_time mtime text m h' :
  econn_message_decode h curr_time mtime text = inr (Decoded m h') →
  message_typed h' m ∧ transient m = false
  ∧ ∃ j name, jzon_decode text = inr j ∧ jzon_str (Some j) "type" = Some name
              ∧ LibReRef.lower name = LibReRef.lower (econn_msg_name (msg_type m)).
Proof.
  intros Hd. pose proof (decoded_payload_typed _ _ _ _ _ _ Hd) as Hu.
  apply decode_inv in Hd as (j & name & sessid & Ej & En & Et & _ & _ & Em).
  assert (0 < ECONN_ID_LEN)%nat by (unfold ECONN_ID_LEN; lia).
  split; [|split].
  - split; try exact Hu; rewrite Em;
      cbn [sessid_sender src_userid src_clientid dest_userid dest_clientid msg_time msg_age];
      first [by apply ncpy_typed|by apply ncpy0_typed|by apply uwrap_range].
  - by rewrite Em.
  - exists j, name. split; [done|]. split; [done|].
    apply find_some in Et as [_ Hc%Z.eqb_eq]. by apply str_casecmp_lower.
Qed.

(** The encoder takes a SETUP, GROUP_SETUP or UPDATE without properties (it calls
    them optional) and the decoder refuses the text it makes of it, with
    ENOENT, although it reports an UPDATE without properties as acceptable. *)
Theorem optional_props_undecodable h h2 m sdp url tup curr_time mtime :
  (msg_type m = ECONN_SETUP ∨ msg_type m = ECONN_GROUP_SETUP ∨ msg_type m = ECONN_UPDATE) →
  header_ok m → msg_u m = u_setup (Some sdp) None url tup →
  ∃ text, econn_message_encode h m = Some (inr text)
          ∧ econn_message_decode h2 curr_time mtime (Some text) = inl ENOENT.
Proof.
  intros Ht Hh Hu. set (a := jzon_add_str "sdp" (re_s (Some sdp)) >>? enc_ok >>?
    enc_opt url (λ u, jzon_add_str "url" (re_s (Some u))) >>?
    enc_opt tup (λ t, jzon_add_str "sft_tuple" (re_s (Some t)))).
  exists (json_encode_odict (present (message_fields h m))). split.
  - apply (encode_text h m a); rewrite Hu; destruct Ht as [->|[->| ->]]; try done.
    all: apply (adds_then _ _ [_] [_; _; _]); [by apply (adds_some "sdp" (Some sdp))|].
    all: apply (adds_then _ _ [_] [_; _]); [apply adds_none, adds_ok|].
    all: apply (adds_then _ _ [_] [_]); apply adds_optstr.
  - unfold message_fields. rewrite decode_header; [|done|apply fields_nodup|].
    + rewrite Hu. destruct Ht as [->|[->| ->]]; unfold payload_decode, econn_props_decode.
      all: by read.
    + apply message_json_ok. rewrite Hu.
      destruct Ht as [->|[->| ->]]; repeat (apply Forall_cons; split); try apply Forall_nil_2.
      all: first [apply str_field_ok|apply opt_field_ok|by apply props_field_ok].
Qed.

(** ** Properties ([props.c]) *)

Definition is_string (v : json_object) : Prop := ∃ s, v = ODICT_STRING s.

(** A live object whose keys are distinct and whose values are strings. *)
Definition props_ok (h : props_heap) (p : econn_props_ref) : Prop :=
  ∃ d, h !! p = Some d ∧ NoDup d.*1 ∧ Forall (λ e, is_string e.2) d.

Lemma lookup_nodup d k : NoDup d.*1 → odict_lookup d k = LibReJsonRef.lookup_first d k.
Proof.
  intros Hd. destruct (decide (k ∈ d.*1)) as [Hk|Hk].
  - apply list_elem_of_fmap in Hk as ([k' v] & -> & Hin). cbn.
    by rewrite (odict_lookup_in d k' v), (LibReJsonRef.lookup_first_in d k' v).
  - by rewrite odict_lookup_out, LibReJsonRef.lookup_first_out.
Qed.

Lemma set_entry_keys d k v : (set_entry d k v).*1 = d.*1.
Proof.
  induction d as [|[k' w] d IH]; cbn; [done|]. destruct (String.eqb k' k); cbn; [done|by f_equal].
Qed.

Lemma set_entry_strings d k s :
  Forall (λ e, is_string e.2) d → Forall (λ e, is_string e.2) (set_entry d k (ODICT_STRING s)).
Proof.
  induction 1 as [|[k' w] d Hw Hd IH]; cbn; [constructor|].
  destruct (String.eqb k' k); constructor; try done. by exists s.
Qed.

Lemma set_entry_lookup d k v k' :
  LibReJsonRef.lookup_first (set_entry d k v) k'
  = if bool_decide (k' = k) then (λ _, v) <$> LibReJsonRef.lookup_first d k
    else LibReJsonRef.lookup_first d k'.
Proof.
  induction d as [|[k0 w] d IH]; cbn; [by case_bool_decide|].
  destruct (String.eqb_spec k0 k) as [->|Hne]; cbn.
  - repeat case_bool_decide; subst; done.
  - rewrite IH. repeat case_bool_decide; subst; done.
Qed.

Lemma snoc_lookup d k v k' :
  k ∉ d.*1 →
  LibReJsonRef.lookup_first (d ++ [(k, v)]) k'
  = if bool_decide (k' = k) then Some v else LibReJsonRef.lookup_first d k'.
Proof.
  induction d as [|[k0 w] d IH]; cbn; intros Hk.
  - repeat case_bool_decide; subst; done.
  - apply not_elem_of_cons in Hk as [Hk0 Hk]. rewrite IH by done.
    repeat case_bool_decide; subst; done.
Qed.

(** An update succeeds, whether the key is there or not. *)
Lemma props_update_spec h p key val :
  props_ok h p →
  ∃ d d', h !! p = Some d ∧ NoDup d.*1
          ∧ econn_props_update h p key (Some val) = Some (0, <[p := d']> h)
          ∧ NoDup d'.*1 ∧ Forall (λ e, is_string e.2) d'
          ∧ ∀ k, LibReJsonRef.lookup_first d' k
                 = if bool_decide (k = key) then Some (ODICT_STRING val)
                   else LibReJsonRef.lookup_first d k.
Proof.
  intros (d & Hd & Hn & Hs). unfold econn_props_update. rewrite Hd. cbn.
  destruct (odict_lookup d key) as [v|] eqn:E; rewrite lookup_nodup in E by done.
  - assert (is_string v) as [s ->].
    { clear -E Hs. induction Hs as [|[k' w] d Hw Hd IH]; cbn in *; [done|].
      case_bool_decide; [by injection E as <-|by apply IH]. }
    exists d, (set_entry d key (ODICT_STRING val)). rewrite set_entry_keys.
    split; [done|]. split; [done|]. split; [done|]. split; [done|].
    split; [by apply set_entry_strings|]. intros k. rewrite set_entry_lookup. by rewrite E.
  - assert (key ∉ d.*1) as Hk.
    { intros ([k v] & -> & Hin)%list_elem_of_fmap.
      cbn in E. by rewrite (LibReJsonRef.lookup_first_in d k v) in E. }
    exists d, (d ++ [(key, ODICT_STRING val)])%list. rewrite Hd. cbn.
    rewrite odict_entry_add_fresh by done. split; [done|]. split; [done|]. split; [done|].
    split; [|split].
    + rewrite fmap_app. apply NoDup_app. split; [done|]. split; [|apply NoDup_singleton].
      by intros k Hin ->%list_elem_of_singleton.
    + apply Forall_app. split; [done|]. constructor; [by exists val|constructor].
    + intros k. by apply snoc_lookup.
Qed.

Lemma props_get_spec h p d key :
  h !! p = Some d → NoDup d.*1 → key ≠ "" →
  econn_props_get h (Some p) (Some key)
  = match LibReJsonRef.lookup_first d key with
    | None => Some None
    | Some (ODICT_STRING s) => Some (Some s)
    | Some _ => None
    end.
Proof.
  intros Hd Hn Hk. unfold econn_props_get. rewrite str_isset_Some, bool_decide_true by done.
  cbn. rewrite Hd. cbn. by rewrite lookup_nodup.
Qed.

(** Reading a property after an update gives the new value; the others, and
    other objects, are unchanged, and the object stays a dictionary of strings. *)
Theorem props_update_get h p key val :
  props_ok h p → key ≠ "" →
  ∃ h', econn_props_update h p key (Some val) = Some (0, h')
        ∧ props_ok h' p
        ∧ econn_props_get h' (Some p) (Some key) = Some (Some val)
        ∧ (∀ k, k ≠ key → econn_props_get h' (Some p) (Some k) = econn_props_get h (Some p) (Some k))
        ∧ ∀ q, q ≠ p → h' !! q = h !! q.
Proof.
  intros Hp Hk. destruct (props_update_spec h p key val Hp) as (d & d' & Hd & Hn & E & Hn' & Hs' & Hl).
  exists (<[p := d']> h). pose proof (lookup_insert_eq h p d') as Hd'.
  split; [done|]. split; [by exists d'|]. split.
  { rewrite (props_get_spec _ _ d') by done. by rewrite Hl, bool_decide_true. }
  split; [|intros q Hq; by apply lookup_insert_ne].
  intros k Hne. destruct (decide (k = "")) as [->|Hke].
  { unfold econn_props_get. by rewrite str_isset_Some, bool_decide_false by (intros []; done). }
  rewrite (props_get_spec _ _ d'), (props_get_spec h _ d) by done.
  by rewrite Hl, bool_decide_false.
Qed.

End Decode.
