(* ===== verification/Econn.v ===== *)
(** * The encrypted connection object ([src/econn/econn.c], [econn.h],
    [state.c])

    One [struct econn] is the local client's end of a call with one remote
    user and client.  Every function of [econn.c] that reads or changes the
    object is a computation over the record [econn]; what it hands to the
    transport and to the application is the list of events, in order.

    - The application's callbacks are invoked last by every function, as the
      code demands ("calling the callback handlers MUST be done last"), so a
      callback that calls back into the object is the next call of a sequence
      of calls.
    - [tx] is the outcome of the transport's [sendh] for the call at hand:
      [0] or an error code, possibly depending on the message.  [sendh] does
      not call back into the object.
    - A handler that is not set is a [NULL] pointer; the flag says which are
      set.
    - The object is passed by value, so the guards for a [NULL] object have no
      counterpart. *)

From S2P Require Import Prelude LibRe EconnMsg.

(** [struct econn_conf] *)
Record econn_conf := { timeout_setup : Z; timeout_term : Z }.

Definition default_conf : econn_conf :=
  {| timeout_setup := 60000; timeout_term := 5000 |}.

(** The functions [tmr_local] can be armed with. *)
Inductive tmr_h := TMR_LOCAL | TMR_TERM | TMR_CANCEL.

(** A [struct tmr]: not running, or the delay and the function it was started
    with. *)
Definition tmr := option (Z * tmr_h).

(** [struct econn_transp]: is [sendh] set? *)
Record econn_transp := { sendh : bool }.

(** [struct econn] *)
Record econn := {
  ec_conf : econn_conf;
  ec_tmr_local : tmr;
  ec_transp : option econn_transp;
  ec_state : econn_state;
  ec_dir : econn_dir;
  ec_userid_self : string;
  ec_clientid : string;
  ec_sessid_local : string;
  ec_sessid_remote : string;
  ec_userid_remote : string;
  ec_clientid_remote : string;
  ec_setup_err : Z;
  ec_conflict : Z;
  ec_connh : bool;
  ec_answerh : bool;
  ec_update_reqh : bool;
  ec_update_resph : bool;
  ec_alerth : bool;
  ec_confmsgh : bool;
  ec_pingh : bool;
  ec_closeh : bool;
  ec_err : Z;
}.

(** What leaves the object: messages for the transport and callbacks. *)
Inductive econn_event :=
| EvSend (m : econn_message)
| EvConn (time : Z) (userid_sender clientid_sender : string) (age : Z)
    (sdp : option string) (props : option econn_props_ref) (reset : bool)
| EvAnswer (reset : bool) (sdp : option string) (props : option econn_props_ref)
| EvUpdateReq (userid_sender clientid_sender : string) (sdp : option string)
    (props : option econn_props_ref) (should_reset : bool)
| EvUpdateResp (sdp : option string) (props : option econn_props_ref)
| EvAlert (level : Z) (descr : option string)
| EvConfmsg (m : econn_message)
| EvPing (response : bool)
| EvClose (err : Z) (time : Z).

Abbreviation ECM := (M econn econn_event).

(** [econn_set_state] of [state.c] *)
Definition econn_set_state (st : econn_state) : ECM () :=
  modify (λ c, if bool_decide (ec_state c = st) then c else {| c with ec_state := st |}).

Definition tmr_start (delay : Z) (h : tmr_h) : ECM () :=
  modify (λ c, {| c with ec_tmr_local := Some (delay, h) |}).
Definition tmr_cancel : ECM () :=
  modify (λ c, {| c with ec_tmr_local := None |}).

Section Ops.
Context `{LibRe}.
Variable tx : econn_message → Z.

(** [econn_transp_send] *)
Definition econn_transp_send (msg : econn_message) : ECM Z :=
  c ← get;
  match ec_transp c with
  | Some t => if sendh t then emit (EvSend msg);; mret (tx msg) else mret ENOTSUP
  | None => mret ENOTSUP
  end.

(** [econn_send_setup] *)
Definition econn_send_setup (rsp : bool) (sdp : option string)
    (props : option econn_props_ref) (update : bool) : ECM Z :=
  c ← get;
  let mtype := if update then ECONN_UPDATE else ECONN_SETUP in
  let msg := econn_message_init mtype (ec_sessid_local c) in
  let msg := {| msg with msg_u := u_setup sdp props None None; resp := rsp |} in
  err ← econn_transp_send msg;
  (when (negb (err =? 0))
     (modify (λ c, {| c with ec_setup_err := err |});;
      econn_set_state ECONN_TERMINATING));;
  mret err.

(** [send_cancel] *)
Definition send_cancel : ECM Z :=
  c ← get;
  econn_transp_send (econn_message_init ECONN_CANCEL (ec_sessid_local c)).

(** [send_hangup] *)
Definition send_hangup (rsp : bool) : ECM Z :=
  c ← get;
  let msg := econn_message_init ECONN_HANGUP (ec_sessid_local c) in
  econn_transp_send {| msg with resp := rsp |}.

(** [econn_close] *)
Definition econn_close (err time : Z) : ECM () :=
  tmr_cancel;;
  modify (λ c, {| c with ec_setup_err := err |});;
  c ← get;
  (when (bool_decide (ec_state c = ECONN_PENDING_OUTGOING))
     (_ ← send_cancel; mret ()));;
  modify (λ c, {| c with ec_state := ECONN_TERMINATING |});;
  when (ec_closeh c)
    (modify (λ c, {| c with ec_closeh := false |});;
     emit (EvClose err time)).

(** [handle_setup_request] *)
Definition handle_setup_request (userid_sender clientid_sender : string)
    (msg : econn_message) : ECM () :=
  c ← get;
  let incoming (reset : bool) : ECM () :=
    econn_set_state ECONN_PENDING_INCOMING;;
    modify (λ c, {| c with ec_dir := ECONN_DIR_INCOMING;
                           ec_sessid_remote :=
                             str_ncpy (sessid_sender msg) ECONN_ID_LEN |});;
    tmr_start (timeout_setup (ec_conf c)) TMR_LOCAL;;
    when (ec_connh c)
      (emit (EvConn (msg_time msg) userid_sender clientid_sender (msg_age msg)
               (setup_sdp_msg msg) (setup_props msg) reset)) in
  match ec_state c with
  | ECONN_IDLE => incoming false
  | ECONN_ANSWERED | ECONN_DATACHAN_ESTABLISHED | ECONN_UPDATE_SENT => incoming true
  | ECONN_PENDING_OUTGOING =>
    let is_winner := econn_iswinner (ec_userid_self c) (ec_clientid c)
                       userid_sender clientid_sender in
    modify (λ c, {| c with ec_sessid_remote :=
                             str_ncpy (sessid_sender msg) ECONN_ID_LEN |});;
    if is_winner then modify (λ c, {| c with ec_conflict := 1 |})
    else
      modify (λ c, {| c with ec_conflict := -1 |});;
      econn_set_state ECONN_CONFLICT_RESOLUTION;;
      when (ec_answerh c)
        (emit (EvAnswer true (setup_sdp_msg msg) (setup_props msg)))
  | _ => mret ()
  end.

(** [handle_setup_response] *)
Definition handle_setup_response (userid_sender clientid_sender : string)
    (msg : econn_message) : ECM () :=
  c ← get;
  match ec_state c with
  | ECONN_PENDING_OUTGOING | ECONN_CONFLICT_RESOLUTION =>
    tmr_cancel;;
    econn_set_state ECONN_ANSWERED;;
    modify (λ c, {| c with ec_sessid_remote :=
                             str_ncpy (sessid_sender msg) ECONN_ID_LEN |});;
    when (ec_answerh c)
      (emit (EvAnswer false (setup_sdp_msg msg) (setup_props msg)))
  | _ => mret ()
  end.

(** [recv_setup] *)
Definition recv_setup (userid_sender clientid_sender : string)
    (msg : econn_message) : ECM () :=
  c ← get;
  if str_isset (Some (ec_userid_remote c))
     && negb (str_casecmp (Some (ec_userid_remote c)) (Some userid_sender) =? 0)
  then mret ()
  else
    (when (negb (str_isset (Some (ec_userid_remote c))))
       (modify (λ c, {| c with ec_userid_remote :=
                                 str_ncpy userid_sender ECONN_ID_LEN |})));;
    if str_isset (Some (ec_clientid_remote c))
       && negb (str_casecmp (Some (ec_clientid_remote c)) (Some clientid_sender) =? 0)
    then mret ()
    else
      (when (negb (str_isset (Some (ec_clientid_remote c))))
         (modify (λ c, {| c with ec_clientid_remote :=
                                   str_ncpy clientid_sender ECONN_ID_LEN |})));;
      if econn_message_isrequest msg
      then handle_setup_request userid_sender clientid_sender msg
      else handle_setup_response userid_sender clientid_sender msg.

(** [handle_update_request] *)
Definition handle_update_request (userid_sender clientid_sender : string)
    (msg : econn_message) : ECM () :=
  c ← get;
  let accept (should_reset : bool) : ECM () :=
    econn_set_state ECONN_UPDATE_RECV;;
    tmr_start (timeout_setup (ec_conf c)) TMR_LOCAL;;
    when (ec_update_reqh c)
      (emit (EvUpdateReq userid_sender clientid_sender
               (setup_sdp_msg msg) (setup_props msg) should_reset)) in
  if negb (str_casecmp (Some (ec_clientid_remote c)) (Some clientid_sender) =? 0)
  then mret ()
  else
    match ec_state c with
    | ECONN_ANSWERED | ECONN_DATACHAN_ESTABLISHED => accept false
    | ECONN_UPDATE_SENT =>
      if econn_iswinner (ec_userid_self c) (ec_clientid c)
           userid_sender clientid_sender
      then mret ()
      else accept true
    | _ => mret ()
    end.

(** [handle_update_response] *)
Definition handle_update_response (userid_sender clientid_sender : string)
    (msg : econn_message) : ECM () :=
  c ← get;
  if negb (str_casecmp (Some (ec_clientid_remote c)) (Some clientid_sender) =? 0)
  then mret ()
  else if negb (bool_decide (ec_state c = ECONN_UPDATE_SENT)) then mret ()
  else
    tmr_cancel;;
    econn_set_state ECONN_ANSWERED;;
    when (ec_update_resph c)
      (emit (EvUpdateResp (setup_sdp_msg msg) (setup_props msg))).

(** [recv_update] *)
Definition recv_update (userid_sender clientid_sender : string)
    (msg : econn_message) : ECM () :=
  c ← get;
  if negb (str_casecmp (Some (ec_sessid_remote c)) (Some (sessid_sender msg)) =? 0)
  then mret ()
  else if econn_message_isrequest msg
  then handle_update_request userid_sender clientid_sender msg
  else handle_update_response userid_sender clientid_sender msg.

(** [recv_cancel] *)
Definition recv_cancel (clientid_sender : string) (msg : econn_message) : ECM () :=
  c ← get;
  let cancel (err : Z) : ECM () :=
    if negb (str_casecmp (Some (ec_sessid_remote c)) (Some (sessid_sender msg)) =? 0)
    then mret ()
    else
      econn_set_state ECONN_TERMINATING;;
      econn_close (if ec_err c =? 0 then err else ec_err c) (msg_time msg) in
  if negb (str_casecmp (Some clientid_sender) (Some (ec_clientid_remote c)) =? 0)
  then mret ()
  else
    match ec_state c with
    | ECONN_PENDING_INCOMING => cancel ECANCELED
    | ECONN_UPDATE_SENT | ECONN_UPDATE_RECV | ECONN_ANSWERED
    | ECONN_DATACHAN_ESTABLISHED => cancel 0
    | _ => mret ()
    end.

(** [recv_hangup] *)
Definition recv_hangup (msg : econn_message) : ECM () :=
  c ← get;
  if negb (str_casecmp (Some (ec_sessid_remote c)) (Some (sessid_sender msg)) =? 0)
  then mret ()
  else
    match ec_state c with
    | ECONN_DATACHAN_ESTABLISHED | ECONN_HANGUP_SENT =>
      econn_set_state ECONN_HANGUP_RECV;;
      (when (econn_message_isrequest msg) (_ ← send_hangup true; mret ()));;
      econn_set_state ECONN_TERMINATING;;
      econn_close (ec_err c) (msg_time msg)
    | _ => mret ()
    end.

(** [recv_alert], [recv_confmsg] and [recv_ping] *)
Definition recv_alert (msg : econn_message) : ECM () :=
  c ← get;
  when (ec_alerth c) (emit (EvAlert (alert_level msg) (alert_descr msg))).
Definition recv_confmsg (msg : econn_message) : ECM () :=
  c ← get; when (ec_confmsgh c) (emit (EvConfmsg msg)).
Definition recv_ping (msg : econn_message) : ECM () :=
  c ← get; when (ec_pingh c) (emit (EvPing (resp msg))).

(** [econn_recv_message] *)
Definition econn_recv_message (userid_sender clientid_sender : string)
    (msg : econn_message) : ECM () :=
  match msg_type msg with
  | ECONN_SETUP => recv_setup userid_sender clientid_sender msg
  | ECONN_UPDATE => recv_update userid_sender clientid_sender msg
  | ECONN_CANCEL => recv_cancel clientid_sender msg
  | ECONN_HANGUP => recv_hangup msg
  | ECONN_REJECT => mret ()
  | ECONN_DEVPAIR_PUBLISH => mret ()
  | ECONN_DEVPAIR_ACCEPT => mret ()
  | ECONN_ALERT => recv_alert msg
  | ECONN_CONF_CONN | ECONN_CONF_PART | ECONN_CONF_STREAMS => recv_confmsg msg
  | ECONN_PING => recv_ping msg
  | _ => mret ()
  end.

(** [tmr_local_handler], [tmr_term_handler] and [tmr_cancel_handler] *)
Definition tmr_local_handler : ECM () :=
  c ← get;
  econn_close (if ec_err c =? 0 then ETIMEDOUT_ECONN else ec_err c)
    ECONN_MESSAGE_TIME_UNKNOWN.
Definition tmr_term_handler : ECM () :=
  c ← get; econn_close (ec_err c) ECONN_MESSAGE_TIME_UNKNOWN.
Definition tmr_cancel_handler : ECM () :=
  c ← get; econn_close (ec_err c) ECONN_MESSAGE_TIME_UNKNOWN.

(** The timer expires: it is stopped, then its handler runs. *)
Definition tmr_expire : ECM () :=
  c ← get;
  match ec_tmr_local c with
  | None => mret ()
  | Some (_, h) =>
    tmr_cancel;;
    match h with
    | TMR_LOCAL => tmr_local_handler
    | TMR_TERM => tmr_term_handler
    | TMR_CANCEL => tmr_cancel_handler
    end
  end.

(** [econn_start] *)
Definition econn_start (sdp : option string) (props : option econn_props_ref) : ECM Z :=
  c ← get;
  match ec_state c with
  | ECONN_IDLE | ECONN_PENDING_OUTGOING =>
    econn_set_state ECONN_PENDING_OUTGOING;;
    modify (λ c, {| c with ec_dir := ECONN_DIR_OUTGOING |});;
    err ← econn_send_setup false sdp props false;
    if negb (err =? 0) then mret err
    else if timeout_setup (ec_conf c) =? 0 then mret EPROTO
    else tmr_start (timeout_setup (ec_conf c)) TMR_LOCAL;; mret err
  | _ => mret EPROTO
  end.

(** [econn_update_req] *)
Definition econn_update_req (sdp : option string) (props : option econn_props_ref) : ECM Z :=
  c ← get;
  let tmo := timeout_setup (ec_conf c) in
  match ec_state c with
  | ECONN_ANSWERED | ECONN_DATACHAN_ESTABLISHED | ECONN_UPDATE_SENT
  | ECONN_UPDATE_RECV =>
    econn_set_state ECONN_UPDATE_SENT;;
    err ← econn_send_setup false sdp props true;
    if negb (err =? 0) then tmr_start 1 TMR_LOCAL;; mret err
    else if tmo =? 0 then mret EPROTO
    else tmr_start tmo TMR_LOCAL;; mret err
  | _ => mret EPROTO
  end.

(** [econn_update_resp] *)
Definition econn_update_resp (sdp : option string) (props : option econn_props_ref) : ECM Z :=
  c ← get;
  if negb (bool_decide (ec_state c = ECONN_UPDATE_RECV)) then mret EPROTO
  else
    tmr_cancel;;
    err ← econn_send_setup true sdp props true;
    if negb (err =? 0) then mret err
    else econn_set_state ECONN_ANSWERED;; mret 0.

(** [econn_answer] *)
Definition econn_answer (sdp : option string) (props : option econn_props_ref) : ECM Z :=
  c ← get;
  match ec_state c with
  | ECONN_PENDING_INCOMING | ECONN_CONFLICT_RESOLUTION =>
    tmr_cancel;;
    err ← econn_send_setup true sdp props false;
    if negb (err =? 0) then mret err
    else econn_set_state ECONN_ANSWERED;; mret 0
  | _ => mret EPROTO
  end.

(** [econn_end] *)
Definition econn_end : ECM () :=
  c ← get;
  match ec_state c with
  | ECONN_UPDATE_RECV | ECONN_PENDING_INCOMING =>
    econn_set_state ECONN_TERMINATING;;
    tmr_start 1 TMR_CANCEL
  | ECONN_UPDATE_SENT | ECONN_PENDING_OUTGOING | ECONN_ANSWERED
  | ECONN_CONFLICT_RESOLUTION =>
    _ ← send_cancel;
    econn_set_state ECONN_TERMINATING;;
    tmr_start 1 TMR_CANCEL
  | ECONN_DATACHAN_ESTABLISHED =>
    err ← send_hangup false;
    if negb (err =? 0)
    then modify (λ c, {| c with ec_err := err |});; tmr_start 1 TMR_TERM
    else
      econn_set_state ECONN_HANGUP_SENT;;
      tmr_start (timeout_term (ec_conf c)) TMR_TERM
  | ECONN_TERMINATING | ECONN_IDLE => mret ()
  | _ =>
    econn_set_state ECONN_TERMINATING;;
    tmr_start (timeout_term (ec_conf c)) TMR_TERM
  end.

(** [econn_can_send_propsync] *)
Definition econn_can_send_propsync (c : econn) : bool :=
  bool_decide (ec_state c = ECONN_DATACHAN_ESTABLISHED).

(** [econn_send_propsync]; [props] is not [NULL]. *)
Definition econn_send_propsync (rsp : bool) (props : econn_props_ref) : ECM Z :=
  c ← get;
  if negb (bool_decide (ec_state c = ECONN_DATACHAN_ESTABLISHED)) then mret EPROTO
  else
    let msg := econn_message_init ECONN_PROPSYNC (ec_sessid_local c) in
    econn_transp_send
      {| msg with src_userid := str_ncpy (ec_userid_self c) ECONN_ID_LEN;
                  src_clientid := str_ncpy (ec_clientid c) ECONN_ID_LEN;
                  resp := rsp;
                  msg_u := u_propsync (Some props) |}.

(** [econn_set_datachan_established] *)
Definition econn_set_datachan_established : ECM () :=
  c ← get;
  if bool_decide (ec_state c = ECONN_ANSWERED)
  then econn_set_state ECONN_DATACHAN_ESTABLISHED
  else mret ().

(** [econn_set_error] *)
Definition econn_set_error (err : Z) : ECM () :=
  modify (λ c, {| c with ec_err := err |}).

(** [econn_send_alert]; [dup_ok] tells whether [str_dup] found memory. *)
Definition econn_send_alert (dup_ok : bool) (level : Z) (descr : string) : ECM Z :=
  c ← get;
  let msg := econn_message_init ECONN_ALERT (ec_sessid_local c) in
  if dup_ok
  then econn_transp_send
         {| msg with transient := true; msg_u := u_alert level (Some descr) |}
  else mret ENOMEM.

(** [econn_send_ping] *)
Definition econn_send_ping (response : bool) : ECM Z :=
  c ← get;
  let msg := econn_message_init ECONN_PING (ec_sessid_local c) in
  econn_transp_send {| msg with resp := response |}.

End Ops.

(** [econn_alloc].  [zalloc_ok] and [dup_ok] tell whether the allocations
    succeed, [rand] is what [rand_str(conn->sessid_local, 5)] leaves in the
    array. *)
Definition econn_alloc `{LibRe} (zalloc_ok dup_ok : bool) (rand : string)
    (conf : option econn_conf) (userid_self clientid : string)
    (sessid : option string) (transp : option econn_transp)
    (connh answerh update_reqh update_resph alerth confmsgh pingh closeh : bool)
    : Z + econn :=
  if negb (str_isset (Some userid_self)) || negb (str_isset (Some clientid))
  then inl EINVAL
  else if negb zalloc_ok then inl ENOMEM
  else if negb dup_ok then inl ENOMEM
  else
    let cf := match conf with Some cf => cf | None => default_conf end in
    inr {|
      ec_conf := cf;
      ec_tmr_local := Some (timeout_setup cf, TMR_LOCAL);
      ec_transp := transp;
      ec_state := ECONN_IDLE;
      ec_dir := ECONN_DIR_UNKNOWN;
      ec_userid_self := userid_self;
      ec_clientid := clientid;
      ec_sessid_local :=
        match sessid with Some s => str_ncpy s ECONN_ID_LEN | None => rand end;
      ec_sessid_remote := ""; ec_userid_remote := ""; ec_clientid_remote := "";
      ec_setup_err := 0; ec_conflict := 0;
      ec_connh := connh; ec_answerh := answerh;
      ec_update_reqh := update_reqh; ec_update_resph := update_resph;
      ec_alerth := alerth; ec_confmsgh := confmsgh;
      ec_pingh := pingh; ec_closeh := closeh;
      ec_err := 0;
    |}.
