(* ===== verification/EconnSpec.v ===== *)
(** * What one connection guarantees

    The calls that can be made on a connection, sequences of them, the
    abstract state machine of the calling protocol, and the theorems about
    every reachable state. *)

From S2P Require Import Prelude LibRe EconnMsg Econn.

(** ** Calls and runs *)

(** Everything that can happen to a connection: the API of [avs_econn.h], a
    message from the remote side, the timer. *)
Inductive econn_call :=
| CallRecv (userid_sender clientid_sender : string) (m : econn_message)
| CallTimer
| CallStart (sdp : option string) (props : option econn_props_ref)
| CallAnswer (sdp : option string) (props : option econn_props_ref)
| CallUpdateReq (sdp : option string) (props : option econn_props_ref)
| CallUpdateResp (sdp : option string) (props : option econn_props_ref)
| CallEnd
| CallClose (err time : Z)
| CallDatachan
| CallSetError (err : Z)
| CallPropsync (rsp : bool) (props : econn_props_ref)
| CallAlert (dup_ok : bool) (level : Z) (descr : string)
| CallPing (response : bool).

Section Spec.
Context `{LibRe}.

Definition ignore {A} (m : ECM A) : ECM () := _ ← m; mret ().

Definition do_call (tx : econn_message → Z) (call : econn_call) : ECM () :=
  match call with
  | CallRecv u c m => econn_recv_message tx u c m
  | CallTimer => tmr_expire tx
  | CallStart sdp props => ignore (econn_start tx sdp props)
  | CallAnswer sdp props => ignore (econn_answer tx sdp props)
  | CallUpdateReq sdp props => ignore (econn_update_req tx sdp props)
  | CallUpdateResp sdp props => ignore (econn_update_resp tx sdp props)
  | CallEnd => econn_end tx
  | CallClose err time => econn_close tx err time
  | CallDatachan => econn_set_datachan_established
  | CallSetError err => econn_set_error err
  | CallPropsync rsp props => ignore (econn_send_propsync tx rsp props)
  | CallAlert ok level descr => ignore (econn_send_alert tx ok level descr)
  | CallPing response => ignore (econn_send_ping tx response)
  end.

(** A run: calls in sequence, each with its own transport outcome, and the
    events they produce. *)
Inductive econn_run : econn → list econn_call → list econn_event → econn → Prop :=
| run_nil c : econn_run c [] [] c
| run_cons c call calls c1 e1 e2 c2 tx :
    do_call tx call c = ((), c1, e1) → econn_run c1 calls e2 c2 →
    econn_run c (call :: calls) (e1 ++ e2) c2.

(** The run of a given sequence of calls, one transport outcome for all. *)
Fixpoint exec (tx : econn_message → Z) (calls : list econn_call) (c : econn)
    : econn * list econn_event :=
  match calls with
  | [] => (c, [])
  | call :: calls =>
    match do_call tx call c with
    | (_, c1, e1) => match exec tx calls c1 with (c2, e2) => (c2, e1 ++ e2) end
    end
  end.

Lemma exec_run tx calls c :
  econn_run c calls (exec tx calls c).2 (exec tx calls c).1.
Proof.
  revert c. induction calls as [|call calls IH]; intros c; cbn; [constructor|].
  destruct (do_call tx call c) as [[[] c1] e1] eqn:E.
  specialize (IH c1). destruct (exec tx calls c1). by eapply run_cons.
Qed.

(** ** The abstract state machine

    The transitions of the protocol, labelled with what causes them: the
    diagram of [src/econn/README.md], with the states for collisions, updates
    and hang-up added. *)
Inductive fsm : econn_call → econn_state → econn_state → Prop :=
| fsm_send_setup sdp props :
    fsm (CallStart sdp props) ECONN_IDLE ECONN_PENDING_OUTGOING
| fsm_recv_setup u c m st :
    msg_type m = ECONN_SETUP → resp m = false →
    st ∈ [ECONN_IDLE; ECONN_ANSWERED; ECONN_DATACHAN_ESTABLISHED; ECONN_UPDATE_SENT] →
    fsm (CallRecv u c m) st ECONN_PENDING_INCOMING
| fsm_collision u c m :
    msg_type m = ECONN_SETUP → resp m = false →
    fsm (CallRecv u c m) ECONN_PENDING_OUTGOING ECONN_CONFLICT_RESOLUTION
| fsm_recv_answer u c m st :
    msg_type m = ECONN_SETUP → resp m = true →
    st ∈ [ECONN_PENDING_OUTGOING; ECONN_CONFLICT_RESOLUTION] →
    fsm (CallRecv u c m) st ECONN_ANSWERED
| fsm_send_answer sdp props st :
    st ∈ [ECONN_PENDING_INCOMING; ECONN_CONFLICT_RESOLUTION] →
    fsm (CallAnswer sdp props) st ECONN_ANSWERED
| fsm_datachan : fsm CallDatachan ECONN_ANSWERED ECONN_DATACHAN_ESTABLISHED
| fsm_update_req sdp props st :
    st ∈ [ECONN_ANSWERED; ECONN_DATACHAN_ESTABLISHED; ECONN_UPDATE_RECV] →
    fsm (CallUpdateReq sdp props) st ECONN_UPDATE_SENT
| fsm_update_recv u c m st :
    msg_type m = ECONN_UPDATE → resp m = false →
    st ∈ [ECONN_ANSWERED; ECONN_DATACHAN_ESTABLISHED; ECONN_UPDATE_SENT] →
    fsm (CallRecv u c m) st ECONN_UPDATE_RECV
| fsm_update_resp sdp props :
    fsm (CallUpdateResp sdp props) ECONN_UPDATE_RECV ECONN_ANSWERED
| fsm_update_done u c m :
    msg_type m = ECONN_UPDATE → resp m = true →
    fsm (CallRecv u c m) ECONN_UPDATE_SENT ECONN_ANSWERED
| fsm_hangup : fsm CallEnd ECONN_DATACHAN_ESTABLISHED ECONN_HANGUP_SENT
| fsm_recv_hangup u c m st :
    msg_type m = ECONN_HANGUP →
    st ∈ [ECONN_DATACHAN_ESTABLISHED; ECONN_HANGUP_SENT] →
    fsm (CallRecv u c m) st ECONN_TERMINATING
| fsm_recv_cancel u c m st :
    msg_type m = ECONN_CANCEL →
    st ∈ [ECONN_PENDING_INCOMING; ECONN_UPDATE_SENT; ECONN_UPDATE_RECV;
          ECONN_ANSWERED; ECONN_DATACHAN_ESTABLISHED] →
    fsm (CallRecv u c m) st ECONN_TERMINATING
| fsm_end st :
    st ∉ [ECONN_IDLE; ECONN_DATACHAN_ESTABLISHED] →
    fsm CallEnd st ECONN_TERMINATING
| fsm_close err time st : fsm (CallClose err time) st ECONN_TERMINATING
| fsm_timeout st : fsm CallTimer st ECONN_TERMINATING
| fsm_send_failed call st :
    match call with
    | CallStart _ _ => st ∈ [ECONN_IDLE; ECONN_PENDING_OUTGOING]
    | CallAnswer _ _ => st ∈ [ECONN_PENDING_INCOMING; ECONN_CONFLICT_RESOLUTION]
    | CallUpdateReq _ _ => st ∈ [ECONN_ANSWERED; ECONN_DATACHAN_ESTABLISHED;
                                 ECONN_UPDATE_SENT; ECONN_UPDATE_RECV]
    | CallUpdateResp _ _ => st = ECONN_UPDATE_RECV
    | _ => False
    end →
    fsm call st ECONN_TERMINATING.

(** A sequence of calls as seen by the abstract machine: each call takes one
    of its transitions or leaves the state alone. *)
Inductive fsm_run : list econn_call → econn_state → econn_state → Prop :=
| fsm_run_nil st : fsm_run [] st st
| fsm_run_stay call calls st st' :
    fsm_run calls st st' → fsm_run (call :: calls) st st'
| fsm_run_move call calls st st1 st' :
    fsm call st st1 → fsm_run calls st1 st' → fsm_run (call :: calls) st st'.

(** ** What the guarantees speak about *)

Definition is_close (e : econn_event) : bool :=
  match e with EvClose _ _ => true | _ => false end.

(** How often the close handler was called. *)
Definition closes (evs : list econn_event) : nat := length (List.filter is_close evs).

(** Events that may still occur once a connection terminates: the close
    callback, and the notifications and messages that carry no call state. *)
Definition quiet_event (e : econn_event) : bool :=
  match e with
  | EvClose _ _ | EvAlert _ _ | EvConfmsg _ | EvPing _ => true
  | EvSend m => bool_decide (msg_type m ∈ [ECONN_ALERT; ECONN_PING])
  | _ => false
  end.

(** States in which the connection waits for something: nobody has answered
    or finished yet. *)
Definition waiting (st : econn_state) : bool :=
  bool_decide (st ∈ [ECONN_IDLE; ECONN_PENDING_OUTGOING; ECONN_PENDING_INCOMING;
                     ECONN_CONFLICT_RESOLUTION; ECONN_HANGUP_SENT;
                     ECONN_UPDATE_SENT; ECONN_UPDATE_RECV]).

(** A message that does not belong to the session or does not come from the
    peer this connection is bound to. *)
Definition foreign (c : econn) (userid_sender clientid_sender : string)
    (m : econn_message) : Prop :=
  match msg_type m with
  | ECONN_SETUP =>
    ec_userid_remote c ≠ ""%string ∧
    (¬ ci_eq (Some (ec_userid_remote c)) (Some userid_sender) ∨
     ec_clientid_remote c ≠ ""%string ∧
     ¬ ci_eq (Some (ec_clientid_remote c)) (Some clientid_sender))
  | ECONN_UPDATE | ECONN_CANCEL =>
    ¬ ci_eq (Some (ec_sessid_remote c)) (Some (sessid_sender m)) ∨
    ¬ ci_eq (Some (ec_clientid_remote c)) (Some clientid_sender)
  | ECONN_HANGUP => ¬ ci_eq (Some (ec_sessid_remote c)) (Some (sessid_sender m))
  | _ => False
  end.

End Spec.

(** ** Symbolic evaluation of a call *)

#[global] Arguments econn_set_state : simpl never.
#[global] Arguments econn_transp_send : simpl never.
#[global] Arguments econn_send_setup : simpl never.
#[global] Arguments send_cancel : simpl never.
#[global] Arguments send_hangup : simpl never.
#[global] Arguments econn_close : simpl never.
#[global] Arguments econn_iswinner : simpl never.
#[global] Arguments econn_message_init : simpl never.
#[global] Arguments Z.eqb : simpl never.
#[global] Arguments bool_decide : simpl never.

Section Eval.
Context `{LibRe}.
Variable tx : econn_message → Z.

(** Outcome and events of handing [msg] to the transport of [c]. *)
Definition sent_err (c : econn) (msg : econn_message) : Z :=
  match ec_transp c with Some t => if sendh t then tx msg else ENOTSUP | None => ENOTSUP end.
Definition sent (c : econn) (msg : econn_message) : list econn_event :=
  match ec_transp c with Some t => if sendh t then [EvSend msg] else [] | None => [] end.

Definition setup_msg (c : econn) (rsp : bool) (sdp : option string)
    (props : option econn_props_ref) (update : bool) : econn_message :=
  let msg := econn_message_init (if update then ECONN_UPDATE else ECONN_SETUP)
               (ec_sessid_local c) in
  {| msg with msg_u := u_setup sdp props None None; resp := rsp |}.

Definition hangup_msg (c : econn) (rsp : bool) : econn_message :=
  let msg := econn_message_init ECONN_HANGUP (ec_sessid_local c) in
  {| msg with resp := rsp |}.

#[global] Arguments sent_err : simpl never.
#[global] Arguments hangup_msg : simpl never.
#[global] Arguments sent : simpl never.
#[global] Arguments setup_msg : simpl never.

Lemma set_state_eval st c :
  econn_set_state st c = ((), {| c with ec_state := st |}, []).
Proof.
  unfold econn_set_state, modify. case_bool_decide as Hst; [|done].
  by destruct c; simpl in *; subst.
Qed.

Lemma transp_send_eval msg c :
  econn_transp_send tx msg c = (sent_err c msg, c, sent c msg).
Proof.
  unfold econn_transp_send, sent_err, sent. run_M. cbn.
  destruct (ec_transp c) as [t|]; [|done]. by destruct (sendh t).
Qed.

Lemma send_cancel_eval c :
  let msg := econn_message_init ECONN_CANCEL (ec_sessid_local c) in
  send_cancel tx c = (sent_err c msg, c, sent c msg).
Proof. unfold send_cancel. run_M. cbn. by rewrite transp_send_eval. Qed.

Lemma send_hangup_eval rsp c :
  send_hangup tx rsp c
  = (sent_err c (hangup_msg c rsp), c, sent c (hangup_msg c rsp)).
Proof. unfold send_hangup. run_M. cbn. by rewrite transp_send_eval. Qed.

Lemma send_setup_eval rsp sdp props update c :
  let msg := setup_msg c rsp sdp props update in
  econn_send_setup tx rsp sdp props update c
  = (sent_err c msg,
     if sent_err c msg =? 0 then c
     else {| c with ec_setup_err := sent_err c msg; ec_state := ECONN_TERMINATING |},
     sent c msg).
Proof.
  unfold econn_send_setup, setup_msg. run_M. cbn. rewrite transp_send_eval.
  destruct (sent_err _ _ =? 0); cbn; [by rewrite app_nil_r|].
  by rewrite set_state_eval, app_nil_r.
Qed.

Lemma close_eval err time c :
  econn_close tx err time c
  = ((), {| c with ec_tmr_local := None; ec_setup_err := err;
                   ec_state := ECONN_TERMINATING; ec_closeh := false |},
     (if bool_decide (ec_state c = ECONN_PENDING_OUTGOING)
      then sent c (econn_message_init ECONN_CANCEL (ec_sessid_local c)) else [])
     ++ (if ec_closeh c then [EvClose err time] else [])).
Proof.
  unfold econn_close, tmr_cancel. run_M. cbn.
  case_bool_decide; cbn; [rewrite send_cancel_eval; cbn|];
    destruct (ec_closeh c) eqn:E; cbn; by rewrite ?app_nil_r.
Qed.
End Eval.

(** Unfold the call at hand down to the evaluated primitives. *)
Ltac eval_call :=
  unfold do_call, ignore, econn_recv_message, recv_setup, recv_update,
    recv_cancel, recv_hangup, recv_alert, recv_confmsg, recv_ping,
    handle_setup_request, handle_setup_response, handle_update_request,
    handle_update_response, tmr_expire, tmr_local_handler, tmr_term_handler,
    tmr_cancel_handler, econn_start, econn_answer, econn_update_req,
    econn_update_resp, econn_end, econn_set_datachan_established,
    econn_set_error, econn_send_propsync, econn_send_alert, econn_send_ping,
    tmr_start, tmr_cancel,
    mbind, mret, M_bind, M_ret, get, modify, emit, when;
  cbn.
(** Evaluate a primitive, or split on the next test. *)
Ltac eval_step :=
  first
  [ match goal with
    | |- context [econn_set_state _ _] => rewrite set_state_eval
    | |- context [econn_close _ _ _ _] => rewrite close_eval
    | |- context [econn_send_setup _ _ _ _ _ _] => rewrite send_setup_eval
    | |- context [send_cancel _ _] => rewrite send_cancel_eval
    | |- context [send_hangup _ _ _] => rewrite send_hangup_eval
    | |- context [econn_transp_send _ _ _] => rewrite transp_send_eval
    end; cbn
  | match goal with
    | |- context [match ?m with ECONN_SETUP => _ | _ => _ end] => destruct m eqn:?
    | |- context [match ?m with ECONN_IDLE => _ | _ => _ end] => destruct m eqn:?
    | |- context [match ?b with true => _ | false => _ end] => destruct b eqn:?
    | |- context [match ?o with Some _ => _ | None => _ end] =>
      destruct o as [[? []]|] eqn:?
    end; cbn ].

(** All the paths of one call. *)
Ltac eval_all := eval_call; once (repeat eval_step).


Section Guarantees.
Context `{LibReSpec}.
Implicit Types (c : econn) (call : econn_call) (evs : list econn_event).

(** ** One call *)

Lemma call_refines tx call c :
  match do_call tx call c with (_, c', _) =>
    ec_state c' = ec_state c ∨ fsm call (ec_state c) (ec_state c')
  end.
Proof.
  destruct call; eval_all.
  all: try (left; congruence).
  all: unfold econn_message_isrequest in *; to_prop.
  all: repeat match goal with E : ec_state _ = _ |- _ => rewrite E; clear E end.
  all: try (left; congruence).
  all: solve [right; econstructor; (done || in_list || congruence)].
Qed.

Lemma closes_app evs1 evs2 : closes (evs1 ++ evs2) = (closes evs1 + closes evs2)%nat.
Proof. unfold closes. by rewrite List.filter_app, length_app. Qed.

Lemma closes_sent c m : closes (sent c m) = 0%nat.
Proof. unfold sent. by split_cases. Qed.

Lemma not_close_sent c m err time : EvClose err time ∉ sent c m.
Proof.
  unfold sent. split_cases; rewrite ?list_elem_of_singleton; try done;
    apply not_elem_of_nil.
Qed.

Lemma closes_pos evs err time : EvClose err time ∈ evs → (0 < closes evs)%nat.
Proof.
  intros [k [l ->]]%list_elem_of_split. rewrite closes_app. unfold closes. cbn. lia.
Qed.

(** The close handler is consumed by the call that invokes it. *)
Lemma call_closes tx call c :
  match do_call tx call c with (_, c', evs) =>
    (closes evs + Nat.b2n (ec_closeh c') = Nat.b2n (ec_closeh c))%nat ∧
    ((0 < closes evs)%nat → ec_state c' = ECONN_TERMINATING)
  end.
Proof.
  destruct call; eval_all;
    rewrite ?closes_app, ?closes_sent; cbn; split; done || lia || congruence.
Qed.

Lemma call_terminating tx call c :
  ec_state c = ECONN_TERMINATING →
  match do_call tx call c with (_, c', evs) =>
    ec_state c' = ECONN_TERMINATING ∧ Forall (λ e, quiet_event e = true) evs
  end.
Proof.
  intros Hst.
  destruct call; eval_call; rewrite ?Hst; once (repeat eval_step); rewrite ?app_nil_r;
    to_prop; try congruence; (split; [done|]); repeat constructor;
    unfold sent; split_cases; repeat constructor.
Qed.

(** The configuration never changes, and as long as the connection waits its
    timer runs. *)
Definition timer_ok (c : econn) : Prop :=
  waiting (ec_state c) = true → is_Some (ec_tmr_local c).

Lemma call_timer tx call c :
  timeout_setup (ec_conf c) ≠ 0 → timer_ok c →
  match do_call tx call c with (_, c', _) =>
    ec_conf c' = ec_conf c ∧ timer_ok c'
  end.
Proof.
  intros Hcf Hok. unfold timer_ok in *.
  destruct call; eval_all; to_prop; try congruence; (split; [done|]).
  all: repeat match goal with E : ec_state _ = _ |- _ => rewrite E; clear E end.
  all: solve [by eauto | intros _; by apply Hok |
    match goal with E : ec_tmr_local _ = _ |- _ => by rewrite E end | intros Hw; by vm_compute in Hw].
Qed.

(** Who we talk to does not change once it is known, who we are never does. *)
Definition same_peer (c c' : econn) : Prop :=
  ec_userid_self c' = ec_userid_self c ∧
  ec_clientid c' = ec_clientid c ∧
  ec_sessid_local c' = ec_sessid_local c ∧
  (ec_userid_remote c ≠ ""%string → ec_userid_remote c' = ec_userid_remote c) ∧
  (ec_clientid_remote c ≠ ""%string → ec_clientid_remote c' = ec_clientid_remote c).

#[export] Instance same_peer_refl : Reflexive same_peer.
Proof. intros c. by repeat split. Qed.

#[export] Instance same_peer_trans : Transitive same_peer.
Proof.
  intros a b c (?&?&?&Hu&Hc) (?&?&?&Hu'&Hc'). repeat split; try congruence.
  - intros Ha. rewrite Hu', Hu; [done..|]. by rewrite Hu.
  - intros Ha. rewrite Hc', Hc; [done..|]. by rewrite Hc.
Qed.

Lemma call_same_peer tx call c :
  match do_call tx call c with (_, c', _) => same_peer c c' end.
Proof.
  destruct call; eval_all; try done; unfold same_peer; cbn;
    rewrite ?str_isset_Some in *; to_prop; by repeat split.
Qed.

(** ** Runs *)

Lemma run_terminating c calls evs c' :
  econn_run c calls evs c' → ec_state c = ECONN_TERMINATING →
  ec_state c' = ECONN_TERMINATING ∧ Forall (λ e, quiet_event e = true) evs.
Proof.
  induction 1 as [|c call calls c1 e1 e2 c2 tx E _ IH];
    intros Hst; [done|].
  pose proof (call_terminating tx call c Hst) as Hcall. rewrite E in Hcall.
  destruct Hcall as [H1 H2], (IH H1) as [H3 H4]. split; [done|].
  by apply Forall_app.
Qed.

Lemma run_closes c calls evs c' :
  econn_run c calls evs c' →
  (closes evs + Nat.b2n (ec_closeh c') = Nat.b2n (ec_closeh c))%nat ∧
  ((0 < closes evs)%nat → ec_state c' = ECONN_TERMINATING).
Proof.
  induction 1 as [|c call calls c1 e1 e2 c2 tx E Hrun [IH1 IH2]].
  { split; cbn; lia. }
  pose proof (call_closes tx call c) as Hcall. rewrite E in Hcall.
  destruct Hcall as [H1 H2]. rewrite closes_app. split; [lia|].
  intros Hpos. destruct (closes e1) eqn:E1; [apply IH2; lia|].
  apply (run_terminating _ _ _ _ Hrun), H2. lia.
Qed.

Lemma run_timer c calls evs c' :
  econn_run c calls evs c' → timeout_setup (ec_conf c) ≠ 0 → timer_ok c →
  ec_conf c' = ec_conf c ∧ timer_ok c'.
Proof.
  induction 1 as [|c call calls c1 e1 e2 c2 tx E _ IH];
    intros Hcf Hok; [done|].
  pose proof (call_timer tx call c Hcf Hok) as Hcall. rewrite E in Hcall.
  destruct Hcall as [Hcf1 Hok1]. rewrite <-Hcf1. apply IH; [congruence|done].
Qed.

Lemma expire_eval tx c delay h :
  ec_tmr_local c = Some (delay, h) →
  let err := match h with
             | TMR_LOCAL => if ec_err c =? 0 then ETIMEDOUT_ECONN else ec_err c
             | _ => ec_err c end in
  match do_call tx CallTimer c with (_, c', evs) =>
    ec_state c' = ECONN_TERMINATING ∧ ec_setup_err c' = err ∧
    (EvClose err ECONN_MESSAGE_TIME_UNKNOWN ∈ evs ↔ ec_closeh c = true)
  end.
Proof.
  intros Ht. cbn. eval_call. rewrite Ht. cbn.
  destruct h; eval_call; rewrite close_eval; cbn; split_and!; try done.
  all: rewrite elem_of_app; split; [intros [Hs|Hs]|intros ->; right; by left].
  all: solve [ case_bool_decide; [by apply not_close_sent in Hs|by apply not_elem_of_nil in Hs]
             | destruct (ec_closeh c); [done|by apply not_elem_of_nil in Hs] ].
Qed.

End Guarantees.

(** ** The guarantees *)

Section Theorems.
Context `{LibReSpec}.

(** C3: the connection code implements the protocol's state machine: whatever
    sequence of calls, messages and timeouts a connection goes through, its
    state follows the labelled transitions of [fsm], and calls without a
    transition leave the state alone. *)
Theorem econn_refines_fsm c calls evs c' :
  econn_run c calls evs c' → fsm_run calls (ec_state c) (ec_state c').
Proof.
  induction 1 as [|c call calls c1 e1 e2 c2 tx E Hrun IH]; [constructor|].
  pose proof (call_refines tx call c) as Hcall. rewrite E in Hcall.
  destruct Hcall as [Heq|Hstep].
  - apply fsm_run_stay. by rewrite <-Heq.
  - by eapply fsm_run_move.
Qed.

(** the application's close handler is called at most once over the whole
    life of a connection, and when it has been called the connection is, and
    stays, terminating. *)
Theorem econn_close_once c calls evs c' :
  econn_run c calls evs c' →
  (closes evs ≤ 1)%nat ∧
  (closes evs = 1%nat → ec_state c' = ECONN_TERMINATING ∧ ec_closeh c' = false) ∧
  (ec_closeh c = true → ec_closeh c' = false → closes evs = 1%nat).
Proof.
  intros Hrun. apply run_closes in Hrun as [H1 H2].
  destruct (ec_closeh c), (ec_closeh c'); cbn in *; split_and!; intros; try lia;
    split; auto with lia.
Qed.

(** termination is final: from a terminating connection no call leads
    anywhere else, no new call, answer or update is reported to the
    application, and nothing but alerts and pings is sent any more. *)
Theorem econn_terminating_final c calls evs c' :
  econn_run c calls evs c' → ec_state c = ECONN_TERMINATING →
  ec_state c' = ECONN_TERMINATING ∧ Forall (λ e, quiet_event e = true) evs.
Proof. apply run_terminating. Qed.

(** a connection never waits for ever: in every state reachable from a
    fresh connection in which somebody still has to answer or to finish, the
    timer is running, and when it expires the connection terminates and the
    close handler has been called exactly once in all. *)
Theorem econn_waiting_times_out zok dok rand cf uid cid sess tr h1 h2 h3 h4 h5 h6 h7
    c0 calls evs c tx :
  econn_alloc zok dok rand cf uid cid sess tr h1 h2 h3 h4 h5 h6 h7 true = inr c0 →
  timeout_setup (ec_conf c0) ≠ 0 →
  econn_run c0 calls evs c →
  waiting (ec_state c) = true →
  is_Some (ec_tmr_local c) ∧
  match do_call tx CallTimer c with (_, c', evs') =>
    ec_state c' = ECONN_TERMINATING ∧ closes (evs ++ evs') = 1%nat
  end.
Proof.
  intros Halloc Hcf Hrun Hwait.
  assert (timer_ok c0 ∧ ec_closeh c0 = true) as [Hok Hh].
  { unfold econn_alloc, timer_ok in *. by split_cases. }
  destruct (run_timer _ _ _ _ Hrun Hcf Hok) as [_ Hok'].
  destruct (Hok' Hwait) as [[delay h] Ht]. split; [by eexists|].
  pose proof (expire_eval tx c delay h Ht) as Hexp.
  pose proof (call_closes tx CallTimer c) as Hcl.
  apply run_closes in Hrun as [Hc1 Hc2]. rewrite Hh in Hc1. cbn in Hc1.
  destruct (do_call tx CallTimer c) as [[[] c'] evs'] eqn:E.
  destruct Hexp as (Hst & _ & Hev), Hcl as [Hcl _]. split; [done|].
  rewrite closes_app. destruct (ec_closeh c) eqn:Hcc; cbn in *.
  - destruct (ec_closeh c') eqn:Hcc'; cbn in *; [|lia].
    assert (0 < closes evs')%nat by (eapply closes_pos, Hev; done). lia.
  - assert (ec_state c = ECONN_TERMINATING) as Hterm by (apply Hc2; lia).
    by rewrite Hterm in Hwait.
Qed.

(** a message that does not belong to the session, or does not come from
    the user and client the connection is bound to, changes nothing and is
    reported to nobody. *)
Theorem econn_foreign_ignored tx c u cl m :
  foreign c u cl m →
  econn_recv_message tx u cl m c = ((), c, []).
Proof.
  unfold foreign, ci_eq. intros Hf. eval_call.
  destruct (msg_type m) eqn:Ht; try done; cbn.
  all: repeat match goal with
    | Hf : _ ∨ _ |- _ => destruct Hf as [Hf|Hf]
    | Hf : _ ∧ _ |- _ => destruct Hf
    end; rewrite ?str_isset_Some; repeat eval_step; to_prop;
    try done; try congruence.
  all: rewrite ?orb_false_iff, ?andb_false_iff in *; destruct_or?; to_prop; try done.
  all: exfalso; eauto using str_casecmp_sym.
Qed.

(** The identity of the two parties is fixed: our own identity and session
    never change, and once the remote user or client is known no later message
    can replace it. *)
Theorem econn_peer_fixed c calls evs c' :
  econn_run c calls evs c' → same_peer c c'.
Proof.
  induction 1 as [|c call calls c1 e1 e2 c2 tx E Hrun IH]; [done|].
  pose proof (call_same_peer tx call c) as Hcall. rewrite E in Hcall. by etrans.
Qed.

(** an operation called in a state that does not allow it returns
    [EPROTO], changes nothing and sends nothing. *)
Theorem econn_wrong_state tx sdp props c :
  (ec_state c ∉ [ECONN_IDLE; ECONN_PENDING_OUTGOING] →
   econn_start tx sdp props c = (EPROTO, c, [])) ∧
  (ec_state c ∉ [ECONN_PENDING_INCOMING; ECONN_CONFLICT_RESOLUTION] →
   econn_answer tx sdp props c = (EPROTO, c, [])) ∧
  (ec_state c ∉ [ECONN_ANSWERED; ECONN_DATACHAN_ESTABLISHED; ECONN_UPDATE_SENT;
                 ECONN_UPDATE_RECV] →
   econn_update_req tx sdp props c = (EPROTO, c, [])) ∧
  (ec_state c ≠ ECONN_UPDATE_RECV →
   econn_update_resp tx sdp props c = (EPROTO, c, [])) ∧
  (∀ rsp p, ec_state c ≠ ECONN_DATACHAN_ESTABLISHED →
   econn_send_propsync tx rsp p c = (EPROTO, c, [])).
Proof.
  eval_call. destruct (ec_state c); split_and!; intros;
    (done || (exfalso; match goal with Hn : _ ∉ _ |- _ => apply Hn; in_list end)).
Qed.

(** when the transport refuses a SETUP or an UPDATE, the operation returns
    the transport's error, the connection is terminating with that error
    recorded, and no callback is made. *)
Theorem econn_send_failure tx sdp props c err :
  (∀ m, sent_err tx c m = err) → err ≠ 0 →
  let failed (r : Z * econn * list econn_event) :=
    result r = err ∧ ec_state (final r) = ECONN_TERMINATING ∧
    ec_setup_err (final r) = err ∧ ec_closeh (final r) = ec_closeh c ∧
    Forall (λ e, match e with EvSend _ => True | _ => False end) (events r) in
  (ec_state c ∈ [ECONN_IDLE; ECONN_PENDING_OUTGOING] →
   failed (econn_start tx sdp props c)) ∧
  (ec_state c ∈ [ECONN_PENDING_INCOMING; ECONN_CONFLICT_RESOLUTION] →
   failed (econn_answer tx sdp props c)) ∧
  (ec_state c ∈ [ECONN_ANSWERED; ECONN_DATACHAN_ESTABLISHED; ECONN_UPDATE_SENT;
                 ECONN_UPDATE_RECV] →
   failed (econn_update_req tx sdp props c)) ∧
  (ec_state c = ECONN_UPDATE_RECV → failed (econn_update_resp tx sdp props c)).
Proof.
  intros Herr Hne failed. unfold failed, result, final, events.
  assert (∀ c' m, ec_transp c' = ec_transp c → sent_err tx c' m = err) as Herr'.
  { intros c' m Ht. rewrite <-(Herr m). unfold sent_err. by rewrite Ht. }
  apply Z.eqb_neq in Hne as Hneb.
  split_and!; intros Hst; eval_call; destruct (ec_state c) eqn:E;
    try (by apply (bool_decide_pack _) in Hst; vm_compute in Hst).
  all: try (rewrite bool_decide_eq_true_2 by done; cbn).
  all: repeat (first [rewrite set_state_eval | rewrite send_setup_eval]; cbn).
  all: rewrite !Herr', Hneb by done; cbn; rewrite ?app_nil_r; split_and!; try done.
  all: unfold sent; split_cases; by repeat constructor.
Qed.

End Theorems.
