(* ===== verification/EconnPair.v ===== *)
(** * Two connections talking to each other

    The protocol between two ends: setting up a call, two calls crossing each
    other, hanging up.  Each exchange is an executable script that makes the
    API calls of the two applications and delivers the messages that the
    transport of one end was given to the other end. *)

From S2P Require Import Prelude LibRe EconnMsg Econn EconnSpec.

Section Pair.
Context `{LibRe}.

(** The first message handed to the transport. *)
Definition first_sent (evs : list econn_event) : option econn_message :=
  match evs with EvSend m :: _ => Some m | _ => None end.

(** [m], sent by the end [from], arrives at [c]. *)
Definition deliver (tx : econn_message → Z) (from : econn) (m : econn_message) : ECM () :=
  econn_recv_message tx (ec_userid_self from) (ec_clientid from) m.

(** What both applications learn: the two ends and the events at each. *)
Record exchange := {
  end_a : econn; end_b : econn;
  evs_a : list econn_event; evs_b : list econn_event;
}.

(** The offer of [a] rings at [b], who accepts it with [b]'s answer. *)
Definition play_setup txa txb sdpa pa sdpb pb (a b : econn) : option exchange :=
  let ra := econn_start txa sdpa pa a in
  m1 ← first_sent (events ra);
  let rb := deliver txb a m1 b in
  let rb' := econn_answer txb sdpb pb (final rb) in
  m2 ← first_sent (events rb');
  let ra' := deliver txa b m2 (final ra) in
  Some {| end_a := final ra'; end_b := final rb';
          evs_a := events ra ++ events ra'; evs_b := events rb ++ events rb' |}.

(** [c] has lost a collision and answers; the answer goes to [d]. *)
Definition play_loser txc txd sdp p (c d : econn) : option (econn * econn) :=
  let rc := econn_answer txc sdp p c in
  m ← first_sent (events rc);
  Some (final rc, final (deliver txd c m d)).

(** Both ends call each other; the offers cross; the end that is told to
    answer does so. *)
Definition play_collision txa txb sdpa pa sdpb pb (a b : econn) : option (econn * econn) :=
  let ra := econn_start txa sdpa pa a in
  let rb := econn_start txb sdpb pb b in
  ma ← first_sent (events ra);
  mb ← first_sent (events rb);
  let a1 := final (deliver txa b mb (final ra)) in
  let b1 := final (deliver txb a ma (final rb)) in
  match ec_state a1, ec_state b1 with
  | ECONN_CONFLICT_RESOLUTION, ECONN_PENDING_OUTGOING =>
    play_loser txa txb sdpa pa a1 b1
  | ECONN_PENDING_OUTGOING, ECONN_CONFLICT_RESOLUTION =>
    p ← play_loser txb txa sdpb pb b1 a1; Some (p.2, p.1)
  | _, _ => None
  end.

(** [a] hangs up, [b] confirms. *)
Definition play_hangup txa txb (a b : econn) : option exchange :=
  let ra := econn_end txa a in
  m1 ← first_sent (events ra);
  let rb := deliver txb a m1 b in
  m2 ← first_sent (events rb);
  let ra' := deliver txa b m2 (final ra) in
  Some {| end_a := final ra'; end_b := final rb;
          evs_a := events ra ++ events ra'; evs_b := events rb |}.

(** The transport of [c] takes every message. *)
Definition link_ok (tx : econn_message → Z) (c : econn) : Prop :=
  ec_transp c = Some {| sendh := true |} ∧ ∀ m, tx m = 0.

(** [c] is bound to nobody, or to the end [d]. *)
Definition may_talk (c d : econn) : Prop :=
  (ec_userid_remote c = ""%string ∨
   ci_eq (Some (ec_userid_remote c)) (Some (ec_userid_self d))) ∧
  (ec_clientid_remote c = ""%string ∨
   ci_eq (Some (ec_clientid_remote c)) (Some (ec_clientid d))).

Definition sess_fits (c : econn) : Prop :=
  (String.length (ec_sessid_local c) < ECONN_ID_LEN)%nat.

Definition ids_fit (c : econn) : Prop :=
  (String.length (ec_userid_self c) < ECONN_ID_LEN)%nat ∧
  (String.length (ec_clientid c) < ECONN_ID_LEN)%nat.

(** Both ends are in the same call: answered, and each knows the other's
    session. *)
Definition in_call (a b : econn) : Prop :=
  ec_state a = ECONN_ANSWERED ∧ ec_state b = ECONN_ANSWERED ∧
  ec_sessid_remote a = ec_sessid_local b ∧
  ec_sessid_remote b = ec_sessid_local a ∧
  ec_tmr_local a = None ∧ ec_tmr_local b = None.

End Pair.

(** ** The steps of the exchanges *)

Section Steps.
Context `{LibReSpec}.
Implicit Types a b c d : econn.

Lemma link_sent tx c m : link_ok tx c → sent_err tx c m = 0 ∧ sent c m = [EvSend m].
Proof. intros [Ht Htx]. unfold sent_err, sent. by rewrite Ht; cbn. Qed.

(** The peer fields after a SETUP from [d] was let through. *)
Definition bound (c d : econn) : econn :=
  {| c with
     ec_userid_remote :=
       if bool_decide (ec_userid_remote c = ""%string)
       then str_ncpy (ec_userid_self d) ECONN_ID_LEN else ec_userid_remote c;
     ec_clientid_remote :=
       if bool_decide (ec_clientid_remote c = ""%string)
       then str_ncpy (ec_clientid d) ECONN_ID_LEN else ec_clientid_remote c |}.

Lemma deliver_setup tx c d m :
  msg_type m = ECONN_SETUP → may_talk c d →
  deliver tx d m c
  = (if econn_message_isrequest m then handle_setup_request else handle_setup_response)
      (ec_userid_self d) (ec_clientid d) m (bound c d).
Proof.
  intros Ht [Hu Hc]. unfold deliver, econn_recv_message. rewrite Ht.
  unfold recv_setup, bound. run_M. cbn. rewrite !str_isset_Some.
  assert (∀ s t, s = ""%string ∨ ci_eq (Some s) (Some t) →
    bool_decide (s ≠ ""%string) && negb (str_casecmp (Some s) (Some t) =? 0) = false) as Hok.
  { intros s t [->|Hci]; [by rewrite bool_decide_eq_false_2 by tauto|].
    unfold ci_eq in Hci. rewrite Hci. apply andb_false_r. }
  rewrite (Hok _ _ Hu), (Hok _ _ Hc). rewrite !bool_decide_not.
  rewrite !negb_involutive.
  destruct c, (econn_message_isrequest m); cbn; repeat case_bool_decide; cbn.
  all: match goal with
    | |- _ = handle_setup_request ?a ?b ?c ?d =>
      by destruct (handle_setup_request a b c d) as [[[] ?] ?]
    | |- _ = handle_setup_response ?a ?b ?c ?d =>
      by destruct (handle_setup_response a b c d) as [[[] ?] ?]
    end.
Qed.

Lemma deliver_offer tx c d d' sdp p :
  may_talk c d →
  deliver tx d (setup_msg d' false sdp p false) c
  = handle_setup_request (ec_userid_self d) (ec_clientid d)
      (setup_msg d' false sdp p false) (bound c d).
Proof. intros. by rewrite deliver_setup. Qed.

Lemma deliver_answer tx c d d' sdp p :
  may_talk c d →
  deliver tx d (setup_msg d' true sdp p false) c
  = handle_setup_response (ec_userid_self d) (ec_clientid d)
      (setup_msg d' true sdp p false) (bound c d).
Proof. intros. by rewrite deliver_setup. Qed.

Lemma bound_talk c d : ids_fit d → may_talk c d → may_talk (bound c d) d.
Proof.
  intros [Hu Hc] [Hru Hrc]. unfold may_talk, bound. cbn.
  rewrite !str_ncpy_fits by done.
  split; right; case_bool_decide; (reflexivity || by destruct Hru, Hrc).
Qed.

Lemma start_idle tx sdp p c :
  link_ok tx c → ec_state c = ECONN_IDLE → timeout_setup (ec_conf c) ≠ 0 →
  econn_start tx sdp p c
  = (0, {| c with ec_state := ECONN_PENDING_OUTGOING; ec_dir := ECONN_DIR_OUTGOING;
                  ec_tmr_local := Some (timeout_setup (ec_conf c), TMR_LOCAL) |},
     [EvSend (setup_msg c false sdp p false)]).
Proof.
  intros Hl Hst Htmo. eval_call. rewrite Hst. cbn. rewrite set_state_eval. cbn.
  rewrite send_setup_eval. apply Z.eqb_neq in Htmo.
  destruct (link_sent tx {| c with ec_state := ECONN_PENDING_OUTGOING; ec_dir := ECONN_DIR_OUTGOING |}
    (setup_msg c false sdp p false)) as [H1 H2]; [done|].
  change (setup_msg {| c with ec_state := ECONN_PENDING_OUTGOING; ec_dir := ECONN_DIR_OUTGOING |}
    false sdp p false) with (setup_msg c false sdp p false).
  rewrite H1, H2. cbn. by rewrite Htmo.
Qed.

Lemma answer_ok tx sdp p c :
  link_ok tx c → ec_state c ∈ [ECONN_PENDING_INCOMING; ECONN_CONFLICT_RESOLUTION] →
  econn_answer tx sdp p c
  = (0, {| c with ec_state := ECONN_ANSWERED; ec_tmr_local := None |},
     [EvSend (setup_msg c true sdp p false)]).
Proof.
  intros Hl Hst. set (m := setup_msg c true sdp p false).
  assert (econn_send_setup tx true sdp p false {| c with ec_tmr_local := None |}
          = (0, {| c with ec_tmr_local := None |}, [EvSend m])) as Hsend.
  { rewrite send_setup_eval.
    destruct (link_sent tx {| c with ec_tmr_local := None |} m) as [H1 H2]; [done|].
    change (setup_msg {| c with ec_tmr_local := None |} true sdp p false) with m.
    by rewrite H1, H2. }
  eval_call. clearbody m.
  destruct (ec_state c) eqn:E; try (by apply (bool_decide_pack _) in Hst; vm_compute in Hst).
  all: rewrite <-E in Hsend; cbn; rewrite Hsend, Z.eqb_refl; cbn; by rewrite set_state_eval.
Qed.

Lemma setup_response_ok c u cl m :
  ec_state c ∈ [ECONN_PENDING_OUTGOING; ECONN_CONFLICT_RESOLUTION] →
  handle_setup_response u cl m c
  = ((), {| c with ec_state := ECONN_ANSWERED; ec_tmr_local := None;
                   ec_sessid_remote := str_ncpy (sessid_sender m) ECONN_ID_LEN |},
     if ec_answerh c then [EvAnswer false (setup_sdp_msg m) (setup_props m)] else []).
Proof.
  intros Hst. eval_call.
  destruct (ec_state c); try (by apply (bool_decide_pack _) in Hst; vm_compute in Hst).
  all: cbn; rewrite set_state_eval; cbn; by destruct (ec_answerh c).
Qed.

Lemma setup_request_idle c u cl m :
  ec_state c = ECONN_IDLE →
  handle_setup_request u cl m c
  = ((), {| c with ec_state := ECONN_PENDING_INCOMING; ec_dir := ECONN_DIR_INCOMING;
                   ec_sessid_remote := str_ncpy (sessid_sender m) ECONN_ID_LEN;
                   ec_tmr_local := Some (timeout_setup (ec_conf c), TMR_LOCAL) |},
     if ec_connh c then [EvConn (msg_time m) u cl (msg_age m) (setup_sdp_msg m)
                           (setup_props m) false] else []).
Proof.
  intros Hst. eval_call. rewrite Hst. cbn. rewrite set_state_eval. cbn.
  by destruct (ec_connh c).
Qed.

Lemma setup_request_collision c u cl m :
  ec_state c = ECONN_PENDING_OUTGOING →
  handle_setup_request u cl m c
  = if econn_iswinner (ec_userid_self c) (ec_clientid c) u cl
    then ((), {| c with ec_sessid_remote := str_ncpy (sessid_sender m) ECONN_ID_LEN;
                        ec_conflict := 1 |}, [])
    else ((), {| c with ec_sessid_remote := str_ncpy (sessid_sender m) ECONN_ID_LEN;
                        ec_conflict := -1; ec_state := ECONN_CONFLICT_RESOLUTION |},
          if ec_answerh c then [EvAnswer true (setup_sdp_msg m) (setup_props m)] else []).
Proof.
  intros Hst. eval_call. rewrite Hst. cbn.
  destruct (econn_iswinner _ _ _ _); cbn; [by rewrite Hst|].
  rewrite set_state_eval. cbn. by destruct (ec_answerh c).
Qed.

Lemma setup_msg_sess c rsp sdp p upd :
  sess_fits c →
  str_ncpy (sessid_sender (setup_msg c rsp sdp p upd)) ECONN_ID_LEN = ec_sessid_local c.
Proof.
  intros Hs. unfold setup_msg, econn_message_init. cbn.
  by rewrite !(str_ncpy_fits (ec_sessid_local c)).
Qed.

Lemma end_datachan tx c :
  link_ok tx c → ec_state c = ECONN_DATACHAN_ESTABLISHED →
  econn_end tx c
  = ((), {| c with ec_state := ECONN_HANGUP_SENT;
                   ec_tmr_local := Some (timeout_term (ec_conf c), TMR_TERM) |},
     [EvSend (hangup_msg c false)]).
Proof.
  intros Hl Hst. eval_call. rewrite Hst. cbn. rewrite send_hangup_eval.
  destruct (link_sent tx c (hangup_msg c false) Hl) as [H1 H2].
  rewrite H1, H2, Z.eqb_refl. cbn. by rewrite set_state_eval.
Qed.

Lemma deliver_hangup tx c d m :
  msg_type m = ECONN_HANGUP →
  ci_eq (Some (ec_sessid_remote c)) (Some (sessid_sender m)) →
  ec_state c ∈ [ECONN_DATACHAN_ESTABLISHED; ECONN_HANGUP_SENT] →
  (resp m = false → link_ok tx c) →
  deliver tx d m c
  = ((), {| c with ec_state := ECONN_TERMINATING; ec_tmr_local := None;
                   ec_setup_err := ec_err c; ec_closeh := false |},
     (if resp m then []
      else [EvSend (hangup_msg c true)])
     ++ if ec_closeh c then [EvClose (ec_err c) (msg_time m)] else []).
Proof.
  intros Ht Hci Hst Hl. unfold deliver, econn_recv_message, recv_hangup. rewrite Ht.
  run_M. cbn. unfold ci_eq in Hci. rewrite Hci, Z.eqb_refl. cbn.
  unfold econn_message_isrequest.
  destruct (ec_state c) eqn:E; try (by apply (bool_decide_pack _) in Hst; vm_compute in Hst).
  all: rewrite set_state_eval; cbn; destruct (resp m); cbn.
  all: rewrite ?send_hangup_eval; cbn; rewrite ?set_state_eval; cbn; rewrite close_eval; cbn.
  all: rewrite (bool_decide_eq_false_2 (ECONN_TERMINATING = ECONN_PENDING_OUTGOING)) by done; cbn.
  all: rewrite ?app_nil_r; try done.
  all: f_equal; unfold sent; cbn; by rewrite (proj1 (Hl eq_refl)).
Qed.

End Steps.

(** ** The exchanges *)

Section Exchanges.
Context `{LibReSpec}.

(** call setup works end to end: when one end calls and the other accepts,
    both ends are in the call, each holds the other's session id, no timer is
    left running, the callee was offered the caller's SDP and properties and
    the caller got the callee's. *)
Theorem setup_establishes_call txa txb sdpa pa sdpb pb a b :
  link_ok txa a → link_ok txb b →
  ec_state a = ECONN_IDLE → ec_state b = ECONN_IDLE →
  timeout_setup (ec_conf a) ≠ 0 →
  may_talk a b → may_talk b a → sess_fits a → sess_fits b →
  ∃ x, play_setup txa txb sdpa pa sdpb pb a b = Some x ∧
    in_call (end_a x) (end_b x) ∧
    ec_dir (end_a x) = ECONN_DIR_OUTGOING ∧ ec_dir (end_b x) = ECONN_DIR_INCOMING ∧
    (ec_connh b = true →
       EvConn 0 (ec_userid_self a) (ec_clientid a) 0 sdpa pa false ∈ evs_b x) ∧
    (ec_answerh a = true → EvAnswer false sdpb pb ∈ evs_a x).
Proof.
  intros Hla Hlb Hsa Hsb Htmo Hab Hba Hfa Hfb. unfold play_setup.
  rewrite start_idle by done. cbn -[deliver].
  rewrite deliver_offer by done.
  rewrite setup_request_idle by done. cbn -[deliver econn_answer].
  rewrite answer_ok by (done || in_list). cbn -[deliver].
  rewrite deliver_answer by done.
  rewrite setup_response_ok by in_list. cbn.
  eexists; split; [done|]. unfold in_call. cbn.
  change (setup_msg _ true sdpb pb false) with (setup_msg b true sdpb pb false).
  rewrite !setup_msg_sess by done.
  split_and!; try done.
  - intros ->. by apply elem_of_app; left; left.
  - intros ->. by apply elem_of_cons; right; left.
Qed.

(** C30: colliding calls are resolved: when two different clients call each
    other at the same time, exactly one of them is told to give up its own
    offer, and after it has answered both are in the same call. *)
Theorem collision_resolves txa txb sdpa pa sdpb pb a b :
  link_ok txa a → link_ok txb b →
  ec_state a = ECONN_IDLE → ec_state b = ECONN_IDLE →
  timeout_setup (ec_conf a) ≠ 0 → timeout_setup (ec_conf b) ≠ 0 →
  may_talk a b → may_talk b a → sess_fits a → sess_fits b →
  ids_fit a → ids_fit b →
  (ec_userid_self a, ec_clientid a) ≠ (ec_userid_self b, ec_clientid b) →
  ∃ a' b', play_collision txa txb sdpa pa sdpb pb a b = Some (a', b') ∧
    in_call a' b' ∧
    (ec_conflict a' = 1 ∧ ec_conflict b' = -1 ∨
     ec_conflict a' = -1 ∧ ec_conflict b' = 1).
Proof.
  intros Hla Hlb Hsa Hsb Hta Htb Hab Hba Hfa Hfb Hia Hib Hne.
  pose proof (iswinner_opposite _ _ _ _ Hne) as Hw.
  unfold play_collision. rewrite !start_idle by done. cbn -[deliver play_loser].
  rewrite !deliver_offer by done.
  rewrite !setup_request_collision by done. cbn -[play_loser]. rewrite Hw.
  destruct (econn_iswinner (ec_userid_self b) _ _ _); cbn -[play_loser].
  all: unfold play_loser; rewrite answer_ok by (done || in_list); cbn -[deliver].
  all: rewrite deliver_answer
    by first [exact (bound_talk a b Hib Hab) | exact (bound_talk b a Hia Hba)].
  all: rewrite setup_response_ok by in_list; cbn.
  all: do 2 eexists; split; [done|]; unfold in_call; cbn.
  all: try change (setup_msg _ true sdpa pa false) with (setup_msg a true sdpa pa false).
  all: try change (setup_msg _ true sdpb pb false) with (setup_msg b true sdpb pb false).
  all: rewrite !setup_msg_sess by done; split_and!; by auto.
Qed.


(** hanging up ends the call on both sides: the peer confirms the HANGUP,
    both connections are terminating without a timer and both close handlers
    have been called, each with its own error code. *)
Theorem hangup_ends_call txa txb a b :
  link_ok txa a → link_ok txb b →
  ec_state a = ECONN_DATACHAN_ESTABLISHED → ec_state b = ECONN_DATACHAN_ESTABLISHED →
  ec_sessid_remote a = ec_sessid_local b → ec_sessid_remote b = ec_sessid_local a →
  sess_fits a → sess_fits b →
  ∃ x, play_hangup txa txb a b = Some x ∧
    ec_state (end_a x) = ECONN_TERMINATING ∧ ec_state (end_b x) = ECONN_TERMINATING ∧
    ec_tmr_local (end_a x) = None ∧ ec_tmr_local (end_b x) = None ∧
    (ec_closeh a = true → EvClose (ec_err a) 0 ∈ evs_a x) ∧
    (ec_closeh b = true → EvClose (ec_err b) 0 ∈ evs_b x).
Proof.
  intros Hla Hlb Hsa Hsb Hab Hba Hfa Hfb. unfold play_hangup.
  rewrite end_datachan by done. cbn -[deliver].
  assert (∀ c rsp, sess_fits c → sessid_sender (hangup_msg c rsp) = ec_sessid_local c)
    as Hsess.
  { intros c rsp Hc. unfold hangup_msg, econn_message_init. cbn. by rewrite str_ncpy_fits. }
  rewrite deliver_hangup; [|done| |rewrite Hsb; in_list|done].
  2: { cbn. rewrite Hsess, Hba by done. by unfold ci_eq; apply str_casecmp_refl. }
  change (resp (hangup_msg a false)) with false. cbn -[deliver].
  rewrite deliver_hangup; [|done| |cbn; in_list|done].
  2: { cbn. rewrite Hsess, Hab by done. by unfold ci_eq; apply str_casecmp_refl. }
  eexists; split; [done|]. cbn.
  split_and!; try done; intros ->; apply elem_of_cons; right; by left.
Qed.


End Exchanges.
