(* ===== verification/EconnWitness.v ===== *)
(** * Concrete connections

    Two ends, [alice] and [bob], on the concrete libre of [LibReRef], and the
    theorems about connections applied to them. *)

From S2P Require Import Prelude LibRe EconnMsg Econn EconnSpec EconnPair.
Import LibReRef.

Definition mk_econn (uid cid sess : string) : econn := {|
  ec_conf := default_conf;
  ec_tmr_local := Some (60000, TMR_LOCAL);
  ec_transp := Some {| sendh := true |};
  ec_state := ECONN_IDLE;
  ec_dir := ECONN_DIR_UNKNOWN;
  ec_userid_self := uid; ec_clientid := cid;
  ec_sessid_local := sess; ec_sessid_remote := "";
  ec_userid_remote := ""; ec_clientid_remote := "";
  ec_setup_err := 0; ec_conflict := 0;
  ec_connh := true; ec_answerh := true; ec_update_reqh := true;
  ec_update_resph := true; ec_alerth := true; ec_confmsgh := true;
  ec_pingh := true; ec_closeh := true; ec_err := 0;
|}.

Definition alice : econn := mk_econn "alice" "a1" "4x12".
Definition bob : econn := mk_econn "bob" "b7" "Ui6E".

Definition tx_ok (m : econn_message) : Z := 0.
Definition tx_down (m : econn_message) : Z := EIO.

(** Alice calls, gives up, and the timer fires. *)
Definition alice_calls : list econn_call :=
  [CallStart (Some "v=0"%string) None; CallEnd; CallTimer].

Definition alice_end : econn := (exec tx_ok alice_calls alice).1.
Definition alice_evs : list econn_event := (exec tx_ok alice_calls alice).2.

(** A SETUP from a third user, after alice's peer is known. *)
Definition alice_bound : econn := {| alice with ec_userid_remote := "bob" |}.
Definition eve_setup : econn_message := econn_message_init ECONN_SETUP "zzzz".

Example alice_run : econn_run alice alice_calls alice_evs alice_end.
Proof. exact (exec_run tx_ok alice_calls alice). Defined.

Lemma econn_refines_fsm_witness :
  fsm_run alice_calls ECONN_IDLE ECONN_TERMINATING.
Proof. exact (econn_refines_fsm alice alice_calls alice_evs alice_end alice_run). Defined.

Lemma econn_close_once_witness :
  closes alice_evs = 1%nat ∧ (closes alice_evs ≤ 1)%nat ∧
  ec_state alice_end = ECONN_TERMINATING.
Proof.
  split; [reflexivity|].
  destruct (econn_close_once alice alice_calls alice_evs alice_end alice_run) as (H1 & H2 & _).
  split; [exact H1|]. apply H2. reflexivity.
Defined.

Lemma econn_terminating_final_witness :
  ec_state (exec tx_ok [CallStart None None; CallPing false] alice_end).1 = ECONN_TERMINATING.
Proof.
  refine (proj1 (econn_terminating_final alice_end [CallStart None None; CallPing false]
    _ _ (exec_run tx_ok _ _) _)). reflexivity.
Defined.

(** Alice is calling and nobody answers. *)
Definition alice_out : econn := (exec tx_ok [CallStart None None] alice).1.
Definition alice_out_evs : list econn_event := (exec tx_ok [CallStart None None] alice).2.

Example alice_out_run : econn_run alice [CallStart None None] alice_out_evs alice_out.
Proof. exact (exec_run tx_ok [CallStart None None] alice). Defined.

Example alice_allocated :
  econn_alloc true true "4x12" None "alice" "a1" None (Some {| sendh := true |})
    true true true true true true true true = inr alice.
Proof. vm_compute. reflexivity. Defined.

Lemma econn_waiting_times_out_witness : is_Some (ec_tmr_local alice_out).
Proof.
  assert (timeout_setup (ec_conf alice) ≠ 0) as Ht by (vm_compute; discriminate).
  assert (waiting (ec_state alice_out) = true) as Hw by (vm_compute; reflexivity).
  exact (proj1 (econn_waiting_times_out _ _ _ _ _ _ _ _ _ _ _ _ _ _ _ _ _ _ _ tx_ok
    alice_allocated Ht alice_out_run Hw)).
Defined.

Lemma econn_foreign_ignored_witness :
  econn_recv_message tx_ok "eve" "e3" eve_setup alice_bound = ((), alice_bound, []).
Proof.
  apply econn_foreign_ignored. split; [discriminate|]. left. vm_compute. discriminate.
Defined.

Lemma econn_peer_fixed_witness : same_peer alice alice_end.
Proof. exact (econn_peer_fixed alice alice_calls alice_evs alice_end alice_run). Defined.

Lemma econn_wrong_state_witness :
  econn_answer tx_ok None None alice = (EPROTO, alice, []).
Proof.
  destruct (econn_wrong_state tx_ok None None alice) as (_ & Hans & _).
  apply Hans. apply (bool_decide_unpack _). vm_compute. exact I.
Defined.

Lemma econn_send_failure_witness :
  ec_state (final (econn_start tx_down None None alice)) = ECONN_TERMINATING.
Proof.
  destruct (econn_send_failure tx_down None None alice EIO) as (H1 & _);
    [reflexivity|discriminate|].
  apply H1. in_list.
Defined.

(** The two ends can talk. *)
Lemma alice_bob_ok :
  link_ok tx_ok alice ∧ link_ok tx_ok bob ∧ may_talk alice bob ∧ may_talk bob alice ∧
  sess_fits alice ∧ sess_fits bob ∧ ids_fit alice ∧ ids_fit bob.
Proof.
  unfold link_ok, may_talk, sess_fits, ids_fit, ECONN_ID_LEN. cbn.
  split_and!; try done; try (left; reflexivity); lia.
Defined.

Lemma setup_establishes_call_witness :
  ∃ x, play_setup tx_ok tx_ok None None None None alice bob = Some x ∧
       in_call (end_a x) (end_b x).
Proof.
  destruct alice_bob_ok as (H1 & H2 & H3 & H4 & H5 & H6 & _).
  destruct (setup_establishes_call tx_ok tx_ok None None None None alice bob)
    as (x & Hx & Hc & _); try done. by exists x.
Defined.

Lemma collision_resolves_witness :
  ∃ a b, play_collision tx_ok tx_ok None None None None alice bob = Some (a, b) ∧
         in_call a b.
Proof.
  destruct alice_bob_ok as (H1 & H2 & H3 & H4 & H5 & H6 & H7 & H8).
  destruct (collision_resolves tx_ok tx_ok None None None None alice bob)
    as (a & b & Hx & Hc & _); try done. by exists a, b.
Defined.

(** The same two ends once the data channel is up. *)
Definition alice_up : econn :=
  {| alice with ec_state := ECONN_DATACHAN_ESTABLISHED; ec_sessid_remote := "Ui6E" |}.
Definition bob_up : econn :=
  {| bob with ec_state := ECONN_DATACHAN_ESTABLISHED; ec_sessid_remote := "4x12" |}.

Lemma hangup_ends_call_witness :
  ∃ x, play_hangup tx_ok tx_ok alice_up bob_up = Some x ∧
       ec_state (end_a x) = ECONN_TERMINATING ∧ ec_state (end_b x) = ECONN_TERMINATING.
Proof.
  destruct alice_bob_ok as (H1 & H2 & H3 & H4 & H5 & H6 & _).
  destruct (hangup_ends_call tx_ok tx_ok alice_up bob_up)
    as (x & Hx & Ha & Hb & _); try done. by exists x.
Defined.
