(* ===== verification/ConfPos.v ===== *)
(** * Positions in a conference ([src/conf_pos/conf_pos.c])

    Every client of a conference places the participants by itself; the order
    must therefore be a function of who takes part, not of the order in which
    somebody joined.  The position of a participant is a hash of the user
    identifier, and the list is sorted by it. *)

From S2P Require Import Prelude LibRe.

(** [struct conf_part] *)
Record conf_part := {
  cp_uid : string;
  cp_pos : Z;
}.

#[export] Instance conf_part_eq_dec : EqDecision conf_part.
Proof. solve_decision. Defined.

Section ConfPos.
Context `{LibRe}.

(** [conf_pos_calc] *)
Definition conf_pos_calc (uid : string) : Z := hash_joaat_str_ci uid.

(** [conf_part_add]: the error code and the list afterwards; [mem_ok] tells
    whether the allocation succeeds. *)
Definition conf_part_add (mem_ok : bool) (partl : list conf_part) (userid : option string)
    : Z * list conf_part :=
  if negb mem_ok then (ENOMEM, partl) else
  match userid with
  | None => (EINVAL, partl)
  | Some uid => (0, partl ++ [{| cp_uid := uid; cp_pos := conf_pos_calc uid |}])
  end.

(** [conf_part_find] *)
Definition conf_part_find (partl : list conf_part) (userid : option string)
    : option conf_part :=
  match userid with
  | None => None
  | Some uid => List.find (λ part, str_casecmp (Some (cp_uid part)) (Some uid) =? 0) partl
  end.

(** [sort_handler] *)
Definition pos_sort_handler (cp1 cp2 : conf_part) : bool := cp_pos cp2 <=? cp_pos cp1.

(** [conf_pos_sort] *)
Definition conf_pos_sort (partl : list conf_part) : list conf_part :=
  match partl with
  | [] => []
  | [cp] => [{| cp with cp_pos := 0 |}]
  | _ =>
    list_sort pos_sort_handler
      ((λ cp, {| cp with cp_pos := conf_pos_calc (cp_uid cp) |}) <$> partl)
  end.

(** ** Properties *)

Context {LS : LibReSpec}.

(** A participant that was added is found, under any spelling of its
    identifier in upper or lower case, at the position of its hash; adding does
    not hide another participant. *)
Theorem conf_part_add_find partl uid uid' :
  conf_part_find partl (Some uid) = None → ci_eq (Some uid) (Some uid') →
  let r := conf_part_add true partl (Some uid) in
  r.1 = 0 ∧
  conf_part_find r.2 (Some uid') = Some {| cp_uid := uid; cp_pos := conf_pos_calc uid' |} ∧
  (∀ v p, conf_part_find partl v = Some p → conf_part_find r.2 v = Some p).
Proof.
  intros Hno Hci. cbn zeta. split; [done|]. cbn [conf_part_add negb snd].
  assert (Happ : ∀ l1 l2 v, List.find (λ part, str_casecmp (Some (cp_uid part)) (Some v) =? 0) (l1 ++ l2)
    = match List.find (λ part, str_casecmp (Some (cp_uid part)) (Some v) =? 0) l1 with
      | Some p => Some p
      | None => List.find (λ part, str_casecmp (Some (cp_uid part)) (Some v) =? 0) l2 end).
  { intros l1 l2 v. induction l1 as [|p l1 IH]; cbn; [done|]. by destruct (_ =? 0). }
  unfold conf_part_find in *. split.
  - rewrite Happ. rewrite (find_ext_in _ (λ part, str_casecmp (Some (cp_uid part)) (Some uid) =? 0)).
    + rewrite Hno. cbn. unfold ci_eq in Hci. rewrite Hci. cbn. unfold conf_pos_calc.
      by rewrite (hash_joaat_ci uid uid').
    + intros part _. exact (strcaseeq_proper _ _ (reflexivity _) _ _ (symmetry Hci)).
  - intros [v|] p Hp; [|done]. by rewrite Happ, Hp.
Qed.

Lemma sorted_perm_unique (l1 l2 : list conf_part) :
  l1 ≡ₚ l2 → NoDup (cp_pos <$> l1) →
  StronglySorted (λ x y, pos_sort_handler x y = true) l1 →
  StronglySorted (λ x y, pos_sort_handler x y = true) l2 → l1 = l2.
Proof.
  revert l2. induction l1 as [|x l1 IH]; intros l2 Hp Hn Hs1 Hs2.
  { symmetry. by apply Permutation_nil. }
  destruct l2 as [|y l2]; [by apply Permutation_nil_r in Hp|].
  inversion_clear Hs1 as [|? ? Hs1' Hx]. inversion_clear Hs2 as [|? ? Hs2' Hy].
  assert (x = y) as <-.
  { destruct (decide (x = y)) as [|Hne]; [done|].
    assert (Hxin : x ∈ y :: l2) by (rewrite <- Hp; by left).
    assert (Hyin : y ∈ x :: l1) by (rewrite Hp; by left).
    apply elem_of_cons in Hxin as [|Hxin]; [done|].
    apply elem_of_cons in Hyin as [->|Hyin]; [done|].
    rewrite Forall_forall in Hx, Hy. specialize (Hx y Hyin). specialize (Hy x Hxin).
    unfold pos_sort_handler in Hx, Hy. apply Z.leb_le in Hx, Hy.
    rewrite fmap_cons in Hn. apply NoDup_cons in Hn as [Hn _]. destruct Hn.
    replace (cp_pos x) with (cp_pos y) by lia. by apply list_elem_of_fmap_2. }
  f_equal. apply IH; try done; [by apply Permutation_cons_inv in Hp|].
  rewrite fmap_cons in Hn. by apply NoDup_cons in Hn as [_ Hn].
Qed.

(** The participants with their positions computed. *)
Definition placed (partl : list conf_part) : list conf_part :=
  (λ uid, {| cp_uid := uid; cp_pos := conf_pos_calc uid |}) <$> (cp_uid <$> partl).

Lemma conf_pos_sort_long partl :
  (2 ≤ length partl)%nat → conf_pos_sort partl = list_sort pos_sort_handler (placed partl).
Proof.
  intros Hl. destruct partl as [|p [|q partl]]; cbn in Hl; [lia..|].
  unfold conf_pos_sort, placed. by rewrite <- list_fmap_compose.
Qed.

Lemma pos_sort_sorted l :
  StronglySorted (λ x y, pos_sort_handler x y = true) (list_sort pos_sort_handler l).
Proof.
  apply list_sort_sorted; unfold pos_sort_handler.
  - intros x y. rewrite !Z.leb_le. lia.
  - intros x y z. rewrite !Z.leb_le. lia.
Qed.

(** the order of the participants depends only on who takes part: two
    clients that know the same participants, in any order and with whatever
    positions before, sort them into the same list, provided no two identifiers
    have the same hash.  Nobody is lost or added, and the positions decrease. *)
Theorem conf_pos_sort_deterministic l1 l2 :
  cp_uid <$> l1 ≡ₚ cp_uid <$> l2 → NoDup (conf_pos_calc <$> (cp_uid <$> l1)) →
  conf_pos_sort l1 = conf_pos_sort l2 ∧
  cp_uid <$> conf_pos_sort l1 ≡ₚ cp_uid <$> l1 ∧
  StronglySorted (λ p q, cp_pos q <= cp_pos p) (conf_pos_sort l1).
Proof.
  intros Hp Hn. assert (Hlen : length l1 = length l2).
  { apply Permutation_length in Hp. by rewrite !length_fmap in Hp. }
  destruct (decide (length l1 < 2)%nat) as [Hs|Hl].
  { destruct l1 as [|x [|]], l2 as [|y [|]]; cbn in *; try lia; [by repeat constructor|].
    apply Permutation_singleton_inj in Hp. split; [by f_equal; destruct x, y; cbn in *; subst|].
    split; [done|]. repeat constructor. }
  rewrite !conf_pos_sort_long by lia. split; [|split].
  - apply sorted_perm_unique; [| |apply pos_sort_sorted..].
    + rewrite !list_sort_perm. unfold placed. by rewrite Hp.
    + rewrite list_sort_perm. unfold placed. by rewrite <- list_fmap_compose.
  - rewrite list_sort_perm. unfold placed. rewrite <- list_fmap_compose.
    by rewrite (list_fmap_ext _ id), list_fmap_id.
  - pose proof (pos_sort_sorted (placed l1)) as Hs.
    induction Hs as [|x xs _ IH Hx]; constructor; [done|].
    eapply Forall_impl; [exact Hx|]. intros y. apply Z.leb_le.
Qed.
End ConfPos.

(** ** Concrete inputs *)

Section Witness.
Import LibReRef.

Lemma conf_part_add_find_witness :
  let r := conf_part_add true [] (Some "Anna"%string) in
  r.1 = 0 ∧
  conf_part_find r.2 (Some "anna"%string)
  = Some {| cp_uid := "Anna"%string; cp_pos := conf_pos_calc "anna" |} ∧
  (∀ v p, conf_part_find [] v = Some p → conf_part_find r.2 v = Some p).
Proof. apply conf_part_add_find; reflexivity. Defined.

Lemma conf_pos_sort_deterministic_witness :
  let a := {| cp_uid := "a"%string; cp_pos := 3 |} in
  let b := {| cp_uid := "b"%string; cp_pos := 4 |} in
  conf_pos_sort [a; b] = conf_pos_sort [b; a] ∧
  cp_uid <$> conf_pos_sort [a; b] ≡ₚ cp_uid <$> [a; b] ∧
  StronglySorted (λ p q, cp_pos q <= cp_pos p) (conf_pos_sort [a; b]).
Proof.
  apply conf_pos_sort_deterministic; [apply perm_swap|].
  apply (bool_decide_unpack _). reflexivity.
Defined.
End Witness.
