(* ===== verification/Dict.v ===== *)
(** * Dictionaries ([src/dict/dict.c])

    A dictionary is libre's hash table of 32 buckets under a hash that ignores case,
    with keys compared by case.  A bucket is a list in the order of insertion.  The
    values are reference counted: an entry holds one reference, which [dict_remove]
    and [dict_flush] give back; the model is about what is found where. *)

From stdpp Require Import gmap.
From S2P Require Import Prelude LibRe.

#[local] Open Scope Z_scope.
#[local] Open Scope list_scope.

Definition EADDRINUSE : Z := 98.
Definition BUCKETS : nat := 32.

(** [struct dict]: the buckets of its hash table. *)
Abbreviation dict V := (list (list (string * V))).

Section Dict.
Context `{LibRe} {V : Type}.
Implicit Types (d : dict V) (key : string).

(** [hash_list(h, key)]: the bucket of a key. *)
Definition bucket (key : string) : nat := Z.to_nat (hash_joaat_str_ci key mod Z.of_nat BUCKETS).

(** [dict_alloc]; [mem] tells whether the allocations succeed. *)
Definition dict_alloc (mem : bool) : Z + dict V :=
  if mem then inr (replicate BUCKETS []) else inl ENOMEM.

(** [hmap_handler], [entry_lookup] *)
Definition hmap_handler key (entry : string * V) : bool := String.eqb entry.1 key.
Definition entry_lookup d key : option (string * V) :=
  List.find (hmap_handler key) (default [] (d !! bucket key)).

(** [dict_lookup] *)
Definition dict_lookup d key : option V := snd <$> entry_lookup d key.

(** [dict_add]; [mem] tells whether the allocation of the entry succeeds, the copy of
    the key is taken to succeed with it. *)
Definition dict_add (mem : bool) d key (val : V) : Z * dict V :=
  match entry_lookup d key with
  | Some _ => (EADDRINUSE, d)
  | None =>
    if mem then (0, alter (λ b, b ++ [(key, val)]) (bucket key) d) else (ENOMEM, d)
  end.

(** [mem_deref] of the entry found by [entry_lookup] unlinks it. *)
Fixpoint remove_first (f : string * V → bool) (l : list (string * V)) : list (string * V) :=
  match l with
  | [] => []
  | x :: l => if f x then l else x :: remove_first f l
  end.

(** [dict_remove] *)
Definition dict_remove d key : dict V :=
  match entry_lookup d key with
  | Some _ => alter (remove_first (hmap_handler key)) (bucket key) d
  | None => d
  end.

(** [dict_apply]: the entries in the order of the table until the handler stops;
    the value where it stopped. *)
Definition dict_entries d : list (string * V) := concat d.
Definition dict_apply d (h : string → V → bool) : option V :=
  snd <$> List.find (λ e, h e.1 e.2) (dict_entries d).

(** [dict_flush], [dict_count] *)
Definition dict_flush d : dict V := (λ _, []) <$> d.
Definition dict_count d : nat := sum_list (length <$> d).

(** Writing through the pointer that [dict_lookup] returns. *)
Definition dict_alter (f : V → V) key d : dict V :=
  alter (λ b, (λ e : string * V, if hmap_handler key e then (e.1, f e.2) else e) <$> b) (bucket key) d.

(** ** The map a dictionary stands for *)

(** Every entry is in the bucket of its key, and there is one for each key. *)
Record dict_ok d : Prop := {
  dk_buckets : length d = BUCKETS;
  dk_place : ∀ i b e, d !! i = Some b → e ∈ b → bucket e.1 = i;
  dk_keys : ∀ i b, d !! i = Some b → NoDup b.*1;
}.

Definition dict_map d : gmap string V := list_to_map (dict_entries d).

Lemma bucket_lt key : (bucket key < BUCKETS)%nat.
Proof.
  unfold bucket, BUCKETS. pose proof (Z.mod_pos_bound (hash_joaat_str_ci key) 32). lia.
Qed.

Lemma find_key_elem (l : list (string * V)) key v :
  NoDup l.*1 → (List.find (hmap_handler key) l = Some (key, v) ↔ (key, v) ∈ l).
Proof.
  intros Hn. split.
  - intros E. by apply find_Some_split in E as [_ ?].
  - induction l as [|[k w] l IH]; [by intros ?%elem_of_nil|].
    rewrite fmap_cons in Hn. apply NoDup_cons in Hn as [Hk Hn]. cbn. unfold hmap_handler at 1. cbn.
    destruct (String.eqb_spec k key) as [->|Hne]; intros [E|Hin]%elem_of_cons; simplify_eq; try done.
    + destruct Hk. apply list_elem_of_fmap. by exists (key, v).
    + by apply IH.
Qed.

Lemma entries_elem d e : e ∈ dict_entries d ↔ ∃ i b, d !! i = Some b ∧ e ∈ b.
Proof.
  unfold dict_entries. split.
  - intros He. apply list_elem_of_In, in_concat in He as (b & Hb & He).
    apply list_elem_of_In, list_elem_of_lookup in Hb as [i Hi]. exists i, b.
    split; [done|]. by apply list_elem_of_In.
  - intros (i & b & Hi & He). apply list_elem_of_In, in_concat. exists b.
    split; apply list_elem_of_In; [|done]. by eapply list_elem_of_lookup_2.
Qed.

Lemma entries_nodup d : dict_ok d → NoDup (dict_entries d).*1.
Proof.
  intros [_ Hp Hk]. unfold dict_entries.
  assert (∀ n, (∀ i b e, d !! i = Some b → e ∈ b → bucket e.1 = (n + i)%nat) →
          NoDup (concat d).*1) as Hgen; [|by apply (Hgen 0%nat)].
  clear Hp. induction d as [|b d IH]; intros n Hp; cbn; [by constructor|].
  rewrite fmap_app. apply NoDup_app. split; [by apply (Hk 0%nat)|]. split.
  - intros k (e & -> & He)%list_elem_of_fmap (e' & E & He')%list_elem_of_fmap.
    apply entries_elem in He' as (i & b' & Hi & He').
    pose proof (Hp 0%nat b e eq_refl He) as E0. pose proof (Hp (S i) b' e' Hi He') as E1.
    rewrite E in E0. lia.
  - apply (IH (λ i b', Hk (S i) b') (S n)). intros i b' e Hi He.
    rewrite (Hp (S i) b' e Hi He). lia.
Qed.

Lemma map_lookup d key v : dict_ok d → (dict_map d !! key = Some v ↔ (key, v) ∈ dict_entries d).
Proof. intros Hd. unfold dict_map. symmetry. apply elem_of_list_to_map. by apply entries_nodup. Qed.

Lemma entries_bucket d key v :
  dict_ok d → (key, v) ∈ dict_entries d ↔ (key, v) ∈ default [] (d !! bucket key).
Proof.
  intros [Hl Hp _]. rewrite entries_elem. split.
  - intros (i & b & Hi & He). pose proof (Hp i b _ Hi He) as E. cbn in E. by rewrite E, Hi.
  - destruct (d !! bucket key) as [b|] eqn:Hb; cbn; [|by intros ?%elem_of_nil]. eauto.
Qed.

Lemma bucket_some d key : dict_ok d → is_Some (d !! bucket key).
Proof. intros Hd. apply lookup_lt_is_Some. rewrite (dk_buckets d Hd). apply bucket_lt. Qed.

(** Looking up is looking up in the map. *)
Lemma dict_lookup_map d key : dict_ok d → dict_lookup d key = dict_map d !! key.
Proof.
  intros Hd. apply option_eq. intros v. rewrite map_lookup, entries_bucket by done.
  unfold dict_lookup, entry_lookup. destruct (bucket_some d key Hd) as [b Hb]. rewrite Hb. cbn.
  pose proof (dk_keys d Hd _ _ Hb) as Hn. rewrite <- (find_key_elem b key v Hn). split.
  - intros ([k w] & E & [= ->])%fmap_Some. rewrite E. apply find_Some_split in E as [E _].
    unfold hmap_handler in E. apply String.eqb_eq in E. cbn in E. by subst.
  - by intros ->.
Qed.
Lemma entry_lookup_none d key : dict_ok d → entry_lookup d key = None ↔ dict_map d !! key = None.
Proof. intros Hd. rewrite <- dict_lookup_map by done. unfold dict_lookup. by rewrite fmap_None. Qed.


(** A change of one bucket. *)
Lemma alter_ok d key f :
  dict_ok d →
  (∀ b, d !! bucket key = Some b →
    NoDup (f b).*1 ∧ ∀ e, e ∈ f b → e ∈ b ∨ bucket e.1 = bucket key) →
  dict_ok (alter f (bucket key) d).
Proof.
  intros [Hl Hp Hk] Hf. split.
  - by rewrite length_alter.
  - intros i b e. rewrite list_lookup_alter. case_decide as E; [|by apply Hp].
    subst i. intros (b' & Hb & ->)%fmap_Some He.
    destruct (Hf b' Hb) as [_ Hin]. destruct (Hin e He) as [He'|]; [by eapply Hp|done].
  - intros i b. rewrite list_lookup_alter. case_decide as E; [|by apply Hk].
    subst i. intros (b' & Hb & ->)%fmap_Some. by apply (Hf b' Hb).
Qed.

(** The map after a change of one bucket, from what it does to the entries there. *)
Lemma alter_map d key f (m : gmap string V) :
  dict_ok d → dict_ok (alter f (bucket key) d) →
  (∀ k v, bucket k = bucket key →
    (k, v) ∈ f (default [] (d !! bucket key)) ↔ m !! k = Some v) →
  (∀ k, bucket k ≠ bucket key → m !! k = dict_map d !! k) →
  dict_map (alter f (bucket key) d) = m.
Proof.
  intros Hd Hd' Hin Hout. apply map_eq. intros k. apply option_eq. intros v.
  rewrite map_lookup, entries_bucket, list_lookup_alter by done. case_decide as E.
  - destruct (bucket_some d key Hd) as [b Hb]. rewrite Hb in Hin |- *. cbn in *.
    by apply Hin.
  - rewrite Hout by done. by rewrite map_lookup, entries_bucket.
Qed.

Lemma remove_first_elem l key k v :
  NoDup l.*1 → (k, v) ∈ remove_first (hmap_handler key) l ↔ (k, v) ∈ l ∧ k ≠ key.
Proof.
  induction l as [|[k' w] l IH]; intros Hn; cbn; [set_solver|].
  rewrite fmap_cons in Hn. apply NoDup_cons in Hn as [Hk Hn]. unfold hmap_handler at 1. cbn in Hk |- *.
  assert (∀ w', (k', w') ∉ l) as Hk'.
  { intros w' Hw. apply Hk, list_elem_of_fmap. by exists (k', w'). }
  destruct (String.eqb_spec k' key) as [<-|Hne].
  - split.
    + intros Hv. split; [by right|]. intros ->. by apply (Hk' v).
    + intros [Hv Hkk]. apply elem_of_cons in Hv as [E|]; [|done]. injection E as E _. done.
  - rewrite !elem_of_cons, IH by done. split; [|tauto].
    intros [E|?]; [|tauto]. injection E as E1 E2. subst. tauto.
Qed.
Lemma remove_first_sub l f : remove_first f l `sublist_of` l.
Proof. induction l as [|x l IH]; cbn; [done|]. case_match; by constructor. Qed.
Lemma remove_first_keys l f : (remove_first f l).*1 `sublist_of` l.*1.
Proof. induction l as [|x l IH]; cbn; [done|]. case_match; by constructor. Qed.

(** The operations, on the map. *)
Lemma dict_add_map mem d key val :
  dict_ok d →
  let r := dict_add mem d key val in
  dict_ok r.2
  ∧ match dict_map d !! key with
    | Some _ => r = (EADDRINUSE, d)
    | None => if mem then r.1 = 0 ∧ dict_map r.2 = <[key := val]> (dict_map d)
              else r = (ENOMEM, d)
    end.
Proof.
  intros Hd. unfold dict_add. destruct (entry_lookup d key) eqn:He.
  { destruct (dict_map d !! key) eqn:E; [done|]. apply entry_lookup_none in E; [congruence|done]. }
  apply entry_lookup_none in He; [|done]. rewrite He. destruct mem; [|done].
  destruct (bucket_some d key Hd) as [b Hb]. cbn [fst snd].
  assert (∀ w, (key, w) ∉ b) as Hno.
  { intros w Hw. assert (dict_map d !! key = Some w) as E; [|congruence].
    rewrite map_lookup, entries_bucket, Hb by done. done. }
  assert (dict_ok (alter (λ b, b ++ [(key, val)]) (bucket key) d)) as Hd'.
  { apply alter_ok; [done|]. intros b' Hb'. rewrite Hb in Hb'. injection Hb' as <-. split.
    - rewrite fmap_app. apply NoDup_app. split; [by apply (dk_keys d Hd _ _ Hb)|]. split; [|apply NoDup_singleton].
      intros k ([k' w] & -> & Hw)%list_elem_of_fmap Hin. apply list_elem_of_singleton in Hin. cbn in Hin.
      subst. by apply (Hno w).
    - intros e [?|Hin%list_elem_of_singleton]%elem_of_app; [by left|right]. by subst. }
  split; [done|]. split; [done|]. apply alter_map; [done..| |].
  - intros k v Hk. rewrite Hb. cbn. rewrite elem_of_app, list_elem_of_singleton.
    destruct (decide (k = key)) as [->|Hne].
    + rewrite lookup_insert_eq. split; [|intros [= ->]; by right].
      intros [Hin|[= ->]]; [by destruct (Hno v)|done].
    + rewrite lookup_insert_ne, map_lookup, entries_bucket, Hk, Hb by done. cbn.
      split; [|by left]. intros [?|E]; [done|]. by simplify_eq.
  - intros k Hk. rewrite lookup_insert_ne; [done|]. by intros ->.
Qed.

Lemma dict_remove_map d key :
  dict_ok d → dict_ok (dict_remove d key) ∧ dict_map (dict_remove d key) = delete key (dict_map d).
Proof.
  intros Hd. unfold dict_remove. destruct (entry_lookup d key) as [e|] eqn:He.
  2:{ apply entry_lookup_none in He; [|done]. by rewrite delete_id. }
  destruct (bucket_some d key Hd) as [b Hb]. pose proof (dk_keys d Hd _ _ Hb) as Hn.
  assert (dict_ok (alter (remove_first (hmap_handler key)) (bucket key) d)) as Hd'.
  { apply alter_ok; [done|]. intros b' Hb'. rewrite Hb in Hb'. injection Hb' as <-.
    split; [eapply sublist_NoDup; [done|apply remove_first_keys]|].
    intros e' Hin. left. eapply elem_of_sublist; [done|apply remove_first_sub]. }
  split; [done|]. apply alter_map; [done..| |].
  - intros k v Hk. rewrite Hb. cbn. rewrite remove_first_elem by done.
    destruct (decide (k = key)) as [->|Hne].
    + rewrite lookup_delete_eq. naive_solver.
    + rewrite lookup_delete_ne, map_lookup, entries_bucket, Hk, Hb by done. naive_solver.
  - intros k Hk. rewrite lookup_delete_ne; [done|]. by intros ->.
Qed.

Lemma dict_flush_map d : dict_ok d → dict_ok (dict_flush d) ∧ dict_map (dict_flush d) = ∅.
Proof.
  intros [Hl _ _].
  assert (∀ i b, dict_flush d !! i = Some b → b = []) as Hr.
  { intros i b Hi. unfold dict_flush in Hi. rewrite list_lookup_fmap in Hi.
    by apply fmap_Some in Hi as (? & _ & ->). }
  assert (dict_ok (dict_flush d)) as Hd'.
  { split.
    - unfold dict_flush. by rewrite length_fmap.
    - intros i b e Hi He. rewrite (Hr i b Hi) in He. by apply elem_of_nil in He.
    - intros i b Hi. rewrite (Hr i b Hi). constructor. }
  split; [done|]. apply map_eq. intros k. rewrite lookup_empty. apply eq_None_not_Some.
  intros [v Hv]. apply map_lookup in Hv; [|done]. apply entries_elem in Hv as (i & b & Hi & He).
  rewrite (Hr i b Hi) in He. by apply elem_of_nil in He.
Qed.

Lemma dict_count_map d : dict_ok d → dict_count d = size (dict_map d).
Proof.
  intros Hd. unfold dict_map. rewrite map_size_list_to_map by (by apply entries_nodup).
  unfold dict_count, dict_entries. clear Hd. induction d as [|b d IH]; cbn; [done|].
  by rewrite length_app, IH.
Qed.

Lemma dict_alloc_map : ∃ d, dict_alloc true = inr d ∧ dict_ok d ∧ dict_map d = ∅.
Proof.
  exists (replicate BUCKETS []). split; [done|].
  assert (∀ i (b : list (string * V)), replicate BUCKETS [] !! i = Some b → b = []) as Hr.
  { intros i b Hi. by apply lookup_replicate in Hi as [-> _]. }
  assert (dict_ok (replicate BUCKETS [])) as Hd.
  { split; [done| |].
    - intros i b e Hi He. rewrite (Hr i b Hi) in He. by apply elem_of_nil in He.
    - intros i b Hi. rewrite (Hr i b Hi). constructor. }
  split; [done|]. reflexivity.
Qed.

(** ** Refinement *)

Inductive dict_op :=
| DictAdd (mem : bool) (key : string) (val : V)
| DictRemove (key : string)
| DictFlush.

Definition dict_exec (o : dict_op) d : Z * dict V :=
  match o with
  | DictAdd mem key val => dict_add mem d key val
  | DictRemove key => (0, dict_remove d key)
  | DictFlush => (0, dict_flush d)
  end.

(** The same on a map. *)
Definition map_exec (o : dict_op) (m : gmap string V) : Z * gmap string V :=
  match o with
  | DictAdd mem key val =>
    if bool_decide (is_Some (m !! key)) then (EADDRINUSE, m)
    else if mem then (0, <[key := val]> m) else (ENOMEM, m)
  | DictRemove key => (0, delete key m)
  | DictFlush => (0, ∅)
  end.

(** The results of a sequence of operations and what they leave. *)
Fixpoint run_ops {S} (exec : dict_op → S → Z * S) (os : list dict_op) (s : S) : list Z * S :=
  match os with
  | [] => ([], s)
  | o :: os => let r := exec o s in let r' := run_ops exec os r.2 in (r.1 :: r'.1, r'.2)
  end.

Lemma dict_exec_map o d :
  dict_ok d →
  dict_ok (dict_exec o d).2
  ∧ map_exec o (dict_map d) = ((dict_exec o d).1, dict_map (dict_exec o d).2).
Proof.
  intros Hd. destruct o; cbn [dict_exec map_exec fst snd].
  - destruct (dict_add_map mem d key val Hd) as [Hok Hr]. split; [done|].
    destruct (dict_map d !! key).
    { rewrite bool_decide_true by done. by rewrite Hr. }
    rewrite bool_decide_false by (by intros [? ?]). destruct mem.
    + destruct Hr as [-> ->]. done.
    + by rewrite Hr.
  - destruct (dict_remove_map d key Hd) as [? ->]. done.
  - destruct (dict_flush_map d Hd) as [? ->]. done.
Qed.

(** C5: A dictionary is a map from keys to values: after every sequence of
    operations on a new dictionary, with allocations that may fail, it returned the
    errors that the map explains, a key has the value the map has, whatever bucket
    it shares with others, and the number of entries is that of the map. *)
Theorem dict_refines_map d0 os :
  dict_alloc true = inr d0 →
  let r := run_ops dict_exec os d0 in
  let s := run_ops map_exec os ∅ in
  r.1 = s.1 ∧ (∀ key, dict_lookup r.2 key = s.2 !! key) ∧ dict_count r.2 = size s.2.
Proof.
  destruct dict_alloc_map as (d & E & Hd & Hm). intros E0. rewrite E in E0. injection E0 as <-.
  cbv zeta.
  assert (∀ d, dict_ok d → let r := run_ops dict_exec os d in
            dict_ok r.2 ∧ run_ops map_exec os (dict_map d) = (r.1, dict_map r.2)) as Hrun.
  { clear. induction os as [|o os IH]; intros d Hd; [done|]. cbn [run_ops].
    destruct (dict_exec_map o d Hd) as [Hok ->]. cbn [fst snd].
    destruct (IH _ Hok) as [? ->]. done. }
  destruct (Hrun d Hd) as [Hok Hr]. rewrite Hm in Hr. rewrite Hr. cbn [fst snd].
  split; [done|]. split; [|by apply dict_count_map]. intros key. by apply dict_lookup_map.
Qed.

(** What the entries satisfy after a value was written. *)
Lemma dict_alter_map f key d :
  dict_ok d →
  dict_ok (dict_alter f key d) ∧ dict_map (dict_alter f key d) = alter f key (dict_map d).
Proof.
  intros Hd. unfold dict_alter.
  set (g := λ e : string * V, if hmap_handler key e then (e.1, f e.2) else e).
  assert (∀ e, (g e).1 = e.1) as Hg by (intros [k v]; unfold g; by case_match).
  destruct (bucket_some d key Hd) as [b Hb]. pose proof (dk_keys d Hd _ _ Hb) as Hn.
  assert (dict_ok (alter (fmap g) (bucket key) d)) as Hd'.
  { apply alter_ok; [done|]. intros b' Hb'. rewrite Hb in Hb'. injection Hb' as <-. split.
    - rewrite <- list_fmap_compose. by rewrite (list_fmap_ext _ fst) by (intros; apply Hg).
    - intros e (e' & -> & He)%list_elem_of_fmap. right. rewrite Hg.
      by apply (dk_place d Hd _ b). }
  split; [done|]. apply alter_map; [done..| |].
  - intros k v Hk. rewrite Hb. cbn. rewrite list_elem_of_fmap.
    destruct (decide (k = key)) as [->|Hne].
    + rewrite lookup_alter_eq, fmap_Some. setoid_rewrite map_lookup; [|done].
      setoid_rewrite entries_bucket; [|done]. rewrite Hb. cbn. split.
      * intros ([k w] & E & He). pose proof (Hg (k, w)) as E1. rewrite <- E in E1. cbn in E1. subst k.
        unfold g, hmap_handler in E. cbn in E. rewrite String.eqb_refl in E. injection E as ->. eauto.
      * intros (w & Hw & ->). exists (key, w). split; [|done]. unfold g, hmap_handler. cbn.
        by rewrite String.eqb_refl.
    + rewrite lookup_alter_ne, map_lookup, entries_bucket, Hk, Hb by done. cbn. split.
      * intros ([k' w] & E & He). pose proof (Hg (k', w)) as E1. rewrite <- E in E1. cbn in E1. subst k'.
        unfold g, hmap_handler in E. cbn in E. destruct (String.eqb_spec k key); [done|]. by injection E as ->.
      * intros He. exists (k, v). split; [|done]. unfold g, hmap_handler. cbn.
        by destruct (String.eqb_spec k key).
  - intros k Hk. rewrite lookup_alter_ne; [done|]. by intros ->.
Qed.
End Dict.

(** A dictionary in which two keys that differ in case share a bucket. *)
Lemma dict_refines_map_witness :
  let os := [DictAdd true "A.1" 1; DictAdd true "a.1" 2; DictAdd false "b.1" 3;
             DictAdd true "A.1" 4; DictRemove "A.1"] in
  let r := run_ops (dict_exec (H := LibReRef.libre)) os (replicate BUCKETS []) in
  let s := run_ops map_exec os ∅ in
  r.1 = s.1 ∧ (∀ key, dict_lookup (H := LibReRef.libre) r.2 key = s.2 !! key) ∧ dict_count r.2 = size s.2.
Proof. apply (dict_refines_map (H := LibReRef.libre) (V := Z)). reflexivity. Defined.
