(* ===== verification/ConfMember.v ===== *)
(** * Members of a media flow ([src/conf_member/conf_member.c])

    The members whose streams a flow decodes: found by client, by the label of
    their media section or by the SSRC of a stream, and with an audio level that
    decays when they stop to speak.  The flow itself is an opaque pointer. *)

From S2P Require Import Prelude LibRe.


(** [struct conf_member] *)
Record conf_member := {
  cm_userid : string;
  cm_clientid : string;
  cm_userid_hash : string;
  cm_ssrca : Z;
  cm_ssrcv : Z;
  cm_mida : Z;
  cm_midv : Z;
  cm_cname : string;
  cm_msid : string;
  cm_label : string;
  cm_active : bool;
  cm_flow : Z;
  cm_audio_level : Z;
  cm_audio_level_smooth : Z;
  cm_audio_frames : Z;
  cm_video_frames : Z;
  cm_last_ts : Z;
}.

(** [conf_member_alloc]: the error code, the new member and the list
    afterwards.  Every string is copied; a [NULL] one makes the copy fail. *)
Definition conf_member_alloc (mem_ok : bool) (membl : option (list conf_member)) (flow : Z)
    (userid clientid userid_hash : option string) (ssrca ssrcv : Z) (label : option string)
    : Z * option conf_member * option (list conf_member) :=
  if negb mem_ok then (ENOMEM, None, membl) else
  match userid, clientid, userid_hash, label with
  | Some userid, Some clientid, Some userid_hash, Some label =>
    let cm := {|
      cm_userid := userid; cm_clientid := clientid; cm_userid_hash := userid_hash;
      cm_ssrca := ssrca; cm_ssrcv := ssrcv; cm_mida := 0; cm_midv := 0;
      cm_cname := label; cm_msid := label; cm_label := label;
      cm_active := true; cm_flow := flow;
      cm_audio_level := 0; cm_audio_level_smooth := 0;
      cm_audio_frames := 0; cm_video_frames := 0; cm_last_ts := 0 |} in
    (0, Some cm, (λ l, l ++ [cm]) <$> membl)
  | _, _, _, _ => (EINVAL, None, membl)
  end.

(** The loop all lookups share: [cm] is the member visited last and [found]
    whether it passed the test; the walk stops at the first that does. *)
Fixpoint find_loop (test : conf_member → bool) (found : bool) (cm : option conf_member)
    (l : list conf_member) : option conf_member :=
  match l with
  | [] => if found then cm else None
  | c :: l => if found then cm else find_loop test (test c) (Some c) l
  end.

(** [streq] *)
Definition streq (a b : string) : bool := bool_decide (a = b).

(** [conf_member_find_by_userclient] *)
Definition conf_member_find_by_userclient (membl : list conf_member) (userid clientid : string)
    : option conf_member :=
  find_loop (λ cm, streq (cm_userid cm) userid && streq (cm_clientid cm) clientid)
    false None membl.

(** [conf_member_find_active_by_userclient] *)
Definition conf_member_find_active_by_userclient (membl : list conf_member)
    (userid clientid : string) : option conf_member :=
  find_loop (λ cm, streq (cm_userid cm) userid && streq (cm_clientid cm) clientid
                   && cm_active cm) false None membl.

(** [conf_member_find_by_label] *)
Definition conf_member_find_by_label (membl : list conf_member) (label : string)
    : option conf_member :=
  find_loop (λ cm, streq (cm_label cm) label && cm_active cm) false None membl.

(** [find_ssrc] *)
Definition find_ssrc (membl : list conf_member) (ssrc : Z) (audio : bool)
    : option conf_member :=
  find_loop (λ cm, (if audio then ssrc =? cm_ssrca cm else ssrc =? cm_ssrcv cm)
                   && cm_active cm) false None membl.

(** [conf_member_find_by_ssrca] *)
Definition conf_member_find_by_ssrca (membl : list conf_member) (ssrc : Z) :=
  find_ssrc membl ssrc true.

(** [conf_member_find_by_ssrcv] *)
Definition conf_member_find_by_ssrcv (membl : list conf_member) (ssrc : Z) :=
  find_ssrc membl ssrc false.


(** ** Properties *)

Lemma find_loop_find test l : ∀ cm, find_loop test false cm l = List.find test l.
Proof.
  assert (Hf : ∀ c l, find_loop test true (Some c) l = Some c) by (intros c []; done).
  induction l as [|c l IH]; intros cm; cbn; [done|].
  destruct (test c) eqn:E; [apply Hf|apply IH].
Qed.

(** The lookups, written as loops that carry the last member visited, all
    return the first member that matches and nothing when none does; those for
    streams and labels never return a member that is not active. *)
Theorem conf_member_lookups membl uid cid label ssrc :
  conf_member_find_by_userclient membl uid cid =
    List.find (λ cm, bool_decide (cm_userid cm = uid ∧ cm_clientid cm = cid)) membl ∧
  conf_member_find_active_by_userclient membl uid cid =
    List.find (λ cm, bool_decide (cm_userid cm = uid ∧ cm_clientid cm = cid) && cm_active cm)
      membl ∧
  conf_member_find_by_label membl label =
    List.find (λ cm, bool_decide (cm_label cm = label) && cm_active cm) membl ∧
  conf_member_find_by_ssrca membl ssrc =
    List.find (λ cm, (cm_ssrca cm =? ssrc) && cm_active cm) membl ∧
  conf_member_find_by_ssrcv membl ssrc =
    List.find (λ cm, (cm_ssrcv cm =? ssrc) && cm_active cm) membl.
Proof.
  unfold conf_member_find_by_ssrca, conf_member_find_by_ssrcv, find_ssrc,
    conf_member_find_by_userclient, conf_member_find_active_by_userclient,
    conf_member_find_by_label, streq.
  rewrite !find_loop_find. split_and!; apply find_ext_in; intros cm _.
  - by rewrite bool_decide_and.
  - by rewrite bool_decide_and.
  - done.
  - by rewrite Z.eqb_sym.
  - by rewrite Z.eqb_sym.
Qed.









