(* ===== verification/UserHash.v ===== *)
(** * Hashed identifiers ([src/userlist/hash.c])

    The SFT server must not learn who takes part in a conference, so members
    are named by a salted hash: the first sixteen bytes of SHA-256 of the
    conference secret and the identifiers, in hexadecimal.  SHA-256 is
    libsodium's; its three calls are parameters.  A computation that would read
    outside an array is [None]. *)

From S2P Require Import Prelude LibRe.

Class Sodium := {
  sha_state : Type;
  crypto_hash_sha256_init : Z * sha_state;
  crypto_hash_sha256_update : sha_state → list Z → Z * sha_state;
  (** The return value and the contents of the output array. *)
  crypto_hash_sha256_final : sha_state → Z * list Z;
}.

Definition crypto_hash_sha256_BYTES : nat := 32.

(** What libsodium promises in every case: [crypto_hash_sha256_final] leaves
    a full array of bytes. *)
Class SodiumLen (S : Sodium) : Prop := {
  sha_final_length st :
    length (crypto_hash_sha256_final st).2 = crypto_hash_sha256_BYTES;
  sha_final_bytes st : bytes_ok (crypto_hash_sha256_final st).2;
}.

(** What it documents: the calls succeed, and the digest is a function of the
    concatenation of what was hashed. *)
Class SodiumSpec (S : Sodium) (sha_absorbed : sha_state → list Z → Prop)
    (sha256 : list Z → list Z) : Prop := {
  sha_init_ok :
    crypto_hash_sha256_init.1 = 0 ∧ sha_absorbed crypto_hash_sha256_init.2 [];
  sha_update_ok st l d :
    sha_absorbed st l →
    (crypto_hash_sha256_update st d).1 = 0 ∧
    sha_absorbed (crypto_hash_sha256_update st d).2 (l ++ d);
  sha_final_ok st l :
    sha_absorbed st l → crypto_hash_sha256_final st = (0, sha256 l);
}.

Definition hexstr : string := "0123456789abcdef".
Definition hlen : nat := 16.

(** [dest\[i * 2\] = hexstr\[hash\[i\] >> 4\]; dest\[i * 2 + 1\] = ...] *)
Definition hex_byte (b : Z) : option (list Ascii.ascii) :=
  c1 ← String.get (Z.to_nat (Z.shiftr b 4)) hexstr;
  c2 ← String.get (Z.to_nat (Z.land b 15)) hexstr;
  Some [c1; c2].

(** The loop over the first [n] bytes of [hash]. *)
Fixpoint hex_loop (n : nat) (hash : list Z) : option (list Ascii.ascii) :=
  match n with
  | O => Some []
  | S n =>
    b ← hash !! 0%nat;
    cs ← hex_byte b;
    rest ← hex_loop n (drop 1 hash);
    Some (cs ++ rest)
  end.

Section Hash.
Context `{Sodium}.

(** The calls after [init]: hash the pieces in order; on an error the code
    jumps to [out]. *)
Fixpoint sha_updates (st : sha_state) (ds : list (list Z)) : Z * sha_state :=
  match ds with
  | [] => (0, st)
  | d :: ds =>
    let '(err, st) := crypto_hash_sha256_update st d in
    if negb (err =? 0) then (err, st) else sha_updates st ds
  end.

(** The common body of [hash_conv] and [hash_user]: the error code and the new
    value of [*destid_hash], [None] when it is not written.  [mem_ok] tells
    whether [mem_zalloc] succeeds. *)
Definition hash_pieces (mem_ok : bool) (ds : list (list Z)) : option (Z * option string) :=
  let '(err, st) := crypto_hash_sha256_init in
  if negb (err =? 0) then Some (err, None) else
  let '(err, st) := sha_updates st ds in
  if negb (err =? 0) then Some (err, None) else
  let '(err, hash) := crypto_hash_sha256_final st in
  if negb (err =? 0) then Some (err, None) else
  if negb mem_ok then Some (ENOMEM, None) else
  dest ← hex_loop hlen hash;
  Some (0, Some (string_of_list_ascii dest)).

(** [hash_conv] *)
Definition hash_conv (mem_ok : bool) (secret : list Z) (convid : string)
    : option (Z * option string) :=
  hash_pieces mem_ok [secret; bytes_of_string convid].

(** [hash_user] *)
Definition hash_user (mem_ok : bool) (secret : list Z) (userid clientid : option string)
    : option (Z * option string) :=
  match userid, clientid with
  | Some u, Some c => hash_pieces mem_ok [secret; bytes_of_string u; bytes_of_string c]
  | _, _ => Some (EINVAL, None)
  end.
End Hash.

(** ** Properties *)

(** The value of a hexadecimal digit as [hexstr] writes it, and of a string of
    pairs of digits. *)
Definition unhex_digit (c : Ascii.ascii) : option Z :=
  let n := Z.of_nat (Ascii.nat_of_ascii c) in
  if (48 <=? n) && (n <=? 57) then Some (n - 48)
  else if (97 <=? n) && (n <=? 102) then Some (n - 87)
  else None.

Fixpoint unhex (cs : list Ascii.ascii) : option (list Z) :=
  match cs with
  | [] => Some []
  | c1 :: c2 :: cs =>
    a ← unhex_digit c1; b ← unhex_digit c2; l ← unhex cs; Some (16 * a + b :: l)
  | _ => None
  end.

Lemma hexstr_digit n :
  0 <= n < 16 → ∃ c, String.get (Z.to_nat n) hexstr = Some c ∧ unhex_digit c = Some n.
Proof.
  intros Hn.
  assert (Hall : Forall (λ k, bool_decide (String.get k hexstr ≫= unhex_digit = Some (Z.of_nat k)))
                   (seq 0 16)) by (repeat constructor; vm_compute; exact I).
  rewrite Forall_forall in Hall. specialize (Hall (Z.to_nat n)).
  rewrite elem_of_seq in Hall. specialize (Hall ltac:(lia)).
  apply bool_decide_unpack in Hall. rewrite Z2Nat.id in Hall by lia.
  destruct (String.get (Z.to_nat n) hexstr) as [c|]; [|done]. eauto.
Qed.

Lemma hex_byte_spec b :
  byte_ok b → ∃ c1 c2, hex_byte b = Some [c1; c2] ∧
    ∀ cs, unhex (c1 :: c2 :: cs) = (l ← unhex cs; Some (b :: l)).
Proof.
  intros Hb. unfold hex_byte. unfold byte_ok in Hb.
  rewrite Z.shiftr_div_pow2 by lia.
  change 15 with (Z.ones 4). rewrite Z.land_ones by lia. change (2 ^ 4) with 16.
  destruct (hexstr_digit (b / 16)) as (c1 & -> & H1); [lia_div|].
  destruct (hexstr_digit (b mod 16)) as (c2 & -> & H2); [lia_div|].
  exists c1, c2. split; [done|]. intros cs. cbn [unhex]. rewrite H1, H2. cbn.
  destruct (unhex cs); [|done]. cbn. do 2 f_equal. lia_div.
Qed.

Lemma hex_loop_spec n hash :
  bytes_ok hash → (n ≤ length hash)%nat →
  ∃ cs, hex_loop n hash = Some cs ∧ length cs = (2 * n)%nat ∧ unhex cs = Some (take n hash).
Proof.
  revert hash. induction n as [|n IH]; intros [|b hash] Hb Hn; cbn in Hn; try lia;
    [by exists []..|].
  apply Forall_cons in Hb as [Hb Hbs].
  destruct (hex_byte_spec b Hb) as (c1 & c2 & Hc & Hu).
  destruct (IH hash Hbs ltac:(lia)) as (cs & Hcs & Hl & Hun).
  exists (c1 :: c2 :: cs).
  assert (hex_loop (S n) (b :: hash) = Some (c1 :: c2 :: cs)) as ->.
  { cbn [hex_loop]. change (drop 1 (b :: hash)) with hash. rewrite Hcs.
    change ((b :: hash) !! 0%nat) with (Some b). cbn [mbind option_bind]. by rewrite Hc. }
  split; [done|]. cbn [length]. rewrite Hl. split; [lia|].
  change (unhex (c1 :: c2 :: cs) = Some (b :: take n hash)). by rewrite Hu, Hun.
Qed.

Lemma string_of_list_length cs : String.length (string_of_list_ascii cs) = length cs.
Proof. induction cs as [|c cs IH]; cbn; [done|]. by rewrite IH. Qed.

Section Props.
Context `{Hs : Sodium} {HL : SodiumLen Hs}.

Lemma sha_updates_ok {ab sha} `{HS : !SodiumSpec Hs ab sha} ds : ∀ st l,
  ab st l → (sha_updates st ds).1 = 0 ∧ ab (sha_updates st ds).2 (l ++ concat ds).
Proof.
  induction ds as [|d ds IH]; intros st l Hst; cbn; [by rewrite app_nil_r|].
  destruct (sha_update_ok st l d Hst) as [E1 E2].
  destruct (crypto_hash_sha256_update st d) as [err st']. cbn in *. subst err. cbn.
  rewrite (assoc_L (++)). by apply IH.
Qed.

(** The hashes never read outside an array. *)
Lemma hash_pieces_defined mem_ok ds : ∃ err d, hash_pieces mem_ok ds = Some (err, d).
Proof.
  unfold hash_pieces. destruct crypto_hash_sha256_init as [e0 st].
  case_match; [by eauto|]. destruct (sha_updates st ds) as [e1 st1].
  case_match; [by eauto|].
  pose proof (sha_final_length st1) as Hl. pose proof (sha_final_bytes st1) as Hb.
  destruct (crypto_hash_sha256_final st1) as [e2 hash]. cbn in Hl, Hb.
  case_match; [by eauto|]. case_match; [by eauto|].
  destruct (hex_loop_spec hlen hash Hb) as (cs & -> & _).
  { rewrite Hl. unfold hlen, crypto_hash_sha256_BYTES. lia. }
  cbn. eauto.
Qed.

Lemma hash_user_defined mem_ok secret uid cid :
  ∃ err d, hash_user mem_ok secret uid cid = Some (err, d).
Proof.
  unfold hash_user. destruct uid, cid; eauto. apply hash_pieces_defined.
Qed.

(** A digest of what [sha_updates] has hashed. *)
Lemma sha_digest_ok {ab sha} `{HS : !SodiumSpec Hs ab sha} ds :
  length (sha (concat ds)) = crypto_hash_sha256_BYTES ∧ bytes_ok (sha (concat ds)).
Proof.
  destruct sha_init_ok as [_ A0].
  destruct (sha_updates_ok ds _ [] A0) as [_ A1].
  apply sha_final_ok in A1. set (st := (sha_updates _ ds).2) in A1.
  pose proof (sha_final_length st) as Hl. pose proof (sha_final_bytes st) as Hb.
  by rewrite A1 in Hl, Hb.
Qed.

Lemma hash_pieces_ok {ab sha} `{HS : !SodiumSpec Hs ab sha} ok ds :
  hash_pieces ok ds =
    if negb ok then Some (ENOMEM, None) else
    dest ← hex_loop hlen (sha (concat ds));
    Some (0, Some (string_of_list_ascii dest)).
Proof.
  unfold hash_pieces. destruct sha_init_ok as [E0 A0].
  destruct crypto_hash_sha256_init as [e0 st]. cbn in E0, A0. subst e0. cbn [Z.eqb negb].
  destruct (sha_updates_ok ds st [] A0) as [E1 A1].
  destruct (sha_updates st ds) as [e1 st1]. cbn in E1, A1. subst e1. cbn [Z.eqb negb].
  by rewrite (sha_final_ok st1 _ A1).
Qed.

(** when SHA-256 works, [hash_user] yields the 32 hexadecimal digits of the
    first sixteen bytes of SHA-256 of the secret, the user and the client, so
    decoding the identifier gives these bytes back; without memory it reports
    [ENOMEM]; and a missing identifier is an error. *)
Theorem hash_user_result {ab sha} `{HS : !SodiumSpec Hs ab sha} mem_ok secret uid cid :
  hash_user mem_ok secret None (Some cid) = Some (EINVAL, None) ∧
  hash_user mem_ok secret (Some uid) None = Some (EINVAL, None) ∧
  hash_user false secret (Some uid) (Some cid) = Some (ENOMEM, None) ∧
  ∃ s, hash_user true secret (Some uid) (Some cid) = Some (0, Some s) ∧
       String.length s = 32%nat ∧
       unhex (list_ascii_of_string s)
       = Some (take 16 (sha (secret ++ bytes_of_string uid ++ bytes_of_string cid))).
Proof.
  unfold hash_user. rewrite !hash_pieces_ok. do 3 (split; [done|]). cbn [negb].
  set (ds := [secret; bytes_of_string uid; bytes_of_string cid]).
  assert (concat ds = secret ++ bytes_of_string uid ++ bytes_of_string cid) as Hds.
  { cbn. by rewrite app_nil_r. }
  destruct (sha_digest_ok ds) as [Hl Hb]. rewrite Hds in *.
  destruct (hex_loop_spec hlen _ Hb) as (cs & -> & Hlen & Hun).
  { rewrite Hl. unfold hlen, crypto_hash_sha256_BYTES. lia. }
  exists (string_of_list_ascii cs). rewrite list_ascii_of_string_of_list_ascii.
  split; [done|]. split; [|done]. by rewrite string_of_list_length.
Qed.
End Props.
