(* ===== verification/AudioLevel.v ===== *)
(** * Audio levels ([src/audio_level/audio_level.c])

    The level of one speaker, as reported by the media engine.  The levels of
    a call are a list that the application orders by the smoothed level and
    that the member list of a conference corrects for muted members.  The
    smoothing itself is floating-point arithmetic and is not modelled, nor are
    the functions that only print. *)

From S2P Require Import Prelude LibRe.

(** [struct audio_level]; the levels are [uint8_t]. *)
Record audio_level_t := {
  al_userid : option string;
  al_clientid : option string;
  al_aulevel : Z;
  al_aulevel_smooth : Z;
  al_is_self : bool;
}.

(** [audio_level_alloc], when [mem_zalloc] succeeds ([mem_ok]) and [levelp] is
    not [NULL]: the error code and the list afterwards.  A copy of a [NULL]
    identifier is an error.  The caller's pointer is never assigned. *)
Definition audio_level_alloc (mem_ok : bool) (levell : option (list (option audio_level_t)))
    (is_self : bool) (userid clientid : option string) (aulevel aulevel_smooth : Z)
    : Z * option (list (option audio_level_t)) :=
  if negb mem_ok then (ENOMEM, levell) else
  match userid, clientid with
  | Some _, Some _ =>
    let level := {| al_userid := userid; al_clientid := clientid;
                    al_aulevel := aulevel; al_aulevel_smooth := aulevel_smooth;
                    al_is_self := is_self |} in
    (0, (λ l, l ++ [Some level]) <$> levell)
  | _, _ => (EINVAL, levell)
  end.

(** [audio_level] *)
Definition audio_level (a : option audio_level_t) : Z :=
  match a with None => 0 | Some a => al_aulevel a end.

(** [audio_level_userid] *)
Definition audio_level_userid (a : option audio_level_t) : option string :=
  a ≫= al_userid.

(** [audio_level_clientid] *)
Definition audio_level_clientid (a : option audio_level_t) : option string :=
  a ≫= al_clientid.

(** [audio_level_list_cmp] *)
Definition audio_level_list_cmp (au1 au2 : option audio_level_t) : bool :=
  match au1, au2 with
  | Some a, Some b => al_aulevel_smooth b <=? al_aulevel_smooth a
  | _, _ => true
  end.

(** [audio_level_set]: the error code and the object afterwards. *)
Definition audio_level_set (a : option audio_level_t) (aulevel aulevel_smooth : Z)
    : Z * option audio_level_t :=
  match a with
  | None => (EINVAL, None)
  | Some a => (0, Some {| a with al_aulevel := aulevel; al_aulevel_smooth := aulevel_smooth |})
  end.
