(* ===== verification/UserList.v ===== *)
(** * The members of a conference ([src/userlist/userlist.c])

    A [struct userlist] merges two views of a conference: the list of clients
    the backend approved ([update_from_selist]) and the list of participants
    the SFT server reports ([update_from_sftlist]).  It decides who generates
    the keys, which members need decoders and a key, and what the application
    is shown.

    - A [struct userinfo] is allocated on the heap; [ui_addr] is its address,
      and [keygenerator] is a pointer.  [ul_tick] counts the calls to the
      allocator: [mem_ok] says which of them succeed, and a fresh address is the
      tick of its allocation.
    - The elements of the lists handed to the code may be [NULL] ([None]).  A
      position in such a list stands for the [struct le] at it.
    - The callbacks are events, with the member they are about as it is at the
      call; a handler is not modelled here, only whether it is set.
    - A computation whose behaviour C leaves undefined is [None].
    - Copies of strings are taken to succeed: the code ignores the result of
      [str_dup]. The allocations whose result it tests can fail.
    - The list is passed by value, so the guards for a [NULL] list have no
      counterpart; [self] is set by [userlist_alloc] and never cleared. *)

From S2P Require Import Prelude LibRe EconnMsg UserHash AudioLevel.

Definition LIST_POS_NONE : Z := 0xFFFFFFFF.

(** ** Data *)

(** [enum icall_vstate] *)
Inductive icall_vstate :=
| ICALL_VIDEO_STATE_STOPPED
| ICALL_VIDEO_STATE_STARTED
| ICALL_VIDEO_STATE_BAD_CONN
| ICALL_VIDEO_STATE_PAUSED
| ICALL_VIDEO_STATE_SCREENSHARE.

#[export] Instance icall_vstate_eq_dec : EqDecision icall_vstate.
Proof. solve_decision. Defined.

(** [enum icall_audio_state] *)
Inductive icall_audio_state :=
| ICALL_AUDIO_STATE_CONNECTING
| ICALL_AUDIO_STATE_ESTABLISHED
| ICALL_AUDIO_STATE_NETWORK_PROBLEM.

(** [struct icall_client] *)
Record icall_client := {
  cl_userid : option string;
  cl_clientid : option string;
  cl_in_subconv : bool;
  cl_quality : Z;
  cl_vstate : icall_vstate;
}.

(** [struct userinfo]; [active_audio] and [active_prev] are [int]s that only
    hold truth values. *)
Record userinfo := {
  ui_addr : nat;
  ui_userid_real : option string;
  ui_userid_hash : option string;
  ui_clientid_real : option string;
  ui_clientid_hash : option string;
  ui_ssrca : Z;
  ui_ssrcv : Z;
  ui_video_state : icall_vstate;
  ui_in_subconv : bool;
  ui_was_in_subconv : bool;
  ui_first_epoch : Z;
  ui_latest_epoch : Z;
  ui_needs_key : bool;
  ui_incall_now : bool;
  ui_incall_prev : bool;
  ui_was_se_approved : bool;
  ui_se_approved : bool;
  ui_force_decoder : bool;
  ui_listpos : Z;
  ui_muted : bool;
  ui_active_audio : bool;
  ui_active_prev : bool;
}.

(** [struct userlist]; a handler is represented by whether it is set. *)
Record userlist := {
  ul_users : list userinfo;
  ul_self : userinfo;
  ul_keygenerator : option nat;
  ul_addh : bool;
  ul_removeh : bool;
  ul_synch : bool;
  ul_kgchangeh : bool;
  ul_vstateh : bool;
  ul_tick : nat;
}.

Inductive ul_event :=
| UlAdd (u : userinfo)
| UlRemove (u : userinfo) (call_vstateh : bool)
| UlSync
| UlKgChange (kg : nat) (is_me is_first : bool)
| UlVstate (u : userinfo) (vstate : icall_vstate).

Abbreviation ULM := (MU userlist ul_event).

(** [mem_zalloc(sizeof(struct userinfo), ...)] *)
Definition userinfo_zero (a : nat) : userinfo := {|
  ui_addr := a;
  ui_userid_real := None; ui_userid_hash := None;
  ui_clientid_real := None; ui_clientid_hash := None;
  ui_ssrca := 0; ui_ssrcv := 0;
  ui_video_state := ICALL_VIDEO_STATE_STOPPED;
  ui_in_subconv := false; ui_was_in_subconv := false;
  ui_first_epoch := 0; ui_latest_epoch := 0;
  ui_needs_key := false;
  ui_incall_now := false; ui_incall_prev := false;
  ui_was_se_approved := false; ui_se_approved := false;
  ui_force_decoder := false; ui_listpos := 0;
  ui_muted := false; ui_active_audio := false; ui_active_prev := false;
|}.

(** The environment: does the [n]-th allocation succeed? *)
Class UlEnv := { ul_mem_ok : nat → bool }.

Section Ops.
Context `{LibRe, Sodium, UlEnv}.

(** ** Memory *)

Definition ul_alloc : ULM (option nat) :=
  l ← uget;
  umodify (λ l, {| l with ul_tick := S (ul_tick l) |});;
  mret (if ul_mem_ok (ul_tick l) then Some (ul_tick l) else None).

(** Assignments through a pointer to a member of the list. *)
Definition set_user (a : nat) (f : userinfo → userinfo) : ULM () :=
  umodify (λ l, {| l with ul_users :=
    (λ u, if (ui_addr u =? a)%nat then f u else u) <$> ul_users l |}).

(** A member of the list read through a pointer. *)
Definition deref_user (a : nat) : ULM userinfo :=
  l ← uget; of_ptr (List.find (λ u, (ui_addr u =? a)%nat) (ul_users l)).

Definition append_user (u : userinfo) : ULM () :=
  umodify (λ l, {| l with ul_users := ul_users l ++ [u] |}).

Definition each_user (f : userinfo → userinfo) : ULM () :=
  umodify (λ l, {| l with ul_users := f <$> ul_users l |}).

Definition set_self (f : userinfo → userinfo) : ULM () :=
  umodify (λ l, {| l with ul_self := f (ul_self l) |}).

Definition set_keygenerator (kg : option nat) : ULM () :=
  umodify (λ l, {| l with ul_keygenerator := kg |}).

(** ** Allocation and lookup *)

(** [userinfo_alloc]: the allocation itself gave the address. *)
Definition userinfo_alloc (a : option nat)
    (userid_real clientid_real userid_hash clientid_hash : option string)
    : Z * option userinfo :=
  match a with
  | None => (ENOMEM, None)
  | Some a => let u := userinfo_zero a in
    (0, Some {| u with ui_userid_real := userid_real;
                       ui_clientid_real := clientid_real;
                       ui_userid_hash := userid_hash;
                       ui_clientid_hash := clientid_hash |})
  end.

(** [userlist_alloc], the allocator having been called [n] times. *)
Definition userlist_alloc (n : nat) (userid_self clientid_self : option string)
    (addh removeh synch kgchangeh vstateh : bool) : Z * option userlist :=
  if negb (ul_mem_ok n) then (ENOMEM, None) else
  let '(err, self) :=
    userinfo_alloc (if ul_mem_ok (S n) then Some (S n) else None)
      userid_self clientid_self None None in
  match self with
  | None => (err, None)
  | Some self =>
    (0, Some {| ul_users := []; ul_self := {| self with ui_latest_epoch := 0 |};
                ul_keygenerator := None;
                ul_addh := addh; ul_removeh := removeh; ul_synch := synch;
                ul_kgchangeh := kgchangeh; ul_vstateh := vstateh;
                ul_tick := S (S n) |})
  end.

(** [userlist_sort_h] *)
Definition userlist_sort_h (a b : userinfo) : bool := ui_listpos a <=? ui_listpos b.

(** [userlist_get_count] *)
Definition userlist_get_count (l : userlist) : nat := length (ul_users l).

(** [userlist_get_self] *)
Definition userlist_get_self (l : userlist) : userinfo := ul_self l.

(** The test of [userlist_find_by_real] and of [userlist_find_by_hash]: both
    identifiers are set and equal up to case. *)
Definition ids_match (a b : option string) (userid clientid : string) : bool :=
  match a, b with
  | Some a, Some b => strcaseeq (Some a) (Some userid) && strcaseeq (Some b) (Some clientid)
  | _, _ => false
  end.

(** [userlist_find_by_real] *)
Definition userlist_find_by_real (l : userlist) (userid_real clientid_real : option string)
    : option userinfo :=
  match userid_real, clientid_real with
  | Some uid, Some cid =>
    List.find (λ u, ids_match (ui_userid_real u) (ui_clientid_real u) uid cid) (ul_users l)
  | _, _ => None
  end.

(** [userlist_find_by_hash] *)
Definition userlist_find_by_hash (l : userlist) (userid_hash clientid_hash : option string)
    : option userinfo :=
  match userid_hash, clientid_hash with
  | Some uid, Some cid =>
    List.find (λ u, ids_match (ui_userid_hash u) (ui_clientid_hash u) uid cid) (ul_users l)
  | _, _ => None
  end.

(** [userlist_is_keygenerator_me] *)
Definition userlist_is_keygenerator_me (l : userlist) : bool :=
  bool_decide (ul_keygenerator l = Some (ui_addr (ul_self l))).

(** [userlist_get_keygenerator] *)
Definition userlist_get_keygenerator (l : userlist) : option nat := ul_keygenerator l.

(** [userlist_reset_keygenerator] *)
Definition userlist_reset_keygenerator : ULM () := set_keygenerator None.

(** ** Hashes *)

(** [hash_userinfo] on a member given by value: the member afterwards. *)
Definition hash_userinfo (info : userinfo) (secret : list Z) : ULM userinfo :=
  m ← ul_alloc;
  r ← of_ptr (hash_user (bool_decide (is_Some m)) secret
                (ui_userid_real info) (ui_clientid_real info));
  mret {| info with ui_userid_hash := snd r; ui_clientid_hash := Some "_"%string |}.

(** [hash_userinfo] on a member of the list: its two hashes are assigned. *)
Definition hash_member (u : userinfo) (secret : list Z) : ULM () :=
  u' ← hash_userinfo u secret;
  set_user (ui_addr u) (λ u, {| u with ui_userid_hash := ui_userid_hash u';
                                       ui_clientid_hash := ui_clientid_hash u' |}).

(** The loop of [userlist_set_secret]. *)
Fixpoint set_secret_loop (us : list userinfo) (secret : list Z) : ULM () :=
  match us with
  | [] => mret ()
  | u :: us =>
    hash_member u secret;;
    set_secret_loop us secret
  end.

(** [userlist_set_secret] *)
Definition userlist_set_secret (secret : list Z) : ULM Z :=
  l ← uget;
  self ← hash_userinfo (ul_self l) secret;
  set_self (λ _, self);;
  set_secret_loop (ul_users l) secret;;
  mret 0.

(** ** The key generator *)

(** [track_keygenerator_change] *)
Definition track_keygenerator_change (prev_keygenerator : option nat) : ULM () :=
  l ← uget;
  let is_me := bool_decide (ul_keygenerator l = Some (ui_addr (ul_self l))) in
  match ul_keygenerator l with
  | None => mret ()
  | Some kg =>
    if bool_decide (prev_keygenerator = Some kg) then mret ()
    else uemit (if ul_kgchangeh l
                then [UlKgChange kg is_me (bool_decide (prev_keygenerator = None))]
                else [])
  end.

(** Does the entry name this client? *)
Definition part_is_self (l : userlist) (p : econn_group_part) : bool :=
  strcaseeq (ui_userid_hash (ul_self l)) (gp_userid p) &&
  strcaseeq (ui_clientid_hash (ul_self l)) (gp_clientid p).

(** [find_first_approved]: the position of the entry.  The walk follows the
    pointer of every entry it visits, [NULL] or not. *)
Fixpoint find_first_approved (l : userlist) (i : nat)
    (partlist : list (option econn_group_part)) : option (option nat) :=
  match partlist with
  | [] => Some None
  | None :: _ => None
  | Some p :: partlist =>
    if part_is_self l p then Some (Some i)
    else match userlist_find_by_hash l (gp_userid p) (gp_clientid p) with
         | Some u => if ui_se_approved u then Some (Some i)
                     else find_first_approved l (S i) partlist
         | None => find_first_approved l (S i) partlist
         end
  end.

(** ** The participants the SFT reports *)

(** The local variables and output parameters of
    [userlist_update_from_sftlist] that its loop over the entries assigns. *)
Record sft_locals := {
  sl_list_changed : bool;
  sl_sync_decoders : bool;
  sl_missing : bool;
  sl_listpos : Z;
  sl_self_changed : bool;
}.

(** The loop that resets the members. *)
Definition sft_reset (u : userinfo) : userinfo :=
  {| u with ui_incall_prev := ui_incall_now u; ui_incall_now := false;
            ui_listpos := LIST_POS_NONE |}.

(** The entry of this client. *)
Definition sft_self (first : bool) (p : econn_group_part) (lo : sft_locals)
    : ULM sft_locals :=
  l ← uget;
  (if first then set_keygenerator (Some (ui_addr (ul_self l))) else mret ());;
  let changed := negb (ui_ssrca (ul_self l) =? gp_ssrca p)
                 || negb (ui_ssrcv (ul_self l) =? gp_ssrcv p) in
  (if changed
   then set_self (λ u, {| u with ui_ssrca := gp_ssrca p; ui_ssrcv := gp_ssrcv p |})
   else mret ());;
  set_self (λ u, {| u with ui_listpos := sl_listpos lo |});;
  mret {| lo with sl_self_changed := changed; sl_listpos := u32 (sl_listpos lo + 1) |}.

(** The [switch] on the muted state. *)
Definition sft_muted (st : group_part_muted_state) (muted : bool) : bool :=
  match st with
  | MUTED_STATE_UNKNOWN => muted
  | MUTED_STATE_MUTED => true
  | MUTED_STATE_UNMUTED => false
  end.

(** A member whose streams are replaced while it is in the call. *)
Definition sft_moved (p : econn_group_part) (u : userinfo) : bool :=
  ui_incall_prev u && (negb (ui_ssrca u =? gp_ssrca p) || negb (ui_ssrcv u =? gp_ssrcv p)).

(** What the entry of a known member makes of it. *)
Definition sft_found_user (p : econn_group_part) (pos : Z) (u : userinfo) : userinfo :=
  {| u with ui_incall_prev := if sft_moved p u then false else ui_incall_prev u;
            ui_incall_now := true;
            ui_ssrca := gp_ssrca p;
            ui_ssrcv := gp_ssrcv p;
            ui_muted := sft_muted (gp_muted_state p) (ui_muted u);
            ui_listpos := pos |}.

(** The entry of a known member. *)
Definition sft_found (first : bool) (p : econn_group_part) (u : userinfo) (lo : sft_locals)
    : ULM sft_locals :=
  l ← uget;
  (if first then set_keygenerator (Some (ui_addr u)) else mret ());;
  uemit (if sft_moved p u && ul_removeh l then [UlRemove u (gp_ssrcv p =? 0)] else []);;
  set_user (ui_addr u) (sft_found_user p (sl_listpos lo));;
  mret {| lo with
    sl_sync_decoders := sl_sync_decoders lo || sft_moved p u;
    sl_list_changed := sl_list_changed lo || sft_moved p u
      || negb (Bool.eqb (sft_muted (gp_muted_state p) (ui_muted u)) (ui_muted u));
    sl_listpos := u32 (sl_listpos lo + 1) |}.

(** The entry of a participant that is not known yet. *)
Definition sft_missing (p : econn_group_part) (a : nat) (lo : sft_locals) : ULM sft_locals :=
  let u := userinfo_zero a in
  append_user {| u with ui_userid_hash := gp_userid p; ui_clientid_hash := gp_clientid p;
                        ui_ssrca := gp_ssrca p; ui_ssrcv := gp_ssrcv p;
                        ui_incall_now := true; ui_latest_epoch := 0;
                        ui_listpos := sl_listpos lo |};;
  mret {| lo with sl_missing := true; sl_listpos := u32 (sl_listpos lo + 1) |}.

(** The body of the loop over the entries: an error code other than 0 is the
    early return. *)
Definition sft_part (first_approved : option nat) (i : nat) (e : option econn_group_part)
    (lo : sft_locals) : ULM (Z * sft_locals) :=
  match e with
  | None => mret (0, lo)
  | Some p =>
    l ← uget;
    let first := bool_decide (first_approved = Some i) in
    if part_is_self l p then lo ← sft_self first p lo; mret (0, lo)
    else match userlist_find_by_hash l (gp_userid p) (gp_clientid p) with
         | Some u => lo ← sft_found first p u lo; mret (0, lo)
         | None =>
           a ← ul_alloc;
           match a with
           | None => mret (ENOMEM, lo)
           | Some a => lo ← sft_missing p a lo; mret (0, lo)
           end
         end
  end.

Fixpoint sft_parts (first_approved : option nat) (i : nat)
    (partlist : list (option econn_group_part)) (lo : sft_locals)
    : ULM (Z * sft_locals) :=
  match partlist with
  | [] => mret (0, lo)
  | e :: partlist =>
    r ← sft_part first_approved i e lo;
    if negb (r.1 =? 0) then mret r
    else sft_parts first_approved (S i) partlist r.2
  end.

(** The loop over the members that follows treats each of them on its own:
    what it makes of a member, whether decoders must be synchronised, whether
    the list changed, and the callbacks. *)

(** A member that joins the call. *)
Definition sft_joins (u : userinfo) : bool :=
  ui_se_approved u && (ui_force_decoder u || (ui_incall_now u && negb (ui_incall_prev u))).

(** A member that leaves it. *)
Definition sft_leaves (u : userinfo) : bool :=
  ui_se_approved u && negb (sft_joins u) && negb (ui_incall_now u) && ui_incall_prev u.

(** [addh] is called for a member that joins with a stream. *)
Definition sft_adds (addh : bool) (u : userinfo) : bool :=
  sft_joins u && addh && (negb (ui_ssrca u =? 0) || negb (ui_ssrcv u =? 0)).

Definition sft_user (u : userinfo) : userinfo :=
  if sft_joins u then {| u with ui_force_decoder := false; ui_needs_key := true |}
  else if sft_leaves u
  then {| u with ui_ssrca := 0; ui_ssrcv := 0; ui_video_state := ICALL_VIDEO_STATE_STOPPED |}
  else u.

Definition sft_user_events (addh removeh : bool) (u : userinfo) : list ul_event :=
  if sft_adds addh u then [UlAdd u]
  else if sft_leaves u && removeh then [UlRemove u true]
  else [].

(** [userlist_update_from_sftlist] up to the sorting of the list.  The result is
    the error code and the output parameters [*changed], [*self_changed] and
    [*missing_parts]; on an error the first and the last are not written. *)
Definition sft_update (partlist : list (option econn_group_part))
    (self_changed : bool) : ULM (Z * option (bool * bool) * bool) :=
  l ← uget;
  set_self (λ u, {| u with ui_listpos := LIST_POS_NONE |});;
  let prev_keygenerator := ul_keygenerator l in
  set_keygenerator None;;
  each_user sft_reset;;
  l ← uget;
  first_approved ← of_ptr (find_first_approved l 0 partlist);
  r ← sft_parts first_approved 0 partlist
        {| sl_list_changed := false; sl_sync_decoders := false; sl_missing := false;
           sl_listpos := 0; sl_self_changed := self_changed |};
  let lo := r.2 in
  if negb (r.1 =? 0) then mret (r.1, None, sl_self_changed lo) else
  l ← uget;
  let us := ul_users l in
  uemit (us ≫= sft_user_events (ul_addh l) (ul_removeh l));;
  each_user sft_user;;
  let sync := sl_sync_decoders lo
              || existsb (sft_adds (ul_addh l)) us || existsb sft_leaves us in
  let changed := sl_list_changed lo || existsb sft_joins us || existsb sft_leaves us in
  uemit (if sync && ul_synch l then [UlSync] else []);;
  track_keygenerator_change prev_keygenerator;;
  mret (0, Some (changed, sl_missing lo), sl_self_changed lo).

(** [list_sort(&list->users, userlist_sort_h, NULL)] *)
Definition sort_users : ULM () :=
  umodify (λ l, {| l with ul_users := list_sort userlist_sort_h (ul_users l) |}).

Definition userlist_update_from_sftlist (partlist : list (option econn_group_part))
    (self_changed : bool) : ULM (Z * option (bool * bool) * bool) :=
  r ← sft_update partlist self_changed;
  if negb (r.1.1 =? 0) then mret r else sort_users;; mret r.

(** ** The clients the backend approves *)

Record se_locals := {
  se_list_changed : bool;
  se_sync_decoders : bool;
}.

(** The first loop. *)
Definition se_reset (u : userinfo) : userinfo :=
  {| u with ui_was_se_approved := ui_se_approved u; ui_se_approved := false;
            ui_was_in_subconv := ui_in_subconv u; ui_in_subconv := false |}.

(** A participant the SFT reported earlier turns out to be this client. *)
Definition se_identify (cli : icall_client) (epoch : Z) (prev_keygenerator : option nat)
    (user : userinfo) (lo : se_locals) : ULM se_locals :=
  let a := ui_addr user in
  set_user a (λ u, {| u with ui_userid_real := cl_userid cli;
                             ui_clientid_real := cl_clientid cli;
                             ui_first_epoch := epoch |});;
  l ← uget;
  user ← deref_user a;
  let add := ul_addh l && (negb (ui_ssrca user =? 0) || negb (ui_ssrcv user =? 0)) in
  uemit (if add then [UlAdd user] else []);;
  (if ui_listpos user =? 0
   then set_keygenerator (Some a);; track_keygenerator_change prev_keygenerator
   else mret ());;
  set_user a (λ u, {| u with ui_needs_key := true; ui_force_decoder := false |});;
  mret {| se_list_changed := true; se_sync_decoders := se_sync_decoders lo || add |}.

(** The client is approved. *)
Definition se_approve (cli : icall_client) (epoch : Z) (u : userinfo) : userinfo :=
  {| u with ui_se_approved := true;
            ui_in_subconv := cl_in_subconv cli;
            ui_first_epoch := if cl_in_subconv cli && (ui_first_epoch u =? 0)
                              then epoch else ui_first_epoch u |}.

(** A client seen for the first time is appended. *)
Definition se_new (cli : icall_client) (epoch : Z) (u : userinfo) (lo : se_locals)
    : ULM (option se_locals) :=
  append_user u;;
  set_user (ui_addr u) (se_approve cli epoch);;
  mret (Some {| lo with se_list_changed := true |}).

(** The body of the loop over the clients; [None] is the early return when no
    member could be allocated. *)
Definition se_client (epoch : Z) (secret : list Z) (prev_keygenerator : option nat)
    (e : option icall_client) (lo : se_locals) : ULM (option se_locals) :=
  match e with
  | None => mret (Some lo)
  | Some cli =>
    l ← uget;
    if strcaseeq (ui_userid_real (ul_self l)) (cl_userid cli)
       && strcaseeq (ui_clientid_real (ul_self l)) (cl_clientid cli)
    then mret (Some lo)
    else match userlist_find_by_real l (cl_userid cli) (cl_clientid cli) with
    | Some user =>
      hash_member user secret;;
      set_user (ui_addr user) (se_approve cli epoch);;
      mret (Some lo)
    | None =>
      a ← ul_alloc;
      match a with
      | None => mret None
      | Some a =>
        let z := userinfo_zero a in
        u ← hash_userinfo {| z with ui_userid_real := cl_userid cli;
                                    ui_clientid_real := cl_clientid cli |} secret;
        l ← uget;
        match userlist_find_by_hash l (ui_userid_hash u) (ui_clientid_hash u) with
        | Some user =>
          if negb (ui_se_approved user) then
            lo ← se_identify cli epoch prev_keygenerator user lo;
            set_user (ui_addr user) (se_approve cli epoch);;
            mret (Some lo)
          else se_new cli epoch u lo
        | None => se_new cli epoch u lo
        end
      end
    end
  end.

Fixpoint se_clients (epoch : Z) (secret : list Z) (prev_keygenerator : option nat)
    (clientl : list (option icall_client)) (lo : se_locals) : ULM (option se_locals) :=
  match clientl with
  | [] => mret (Some lo)
  | e :: clientl =>
    r ← se_client epoch secret prev_keygenerator e lo;
    match r with
    | None => mret None
    | Some lo => se_clients epoch secret prev_keygenerator clientl lo
    end
  end.

(** The last loop: a member that lost its subconversation, or whose approval
    changed. *)
Definition se_finish (u : userinfo) : userinfo :=
  if negb (ui_in_subconv u) then {| u with ui_first_epoch := 0 |} else u.

Definition se_removed (u : userinfo) : bool :=
  (negb (ui_in_subconv u) && ui_was_in_subconv u)
  || negb (Bool.eqb (ui_se_approved u) (ui_was_se_approved u)).

(** [userlist_update_from_selist]: the values of [*changed] and [*removed], or
    [None] when they are not written. *)
Definition userlist_update_from_selist (clientl : list (option icall_client)) (epoch : Z)
    (secret : list Z) : ULM (option (bool * bool)) :=
  l ← uget;
  let prev_keygenerator := ul_keygenerator l in
  each_user se_reset;;
  r ← se_clients epoch secret prev_keygenerator clientl
        {| se_list_changed := false; se_sync_decoders := false |};
  match r with
  | None => mret None
  | Some lo =>
    l ← uget;
    let removed := existsb se_removed (ul_users l) in
    each_user se_finish;;
    uemit (if se_sync_decoders lo && ul_synch l then [UlSync] else []);;
    mret (Some (se_list_changed lo || removed, removed))
  end.

(** ** Epochs *)

(** [userlist_set_latest_epoch] *)
Definition userlist_set_latest_epoch (epoch : Z) : ULM Z :=
  set_self (λ u, {| u with ui_latest_epoch := epoch |});; mret 0.

(** [userlist_get_latest_epoch] *)
Definition userlist_get_latest_epoch (l : userlist) : Z * Z :=
  (0, ui_latest_epoch (ul_self l)).

(** [userlist_set_latest_epoch_for_client] *)
Definition userlist_set_latest_epoch_for_client (userid_real clientid_real : option string)
    (epoch : Z) : ULM Z :=
  l ← uget;
  match userlist_find_by_real l userid_real clientid_real with
  | None => mret ENOENT
  | Some u => set_user (ui_addr u) (λ u, {| u with ui_latest_epoch := epoch |});; mret 0
  end.

(** [userlist_get_key_index] *)
Definition userlist_get_key_index (l : userlist) : Z :=
  foldl (λ min_key u,
    if ui_se_approved u && ui_in_subconv u && ui_incall_now u then
      if (0 <? ui_latest_epoch u) && ((min_key =? 0) || (ui_latest_epoch u <? min_key))
      then ui_latest_epoch u else min_key
    else min_key)
    (ui_latest_epoch (ul_self l)) (ul_users l).

(** ** Presence in the call *)

(** The body of [userlist_incall_clear]. *)
Definition incall_clear_user (force_decoder again : bool) (u : userinfo) : userinfo :=
  let now := ui_incall_now u && force_decoder in
  {| u with ui_incall_now := now;
            ui_force_decoder := now;
            ui_incall_prev := false;
            ui_ssrca := if again then ui_ssrca u else 0;
            ui_ssrcv := if again then ui_ssrcv u else 0 |}.

(** [userlist_incall_clear] *)
Definition userlist_incall_clear (force_decoder again : bool) : ULM () :=
  each_user (incall_clear_user force_decoder again).

(** [userlist_incall_count] *)
Definition userlist_incall_count (l : userlist) : Z :=
  foldl (λ incall u, if ui_incall_now u then u32 (incall + 1) else incall) 0 (ul_users l).

(** ** What other components are told *)

(** [make_lower] of [icall.c]: [tolower] of every character. *)
Fixpoint make_lower (s : string) : string :=
  match s with
  | EmptyString => EmptyString
  | String c s =>
    let n := Ascii.nat_of_ascii c in
    String (if ((65 <=? n) && (n <=? 90))%nat then Ascii.ascii_of_nat (n + 32) else c)
           (make_lower s)
  end.

(** [icall_client_alloc] of [icall.c], when the allocation succeeds. *)
Definition icall_client_alloc (userid clientid : option string) : icall_client := {|
  cl_userid := make_lower <$> userid;
  cl_clientid := make_lower <$> clientid;
  cl_in_subconv := false;
  cl_quality := 0;
  cl_vstate := ICALL_VIDEO_STATE_STOPPED;
|}.

(** A member that a key is sent to. *)
Definition key_target (send_to_all : bool) (u : userinfo) : bool :=
  ui_incall_now u && ui_se_approved u && (ui_needs_key u || send_to_all).

(** The loop of [userlist_get_key_targets]: the error code and the targets
    appended so far. *)
Fixpoint key_targets_loop (send_to_all : bool) (us : list userinfo)
    (targets : list icall_client) : ULM (Z * list icall_client) :=
  match us with
  | [] => mret (0, targets)
  | u :: us =>
    if key_target send_to_all u then
      a ← ul_alloc;
      match a with
      | None => mret (ENOMEM, targets)
      | Some _ =>
        set_user (ui_addr u) (λ u, {| u with ui_needs_key := false |});;
        key_targets_loop send_to_all us
          (targets ++ [icall_client_alloc (ui_userid_real u) (ui_clientid_real u)])
      end
    else key_targets_loop send_to_all us targets
  end.

(** [userlist_get_key_targets] *)
Definition userlist_get_key_targets (send_to_all : bool) : ULM (Z * list icall_client) :=
  l ← uget; key_targets_loop send_to_all (ul_users l) [].

(** [struct wcall_member] *)
Record wcall_member := {
  wm_userid : option string;
  wm_clientid : option string;
  wm_audio_state : icall_audio_state;
  wm_video_recv : icall_vstate;
  wm_muted : bool;
}.

(** [struct wcall_members]: [mm_membv] is the array with its uninitialised
    elements [None]. *)
Record wcall_members := {
  mm_membv : list (option wcall_member);
  mm_membc : nat;
}.

(** A member the application is shown. *)
Definition is_member (u : userinfo) : bool :=
  ui_se_approved u && (ui_incall_now u || ui_in_subconv u).

Definition member_of (u : userinfo) : wcall_member := {|
  wm_userid := ui_userid_real u;
  wm_clientid := ui_clientid_real u;
  wm_audio_state := if 0 <? ui_ssrca u then ICALL_AUDIO_STATE_ESTABLISHED
                    else ICALL_AUDIO_STATE_CONNECTING;
  wm_video_recv := if 0 <? ui_ssrcv u then ui_video_state u else ICALL_VIDEO_STATE_STOPPED;
  wm_muted := ui_muted u && negb (ui_active_audio u);
|}.

(** [mm->membv\[mm->membc\] = m; mm->membc++]; [None] outside the array. *)
Definition put_member (mm : wcall_members) (m : wcall_member) : option wcall_members :=
  if (mm_membc mm <? length (mm_membv mm))%nat
  then Some {| mm_membv := <[mm_membc mm := Some m]> (mm_membv mm);
               mm_membc := S (mm_membc mm) |}
  else None.

(** The loop that fills the array; the [assert] fails where [put_member] does. *)
Fixpoint put_members (mm : wcall_members) (us : list userinfo) : option wcall_members :=
  match us with
  | [] => Some mm
  | u :: us =>
    if is_member u then mm ← put_member mm (member_of u); put_members mm us
    else put_members mm us
  end.

(** [userlist_get_members]; [muted] is [msystem_get_muted()]. *)
Definition userlist_get_members (muted : bool) (astate : icall_audio_state)
    (vstate : icall_vstate) : ULM (Z * option wcall_members) :=
  l ← uget;
  m1 ← ul_alloc;
  if bool_decide (m1 = None) then mret (ENOMEM, None) else
  let n := foldl (λ n u, if is_member u then S n else n) 1%nat (ul_users l) in
  m2 ← ul_alloc;
  if bool_decide (m2 = None) then mret (ENOMEM, None) else
  let self := ul_self l in
  mm ← of_ptr (put_member {| mm_membv := replicate n None; mm_membc := 0 |}
         {| wm_userid := ui_userid_real self; wm_clientid := ui_clientid_real self;
            wm_audio_state := astate; wm_video_recv := vstate; wm_muted := muted |});
  mm ← of_ptr (put_members mm (ul_users l));
  mret (0, Some mm).

(** A member of the participant list sent to other clients. *)
Definition is_part (require_subconv : bool) (u : userinfo) : bool :=
  ui_se_approved u && ui_incall_now u && (ui_in_subconv u || negb require_subconv).

Definition part_of (u : userinfo) : econn_group_part := {|
  gp_userid := ui_userid_hash u;
  gp_clientid := ui_clientid_hash u;
  gp_authorized := true;
  gp_muted_state := MUTED_STATE_UNKNOWN;
  gp_ssrca := ui_ssrca u;
  gp_ssrcv := ui_ssrcv u;
  gp_ts := 0;
|}.

(** A loop that allocates an element for every member that passes the test;
    when an allocation fails the list is flushed and the code is [ENOMEM]. *)
Fixpoint collect_loop {A} (test : userinfo → bool) (mk : userinfo → A) (us : list userinfo)
    (acc : list A) : ULM (Z * list A) :=
  match us with
  | [] => mret (0, acc)
  | u :: us =>
    if test u then
      a ← ul_alloc;
      match a with
      | None => mret (ENOMEM, [])
      | Some _ => collect_loop test mk us (acc ++ [mk u])
      end
    else collect_loop test mk us acc
  end.

(** [userlist_get_partlist], with [econn_part_alloc] of [econn_fmt/msg.c] in
    [part_of]. *)
Definition userlist_get_partlist (require_subconv : bool) : ULM (Z * list econn_group_part) :=
  l ← uget; collect_loop (is_part require_subconv) part_of (ul_users l) [].

(** Another client of this user. *)
Definition is_my_client (self u : userinfo) : bool :=
  strcaseeq (ui_userid_real u) (ui_userid_real self)
  && negb (strcaseeq (ui_clientid_real u) (ui_clientid_real self)).

(** [userlist_get_my_clients] *)
Definition userlist_get_my_clients : ULM (Z * list icall_client) :=
  l ← uget;
  collect_loop (is_my_client (ul_self l))
    (λ u, icall_client_alloc (ui_userid_real u) (ui_clientid_real u)) (ul_users l) [].

(** ** Audio levels *)

(** The body of the loop of [userlist_update_audio_level] over the levels: the
    level afterwards, and the flag [*list_changed]. *)
Definition audio_level_entry (a : option audio_level_t) (list_changed : bool)
    : ULM (option audio_level_t * bool) :=
  match a with
  | None => mret (None, list_changed)
  | Some _ =>
    match audio_level_userid a, audio_level_clientid a with
    | Some uid, Some cid =>
      l ← uget;
      match userlist_find_by_real l (Some uid) (Some cid) with
      | None => mret (a, list_changed)
      | Some u =>
        let a' := if ui_muted u then (audio_level_set a 0 0).2 else a in
        let active := 0 <? audio_level a' in
        set_user (ui_addr u) (λ u, {| u with ui_active_audio := active |});;
        mret (a', list_changed || (ui_muted u && negb (Bool.eqb active (ui_active_prev u))))
      end
    | _, _ => mret (a, list_changed)
    end
  end.

Fixpoint audio_level_entries (levell : list (option audio_level_t)) (list_changed : bool)
    : ULM (list (option audio_level_t) * bool) :=
  match levell with
  | [] => mret ([], list_changed)
  | a :: levell =>
    r ← audio_level_entry a list_changed;
    r' ← audio_level_entries levell r.2;
    mret (r.1 :: r'.1, r'.2)
  end.

(** [userlist_update_audio_level]: the list of levels afterwards, and
    [*list_changed]. *)
Definition userlist_update_audio_level (levell : list (option audio_level_t))
    : ULM (list (option audio_level_t) * bool) :=
  each_user (λ u, {| u with ui_active_prev := ui_active_audio u;
                            ui_active_audio := false |});;
  audio_level_entries levell false.

(** ** Video states and counts *)

(** A member whose video [userlist_reset_video_states] stops. *)
Definition video_resets (u : userinfo) : bool :=
  ui_incall_now u && negb (bool_decide (ui_video_state u = ICALL_VIDEO_STATE_STOPPED)).

(** [userlist_reset_video_states] *)
Definition userlist_reset_video_states : ULM Z :=
  l ← uget;
  uemit (if ul_vstateh l
         then (λ u, UlVstate u ICALL_VIDEO_STATE_STOPPED) <$> List.filter video_resets (ul_users l)
         else []);;
  each_user (λ u, if video_resets u
                  then {| u with ui_video_state := ICALL_VIDEO_STATE_STOPPED |} else u);;
  mret 0.

(** [userlist_get_active_counts]: [*active], [*active_a] and [*active_v]. *)
Definition userlist_get_active_counts (l : userlist) : Z * Z * Z :=
  foldl (λ c u,
    let '(ap, aa, av) := c in
    if ui_se_approved u && ui_incall_now u then
      (u32 (ap + 1),
       if (0 <? ui_ssrca u) && negb (ui_muted u) then u32 (aa + 1) else aa,
       if (0 <? ui_ssrcv u)
          && negb (bool_decide (ui_video_state u = ICALL_VIDEO_STATE_STOPPED))
       then u32 (av + 1) else av)
    else c)
    (1, 0, 0) (ul_users l).
End Ops.
