(* ===== verification/UserListSpec.v ===== *)
(** * The member list: invariant and laws of its operations

    [ul_ok] is the invariant of a [struct userlist]: members are distinct
    objects, no two of them have the same client, none of them is this client,
    and the key generator is this client or a member.  Every operation keeps
    it and is defined, provided the entries of an SFT list are not [NULL]. *)

From S2P Require Import Prelude LibRe EconnMsg UserHash AudioLevel UserList.

(** ** Identity of a member

    What the invariant depends on: the address and the real identifiers. *)

Definition ui_ids (u : userinfo) : nat * (option string * option string) :=
  (ui_addr u, (ui_userid_real u, ui_clientid_real u)).

Section Inv.
Context `{LibRe}.

(** Two pairs of identifiers name the same client. *)
Definition same_client (i j : option string * option string) : Prop :=
  is_Some i.1 ∧ is_Some i.2 ∧ is_Some j.1 ∧ is_Some j.2 ∧ ci_eq i.1 j.1 ∧ ci_eq i.2 j.2.

Record ids_ok (self : nat * (option string * option string))
    (us : list (nat * (option string * option string))) (tick : nat) : Prop := {
  ids_nodup : NoDup (self :: us).*1;
  ids_fresh i : i ∈ self :: us → (i.1 < tick)%nat;
  ids_clients i j : i ∈ us → j ∈ us → same_client i.2 j.2 → i = j;
  ids_not_self i : i ∈ us → ¬ same_client i.2 self.2;
}.

Definition ul_ids (l : userlist) := ui_ids <$> ul_users l.

Record ul_ok (l : userlist) : Prop := {
  ok_ids : ids_ok (ui_ids (ul_self l)) (ul_ids l) (ul_tick l);
  ok_kg a : ul_keygenerator l = Some a → a ∈ (ui_ids (ul_self l) :: ul_ids l).*1;
}.

(** ** The invariant under the elementary steps *)

Lemma ids_ok_tick self us n m :
  ids_ok self us n → (n ≤ m)%nat → ids_ok self us m.
Proof. intros [? Hf ? ?] ?. split; [done| |done|done]. intros i Hi. specialize (Hf i Hi). lia. Qed.

Lemma ids_ok_perm self us us' n :
  us' ≡ₚ us → ids_ok self us n → ids_ok self us' n.
Proof.
  intros Hp [? Hf Hc Hs]. split.
  - rewrite Hp. done.
  - intros i. rewrite Hp. apply Hf.
  - intros i j. rewrite Hp. apply Hc.
  - intros i. rewrite Hp. apply Hs.
Qed.

(** A member with a new address whose client, if it has one, is new. *)
Lemma ids_ok_snoc self us n i :
  ids_ok self us n → i.1 = n →
  (∀ j, j ∈ us → ¬ same_client i.2 j.2 ∧ ¬ same_client j.2 i.2) →
  ¬ same_client i.2 self.2 →
  ids_ok self (us ++ [i]) (S n).
Proof.
  intros [Hn Hf Hc Hs] Hi Hj Hself. split.
  - rewrite app_comm_cons, fmap_app. apply NoDup_app. split; [done|]. split.
    + intros a (k & -> & Hk)%list_elem_of_fmap. cbn. rewrite list_elem_of_singleton.
      specialize (Hf k Hk). cbn in *. lia.
    + apply NoDup_singleton.
  - intros k. rewrite app_comm_cons, elem_of_app, list_elem_of_singleton.
    intros [Hk| ->]; [specialize (Hf k Hk)|]; lia.
  - intros a b. rewrite !elem_of_app, !list_elem_of_singleton.
    intros [Ha| ->] [Hb| ->] Hsc; [by apply Hc| | |done].
    + by destruct (Hj a Ha).
    + by destruct (Hj b Hb).
  - intros a. rewrite elem_of_app, list_elem_of_singleton. intros [Ha| ->]; [by apply Hs|done].
Qed.

(** The identifiers of one member replaced by those of a new client. *)
Lemma ids_ok_rename self us1 us2 n a c c' :
  ids_ok self (us1 ++ (a, c) :: us2) n →
  (∀ j, j ∈ us1 ++ us2 → ¬ same_client c' j.2 ∧ ¬ same_client j.2 c') →
  ¬ same_client c' self.2 →
  ids_ok self (us1 ++ (a, c') :: us2) n.
Proof.
  intros [Hn Hf Hc Hs] Hj Hself.
  assert (Hold : ∀ i, i ∈ us1 ++ us2 → i ∈ us1 ++ (a, c) :: us2).
  { intros i. rewrite !elem_of_app, elem_of_cons. tauto. }
  assert (Hnew : ∀ i, i ∈ us1 ++ (a, c') :: us2 → i = (a, c') ∨ i ∈ us1 ++ us2).
  { intros i. rewrite !elem_of_app, elem_of_cons. tauto. }
  split.
  - revert Hn. by rewrite !fmap_cons, !fmap_app, !fmap_cons.
  - intros i [->|Hi]%elem_of_cons; [apply Hf; by left|].
    apply Hnew in Hi as [->|Hi]; [|apply Hf; right; by apply Hold].
    cbn. apply (Hf (a, c)). right. apply elem_mid.
  - intros i j Hi Hj' Hsc.
    apply Hnew in Hi as [->|Hi]; apply Hnew in Hj' as [->|Hj']; [done| | |].
    + by destruct (Hj j Hj').
    + by destruct (Hj i Hi).
    + apply Hc; auto.
  - intros i Hi. apply Hnew in Hi as [->|Hi]; [done|]. auto.
Qed.
End Inv.

(** ** Steps that keep the identities *)

(** The object differs at most in what the invariant does not depend on. *)
Definition keeps_ids (l l' : userlist) : Prop :=
  ui_ids (ul_self l') = ui_ids (ul_self l) ∧ ul_ids l' ≡ₚ ul_ids l ∧
  (ul_tick l ≤ ul_tick l')%nat ∧ ul_keygenerator l' = ul_keygenerator l.

#[export] Instance keeps_ids_preorder : PreOrder keeps_ids.
Proof.
  split.
  - intros l. by repeat split.
  - intros l1 l2 l3 (E1 & P1 & T1 & K1) (E2 & P2 & T2 & K2).
    repeat split; [congruence|by rewrite P2|lia|congruence].
Qed.

Lemma ul_ok_keeps `{LibRe} l l' : keeps_ids l l' → ul_ok l → ul_ok l'.
Proof.
  intros (Es & Hp & Ht & Hk) [Hi Hkg]. split.
  - rewrite Es. eapply ids_ok_perm; [exact Hp|]. by eapply ids_ok_tick.
  - intros a. rewrite Hk, Es, Hp. apply Hkg.
Qed.

Lemma keeps_users (l : userlist) (us : list userinfo) :
  ui_ids <$> us ≡ₚ ul_ids l → keeps_ids l {| l with ul_users := us |}.
Proof. intros. by repeat split. Qed.

Lemma fmap_ids (f : userinfo → userinfo) (us : list userinfo) :
  (∀ u, ui_ids (f u) = ui_ids u) → ui_ids <$> (f <$> us) = ui_ids <$> us.
Proof. intros Hf. rewrite <- list_fmap_compose. apply list_fmap_ext. intros. apply Hf. Qed.

Lemma keeps_each (l : userlist) f :
  (∀ u, ui_ids (f u) = ui_ids u) → keeps_ids l {| l with ul_users := f <$> ul_users l |}.
Proof. intros. apply keeps_users. by rewrite fmap_ids. Qed.

Lemma keeps_self (l : userlist) f :
  ui_ids (f (ul_self l)) = ui_ids (ul_self l) →
  keeps_ids l {| l with ul_self := f (ul_self l) |}.
Proof. intros. by repeat split. Qed.

Lemma keeps_tick (l : userlist) : keeps_ids l {| l with ul_tick := S (ul_tick l) |}.
Proof. split; [done|]. split; [done|]. split; [cbn; lia|done]. Qed.

(** A step that keeps the identities, whatever it returns and emits. *)
Abbreviation wp_keeps m l := (wp m (λ _ l' _, keeps_ids l l') l).

Lemma wp_keeps_bind {A B} (m : ULM A) (k : A → ULM B) l :
  wp_keeps m l → (∀ a l', keeps_ids l l' → wp_keeps (k a) l') → wp_keeps (m ≫= k) l.
Proof.
  intros Hm Hk. apply wp_bind. eapply wp_mono; [exact Hm|]. intros a l' e Hl'.
  eapply wp_mono; [by apply Hk|]. intros b l'' e' Hl''. exact (transitivity Hl' Hl'').
Qed.

Lemma wp_keeps_ret {A} (a : A) l : wp_keeps (mret a : ULM A) l.
Proof. by apply wp_ret. Qed.

Lemma wp_keeps_get {A} (k : userlist → ULM A) l :
  wp_keeps (k l) l → wp_keeps (uget ≫= k) l.
Proof. intros Hk. apply wp_bind. by apply wp_get. Qed.

Lemma wp_keeps_emit e l : wp_keeps (uemit e : ULM ()) l.
Proof. by apply wp_emit. Qed.

Lemma wp_keeps_each f l : (∀ u, ui_ids (f u) = ui_ids u) → wp_keeps (each_user f) l.
Proof. intros. apply wp_modify. by apply keeps_each. Qed.

Lemma wp_keeps_set_user a f l : (∀ u, ui_ids (f u) = ui_ids u) → wp_keeps (set_user a f) l.
Proof.
  intros Hf. apply wp_modify. apply keeps_each. intros u. by destruct (_ =? _)%nat.
Qed.

Lemma wp_keeps_set_self f l : (∀ u, ui_ids (f u) = ui_ids u) → wp_keeps (set_self f) l.
Proof. intros. apply wp_modify. by apply keeps_self. Qed.

Lemma wp_keeps_alloc `{UlEnv} l : wp_keeps ul_alloc l.
Proof. unfold ul_alloc. apply wp_keeps_get. unfold wp. cbn. apply keeps_tick. Qed.

Create HintDb ul.
#[export] Hint Resolve wp_keeps_ret wp_keeps_emit wp_keeps_alloc : ul.
#[export] Hint Extern 1 (wp_keeps (each_user _) _) => apply wp_keeps_each; done : ul.
#[export] Hint Extern 1 (wp_keeps (set_user _ _) _) => apply wp_keeps_set_user; done : ul.
#[export] Hint Extern 1 (wp_keeps (set_self _) _) => apply wp_keeps_set_self; done : ul.

Ltac keeps_step :=
  first
  [ solve [eauto with ul]
  | apply wp_keeps_get
  | apply wp_keeps_bind; [solve [eauto with ul]|intros ? ? ?]
  | match goal with |- wp (if ?b then _ else _) _ _ => destruct b eqn:? end
  | match goal with |- wp (match ?x with _ => _ end) _ _ => destruct x eqn:? end ].

(** ** Operations that keep the identities *)

Section Keeps.
Context `{LibRe, Hs : Sodium, UlEnv} {HL : SodiumLen Hs}.

Lemma wp_hash_userinfo info secret (Q : userinfo → userlist → list ul_event → Prop) l :
  (∀ h, Q {| info with ui_userid_hash := h; ui_clientid_hash := Some "_"%string |}
          {| l with ul_tick := S (ul_tick l) |} []) →
  wp (hash_userinfo info secret) Q l.
Proof.
  intros HQ. unfold hash_userinfo, ul_alloc. wp_steps.
  destruct (hash_user_defined (bool_decide (is_Some
    (if ul_mem_ok (ul_tick l) then Some (ul_tick l) else None))) secret
    (ui_userid_real info) (ui_clientid_real info)) as (err & d & E).
  eapply wp_of_ptr; [exact E|]. wp_steps. apply HQ.
Qed.

Lemma hash_member_keeps u secret l : wp_keeps (hash_member u secret) l.
Proof.
  unfold hash_member. apply wp_bind, wp_hash_userinfo. intros h.
  eapply wp_mono; [by apply wp_keeps_set_user|]. intros ? l' ? Hl'.
  etrans; [apply keeps_tick|exact Hl'].
Qed.

Lemma set_secret_loop_keeps us secret l : wp_keeps (set_secret_loop us secret) l.
Proof.
  revert l. induction us as [|u us IH]; intros l; cbn [set_secret_loop]; [keeps_step|].
  apply wp_keeps_bind; [apply hash_member_keeps|]. auto.
Qed.

Lemma set_secret_keeps secret l : wp_keeps (userlist_set_secret secret) l.
Proof.
  unfold userlist_set_secret. wp_step. wp_step. wp_step. apply wp_hash_userinfo. intros h.
  eapply (wp_mono _ (λ _ l' _, keeps_ids {| l with ul_tick := S (ul_tick l) |} l')).
  - apply wp_keeps_bind; [by apply wp_modify; repeat split|]. intros _ l1 _.
    apply wp_keeps_bind; [apply set_secret_loop_keeps|]. intros. apply wp_keeps_ret.
  - intros ? l' ? Hl'. etrans; [apply keeps_tick|exact Hl'].
Qed.

Lemma set_latest_epoch_keeps e l : wp_keeps (userlist_set_latest_epoch e) l.
Proof. unfold userlist_set_latest_epoch. repeat keeps_step. Qed.

Lemma set_latest_epoch_for_client_keeps uid cid e l :
  wp_keeps (userlist_set_latest_epoch_for_client uid cid e) l.
Proof. unfold userlist_set_latest_epoch_for_client. repeat keeps_step. Qed.

Lemma incall_clear_keeps fd again l : wp_keeps (userlist_incall_clear fd again) l.
Proof. unfold userlist_incall_clear. repeat keeps_step. Qed.

Lemma key_targets_loop_keeps all us ts l : wp_keeps (key_targets_loop all us ts) l.
Proof. revert ts l. induction us as [|u us IH]; intros ts l; cbn [key_targets_loop]; repeat keeps_step; auto. Qed.

Lemma get_key_targets_keeps all l : wp_keeps (userlist_get_key_targets all) l.
Proof. unfold userlist_get_key_targets. keeps_step. apply key_targets_loop_keeps. Qed.

Lemma collect_loop_keeps {A} test (mk : _ → A) us acc l :
  wp_keeps (collect_loop test mk us acc) l.
Proof. revert acc l. induction us as [|u us IH]; intros acc l; cbn [collect_loop]; repeat keeps_step; auto. Qed.

Lemma audio_level_entry_keeps a c l : wp_keeps (audio_level_entry a c) l.
Proof. unfold audio_level_entry. repeat keeps_step. Qed.

Lemma audio_level_entries_keeps ls c l : wp_keeps (audio_level_entries ls c) l.
Proof.
  revert c l. induction ls as [|a ls IH]; intros c l; cbn [audio_level_entries]; [keeps_step|].
  apply wp_keeps_bind; [apply audio_level_entry_keeps|]. intros r l1 _.
  apply wp_keeps_bind; [apply IH|]. intros. keeps_step.
Qed.

Lemma update_audio_level_keeps ls l : wp_keeps (userlist_update_audio_level ls) l.
Proof.
  unfold userlist_update_audio_level. keeps_step. apply audio_level_entries_keeps.
Qed.

Lemma reset_video_states_keeps l : wp_keeps userlist_reset_video_states l.
Proof.
  unfold userlist_reset_video_states. keeps_step. keeps_step.
  apply wp_keeps_bind; [|intros; keeps_step].
  apply wp_keeps_each. intros u. by destruct (video_resets u).
Qed.
End Keeps.
