(* ===== verification/UserListSft.v ===== *)
(** * The member list after a report of the SFT server

    [userlist_update_from_sftlist] walks the reported entries and looks every
    one of them up in a list that it changes as it goes.  [sft_parts_spec]
    shows that this is the same as giving every member the entries that name it
    ([member_fold]) and appending the participants that are not known; the
    properties of the whole operation follow from that. *)

From S2P Require Import Prelude LibRe EconnMsg UserHash AudioLevel UserList UserListSpec.

Definition numbered (i : nat) (ps : list econn_group_part) : list (nat * econn_group_part) :=
  zip (seq i (length ps)) ps.

(** ** Decoders

    The effect of the callbacks on the set of members that have a decoder. *)

Definition decoder_event (D : list nat) (e : ul_event) : list nat :=
  match e with
  | UlAdd u => ui_addr u :: D
  | UlRemove u _ => List.filter (λ a, negb (a =? ui_addr u)%nat) D
  | _ => D
  end.

Definition decoders (D : list nat) (es : list ul_event) : list nat := foldl decoder_event D es.

Lemma decoders_app D e1 e2 : decoders D (e1 ++ e2) = decoders (decoders D e1) e2.
Proof. apply foldl_app. Qed.

Section Sft.
Context `{L : LibRe, UlEnv}.

(** The entry [p] names the member at the address of [u], in the list [l0]. *)
Definition hits (l0 : userlist) (p : econn_group_part) (u : userinfo) : bool :=
  negb (part_is_self l0 p) &&
  bool_decide (ui_addr <$> userlist_find_by_hash l0 (gp_userid p) (gp_clientid p)
               = Some (ui_addr u)).

(** What the entries make of one member. *)
Definition member_fold (l0 : userlist) (ps : list (nat * econn_group_part)) (u : userinfo)
    : userinfo :=
  foldl (λ u' ip, if hits l0 ip.2 u then sft_found_user ip.2 (u32 (Z.of_nat ip.1)) u' else u')
    u ps.

(** What the walk leaves alone in a member. *)
Definition frame (u : userinfo) :=
  (ui_ids u, ui_userid_hash u, ui_clientid_hash u, ui_se_approved u, ui_force_decoder u,
   ui_video_state u, ui_needs_key u, ui_in_subconv u, ui_latest_epoch u).

Lemma member_fold_frame l0 ps u : frame (member_fold l0 ps u) = frame u.
Proof.
  unfold member_fold. generalize u at 2 3 as u'.
  induction ps as [|ip ps IH]; intros u'; cbn; [done|]. rewrite IH. by destruct (hits _ _ _).
Qed.

Lemma frame_addr u v : frame u = frame v → ui_addr u = ui_addr v.
Proof. unfold frame, ui_ids. by intros [=]. Qed.

Lemma frame_hash u v :
  frame u = frame v →
  ui_userid_hash u = ui_userid_hash v ∧ ui_clientid_hash u = ui_clientid_hash v.
Proof. unfold frame. by intros [=]. Qed.

Lemma frame_flags u v :
  frame u = frame v →
  ui_se_approved u = ui_se_approved v ∧ ui_force_decoder u = ui_force_decoder v.
Proof. unfold frame. by intros [=]. Qed.

Lemma frame_ids u v : frame u = frame v → ui_ids u = ui_ids v.
Proof. unfold frame, ui_ids. intros [=]. congruence. Qed.

Lemma member_fold_addr l0 ps u : ui_addr (member_fold l0 ps u) = ui_addr u.
Proof. apply frame_addr, member_fold_frame. Qed.

Lemma member_fold_snoc l0 ps ip u :
  member_fold l0 (ps ++ [ip]) u =
  if hits l0 ip.2 u then sft_found_user ip.2 (u32 (Z.of_nat ip.1)) (member_fold l0 ps u)
  else member_fold l0 ps u.
Proof. unfold member_fold. by rewrite foldl_app. Qed.

(** A participant appended by the walk. *)
Definition is_new (tick : nat) (u : userinfo) : Prop :=
  (tick ≤ ui_addr u)%nat ∧ ui_userid_real u = None ∧ ui_se_approved u = false ∧
  ui_incall_now u = true ∧ ui_force_decoder u = false.

Definition is_remove (e : ul_event) : bool :=
  match e with UlRemove _ _ => true | _ => false end.

Record sft_inv (l0 : userlist) (first : option nat) (ps : list (nat * econn_group_part))
    (l : userlist) (es : list ul_event) : Prop := {
  si_users : ∃ new, ul_users l = (member_fold l0 ps <$> ul_users l0) ++ new ∧
             Forall (is_new (ul_tick l0)) new;
  si_self : frame (ul_self l) = frame (ul_self l0);
  si_handlers : (ul_addh l, ul_removeh l, ul_synch l, ul_kgchangeh l)
                = (ul_addh l0, ul_removeh l0, ul_synch l0, ul_kgchangeh l0);
  si_ids : ids_ok (ui_ids (ul_self l)) (ul_ids l) (ul_tick l);
  si_tick : (ul_tick l0 ≤ ul_tick l)%nat;
  si_kg : ul_keygenerator l =
    ip ← List.find (λ ip, bool_decide (first = Some ip.1)) ps;
    if part_is_self l0 ip.2 then Some (ui_addr (ul_self l0))
    else ui_addr <$> userlist_find_by_hash l0 (gp_userid ip.2) (gp_clientid ip.2);
  si_events : forallb is_remove es = true;
  si_decoders D u : u ∈ ul_users l0 → ul_removeh l0 = true →
    ui_addr u ∈ decoders D es ↔
    ui_addr u ∈ D ∧ (ui_incall_prev u → ui_incall_prev (member_fold l0 ps u));
}.

Lemma find_app {A} (f : A → bool) l1 l2 :
  List.find f (l1 ++ l2) = match List.find f l1 with Some x => Some x | None => List.find f l2 end.
Proof. induction l1 as [|x l1 IH]; cbn; [done|]. by destruct (f x). Qed.

Lemma find_fmap {A B} (f : B → bool) (g : A → B) l :
  List.find f (g <$> l) = g <$> List.find (λ x, f (g x)) l.
Proof. induction l as [|x l IH]; cbn; [done|]. by destruct (f (g x)). Qed.

(** Looking an entry up in the changed list. *)
Lemma find_by_hash_inv l0 l (g : userinfo → userinfo) new p :
  ul_users l = (g <$> ul_users l0) ++ new → (∀ u, frame (g u) = frame u) →
  userlist_find_by_hash l (gp_userid p) (gp_clientid p) =
  match userlist_find_by_hash l0 (gp_userid p) (gp_clientid p) with
  | Some u => Some (g u)
  | None =>
    match gp_userid p, gp_clientid p with
    | Some uid, Some cid =>
      List.find (λ u, ids_match (ui_userid_hash u) (ui_clientid_hash u) uid cid) new
    | _, _ => None
    end
  end.
Proof.
  intros Hu Hg. unfold userlist_find_by_hash.
  destruct (gp_userid p) as [uid|]; [|done]. destruct (gp_clientid p) as [cid|]; [|done].
  rewrite Hu, find_app, find_fmap.
  rewrite (find_ext_in _ (λ u, ids_match (ui_userid_hash u) (ui_clientid_hash u) uid cid)).
  - by destruct (List.find _ (ul_users l0)).
  - intros u _. by destruct (frame_hash _ _ (Hg u)) as [-> ->].
Qed.

Lemma find_by_hash_elem l uid cid u :
  userlist_find_by_hash l uid cid = Some u → u ∈ ul_users l.
Proof.
  unfold userlist_find_by_hash. destruct uid, cid; try done.
  intros Hf. by apply find_Some_split in Hf as [_ ?].
Qed.

Lemma part_is_self_inv l0 l p :
  frame (ul_self l) = frame (ul_self l0) → part_is_self l p = part_is_self l0 p.
Proof. unfold part_is_self. intros E. by destruct (frame_hash _ _ E) as [-> ->]. Qed.

(** Addresses are distinct. *)
Lemma ids_ok_addr_nodup self us n :
  ids_ok self (ui_ids <$> us) n → NoDup (ui_addr <$> us).
Proof.
  intros [Hn _ _ _]. apply NoDup_cons in Hn as [_ Hn].
  change (NoDup ((ui_ids <$> us).*1)) in Hn. by rewrite <- list_fmap_compose in Hn.
Qed.

Lemma addr_inj (us : list userinfo) u v :
  NoDup (ui_addr <$> us) → u ∈ us → v ∈ us → ui_addr u = ui_addr v → u = v.
Proof.
  intros Hn [i Hi]%list_elem_of_lookup [j Hj]%list_elem_of_lookup E.
  assert (i = j) as ->; [|congruence].
  eapply (NoDup_lookup _ _ _ (ui_addr u) Hn).
  - by rewrite list_lookup_fmap, Hi.
  - rewrite list_lookup_fmap, Hj. cbn. by rewrite E.
Qed.

Lemma sft_found_prev p pos u : ui_incall_prev (sft_found_user p pos u) → ui_incall_prev u.
Proof. cbn. by destruct (sft_moved p u). Qed.

Lemma member_fold_prev l0 ps u : ui_incall_prev (member_fold l0 ps u) → ui_incall_prev u.
Proof.
  unfold member_fold. generalize u at 2 3 as u'.
  induction ps as [|ip ps IH]; intros u'; cbn; [done|]. intros Hp%IH. revert Hp.
  destruct (hits _ _ _); [apply sft_found_prev|done].
Qed.

Lemma member_fold_snoc_prev l0 ps ip u :
  ui_incall_prev (member_fold l0 (ps ++ [ip]) u) → ui_incall_prev (member_fold l0 ps u).
Proof. rewrite member_fold_snoc. destruct (hits _ _ _); [apply sft_found_prev|done]. Qed.

Lemma member_fold_snoc_miss l0 ps ip (us : list userinfo) :
  (∀ u, u ∈ us → hits l0 ip.2 u = false) →
  member_fold l0 (ps ++ [ip]) <$> us = member_fold l0 ps <$> us.
Proof.
  intros Hh. apply list_fmap_ext. intros i u Hu. rewrite member_fold_snoc, Hh; [done|].
  by eapply list_elem_of_lookup_2.
Qed.

(** Who an entry makes key generator when it is the first that is approved. *)
Definition kg_of (l0 : userlist) (p : econn_group_part) : option nat :=
  if part_is_self l0 p then Some (ui_addr (ul_self l0))
  else ui_addr <$> userlist_find_by_hash l0 (gp_userid p) (gp_clientid p).

Lemma kg_snoc first (ps : list (nat * econn_group_part)) i p :
  (∀ ip, ip ∈ ps → ip.1 ≠ i) →
  List.find (λ ip, bool_decide (first = Some ip.1)) (ps ++ [(i, p)]) =
  if bool_decide (first = Some i) then Some (i, p)
  else List.find (λ ip, bool_decide (first = Some ip.1)) ps.
Proof.
  intros Hi. rewrite find_app. cbn. destruct (List.find _ ps) as [ip|] eqn:E.
  - apply find_Some_split in E as [E Hin]. apply bool_decide_eq_true in E as ->.
    rewrite bool_decide_eq_false_2; [done|]. specialize (Hi ip Hin). congruence.
  - done.
Qed.

Lemma sft_inv_step l0 first ps l es i p l' e' new :
  sft_inv l0 first ps l es →
  (∀ ip, ip ∈ ps → ip.1 ≠ i) →
  ul_users l' = (member_fold l0 (ps ++ [(i, p)]) <$> ul_users l0) ++ new →
  Forall (is_new (ul_tick l0)) new →
  frame (ul_self l') = frame (ul_self l) →
  (ul_addh l', ul_removeh l', ul_synch l', ul_kgchangeh l')
  = (ul_addh l, ul_removeh l, ul_synch l, ul_kgchangeh l) →
  ids_ok (ui_ids (ul_self l')) (ul_ids l') (ul_tick l') →
  (ul_tick l ≤ ul_tick l')%nat →
  ul_keygenerator l' = (if bool_decide (first = Some i) then kg_of l0 p else ul_keygenerator l) →
  forallb is_remove e' = true →
  (∀ D u, u ∈ ul_users l0 → ul_removeh l0 = true →
     ui_addr u ∈ decoders D e' ↔
     ui_addr u ∈ D ∧ (ui_incall_prev (member_fold l0 ps u) →
                      ui_incall_prev (member_fold l0 (ps ++ [(i, p)]) u))) →
  sft_inv l0 first (ps ++ [(i, p)]) l' (es ++ e').
Proof.
  intros [Hu Hself Hh _ Ht Hk He Hd] Hi Hu' Hnew Hself' Hh' Hids' Ht' Hk' He' Hd'. split.
  - eauto.
  - congruence.
  - congruence.
  - done.
  - lia.
  - rewrite Hk', kg_snoc by done. by destruct (bool_decide _).
  - by rewrite forallb_app, He, He'.
  - intros D u Huin Hr. rewrite decoders_app, Hd', Hd by done.
    pose proof (member_fold_prev l0 ps u). pose proof (member_fold_snoc_prev l0 ps (i, p) u).
    tauto.
Qed.

(** The result of one entry, as [sft_parts_spec] needs it. *)
Definition sft_post (l0 : userlist) (first : option nat) ps (i : nat) p es (pos : Z)
    (lo' : sft_locals) (l' : userlist) (e' : list ul_event) : Prop :=
  sft_inv l0 first (ps ++ [(i, p)]) l' (es ++ e') ∧ sl_listpos lo' = u32 (pos + 1).

Lemma sft_self_inv l0 first ps l es i p lo :
  sft_inv l0 first ps l es → (∀ ip, ip ∈ ps → ip.1 ≠ i) → part_is_self l0 p = true →
  wp (sft_self (bool_decide (first = Some i)) p lo)
     (sft_post l0 first ps i p es (sl_listpos lo)) l.
Proof.
  intros Hinv Hi Hp. pose proof Hinv as [(new & Hu & Hnew) Hself Hh Hids Ht Hk He Hd].
  assert (Ha : ui_addr (ul_self l) = ui_addr (ul_self l0)) by by apply frame_addr.
  assert (Hmiss : member_fold l0 (ps ++ [(i, p)]) <$> ul_users l0
                  = member_fold l0 ps <$> ul_users l0).
  { apply member_fold_snoc_miss. intros u _. unfold hits. cbn. by rewrite Hp. }
  assert (Hfold : ∀ u, member_fold l0 (ps ++ [(i, p)]) u = member_fold l0 ps u).
  { intros u. rewrite member_fold_snoc. unfold hits. cbn. by rewrite Hp. }
  unfold sft_self. wp_step. wp_step. wp_step.
  set (changed := (negb _ || negb _)%bool).
  destruct (bool_decide (first = Some i)) eqn:Ef; destruct changed; wp_steps; split; try done.
  all: eapply (sft_inv_step _ _ _ l); try done.
  all: cbn; rewrite ?Hmiss; try done; rewrite ?Ef.
  all: first
    [ by unfold kg_of; rewrite Hp, Ha | done
    | intros D u _ _; rewrite Hfold; cbn; tauto ].
Qed.

Lemma sft_missing_inv l0 first ps l es i p lo :
  sft_inv l0 first ps l es → (∀ ip, ip ∈ ps → ip.1 ≠ i) → part_is_self l0 p = false →
  userlist_find_by_hash l0 (gp_userid p) (gp_clientid p) = None → first ≠ Some i →
  wp (sft_missing p (ul_tick l) lo) (sft_post l0 first ps i p es (sl_listpos lo))
     {| l with ul_tick := S (ul_tick l) |}.
Proof.
  intros Hinv Hi Hp Hf Hfirst. pose proof Hinv as [(new & Hu & Hnew) Hself Hh Hids Ht Hk He Hd].
  assert (Hnohit : ∀ u, hits l0 p u = false).
  { intros u. unfold hits. by rewrite Hf, andb_false_r. }
  unfold sft_missing. wp_steps. split; [|done].
  eapply (sft_inv_step _ _ _ l _ _ _ _ _ (new ++ [_])); try done.
  - cbn. rewrite member_fold_snoc_miss by (intros; apply Hnohit).
    by rewrite Hu, <- (assoc_L (++)).
  - apply Forall_app. split; [done|]. apply Forall_singleton. by repeat split.
  - cbn. unfold ul_ids. cbn. rewrite fmap_app. cbn. apply ids_ok_snoc; [done|done| |].
    + intros j _. unfold same_client. cbn. split.
      * intros ([] & _); discriminate.
      * intros (_ & _ & [] & _); discriminate.
    + intros ([] & _); discriminate.
  - cbn. lia.
  - cbn. by rewrite bool_decide_eq_false_2.
  - intros D u _ _. rewrite member_fold_snoc, Hnohit. cbn. tauto.
Qed.

(** The member an entry finds is one that was there at the start, or one that
    the walk appended. *)
Lemma sft_found_cases l0 l ps new p u :
  ul_users l = (member_fold l0 ps <$> ul_users l0) ++ new →
  userlist_find_by_hash l (gp_userid p) (gp_clientid p) = Some u →
  (∃ u0, userlist_find_by_hash l0 (gp_userid p) (gp_clientid p) = Some u0 ∧
         u0 ∈ ul_users l0 ∧ u = member_fold l0 ps u0) ∨
  (userlist_find_by_hash l0 (gp_userid p) (gp_clientid p) = None ∧ u ∈ new).
Proof.
  intros Hu Hf. rewrite (find_by_hash_inv l0 l _ new p Hu) in Hf by apply member_fold_frame.
  destruct (userlist_find_by_hash l0 _ _) as [u0|] eqn:E0.
  - injection Hf as <-. left. exists u0. split; [done|]. split; [|done].
    by eapply find_by_hash_elem.
  - right. split; [done|]. destruct (gp_userid p), (gp_clientid p); try done.
    by apply find_Some_split in Hf as [_ ?].
Qed.

(** The members after an assignment through the found pointer. *)
Lemma sft_found_users l0 l ps new p u i :
  ids_ok (ui_ids (ul_self l)) (ul_ids l) (ul_tick l) →
  ul_users l = (member_fold l0 ps <$> ul_users l0) ++ new →
  part_is_self l0 p = false →
  userlist_find_by_hash l (gp_userid p) (gp_clientid p) = Some u →
  (λ v, if (ui_addr v =? ui_addr u)%nat then sft_found_user p (u32 (Z.of_nat i)) v else v)
    <$> (member_fold l0 ps <$> ul_users l0)
  = member_fold l0 (ps ++ [(i, p)]) <$> ul_users l0.
Proof.
  intros Hids Hu Hp Hf. rewrite <- list_fmap_compose. apply list_fmap_ext.
  intros k v Hv%list_elem_of_lookup_2. cbn. rewrite member_fold_snoc, member_fold_addr. cbn.
  unfold hits. rewrite Hp. cbn.
  destruct (sft_found_cases l0 l ps new p u Hu Hf) as [(u0 & -> & Hu0 & ->)|[-> Hin]]; cbn.
  - rewrite member_fold_addr. destruct (Nat.eqb_spec (ui_addr v) (ui_addr u0)) as [->|Hne].
    + by rewrite bool_decide_eq_true_2.
    + rewrite bool_decide_eq_false_2; [done|]. congruence.
  - destruct (Nat.eqb_spec (ui_addr v) (ui_addr u)) as [E|_]; [exfalso|done].
    apply ids_ok_addr_nodup in Hids. rewrite Hu, fmap_app, NoDup_app in Hids.
    destruct Hids as (_ & Hdis & _). apply (Hdis (ui_addr u)).
    + rewrite <- E, <- (member_fold_addr l0 ps v).
      by apply list_elem_of_fmap_2, list_elem_of_fmap_2.
    + by apply list_elem_of_fmap_2.
Qed.

(** The callback for a member whose streams are replaced. *)
Lemma decoders_remove D (u : userinfo) (b : bool) a :
  a ∈ decoders D [UlRemove u b] ↔ a ∈ D ∧ a ≠ ui_addr u.
Proof.
  cbn. rewrite !list_elem_of_In, filter_In, negb_true_iff, Nat.eqb_neq. done.
Qed.

Lemma sft_found_decoders l0 l ps new p u i D v :
  ids_ok (ui_ids (ul_self l)) (ul_ids l) (ul_tick l) →
  ul_users l = (member_fold l0 ps <$> ul_users l0) ++ new →
  part_is_self l0 p = false →
  userlist_find_by_hash l (gp_userid p) (gp_clientid p) = Some u →
  v ∈ ul_users l0 →
  ui_addr v ∈ decoders D (if sft_moved p u then [UlRemove u (gp_ssrcv p =? 0)] else []) ↔
  ui_addr v ∈ D ∧ (ui_incall_prev (member_fold l0 ps v) →
                   ui_incall_prev (member_fold l0 (ps ++ [(i, p)]) v)).
Proof.
  intros Hids Hu Hp Hf Hv.
  assert (Hn : NoDup (ui_addr <$> ul_users l)) by by eapply ids_ok_addr_nodup.
  assert (Hin : member_fold l0 ps v ∈ ul_users l).
  { rewrite Hu. apply elem_of_app. left. by apply list_elem_of_fmap_2. }
  assert (Huin : u ∈ ul_users l) by by eapply find_by_hash_elem.
  pose proof (sft_found_users l0 l ps new p u i Hids Hu Hp Hf) as Hus.
  rewrite <- list_fmap_compose in Hus.
  assert (Hv' : (if (ui_addr (member_fold l0 ps v) =? ui_addr u)%nat
                 then sft_found_user p (u32 (Z.of_nat i)) (member_fold l0 ps v)
                 else member_fold l0 ps v) = member_fold l0 (ps ++ [(i, p)]) v).
  { apply list_elem_of_lookup in Hv as [k Hk].
    apply (f_equal (.!! k)) in Hus. rewrite !list_lookup_fmap, Hk in Hus. by injection Hus. }
  rewrite <- Hv'. destruct (Nat.eqb_spec (ui_addr (member_fold l0 ps v)) (ui_addr u)) as [E|E].
  - apply (addr_inj _ _ _ Hn Hin Huin) in E. rewrite <- E. cbn.
    destruct (sft_moved p (member_fold l0 ps v)) eqn:Hm.
    + rewrite decoders_remove, member_fold_addr.
      unfold sft_moved in Hm. apply andb_true_iff in Hm as [-> _]. cbn. tauto.
    + cbn. tauto.
  - rewrite member_fold_addr in E. destruct (sft_moved p u); [rewrite decoders_remove|cbn]; tauto.
Qed.

Lemma sft_found_inv l0 first ps l es i p lo u :
  sft_inv l0 first ps l es → (∀ ip, ip ∈ ps → ip.1 ≠ i) → part_is_self l0 p = false →
  userlist_find_by_hash l (gp_userid p) (gp_clientid p) = Some u →
  (first = Some i → is_Some (userlist_find_by_hash l0 (gp_userid p) (gp_clientid p))) →
  sl_listpos lo = u32 (Z.of_nat i) →
  wp (sft_found (bool_decide (first = Some i)) p u lo)
     (sft_post l0 first ps i p es (sl_listpos lo)) l.
Proof.
  intros Hinv Hi Hp Hf Hfirst Hpos.
  pose proof Hinv as [(new & Hu & Hnew) Hself Hh Hids Ht Hk He Hd].
  set (upd := λ v, if (ui_addr v =? ui_addr u)%nat
                   then sft_found_user p (sl_listpos lo) v else v).
  assert (Hnew' : Forall (is_new (ul_tick l0)) (upd <$> new)).
  { apply Forall_fmap. eapply Forall_impl; [exact Hnew|]. intros v Hv. cbn. unfold upd.
    destruct (_ =? _)%nat; [|done]. by destruct Hv as (? & ? & ? & ? & ?). }
  assert (Hkg : first = Some i → Some (ui_addr u) = kg_of l0 p).
  { intros E. unfold kg_of. rewrite Hp.
    destruct (sft_found_cases l0 l ps new p u Hu Hf) as [(u0 & -> & _ & ->)|[E0 _]].
    - cbn. by rewrite member_fold_addr.
    - destruct (Hfirst E) as [? ?]. congruence. }
  unfold sft_found. wp_step. wp_step. wp_step.
  destruct (bool_decide (first = Some i)) eqn:Ef; wp_steps; split; try done.
  all: eapply (sft_inv_step _ _ _ l _ _ _ _ _ (upd <$> new)); try done.
  all: cbn [ul_users ul_keygenerator]; rewrite ?Ef, ?app_nil_r.
  all: first
    [ rewrite Hu, fmap_app; f_equal; rewrite Hpos; by eapply sft_found_users
    | apply Hkg; by eapply bool_decide_eq_true_1
    | done
    | by cbn; destruct (_ && _)
    | change (ids_ok (ui_ids (ul_self l)) (ui_ids <$> (upd <$> ul_users l)) (ul_tick l));
      rewrite fmap_ids; [done|]; intros v; unfold upd; by destruct (_ =? _)%nat
    | idtac ].
  all: intros D v Hv Hr; cbn [ul_removeh app].
  all: injection Hh as _ -> _ _; rewrite Hr, andb_true_r; by eapply sft_found_decoders.
Qed.

(** ** The election of the key generator *)

(** An entry this client trusts: its own, or one of an approved member. *)
Definition recognised (l : userlist) (p : econn_group_part) : bool :=
  part_is_self l p ||
  match userlist_find_by_hash l (gp_userid p) (gp_clientid p) with
  | Some u => ui_se_approved u
  | None => false
  end.

Lemma find_first_approved_spec l ps : ∀ i, ∃ r,
  find_first_approved l i (Some <$> ps) = Some r ∧
  (∀ k, r = Some k → (i ≤ k)%nat) ∧
  snd <$> List.find (λ ip, bool_decide (r = Some ip.1)) (numbered i ps)
  = List.find (recognised l) ps.
Proof.
  induction ps as [|p ps IH]; intros i; [by exists None|].
  assert (Hhit : ∃ r, Some (Some i) = Some r ∧ (∀ k, r = Some k → (i ≤ k)%nat) ∧
    snd <$> List.find (λ ip, bool_decide (r = Some ip.1)) (numbered i (p :: ps)) = Some p).
  { exists (Some i). split; [done|]. split; [intros k [= ->]; lia|]. cbn.
    by rewrite bool_decide_eq_true_2. }
  destruct (IH (S i)) as (r & Hr & Hge & Hf).
  assert (Hskip : ∃ r, find_first_approved l (S i) (Some <$> ps) = Some r ∧
    (∀ k, r = Some k → (i ≤ k)%nat) ∧
    snd <$> List.find (λ ip, bool_decide (r = Some ip.1)) (numbered i (p :: ps))
    = List.find (recognised l) ps).
  { exists r. split; [done|]. split; [intros k Hk; specialize (Hge k Hk); lia|]. cbn.
    rewrite bool_decide_eq_false_2; [exact Hf|]. intros E. specialize (Hge i E). lia. }
  cbn [fmap list_fmap find_first_approved List.find]. unfold recognised at 1.
  destruct (part_is_self l p); [exact Hhit|]. cbn [orb].
  destruct (userlist_find_by_hash l _ _) as [u|]; [|exact Hskip].
  by destruct (ui_se_approved u).
Qed.

(** The first entry found by its position can be looked up. *)
Lemma first_recognised l ps i r k p :
  snd <$> List.find (λ ip, bool_decide (r = Some ip.1)) (numbered i ps)
  = List.find (recognised l) ps →
  ps !! k = Some p → r = Some (i + k)%nat → recognised l p = true.
Proof.
  intros Hf Hk ->.
  assert (Hn : List.find (λ ip, bool_decide (Some (i + k)%nat = Some ip.1)) (numbered i ps)
               = Some (i + k, p)%nat).
  { clear Hf. revert i k Hk. induction ps as [|q ps IH]; intros i k Hk; [done|].
    destruct k as [|k]; cbn in Hk.
    - injection Hk as ->. cbn. by rewrite Nat.add_0_r, bool_decide_eq_true_2.
    - cbn. rewrite bool_decide_eq_false_2 by (intros [=]; lia).
      specialize (IH (S i) k Hk). by replace (i + S k)%nat with (S i + k)%nat by lia. }
  rewrite Hn in Hf. cbn in Hf. symmetry in Hf. by apply find_Some_split in Hf as [? _].
Qed.

(** One entry. *)
Lemma sft_part_spec l0 first done l es lo i p :
  sft_inv l0 first done l es → (∀ ip, ip ∈ done → (ip.1 < i)%nat) →
  sl_listpos lo = u32 (Z.of_nat i) → (first = Some i → recognised l0 p = true) →
  wp (sft_part first i (Some p) lo)
     (λ r l' e', (r.1 = 0 ∧ sft_post l0 first done i p es (sl_listpos lo) r.2 l' e') ∨
        (r.1 = ENOMEM ∧ (∃ n, ul_mem_ok n = false) ∧ sft_inv l0 first done l' (es ++ e'))) l.
Proof.
  intros Hinv Hdone Hpos Hrec.
  pose proof Hinv as [(new & Hu & Hnew) Hself Hh Hids Ht Hk He Hd].
  assert (Hne : ∀ ip, ip ∈ done → ip.1 ≠ i).
  { intros ip Hip. specialize (Hdone ip Hip). lia. }
  unfold recognised in Hrec.
  unfold sft_part. wp_step. wp_step. cbv zeta. rewrite (part_is_self_inv l0) by done.
  destruct (part_is_self l0 p) eqn:Hself'.
  { wp_step. eapply wp_mono; [by apply sft_self_inv|]. intros lo' l' e' Hpost.
    wp_step. left. split; [done|]. by rewrite app_nil_r. }
  destruct (userlist_find_by_hash l _ _) as [u|] eqn:Hf.
  { wp_step. eapply wp_mono.
    - apply (sft_found_inv l0 first done l es i p lo u); try done. intros E.
      specialize (Hrec E). cbn in Hrec. by destruct (userlist_find_by_hash l0 _ _).
    - intros lo' l' e' Hpost. wp_step. left. split; [done|]. by rewrite app_nil_r. }
  rewrite (find_by_hash_inv l0 l _ new p Hu) in Hf by apply member_fold_frame.
  destruct (userlist_find_by_hash l0 _ _) as [u|] eqn:Hf0; [done|].
  unfold ul_alloc. wp_steps. destruct (ul_mem_ok (ul_tick l)) eqn:Hmem.
  + wp_step. eapply wp_mono; [apply sft_missing_inv; try done|].
    { intros E. by specialize (Hrec E). }
    intros lo' l' e' Hpost. wp_step. left. split; [done|]. cbn [app]; by rewrite !app_nil_r.
  + wp_step. right. split; [done|]. split; [by eexists|]. cbn [app fst]; rewrite app_nil_r.
    destruct Hinv as [? ? ? [? Hfr ? ?] ? ? ? ?]. split; try done; cbn; [|lia].
    split; try done. intros j Hj. specialize (Hfr j Hj). cbn. lia.
Qed.

Lemma sft_parts_spec l0 first ps : ∀ done l es lo i,
  sft_inv l0 first done l es → (∀ ip, ip ∈ done → (ip.1 < i)%nat) →
  sl_listpos lo = u32 (Z.of_nat i) →
  (∀ k p, ps !! k = Some p → first = Some (i + k)%nat → recognised l0 p = true) →
  wp (sft_parts first i (Some <$> ps) lo)
     (λ r l' e', ∃ ps1 ps2, ps = ps1 ++ ps2 ∧
        sft_inv l0 first (done ++ numbered i ps1) l' (es ++ e') ∧
        (r.1 = 0 ∧ ps2 = [] ∨ r.1 = ENOMEM ∧ ∃ n, ul_mem_ok n = false)) l.
Proof.
  induction ps as [|p ps IH]; intros done l es lo i Hinv Hdone Hpos Hfirst.
  { apply wp_ret. exists [], []. cbn. rewrite !app_nil_r. auto. }
  cbn [fmap list_fmap sft_parts]. apply wp_bind.
  apply (wp_mono _ (λ r l' e', (r.1 = 0 ∧ sft_post l0 first done i p es (sl_listpos lo) r.2 l' e') ∨
    (r.1 = ENOMEM ∧ (∃ n, ul_mem_ok n = false) ∧ sft_inv l0 first done l' (es ++ e')))).
  - apply sft_part_spec; try done. intros E. apply (Hfirst 0%nat); [done|].
    by rewrite Nat.add_0_r.
  - intros [err lo'] l' e' [[E [Hinv' Hpos']]|(E & Hmem & Hinv')]; cbn in E; subst err; cbn [fst snd].
    + change (negb (0 =? 0)) with false. cbn iota.
      eapply wp_mono; [apply (IH (done ++ [(i, p)]) l' (es ++ e'))|].
      * done.
      * intros ip [Hip|Hip%list_elem_of_singleton]%elem_of_app.
        -- specialize (Hdone ip Hip). lia.
        -- subst ip. cbn. lia.
      * cbn in Hpos'. rewrite Hpos', Hpos. unfold uwrap. rewrite Zplus_mod_idemp_l. f_equal. lia.
      * intros k q Hk Hq. apply (Hfirst (S k)); [done|]. rewrite Hq. f_equal. lia.
      * intros r l'' e'' (ps1 & ps2 & -> & Hi & Hr). exists (p :: ps1), ps2. split; [done|].
        rewrite <- !(assoc_L (++)) in Hi. done.
    + change (negb (ENOMEM =? 0)) with true. cbn iota. wp_step.
      exists [], (p :: ps). rewrite !app_nil_r. split; [done|]. split; [done|]. by right.
Qed.

(** ** The whole operation *)

(** The list before the entries are walked. *)
Definition sft_start (l : userlist) : userlist :=
  {| l with ul_self := (let u := ul_self l in {| u with ui_listpos := LIST_POS_NONE |});
            ul_keygenerator := None;
            ul_users := sft_reset <$> ul_users l |}.

Lemma sft_start_ids l : ul_ids (sft_start l) = ul_ids l.
Proof. unfold ul_ids. cbn. by rewrite fmap_ids. Qed.

Lemma sft_inv_start first l :
  ids_ok (ui_ids (ul_self l)) (ul_ids l) (ul_tick l) →
  sft_inv (sft_start l) first [] (sft_start l) [].
Proof.
  intros Hids. split; try done.
  - exists []. rewrite app_nil_r. split; [|by constructor]. symmetry. apply list_fmap_id.
  - rewrite sft_start_ids. exact Hids.
  - intros D u _ _. cbn. tauto.
Qed.

(** The callback about the key generator. *)
Definition kg_events (prev : option nat) (l : userlist) : list ul_event :=
  match ul_keygenerator l with
  | None => []
  | Some kg =>
    if bool_decide (prev = Some kg) || negb (ul_kgchangeh l) then []
    else [UlKgChange kg (bool_decide (Some kg = Some (ui_addr (ul_self l))))
                     (bool_decide (prev = None))]
  end.

Lemma wp_track prev (Q : () → userlist → list ul_event → Prop) l :
  Q () l (kg_events prev l) → wp (track_keygenerator_change prev) Q l.
Proof.
  intros HQ. unfold track_keygenerator_change. wp_step. wp_step. unfold kg_events in HQ.
  destruct (ul_keygenerator l) as [kg|]; [|by wp_step].
  destruct (bool_decide (prev = Some kg)); [by wp_step|]. wp_step. cbn in *.
  by destruct (ul_kgchangeh l).
Qed.

(** What the operation leaves: [sr_first] is the position of the first approved
    entry, [l1] the list after the walk and [es] the callbacks of the walk. *)
Record sft_result (l : userlist) (ps : list econn_group_part) (l' : userlist)
    (e : list ul_event) (sr_first : option nat) (l1 : userlist) (es : list ul_event)
    : Prop := {
  sr_kg_first :
    snd <$> List.find (λ ip, bool_decide (sr_first = Some ip.1)) (numbered 0 ps)
    = List.find (recognised (sft_start l)) ps;
  sr_inv : sft_inv (sft_start l) sr_first (numbered 0 ps) l1 es;
  sr_final : l' = {| l1 with ul_users :=
                       list_sort userlist_sort_h (sft_user <$> ul_users l1) |};
  sr_events : ∃ sync : bool,
    e = es ++ (ul_users l1 ≫= sft_user_events (ul_addh l1) (ul_removeh l1))
        ++ (if sync then [UlSync] else []) ++ kg_events (ul_keygenerator l) l1;
}.

Lemma sft_inv_ok l0 first ps l es :
  (∀ a p, kg_of l0 p = Some a → a ∈ (ui_ids (ul_self l0) :: ul_ids l0).*1) →
  sft_inv l0 first ps l es → ul_ok l.
Proof.
  intros Hkg0 [(new & Hu & _) Hself _ Hids _ Hk _ _]. split; [done|].
  intros a Ha. rewrite Ha in Hk. symmetry in Hk. apply bind_Some in Hk as ([i p] & _ & Hk).
  apply (Hkg0 _ p) in Hk. rewrite (frame_ids _ _ Hself). unfold ul_ids. rewrite Hu, fmap_app.
  rewrite fmap_ids by (intros; apply frame_ids, member_fold_frame).
  rewrite app_comm_cons, fmap_app. apply elem_of_app. by left.
Qed.

Lemma kg_of_elem l0 a p :
  kg_of l0 p = Some a → a ∈ (ui_ids (ul_self l0) :: ul_ids l0).*1.
Proof.
  unfold kg_of. destruct (part_is_self l0 p).
  - intros [= <-]. by left.
  - destruct (userlist_find_by_hash l0 _ _) as [u|] eqn:Hf; [|done]. intros [= <-].
    right. apply find_by_hash_elem in Hf.
    change (fst (ui_ids u) ∈ (ul_ids l0).*1).
    by apply list_elem_of_fmap_2, list_elem_of_fmap_2.
Qed.

Context {LS : LibReSpec}.

Definition sorted_users (l : userlist) : userlist :=
  {| l with ul_users := list_sort userlist_sort_h (ul_users l) |}.

Lemma sorted_users_keeps l : keeps_ids l (sorted_users l).
Proof. apply (keeps_users l). by rewrite list_sort_perm. Qed.

Lemma sft_update_spec l ps sc :
  ul_ok l →
  wp (sft_update (Some <$> ps) sc)
     (λ r l' e, ul_ok l' ∧
        ((r.1.1 = 0 ∧ is_Some r.1.2 ∧ ∃ first l1 es,
            sft_result l ps (sorted_users l') e first l1 es) ∨
         (r.1.1 = ENOMEM ∧ r.1.2 = None ∧ ∃ n, ul_mem_ok n = false))) l.
Proof.
  intros Hok. unfold sft_update, set_self, set_keygenerator, each_user.
  wp_steps. match goal with |- wp ?m ?Q _ => change (wp m Q (sft_start l)) end.
  destruct (find_first_approved_spec (sft_start l) ps 0) as (r & Hr & _ & Hf).
  eapply wp_of_ptr; [exact Hr|]. wp_step.
  eapply wp_mono.
  { eapply (sft_parts_spec (sft_start l) r ps []); [|set_solver|done|].
    - apply sft_inv_start, ok_ids, Hok.
    - intros k p. by apply first_recognised. }
  intros [err lo] l1 es (ps1 & ps2 & -> & Hinv & Hcase). cbn [fst snd app].
  destruct Hcase as [[E ->]|[E Hmem]]; cbn in E; subst err.
  - rewrite app_nil_r in *. change (negb (0 =? 0)) with false. cbn iota. wp_steps.
    apply wp_track. wp_steps.
    assert (Hok' : ul_ok l1) by (eapply sft_inv_ok; [|exact Hinv]; intros a p; apply kg_of_elem).
    split.
    + eapply ul_ok_keeps; [|exact Hok']. apply (keeps_users l1). cbn [ul_users].
      rewrite fmap_ids; [done|]. intros u. unfold sft_user. by repeat case_match.
    + left. split; [done|]. split; [done|]. exists r, l1, es. split; try done.
      eexists. cbn [app]. rewrite !app_nil_r. done.
  - change (negb (ENOMEM =? 0)) with true. cbn iota. wp_step. split; [|by right].
    eapply sft_inv_ok; [|exact Hinv]; intros a p; apply kg_of_elem.
Qed.

Lemma update_from_sftlist_spec l ps sc :
  ul_ok l →
  wp (userlist_update_from_sftlist (Some <$> ps) sc)
     (λ r l' e, ul_ok l' ∧
        ((r.1.1 = 0 ∧ is_Some r.1.2 ∧ ∃ first l1 es, sft_result l ps l' e first l1 es) ∨
         (r.1.1 = ENOMEM ∧ r.1.2 = None ∧ ∃ n, ul_mem_ok n = false))) l.
Proof.
  intros Hok. unfold userlist_update_from_sftlist. wp_step.
  eapply wp_mono; [by apply sft_update_spec|]. intros r l' e [Hok' Hcase].
  destruct Hcase as [(E & Hr & Hres)|(E & Hr & Hmem)]; rewrite E.
  - change (negb (0 =? 0)) with false. cbn iota. unfold sort_users. wp_steps.
    fold (sorted_users l'). cbn [app]. rewrite !app_nil_r. split; [|by left].
    eapply ul_ok_keeps; [apply sorted_users_keeps|done].
  - change (negb (ENOMEM =? 0)) with true. cbn iota. wp_step. split; [done|by right].
Qed.

(** ** The list before and after the reset *)

Lemma find_by_hash_start l p :
  userlist_find_by_hash (sft_start l) (gp_userid p) (gp_clientid p)
  = sft_reset <$> userlist_find_by_hash l (gp_userid p) (gp_clientid p).
Proof.
  rewrite (find_by_hash_inv l (sft_start l) sft_reset [] p); [|by rewrite app_nil_r|done].
  destruct (userlist_find_by_hash l _ _); [done|].
  by destruct (gp_userid p), (gp_clientid p).
Qed.

Lemma recognised_start l p : recognised (sft_start l) p = recognised l p.
Proof.
  unfold recognised. rewrite find_by_hash_start.
  rewrite (part_is_self_inv l (sft_start l)) by done.
  by destruct (userlist_find_by_hash l _ _).
Qed.

Lemma kg_of_start l p : kg_of (sft_start l) p = kg_of l p.
Proof.
  unfold kg_of. rewrite find_by_hash_start, (part_is_self_inv l (sft_start l)) by done.
  by destruct (userlist_find_by_hash l _ _).
Qed.

Lemma hits_start l p u : hits (sft_start l) p (sft_reset u) = hits l p u.
Proof.
  unfold hits. rewrite find_by_hash_start, (part_is_self_inv l (sft_start l)) by done.
  by destruct (userlist_find_by_hash l _ _).
Qed.
End Sft.
