(* ===== verification/UserListOps.v ===== *)
(** * The member list: reachable states

    The invariant of the list under [userlist_update_from_selist], and then
    under every sequence of operations ([userlist_reachable_ok]). *)

From S2P Require Import Prelude LibRe EconnMsg UserHash AudioLevel UserList UserListSpec UserListSft.

Section Se.
Context `{L : LibRe, Hs : Sodium, UE : UlEnv} {LS : LibReSpec} {HL : SodiumLen Hs}.

(** An assignment through a pointer changes one element. *)
Lemma set_user_split (f : userinfo → userinfo) us1 us2 u :
  NoDup (ui_addr <$> us1 ++ u :: us2) →
  (λ v, if (ui_addr v =? ui_addr u)%nat then f v else v) <$> (us1 ++ u :: us2)
  = us1 ++ f u :: us2.
Proof.
  intros Hn. rewrite fmap_app, fmap_cons, Nat.eqb_refl in *.
  rewrite fmap_app, NoDup_app in Hn. destruct Hn as (_ & H1 & [H2 _]%NoDup_cons).
  assert (Hid : ∀ us : list userinfo, (∀ v, v ∈ us → ui_addr v ≠ ui_addr u) →
    (λ v, if (ui_addr v =? ui_addr u)%nat then f v else v) <$> us = us).
  { intros us Hus. rewrite <- (list_fmap_id us) at 2. apply list_fmap_ext.
    intros i v Hv%list_elem_of_lookup_2. apply Hus, Nat.eqb_neq in Hv. by rewrite Hv. }
  f_equal; [|f_equal]; apply Hid; intros v Hv E.
  - apply (H1 (ui_addr v)); [by apply list_elem_of_fmap_2|]. rewrite E. by left.
  - apply H2. rewrite <- E. by apply list_elem_of_fmap_2.
Qed.

Lemma ids_match_true a b uid cid :
  is_Some a → is_Some b → ci_eq a (Some uid) → ci_eq b (Some cid) →
  ids_match a b uid cid = true.
Proof.
  intros [a' ->] [b' ->] Ha Hb. unfold ids_match.
  apply andb_true_iff. by rewrite !strcaseeq_true.
Qed.

(** A client that is not found by its identifiers is not in the list. *)
Lemma fresh_client l uid cid j :
  userlist_find_by_real l uid cid = None → j ∈ ul_ids l →
  ¬ same_client (uid, cid) j.2 ∧ ¬ same_client j.2 (uid, cid).
Proof.
  intros Hf (u & -> & Hu)%list_elem_of_fmap. unfold userlist_find_by_real in Hf.
  assert (Hno : ∀ s t, uid = Some s → cid = Some t →
    ids_match (ui_userid_real u) (ui_clientid_real u) s t = false).
  { intros s t -> ->. by apply (find_None_all _ _ Hf). }
  split; intros ([s ?] & [t ?] & [s' ?] & [t' ?] & E1 & E2); cbn in *; subst uid cid.
  - specialize (Hno s t eq_refl eq_refl). rewrite ids_match_true in Hno; [done|by eexists..| |].
    all: by symmetry.
  - specialize (Hno s' t' eq_refl eq_refl). rewrite ids_match_true in Hno; [done|by eexists..| |].
    all: done.
Qed.

(** A client that is not this one. *)
Lemma not_self_client l uid cid :
  strcaseeq (ui_userid_real (ul_self l)) uid
  && strcaseeq (ui_clientid_real (ul_self l)) cid = false →
  ¬ same_client (uid, cid) (ui_ids (ul_self l)).2.
Proof.
  intros E (_ & _ & _ & _ & E1 & E2). cbn in *. symmetry in E1, E2.
  apply strcaseeq_true in E1, E2. by rewrite E1, E2 in E.
Qed.

(** A client seen for the first time. *)
Lemma se_new_ok l cli epoch u lo n :
  ul_ok l → (ui_addr u < ul_tick l)%nat → ids_ok (ui_ids (ul_self l)) (ul_ids l) n →
  ui_addr u = n →
  (∀ j, j ∈ ul_ids l → ¬ same_client (ui_ids u).2 j.2 ∧ ¬ same_client j.2 (ui_ids u).2) →
  ¬ same_client (ui_ids u).2 (ui_ids (ul_self l)).2 →
  wp (se_new cli epoch u lo) (λ _ l' _, ul_ok l') l.
Proof.
  intros Hok Ht Hn Ha Hj Hself. unfold se_new, append_user. wp_steps.
  eapply wp_mono; [by apply wp_keeps_set_user|]. intros [] l' e Hl'. wp_step.
  eapply ul_ok_keeps; [exact Hl'|]. split.
  - unfold ul_ids. cbn. rewrite fmap_app. eapply ids_ok_tick.
    + by apply (ids_ok_snoc _ _ n).
    + cbn. lia.
  - intros a Hk.
    change (a ∈ (ui_ids (ul_self l) :: (ui_ids <$> ul_users l ++ [u])).*1).
    rewrite fmap_app, app_comm_cons, fmap_app.
    apply elem_of_app. left. by apply (ok_kg l Hok).
Qed.

(** Following a pointer to a member. *)
Lemma deref_user_at l v :
  v ∈ ul_users l → ∃ u, deref_user (ui_addr v) l = Some (u, l, []) ∧
                        ui_addr u = ui_addr v ∧ u ∈ ul_users l.
Proof.
  intros Hv. unfold deref_user.
  destruct (List.find (λ u, (ui_addr u =? ui_addr v)%nat) (ul_users l)) as [u|] eqn:Hf.
  - exists u. cbn. unfold mbind, MU_bind. cbn. rewrite Hf. cbn.
    apply find_Some_split in Hf as [Hf ?]. by apply Nat.eqb_eq in Hf.
  - apply (find_None_all _ _ Hf) in Hv. by rewrite Nat.eqb_refl in Hv.
Qed.

(** A participant that turns out to be a client. *)
Lemma se_identify_ok l cli epoch prev user lo :
  ul_ok l → user ∈ ul_users l →
  (∀ j, j ∈ ul_ids l → ¬ same_client (cl_userid cli, cl_clientid cli) j.2 ∧
                       ¬ same_client j.2 (cl_userid cli, cl_clientid cli)) →
  ¬ same_client (cl_userid cli, cl_clientid cli) (ui_ids (ul_self l)).2 →
  wp (se_identify cli epoch prev user lo) (λ _ l' _, ul_ok l') l.
Proof.
  intros Hok Hin Hj Hself. pose proof (ok_ids l Hok) as Hids.
  pose proof (ids_ok_addr_nodup _ _ _ Hids) as Hn.
  apply list_elem_of_split in Hin as (us1 & us2 & Hus). rewrite Hus in Hn.
  unfold se_identify. cbv zeta. apply wp_bind, wp_modify. wp_step. wp_step.
  rewrite Hus, set_user_split by done.
  set (f := λ u : userinfo, {| u with ui_userid_real := cl_userid cli;
                             ui_clientid_real := cl_clientid cli; ui_first_epoch := epoch |}).
  match goal with |- wp ?m ?Q ?l' => set (l1 := l') end.
  assert (Hok1 : ul_ok l1).
  { unfold ul_ids in Hids, Hj. rewrite Hus, fmap_app, fmap_cons in Hids, Hj. split.
    - unfold ul_ids. cbn. rewrite fmap_app. cbn. eapply ids_ok_rename; [exact Hids| |done].
      intros j. rewrite elem_of_app. intros Hj'. apply Hj. rewrite elem_of_app, elem_of_cons.
      tauto.
    - intros a Ha. apply (ok_kg l Hok) in Ha. revert Ha. unfold ul_ids. cbn [ul_users ul_self l1].
      rewrite Hus, !fmap_cons, !fmap_app. done. }
  assert (Hin1 : f user ∈ ul_users l1) by apply elem_mid.
  apply wp_bind. destruct (deref_user_at l1 (f user) Hin1) as (u & Hu & Ha & Hu1).
  eapply wp_of_run; [exact Hu|]. cbn beta. wp_step. wp_step. wp_step.
  assert (Hset : ∀ l2, ul_ok l2 →
    wp (set_user (ui_addr user) (λ u, {| u with ui_needs_key := true; ui_force_decoder := false |}))
       (λ _ l' _, ul_ok l') l2).
  { intros l2 Hok2. eapply wp_mono; [by apply wp_keeps_set_user|]. intros [] l' e Hl'.
    by eapply ul_ok_keeps. }
  destruct (ui_listpos u =? 0); wp_steps; [apply wp_track; wp_step|].
  all: eapply wp_mono; [apply Hset|intros [] l' e Hl'; by wp_step].
  2: exact Hok1.
  split; [exact (ok_ids l1 Hok1)|]. intros a [= <-]. right.
  change (ui_addr user) with (fst (ui_ids (f user))).
  by apply list_elem_of_fmap_2, list_elem_of_fmap_2.
Qed.

Lemma se_client_ok l epoch secret prev e lo :
  ul_ok l → wp (se_client epoch secret prev e lo) (λ _ l' _, ul_ok l') l.
Proof.
  intros Hok. unfold se_client. destruct e as [cli|]; [|by wp_step]. wp_step. wp_step.
  destruct (strcaseeq _ _ && strcaseeq _ _) eqn:Eself; [by wp_step|].
  apply not_self_client in Eself.
  destruct (userlist_find_by_real l _ _) as [user|] eqn:Hf.
  { apply (wp_mono _ (λ _ l' _, keeps_ids l l')); [|intros; by eapply ul_ok_keeps].
    apply wp_keeps_bind; [apply hash_member_keeps|]. intros. repeat keeps_step. }
  pose proof (λ j, fresh_client l _ _ j Hf) as Hfresh.
  unfold ul_alloc. wp_steps. destruct (ul_mem_ok (ul_tick l)).
  2:{ wp_step. eapply ul_ok_keeps; [apply keeps_tick|done]. }
  wp_step. apply wp_hash_userinfo. intros h. wp_step. wp_step.
  match goal with |- wp ?m ?Q ?l' => set (l2 := l') end.
  assert (Hk : keeps_ids l l2) by (by etrans; apply keeps_tick).
  pose proof (ul_ok_keeps _ _ Hk Hok) as Hok2.
  assert (Hnew : ∀ u lo, ui_ids u = (ul_tick l, (cl_userid cli, cl_clientid cli)) →
    wp (se_new cli epoch u lo) (λ _ l' _, ul_ok l') l2).
  { intros u lo' Hu. pose proof (f_equal fst Hu) as Ha. cbn in Ha.
    apply (se_new_ok _ _ _ _ _ (ul_tick l)); rewrite ?Hu; try done.
    - cbn. lia.
    - exact (ok_ids l Hok). }
  destruct (userlist_find_by_hash l2 _ _) as [user|] eqn:Hh; [|by apply Hnew].
  destruct (negb (ui_se_approved user)); [|by apply Hnew].
  wp_step. eapply wp_mono; [apply se_identify_ok; [done|by eapply find_by_hash_elem|done|done]|].
  intros lo' l3 e3 Hok3. wp_step. eapply wp_mono; [by apply wp_keeps_set_user|].
  intros [] l4 e4 Hk4. wp_step. by eapply ul_ok_keeps.
Qed.

Lemma se_clients_ok epoch secret prev cs : ∀ lo l,
  ul_ok l → wp (se_clients epoch secret prev cs lo) (λ _ l' _, ul_ok l') l.
Proof.
  induction cs as [|e cs IH]; intros lo l Hok; cbn [se_clients]; [by wp_step|].
  wp_step. eapply wp_mono; [by apply se_client_ok|]. intros [lo'|] l' e' Hok'; [|by wp_step].
  by apply IH.
Qed.

Lemma update_from_selist_ok cs epoch secret l :
  ul_ok l → wp (userlist_update_from_selist cs epoch secret) (λ _ l' _, ul_ok l') l.
Proof.
  intros Hok. unfold userlist_update_from_selist. wp_step. wp_step. wp_step.
  eapply wp_mono; [by apply wp_keeps_each|]. intros [] l1 e1 Hk1. wp_step.
  eapply wp_mono; [apply se_clients_ok; by eapply ul_ok_keeps|].
  intros [lo|] l2 e2 Hok2; [|by wp_step]. wp_step. wp_step. wp_step.
  eapply wp_mono; [apply wp_keeps_each|].
  - intros u. unfold se_finish. by destruct (negb _).
  - intros [] l3 e3 Hk3. wp_steps. by eapply ul_ok_keeps.
Qed.
End Se.
