(* ===== verification/UserListProps.v ===== *)
(** * Properties of the member list

    What the components that use the list rely on: the invariant in every
    reachable state, the election of the key generator and its agreement among
    clients, the members in the call, decoders and keys for those who join, and
    the summaries the application is shown. *)

From S2P Require Import Prelude LibRe EconnMsg UserHash AudioLevel UserList UserListSpec UserListSft UserListOps.

Section Props.
Context `{L : LibRe, Hs : Sodium, UE : UlEnv} {LS : LibReSpec} {HL : SodiumLen Hs}.

(** ** The members the application is shown *)

Lemma member_count us n :
  foldl (λ n u, if is_member u then S n else n) n us
  = (n + length (List.filter is_member us))%nat.
Proof.
  revert n. induction us as [|u us IH]; intros n; cbn; [lia|]. rewrite IH.
  destruct (is_member u); cbn; lia.
Qed.

Lemma put_members_fill us : ∀ done,
  let todo := List.filter is_member us in
  put_members {| mm_membv := (Some <$> done) ++ replicate (length todo) None;
                 mm_membc := length done |} us
  = Some {| mm_membv := Some <$> (done ++ (member_of <$> todo));
            mm_membc := length (done ++ (member_of <$> todo)) |}.
Proof.
  induction us as [|u us IH]; intros done; cbn; [by rewrite !app_nil_r|].
  destruct (is_member u); [|by rewrite IH].
  unfold put_member. cbn [mm_membc mm_membv length]. rewrite length_app, length_fmap.
  cbn [length replicate]. rewrite length_replicate.
  replace (length done <? _)%nat with true by (symmetry; apply Nat.ltb_lt; lia).
  cbn [mbind option_bind]. specialize (IH (done ++ [member_of u])). cbn zeta in IH.
  rewrite insert_app_r_alt by (by rewrite length_fmap).
  rewrite length_fmap, Nat.sub_diag. cbn [insert list_insert].
  rewrite fmap_app, length_app in IH. cbn in IH. rewrite <- (assoc_L (++)) in IH. cbn in IH.
  replace (S (length done)) with (length done + 1)%nat by lia. rewrite IH.
  by rewrite <- !(assoc_L (++)).
Qed.

(** [userlist_get_members] never writes outside the array it allocates and
    leaves no element of it unset: it lists this client first, and then exactly
    the approved members that are in the call or in the subconversation, in
    list order; it fails only when memory does, and changes no member. *)
Theorem get_members_in_bounds muted astate vstate l :
  wp (userlist_get_members muted astate vstate)
     (λ r l' e, e = [] ∧ ul_users l' = ul_users l ∧
        (r = (ENOMEM, None) ∧ (∃ n, ul_mem_ok n = false) ∨
         ∃ self, wm_userid self = ui_userid_real (ul_self l) ∧
                 wm_clientid self = ui_clientid_real (ul_self l) ∧
                 let mm := self :: (member_of <$> List.filter is_member (ul_users l)) in
                 r = (0, Some {| mm_membv := Some <$> mm; mm_membc := length mm |}))) l.
Proof.
  unfold userlist_get_members, ul_alloc. wp_steps.
  destruct (ul_mem_ok (ul_tick l)) eqn:M1.
  2:{ rewrite bool_decide_eq_true_2 by done. wp_step. split; [done|]. split; [done|]. left. split; [done|]. by eexists. }
  rewrite bool_decide_eq_false_2 by done. wp_steps. cbn [ul_tick]. destruct (ul_mem_ok (S (ul_tick l))) eqn:M2.
  2:{ rewrite bool_decide_eq_true_2 by done. wp_step. split; [done|]. split; [done|]. left. split; [done|]. by eexists. }
  rewrite bool_decide_eq_false_2 by done. wp_step. rewrite member_count. eapply wp_of_ptr; [done|]. wp_step.
  eapply wp_of_ptr.
  { apply (put_members_fill (ul_users l) [_]). }
  wp_step. split; [done|]. split; [done|]. right. eexists. by repeat split.
Qed.

(** ** Reachable states *)

(** The calls a client makes on the list.  The entries of a participant list
    come from a decoded message and are not [NULL]. *)
Inductive ul_op :=
| OpSetSecret (secret : list Z)
| OpSftList (partlist : list econn_group_part)
| OpSeList (clientl : list (option icall_client)) (epoch : Z) (secret : list Z)
| OpResetKeygenerator
| OpSetLatestEpoch (epoch : Z)
| OpSetLatestEpochFor (userid clientid : option string) (epoch : Z)
| OpIncallClear (force_decoder again : bool)
| OpGetKeyTargets (send_to_all : bool)
| OpGetMembers (muted : bool) (astate : icall_audio_state) (vstate : icall_vstate)
| OpGetPartlist (require_subconv : bool)
| OpGetMyClients
| OpAudioLevel (levell : list (option audio_level_t))
| OpResetVideoStates.

Definition ul_exec (o : ul_op) : ULM () :=
  match o with
  | OpSetSecret s => userlist_set_secret s;; mret ()
  | OpSftList ps => userlist_update_from_sftlist (Some <$> ps) false;; mret ()
  | OpSeList cs ep s => userlist_update_from_selist cs ep s;; mret ()
  | OpResetKeygenerator => userlist_reset_keygenerator
  | OpSetLatestEpoch ep => userlist_set_latest_epoch ep;; mret ()
  | OpSetLatestEpochFor u c ep => userlist_set_latest_epoch_for_client u c ep;; mret ()
  | OpIncallClear fd again => userlist_incall_clear fd again
  | OpGetKeyTargets all => userlist_get_key_targets all;; mret ()
  | OpGetMembers m a v => userlist_get_members m a v;; mret ()
  | OpGetPartlist b => userlist_get_partlist b;; mret ()
  | OpGetMyClients => userlist_get_my_clients;; mret ()
  | OpAudioLevel ls => userlist_update_audio_level ls;; mret ()
  | OpResetVideoStates => userlist_reset_video_states;; mret ()
  end.

Fixpoint ul_execs (os : list ul_op) : ULM () :=
  match os with
  | [] => mret ()
  | o :: os => ul_exec o;; ul_execs os
  end.

Lemma wp_then_ret {A} (m : ULM A) (P : userlist → Prop) l :
  wp m (λ _ l' _, P l') l → wp (m;; mret ()) (λ _ l' _, P l') l.
Proof. intros Hm. wp_step. eapply wp_mono; [exact Hm|]. intros a l' e Hl'. by wp_step. Qed.

Lemma wp_ok_of_keeps {A} (m : ULM A) l :
  ul_ok l → wp_keeps m l → wp m (λ _ l' _, ul_ok l') l.
Proof. intros Hok Hm. eapply wp_mono; [exact Hm|]. intros a l' e Hl'. exact (ul_ok_keeps _ _ Hl' Hok). Qed.

Lemma get_members_keeps m a v l : wp_keeps (userlist_get_members m a v) l.
Proof.
  unfold userlist_get_members. do 2 keeps_step. case_match; [keeps_step|]. keeps_step.
  case_match; [keeps_step|]. rewrite member_count. wp_step. eapply wp_of_ptr; [done|]. wp_step.
  eapply wp_of_ptr; [apply (put_members_fill (ul_users l) [_])|]. by wp_step.
Qed.

Lemma ul_exec_ok o l : ul_ok l → wp (ul_exec o) (λ _ l' _, ul_ok l') l.
Proof.
  intros Hok. destruct o; cbn [ul_exec]; try apply wp_then_ret.
  - apply wp_ok_of_keeps, set_secret_keeps. done.
  - eapply wp_mono; [by apply update_from_sftlist_spec|]. by intros r l' e [? _].
  - by apply update_from_selist_ok.
  - apply wp_modify. split; [exact (ok_ids l Hok)|done].
  - by apply wp_ok_of_keeps, set_latest_epoch_keeps.
  - by apply wp_ok_of_keeps, set_latest_epoch_for_client_keeps.
  - by apply wp_ok_of_keeps, incall_clear_keeps.
  - by apply wp_ok_of_keeps, get_key_targets_keeps.
  - by apply wp_ok_of_keeps, get_members_keeps.
  - apply wp_ok_of_keeps; [done|]. keeps_step. apply collect_loop_keeps.
  - apply wp_ok_of_keeps; [done|]. keeps_step. apply collect_loop_keeps.
  - by apply wp_ok_of_keeps, update_audio_level_keeps.
  - by apply wp_ok_of_keeps, reset_video_states_keeps.
Qed.

Lemma ul_execs_ok os : ∀ l, ul_ok l → wp (ul_execs os) (λ _ l' _, ul_ok l') l.
Proof.
  induction os as [|o os IH]; intros l Hok; cbn [ul_execs]; [by wp_step|].
  wp_step. eapply wp_mono; [by apply ul_exec_ok|]. intros [] l' e Hl'. by apply IH.
Qed.

Lemma userlist_alloc_ok n uid cid ah rh sh kh vh l :
  userlist_alloc n uid cid ah rh sh kh vh = (0, Some l) → ul_ok l.
Proof.
  unfold userlist_alloc. destruct (ul_mem_ok n); [|done]. cbn.
  destruct (ul_mem_ok (S n)); [|done]. intros [= <-]. split; [|done]. split; cbn.
  - apply NoDup_singleton.
  - intros i ->%list_elem_of_singleton. cbn. lia.
  - intros i j []%not_elem_of_nil.
  - intros i []%not_elem_of_nil.
Qed.

(** C23: after [userlist_alloc], every sequence of operations on the list has a
    defined behaviour, and it leaves a list in which no client occurs twice and
    this client does not occur, members are distinct objects, and the key
    generator, when there is one, is this client or a member of the list. *)
Theorem userlist_reachable_ok n uid cid ah rh sh kh vh l os :
  userlist_alloc n uid cid ah rh sh kh vh = (0, Some l) →
  wp (ul_execs os)
     (λ _ l' _,
        NoDup (ui_addr <$> ul_users l') ∧
        (∀ u v, u ∈ ul_users l' → v ∈ ul_users l' →
           same_client (ui_ids u).2 (ui_ids v).2 → u = v) ∧
        (∀ u, u ∈ ul_users l' → ¬ same_client (ui_ids u).2 (ui_ids (ul_self l')).2) ∧
        (∀ a, ul_keygenerator l' = Some a →
           a = ui_addr (ul_self l') ∨ a ∈ ui_addr <$> ul_users l')) l.
Proof.
  intros Halloc. apply userlist_alloc_ok in Halloc as Hok.
  eapply wp_mono; [by apply ul_execs_ok|]. intros _ l' _ [Hids Hkg].
  pose proof (ids_ok_addr_nodup _ _ _ Hids) as Hn. split; [done|]. split; [|split].
  - intros u v Hu Hv Hsc. apply (addr_inj _ _ _ Hn Hu Hv).
    apply (f_equal fst (ids_clients _ _ _ Hids (ui_ids u) (ui_ids v)
      (list_elem_of_fmap_2 _ _ _ Hu) (list_elem_of_fmap_2 _ _ _ Hv) Hsc)).
  - intros u Hu. apply (ids_not_self _ _ _ Hids). by apply list_elem_of_fmap_2.
  - intros a Ha%Hkg. change (a ∈ ui_addr (ul_self l') :: (ul_ids l').*1) in Ha.
    apply elem_of_cons in Ha as [Ha|Ha]; [by left|]. right. unfold ul_ids in Ha.
    by rewrite <- list_fmap_compose in Ha.
Qed.

(** ** The key generator *)

(** The key generator after a report: who the first recognised entry names. *)
Definition elected (l : userlist) (ps : list econn_group_part) : option nat :=
  p ← List.find (recognised l) ps; kg_of l p.

Lemma sft_result_kg l ps l' e first l1 es :
  sft_result l ps l' e first l1 es → ul_keygenerator l1 = elected l ps.
Proof.
  intros [Hf [_ _ _ _ _ Hk _ _] _ _]. rewrite Hk. unfold elected.
  rewrite (find_ext_in (recognised l) (recognised (sft_start l)))
    by (intros; symmetry; apply recognised_start).
  rewrite <- Hf. destruct (List.find _ (numbered 0 ps)) as [[i p]|]; [|done]. cbn.
  exact (kg_of_start l p).
Qed.

(** The callbacks about key generators among those of an operation. *)
Definition is_kg_event (e : ul_event) : bool :=
  match e with UlKgChange _ _ _ => true | _ => false end.

Lemma kg_events_only (prev : option nat) l e0 :
  List.filter is_kg_event e0 = [] →
  List.filter is_kg_event (e0 ++ kg_events prev l) = kg_events prev l.
Proof.
  intros E. rewrite List.filter_app, E. unfold kg_events.
  destruct (ul_keygenerator l); [|done]. by destruct (_ || _).
Qed.

Lemma filter_none_app {A} (f : A → bool) l1 l2 :
  List.filter f l1 = [] → List.filter f l2 = [] → List.filter f (l1 ++ l2) = [].
Proof. intros E1 E2. by rewrite List.filter_app, E1, E2. Qed.

Lemma removes_no_kg es : forallb is_remove es = true → List.filter is_kg_event es = [].
Proof.
  induction es as [|e es IH]; [done|]. cbn. intros [He Hes]%andb_true_iff.
  rewrite IH by done. by destruct e.
Qed.

Lemma user_events_no_kg us ah rh : List.filter is_kg_event (us ≫= sft_user_events ah rh) = [].
Proof.
  induction us as [|u us IH]; [done|]. cbn. apply filter_none_app; [|exact IH].
  unfold sft_user_events. by repeat case_match.
Qed.

Lemma sft_result_kg_events l ps l' e first l1 es :
  sft_result l ps l' e first l1 es →
  List.filter is_kg_event e = kg_events (ul_keygenerator l) l1.
Proof.
  intros [_ [_ _ _ _ _ _ He _] _ [sync ->]]. rewrite !(assoc_L (++)).
  apply kg_events_only. apply filter_none_app; [|by destruct sync].
  apply filter_none_app; [by apply removes_no_kg|apply user_events_no_kg].
Qed.

(** a report of the SFT server elects the key generator: it is named by the
    first entry that is this client's or an approved member's, and there is none
    when there is no such entry.  The application is told exactly once, when the
    elected one is not the key generator there was before; the update fails only
    when memory does, and always leaves a well-formed list. *)
Theorem keygenerator_elected l ps sc :
  ul_ok l →
  wp (userlist_update_from_sftlist (Some <$> ps) sc)
     (λ r l' e, ul_ok l' ∧
        (r.1.1 = 0 ∧ ul_keygenerator l' = elected l ps ∧
         List.filter is_kg_event e = kg_events (ul_keygenerator l) l' ∨
         r.1.1 = ENOMEM ∧ ∃ n, ul_mem_ok n = false)) l.
Proof.
  intros Hok. eapply wp_mono; [by apply update_from_sftlist_spec|].
  intros r l' e [Hok' [(E & _ & first & l1 & es & Hr)|(E & _ & Hm)]]; (split; [done|]); [left|by right].
  pose proof (sft_result_kg _ _ _ _ _ _ _ Hr) as Hk.
  pose proof (sft_result_kg_events _ _ _ _ _ _ _ Hr) as He.
  destruct Hr as [_ _ -> _]. done.
Qed.

(** The entry of another client. *)
Definition names (p : econn_group_part) (u : userinfo) : bool :=
  match gp_userid p, gp_clientid p with
  | Some uid, Some cid => ids_match (ui_userid_hash u) (ui_clientid_hash u) uid cid
  | _, _ => false
  end.

(** What an elected key generator is for a client. *)
Definition kg_role (l : userlist) (p : econn_group_part) (kg : option nat) : Prop :=
  (part_is_self l p = true ∧ kg = Some (ui_addr (ul_self l))) ∨
  (part_is_self l p = false ∧
   ∃ u, u ∈ ul_users l ∧ names p u = true ∧ ui_se_approved u = true ∧ kg = Some (ui_addr u)).

Lemma elected_role l p : recognised l p = true → kg_role l p (kg_of l p).
Proof.
  unfold recognised, kg_of, kg_role. destruct (part_is_self l p); [by left|]. cbn.
  intros Hr. right. split; [done|].
  destruct (userlist_find_by_hash l _ _) as [u|] eqn:Hf; [|done]. exists u.
  split; [by eapply find_by_hash_elem|]. split; [|done]. revert Hf.
  unfold userlist_find_by_hash, names. destruct (gp_userid p), (gp_clientid p); try done.
  by intros [? _]%find_Some_split.
Qed.

(** The key generators two clients elect. *)
Lemma elected_agree lA lB ps :
  (∀ p, p ∈ ps → recognised lA p = recognised lB p) →
  elected lA ps = None ∧ elected lB ps = None ∨
  ∃ p, p ∈ ps ∧ kg_role lA p (elected lA ps) ∧ kg_role lB p (elected lB ps).
Proof.
  intros Hrec. unfold elected. rewrite <- (find_ext_in _ _ _ Hrec).
  destruct (List.find (recognised lA) ps) as [p|] eqn:Hf; [right|by left].
  apply find_Some_split in Hf as [HA Hin]. exists p. cbn. split; [done|].
  split; apply elected_role; [done|]. by rewrite <- Hrec.
Qed.

(** With memory, a report elects. *)
Lemma update_elects l ps sc :
  ul_ok l → (∀ n, ul_mem_ok n = true) →
  wp (userlist_update_from_sftlist (Some <$> ps) sc)
     (λ _ l' _, ul_keygenerator l' = elected l ps ∧ ui_addr (ul_self l') = ui_addr (ul_self l)) l.
Proof.
  intros Hok Hmem. eapply wp_mono; [by apply update_from_sftlist_spec|].
  intros r l' e [_ [(_ & _ & first & l1 & es & Hr)|(_ & _ & n & Hn)]]; [|by rewrite Hmem in Hn].
  pose proof (sft_result_kg _ _ _ _ _ _ _ Hr) as Hk.
  destruct Hr as [_ Hinv -> _]. split; [done|]. exact (frame_addr _ _ (si_self _ _ _ _ _ Hinv)).
Qed.

(** Two clients that process the same report, and that trust the same
    entries of it, agree on the key generator: both find none, or one entry of
    the report names the key generator of either of them, as itself or as a
    member of its list. *)
Theorem keygenerator_agreed lA lB ps scA scB :
  ul_ok lA → ul_ok lB → (∀ n, ul_mem_ok n = true) →
  (∀ p, p ∈ ps → recognised lA p = recognised lB p) →
  wp (userlist_update_from_sftlist (Some <$> ps) scA) (λ _ lA' _,
    wp (userlist_update_from_sftlist (Some <$> ps) scB) (λ _ lB' _,
      ul_keygenerator lA' = None ∧ ul_keygenerator lB' = None ∨
      ∃ p, p ∈ ps ∧ kg_role lA p (ul_keygenerator lA') ∧
           kg_role lB p (ul_keygenerator lB')) lB) lA.
Proof.
  intros HokA HokB Hmem Hrec.
  eapply wp_mono; [by apply update_elects|]. intros _ lA' _ [-> _].
  eapply wp_mono; [by apply update_elects|]. intros _ lB' _ [-> _].
  by apply elected_agree.
Qed.

Lemma self_not_member l u : ul_ok l → u ∈ ul_users l → ui_addr u ≠ ui_addr (ul_self l).
Proof.
  intros [[Hn _ _ _] _] Hu E. apply NoDup_cons in Hn as [Hn _]. apply Hn.
  change (ui_addr (ul_self l) ∈ (ul_ids l).*1). rewrite <- E.
  change (fst (ui_ids u) ∈ (ul_ids l).*1). by apply list_elem_of_fmap_2, list_elem_of_fmap_2.
Qed.

(** C24: at most one key generator: of two clients with different hashed
    identifiers that process the same report and trust the same entries of it,
    at most one takes itself for the key generator. *)
Theorem keygenerator_unique lA lB ps scA scB :
  ul_ok lA → ul_ok lB → (∀ n, ul_mem_ok n = true) →
  (∀ p, p ∈ ps → recognised lA p = recognised lB p) →
  strcaseeq (ui_userid_hash (ul_self lA)) (ui_userid_hash (ul_self lB)) = false →
  wp (userlist_update_from_sftlist (Some <$> ps) scA) (λ _ lA' _,
    wp (userlist_update_from_sftlist (Some <$> ps) scB) (λ _ lB' _,
      userlist_is_keygenerator_me lA' && userlist_is_keygenerator_me lB' = false) lB) lA.
Proof.
  intros HokA HokB Hmem Hrec Hne.
  assert (Hme : ∀ l p, ul_ok l → kg_role l p (Some (ui_addr (ul_self l))) →
                       ci_eq (ui_userid_hash (ul_self l)) (gp_userid p)).
  { intros l p Hok [[Hp _]|(_ & u & Hu & _ & _ & [= E])].
    - apply andb_true_iff in Hp as [Hp _]. by apply strcaseeq_true.
    - by destruct (self_not_member l u Hok Hu). }
  eapply wp_mono; [by apply update_elects|]. intros _ lA' _ [EA SA].
  eapply wp_mono; [by apply update_elects|]. intros _ lB' _ [EB SB].
  unfold userlist_is_keygenerator_me. rewrite EA, EB, SA, SB.
  apply andb_false_iff. rewrite !bool_decide_eq_false.
  destruct (decide (elected lA ps = Some (ui_addr (ul_self lA)))) as [DA|]; [right|by left].
  intros DB. destruct (elected_agree lA lB ps Hrec) as [[? ?]|(p & _ & RA & RB)]; [congruence|].
  rewrite DA in RA. rewrite DB in RB. apply Hme in RA, RB; try done.
  apply (not_true_iff_false _) in Hne. apply Hne, strcaseeq_true. by rewrite RA, RB.
Qed.

(** ** The key index all members can follow *)

(** A member whose epoch counts. *)
Definition eligible (u : userinfo) : bool :=
  ui_se_approved u && ui_in_subconv u && ui_incall_now u.

(** The epochs that are known: this client's and those of the eligible
    members, 0 standing for an unknown one. *)
Definition known_epochs (l : userlist) : list Z :=
  List.filter (λ e, 0 <? e)
    (ui_latest_epoch (ul_self l) :: (ui_latest_epoch <$> List.filter eligible (ul_users l))).

(** The least of a list, 0 for the empty list. *)
Definition least (es : list Z) : Z :=
  match es with [] => 0 | e :: es => foldl Z.min e es end.

Lemma key_index_step us : ∀ m,
  0 <= m →
  foldl (λ min_key u,
    if ui_se_approved u && ui_in_subconv u && ui_incall_now u then
      if (0 <? ui_latest_epoch u) && ((min_key =? 0) || (ui_latest_epoch u <? min_key))
      then ui_latest_epoch u else min_key
    else min_key) m us
  = least (List.filter (λ e, 0 <? e) (m :: (ui_latest_epoch <$> List.filter eligible us))).
Proof.
  induction us as [|u us IH]; intros m Hm; cbn [foldl].
  { cbn. destruct (Z.ltb_spec 0 m); cbn; lia. }
  cbn [List.filter fmap list_fmap]. fold (eligible u). destruct (eligible u); [|by apply IH].
  cbn [fmap list_fmap List.filter]. destruct (Z.ltb_spec 0 (ui_latest_epoch u)) as [Hp|Hp];
    cbn [andb]; [|by apply IH].
  destruct (Z.eqb_spec m 0) as [->|Hm0]; cbn [orb].
  { rewrite IH by lia. cbn [List.filter]. by destruct (Z.ltb_spec 0 (ui_latest_epoch u)); [|lia]. }
  destruct (Z.ltb_spec (ui_latest_epoch u) m) as [Hl|Hl]; rewrite IH by lia; cbn [List.filter].
  - replace (0 <? ui_latest_epoch u) with true by (symmetry; by apply Z.ltb_lt).
    replace (0 <? m) with true by (symmetry; apply Z.ltb_lt; lia). cbn [least foldl].
    by rewrite Z.min_r by lia.
  - replace (0 <? m) with true by (symmetry; apply Z.ltb_lt; lia). cbn [least foldl].
    by rewrite Z.min_l by lia.
Qed.

(** C34: [userlist_get_key_index] is the least epoch among those this client and
    the approved members of the subconversation that are in the call are known
    to have reached, and 0 when no epoch is known: the newest key that all of
    them can decrypt with. *)
Theorem key_index_least l :
  0 <= ui_latest_epoch (ul_self l) →
  userlist_get_key_index l = least (known_epochs l).
Proof. intros Hself. by apply key_index_step. Qed.
End Props.
