(* ===== verification/UserListMembers.v ===== *)
(** * Who is in the call, and who has a decoder

    The members after a report of the SFT server, the callbacks that create and
    destroy their decoders, and the keys sent to them. *)

From S2P Require Import Prelude LibRe EconnMsg UserHash AudioLevel UserList UserListSpec UserListSft UserListOps.

Section Members.
Context `{L : LibRe, UE : UlEnv} {LS : LibReSpec}.

(** ** One member under the entries of a report *)

Lemma member_fold_now l0 ps u :
  ui_incall_now (member_fold l0 ps u) = ui_incall_now u || existsb (λ ip, hits l0 ip.2 u) ps.
Proof.
  unfold member_fold. generalize u at 2 3 as u'.
  induction ps as [|ip ps IH]; intros u'; cbn; [by rewrite orb_false_r|].
  rewrite IH. destruct (hits l0 ip.2 u); cbn; [by rewrite orb_true_r|done].
Qed.

Lemma member_fold_nohit l0 ps u :
  existsb (λ ip, hits l0 ip.2 u) ps = false → member_fold l0 ps u = u.
Proof.
  unfold member_fold. generalize u at 3 4 as u'.
  induction ps as [|ip ps IH]; intros u'; cbn; [done|].
  intros [E1 E2]%orb_false_iff. rewrite E1. by apply IH.
Qed.

(** A member that stays in the call without being replaced keeps its streams. *)
Lemma member_fold_ssrc l0 ps u :
  ui_incall_prev (member_fold l0 ps u) = true →
  ui_ssrca (member_fold l0 ps u) = ui_ssrca u ∧ ui_ssrcv (member_fold l0 ps u) = ui_ssrcv u.
Proof.
  induction ps as [|ip ps IH] using rev_ind; [done|]. rewrite member_fold_snoc.
  destruct (hits l0 ip.2 u); [|done]. cbn.
  destruct (sft_moved ip.2 (member_fold l0 ps u)) eqn:Hm; [done|]. intros Hp.
  destruct (IH Hp) as [<- <-]. unfold sft_moved in Hm. rewrite Hp in Hm. cbn in Hm.
  apply orb_false_iff in Hm as [H1 H2]. apply negb_false_iff, Z.eqb_eq in H1, H2. done.
Qed.

Lemma numbered_existsb (f : econn_group_part → bool) i ps :
  existsb (λ ip, f ip.2) (numbered i ps) = existsb f ps.
Proof.
  unfold numbered. revert i. induction ps as [|p ps IH]; intros i; cbn; [done|]. by rewrite IH.
Qed.

(** ** Decoders *)

(** A member with a stream to decode. *)
Definition stream (u : userinfo) : bool := negb (ui_ssrca u =? 0) || negb (ui_ssrcv u =? 0).

Lemma user_events_other ah rh us a : ∀ D,
  a ∉ (ui_addr <$> us) → a ∈ decoders D (us ≫= sft_user_events ah rh) ↔ a ∈ D.
Proof.
  induction us as [|u us IH]; intros D Ha; [done|]. rewrite fmap_cons, not_elem_of_cons in Ha.
  destruct Ha as [Hne Ha]. cbn [mbind list_bind]. rewrite decoders_app.
  change (a ∈ decoders (decoders D (sft_user_events ah rh u)) (us ≫= sft_user_events ah rh) ↔ a ∈ D).
  rewrite IH by done. unfold sft_user_events. case_match; [|case_match]; [..|done].
  - cbn. rewrite elem_of_cons. tauto.
  - rewrite decoders_remove. tauto.
Qed.

Lemma user_events_member ah rh us v : ∀ D,
  NoDup (ui_addr <$> us) → v ∈ us →
  ui_addr v ∈ decoders D (us ≫= sft_user_events ah rh) ↔
  (if sft_adds ah v then True else if sft_leaves v && rh then False else ui_addr v ∈ D).
Proof.
  induction us as [|u us IH]; intros D Hn Hv; [by apply not_elem_of_nil in Hv|].
  rewrite fmap_cons in Hn. apply NoDup_cons in Hn as [Hu Hn].
  cbn [mbind list_bind]. rewrite decoders_app.
  change (ui_addr v ∈ decoders (decoders D (sft_user_events ah rh u)) (us ≫= sft_user_events ah rh)
    ↔ if sft_adds ah v then True else if sft_leaves v && rh then False else ui_addr v ∈ D).
  apply elem_of_cons in Hv as [->|Hv].
  - rewrite user_events_other by done. unfold sft_user_events.
    destruct (sft_adds ah u); [cbn; rewrite elem_of_cons; tauto|].
    destruct (sft_leaves u && rh); [rewrite decoders_remove; tauto|done].
  - rewrite IH by done. assert (Hne : ui_addr v ≠ ui_addr u).
    { intros E. apply Hu. rewrite <- E. by apply list_elem_of_fmap_2. }
    destruct (sft_adds ah v); [done|]. destruct (sft_leaves v && rh); [done|].
    unfold sft_user_events. case_match; [|case_match]; [..|done].
    + cbn. rewrite elem_of_cons. tauto.
    + rewrite decoders_remove. tauto.
Qed.

Lemma decoders_tail D (sync : bool) prev l :
  decoders D ((if sync then [UlSync] else []) ++ kg_events prev l) = decoders D [].
Proof.
  unfold kg_events. destruct sync, (ul_keygenerator l); cbn; try done; by case_match.
Qed.

(** An approved member that has a decoder is in the call with a stream; and every
    approved member that is in the call with a stream has one, unless it waits for a
    decoder to be forced, as the members of a call do that is re-established. *)
Definition decoders_fit (l : userlist) (D : list nat) : Prop :=
  ∀ u, u ∈ ul_users l → ui_se_approved u = true →
    (ui_addr u ∈ D → ui_incall_now u && stream u = true) ∧
    (ui_incall_now u && stream u = true → ui_addr u ∈ D ∨ ui_force_decoder u = true).

(** A member for which a decoder is forced has one exactly when it has a stream. *)
Lemma forced_decoder l0 ps u (inD inD' : Prop) :
  let v := member_fold l0 ps (sft_reset u) in
  ui_se_approved u = true → ui_force_decoder u = true →
  (inD → ui_incall_now u && stream u = true) →
  (inD' ↔ inD ∧ (ui_incall_prev (sft_reset u) → ui_incall_prev v)) →
  (if sft_adds true v then True else if sft_leaves v && true then False else inD') ↔
  (ui_incall_now (sft_user v) || true) && stream (sft_user v) = true.
Proof.
  intros v Ha Hfd HD HD'.
  destruct (frame_flags _ _ (member_fold_frame l0 ps (sft_reset u))) as [Ea Ef].
  fold v in Ea, Ef. cbn in Ea, Ef. rewrite Ha in Ea. rewrite Hfd in Ef.
  assert (Hss : ui_incall_prev v = true → stream v = stream u).
  { intros E. apply member_fold_ssrc in E as [E1 E2]. unfold stream, v. by rewrite E1, E2. }
  clearbody v. unfold sft_adds, sft_user, sft_leaves, sft_joins. rewrite Ea, Ef. cbn [andb orb negb].
  rewrite orb_true_r. fold (stream v). cbn [andb].
  change ((if stream v then True else inD') ↔ stream v = true).
  destruct (stream v); [done|]. rewrite HD'. split; [|done]. intros [HiD Hp]. cbn in Hp.
  apply HD, andb_true_iff in HiD as [Hn Hs]. rewrite Hn in Hp. rewrite <- Hs. apply Hss.
  by apply Is_true_true, Hp.
Qed.

(** One member that was in the list and is approved, before ([u]) and after the
    walk ([v]): the decoder it ends up with is the one it needs. *)
Lemma decoder_of_member l0 ps u (inD inD' : Prop) :
  let v := member_fold l0 ps (sft_reset u) in
  ui_se_approved u = true →
  (inD → ui_incall_now u && stream u = true) →
  (ui_incall_now u && stream u = true → inD ∨ ui_force_decoder u = true) →
  (inD' ↔ inD ∧ (ui_incall_prev (sft_reset u) → ui_incall_prev v)) →
  (if sft_adds true v then True else if sft_leaves v && true then False else inD') ↔
  (ui_incall_now (sft_user v) || ui_force_decoder u) && stream (sft_user v) = true.
Proof.
  intros v Ha HD1 HD2 HD'. destruct (ui_force_decoder u) eqn:Hfd; [by eapply forced_decoder|].
  rewrite orb_false_r.
  assert (HD : inD ↔ ui_incall_now u && stream u = true)
    by (split; [done|]; intros E; by destruct (HD2 E)). clear HD1 HD2.
  destruct (frame_flags _ _ (member_fold_frame l0 ps (sft_reset u))) as [Ea Ef].
  fold v in Ea, Ef. cbn in Ea, Ef. rewrite Ha in Ea. rewrite Hfd in Ef.
  assert (Hno : ui_incall_now v = false → v = sft_reset u).
  { intros E. unfold v in E. rewrite member_fold_now in E. cbn in E. by apply member_fold_nohit. }
  assert (Hss : ui_incall_prev v = true → stream v = stream u).
  { intros E. apply member_fold_ssrc in E as [E1 E2]. unfold stream, v. by rewrite E1, E2. }
  pose proof (member_fold_prev l0 ps (sft_reset u)) as Hmono. fold v in Hmono. cbn in Hmono, HD'.
  clearbody v. unfold sft_adds, sft_user, sft_leaves, sft_joins. rewrite Ea, Ef. cbn [andb orb negb].
  fold (stream v).
  destruct (ui_incall_now v) eqn:En, (ui_incall_prev v) eqn:Ep; cbn [andb orb negb].
  - cbn. rewrite En. cbn. rewrite (Hss eq_refl). rewrite HD', HD.
    specialize (Hmono I). apply Is_true_true in Hmono. rewrite Hmono. cbn. tauto.
  - change ((if stream v then True else inD') ↔ stream v = true).
    destruct (stream v); [done|]. rewrite HD', HD. destruct (ui_incall_now u); cbn; [|easy].
    split; [intros [_ []]; exact I|done].
  - cbn. easy.
  - rewrite En. cbn. specialize (Hno eq_refl). rewrite Hno in Ep. cbn in Ep.
    rewrite HD', HD, Ep. cbn. easy.
Qed.

Lemma sft_user_frame u :
  ui_addr (sft_user u) = ui_addr u ∧ ui_se_approved (sft_user u) = ui_se_approved u ∧
  ui_incall_now (sft_user u) = ui_incall_now u ∧
  (ui_se_approved u = true → ui_force_decoder (sft_user u) = false).
Proof.
  unfold sft_user. split_and!; try by repeat case_match. intros Ha. unfold sft_joins. rewrite Ha.
  destruct (ui_force_decoder u) eqn:Hf; cbn; [done|]. by repeat case_match.
Qed.

(** The members after the walk. *)
Lemma sft_result_members l ps l' e first l1 es u' :
  sft_result l ps l' e first l1 es → u' ∈ ul_users l' →
  ∃ v, u' = sft_user v ∧ v ∈ ul_users l1 ∧
    ((∃ u, u ∈ ul_users l ∧ v = member_fold (sft_start l) (numbered 0 ps) (sft_reset u)) ∨
     is_new (ul_tick l) v).
Proof.
  intros [_ [(new & Hu & Hnew) _ _ _ _ _ _ _] -> _]. cbn [ul_users].
  rewrite list_sort_perm. intros (v & -> & Hv)%list_elem_of_fmap. exists v.
  split; [done|]. split; [done|]. rewrite Hu in Hv. apply elem_of_app in Hv as [Hv|Hv].
  - left. apply list_elem_of_fmap in Hv as (w & -> & Hw).
    apply list_elem_of_fmap in Hw as (u & -> & Hw). eauto.
  - right. rewrite Forall_forall in Hnew. by apply Hnew.
Qed.

(** C28: decoders follow the members over a report of the SFT server.  Before it, the
    approved members that have a decoder are in the call with a stream, and those that
    are in the call with a stream have one, unless a decoder is to be forced for them
    (as after a reconnection).  After it, and with the callbacks carried out in order,
    an approved member has a decoder exactly when it has a stream and is in the call
    or was to be forced, whether it has joined, left, stayed or changed its streams;
    and no decoder is left to be forced.  So without forced decoders it is exactly the
    approved members in the call with a stream. *)
Theorem decoders_in_sync l ps sc D :
  ul_ok l → ul_addh l = true → ul_removeh l = true → decoders_fit l D →
  wp (userlist_update_from_sftlist (Some <$> ps) sc)
     (λ r l' e, r.1.1 = ENOMEM ∨
        ∀ u', u' ∈ ul_users l' → ui_se_approved u' = true →
          ui_force_decoder u' = false ∧
          ∃ u, u ∈ ul_users l ∧ ui_addr u = ui_addr u' ∧
            (ui_addr u' ∈ decoders D e ↔
             (ui_incall_now u' || ui_force_decoder u) && stream u' = true)) l.
Proof.
  intros Hok Hah Hrh HD. eapply wp_mono; [by apply update_from_sftlist_spec|].
  intros r l' e [_ [(_ & _ & first & l1 & es & Hr)|(E & _)]]; [right|by left].
  intros u' Hu' Ha'. destruct (sft_result_members _ _ _ _ _ _ _ _ Hr Hu') as (v & -> & Hv & Hcase).
  destruct (sft_user_frame v) as (Eaddr & Eapp & _ & Efd). rewrite Eapp in Ha'.
  split; [by apply Efd|].
  destruct Hcase as [(u & Hu & ->)|(_ & _ & ? & _)]; [|congruence].
  destruct Hr as [_ Hinv _ [sync ->]].
  destruct (frame_flags _ _ (member_fold_frame (sft_start l) (numbered 0 ps) (sft_reset u)))
    as [Ea Ef]. rewrite Ea in Ha'. cbn in Ha'. destruct (HD u Hu Ha') as [HuD1 HuD2].
  exists u. split; [done|]. split; [by rewrite Eaddr, member_fold_addr|].
  pose proof (si_decoders _ _ _ _ _ Hinv D (sft_reset u)
    (list_elem_of_fmap_2 sft_reset _ _ Hu) Hrh) as Hes.
  pose proof (si_handlers _ _ _ _ _ Hinv) as [= E1 E2 _ _]. cbn in E1, E2.
  rewrite E1, E2, Hah, Hrh, decoders_app, decoders_app, decoders_tail, Eaddr.
  change (decoders ?X []) with X.
  rewrite user_events_member; [|by eapply ids_ok_addr_nodup, (si_ids _ _ _ _ _ Hinv)|done].
  rewrite member_fold_addr. by eapply decoder_of_member.
Qed.

(** a report of the SFT server decides who is in the call: a member is in
    the call afterwards exactly when an entry of the report names it, nobody is
    dropped from the list, and everyone new is in the call and not approved. *)
Theorem sft_members_incall l ps sc :
  ul_ok l →
  wp (userlist_update_from_sftlist (Some <$> ps) sc)
     (λ r l' e, r.1.1 = ENOMEM ∨
        ((∀ u, u ∈ ul_users l → ∃ u', u' ∈ ul_users l' ∧ ui_addr u' = ui_addr u ∧
            ui_se_approved u' = ui_se_approved u ∧ ui_incall_now u' = existsb (λ p, hits l p u) ps) ∧
         (∀ u', u' ∈ ul_users l' → ui_addr u' ∈ ui_addr <$> ul_users l ∨
            ui_incall_now u' = true ∧ ui_se_approved u' = false))) l.
Proof.
  intros Hok. eapply wp_mono; [by apply update_from_sftlist_spec|].
  intros r l' e [_ [(_ & _ & first & l1 & es & Hr)|(E & _)]]; [right|by left]. split.
  - intros u Hu. pose proof Hr as [_ [(new & Hus & _) _ _ _ _ _ _ _] -> _].
    set (v := member_fold (sft_start l) (numbered 0 ps) (sft_reset u)).
    destruct (sft_user_frame v) as (Ea & Eb & En & _). exists (sft_user v).
    rewrite Ea, Eb, En. cbn [ul_users]. rewrite list_sort_perm.
    destruct (frame_flags _ _ (member_fold_frame (sft_start l) (numbered 0 ps) (sft_reset u)))
      as [Ef _]. fold v in Ef. rewrite Ef. unfold v. rewrite member_fold_addr, member_fold_now.
    rewrite (numbered_existsb (λ p, hits (sft_start l) p (sft_reset u))).
    split; [|split; [done|split; [done|]]].
    + apply list_elem_of_fmap_2. rewrite Hus. apply elem_of_app. left.
      by apply list_elem_of_fmap_2, list_elem_of_fmap_2.
    + cbn. clear. induction ps as [|p ps IH]; cbn; [done|]. by rewrite hits_start, IH.
  - intros u' Hu'. destruct (sft_result_members _ _ _ _ _ _ _ _ Hr Hu') as (v & -> & _ & Hcase).
    destruct (sft_user_frame v) as (Ea & Eb & En & _). rewrite Ea, Eb, En.
    destruct Hcase as [(u & Hu & ->)|(_ & _ & ? & ? & _)]; [left|by right].
    rewrite member_fold_addr. change (ui_addr u ∈ ui_addr <$> ul_users l).
    by apply list_elem_of_fmap_2.
Qed.

(** ** The order of the members *)

Lemma numbered_lookup i ps k q : (k, q) ∈ numbered i ps → ps !! (k - i)%nat = Some q ∧ (i ≤ k)%nat.
Proof.
  revert i. induction ps as [|p ps IH]; intros i; cbn; [by intros []%not_elem_of_nil|].
  intros [[= -> ->]|H]%elem_of_cons; [rewrite Nat.sub_diag; split; [done|lia]|].
  apply IH in H as [H ?]. replace (k - i)%nat with (S (k - S i))%nat by lia. split; [done|lia].
Qed.

(** The position of a member is that of an entry that names it. *)
Lemma member_fold_listpos l0 ps u :
  member_fold l0 ps u = u ∨
  ∃ ip, ip ∈ ps ∧ hits l0 ip.2 u = true ∧
        ui_listpos (member_fold l0 ps u) = u32 (Z.of_nat ip.1).
Proof.
  induction ps as [|ip ps IH] using rev_ind; [by left|]. rewrite member_fold_snoc.
  destruct (hits l0 ip.2 u) eqn:Hh; [right|].
  - exists ip. split; [|done]. apply elem_of_app. right. by left.
  - destruct IH as [->|(jp & Hj & ?)]; [by left|]. right. exists jp.
    split; [|done]. apply elem_of_app. by left.
Qed.

Lemma sft_user_listpos u : ui_listpos (sft_user u) = ui_listpos u.
Proof. unfold sft_user. by repeat case_match. Qed.

Lemma member_position l ps u :
  Z.of_nat (length ps) < LIST_POS_NONE →
  let v := member_fold (sft_start l) (numbered 0 ps) (sft_reset u) in
  if ui_incall_now v then ∃ p, ps !! Z.to_nat (ui_listpos v) = Some p ∧ hits l p u = true
  else ui_listpos v = LIST_POS_NONE.
Proof.
  intros Hlen v. destruct (ui_incall_now v) eqn:En.
  - destruct (member_fold_listpos (sft_start l) (numbered 0 ps) (sft_reset u))
      as [E|([k p] & Hin & Hh & Hpos)]; fold v in E || fold v in Hpos.
    + rewrite E in En. done.
    + cbn in Hh, Hpos. apply numbered_lookup in Hin as [Hk _]. rewrite Nat.sub_0_r in Hk.
      exists p. rewrite hits_start in Hh. split; [|done]. rewrite Hpos, uwrap_small.
      * by rewrite Nat2Z.id.
      * apply lookup_lt_Some in Hk. unfold LIST_POS_NONE in Hlen. lia.
  - unfold v in *. rewrite member_fold_now in En. cbn in En. by rewrite member_fold_nohit.
Qed.

(** After a report the list is in the order of the report: it is sorted by
    position, a member that was known and is in the call is at the position of
    an entry that names it, and one that is not in the call is behind all of
    these. *)
Theorem sft_members_sorted l ps sc :
  ul_ok l → Z.of_nat (length ps) < LIST_POS_NONE →
  wp (userlist_update_from_sftlist (Some <$> ps) sc)
     (λ r l' e, r.1.1 = ENOMEM ∨
        StronglySorted (λ a b, ui_listpos a <= ui_listpos b) (ul_users l') ∧
        (∀ u', u' ∈ ul_users l' → ∀ u, u ∈ ul_users l → ui_addr u' = ui_addr u →
           if ui_incall_now u'
           then ∃ p, ps !! Z.to_nat (ui_listpos u') = Some p ∧ hits l p u = true
           else ui_listpos u' = LIST_POS_NONE)) l.
Proof.
  intros Hok Hlen. eapply wp_mono; [by apply update_from_sftlist_spec|].
  intros r l' e [_ [(_ & _ & first & l1 & es & Hr)|(E & _)]]; [right|by left]. split.
  - destruct Hr as [_ _ -> _]. cbn [ul_users].
    assert (Hs : StronglySorted (λ x y, userlist_sort_h x y = true)
                   (list_sort userlist_sort_h (sft_user <$> ul_users l1))).
    { apply list_sort_sorted; unfold userlist_sort_h.
      - intros x y. rewrite !Z.leb_le. lia.
      - intros x y z. rewrite !Z.leb_le. lia. }
    induction Hs as [|x xs _ IH Hx]; constructor; [done|].
    eapply Forall_impl; [exact Hx|]. intros y. apply Z.leb_le.
  - intros u' Hu' u Hu Ea.
    destruct (sft_result_members _ _ _ _ _ _ _ _ Hr Hu') as (v & -> & _ & Hcase).
    destruct (sft_user_frame v) as (Eaddr & _ & En & _). rewrite Eaddr in Ea.
    rewrite En, sft_user_listpos. destruct Hcase as [(w & Hw & ->)|(Hfresh & _)].
    + rewrite member_fold_addr in Ea.
      apply (addr_inj _ _ _ (ids_ok_addr_nodup _ _ _ (ok_ids l Hok)) Hw Hu) in Ea as <-.
      by apply member_position.
    + exfalso. pose proof (ids_fresh _ _ _ (ok_ids l Hok) (ui_ids u)) as Hf.
      assert (Hin : ui_ids u ∈ ui_ids (ul_self l) :: ul_ids l).
      { right. by apply list_elem_of_fmap_2. }
      specialize (Hf Hin). cbn in Hf. lia.
Qed.

(** ** Keys for those who join *)

Lemma set_user_at a f l : set_user a f l = Some ((), {| l with ul_users :=
    (λ u, if (ui_addr u =? a)%nat then f u else u) <$> ul_users l |}, []).
Proof. done. Qed.

Definition key_sent (all : bool) (u : userinfo) : userinfo :=
  if key_target all u then {| u with ui_needs_key := false |} else u.

Definition client_of (u : userinfo) : icall_client :=
  icall_client_alloc (ui_userid_real u) (ui_clientid_real u).

(** The loop over the members not visited yet, the visited ones being done. *)
Lemma key_targets_loop_spec all us : ∀ done ts l,
  (∀ n, ul_mem_ok n = true) →
  ul_users l = (key_sent all <$> done) ++ us → NoDup (ui_addr <$> (done ++ us)) →
  wp (key_targets_loop all us ts)
     (λ r l' e, r = (0, ts ++ (client_of <$> List.filter (key_target all) us)) ∧
        ul_users l' = key_sent all <$> (done ++ us) ∧ e = []) l.
Proof.
  induction us as [|u us IH]; intros done ts l Hmem Hu Hn; cbn [key_targets_loop].
  { wp_step. cbn. rewrite !app_nil_r in *. done. }
  assert (Hn' : NoDup (ui_addr <$> ((done ++ [u]) ++ us))) by by rewrite <- (assoc_L (++)).
  cbn [List.filter]. destruct (key_target all u) eqn:Hk.
  - unfold ul_alloc. wp_steps. rewrite Hmem. wp_step. eapply wp_of_run; [apply set_user_at|].
    cbn beta. eapply wp_mono; [apply (IH (done ++ [u])); [done| |done]|].
    + cbn [ul_users]. rewrite Hu, set_user_split.
      * rewrite fmap_app, <- (assoc_L (++)). cbn. unfold key_sent at 3. by rewrite Hk.
      * rewrite fmap_app in *. cbn in *. rewrite <- list_fmap_compose.
        erewrite list_fmap_ext; [exact Hn|]. intros i v _. cbn. unfold key_sent.
        by destruct (key_target all v).
    + intros r l' e (-> & -> & ->). rewrite <- !(assoc_L (++)). done.
  - eapply wp_mono; [apply (IH (done ++ [u])); [done| |done]|].
    + rewrite Hu, fmap_app, <- (assoc_L (++)). cbn. unfold key_sent at 3. by rewrite Hk.
    + intros r l' e (-> & -> & ->). rewrite <- !(assoc_L (++)). done.
Qed.

Lemma key_sent_target all u : key_target false (key_sent all u) = false.
Proof.
  unfold key_sent, key_target.
  destruct (ui_incall_now u) eqn:E1, (ui_se_approved u) eqn:E2, (ui_needs_key u) eqn:E3, all;
    cbn; rewrite ?E1, ?E2, ?E3; done.
Qed.

Lemma get_key_targets_spec all l :
  ul_ok l → (∀ n, ul_mem_ok n = true) →
  wp (userlist_get_key_targets all)
     (λ r l' e, r = (0, client_of <$> List.filter (key_target all) (ul_users l)) ∧
        ul_users l' = key_sent all <$> ul_users l ∧ ul_ok l' ∧ e = []) l.
Proof.
  intros Hok Hmem.
  assert (Hk : wp_keeps (userlist_get_key_targets all) l) by apply get_key_targets_keeps.
  assert (Hs : wp (userlist_get_key_targets all) (λ r l' e,
    r = (0, client_of <$> List.filter (key_target all) (ul_users l)) ∧
    ul_users l' = key_sent all <$> ul_users l ∧ e = []) l).
  { unfold userlist_get_key_targets. wp_step. wp_step.
    apply (key_targets_loop_spec all (ul_users l) [] [] l Hmem); [done|].
    by eapply ids_ok_addr_nodup, ok_ids. }
  destruct (wp_defined _ _ _ Hk) as (r & l' & e & Hrun & Hl').
  unfold wp in *. rewrite Hrun in *. destruct Hs as (-> & ? & ->).
  split; [done|]. split; [done|]. split; [|done]. by eapply ul_ok_keeps.
Qed.

(** A second request for the members that wait for a key finds none. *)
Lemma filter_key_sent all us : List.filter (key_target false) (key_sent all <$> us) = [].
Proof. induction us as [|u us IH]; cbn; [done|]. by rewrite key_sent_target. Qed.

(** A member that an entry brings into the call waits for a key. *)
Lemma joined_needs_key l ps u :
  let v := member_fold (sft_start l) (numbered 0 ps) (sft_reset u) in
  ui_se_approved u = true → ui_incall_now u = false → existsb (λ p, hits l p u) ps = true →
  key_target false (sft_user v) = true ∧ client_of (sft_user v) = client_of u.
Proof.
  intros v Ha Hn Hh. pose proof (member_fold_frame (sft_start l) (numbered 0 ps) (sft_reset u)) as Hf.
  destruct (frame_flags _ _ Hf) as [Ea _]. apply frame_ids in Hf. fold v in Ea, Hf.
  cbn in Ea. rewrite Ha in Ea. unfold ui_ids in Hf. injection Hf as _ E1 E2. cbn in E1, E2.
  assert (En : ui_incall_now v = true).
  { unfold v. rewrite member_fold_now, (numbered_existsb (λ p, hits (sft_start l) p (sft_reset u))).
    cbn. rewrite <- Hh. clear. induction ps as [|p ps IH]; cbn; [done|].
    by rewrite hits_start, IH. }
  assert (Ep : ui_incall_prev v = false).
  { destruct (ui_incall_prev v) eqn:E; [|done]. unfold v in E.
    pose proof (member_fold_prev (sft_start l) (numbered 0 ps) (sft_reset u)) as Hp.
    rewrite E in Hp. cbn in Hp. rewrite Hn in Hp. by destruct Hp. }
  clearbody v. unfold sft_user, sft_joins. rewrite Ea, En, Ep.
  replace (ui_force_decoder v || true && negb false) with true by by destruct (ui_force_decoder v).
  cbn [andb]. unfold key_target, client_of. cbn. by rewrite E1, E2.
Qed.

(** every approved member that a report of the SFT server brings into the
    call is a target of the next key message, and no member is a target twice:
    once the targets have been handed out, there are none until something
    changes again. *)
Theorem joined_members_get_key l ps sc :
  ul_ok l → (∀ n, ul_mem_ok n = true) →
  wp (userlist_update_from_sftlist (Some <$> ps) sc) (λ _ l1 _,
    wp (userlist_get_key_targets false) (λ r l2 _,
      r.1 = 0 ∧
      (∀ u, u ∈ ul_users l → ui_se_approved u = true → ui_incall_now u = false →
         existsb (λ p, hits l p u) ps = true → client_of u ∈ r.2) ∧
      wp (userlist_get_key_targets false) (λ r' _ _, r' = (0, [])) l2) l1) l.
Proof.
  intros Hok Hmem. eapply wp_mono; [by apply update_from_sftlist_spec|].
  intros r l1 e [Hok1 [(_ & _ & first & lw & es & Hr)|(_ & _ & n & Hn)]]; [|by rewrite Hmem in Hn].
  eapply wp_mono; [by apply get_key_targets_spec|]. intros k l2 e2 (-> & Hu2 & Hok2 & _).
  split; [done|]. split.
  - intros u Hu Ha Hn Hh. destruct (joined_needs_key l ps u Ha Hn Hh) as [Hk <-].
    apply list_elem_of_fmap_2, list_elem_of_In, filter_In. split; [|done].
    apply list_elem_of_In. destruct Hr as [_ [(new & Hus & _) _ _ _ _ _ _ _] -> _].
    cbn [ul_users]. rewrite list_sort_perm. apply list_elem_of_fmap_2. rewrite Hus.
    apply elem_of_app. left. by apply list_elem_of_fmap_2, list_elem_of_fmap_2.
  - eapply wp_mono; [by apply get_key_targets_spec|]. intros k l3 e3 (-> & _).
    by rewrite Hu2, filter_key_sent.
Qed.

(** ** Members that leave while the connection is down *)

(** No entry of the report names the member. *)
Definition unnamed (ps : list econn_group_part) (u : userinfo) : Prop :=
  ∀ p uid cid, p ∈ ps → gp_userid p = Some uid → gp_clientid p = Some cid →
    ids_match (ui_userid_hash u) (ui_clientid_hash u) uid cid = false.

Lemma unnamed_nohit l ps u :
  ul_ok l → u ∈ ul_users l → unnamed ps u → existsb (λ p, hits l p u) ps = false.
Proof.
  intros Hok Hu Hno. apply not_true_iff_false. rewrite existsb_exists.
  intros (p & Hp%list_elem_of_In & Hh). unfold hits in Hh. apply andb_true_iff in Hh as [_ Hh].
  apply bool_decide_eq_true, fmap_Some in Hh as (w & Hf & Ea).
  pose proof (find_by_hash_elem _ _ _ _ Hf) as Hw.
  apply (addr_inj _ _ _ (ids_ok_addr_nodup _ _ _ (ok_ids l Hok)) Hu Hw) in Ea as ->.
  unfold userlist_find_by_hash in Hf.
  destruct (gp_userid p) as [uid|] eqn:E1, (gp_clientid p) as [cid|] eqn:E2; try done.
  apply find_Some_split in Hf as [Hf _]. by rewrite (Hno p uid cid Hp E1 E2) in Hf.
Qed.

(** A member no entry names. *)
Lemma unnamed_member l u ps sc :
  ul_ok l → u ∈ ul_users l → ul_removeh l = true → unnamed ps u → (∀ n, ul_mem_ok n = true) →
  wp (userlist_update_from_sftlist (Some <$> ps) sc)
     (λ _ l' e, ul_ok l' ∧ sft_user (sft_reset u) ∈ ul_users l' ∧
        ul_removeh l' = ul_removeh l ∧ ul_addh l' = ul_addh l ∧
        ∀ D, ui_addr u ∈ decoders D e ↔
             if sft_adds (ul_addh l) (sft_reset u) then True
             else if sft_leaves (sft_reset u) then False else ui_addr u ∈ D) l.
Proof.
  intros Hok Hu Hrh Hno Hmem. eapply wp_mono; [by apply update_from_sftlist_spec|].
  intros r l' e [Hok' [(_ & _ & first & l1 & es & Hr)|(_ & _ & n & Hn)]]; [|by rewrite Hmem in Hn].
  split; [done|]. destruct Hr as [_ Hinv -> [sync ->]].
  assert (Hfold : member_fold (sft_start l) (numbered 0 ps) (sft_reset u) = sft_reset u).
  { apply member_fold_nohit.
    rewrite (numbered_existsb (λ p, hits (sft_start l) p (sft_reset u))).
    rewrite <- (unnamed_nohit l ps u Hok Hu Hno). clear.
    induction ps as [|p ps IH]; cbn; [done|]. by rewrite hits_start, IH. }
  assert (Hin : sft_reset u ∈ ul_users l1).
  { destruct (si_users _ _ _ _ _ Hinv) as (new & -> & _). apply elem_of_app. left.
    rewrite <- Hfold. by apply list_elem_of_fmap_2, list_elem_of_fmap_2. }
  pose proof (si_handlers _ _ _ _ _ Hinv) as [= E1 E2 _ _]. cbn in E1, E2.
  split; [cbn [ul_users]; rewrite list_sort_perm; by apply list_elem_of_fmap_2|].
  split; [done|]. split; [done|]. intros D.
  rewrite E1, E2, Hrh, decoders_app, decoders_app, decoders_tail.
  change (decoders ?X []) with X. change (ui_addr u) with (ui_addr (sft_reset u)).
  rewrite user_events_member; [|by eapply ids_ok_addr_nodup, (si_ids _ _ _ _ _ Hinv)|done].
  rewrite andb_true_r. destruct (sft_adds _ _); [done|]. destruct (sft_leaves _); [done|].
  rewrite (si_decoders _ _ _ _ _ Hinv D (sft_reset u)), Hfold;
    [|by apply list_elem_of_fmap_2|done]. tauto.
Qed.

(** a member that leaves while the connection is being re-established keeps
    a decoder: [userlist_incall_clear] marks the members in the call for a
    forced decoder, and the next report then adds a decoder for a member that
    it no longer names, although the member is not in the call; no later report
    that does not name it either removes the decoder. *)
Theorem absent_member_gets_decoder l u ps ps' sc sc' :
  ul_ok l → u ∈ ul_users l → ul_addh l = true → ul_removeh l = true →
  ui_se_approved u = true → ui_incall_now u = true → stream u = true →
  unnamed ps u → unnamed ps' u → (∀ n, ul_mem_ok n = true) →
  wp (userlist_incall_clear true true) (λ _ l1 _,
    wp (userlist_update_from_sftlist (Some <$> ps) sc) (λ _ l2 e,
      ui_addr u ∈ decoders [] e ∧
      (∃ u', u' ∈ ul_users l2 ∧ ui_addr u' = ui_addr u ∧ ui_incall_now u' = false) ∧
      wp (userlist_update_from_sftlist (Some <$> ps') sc') (λ _ _ e',
        ui_addr u ∈ decoders [ui_addr u] e') l2) l1) l.
Proof.
  intros Hok Hu Hah Hrh Ha Hn Hst Hno Hno' Hmem. unfold userlist_incall_clear, each_user.
  apply wp_modify. set (u1 := incall_clear_user true true u). set (l1 := {| l with ul_users := _ |}).
  assert (Hok1 : ul_ok l1) by (eapply ul_ok_keeps; [by apply keeps_each|done]).
  assert (Hu1 : u1 ∈ ul_users l1) by by apply list_elem_of_fmap_2.
  eapply wp_mono; [by apply (unnamed_member l1 u1)|].
  intros _ l2 e (Hok2 & Hu2 & Hrh2 & _ & HD).
  assert (Hadd : sft_adds true (sft_reset u1) = true).
  { unfold sft_adds, sft_joins. cbn. rewrite Ha, Hn. exact Hst. }
  assert (Hj : sft_joins (sft_reset u1) = true) by (unfold sft_joins; cbn; by rewrite Ha, Hn).
  change (ul_addh l1) with (ul_addh l) in HD. rewrite Hah, Hadd in HD.
  split; [by apply (HD [])|].
  assert (E2 : sft_user (sft_reset u1)
               = let v := sft_reset u1 in {| v with ui_force_decoder := false; ui_needs_key := true |}).
  { unfold sft_user. by rewrite Hj. }
  split.
  { exists (sft_user (sft_reset u1)). split; [done|]. by rewrite E2. }
  eapply wp_mono; [apply (unnamed_member l2 (sft_user (sft_reset u1))); try done|].
  - by rewrite Hrh2.
  - by rewrite E2.
  - intros _ l3 e' (_ & _ & _ & _ & HD'). specialize (HD' [ui_addr u]). rewrite E2 in HD'.
    cbn in HD'. unfold sft_adds, sft_leaves, sft_joins in HD'. cbn in HD'. rewrite Ha in HD'.
    cbn in HD'. apply HD'. by left.
Qed.
End Members.
