(* ===== verification/UserListApproved.v ===== *)
(** * Who is approved

    [userlist_update_from_selist] approves exactly the clients the backend
    lists.  The proof follows the identifiers and the approval of the members
    ([views]) through the loop over the clients. *)

From S2P Require Import Prelude LibRe EconnMsg UserHash AudioLevel UserList UserListSpec UserListSft UserListOps.

Abbreviation view_t := ((nat * (option string * option string)) * bool)%type.

Definition view (u : userinfo) : view_t := (ui_ids u, ui_se_approved u).
Definition views (l : userlist) : list view_t := view <$> ul_users l.

Definition view_set (a : nat) (g : view_t → view_t) (w : view_t) : view_t :=
  if (w.1.1 =? a)%nat then g w else w.

Section Approved.
Context `{L : LibRe, Hs : Sodium, UE : UlEnv} {LS : LibReSpec} {HL : SodiumLen Hs}.

(** The clients seen so far are the approved ones. *)
Definition approved_by (cs : list (option string * option string)) (l : userlist) : Prop :=
  ∀ w, w ∈ views l → w.2 = true ↔ ∃ c, c ∈ cs ∧ same_client c w.1.2.

(** A step of the loop on the views: the members and this client stay as they
    are but for what [P] says. *)
Definition step_to (l : userlist) (vs : list view_t) (l' : userlist) : Prop :=
  views l' = vs ∧ ul_self l' = ul_self l.

Lemma set_user_views a f g l :
  (∀ u, view (f u) = g (view u)) →
  wp (set_user a f) (λ _ l' _, step_to l (view_set a g <$> views l) l') l.
Proof.
  intros Hf. apply wp_modify. split; [|done]. unfold views. cbn [ul_users].
  rewrite <- !list_fmap_compose. apply list_fmap_ext. intros i u _. cbn. unfold view_set. cbn.
  by destruct (ui_addr u =? a)%nat.
Qed.

Lemma view_set_id a (vs : list view_t) : view_set a (λ w, w) <$> vs = vs.
Proof.
  rewrite <- (list_fmap_id vs) at 2. apply list_fmap_ext. intros i w _. unfold view_set.
  by destruct (_ =? _)%nat.
Qed.

Lemma hash_member_views u secret l :
  wp (hash_member u secret) (λ _ l' _, step_to l (views l) l') l.
Proof.
  unfold hash_member. apply wp_bind, wp_hash_userinfo. intros h.
  eapply wp_mono; [by apply (set_user_views _ _ (λ w, w))|]. intros [] l' e [Hv Hself].
  split; [|done]. by rewrite Hv, view_set_id.
Qed.

(** Two updates of one member. *)
Lemma view_set_twice a g h (vs : list view_t) :
  (∀ w, (g w).1.1 = w.1.1) →
  view_set a h <$> (view_set a g <$> vs) = view_set a (λ w, h (g w)) <$> vs.
Proof.
  intros Hg. rewrite <- list_fmap_compose. apply list_fmap_ext. intros i w _. cbn.
  unfold view_set. destruct (w.1.1 =? a)%nat eqn:E; [by rewrite Hg, E|by rewrite E].
Qed.

Lemma se_identify_views cli epoch prev user lo l :
  user ∈ ul_users l →
  wp (se_identify cli epoch prev user lo)
     (λ _ l' _, step_to l (view_set (ui_addr user)
        (λ w, ((w.1.1, (cl_userid cli, cl_clientid cli)), w.2)) <$> views l) l') l.
Proof.
  intros Hin. unfold se_identify. cbv zeta. apply wp_bind.
  eapply wp_mono;
    [by apply (set_user_views _ _ (λ w, ((w.1.1, (cl_userid cli, cl_clientid cli)), w.2)))|].
  intros [] l1 e1 [Hv1 Hs1]. wp_step. wp_step. wp_step.
  assert (Hin1 : ∃ v, v ∈ ul_users l1 ∧ ui_addr v = ui_addr user).
  { assert (Hw : view_set (ui_addr user) (λ w, ((w.1.1, (cl_userid cli, cl_clientid cli)), w.2))
                   (view user) ∈ views l1).
    { rewrite Hv1. by apply list_elem_of_fmap_2, list_elem_of_fmap_2. }
    apply list_elem_of_fmap in Hw as (v & E & Hv). exists v. split; [done|].
    apply (f_equal (λ w : view_t, w.1.1)) in E. cbn in E. rewrite <- E. unfold view_set. cbn.
    by destruct (_ =? _)%nat. }
  destruct Hin1 as (v & Hv & Ea). rewrite <- Ea at 1.
  destruct (deref_user_at l1 v Hv) as (u & Hu & _ & _). eapply wp_of_run; [exact Hu|]. cbn beta.
  wp_step. wp_step. wp_step.
  assert (Hset : ∀ l2, step_to l1 (views l1) l2 →
    wp (set_user (ui_addr user) (λ u, {| u with ui_needs_key := true; ui_force_decoder := false |}))
       (λ _ l' _, step_to l1 (views l1) l') l2).
  { intros l2 [Hv2 Hs2]. eapply wp_mono; [by apply (set_user_views _ _ (λ w, w))|].
    intros [] l' e [Hv' Hs']. split; [by rewrite Hv', view_set_id|congruence]. }
  destruct (ui_listpos u =? 0); wp_steps; [apply wp_track; wp_step|].
  all: eapply wp_mono; [by apply Hset|]; intros [] l' e [Hv' Hs']; wp_step.
  all: split; congruence.
Qed.

(** ** Clients up to case *)

Lemma same_client_sym i j : same_client i j → same_client j i.
Proof. intros (? & ? & ? & ? & E1 & E2). repeat split; try done; by symmetry. Qed.

Lemma same_client_trans i j k : same_client i j → same_client j k → same_client i k.
Proof.
  intros (? & ? & _ & _ & E1 & E2) (_ & _ & ? & ? & E3 & E4).
  repeat split; try done; by etrans.
Qed.

Lemma same_client_refl s t : same_client (Some s, Some t) (Some s, Some t).
Proof. repeat split; cbn; try by eexists. all: reflexivity. Qed.

Lemma approved_snoc cs c (w : view_t) :
  (w.2 = true ↔ ∃ d, d ∈ cs ∧ same_client d w.1.2) → ¬ same_client c w.1.2 →
  w.2 = true ↔ ∃ d, d ∈ cs ++ [c] ∧ same_client d w.1.2.
Proof.
  intros Hw Hc. rewrite Hw. split; intros (d & Hd & Hsc); exists d.
  - split; [|done]. apply elem_of_app. by left.
  - apply elem_of_app in Hd as [Hd|Hd%list_elem_of_singleton]; [done|]. by subst d.
Qed.

Lemma approved_new cs c (w : view_t) :
  same_client c w.1.2 → w.2 = true → w.2 = true ↔ ∃ d, d ∈ cs ++ [c] ∧ same_client d w.1.2.
Proof.
  intros Hc Hw. split; [intros _|done]. exists c. split; [|done].
  apply elem_of_app. right. by left.
Qed.

Lemma view_ids l w : w ∈ views l → w.1 ∈ ul_ids l.
Proof.
  intros (u & -> & Hu)%list_elem_of_fmap. change (ui_ids u ∈ ul_ids l).
  by apply list_elem_of_fmap_2.
Qed.

(** One member approved, its client being [c] afterwards, and no other member
    that client. *)
Lemma approved_set cs c l l' (a : nat) (g : view_t → view_t) :
  approved_by cs l →
  views l' = view_set a g <$> views l →
  (∀ w, w ∈ views l → w.1.1 = a → same_client c (g w).1.2 ∧ (g w).2 = true) →
  (∀ w, w ∈ views l → w.1.1 ≠ a → ¬ same_client c w.1.2) →
  approved_by (cs ++ [c]) l'.
Proof.
  intros Hap Hv Ha Hna w'. rewrite Hv. intros (w & -> & Hw)%list_elem_of_fmap.
  unfold view_set. destruct (Nat.eqb_spec w.1.1 a) as [E|E].
  - destruct (Ha w Hw E). by apply approved_new.
  - apply approved_snoc; [by apply Hap|]. by apply Hna.
Qed.

(** A client found by its identifiers. *)
Lemma find_by_real_same l uid cid u :
  userlist_find_by_real l (Some uid) (Some cid) = Some u →
  u ∈ ul_users l ∧ same_client (Some uid, Some cid) (ui_ids u).2.
Proof.
  intros [Hm Hu]%find_Some_split. split; [done|]. unfold ids_match in Hm. unfold ui_ids. cbn.
  destruct (ui_userid_real u), (ui_clientid_real u); try done.
  apply andb_true_iff in Hm as [H1 H2]. apply strcaseeq_true in H1, H2.
  repeat split; cbn; try by eexists. all: by symmetry.
Qed.

Lemma same_client_match a b uid cid :
  strcaseeq a (Some uid) && strcaseeq b (Some cid) = true → same_client (Some uid, Some cid) (a, b).
Proof.
  intros [H1 H2]%andb_true_iff. apply strcaseeq_true in H1, H2.
  repeat split; cbn; try by eexists. 3,4: by symmetry.
  - destruct a; [by eexists|]. symmetry in H1. by destruct (str_casecmp_null uid).
  - destruct b; [by eexists|]. symmetry in H2. by destruct (str_casecmp_null cid).
Qed.

Lemma se_approve_view cli epoch u : view (se_approve cli epoch u) = (ui_ids u, true).
Proof. done. Qed.

Lemma se_new_approved l l2 cli epoch u lo cs n uid cid :
  approved_by cs l → views l2 = views l → ids_ok (ui_ids (ul_self l)) (ul_ids l) n →
  ui_ids u = (n, (Some uid, Some cid)) →
  (∀ j, j ∈ ul_ids l → ¬ same_client (Some uid, Some cid) j.2) →
  wp (se_new cli epoch u lo)
     (λ r l' _, r = None ∨ approved_by (cs ++ [(Some uid, Some cid)]) l') l2.
Proof.
  intros Hap Hv Hids Hu Hfresh. unfold se_new, append_user. wp_steps.
  eapply wp_mono; [by apply (set_user_views _ _ (λ w, (w.1, true)))|].
  intros [] l' e [Hv' _]. wp_step. right. unfold views in Hv'. cbn [ul_users] in Hv'.
  rewrite !fmap_app in Hv'. change (view <$> ul_users l2) with (views l2) in Hv'.
  intros w Hw. change (w ∈ views l') in Hw. unfold views in Hw. rewrite Hv' in Hw.
  pose proof (f_equal fst Hu) as Ea. cbn in Ea. rewrite Ea, Hv in Hw.
  apply elem_of_app in Hw as [Hw|Hw].
  - apply list_elem_of_fmap in Hw as (v & -> & Hvin).
    assert (Hne : (v.1.1 =? n)%nat = false).
    { apply Nat.eqb_neq. pose proof (ids_fresh _ _ _ Hids v.1) as Hf.
      specialize (Hf ltac:(right; by apply view_ids)). lia. }
    unfold view_set. rewrite Hne. apply approved_snoc; [by apply Hap|].
    by apply Hfresh, view_ids.
  - apply list_elem_of_singleton in Hw as ->. unfold view_set. cbn. rewrite Ea, Nat.eqb_refl.
    apply approved_new; [|done]. pose proof (f_equal snd Hu) as Es. cbn in Es |- *.
    rewrite Es. apply same_client_refl.
Qed.

Lemma se_client_approved l epoch secret prev cli uid cid lo cs :
  ul_ok l → approved_by cs l → cl_userid cli = Some uid → cl_clientid cli = Some cid →
  wp (se_client epoch secret prev (Some cli) lo)
     (λ r l' _, r = None ∨ approved_by (cs ++ [(Some uid, Some cid)]) l') l.
Proof.
  intros Hok Hap Eu Ec. pose proof (ok_ids l Hok) as Hids.
  unfold se_client. wp_step. wp_step. rewrite Eu, Ec.
  destruct (strcaseeq _ _ && strcaseeq _ _) eqn:Eself.
  { wp_step. right. intros w Hw. apply approved_snoc; [by apply Hap|]. intros Hsc.
    apply (ids_not_self _ _ _ Hids _ (view_ids _ _ Hw)). apply same_client_match in Eself.
    eapply same_client_trans; [by apply same_client_sym|done]. }
  destruct (userlist_find_by_real l _ _) as [user|] eqn:Hf.
  { apply find_by_real_same in Hf as [Hu Hsc]. wp_step.
    eapply wp_mono; [apply hash_member_views|]. intros [] l1 e1 [Hv1 _]. wp_step.
    eapply wp_mono; [by apply (set_user_views _ _ (λ w, (w.1, true)))|].
    intros [] l2 e2 [Hv2 _]. wp_step. right. rewrite Hv1 in Hv2.
    apply (approved_set _ _ l l2 _ _ Hap Hv2); intros w Hw Ea.
    - split; [|done]. cbn. apply view_ids in Hw as Hi.
      apply list_elem_of_fmap in Hi as (v & E & Hv). rewrite E in Ea |- *.
      by rewrite (addr_inj _ _ _ (ids_ok_addr_nodup _ _ _ Hids) Hv Hu Ea).
    - intros Hsw. apply Ea. apply (f_equal fst (ids_clients _ _ _ Hids w.1 (ui_ids user)
        (view_ids _ _ Hw) (list_elem_of_fmap_2 _ _ _ Hu)
        (same_client_trans _ _ _ (same_client_sym _ _ Hsw) Hsc))). }
  pose proof (λ j Hj, proj1 (fresh_client l _ _ j Hf Hj)) as Hfresh.
  unfold ul_alloc. wp_steps. destruct (ul_mem_ok (ul_tick l)); [|wp_step; by left].
  wp_step. apply wp_hash_userinfo. intros h. wp_step. wp_step.
  match goal with |- wp ?m ?Q ?l' => set (l2 := l') end.
  assert (Hnew : ∀ u lo, ui_ids u = (ul_tick l, (Some uid, Some cid)) →
    wp (se_new cli epoch u lo)
       (λ r l' _, r = None ∨ approved_by (cs ++ [(Some uid, Some cid)]) l') l2).
  { intros u lo' Hu. by apply (se_new_approved l l2 _ _ _ _ _ (ul_tick l)). }
  destruct (userlist_find_by_hash l2 _ _) as [user|] eqn:Hh; [|by apply Hnew].
  destruct (negb (ui_se_approved user)); [|by apply Hnew].
  wp_step. eapply wp_mono; [apply se_identify_views; by eapply find_by_hash_elem|].
  intros lo' l3 e3 [Hv3 _]. wp_step.
  eapply wp_mono; [by apply (set_user_views _ _ (λ w, (w.1, true)))|].
  intros [] l4 e4 [Hv4 _]. wp_step. right.
  rewrite Hv3, Eu, Ec, view_set_twice in Hv4 by done.
  apply (approved_set _ _ l l4 _ _ Hap Hv4); intros w Hw Ea.
  - split; [|done]. apply same_client_refl.
  - apply Hfresh, view_ids, Hw.
Qed.

(** The clients of a list, all of them with identifiers. *)
Definition named (cli : icall_client) : Prop :=
  is_Some (cl_userid cli) ∧ is_Some (cl_clientid cli).

Definition cl_ids (cli : icall_client) : option string * option string :=
  (cl_userid cli, cl_clientid cli).

Lemma se_clients_approved epoch secret prev cls : ∀ cs lo l,
  ul_ok l → approved_by cs l → Forall named cls →
  wp (se_clients epoch secret prev (Some <$> cls) lo)
     (λ r l' _, r = None ∨ approved_by (cs ++ (cl_ids <$> cls)) l') l.
Proof.
  induction cls as [|cli cls IH]; intros cs lo l Hok Hap Hall; cbn [fmap list_fmap se_clients].
  { wp_step. right. by rewrite app_nil_r. }
  apply Forall_cons in Hall as [[[uid Eu] [cid Ec]] Hall]. wp_step.
  eapply wp_mono.
  { apply wp_and; [by apply se_client_ok|by apply se_client_approved]. }
  intros [lo'|] l' e [Hok' [E|Hap']]; try done; [|by wp_step; left..].
  eapply wp_mono; [by apply (IH (cs ++ [(Some uid, Some cid)]))|].
  intros r l'' e' [->|Hap'']; [by left|right]. rewrite <- (assoc_L (++)) in Hap''.
  unfold cl_ids at 1. by rewrite Eu, Ec.
Qed.

(** C29: after [userlist_update_from_selist] a member is approved exactly when the
    backend listed its client, identifiers compared without regard to case;
    whoever was approved before and is not listed any more has lost the
    approval.  The list is left well-formed. *)
Theorem selist_approves_exactly l cls epoch secret :
  ul_ok l → Forall named cls →
  wp (userlist_update_from_selist (Some <$> cls) epoch secret)
     (λ r l' _, ul_ok l' ∧ (r = None ∨
        ∀ u, u ∈ ul_users l' →
          ui_se_approved u = true ↔
          ∃ cli, cli ∈ cls ∧ same_client (cl_ids cli) (ui_userid_real u, ui_clientid_real u))) l.
Proof.
  intros Hok Hall. apply wp_and; [by apply update_from_selist_ok|].
  unfold userlist_update_from_selist. wp_step. wp_step. wp_step. apply wp_modify.
  match goal with |- wp ?m ?Q ?l' => set (l1 := l') end.
  assert (Hok1 : ul_ok l1) by (eapply ul_ok_keeps; [by apply keeps_each|done]).
  assert (Hap1 : approved_by [] l1).
  { intros w Hw. apply list_elem_of_fmap in Hw as (u & -> & Hu).
    apply list_elem_of_fmap in Hu as (v & -> & _). cbn.
    split; [done|]. intros (c & []%not_elem_of_nil & _). }
  wp_step. eapply wp_mono; [by apply se_clients_approved|].
  intros [lo|] l2 e2 [E|Hap]; try done; [|by wp_step; left..].
  wp_step. wp_step. wp_step. apply wp_modify. wp_steps. right. cbn [ul_users].
  intros u (v & -> & Hv)%list_elem_of_fmap.
  assert (Hfin : view (se_finish v) = view v) by (unfold se_finish; by destruct (negb _)).
  specialize (Hap (view (se_finish v))). rewrite Hfin in Hap at 1.
  specialize (Hap (list_elem_of_fmap_2 _ _ _ Hv)). cbn in Hap. rewrite Hap.
  split; [intros (c & (cli & -> & Hc)%list_elem_of_fmap & Hsc)|intros (cli & Hc & Hsc)]; [by eauto|].
  exists (cl_ids cli). split; [by apply list_elem_of_fmap_2|done].
Qed.
End Approved.
