(* ===== verification/UserListWitness.v ===== *)
(** * The member list on concrete inputs

    A conference of two clients with a toy hash in place of SHA-256, and the
    properties of the list applied to it. *)

From S2P Require Import Prelude LibRe EconnMsg UserHash AudioLevel UserList UserListSpec UserListSft UserListOps UserListProps UserListMembers UserListApproved.

Module SodiumRef.

(** The bytes hashed so far; the digest is the first 32 of them, padded. *)
Definition toy_sha (l : list Z) : list Z := take 32 ((u8 <$> l) ++ replicate 32 0).

#[export] Instance sodium : Sodium := {|
  sha_state := list Z;
  crypto_hash_sha256_init := (0, []);
  crypto_hash_sha256_update := λ st d, (0, st ++ d);
  crypto_hash_sha256_final := λ st, (0, toy_sha st);
|}.

Lemma toy_sha_length l : length (toy_sha l) = crypto_hash_sha256_BYTES.
Proof.
  unfold toy_sha, crypto_hash_sha256_BYTES.
  rewrite length_take, length_app, length_replicate. lia.
Qed.

Lemma toy_sha_bytes l : bytes_ok (toy_sha l).
Proof.
  apply Forall_take, Forall_app. split.
  - apply Forall_fmap, Forall_forall. intros x _. exact (uwrap_range 8 x ltac:(lia)).
  - apply Forall_replicate. unfold byte_ok. lia.
Qed.

#[export] Instance sodium_len : SodiumLen sodium.
Proof. split; intros st; [apply toy_sha_length|apply toy_sha_bytes]. Qed.

Definition absorbed (st : @sha_state sodium) (l : list Z) : Prop := (st : list Z) = l.

#[export] Instance sodium_spec : SodiumSpec sodium absorbed toy_sha.
Proof. split; [done|by intros st l d ->|by intros st l ->]. Qed.
End SodiumRef.

Import LibReRef SodiumRef.

#[export] Instance mem_env : UlEnv := {| ul_mem_ok := λ _, true |}.

Lemma hash_user_result_witness :
  (∃ s, hash_user true [1; 2] (Some "u") (Some "c") = Some (0, Some s) ∧
        String.length s = 32%nat ∧
        unhex (list_ascii_of_string s) = Some (take 16 (toy_sha ([1; 2] ++ [117] ++ [99]))))%string.
Proof.
  destruct (hash_user_result (ab := absorbed) (sha := toy_sha) true [1; 2] "u" "c")
    as (_ & _ & _ & H). exact H.
Defined.

(** ** A conference of two *)

Definition mk_user (a : nat) (name hash : string) : userinfo :=
  let u := userinfo_zero a in
  {| u with ui_userid_real := Some name; ui_clientid_real := Some "c"%string;
            ui_userid_hash := Some hash; ui_clientid_hash := Some "_"%string;
            ui_se_approved := true |}.

Definition mk_list (self : userinfo) (us : list userinfo) : userlist := {|
  ul_users := us; ul_self := self; ul_keygenerator := None;
  ul_addh := true; ul_removeh := true; ul_synch := true; ul_kgchangeh := true;
  ul_vstateh := true; ul_tick := 10;
|}.

Definition mk_part (hash : string) (ssrc : Z) : econn_group_part := {|
  gp_userid := Some hash; gp_clientid := Some "_"%string; gp_authorized := true;
  gp_muted_state := MUTED_STATE_UNKNOWN; gp_ssrca := ssrc; gp_ssrcv := 0; gp_ts := 0 |}.

Definition at_alice : userlist := mk_list (mk_user 1 "alice" "ha") [mk_user 2 "bob" "hb"].
Definition at_bob : userlist := mk_list (mk_user 1 "bob" "hb") [mk_user 2 "alice" "ha"].
Definition report : list econn_group_part := [mk_part "hb" 7; mk_part "ha" 8].

Lemma two_ok a b :
  ui_addr a = 1%nat → ui_addr b = 2%nat → ¬ same_client (ui_ids b).2 (ui_ids a).2 →
  ul_ok (mk_list a [b]).
Proof.
  intros Ea Eb Hsc. split; [|done]. split; cbn; rewrite ?Ea, ?Eb.
  - apply (bool_decide_unpack _). reflexivity.
  - intros i [->|[->|[]%not_elem_of_nil]%elem_of_cons]%elem_of_cons; cbn; lia.
  - intros i j ->%list_elem_of_singleton ->%list_elem_of_singleton. done.
  - intros i ->%list_elem_of_singleton. exact Hsc.
Qed.

Lemma at_alice_ok : ul_ok at_alice.
Proof. apply two_ok; [done|done|]. intros (_ & _ & _ & _ & E & _). discriminate E. Qed.

Lemma at_bob_ok : ul_ok at_bob.
Proof. apply two_ok; [done|done|]. intros (_ & _ & _ & _ & E & _). discriminate E. Qed.

Lemma report_trusted p : p ∈ report → recognised at_alice p = recognised at_bob p.
Proof. intros [->|[->|[]%not_elem_of_nil]%elem_of_cons]%elem_of_cons; reflexivity. Qed.

Lemma keygenerator_elected_witness :
  wp (userlist_update_from_sftlist (Some <$> report) false)
     (λ r l' e, ul_ok l' ∧
        (r.1.1 = 0 ∧ ul_keygenerator l' = elected at_alice report ∧
         List.filter is_kg_event e = kg_events (ul_keygenerator at_alice) l' ∨
         r.1.1 = ENOMEM ∧ ∃ n, ul_mem_ok n = false)) at_alice
  ∧ elected at_alice report = Some 2%nat.
Proof. split; [apply (keygenerator_elected at_alice report false at_alice_ok)|reflexivity]. Defined.

Lemma keygenerator_agreed_witness :
  wp (userlist_update_from_sftlist (Some <$> report) false) (λ _ lA' _,
    wp (userlist_update_from_sftlist (Some <$> report) false) (λ _ lB' _,
      ul_keygenerator lA' = None ∧ ul_keygenerator lB' = None ∨
      ∃ p, p ∈ report ∧ kg_role at_alice p (ul_keygenerator lA') ∧
           kg_role at_bob p (ul_keygenerator lB')) at_bob) at_alice.
Proof.
  apply keygenerator_agreed; [apply at_alice_ok|apply at_bob_ok|done|apply report_trusted].
Defined.

Lemma keygenerator_unique_witness :
  wp (userlist_update_from_sftlist (Some <$> report) false) (λ _ lA' _,
    wp (userlist_update_from_sftlist (Some <$> report) false) (λ _ lB' _,
      userlist_is_keygenerator_me lA' && userlist_is_keygenerator_me lB' = false) at_bob)
    at_alice.
Proof.
  apply keygenerator_unique;
    [apply at_alice_ok|apply at_bob_ok|done|apply report_trusted|reflexivity].
Defined.

Lemma userlist_reachable_ok_witness :
  wp (ul_execs [OpSeList [Some (icall_client_alloc (Some "bob") (Some "c"))] 1 [1];
                OpSftList report; OpGetKeyTargets false; OpIncallClear true true;
                OpSftList report])%string
     (λ _ l' _,
        NoDup (ui_addr <$> ul_users l') ∧
        (∀ u v, u ∈ ul_users l' → v ∈ ul_users l' →
           same_client (ui_ids u).2 (ui_ids v).2 → u = v) ∧
        (∀ u, u ∈ ul_users l' → ¬ same_client (ui_ids u).2 (ui_ids (ul_self l')).2) ∧
        (∀ a, ul_keygenerator l' = Some a →
           a = ui_addr (ul_self l') ∨ a ∈ ui_addr <$> ul_users l'))
     {| ul_users := [];
        ul_self := (let u := userinfo_zero 1 in
                    {| u with ui_userid_real := Some "alice"; ui_clientid_real := Some "c" |});
        ul_keygenerator := None; ul_addh := true; ul_removeh := true; ul_synch := true;
        ul_kgchangeh := true; ul_vstateh := true; ul_tick := 2 |}%string.
Proof.
  apply (userlist_reachable_ok 0 (Some "alice") (Some "c") true true true true true)%string.
  reflexivity.
Defined.

Lemma decoders_in_sync_witness :
  wp (userlist_update_from_sftlist (Some <$> report) false)
     (λ r l' e, r.1.1 = ENOMEM ∨
        ∀ u', u' ∈ ul_users l' → ui_se_approved u' = true →
          ui_force_decoder u' = false ∧
          ∃ u, u ∈ ul_users at_alice ∧ ui_addr u = ui_addr u' ∧
            (ui_addr u' ∈ decoders [] e ↔
             (ui_incall_now u' || ui_force_decoder u) && stream u' = true)) at_alice.
Proof.
  apply decoders_in_sync; [apply at_alice_ok|reflexivity|reflexivity|].
  intros u ->%list_elem_of_singleton _. split; [by intros []%not_elem_of_nil|discriminate].
Defined.

Lemma sft_members_incall_witness :
  wp (userlist_update_from_sftlist (Some <$> report) false)
     (λ r l' e, r.1.1 = ENOMEM ∨
        ((∀ u, u ∈ ul_users at_alice → ∃ u', u' ∈ ul_users l' ∧ ui_addr u' = ui_addr u ∧
            ui_se_approved u' = ui_se_approved u ∧
            ui_incall_now u' = existsb (λ p, hits at_alice p u) report) ∧
         (∀ u', u' ∈ ul_users l' → ui_addr u' ∈ ui_addr <$> ul_users at_alice ∨
            ui_incall_now u' = true ∧ ui_se_approved u' = false))) at_alice.
Proof. apply (sft_members_incall at_alice report false at_alice_ok). Defined.

Lemma sft_members_sorted_witness :
  wp (userlist_update_from_sftlist (Some <$> report) false)
     (λ r l' e, r.1.1 = ENOMEM ∨
        StronglySorted (λ a b, ui_listpos a <= ui_listpos b) (ul_users l') ∧
        (∀ u', u' ∈ ul_users l' → ∀ u, u ∈ ul_users at_alice → ui_addr u' = ui_addr u →
           if ui_incall_now u'
           then ∃ p, report !! Z.to_nat (ui_listpos u') = Some p ∧ hits at_alice p u = true
           else ui_listpos u' = LIST_POS_NONE)) at_alice.
Proof. apply (sft_members_sorted at_alice report false at_alice_ok). reflexivity. Defined.

Lemma joined_members_get_key_witness :
  wp (userlist_update_from_sftlist (Some <$> report) false) (λ _ l1 _,
    wp (userlist_get_key_targets false) (λ r l2 _,
      r.1 = 0 ∧
      (∀ u, u ∈ ul_users at_alice → ui_se_approved u = true → ui_incall_now u = false →
         existsb (λ p, hits at_alice p u) report = true → client_of u ∈ r.2) ∧
      wp (userlist_get_key_targets false) (λ r' _ _, r' = (0, [])) l2) l1) at_alice
  ∧ existsb (λ p, hits at_alice p (mk_user 2 "bob" "hb")) report = true.
Proof.
  split; [|reflexivity]. apply (joined_members_get_key at_alice report false at_alice_ok). done.
Defined.

(** Bob in the call with a stream. *)
Definition bob_in_call : userinfo :=
  let u := mk_user 2 "bob" "hb" in {| u with ui_incall_now := true; ui_ssrca := 7 |}.

Lemma absent_member_gets_decoder_witness :
  let l := mk_list (mk_user 1 "alice" "ha") [bob_in_call] in
  wp (userlist_incall_clear true true) (λ _ l1 _,
    wp (userlist_update_from_sftlist (Some <$> [mk_part "ha" 8]) false) (λ _ l2 e,
      2%nat ∈ decoders [] e ∧
      (∃ u', u' ∈ ul_users l2 ∧ ui_addr u' = 2%nat ∧ ui_incall_now u' = false) ∧
      wp (userlist_update_from_sftlist (Some <$> [mk_part "ha" 8]) false) (λ _ _ e',
        2%nat ∈ decoders [2%nat] e') l2) l1) l.
Proof.
  apply (absent_member_gets_decoder (mk_list (mk_user 1 "alice" "ha") [bob_in_call]) bob_in_call);
    try reflexivity.
  - apply two_ok; [done|done|]. intros (_ & _ & _ & _ & E & _). discriminate E.
  - by left.
  - intros p uid cid ->%list_elem_of_singleton [= <-] [= <-]. reflexivity.
  - intros p uid cid ->%list_elem_of_singleton [= <-] [= <-]. reflexivity.
Defined.

Lemma key_index_least_witness :
  userlist_get_key_index at_alice = least (known_epochs at_alice).
Proof. apply key_index_least. discriminate. Defined.

Lemma selist_approves_exactly_witness :
  let cls := [icall_client_alloc (Some "Bob"%string) (Some "c"%string)] in
  wp (userlist_update_from_selist (Some <$> cls) 1 [1])
     (λ r l' _, ul_ok l' ∧ (r = None ∨
        ∀ u, u ∈ ul_users l' →
          ui_se_approved u = true ↔
          ∃ cli, cli ∈ cls ∧ same_client (cl_ids cli) (ui_userid_real u, ui_clientid_real u)))
     at_alice.
Proof.
  apply (selist_approves_exactly at_alice); [apply at_alice_ok|].
  repeat constructor; by eexists.
Defined.
