(* ===== verification/FrameHdr.v ===== *)
(** * The frame header of end-to-end encrypted media
    ([src/frame_hdr/frame_hdr.c])

    Every encrypted audio or video frame starts with a header that carries the
    frame counter, the key index and, optionally, the sender's CSRC:
<<
                     1 1 1 1 1 1
 0 1 2 3 4 5 6 7 8 9 0 1 2 3 4 5
+-+-+-+-+-+-+-+-+-+-+-+-+-+-+-+-+
| V=0 |E|  RES  |S|LEN  |1|KLEN |
+-+-+-+-+-+-+-+-+-+-+-+-+-+-+-+-+
|     KID...  (length=KLEN)     |
+-------------------------------+
|      CTR... (length=LEN)      |
+-------------------------------+
>>
    A buffer is the list of its bytes; sizes and offsets ([size_t]) are [nat].
    An access outside the buffer makes the model return [None] (or [HdrOOB]),
    so the theorems that exclude these results are memory-safety theorems. *)

From S2P Require Import Prelude.

Definition FRAME_HDR_MINSZ : nat := 2.
Definition HDR_VERSION : Z := 0.
Definition MAX_EXTS : nat := 16.

(** [frame_hdr_max_size] *)
Definition frame_hdr_max_size : nat := 18 + 9 * 8.

(** The [while] loop of [calc_len]; four rounds empty a 32-bit value. *)
Fixpoint calc_len_loop (n : nat) (val : Z) (l : nat) : nat :=
  match n with
  | O => l
  | S n => if val =? 0 then l else calc_len_loop n (Z.shiftr val 8) (S l)
  end.

(** [calc_len]: its parameter is a [uint32_t], whatever the caller passes. *)
Definition calc_len (val : Z) : nat :=
  let val := u32 val in
  if val =? 0 then 1%nat else calc_len_loop 4 val 0.

(** The bytes stored by the [switch] of [write_bytes] from the case [len] on:
    each case stores one byte and falls through to the next. *)
Fixpoint write_cases (len : nat) (val : Z) : list Z :=
  match len with
  | O => []
  | S k => Z.land (Z.shiftr val (8 * Z.of_nat k)) 0xff :: write_cases k val
  end.

(** Store [l] at offset [p] of [buf]. *)
Definition store (buf : list Z) (p : nat) (l : list Z) : option (list Z) :=
  if decide (p + length l ≤ length buf)%nat
  then Some (take p buf ++ l ++ drop (p + length l) buf)
  else None.

(** [write_bytes]: the buffer afterwards and the number of bytes written. *)
Definition write_bytes (buf : list Z) (p : nat) (len : nat) (val : Z)
    : option (list Z * nat) :=
  if decide (1 ≤ len ≤ 8)%nat
  then buf ← store buf p (write_cases len val); Some (buf, len)
  else Some (buf, 0%nat).

(** [read_bytes]: a big-endian value of [len] bytes. *)
Fixpoint read_loop (buf : list Z) (p : nat) (l : nat) (v : Z) : option Z :=
  match l with
  | O => Some v
  | S l => b ← buf !! p; read_loop buf (S p) l (Z.lor (u64 (Z.shiftl v 8)) b)
  end.
Definition read_bytes (buf : list Z) (p len : nat) : option Z := read_loop buf p len 0.

(** The part of [frame_hdr_write] that stores a key index longer than three
    bits, and the part that stores the extension with the CSRC: the buffer and
    the offset afterwards. *)
Definition hdr_write_key (buf : list Z) (p : nat) (x klen key : Z)
    : option (list Z * nat) :=
  if x =? 0 then Some (buf, p)
  else
    '(buf, n) ← write_bytes buf p (Z.to_nat (klen + 1)) key;
    Some (buf, (p + n)%nat).
Definition hdr_write_ext (buf : list Z) (p : nat) (csrc : Z)
    : option (list Z * nat) :=
  if csrc =? 0 then Some (buf, p)
  else
    buf ← store buf p [0x31];
    let p := S p in
    '(buf, _) ← write_bytes buf p 4 csrc;
    Some (buf, (p + 4)%nat).

(** [frame_hdr_write]: the buffer afterwards and the size of the header, [0]
    when the buffer is too small. *)
Definition frame_hdr_write (buf : list Z) (bsz : nat) (frame key csrc : Z)
    : option (list Z * nat) :=
  let sig := 0 in
  let ext := if csrc =? 0 then 0 else 1 in
  let xsz := if csrc =? 0 then 0%nat else 5%nat in
  let x := if 7 <? key then 1 else 0 in
  let ksz := if 7 <? key then calc_len key else 0%nat in
  let klen := if 7 <? key then Z.of_nat ksz - 1 else key in
  let flen := calc_len frame in
  let hsz := (2 + ksz + flen + xsz)%nat in
  if decide (bsz < hsz)%nat then Some (buf, 0%nat)
  else
    buf ← store buf 0 [u8 (Z.lor (Z.shiftl HDR_VERSION 5) (Z.shiftl ext 4))];
    buf ← store buf 1
      [u8 (Z.lor (Z.lor (Z.lor (Z.shiftl sig 7) (Z.shiftl (Z.of_nat flen - 1) 4))
                        (Z.shiftl x 3)) klen)];
    '(buf, p) ← hdr_write_key buf 2 x klen key;
    '(buf, n) ← write_bytes buf p flen frame;
    hdr_write_ext buf (p + n) csrc.

(** The outcomes of [frame_hdr_read]: success with the values of [*frameid],
    [*key], [*csrc] and [*rlen], an error code, an access outside the
    buffer. *)
Inductive hdr_result :=
| HdrOk (frameid key csrc : Z) (rlen : nat)
| HdrErr (err : Z)
| HdrOOB.

(** The loop over the extensions; [n] is [MAX_EXTS - i]. *)
Fixpoint read_exts (n : nat) (buf : list Z) (bsz : nat) (frameid key : Z)
    (p : nat) (ext : bool) (csrc : Z) : hdr_result :=
  match n with
  | O => HdrOk frameid key csrc p
  | S n =>
    if ext && bool_decide (p < bsz)%nat then
      match buf !! p with
      | None => HdrOOB
      | Some b =>
        let ext := negb (Z.land b 0x80 =? 0) in
        let elen := S (Z.to_nat (Z.land (Z.shiftr b 4) 7)) in
        if decide (bsz ≤ p + elen + 1)%nat then HdrOk frameid key csrc p
        else
          let eid := Z.land b 0x0f in
          if (eid =? 1) && bool_decide (elen = 4%nat) then
            if decide (bsz < p + 5)%nat then HdrErr ERANGE
            else
              match read_bytes buf (p + 1) 4 with
              | None => HdrOOB
              | Some csrc64 =>
                read_exts n buf bsz frameid key (p + elen + 1) ext (u32 csrc64)
              end
          else read_exts n buf bsz frameid key (p + elen + 1) ext csrc
      end
    else HdrOk frameid key csrc p
  end.

(** [frame_hdr_read]; [csrc0] is what [*csrc] holds before the call. *)
Definition frame_hdr_read (buf : list Z) (bsz : nat) (csrc0 : Z) : hdr_result :=
  match buf !! 0%nat, buf !! 1%nat with
  | Some b0, Some b1 =>
    let p := FRAME_HDR_MINSZ in
    let ext := negb (Z.land b0 0x10 =? 0) in
    let flen := S (Z.to_nat (Z.land (Z.shiftr b1 4) 7)) in
    let x := Z.land (Z.shiftr b1 3) 1 in
    let klen := Z.to_nat (Z.land b1 7) in
    let rest (key : Z) (p : nat) :=
      if decide (bsz < p + flen)%nat then HdrErr ERANGE
      else
        match read_bytes buf p flen with
        | None => HdrOOB
        | Some frameid =>
          read_exts MAX_EXTS buf bsz frameid key (p + flen) ext csrc0
        end in
    if x =? 0 then rest (Z.of_nat klen) p
    else if decide (bsz < p + klen + 1)%nat then HdrErr ERANGE
    else
      match read_bytes buf p (klen + 1) with
      | None => HdrOOB
      | Some key => rest key (p + (klen + 1))%nat
      end
  | _, _ => HdrOOB
  end.

(** ** Evaluation on concrete headers *)

Example hdr_small :
  frame_hdr_write (replicate 20 0) 20 0x1234 5 0 = Some ([0; 0x15; 0x12; 0x34] ++ replicate 16 0, 4%nat).
Proof. reflexivity. Qed.

Example hdr_csrc :
  frame_hdr_write (replicate 20 0) 20 7 300 0xdeadbeef
  = Some ([0x10; 0x09; 0x01; 0x2c; 7; 0x31; 0xde; 0xad; 0xbe; 0xef] ++ replicate 10 0, 10%nat).
Proof. reflexivity. Qed.

Example hdr_csrc_back :
  frame_hdr_read ([0x10; 0x09; 0x01; 0x2c; 7; 0x31; 0xde; 0xad; 0xbe; 0xef] ++ replicate 10 0)
    20 0 = HdrOk 7 300 0xdeadbeef 10.
Proof. reflexivity. Qed.

(** ** Big-endian numbers *)

(** The value of a list of bytes, most significant first. *)
Definition be_value (l : list Z) : Z := foldl (λ v b, v * 256 + b) 0 l.

Lemma foldl_be l v :
  foldl (λ v b, v * 256 + b) v l = v * 256 ^ Z.of_nat (length l) + be_value l.
Proof.
  unfold be_value. revert v. induction l as [|b l IH]; intros v; cbn [foldl length].
  - change (Z.of_nat 0) with 0. rewrite Z.pow_0_r. lia.
  - rewrite IH, (IH (0 * 256 + b)), Nat2Z.inj_succ, Z.pow_succ_r by lia. lia.
Qed.

Lemma be_value_bound l : bytes_ok l → 0 <= be_value l < 256 ^ Z.of_nat (length l).
Proof.
  induction 1 as [|b l Hb Hl IH]; [done|]. unfold be_value in *.
  unfold byte_ok in Hb. cbn [foldl length]. rewrite foldl_be.
  rewrite Nat2Z.inj_succ, Z.pow_succ_r by lia. unfold be_value. nia.
Qed.

Lemma length_write_cases len val : length (write_cases len val) = len.
Proof. induction len; cbn; congruence. Qed.

Lemma write_cases_bytes len val : bytes_ok (write_cases len val).
Proof.
  induction len as [|k IH]; constructor; [|done]. unfold byte_ok.
  change 0xff with (Z.ones 8). rewrite Z.land_ones by lia.
  apply Z.mod_pos_bound. lia.
Qed.

Lemma be_value_write_cases len val :
  be_value (write_cases len val) = val mod 256 ^ Z.of_nat len.
Proof.
  induction len as [|k IH]; [by rewrite Z.mod_1_r|].
  unfold be_value. cbn [write_cases foldl]. rewrite foldl_be, IH, length_write_cases.
  change 0xff with (Z.ones 8). rewrite Z.land_ones, Z.shiftr_div_pow2 by lia.
  rewrite Nat2Z.inj_succ, Z.pow_succ_r, (Z.mul_comm 256) by lia.
  replace (2 ^ (8 * Z.of_nat k)) with (256 ^ Z.of_nat k)
    by (rewrite Z.pow_mul_r by lia; done).
  rewrite Z.rem_mul_r by lia. change (2 ^ 8) with 256. lia_div.
Qed.

(** One step of the reader on a value that still has room for a byte. *)
Lemma shift_in v b :
  0 <= v < 2 ^ 56 → byte_ok b → Z.lor (u64 (Z.shiftl v 8)) b = v * 256 + b.
Proof.
  intros Hv Hb. unfold byte_ok in Hb.
  rewrite Z.shiftl_mul_pow2 by lia. change (2 ^ 8) with 256.
  rewrite uwrap_small by lia.
  apply Z.bits_inj'. intros n Hn. rewrite Z.lor_spec.
  change 256 with (2 ^ 8). destruct (Z.lt_ge_cases n 8).
  - rewrite Z.mul_pow2_bits_low by lia. cbn.
    rewrite <-(Z.mod_pow2_bits_low (v * 2 ^ 8 + b) 8), Z.add_comm, Z.mod_add by lia.
    by rewrite Z.mod_small by lia.
  - replace n with (n - 8 + 8) by lia.
    rewrite <-!(Z.div_pow2_bits _ 8 (n - 8)), Z.div_mul, Z.div_add_l by lia.
    by rewrite (Z.div_small b), Z.bits_0, orb_false_r, Z.add_0_r by lia.
Qed.

Lemma read_loop_value pre l suf v :
  bytes_ok l → 0 <= v →
  v * 256 ^ Z.of_nat (length l) + be_value l < 2 ^ 64 →
  read_loop (pre ++ l ++ suf) (length pre) (length l) v
  = Some (v * 256 ^ Z.of_nat (length l) + be_value l).
Proof.
  intros Hl. revert pre v. induction Hl as [|b l Hb Hl IH]; intros pre v Hv Hlt.
  { f_equal. cbn. lia. }
  cbn [read_loop app length].
  rewrite lookup_app_r, Nat.sub_diag by done. cbn [lookup list_lookup mbind option_bind].
  assert (be_value (b :: l) = b * 256 ^ Z.of_nat (length l) + be_value l) as Hbe.
  { unfold be_value at 1. cbn [foldl]. rewrite foldl_be. lia. }
  cbn [length] in Hlt |- *. rewrite Hbe, Nat2Z.inj_succ, Z.pow_succ_r in * by lia.
  pose proof (be_value_bound l Hl). unfold byte_ok in Hb.
  assert (1 <= 256 ^ Z.of_nat (length l)) by (apply (Z.pow_le_mono_r 256 0); lia).
  rewrite shift_in by (done || nia).
  replace (pre ++ b :: l ++ suf) with ((pre ++ [b]) ++ l ++ suf)
    by (by rewrite <-app_assoc).
  replace (S (length pre)) with (length (pre ++ [b])) by (rewrite length_app; cbn; lia).
  rewrite IH by nia. f_equal. lia.
Qed.

Lemma read_bytes_value pre l suf :
  bytes_ok l → (length l ≤ 8)%nat →
  read_bytes (pre ++ l ++ suf) (length pre) (length l) = Some (be_value l).
Proof.
  intros Hl Hlen. unfold read_bytes. rewrite read_loop_value; [f_equal; lia|done..|].
  pose proof (be_value_bound l Hl).
  assert (256 ^ Z.of_nat (length l) <= 256 ^ 8) by (apply Z.pow_le_mono_r; lia).
  change (256 ^ 8) with (2 ^ 64) in *. lia.
Qed.

(** Reading inside the buffer succeeds. *)
Lemma read_bytes_in_bounds buf p len :
  (p + len ≤ length buf)%nat → is_Some (read_bytes buf p len).
Proof.
  unfold read_bytes. generalize 0. revert p. induction len as [|len IH]; intros p v Hb.
  - by eexists.
  - cbn. destruct (lookup_lt_is_Some_2 buf p) as [b ->]; [lia|]. apply IH. lia.
Qed.

(** ** [calc_len] *)

Lemma calc_len_spec val :
  (1 ≤ calc_len val ≤ 4)%nat ∧ u32 val < 256 ^ Z.of_nat (calc_len val).
Proof.
  unfold calc_len. pose proof (uwrap_range 32 val ltac:(lia)) as Hr.
  generalize dependent (u32 val). clear val. intros v Hr.
  destruct (Z.eqb_spec v 0) as [->|Hnz]; [by split; cbn; lia|].
  cbn [calc_len_loop]. rewrite !Z.shiftr_shiftr, !Z.shiftr_div_pow2 by lia.
  change (2 ^ (8 + 8 + 8)) with 16777216. change (2 ^ (8 + 8)) with 65536.
  change (2 ^ 8) with 256. change (2 ^ 32) with 4294967296 in Hr.
  destruct (Z.eqb_spec v 0); [lia|].
  destruct (Z.eqb_spec (v / 256) 0).
  { change (256 ^ Z.of_nat 1) with 256. lia_div. }
  destruct (Z.eqb_spec (v / 65536) 0).
  { change (256 ^ Z.of_nat 2) with 65536. lia_div. }
  destruct (Z.eqb_spec (v / 16777216) 0).
  - change (256 ^ Z.of_nat 3) with 16777216. lia_div.
  - change (256 ^ Z.of_nat 4) with 4294967296. lia_div.
Qed.

Lemma write_cases_calc_len val :
  be_value (write_cases (calc_len val) val) = u32 val.
Proof.
  destruct (calc_len_spec val) as [Hl Hv]. rewrite be_value_write_cases.
  unfold uwrap in *. pose proof (Z.mod_pos_bound val (2 ^ 32) ltac:(lia)).
  rewrite <-(Z.mod_small (val mod 2 ^ 32) (256 ^ Z.of_nat (calc_len val))) by lia.
  symmetry. apply Z.mod_mod_divide.
  change (2 ^ 32) with (256 ^ 4).
  exists (256 ^ (4 - Z.of_nat (calc_len val))). rewrite <-Z.pow_add_r by lia. f_equal. lia.
Qed.

(** ** The header as a list of bytes

    A reference serializer: what the writer leaves at the start of the
    buffer. *)

Definition hdr_byte0 (csrc : Z) : Z := if csrc =? 0 then 0 else 16.
Definition hdr_byte1 (f x k : Z) : Z :=
  Z.lor (Z.lor (Z.lor 0 (Z.shiftl f 4)) (Z.shiftl x 3)) k.
Definition key_bytes (key : Z) : list Z :=
  if 7 <? key then write_cases (calc_len key) key else [].
Definition ext_bytes (csrc : Z) : list Z :=
  if csrc =? 0 then [] else 0x31 :: write_cases 4 csrc.
Definition hdr_bytes (frame key csrc : Z) : list Z :=
  [hdr_byte0 csrc;
   hdr_byte1 (Z.of_nat (calc_len frame) - 1) (if 7 <? key then 1 else 0)
     (if 7 <? key then Z.of_nat (calc_len key) - 1 else key)]
  ++ key_bytes key ++ write_cases (calc_len frame) frame ++ ext_bytes csrc.

(** The three fields of the second byte can be read back. *)
Lemma hdr_byte1_fields f x k :
  0 <= f < 8 → x = 0 ∨ x = 1 → 0 <= k < 8 →
  byte_ok (hdr_byte1 f x k) ∧
  Z.land (Z.shiftr (hdr_byte1 f x k) 4) 7 = f ∧
  Z.land (Z.shiftr (hdr_byte1 f x k) 3) 1 = x ∧
  Z.land (hdr_byte1 f x k) 7 = k.
Proof.
  intros Hf Hx Hk.
  assert (f = 0 ∨ f = 1 ∨ f = 2 ∨ f = 3 ∨ f = 4 ∨ f = 5 ∨ f = 6 ∨ f = 7) as Hf' by lia.
  assert (k = 0 ∨ k = 1 ∨ k = 2 ∨ k = 3 ∨ k = 4 ∨ k = 5 ∨ k = 6 ∨ k = 7) as Hk' by lia.
  unfold byte_ok.
  destruct Hx as [->| ->]; destruct_or! Hf'; subst f; destruct_or! Hk'; subst k;
    vm_compute; by split_and!.
Qed.

(** Storing right behind what was written before. *)
Lemma store_app pre suf l :
  (length l ≤ length suf)%nat →
  store (pre ++ suf) (length pre) l = Some ((pre ++ l) ++ drop (length l) suf).
Proof.
  intros Hl. unfold store. rewrite decide_True by (rewrite length_app; lia).
  f_equal. rewrite take_app_length, <-app_assoc. do 2 f_equal.
  rewrite drop_app_ge by lia. f_equal. lia.
Qed.

Lemma write_bytes_app pre suf len val :
  (1 ≤ len ≤ 8)%nat → (len ≤ length suf)%nat →
  write_bytes (pre ++ suf) (length pre) len val
  = Some ((pre ++ write_cases len val) ++ drop len suf, len).
Proof.
  intros Hlen Hs. unfold write_bytes. rewrite decide_True by done.
  rewrite store_app by by rewrite length_write_cases. cbn.
  by rewrite length_write_cases.
Qed.

Lemma length_key_bytes key :
  length (key_bytes key) = if 7 <? key then calc_len key else 0%nat.
Proof. unfold key_bytes. destruct (7 <? key); [apply length_write_cases|done]. Qed.

Lemma length_ext_bytes csrc :
  length (ext_bytes csrc) = if csrc =? 0 then 0%nat else 5%nat.
Proof. unfold ext_bytes. by destruct (csrc =? 0). Qed.

Lemma length_hdr_bytes frame key csrc :
  length (hdr_bytes frame key csrc)
  = (2 + (if (7 <? key)%Z then calc_len key else 0) + calc_len frame
     + (if (csrc =? 0)%Z then 0 else 5))%nat.
Proof.
  unfold hdr_bytes. rewrite !length_app, length_key_bytes, length_ext_bytes,
    length_write_cases. cbn. lia.
Qed.

Lemma write_key_app pre suf key :
  0 <= key → (length (key_bytes key) ≤ length suf)%nat →
  hdr_write_key (pre ++ suf) (length pre) (if 7 <? key then 1 else 0)
    (if 7 <? key then Z.of_nat (if 7 <? key then calc_len key else 0%nat) - 1 else key) key
  = Some ((pre ++ key_bytes key) ++ drop (length (key_bytes key)) suf,
          length (pre ++ key_bytes key)).
Proof.
  intros Hkey Hs. rewrite length_app. rewrite length_key_bytes in *.
  unfold key_bytes, hdr_write_key. destruct (calc_len_spec key) as [Hk _].
  destruct (7 <? key) eqn:E; cbn [Z.eqb].
  - replace (Z.to_nat (Z.of_nat (calc_len key) - 1 + 1)) with (calc_len key) by lia.
    by rewrite write_bytes_app by lia.
  - by rewrite app_nil_r, drop_0, Nat.add_0_r.
Qed.

Lemma write_ext_app pre suf csrc :
  (length (ext_bytes csrc) ≤ length suf)%nat →
  hdr_write_ext (pre ++ suf) (length pre) csrc
  = Some ((pre ++ ext_bytes csrc) ++ drop (length (ext_bytes csrc)) suf,
          length (pre ++ ext_bytes csrc)).
Proof.
  rewrite length_app, length_ext_bytes. unfold ext_bytes, hdr_write_ext.
  destruct (csrc =? 0); intros Hs.
  { by rewrite app_nil_r, drop_0, Nat.add_0_r. }
  rewrite store_app by (cbn; lia). cbn [mbind option_bind].
  replace (S (length pre)) with (length (pre ++ [0x31])) by (rewrite length_app; cbn; lia).
  rewrite write_bytes_app by (rewrite ?length_drop; cbn; lia). cbn [mbind option_bind].
  rewrite drop_drop, length_app, <-(app_assoc pre). cbn. do 2 f_equal. lia.
Qed.

(** The two fixed bytes. *)
Lemma write_fixed buf frame key csrc :
  0 <= key → (2 ≤ length buf)%nat →
  let ksz := if 7 <? key then calc_len key else 0%nat in
  (buf ← store buf 0 [u8 (Z.lor (Z.shiftl HDR_VERSION 5)
                            (Z.shiftl (if csrc =? 0 then 0 else 1) 4))];
   store buf 1
      [u8 (Z.lor (Z.lor (Z.lor (Z.shiftl 0 7) (Z.shiftl (Z.of_nat (calc_len frame) - 1) 4))
             (Z.shiftl (if 7 <? key then 1 else 0) 3))
             (if 7 <? key then Z.of_nat ksz - 1 else key))])
  = Some (take 2 (hdr_bytes frame key csrc) ++ drop 2 buf).
Proof.
  intros Hkey Hb ksz. destruct (calc_len_spec frame) as [Hf _], (calc_len_spec key) as [Hk _].
  destruct buf as [|x0 [|x1 buf]]; cbn in Hb; [lia..|].
  unfold store. rewrite !decide_True by (cbn; lia). cbn -[hdr_byte0 hdr_byte1 uwrap Z.lor Z.shiftl].
  rewrite decide_True by lia. unfold ksz. do 2 f_equal.
  - unfold hdr_byte0. by destruct (csrc =? 0).
  - rewrite take_0, !drop_0. f_equal. destruct (Z.ltb_spec 7 key); apply uwrap_small, hdr_byte1_fields; lia.
Qed.

(** The in-place writer computes the reference serialization. *)
Lemma write_hdr_bytes buf bsz frame key csrc :
  0 <= key → (bsz ≤ length buf)%nat →
  let h := hdr_bytes frame key csrc in
  frame_hdr_write buf bsz frame key csrc
  = if decide (bsz < length h)%nat then Some (buf, 0%nat)
    else Some (h ++ drop (length h) buf, length h).
Proof.
  intros Hkey Hb h. unfold frame_hdr_write.
  rewrite <-length_hdr_bytes. fold h. case_decide as Hfit; [done|].
  pose proof (length_hdr_bytes frame key csrc) as Hlen. fold h in Hlen.
  destruct (calc_len_spec frame) as [Hf _].
  pose proof (write_fixed buf frame key csrc Hkey ltac:(lia)) as Hfix.
  cbn zeta in Hfix. destruct (store buf 0 _) as [buf1|] eqn:E0; [|done].
  cbn [mbind option_bind] in Hfix |- *. rewrite Hfix. cbn [mbind option_bind].
  set (pre := take 2 (hdr_bytes frame key csrc)).
  change (hdr_write_key (pre ++ drop 2 buf) 2)
    with (hdr_write_key (pre ++ drop 2 buf) (length pre)).
  pose proof (length_key_bytes key) as Hkl.
  pose proof (length_ext_bytes csrc) as Hel.
  rewrite write_key_app by (rewrite ?length_drop; lia). cbn [mbind option_bind].
  rewrite write_bytes_app by (rewrite ?length_drop; lia). cbn [mbind option_bind].
  replace (length (pre ++ key_bytes key) + calc_len frame)%nat
    with (length ((pre ++ key_bytes key) ++ write_cases (calc_len frame) frame))
    by (by rewrite length_app, length_write_cases).
  rewrite write_ext_app by (rewrite !length_drop; lia).
  assert (((pre ++ key_bytes key) ++ write_cases (calc_len frame) frame) ++ ext_bytes csrc = h)
    as -> by (unfold h, hdr_bytes, pre; by rewrite <-!app_assoc).
  rewrite !drop_drop. repeat f_equal. lia.
Qed.

(** ** Reading a header back *)

Lemma read_exts_csrc n buf bsz frameid key p suf csrc :
  buf = take p buf ++ ext_bytes csrc ++ suf →
  (p ≤ length buf)%nat → 0 <= csrc < 2 ^ 32 →
  (p + length (ext_bytes csrc) < bsz)%nat →
  read_exts (S (S n)) buf bsz frameid key p (negb (csrc =? 0)) 0
  = HdrOk frameid key csrc (p + length (ext_bytes csrc)).
Proof.
  intros Hbuf Hp Hc Hlt. rewrite length_ext_bytes in *. unfold ext_bytes in Hbuf.
  destruct (Z.eqb_spec csrc 0) as [Hz|Hnz]; cbn [negb].
  { cbn. by rewrite Hz, Nat.add_0_r. }
  cbn [read_exts]. rewrite bool_decide_eq_true_2 by lia. cbn [andb].
  assert (buf !! p = Some 0x31) as ->.
  { rewrite Hbuf, lookup_app_r, length_take, Nat.min_l, Nat.sub_diag
      by (rewrite ?length_take; lia). done. }
  change (Z.land 0x31 0x80 =? 0) with true. change (Z.land 0x31 0x0f =? 1) with true.
  change (Z.to_nat (Z.land (Z.shiftr 0x31 4) 7)) with 3%nat.
  rewrite decide_False, bool_decide_eq_true_2, decide_False by lia. cbn [andb negb].
  assert (read_bytes buf (p + 1) 4 = Some csrc) as ->.
  { rewrite Hbuf.
    replace (take p buf ++ (0x31 :: write_cases 4 csrc) ++ suf)
      with ((take p buf ++ [0x31]) ++ write_cases 4 csrc ++ suf)
      by (by rewrite <-app_assoc).
    pose proof (read_bytes_value (take p buf ++ [0x31]) (write_cases 4 csrc) suf
      (write_cases_bytes _ _) ltac:(rewrite length_write_cases; lia)) as Hr.
    rewrite length_write_cases, length_app, length_take, Nat.min_l in Hr by done.
    cbn [length] in Hr. rewrite Hr, be_value_write_cases. f_equal.
    apply Z.mod_small. by change (256 ^ Z.of_nat 4) with (2 ^ 32). }
  rewrite uwrap_small by done. f_equal. lia.
Qed.

(** The parts of a serialized header, found by the reader at their offsets. *)
Section ReadBack.
Variables (frame key csrc : Z) (suf : list Z).
Hypotheses (Hkey : 0 <= key) (Hcsrc : 0 <= csrc < 2 ^ 32).

#[local] Abbreviation fb := (write_cases (calc_len frame) frame).
#[local] Abbreviation kb := (key_bytes key).
#[local] Abbreviation b1 :=
  (hdr_byte1 (Z.of_nat (calc_len frame) - 1) (if 7 <? key then 1 else 0)
     (if 7 <? key then Z.of_nat (calc_len key) - 1 else key)).
#[local] Abbreviation buf := (hdr_bytes frame key csrc ++ suf).

Lemma buf_parts : buf = [hdr_byte0 csrc; b1] ++ kb ++ fb ++ ext_bytes csrc ++ suf.
Proof. unfold hdr_bytes. by rewrite <-!app_assoc. Qed.

Lemma b1_fields :
  S (Z.to_nat (Z.land (Z.shiftr b1 4) 7)) = calc_len frame ∧
  Z.land (Z.shiftr b1 3) 1 = (if 7 <? key then 1 else 0) ∧
  Z.to_nat (Z.land b1 7) = if 7 <? key then (calc_len key - 1)%nat else Z.to_nat key.
Proof.
  destruct (calc_len_spec frame) as [Hf _], (calc_len_spec key) as [Hk _].
  destruct (hdr_byte1_fields (Z.of_nat (calc_len frame) - 1) (if 7 <? key then 1 else 0)
    (if 7 <? key then Z.of_nat (calc_len key) - 1 else key)) as (_ & H1 & H2 & H3);
    [lia|destruct (7 <? key); auto|destruct (Z.ltb_spec 7 key); lia|].
  rewrite H1, H2, H3. split_and!; [lia|done|]. destruct (7 <? key); lia.
Qed.

Lemma read_key_part : 7 < key → read_bytes buf 2 (calc_len key) = Some (u32 key).
Proof.
  intros Hk. destruct (calc_len_spec key) as [Hl _].
  pose proof (read_bytes_value [hdr_byte0 csrc; b1] kb (fb ++ ext_bytes csrc ++ suf)) as Hr.
  rewrite buf_parts. unfold key_bytes in *. rewrite (proj2 (Z.ltb_lt 7 key) Hk) in *.
  rewrite length_write_cases, write_cases_calc_len in Hr.
  apply Hr; [apply write_cases_bytes|lia].
Qed.

Lemma read_frame_part :
  read_bytes buf (2 + length kb) (calc_len frame) = Some (u32 frame).
Proof.
  destruct (calc_len_spec frame) as [Hl _].
  pose proof (read_bytes_value ([hdr_byte0 csrc; b1] ++ kb) fb (ext_bytes csrc ++ suf)) as Hr.
  rewrite buf_parts. rewrite <-app_assoc in Hr.
  rewrite length_app, length_write_cases, write_cases_calc_len in Hr.
  apply Hr; [apply write_cases_bytes|lia].
Qed.

Lemma read_ext_part n :
  (length (hdr_bytes frame key csrc) < n)%nat →
  read_exts MAX_EXTS buf n (u32 frame) (u32 key) (2 + length kb + calc_len frame)
    (negb (Z.land (hdr_byte0 csrc) 0x10 =? 0)) 0
  = HdrOk (u32 frame) (u32 key) csrc (length (hdr_bytes frame key csrc)).
Proof.
  intros Hn. pose proof (length_hdr_bytes frame key csrc) as Hlen.
  pose proof (length_key_bytes key) as Hkb. pose proof (length_ext_bytes csrc) as Heb.
  replace (negb (Z.land (hdr_byte0 csrc) 0x10 =? 0)) with (negb (csrc =? 0))
    by (unfold hdr_byte0; by destruct (csrc =? 0)).
  unfold MAX_EXTS. rewrite (read_exts_csrc _ _ _ _ _ _ suf csrc); [f_equal; lia| | |done|lia].
  - replace (2 + length kb + calc_len frame)%nat
      with (length ([hdr_byte0 csrc; b1] ++ kb ++ fb))
      by (rewrite !length_app, length_write_cases; cbn; lia).
    replace buf with (([hdr_byte0 csrc; b1] ++ kb ++ fb) ++ ext_bytes csrc ++ suf)
      by (by rewrite buf_parts, <-!app_assoc).
    by rewrite take_app_length.
  - rewrite length_app. lia.
Qed.

(** The reader on a serialized header followed by at least one more byte. *)
Lemma read_hdr_bytes n :
  (length (hdr_bytes frame key csrc) < n)%nat →
  frame_hdr_read buf n 0
  = HdrOk (u32 frame) (u32 key) csrc (length (hdr_bytes frame key csrc)).
Proof.
  intros Hn. pose proof (length_hdr_bytes frame key csrc) as Hlen.
  pose proof (length_key_bytes key) as Hkb.
  destruct b1_fields as (Hb1f & Hb1x & Hb1k), (calc_len_spec key) as [Hkl _].
  assert (buf !! 0%nat = Some (hdr_byte0 csrc) ∧ buf !! 1%nat = Some b1) as [H0 H1]
    by by rewrite buf_parts.
  unfold frame_hdr_read. rewrite H0, H1, Hb1f, Hb1x, Hb1k. unfold FRAME_HDR_MINSZ.
  destruct (Z.ltb_spec 7 key) as [E|E]; cbn [Z.eqb].
  - rewrite decide_False by lia.
    replace (calc_len key - 1 + 1)%nat with (calc_len key) by lia.
    rewrite read_key_part, <-Hkb, decide_False by lia.
    by rewrite read_frame_part, read_ext_part.
  - pose proof read_frame_part as Hrf. pose proof (read_ext_part n Hn) as Hre.
    rewrite Hkb in *. cbn [Nat.add] in *. rewrite decide_False by lia. rewrite Hrf.
    rewrite Z2Nat.id by lia. rewrite (uwrap_small 32 key) in Hre |- * by lia. exact Hre.
Qed.
End ReadBack.

(** ** The guarantees *)

(** What the sender writes is what the receiver reads: for any 64-bit frame
    counter and key index and any 32-bit CSRC, reading the buffer that
    [frame_hdr_write] filled yields the low 32 bits of counter and key index,
    the CSRC and exactly the size the writer returned, whatever follows the
    header in the buffer. *)
Theorem frame_hdr_roundtrip buf bsz frame key csrc buf' h n :
  0 <= key < 2 ^ 64 → 0 <= csrc < 2 ^ 32 → (bsz ≤ length buf)%nat →
  frame_hdr_write buf bsz frame key csrc = Some (buf', h) → h ≠ 0%nat →
  (h < n)%nat →
  frame_hdr_read buf' n 0 = HdrOk (u32 frame) (u32 key) csrc h.
Proof.
  intros Hk Hc Hb Hw Hh Hn. rewrite write_hdr_bytes in Hw by lia.
  case_decide; simplify_eq. apply read_hdr_bytes; lia.
Qed.

Lemma frame_hdr_roundtrip_witness :
  frame_hdr_read
    ([0x10; 0x09; 0x01; 0x2c; 7; 0x31; 0xde; 0xad; 0xbe; 0xef] ++ replicate 10 0) 20 0
  = HdrOk 7 300 0xdeadbeef 10.
Proof.
  apply (frame_hdr_roundtrip (replicate 20 0) 20 7 300 0xdeadbeef);
    [lia|lia|vm_compute; lia|reflexivity|lia|lia].
Defined.

(** writing a header stays inside the buffer: the writer never stores
    outside the [bsz] bytes it was given, never touches a byte behind the
    header, needs at most 15 bytes (so that [frame_hdr_max_size] is always
    enough), and returns [0] only when the header does not fit. *)
Theorem frame_hdr_write_bounds buf bsz frame key csrc :
  0 <= key → (bsz ≤ length buf)%nat →
  ∃ buf' h, frame_hdr_write buf bsz frame key csrc = Some (buf', h) ∧
    length buf' = length buf ∧ (h ≤ bsz)%nat ∧ (h ≤ 15)%nat ∧
    drop h buf' = drop h buf ∧
    (h = 0%nat → (bsz < 15)%nat ∧ buf' = buf).
Proof.
  intros Hk Hb. rewrite write_hdr_bytes by done.
  pose proof (length_hdr_bytes frame key csrc) as Hlen.
  destruct (calc_len_spec frame) as [Hfl _], (calc_len_spec key) as [Hkl _].
  assert (2 < length (hdr_bytes frame key csrc) ≤ 15)%nat as Hl
    by (destruct (7 <? key), (csrc =? 0); lia).
  case_decide; do 2 eexists; (split; [done|]); split_and!; try (done || lia).
  all: rewrite ?drop_app_length, ?length_app, ?length_drop; try (intros ?; split);
    done || lia.
Qed.

Lemma frame_hdr_write_bounds_witness :
  ∃ buf' h, frame_hdr_write (replicate 15 0) 15 (2 ^ 32 - 1) (2 ^ 32 - 1) 1 = Some (buf', h) ∧
    (h ≤ 15)%nat.
Proof.
  destruct (frame_hdr_write_bounds (replicate 15 0) 15 (2 ^ 32 - 1) (2 ^ 32 - 1) 1)
    as (buf' & h & Hw & _ & H1 & _); [lia|vm_compute; lia|by exists buf', h].
Defined.

Lemma read_exts_safe n buf bsz f k p ext csrc :
  (p ≤ bsz)%nat → (bsz ≤ length buf)%nat →
  match read_exts n buf bsz f k p ext csrc with
  | HdrOk _ _ _ r => (p ≤ r ≤ bsz)%nat
  | HdrErr err => err = ERANGE
  | HdrOOB => False
  end.
Proof.
  intros Hp Hb. revert p ext csrc Hp. induction n as [|n IH]; intros p ext csrc Hp;
    cbn [read_exts]; [lia|].
  destruct ext; cbn [andb]; [|lia]. case_bool_decide; [|lia].
  destruct (lookup_lt_is_Some_2 buf p) as [b ->]; [lia|].
  set (elen := S _). case_decide; [lia|].
  assert (∀ ext csrc, match read_exts n buf bsz f k (p + elen + 1) ext csrc with
    | HdrOk _ _ _ r => (p ≤ r ≤ bsz)%nat | HdrErr err => err = ERANGE | HdrOOB => False end) as IH'.
  { intros e c. specialize (IH (p + elen + 1)%nat e c ltac:(lia)).
    destruct (read_exts n _ _ _ _ _ _ _); lia || done. }
  destruct (_ && _)%bool; [|apply IH'].
  case_decide; [done|].
  destruct (read_bytes_in_bounds buf (p + 1) 4) as [v ->]; [lia|]. apply IH'.
Qed.

(** parsing a header from the network is memory safe: on any buffer of at
    least two bytes the reader looks at nothing outside the [bsz] bytes it was
    given, whatever their contents, and the header it reports ends inside
    them. *)
Theorem frame_hdr_read_safe buf bsz csrc0 :
  (FRAME_HDR_MINSZ ≤ bsz ≤ length buf)%nat →
  match frame_hdr_read buf bsz csrc0 with
  | HdrOk _ _ _ rlen => (FRAME_HDR_MINSZ < rlen ≤ bsz)%nat
  | HdrErr err => err = ERANGE
  | HdrOOB => False
  end.
Proof.
  unfold FRAME_HDR_MINSZ. intros [H2 Hb].
  destruct (lookup_lt_is_Some_2 buf 0) as [b0 H0]; [lia|].
  destruct (lookup_lt_is_Some_2 buf 1) as [b1 H1]; [lia|].
  unfold frame_hdr_read. rewrite H0, H1.
  set (flen := S _). set (klen := Z.to_nat _). set (ext := negb _).
  assert (∀ key p, (2 ≤ p)%nat →
    match (if decide (bsz < p + flen)%nat then HdrErr ERANGE
           else match read_bytes buf p flen with
                | None => HdrOOB
                | Some frameid => read_exts MAX_EXTS buf bsz frameid key (p + flen) ext csrc0
                end) with
    | HdrOk _ _ _ rlen => (2 < rlen ≤ bsz)%nat
    | HdrErr err => err = ERANGE
    | HdrOOB => False
    end) as Hrest.
  { intros key p Hp. case_decide; [done|].
    destruct (read_bytes_in_bounds buf p flen) as [v ->]; [lia|].
    pose proof (read_exts_safe MAX_EXTS buf bsz v key (p + flen) ext csrc0) as Hs.
    destruct (read_exts _ _ _ _ _ _ _ _); unfold flen in *; lia || (apply Hs; lia). }
  clearbody ext. destruct (Z.land (Z.shiftr b1 3) 1 =? 0);
    [apply Hrest; unfold FRAME_HDR_MINSZ; lia|].
  case_decide as Hk; [done|]. unfold FRAME_HDR_MINSZ in *.
  destruct (read_bytes_in_bounds buf 2 (klen + 1)) as [v ->]; [lia|].
  apply Hrest. lia.
Qed.

Lemma frame_hdr_read_safe_witness :
  match frame_hdr_read [0xff; 0xff; 1; 2; 3] 5 0 with
  | HdrOk _ _ _ rlen => (FRAME_HDR_MINSZ < rlen ≤ 5)%nat
  | HdrErr err => err = ERANGE
  | HdrOOB => False
  end.
Proof. apply frame_hdr_read_safe. vm_compute. lia. Defined.
