(* ===== verification/Keystore.v ===== *)
(** * The key store of end-to-end encrypted media
    ([src/keystore/keystore.c], [src/keystore/hkdf.c])

    A [struct keystore] holds the session keys of a conference call, sorted by
    index, and a pointer to the one in use.  From each session key a media key
    is derived; with [hash_forward], the session key of the next index is
    derived from the last one, so that a member who knows key [n] can follow
    the sender to key [n + 1] without a message.  Keys older than the one
    before the current key are erased.

    - A [struct keyinfo] is allocated on the heap and linked into [keyl];
      [ki_addr] is its address and [ks_current] is a pointer.  Following a
      pointer that is [NULL] or whose object has been freed is undefined
      behaviour: the computation returns [None].
    - A buffer and its size are the list of its bytes.
    - [ks_tick] counts the calls to the environment (clock, allocator, HKDF):
      the answers of [KsEnv] depend on it, so that no two calls are assumed to
      agree, and a fresh address is the tick of its allocation.
    - Locks and listener callbacks are the events.
    - The object is passed by value, so the guards for a [NULL] object have no
      counterpart here; the callers of the frame encryptor and decryptor that
      may pass [NULL] have one. *)

From S2P Require Import Prelude LibRe.

Definition E2EE_SESSIONKEY_SIZE : nat := 32.
Definition NUM_KEYS : Z := 16.

Definition SKEY_INFO : list Z := bytes_of_string "session_key".
Definition MKEY_INFO : list Z := bytes_of_string "media_key".
Definition CS_INFO : list Z := bytes_of_string "cs".

(** ** The environment *)

Class KsEnv := {
  (** The [n]-th reading of the clock. *)
  tmr_jiffies : nat → Z;
  (** Does the [n]-th [mem_zalloc] succeed? *)
  mem_zalloc_ok : nat → bool;
  (** [HKDF] with SHA-512: its return value and the output buffer afterwards,
      given the buffer before, the secret, the salt and the info. *)
  HKDF : nat → list Z → list Z → list Z → list Z → Z * list Z;
}.

(** What [HKDF] promises in every case: it writes inside the buffer. *)
Class KsEnvLen (E : KsEnv) : Prop := {
  HKDF_length n out secret salt info :
    length (HKDF n out secret salt info).2 = length out;
}.

(** What it promises when the cryptographic library works: success, and an
    output that depends on the output length, the secret, the salt and the info
    only. *)
Class KsEnvOk (E : KsEnv) (kdf : nat → list Z → list Z → list Z → list Z) : Prop := {
  HKDF_ok n out secret salt info :
    HKDF n out secret salt info = (1, kdf (length out) secret salt info);
  kdf_length n secret salt info : length (kdf n secret salt info) = n;
  mem_ok n : mem_zalloc_ok n = true;
}.

(** ** [hkdf.c]: the build without WebRTC's own HKDF *)

(** The return values of the OpenSSL calls of one run, in order; the last one
    comes with the buffer it leaves. *)
Record kdf_calls := {
  kc_ctx_new : bool;
  kc_derive_init : Z;
  kc_set_md : Z;
  kc_set_salt : Z;
  kc_set_key : Z;
  kc_add_info : Z;
  kc_derive : Z;
  kc_out : list Z;
}.

(** [HKDF] of [hkdf.c]: the return value and the output buffer. *)
Definition HKDF_openssl (c : kdf_calls) (out_key : list Z) : Z * list Z :=
  if negb (kc_ctx_new c) then (ENOSYS, out_key)
  else if kc_derive_init c <=? 0 then (0, out_key)
  else if kc_set_md c <=? 0 then (0, out_key)
  else if kc_set_salt c <=? 0 then (0, out_key)
  else if kc_set_key c <=? 0 then (0, out_key)
  else if kc_add_info c <=? 0 then (0, out_key)
  else if kc_derive c <=? 0 then (0, kc_out c)
  else (1, kc_out c).

(** ** Data *)

(** [struct listener] *)
Record listener := { l_changedh : Z; l_arg : Z }.

(** [struct keyinfo] *)
Record keyinfo := {
  ki_addr : nat;
  ki_skey : list Z;
  ki_mkey : list Z;
  ki_index : Z;
  ki_update_ts : Z;
}.

(** [struct keystore] *)
Record keystore := {
  ks_keyl : list keyinfo;
  ks_current : option nat;
  ks_init : bool;
  ks_salt : option (list Z);
  ks_slen : nat;
  ks_hash_forward : bool;
  ks_has_keys : bool;
  ks_decrypt_successful : bool;
  ks_decrypt_attempted : bool;
  ks_err_reported : bool;
  ks_listeners : list listener;
  ks_update_ts : Z;
  ks_tick : nat;
}.

Inductive ks_event :=
| KsLockWrite
| KsLockRead
| KsLockRel
| KsChanged (l : listener).

Abbreviation KSM := (MU keystore ks_event).

(** ** Pointers *)

(** The live key at an address. *)
Definition key_at (a : nat) (l : list keyinfo) : option keyinfo :=
  List.find (λ k, (ki_addr k =? a)%nat) l.

(** [le.next->data] of the key at an address. *)
Fixpoint next_of (a : nat) (l : list keyinfo) : option keyinfo :=
  match l with
  | [] => None
  | k :: l => if (ki_addr k =? a)%nat then head l else next_of a l
  end.

Definition deref (a : nat) : KSM keyinfo :=
  ks ← uget; of_ptr (key_at a (ks_keyl ks)).

Definition deref_next (a : nat) : KSM (option keyinfo) :=
  _ ← deref a; ks ← uget; mret (next_of a (ks_keyl ks)).

(** Assignments to the fields of a key. *)
Definition store_key (k : keyinfo) : KSM () :=
  umodify (λ ks, {| ks with ks_keyl :=
    (λ k', if (ki_addr k' =? ki_addr k)%nat then k else k') <$> ks_keyl ks |}).

(** ** Small helpers *)

(** [is_empty]: the two overlapping ranges compared by [memcmp]. *)
Definition is_empty (buf : list Z) : bool :=
  match buf with
  | [] => true
  | b :: rest =>
    (b =? 0) && bool_decide (take (length buf - 1) buf = take (length buf - 1) rest)
  end.

(** A zeroed buffer of [n] bytes after [memcpy] of the first [sz] bytes of
    [src]. *)
Definition copy_into (n sz : nat) (src : list Z) : list Z :=
  take sz src ++ replicate (n - length (take sz src)) 0.

(** [keystore_get_latest] *)
Definition keystore_get_latest (ks : keystore) : option keyinfo := last (ks_keyl ks).

(** [sort_handler] *)
Definition sort_handler (ki1 ki2 : keyinfo) : bool := ki_index ki1 <=? ki_index ki2.

(** The [while] loop of [keystore_organise]: free the head while neither it
    nor its successor is the current key. *)
Fixpoint organise_loop (current : nat) (l : list keyinfo) : list keyinfo :=
  match l with
  | k1 :: ((k2 :: _) as l') =>
    if negb (ki_addr k1 =? current)%nat && negb (ki_addr k2 =? current)%nat
    then organise_loop current l' else l
  | _ => l
  end.

Section Ops.
Context `{LibRe, KsEnv}.

Definition next_tick : KSM nat :=
  ks ← uget;
  umodify (λ ks, {| ks with ks_tick := S (ks_tick ks) |});;
  mret (ks_tick ks).

Definition jiffies : KSM Z := n ← next_tick; mret (tmr_jiffies n).

(** [mem_zalloc] of a key: its address. *)
Definition zalloc : KSM (option nat) :=
  n ← next_tick; mret (if mem_zalloc_ok n then Some n else None).

(** [HKDF] with the salt of the store. *)
Definition hkdf (out secret info : list Z) : KSM (Z * list Z) :=
  n ← next_tick;
  ks ← uget;
  mret (HKDF n out secret (take (ks_slen ks) (default [] (ks_salt ks))) info).

Definition set_update_ts (ts : Z) : KSM () :=
  umodify (λ ks, {| ks with ks_update_ts := ts |}).

Definition set_current_ptr (a : nat) : KSM () :=
  umodify (λ ks, {| ks with ks_current := Some a |}).

(** The loop over the listeners. *)
Definition notify : KSM () := ks ← uget; uemit (KsChanged <$> ks_listeners ks).

(** A function body between [lock_..._get] and [lock_rel]. *)
Definition locked {A} (lock : ks_event) (body : KSM A) : KSM A :=
  uemit [lock];; r ← body; uemit [KsLockRel];; mret r.

(** [keystore_organise] *)
Definition keystore_organise : KSM Z :=
  umodify (λ ks, {| ks with ks_keyl := list_sort sort_handler (ks_keyl ks) |});;
  ks ← uget;
  match ks_current ks with
  | None => mret 0
  | Some c =>
    umodify (λ ks, {| ks with ks_keyl := organise_loop c (ks_keyl ks) |});;
    mret 0
  end.

(** [keystore_append_key] *)
Definition keystore_append_key (kinfo : keyinfo) : KSM Z :=
  umodify (λ ks, {| ks with ks_keyl := ks_keyl ks ++ [kinfo] |});;
  keystore_organise.

(** [keystore_derive_media_key]: the error code and the key with its [mkey]. *)
Definition keystore_derive_media_key (kinfo : keyinfo) : KSM (Z * keyinfo) :=
  '(s, mkey) ← hkdf (ki_mkey kinfo) (ki_skey kinfo) MKEY_INFO;
  mret (if s =? 0 then EINVAL else 0, {| kinfo with ki_mkey := mkey |}).

(** [keystore_derive_session_key]: the error code and [*pnext]. *)
Definition keystore_derive_session_key (prev : keyinfo) : KSM (Z * option keyinfo) :=
  a ← zalloc;
  match a with
  | None => mret (ENOMEM, None)
  | Some a =>
    '(s, skey) ← hkdf (replicate E2EE_SESSIONKEY_SIZE 0) (ki_skey prev) SKEY_INFO;
    ts ← jiffies;
    set_update_ts ts;;
    mret (if s =? 0 then EINVAL else 0,
          Some {| ki_addr := a; ki_skey := skey;
                  ki_mkey := replicate E2EE_SESSIONKEY_SIZE 0;
                  ki_index := u32 (ki_index prev + 1); ki_update_ts := ts |})
  end.

(** The [while] loop of [keystore_hash_to_key]; [kinfo] is a pointer. *)
Fixpoint hash_to_key_loop (fuel : nat) (kinfo : nat) (index : Z) : KSM Z :=
  k ← deref kinfo;
  if ki_index k <? index then
    match fuel with
    | O => undef
    | S fuel =>
      '(err, knext) ← keystore_derive_session_key k;
      if negb (err =? 0) then mret err
      else
        match knext with
        | None => mret ENOMEM
        | Some knext =>
          '(err, knext) ← keystore_derive_media_key knext;
          if negb (err =? 0) then mret err
          else
            err ← keystore_append_key knext;
            if negb (err =? 0) then mret err
            else hash_to_key_loop fuel (ki_addr knext) index
        end
    end
  else mret 0.

(** [keystore_hash_to_key]: one round for every index to go. *)
Definition keystore_hash_to_key (index : Z) : KSM Z :=
  ks ← uget;
  match keystore_get_latest ks with
  | None => mret ENOENT
  | Some kinfo =>
    hash_to_key_loop (Z.to_nat (index - ki_index kinfo)) (ki_addr kinfo) index
  end.

(** ** The operations *)

(** [keystore_alloc]; [lock_err] is the outcome of [lock_alloc]. *)
Definition keystore_alloc (n : nat) (lock_err : Z) (hash_forward : bool)
    : Z * option keystore :=
  if negb (mem_zalloc_ok n) then (ENOMEM, None)
  else if negb (lock_err =? 0) then (lock_err, None)
  else (0, Some {|
    ks_keyl := []; ks_current := None; ks_init := false; ks_salt := None;
    ks_slen := 0; ks_hash_forward := hash_forward; ks_has_keys := false;
    ks_decrypt_successful := false; ks_decrypt_attempted := false;
    ks_err_reported := false; ks_listeners := [];
    ks_update_ts := tmr_jiffies (S n); ks_tick := S (S n) |}).

(** [keystore_reset_keys] *)
Definition keystore_reset_keys : KSM Z :=
  locked KsLockWrite (
    umodify (λ ks, {| ks with
      ks_keyl := []; ks_current := None; ks_init := false; ks_has_keys := false;
      ks_decrypt_attempted := false; ks_decrypt_successful := false;
      ks_err_reported := false |});;
    mret 0).

(** [keystore_reset] *)
Definition keystore_reset : KSM Z :=
  locked KsLockWrite (
    umodify (λ ks, {| ks with
      ks_keyl := []; ks_current := None; ks_init := false; ks_slen := 0%nat;
      ks_salt := None; ks_has_keys := false; ks_decrypt_attempted := false;
      ks_decrypt_successful := false |});;
    mret 0).

(** [keystore_set_salt] *)
Definition keystore_set_salt (salt : option (list Z)) : KSM Z :=
  match salt with
  | None => mret EINVAL
  | Some salt =>
    tsalt ← zalloc;
    match tsalt with
    | None => mret ENOMEM
    | Some _ =>
      locked KsLockWrite (
        umodify (λ ks, {| ks with ks_salt := Some salt; ks_slen := length salt |});;
        ts ← jiffies;
        set_update_ts ts;;
        mret 0)
    end
  end.

(** Is [index] below the index of the current key?  ([ks->current && ...]) *)
Definition below_current (index : Z) : KSM bool :=
  ks ← uget;
  match ks_current ks with
  | None => mret false
  | Some c => k ← deref c; mret (index <? ki_index k)
  end.

(** [keystore_set_session_key]: a key with this index is present, *)
Definition set_existing_key (kinfo : keyinfo) (key : list Z) (sz : nat) : KSM Z :=
  if bool_decide (take sz (ki_skey kinfo) = take sz key) then mret EALREADY
  else
    let kinfo := {| kinfo with ki_skey := copy_into E2EE_SESSIONKEY_SIZE sz key |} in
    store_key kinfo;;
    ts ← jiffies;
    set_update_ts ts;;
    '(err, kinfo) ← keystore_derive_media_key kinfo;
    store_key kinfo;;
    mret err.

(** or the key is new, *)
Definition set_new_key (index : Z) (key : list Z) (sz : nat) : KSM Z :=
  a ← zalloc;
  match a with
  | None => mret ENOMEM
  | Some a =>
    ts ← jiffies;
    let kinfo := {| ki_addr := a; ki_skey := copy_into E2EE_SESSIONKEY_SIZE sz key;
                    ki_mkey := replicate E2EE_SESSIONKEY_SIZE 0;
                    ki_index := index; ki_update_ts := ts |} in
    set_update_ts ts;;
    '(err, kinfo) ← keystore_derive_media_key kinfo;
    if negb (err =? 0) then mret err
    else
      err ← keystore_append_key kinfo;
      if negb (err =? 0) then mret err
      else
        umodify (λ ks, {| ks with ks_has_keys := true |});;
        ks ← uget;
        if ks_init ks then mret 0
        else
          set_current_ptr a;;
          err ← keystore_organise;
          if negb (err =? 0) then mret err
          else
            umodify (λ ks, {| ks with ks_init := true |});;
            notify;;
            mret 0
  end.

(** and the whole function. *)
Definition keystore_set_session_key (index : Z) (key : list Z) : KSM Z :=
  if (length key =? 0)%nat then mret EINVAL
  else
    let sz := (length key `min` E2EE_SESSIONKEY_SIZE)%nat in
    locked KsLockWrite (
      old ← below_current index;
      if (old : bool) then mret EALREADY
      else
        ks ← uget;
        match List.find (λ k, index =? ki_index k) (ks_keyl ks) with
        | Some kinfo => set_existing_key kinfo key sz
        | None => set_new_key index key sz
        end).

(** [keystore_set_fresh_session_key]; [hashed_key] is the buffer on the
    stack, with whatever it holds before the call. *)
Definition keystore_set_fresh_session_key (hashed_key : list Z) (index : Z)
    (key salt : list Z) : KSM Z :=
  n ← next_tick;
  let '(s, hashed_key) := HKDF n hashed_key key salt CS_INFO in
  if negb (s =? 0) then keystore_set_session_key index hashed_key
  else mret EINVAL.

(** What a getter leaves behind: the return value, [*pindex] if it was
    assigned, the buffer [pkey]. *)
Definition key_reply : Type := Z * option Z * list Z.

(** [keystore_get_current_session_key] *)
Definition keystore_get_current_session_key (ksz : nat) : KSM key_reply :=
  let sz := (ksz `min` E2EE_SESSIONKEY_SIZE)%nat in
  locked KsLockRead (
    ks ← uget;
    match ks_current ks with
    | Some c =>
      k ← deref c; mret (0, Some (ki_index k), copy_into ksz sz (ki_skey k))
    | None => mret (ENOENT, None, replicate ksz 0)
    end).

(** [keystore_get_next_session_key] *)
Definition keystore_get_next_session_key (ksz : nat) : KSM key_reply :=
  let sz := (ksz `min` E2EE_SESSIONKEY_SIZE)%nat in
  locked KsLockRead (
    ks ← uget;
    match ks_current ks with
    | None => mret (ENOENT, None, replicate ksz 0)
    | Some c =>
      next ← deref_next c;
      match next with
      | None => mret (ENOENT, None, replicate ksz 0)
      | Some k => mret (0, Some (ki_index k), copy_into ksz sz (ki_skey k))
      end
    end).

(** [ks->current = ks->current->le.next->data] and what follows it in
    [keystore_rotate]. *)
Definition rotate_to_next (c : nat) : KSM Z :=
  next ← deref_next c;
  k ← of_ptr next;
  set_current_ptr (ki_addr k);;
  err ← keystore_organise;
  if negb (err =? 0) then mret err else notify;; mret 0.

(** [keystore_rotate] *)
Definition keystore_rotate : KSM Z :=
  locked KsLockWrite (
    ks ← uget;
    match ks_current ks with
    | None => mret ENOENT
    | Some c =>
      next ← deref_next c;
      match next with
      | Some _ => rotate_to_next c
      | None =>
        if ks_hash_forward ks then
          k ← deref c;
          err ← keystore_hash_to_key (u32 (ki_index k + 1));
          if negb (err =? 0) then mret err else rotate_to_next c
        else mret ENOENT
      end
    end).

(** [keystore_get_current]: the return value, [*pindex] and [*updated_ts]. *)
Definition keystore_get_current : KSM (Z * option (Z * Z)) :=
  ks ← uget;
  match ks_current ks with
  | Some c => k ← deref c; mret (0, Some (ki_index k, ks_update_ts ks))
  | None => mret (ENOENT, None)
  end.

(** [keystore_set_current] *)
Definition keystore_set_current (index : Z) : KSM Z :=
  locked KsLockWrite (
    ks ← uget;
    match List.find (λ k, ki_index k =? index) (ks_keyl ks) with
    | None => mret ENOENT
    | Some kinfo =>
      set_current_ptr (ki_addr kinfo);;
      err ← keystore_organise;
      if negb (err =? 0) then mret err else notify;; mret 0
    end).

(** Is the index of a key above that of the current key?
    ([!ks->current || ...]) *)
Definition above_current (index : Z) : KSM bool :=
  ks ← uget;
  match ks_current ks with
  | None => mret true
  | Some c => k ← deref c; mret (ki_index k <? index)
  end.

(** [keystore_get_media_key]: the part that hashes forward from the last key
    of the list, *)
Definition hash_forward_key (kinfo : keyinfo) (index : Z) (ksz sz : nat)
    : KSM (Z * list Z) :=
  if (ki_index kinfo <? index) && (index <? u32 (ki_index kinfo + NUM_KEYS)) then
    err ← keystore_hash_to_key index;
    if negb (err =? 0) then mret (ENOENT, replicate ksz 0)
    else
      ks ← uget;
      match keystore_get_latest ks with
      | None => mret (ENOENT, replicate ksz 0)
      | Some kinfo =>
        c ← of_ptr (ks_current ks);
        kc ← deref c;
        if ki_index kc <? ki_index kinfo then
          set_current_ptr (ki_addr kinfo);;
          err ← keystore_organise;
          mret (err, copy_into ksz sz (ki_mkey kinfo))
        else mret (0, copy_into ksz sz (ki_mkey kinfo))
      end
  else mret (ENOENT, replicate ksz 0).

(** and the whole function: the return value and the buffer [pkey]. *)
Definition keystore_get_media_key (index : Z) (ksz : nat) : KSM (Z * list Z) :=
  let sz := (ksz `min` E2EE_SESSIONKEY_SIZE)%nat in
  locked KsLockRead (
    ks ← uget;
    match List.find (λ k, ki_index k =? index) (ks_keyl ks) with
    | Some kinfo =>
      up ← above_current index;
      if (up : bool) then
        set_current_ptr (ki_addr kinfo);;
        err ← keystore_organise;
        mret (err, copy_into ksz sz (ki_mkey kinfo))
      else mret (0, copy_into ksz sz (ki_mkey kinfo))
    | None =>
      if ks_hash_forward ks then
        match last (ks_keyl ks) with
        | None =>
          umodify (λ ks, {| ks with ks_err_reported := true |});;
          mret (ENOENT, replicate ksz 0)
        | Some kinfo =>
          umodify (λ ks, {| ks with ks_err_reported := false |});;
          hash_forward_key kinfo index ksz sz
        end
      else mret (ENOENT, replicate ksz 0)
    end).

(** [keystore_get_max_key] *)
Definition keystore_get_max_key : KSM Z :=
  ks ← uget;
  mret (match keystore_get_latest ks with None => 0 | Some k => ki_index k end).

(** [keystore_generate_iv]: the return value and the buffer [iv]. *)
Definition keystore_generate_iv (clientid stream_name : string) (ivsz : nat)
    : KSM (Z * list Z) :=
  n ← next_tick;
  let '(s, iv) := HKDF n (replicate ivsz 0) (bytes_of_string clientid)
                       (bytes_of_string stream_name) [] in
  mret (if s =? 0 then EINVAL else 0, iv).

(** [keystore_set_decrypt_attempted] *)
Definition keystore_set_decrypt_attempted : KSM Z :=
  locked KsLockWrite (
    umodify (λ ks, {| ks with ks_decrypt_attempted := true |});; mret 0).

(** [keystore_set_decrypt_successful] *)
Definition keystore_set_decrypt_successful : KSM Z :=
  locked KsLockWrite (
    umodify (λ ks, {| ks with ks_decrypt_successful := true |});; mret 0).

(** [keystore_has_keys] *)
Definition keystore_has_keys : KSM bool :=
  locked KsLockWrite (ks ← uget; mret (ks_has_keys ks)).

(** [keystore_get_decrypt_states] *)
Definition keystore_get_decrypt_states : KSM (bool * bool) :=
  locked KsLockWrite (
    ks ← uget; mret (ks_decrypt_attempted ks, ks_decrypt_successful ks)).

(** [keystore_add_listener]; [None] is a [NULL] handler. *)
Definition keystore_add_listener (changedh : option Z) (arg : Z) : KSM Z :=
  match changedh with
  | None => mret EINVAL
  | Some changedh =>
    a ← zalloc;
    match a with
    | None => mret ENOMEM
    | Some _ =>
      locked KsLockWrite (
        umodify (λ ks, {| ks with ks_listeners :=
          ks_listeners ks ++ [{| l_changedh := changedh; l_arg := arg |}] |});;
        mret 0)
    end
  end.

(** The loop of [keystore_remove_listener]: the first listener with this
    argument is unlinked. *)
Fixpoint unlink_listener (arg : Z) (l : list listener) : list listener :=
  match l with
  | [] => []
  | x :: l => if l_arg x =? arg then l else x :: unlink_listener arg l
  end.

(** [keystore_remove_listener] *)
Definition keystore_remove_listener (arg : Z) : KSM Z :=
  locked KsLockWrite (
    umodify (λ ks, {| ks with ks_listeners := unlink_listener arg (ks_listeners ks) |});;
    mret 0).

(** The part of the list that starts at an address. *)
Fixpoint from_addr (a : nat) (l : list keyinfo) : list keyinfo :=
  match l with
  | [] => []
  | k :: l' => if (ki_addr k =? a)%nat then l else from_addr a l'
  end.

(** The loop of [keystore_rotate_by_time]: the last key that is old enough. *)
Definition latest_until (min_ts : Z) (l : list keyinfo) : option keyinfo :=
  foldl (λ latest k, if ki_update_ts k <=? min_ts then Some k else latest) None l.

(** [keystore_rotate_by_time] *)
Definition keystore_rotate_by_time (min_ts : Z) : KSM bool :=
  '(err, latest) ← locked KsLockWrite (
    ks ← uget;
    l ← (match ks_current ks with
         | Some c => _ ← deref c; mret (from_addr c (ks_keyl ks))
         | None => mret (ks_keyl ks)
         end : KSM (list keyinfo));
    match latest_until min_ts l with
    | None => mret (0, None)
    | Some k =>
      if bool_decide (ks_current ks = Some (ki_addr k)) then mret (0, Some k)
      else
        set_current_ptr (ki_addr k);;
        err ← keystore_organise;
        if negb (err =? 0) then mret (err, Some k)
        else notify;; mret (0, Some k)
    end);
  if negb (err =? 0) then mret true
  else
    match latest with
    | None => mret true
    | Some k => next ← deref_next (ki_addr k); mret (bool_decide (is_Some next))
    end.
End Ops.
