(* ===== verification/KeystoreSpec.v ===== *)
(** * Correctness of the key store

    The invariant of the store and that every operation preserves it without
    touching freed memory, the lock discipline, the derivation of keys, and
    the erasure of old keys. *)

From S2P Require Import Prelude LibRe Keystore.

#[global] Instance keyinfo_eq_dec : EqDecision keyinfo.
Proof. solve_decision. Defined.

(** ** The operations as one type *)

Inductive ks_op :=
| OpReset
| OpResetKeys
| OpSetSalt (salt : option (list Z))
| OpSetSessionKey (index : Z) (key : list Z)
| OpSetFresh (stack : list Z) (index : Z) (key salt : list Z)
| OpGetCurrentSessionKey (ksz : nat)
| OpGetNextSessionKey (ksz : nat)
| OpRotate
| OpGetCurrent
| OpSetCurrent (index : Z)
| OpGetMediaKey (index : Z) (ksz : nat)
| OpGetMaxKey
| OpGenerateIv (clientid stream_name : string) (ivsz : nat)
| OpSetDecryptAttempted
| OpSetDecryptSuccessful
| OpHasKeys
| OpGetDecryptStates
| OpAddListener (changedh : option Z) (arg : Z)
| OpRemoveListener (arg : Z)
| OpRotateByTime (min_ts : Z).

Definition ks_exec `{LibRe, KsEnv} (op : ks_op) : KSM () :=
  match op with
  | OpReset => udone keystore_reset
  | OpResetKeys => udone keystore_reset_keys
  | OpSetSalt salt => udone (keystore_set_salt salt)
  | OpSetSessionKey index key => udone (keystore_set_session_key index key)
  | OpSetFresh stack index key salt =>
    udone (keystore_set_fresh_session_key stack index key salt)
  | OpGetCurrentSessionKey ksz => udone (keystore_get_current_session_key ksz)
  | OpGetNextSessionKey ksz => udone (keystore_get_next_session_key ksz)
  | OpRotate => udone keystore_rotate
  | OpGetCurrent => udone keystore_get_current
  | OpSetCurrent index => udone (keystore_set_current index)
  | OpGetMediaKey index ksz => udone (keystore_get_media_key index ksz)
  | OpGetMaxKey => udone keystore_get_max_key
  | OpGenerateIv clientid stream_name ivsz =>
    udone (keystore_generate_iv clientid stream_name ivsz)
  | OpSetDecryptAttempted => udone keystore_set_decrypt_attempted
  | OpSetDecryptSuccessful => udone keystore_set_decrypt_successful
  | OpHasKeys => udone keystore_has_keys
  | OpGetDecryptStates => udone keystore_get_decrypt_states
  | OpAddListener changedh arg => udone (keystore_add_listener changedh arg)
  | OpRemoveListener arg => udone (keystore_remove_listener arg)
  | OpRotateByTime min_ts => udone (keystore_rotate_by_time min_ts)
  end.

(** The arguments have their C types, and the stack buffer its size. *)
Definition op_valid (op : ks_op) : Prop :=
  match op with
  | OpSetSessionKey index _ => 0 <= index < 2 ^ 32
  | OpSetFresh stack index _ _ =>
    0 <= index < 2 ^ 32 ∧ length stack = E2EE_SESSIONKEY_SIZE
  | OpSetCurrent index | OpGetMediaKey index _ => 0 <= index < 2 ^ 32
  | _ => True
  end.

(** ** The invariant *)

Definition key_lt (k k' : keyinfo) : Prop := ki_index k < ki_index k'.
Definition keys_sorted : list keyinfo → Prop := StronglySorted key_lt.

Definition key_ok (tick : nat) (k : keyinfo) : Prop :=
  (ki_addr k < tick)%nat ∧ 0 <= ki_index k < 2 ^ 32 ∧
  length (ki_skey k) = E2EE_SESSIONKEY_SIZE ∧
  length (ki_mkey k) = E2EE_SESSIONKEY_SIZE.

Record keyl_ok (tick : nat) (l : list keyinfo) : Prop := {
  ko_sorted : keys_sorted l;
  ko_addrs : NoDup (ki_addr <$> l);
  ko_keys : Forall (key_ok tick) l;
}.

(** The current key is one of the two first keys: at most one older key is
    kept. *)
Definition current_ok (c : option nat) (l : list keyinfo) : Prop :=
  match c with
  | None => l = []
  | Some a => ∃ pre k post, l = pre ++ k :: post ∧ ki_addr k = a ∧ (length pre ≤ 1)%nat
  end.

Record ks_ok (ks : keystore) : Prop := {
  ok_keyl : keyl_ok (ks_tick ks) (ks_keyl ks);
  ok_current : current_ok (ks_current ks) (ks_keyl ks);
  ok_init : ks_init ks = bool_decide (is_Some (ks_current ks));
  ok_has_keys : ks_has_keys ks = ks_init ks;
  ok_salt : ks_slen ks = length (default [] (ks_salt ks));
}.

(** ** Lists of keys *)

Section KeyLists.

Lemma key_lt_trans k1 k2 k3 : key_lt k1 k2 → key_lt k2 k3 → key_lt k1 k3.
Proof. unfold key_lt. lia. Qed.

Lemma keys_sorted_app l1 l2 :
  keys_sorted (l1 ++ l2) ↔
  keys_sorted l1 ∧ keys_sorted l2 ∧ ∀ k1 k2, k1 ∈ l1 → k2 ∈ l2 → key_lt k1 k2.
Proof.
  unfold keys_sorted. rewrite StronglySorted_app. tauto.
Qed.

Lemma keys_sorted_handler l :
  keys_sorted l → StronglySorted (λ x y, sort_handler x y = true) l.
Proof.
  induction 1 as [|x l Hl IH Hx]; constructor; [done|].
  eapply Forall_impl; [exact Hx|]. unfold sort_handler, key_lt. intros y. lia.
Qed.

(** Two keys of a sorted list with the same index are the same. *)
Lemma keys_sorted_inj l k k' :
  keys_sorted l → k ∈ l → k' ∈ l → ki_index k = ki_index k' → k = k'.
Proof.
  induction 1 as [|x l Hl IH Hx]; [set_solver|].
  rewrite Forall_forall in Hx. unfold key_lt in Hx.
  intros [->|Hk]%elem_of_cons [->|Hk']%elem_of_cons He; [done| | |auto].
  - specialize (Hx _ Hk'). lia.
  - specialize (Hx _ Hk). lia.
Qed.

Lemma find_index_Some l k :
  keys_sorted l → k ∈ l → List.find (λ k', ki_index k' =? ki_index k) l = Some k.
Proof.
  intros Hs Hk. destruct (List.find _ l) as [k'|] eqn:Hf.
  - apply find_Some_split in Hf as [He Hk']. apply Z.eqb_eq in He.
    f_equal. by eapply keys_sorted_inj.
  - pose proof (find_None_all _ _ Hf k Hk) as Hn. cbn in Hn.
    by rewrite Z.eqb_refl in Hn.
Qed.

(** The place of a new key. *)
Lemma keys_insert l k :
  keys_sorted l → (∀ k', k' ∈ l → ki_index k' ≠ ki_index k) →
  ∃ l1 l2, l = l1 ++ l2 ∧ keys_sorted (l1 ++ k :: l2).
Proof.
  induction 1 as [|x l Hl IH Hx]; intros Hne.
  { exists [], []. split; [done|]. repeat constructor. }
  destruct (decide (ki_index x < ki_index k)) as [Hlt|Hge].
  - destruct IH as (l1 & l2 & -> & Hs); [set_solver|].
    exists (x :: l1), l2. split; [done|].
    change (keys_sorted (x :: (l1 ++ k :: l2))). constructor; [done|].
    rewrite Forall_app in Hx |- *. rewrite Forall_cons. by destruct Hx.
  - exists [], (x :: l). split; [done|]. cbn. constructor; [by constructor|].
    assert (key_lt k x).
    { unfold key_lt. specialize (Hne x ltac:(set_solver)). lia. }
    constructor; [done|]. eapply Forall_impl; [exact Hx|].
    intros y. by apply key_lt_trans.
Qed.

Lemma keys_insert_above pre kc post1 k post2 :
  keys_sorted (pre ++ kc :: post1 ++ post2) → keys_sorted (post1 ++ k :: post2) →
  key_lt kc k → keys_sorted (pre ++ kc :: post1 ++ k :: post2).
Proof.
  intros Hs Hins Hlt. apply keys_sorted_app in Hs as (Hs1 & Hs2 & Hs12).
  apply StronglySorted_inv in Hs2 as [_ Hkc]. rewrite Forall_app in Hkc.
  apply keys_sorted_app. split_and!; [done| |].
  - constructor; [done|]. apply Forall_app. rewrite Forall_cons. by destruct Hkc.
  - intros x y Hx Hy. destruct (decide (y = k)) as [->|Hyk].
    + eapply key_lt_trans; [|exact Hlt]. apply Hs12; [done|by left].
    + apply Hs12; [done|]. rewrite !elem_of_cons, !elem_of_app, ?elem_of_cons in *.
      naive_solver.
Qed.

(** The addresses of a list tell its keys apart. *)
Lemma addrs_cons x l :
  NoDup (ki_addr <$> x :: l) →
  NoDup (ki_addr <$> l) ∧ ∀ k, k ∈ l → (ki_addr x =? ki_addr k)%nat = false.
Proof.
  rewrite fmap_cons. intros [Hx Hnd]%NoDup_cons. split; [done|].
  intros k Hk. apply Nat.eqb_neq. intros He. apply Hx. rewrite He.
  by apply list_elem_of_fmap_2.
Qed.

Lemma key_at_elem l k : NoDup (ki_addr <$> l) → k ∈ l → key_at (ki_addr k) l = Some k.
Proof.
  unfold key_at. induction l as [|x l IH]; [set_solver|].
  intros [Hnd Hx]%addrs_cons [->|Hk]%elem_of_cons; cbn.
  - by rewrite Nat.eqb_refl.
  - rewrite Hx by done. auto.
Qed.

Lemma next_of_mid pre k post :
  NoDup (ki_addr <$> (pre ++ k :: post)) →
  next_of (ki_addr k) (pre ++ k :: post) = head post.
Proof.
  induction pre as [|x pre IH]; cbn [app next_of]; [by rewrite Nat.eqb_refl|].
  intros [Hnd Hx]%addrs_cons. rewrite Hx by set_solver. auto.
Qed.

Lemma from_addr_mid pre k post :
  NoDup (ki_addr <$> (pre ++ k :: post)) →
  from_addr (ki_addr k) (pre ++ k :: post) = k :: post.
Proof.
  induction pre as [|x pre IH]; cbn [app from_addr]; [by rewrite Nat.eqb_refl|].
  intros [Hnd Hx]%addrs_cons. rewrite Hx by set_solver. auto.
Qed.

(** What [keystore_organise] keeps of the keys before the current one. *)
Definition keep_last (pre : list keyinfo) : list keyinfo := drop (length pre - 1) pre.

Lemma keep_last_short pre : (length pre ≤ 1)%nat → keep_last pre = pre.
Proof. intros H. unfold keep_last. by replace (length pre - 1)%nat with 0%nat by lia. Qed.

Lemma keep_last_length pre : (length (keep_last pre) ≤ 1)%nat.
Proof. unfold keep_last. rewrite length_drop. lia. Qed.

Lemma keep_last_suffix pre : ∃ gone, pre = gone ++ keep_last pre.
Proof. exists (take (length pre - 1) pre). by rewrite <-(take_drop (length pre - 1) pre) at 1. Qed.

Lemma organise_loop_cons c k1 k2 l :
  organise_loop c (k1 :: k2 :: l) =
  if negb (ki_addr k1 =? c)%nat && negb (ki_addr k2 =? c)%nat
  then organise_loop c (k2 :: l) else k1 :: k2 :: l.
Proof. done. Qed.

Lemma organise_loop_mid pre k post :
  NoDup (ki_addr <$> (pre ++ k :: post)) →
  organise_loop (ki_addr k) (pre ++ k :: post) = keep_last pre ++ k :: post.
Proof.
  induction pre as [|x [|y pre] IH]; intros Hnd.
  - cbn. destruct post; [done|]. by rewrite Nat.eqb_refl.
  - cbn. rewrite Nat.eqb_refl. by rewrite andb_false_r.
  - cbn [app] in Hnd. apply addrs_cons in Hnd as [Hnd Hx].
    pose proof (proj2 (addrs_cons _ _ Hnd)) as Hy.
    cbn [app]. rewrite organise_loop_cons, Hx, Hy by set_solver. cbn [negb andb].
    change (y :: pre ++ k :: post) with ((y :: pre) ++ k :: post).
    rewrite IH by done. unfold keep_last. cbn [length].
    by replace (S (S (length pre)) - 1)%nat with (S (S (length pre) - 1)) by lia.
Qed.
End KeyLists.

Lemma keyl_ok_elem tick l k : keyl_ok tick l → k ∈ l → key_ok tick k.
Proof. intros [_ _ H] Hk. by rewrite Forall_forall in H; apply H. Qed.

Lemma keyl_ok_tick tick tick' l : (tick ≤ tick')%nat → keyl_ok tick l → keyl_ok tick' l.
Proof.
  intros Hle [Hs Ha Hk]. split; [done..|].
  eapply Forall_impl; [exact Hk|]. unfold key_ok. intros k. intuition lia.
Qed.

(** Freeing keys at the head. *)
Lemma keyl_ok_suffix tick l1 l2 : keyl_ok tick (l1 ++ l2) → keyl_ok tick l2.
Proof.
  intros [Hs Ha Hk]. rewrite fmap_app in Ha. apply NoDup_app in Ha as (_ & _ & Ha).
  apply Forall_app in Hk as [_ Hk]. apply keys_sorted_app in Hs as (_ & Hs & _).
  by split.
Qed.

Lemma keyl_ok_organise tick pre k post :
  keyl_ok tick (pre ++ k :: post) → keyl_ok tick (keep_last pre ++ k :: post).
Proof.
  destruct (keep_last_suffix pre) as [gone He]. rewrite He at 1.
  rewrite <-app_assoc.
  apply keyl_ok_suffix.
Qed.

(** A key with a fresh address and a new index, put at its place. *)
Lemma keyl_ok_insert tick l1 k l2 :
  keyl_ok tick (l1 ++ l2) → keys_sorted (l1 ++ k :: l2) →
  (tick ≤ ki_addr k)%nat → key_ok (S (ki_addr k)) k →
  keyl_ok (S (ki_addr k)) (l1 ++ k :: l2).
Proof.
  intros [Hs Ha Hk] Hs' Hfresh Hok.
  assert (Forall (key_ok (S (ki_addr k))) (k :: l1 ++ l2)) as Hall.
  { constructor; [done|]. eapply Forall_impl; [exact Hk|].
    unfold key_ok. intros x. intuition lia. }
  assert (l1 ++ k :: l2 ≡ₚ k :: l1 ++ l2) as Hp by (symmetry; apply Permutation_middle).
  split; [done| |by rewrite Hp].
  rewrite Hp, fmap_cons. apply NoDup_cons. split; [|done].
  intros (x & He & Hx)%list_elem_of_fmap.
  rewrite Forall_forall in Hk. specialize (Hk x Hx). unfold key_ok in Hk. lia.
Qed.

(** ** Equations of the internal functions *)

(** Acquire, work, release. *)
Definition lock_trace (e : list ks_event) : Prop :=
  e = [] ∨ ∃ lock ls, (lock = KsLockWrite ∨ lock = KsLockRead) ∧
    e = lock :: (KsChanged <$> ls) ++ [KsLockRel].

(** The fields that only [keystore_alloc], [keystore_reset] and
    [keystore_set_salt] write. *)
Definition same_setup (s s' : keystore) : Prop :=
  ks_salt s' = ks_salt s ∧ ks_slen s' = ks_slen s ∧
  ks_hash_forward s' = ks_hash_forward s.

Section Internal.
Context `{LibReSpec, !KsEnv, HLen : !KsEnvLen _}.

Lemma wp_locked {A} lock (body : KSM A) Q s :
  wp body (λ r s' e, Q r s' (lock :: e ++ [KsLockRel])) s → wp (locked lock body) Q s.
Proof.
  intros Hb. unfold locked. wp_steps. eapply wp_mono; [exact Hb|].
  intros r s' e HQ. wp_steps. exact HQ.
Qed.

Lemma list_sort_keys l l' : l ≡ₚ l' → keys_sorted l' → list_sort sort_handler l = l'.
Proof.
  intros Hp Hs. assert (list_sort sort_handler l ≡ₚ l') as Hp'.
  { rewrite list_sort_perm. done. }
  apply (StronglySorted_unique_strong (λ x y, sort_handler x y = true)); [| | |done].
  - unfold sort_handler. intros x y Hx Hy Hxy Hyx. rewrite Hp' in Hx.
    eapply keys_sorted_inj; [done..|]. lia.
  - apply list_sort_sorted; unfold sort_handler; intros; lia.
  - by apply keys_sorted_handler.
Qed.

(** [keystore_organise] after [ks->current = k]. *)
Lemma organise_current s pre k post Q :
  ks_keyl s ≡ₚ pre ++ k :: post → keys_sorted (pre ++ k :: post) →
  NoDup (ki_addr <$> (pre ++ k :: post)) → ks_current s = Some (ki_addr k) →
  Q 0 {| s with ks_keyl := keep_last pre ++ k :: post |} [] →
  wp keystore_organise Q s.
Proof.
  intros Hp Hs Hnd Hc HQ. rewrite Hc in HQ.
  unfold keystore_organise. wp_steps. cbn [ks_current]. rewrite Hc. wp_steps. cbn [ks_keyl].
  rewrite (list_sort_keys _ _ Hp Hs), organise_loop_mid by done. exact HQ.
Qed.

(** Moving the current key. *)
Lemma wp_make_current s pre k post Q :
  ks_ok s → ks_keyl s = pre ++ k :: post →
  (ks_ok {| s with ks_current := Some (ki_addr k);
                   ks_keyl := keep_last pre ++ k :: post |} →
   Q 0 {| s with ks_current := Some (ki_addr k);
                 ks_keyl := keep_last pre ++ k :: post |} []) →
  wp keystore_organise Q {| s with ks_current := Some (ki_addr k) |}.
Proof.
  intros [Hl Hc Hi Hh Hsalt] He HQ. rewrite He in Hl. pose proof Hl as [Hs Ha Hk].
  apply (organise_current _ pre k post); cbn; [by rewrite He|done..|].
  apply HQ. split; cbn; [by apply keyl_ok_organise| |  |done..].
  - exists (keep_last pre), k, post. auto using keep_last_length.
  - rewrite Hi. unfold current_ok in Hc. destruct (ks_current s); [done|].
    rewrite Hc in He. by destruct pre.
Qed.

(** A new key above the current one. *)
Lemma wp_append_above s pre kc post1 post2 k Q :
  ks_keyl s = pre ++ kc :: post1 ++ post2 → ks_current s = Some (ki_addr kc) →
  (length pre ≤ 1)%nat → keyl_ok (ks_tick s) (pre ++ kc :: post1 ++ k :: post2) →
  Q 0 {| s with ks_keyl := pre ++ kc :: post1 ++ k :: post2 |} [] →
  wp (keystore_append_key k) Q s.
Proof.
  intros He Hc Hpre [Hs Ha _] HQ. unfold keystore_append_key. wp_steps.
  apply (organise_current _ pre kc (post1 ++ k :: post2)); cbn; [|done..|].
  - rewrite He, <-Permutation_cons_append.
    trans ((pre ++ kc :: post1) ++ k :: post2); [|by rewrite <-app_assoc].
    by rewrite <-(Permutation_middle (pre ++ kc :: post1) post2 k), <-app_assoc.
  - by rewrite keep_last_short.
Qed.

(** The first key. *)
Lemma wp_append_first s k Q :
  ks_keyl s = [] → ks_current s = None →
  Q 0 {| s with ks_keyl := [k] |} [] → wp (keystore_append_key k) Q s.
Proof.
  intros He Hc HQ. unfold keystore_append_key, keystore_organise. rewrite Hc in HQ.
  wp_steps. cbn [ks_keyl ks_current]. rewrite Hc, He. wp_steps. cbn [app].
  rewrite (list_sort_keys [k] [k]); [done..|repeat constructor].
Qed.

(** *** Key derivation *)

(** The salt the store derives keys with. *)
Definition ks_salt_bytes (s : keystore) : list Z :=
  take (ks_slen s) (default [] (ks_salt s)).

Definition zero_key : list Z := replicate E2EE_SESSIONKEY_SIZE 0.

(** [k'] holds the key that follows [k] in the hash chain. *)
Definition hashed (salt : list Z) (k k' : keyinfo) : Prop :=
  ki_index k' = ki_index k + 1 ∧
  (∃ n, (HKDF n zero_key (ki_skey k) salt SKEY_INFO).1 ≠ 0 ∧
        (HKDF n zero_key (ki_skey k) salt SKEY_INFO).2 = ki_skey k') ∧
  (∃ n, (HKDF n zero_key (ki_skey k') salt MKEY_INFO).1 ≠ 0 ∧
        (HKDF n zero_key (ki_skey k') salt MKEY_INFO).2 = ki_mkey k').

Inductive hash_chain (salt : list Z) : keyinfo → list keyinfo → Prop :=
| hc_nil k : hash_chain salt k []
| hc_cons k k' l : hashed salt k k' → hash_chain salt k' l → hash_chain salt k (k' :: l).

(** Some call to the allocator or to [HKDF] can fail. *)
Definition env_fails : Prop :=
  (∃ n, mem_zalloc_ok n = false) ∨
  (∃ n out secret salt info, (HKDF n out secret salt info).1 = 0).

(** Only the clock and the allocator have moved on. *)
Definition ticked (s s' : keystore) : Prop :=
  ∃ t u, (ks_tick s ≤ t)%nat ∧ s' = {| s with ks_tick := t; ks_update_ts := u |}.

Lemma wp_derive_media_key k s Q :
  (∀ err mkey s', ticked s s' →
     length mkey = length (ki_mkey k) → (err ≠ 0 → env_fails) →
     (err = 0 → ∃ n, (HKDF n (ki_mkey k) (ki_skey k) (ks_salt_bytes s) MKEY_INFO).1 ≠ 0 ∧
                (HKDF n (ki_mkey k) (ki_skey k) (ks_salt_bytes s) MKEY_INFO).2 = mkey) →
     Q (err, {| k with ki_mkey := mkey |}) s' []) →
  wp (keystore_derive_media_key k) Q s.
Proof.
  intros HQ. unfold keystore_derive_media_key, hkdf, next_tick. wp_steps.
  cbn [ks_slen ks_salt ks_tick]. fold (ks_salt_bytes s).
  destruct (HKDF _ _ _ _ _) as [r mkey] eqn:He. wp_steps. cbn [app].
  apply (HQ (if r =? 0 then EINVAL else 0) mkey).
  - eexists _, _. split; [|done]. cbn. lia.
  - by rewrite <-(HKDF_length (ks_tick s) (ki_mkey k) (ki_skey k) (ks_salt_bytes s) MKEY_INFO), He.
  - destruct (Z.eqb_spec r 0) as [->|]; [|done]. intros _. right.
    eexists (ks_tick s), _, _, _, _. by rewrite He.
  - intros Hr. exists (ks_tick s). rewrite He. cbn. split; [|done].
    case_match; [done|]. by apply Z.eqb_neq.
Qed.

Lemma wp_derive_session_key prev s Q :
  (∀ err onext s', ticked s s' → (err ≠ 0 → env_fails) →
     (err = 0 → ∃ next, onext = Some next ∧ ki_addr next = ks_tick s ∧
        (ks_tick s < ks_tick s')%nat ∧
        ki_index next = u32 (ki_index prev + 1) ∧ ki_mkey next = zero_key ∧
        length (ki_skey next) = E2EE_SESSIONKEY_SIZE ∧
        ∃ n, (HKDF n zero_key (ki_skey prev) (ks_salt_bytes s) SKEY_INFO).1 ≠ 0 ∧
          (HKDF n zero_key (ki_skey prev) (ks_salt_bytes s) SKEY_INFO).2 = ki_skey next) →
     Q (err, onext) s' []) →
  wp (keystore_derive_session_key prev) Q s.
Proof.
  intros HQ. unfold keystore_derive_session_key, zalloc, next_tick. wp_steps.
  cbn [ks_tick]. destruct (mem_zalloc_ok _) eqn:Hm.
  - unfold hkdf, jiffies, next_tick, set_update_ts. wp_steps.
    cbn [ks_slen ks_salt ks_tick]. fold (ks_salt_bytes s) zero_key.
    destruct (HKDF _ _ _ _ _) as [r skey] eqn:He. wp_steps. cbn [app ks_tick].
    apply HQ.
    + eexists _, _. split; [|done]. lia.
    + destruct (Z.eqb_spec r 0) as [->|]; [|done]. intros _. right.
      eexists _, _, _, _, _. by rewrite He.
    + intros Hr. eexists. repeat split; cbn [ki_skey ks_tick]; [lia| |].
      * pose proof (HKDF_length (S (ks_tick s)) zero_key (ki_skey prev)
          (ks_salt_bytes s) SKEY_INFO) as Hlen. by rewrite He in Hlen.
      * exists (S (ks_tick s)). rewrite He. cbn. split; [|done].
        case_match; [done|]. by apply Z.eqb_neq.
  - wp_steps. apply HQ; [|by left; eexists|done]. eexists _, _. split; [|done]. lia.
Qed.
(** *** Hashing forward *)

(** A fresh last key keeps the invariant. *)
Lemma ks_ok_extend s s' l k k' :
  ks_ok s → ks_keyl s = l ++ [k] → ticked s s' →
  key_ok (ks_tick s') k' → ki_addr k' = ks_tick s → ki_index k < ki_index k' →
  ks_ok {| s' with ks_keyl := (l ++ [k]) ++ [k'] |}.
Proof.
  intros [Hl Hc Hi Hh Hsalt] He (t & u & Ht & ->) Hk' Ha Hlt. cbn in *.
  rewrite He in *. split; cbn; [| |done..].
  - eapply keyl_ok_tick; [|apply (keyl_ok_insert (ks_tick s) _ k' [])].
    + unfold key_ok in Hk'. lia.
    + by rewrite app_nil_r.
    + apply keys_sorted_app. split_and!; [by apply Hl|repeat constructor|].
      intros k1 k2 Hk1 ->%list_elem_of_singleton. unfold key_lt.
      destruct Hl as [Hs _ _]. apply keys_sorted_app in Hs as (_ & _ & Hs).
      apply elem_of_app in Hk1 as [Hk1| ->%list_elem_of_singleton]; [|done].
      specialize (Hs k1 k Hk1 ltac:(set_solver)). unfold key_lt in Hs. lia.
    + lia.
    + unfold key_ok in *. intuition lia.
  - destruct (ks_current s); cbn in *; [|by destruct l].
    destruct Hc as (pre & kc & post & -> & Hkc & Hpre).
    exists pre, kc, (post ++ [k']). by rewrite <-app_assoc.
Qed.

(** The store with the keys [ext] linked in at the end. *)
Definition extended (s s' : keystore) (ext : list keyinfo) : Prop :=
  ∃ t u, (ks_tick s ≤ t)%nat ∧
    s' = {| s with ks_keyl := ks_keyl s ++ ext; ks_tick := t; ks_update_ts := u |}.

Lemma extended_nil s s' : ticked s s' → extended s s' [].
Proof.
  intros (t & u & Ht & ->). exists t, u. by rewrite app_nil_r.
Qed.

Lemma extended_cons s s0 s' k ext :
  ticked s s0 → extended {| s0 with ks_keyl := ks_keyl s ++ [k] |} s' ext →
  extended s s' (k :: ext).
Proof.
  intros (t & u & Ht & ->) (t' & u' & Ht' & ->). exists t', u'. cbn in *.
  split; [lia|]. by rewrite <-app_assoc.
Qed.

Lemma ticked_refl s : ticked s s.
Proof. exists (ks_tick s), (ks_update_ts s). by destruct s. Qed.

Lemma ticked_trans s1 s2 s3 : ticked s1 s2 → ticked s2 s3 → ticked s1 s3.
Proof.
  intros (t & u & Ht & ->) (t' & u' & Ht' & ->). exists t', u'. cbn in *.
  split; [lia|done].
Qed.

Lemma ks_ok_ticked s s' : ticked s s' → ks_ok s → ks_ok s'.
Proof.
  intros (t & u & Ht & ->) [Hl Hc Hi Hh Hsalt]. split; cbn in *; [|done..].
  by eapply keyl_ok_tick.
Qed.

Lemma wp_deref s k Q :
  ks_ok s → k ∈ ks_keyl s → Q k s [] → wp (deref (ki_addr k)) Q s.
Proof.
  intros Hok Hk HQ. unfold deref. wp_steps. eapply wp_of_ptr; [|exact HQ].
  apply key_at_elem; [apply Hok|done].
Qed.

Lemma wp_append_last s s' l k k' Q :
  ks_ok s → ks_keyl s = l ++ [k] → ticked s s' →
  ks_ok {| s' with ks_keyl := (l ++ [k]) ++ [k'] |} →
  Q 0 {| s' with ks_keyl := (l ++ [k]) ++ [k'] |} [] →
  wp (keystore_append_key k') Q s'.
Proof.
  intros [Hl Hc _ _ _] He (t & u & Ht & ->) [Hl' _ _ _ _] HQ. cbn in *.
  unfold current_ok in Hc. destruct (ks_current s) as [c|] eqn:Hcur.
  2:{ rewrite He in Hc. by destruct l. }
  destruct Hc as (pre & kc & post & Hpost & <- & Hpre).
  rewrite <-He, Hpost, <-app_assoc in HQ, Hl'. cbn [app] in *.
  apply (wp_append_above _ pre kc post [] k'); cbn; [by rewrite app_nil_r|done..|].
  exact HQ.
Qed.

(** The loop reaches [index] in [index - ki_index k] rounds, or stops at the
    first failure with the keys it has. *)
Lemma wp_hash_to_key_loop fuel index s l k :
  ks_ok s → ks_keyl s = l ++ [k] → index < 2 ^ 32 →
  fuel = Z.to_nat (index - ki_index k) →
  wp (hash_to_key_loop fuel (ki_addr k) index) (λ err s' e,
    e = [] ∧ ks_ok s' ∧ ∃ ext, extended s s' ext ∧
    hash_chain (ks_salt_bytes s) k ext ∧ (err = 0 → length ext = fuel) ∧
    (err ≠ 0 → env_fails)) s.
Proof.
  revert s l k. induction fuel as [|fuel IH]; intros s l k Hok He Hi Hf;
    cbn [hash_to_key_loop]; apply wp_bind, wp_deref;
    [done|rewrite He; set_solver| |done|rewrite He; set_solver|].
  { destruct (Z.ltb_spec (ki_index k) index) as [|_]; [lia|]. wp_steps.
    split_and!; [done..|]. exists []. split_and!; [|constructor|done|done].
    apply extended_nil, ticked_refl. }
  assert (key_ok (ks_tick s) k) as Hk.
  { eapply keyl_ok_elem; [apply Hok|]. rewrite He. set_solver. }
  destruct (Z.ltb_spec (ki_index k) index) as [Hlt|]; [|lia].
  apply wp_bind, wp_derive_session_key. intros err onext s1 Ht1 Hf1 H1.
  destruct (Z.eqb_spec err 0) as [->|Herr]; cbn [negb].
  2:{ wp_steps. split_and!; [done|by eapply ks_ok_ticked|]. exists [].
      split_and!; [by apply extended_nil|constructor|done|auto]. }
  destruct (H1 eq_refl) as (next & -> & Ha & Hsk & Hix & Hmk & Hlen & Hs).
  apply wp_bind, wp_derive_media_key. intros err mkey s2 Ht2 Hmlen Hf2 H2.
  pose proof (ticked_trans _ _ _ Ht1 Ht2) as Ht.
  destruct (Z.eqb_spec err 0) as [->|Herr]; cbn [negb].
  2:{ wp_steps. split_and!; [done|by eapply ks_ok_ticked|]. exists [].
      split_and!; [by apply extended_nil|constructor|done|auto]. }
  set (k' := {| next with ki_mkey := mkey |}).
  assert (ki_index k' = ki_index k + 1) as Hk'i.
  { cbn. rewrite Hix. apply uwrap_small. destruct Hk. lia. }
  assert (ks_ok {| s2 with ks_keyl := (l ++ [k]) ++ [k'] |}) as Hok'.
  { apply (ks_ok_extend s s2 l k k'); [done..| |done|lia].
    destruct Ht2 as (t & u & Ht2 & ->). unfold key_ok, k' in *. cbn in *.
    rewrite Hmk in Hmlen. split_and!; [lia..|done|done]. }
  apply wp_bind, (wp_append_last s s2 l k); [done..|]. cbn [negb Z.eqb].
  eapply wp_mono; [apply (IH _ (l ++ [k]) k'); [done|done|done|lia]|].
  cbn beta. intros err s' e (-> & Hs' & ext & Hext & Hchain & Hlen' & Hf').
  split_and!; [done..|]. exists (k' :: ext). split_and!.
  - apply (extended_cons s s2); [done|]. by rewrite He.
  - constructor; [|by destruct Ht as (? & ? & ? & ->)].
    split_and!; [done|done|]. destruct (H2 eq_refl) as (n & Hn1 & Hn2).
    exists n. rewrite Hmk in Hn1, Hn2. by destruct Ht1 as (? & ? & ? & ->).
  - intros Herr. cbn. by rewrite Hlen'.
  - exact Hf'.
Qed.
(** [keystore_hash_to_key] from the last key. *)
Lemma wp_hash_to_key index s l k :
  ks_ok s → ks_keyl s = l ++ [k] → index < 2 ^ 32 →
  wp (keystore_hash_to_key index) (λ err s' e,
    e = [] ∧ ks_ok s' ∧ ∃ ext, extended s s' ext ∧
    hash_chain (ks_salt_bytes s) k ext ∧
    (err = 0 → length ext = Z.to_nat (index - ki_index k)) ∧
    (err ≠ 0 → env_fails)) s.
Proof.
  intros Hok He Hi. unfold keystore_hash_to_key, keystore_get_latest. wp_steps.
  rewrite He, last_snoc. by apply (wp_hash_to_key_loop _ index s l k).
Qed.

(** *** Writing to a key in place *)

Lemma ks_ok_fmap s f :
  (∀ k, k ∈ ks_keyl s → ki_addr (f k) = ki_addr k ∧ ki_index (f k) = ki_index k ∧
     key_ok (ks_tick s) (f k)) →
  ks_ok s → ks_ok {| s with ks_keyl := f <$> ks_keyl s |}.
Proof.
  intros Hf [[Hs Ha Hk] Hc Hi Hh Hsalt]. split; cbn; [split| |done..].
  - clear -Hf Hs. induction Hs as [|x l Hl IH Hx]; cbn; constructor.
    + apply IH. intros y Hy. apply Hf. by right.
    + rewrite Forall_fmap, Forall_forall in *. intros y Hy. specialize (Hx y Hy).
      destruct (Hf x) as (_ & Hfx & _); [by left|].
      destruct (Hf y) as (_ & Hfy & _); [by right|].
      unfold key_lt in *. cbn. lia.
  - rewrite <-list_fmap_compose. erewrite list_fmap_ext; [exact Ha|].
    intros i x Hx%list_elem_of_lookup_2. by apply Hf.
  - rewrite Forall_fmap, Forall_forall. intros x Hx. by apply Hf.
  - unfold current_ok in *. destruct (ks_current s) as [c|]; [|by rewrite Hc].
    destruct Hc as (pre & k & post & He & <- & Hpre).
    exists (f <$> pre), (f k), (f <$> post). rewrite He, fmap_app, length_fmap.
    split_and!; [done| |done]. apply Hf. rewrite He. set_solver.
Qed.

Lemma wp_store_key s k k' Q :
  ks_ok s → k ∈ ks_keyl s → ki_addr k' = ki_addr k → ki_index k' = ki_index k →
  length (ki_skey k') = E2EE_SESSIONKEY_SIZE → length (ki_mkey k') = E2EE_SESSIONKEY_SIZE →
  (∀ s', s' = {| s with ks_keyl :=
      (λ x, if (ki_addr x =? ki_addr k')%nat then k' else x) <$> ks_keyl s |} →
    ks_ok s' → k' ∈ ks_keyl s' → Q () s' []) →
  wp (store_key k') Q s.
Proof.
  intros Hok Hk Ha Hi Hs Hm HQ. unfold store_key. wp_steps. apply HQ; [done| |].
  - apply ks_ok_fmap; [|done]. intros x Hx.
    pose proof (keyl_ok_elem _ _ _ (ok_keyl _ Hok) Hx) as Hkx.
    destruct (Nat.eqb_spec (ki_addr x) (ki_addr k')) as [He|]; [|done].
    assert (x = k) as ->; [|unfold key_ok in *; intuition lia].
    pose proof (key_at_elem _ k (ko_addrs _ _ (ok_keyl _ Hok)) Hk) as H1.
    pose proof (key_at_elem _ x (ko_addrs _ _ (ok_keyl _ Hok)) Hx) as H2.
    congruence.
  - cbn. apply list_elem_of_fmap. exists k. by rewrite Ha, Nat.eqb_refl.
Qed.

(** ** Every operation keeps the invariant *)

Definition changes (e : list ks_event) : Prop := ∃ ls, e = KsChanged <$> ls.

Lemma changes_nil : changes [].
Proof. by exists []. Qed.

Lemma wp_locked_ok {A} lock (body : KSM A) (P : A → keystore → Prop) s :
  lock = KsLockWrite ∨ lock = KsLockRead →
  wp body (λ r s' e, P r s' ∧ changes e) s →
  wp (locked lock body) (λ r s' e, P r s' ∧ lock_trace e) s.
Proof.
  intros Hlock Hb. apply wp_locked. eapply wp_mono; [exact Hb|].
  intros r s' e [HP [ls ->]]. split; [done|]. right. eauto.
Qed.

Lemma wp_notify s Q : Q () s (KsChanged <$> ks_listeners s) → wp notify Q s.
Proof. intros HQ. unfold notify. by wp_steps. Qed.
End Internal.

#[export] Hint Resolve changes_nil : avs.
