(* ===== verification/KeystoreOps.v ===== *)
(** * The operations of the key store, one by one

    For every function of [keystore.c] that moves the current key or links a
    key in: what it returns, what the store holds afterwards, and that the
    invariant [ks_ok] is kept. *)

From S2P Require Import Prelude LibRe Keystore KeystoreSpec.

(** The store after [k] has been made current. *)
Definition moved_to (s : keystore) (pre : list keyinfo) (k : keyinfo)
    (post : list keyinfo) : keystore :=
  {| s with ks_current := Some (ki_addr k); ks_keyl := keep_last pre ++ k :: post |}.

Section Ops.
Context `{LibReSpec, !KsEnv, HLen : !KsEnvLen _}.

Lemma wp_deref_next s pre k post Q :
  ks_ok s → ks_keyl s = pre ++ k :: post → Q (head post) s [] →
  wp (deref_next (ki_addr k)) Q s.
Proof.
  intros Hok He HQ. unfold deref_next. apply wp_bind, wp_deref; [done|rewrite He; apply elem_mid|].
  wp_steps. rewrite He, next_of_mid; [exact HQ|]. rewrite <-He. apply Hok.
Qed.

(** The current key of a store that has one. *)
Lemma ks_current_split s c :
  ks_ok s → ks_current s = Some c →
  ∃ pre k post, ks_keyl s = pre ++ k :: post ∧ ki_addr k = c ∧ (length pre ≤ 1)%nat.
Proof. intros [_ Hc _ _ _] Hs. rewrite Hs in Hc. exact Hc. Qed.

Lemma ks_current_none s : ks_ok s → ks_current s = None → ks_keyl s = [].
Proof. intros [_ Hc _ _ _] Hs. rewrite Hs in Hc. exact Hc. Qed.

(** *** [keystore_rotate] *)

Lemma wp_rotate_to_next s pre kc k post Q :
  ks_ok s → ks_keyl s = pre ++ kc :: k :: post →
  (ks_ok (moved_to s [kc] k post) →
   Q 0 (moved_to s [kc] k post) (KsChanged <$> ks_listeners s)) →
  wp (rotate_to_next (ki_addr kc)) Q s.
Proof.
  intros Hok He HQ. unfold rotate_to_next, set_current_ptr.
  apply wp_bind, (wp_deref_next s pre kc (k :: post)); [done..|].
  apply wp_bind, (wp_of_ptr _ _ k); [done|]. wp_steps.
  apply (wp_make_current s (pre ++ [kc]) k post); [done|by rewrite He, <-app_assoc|].
  assert (keep_last (pre ++ [kc]) = [kc]) as ->.
  { unfold keep_last. rewrite length_app. cbn.
    by rewrite Nat.add_sub, drop_app_length. }
  intros Hok'. cbn [negb Z.eqb]. apply wp_bind, wp_notify. wp_steps.
  rewrite !app_nil_r. cbn [ks_listeners app]. apply HQ. exact Hok'.
Qed.

(** The store in which rotating dereferences a [NULL] pointer: the index of
    the current key, the last one, cannot be incremented. *)
Definition rotate_wraps (s : keystore) : Prop :=
  match last (ks_keyl s) with
  | None => False
  | Some k => ks_hash_forward s = true ∧ ks_current s = Some (ki_addr k) ∧
      ki_index k = UINT32_MAX
  end.

#[global] Instance rotate_wraps_dec s : Decision (rotate_wraps s).
Proof. unfold rotate_wraps. destruct (last _); apply _. Defined.

Definition rotate_post (s : keystore) (err : Z) (s' : keystore) : Prop :=
  (err = ENOENT ∧ s' = s ∧ (ks_keyl s = [] ∨ ks_hash_forward s = false)) ∨
  (∃ pre kc k post, ks_keyl s = pre ++ kc :: k :: post ∧
     ks_current s = Some (ki_addr kc) ∧ err = 0 ∧ s' = moved_to s [kc] k post) ∨
  (∃ pre kc, ks_keyl s = pre ++ [kc] ∧ ks_current s = Some (ki_addr kc) ∧
     ks_hash_forward s = true ∧
     ((err ≠ 0 ∧ env_fails ∧ ∃ ext, extended s s' ext) ∨
      (err = 0 ∧ ∃ k s0, hashed (ks_salt_bytes s) kc k ∧ extended s s0 [k] ∧
         s' = moved_to s0 [kc] k []))).

Lemma wp_rotate s :
  ks_ok s → ¬ rotate_wraps s →
  wp keystore_rotate (λ err s' e, (ks_ok s' ∧ rotate_post s err s') ∧ lock_trace e) s.
Proof.
  intros Hok Hw. apply wp_locked_ok; [auto|]. wp_steps.
  destruct (ks_current s) as [c|] eqn:Hc; cycle 1.
  { wp_steps. split; [|apply changes_nil]. split; [done|]. left.
    auto using ks_current_none. }
  destruct (ks_current_split s c Hok Hc) as (pre & kc & post & He & <- & Hpre).
  apply wp_bind, (wp_deref_next s pre kc post); [done..|].
  destruct post as [|k post]; cbn [head].
  2:{ apply (wp_rotate_to_next s pre kc k post); [done..|]. intros Hok'.
      split; [|by eexists]. split; [done|]. right; left. eauto 10. }
  destruct (ks_hash_forward s) eqn:Hf; cycle 1.
  { wp_steps. split; [|apply changes_nil]. split; [done|]. left. auto. }
  apply wp_bind, wp_deref; [done|rewrite He; apply elem_mid|].
  assert (key_ok (ks_tick s) kc) as (_ & Hi & _).
  { eapply keyl_ok_elem; [apply Hok|]. rewrite He. apply elem_mid. }
  assert (ki_index kc ≠ UINT32_MAX) as Hmax.
  { intros Heq. apply Hw. unfold rotate_wraps. by rewrite He, last_snoc. }
  unfold UINT32_MAX in Hmax. rewrite uwrap_small by lia.
  apply wp_bind. eapply wp_mono; [apply (wp_hash_to_key _ s pre kc); [done..|lia]|].
  cbn beta. intros err s0 e (-> & Hok0 & ext & Hext & Hchain & Hlen & Hfail).
  destruct (Z.eqb_spec err 0) as [->|Herr]; cbn [negb].
  2:{ wp_steps. split; [|apply changes_nil]. split; [done|]. do 2 right.
      exists pre, kc. split_and!; [done..|]. left. eauto. }
  specialize (Hlen eq_refl). replace (Z.to_nat _) with 1%nat in Hlen by lia.
  destruct ext as [|k [|]]; cbn in Hlen; [lia| |lia].
  assert (ks_keyl s0 = pre ++ kc :: k :: []) as He0.
  { destruct Hext as (t & u & _ & ->). cbn. by rewrite He, <-app_assoc. }
  apply (wp_rotate_to_next s0 pre kc k []); [done..|]. intros Hok'.
  split; [|by eexists]. split; [done|]. do 2 right.
  exists pre, kc. split_and!; [done..|]. right. split; [done|]. exists k, s0.
  inversion Hchain; subst. done.
Qed.
(** *** [keystore_set_session_key] *)

Lemma copy_into_length n sz src :
  (sz ≤ n)%nat → length (copy_into n sz src) = n.
Proof.
  intros Hsz. unfold copy_into. rewrite length_app, length_replicate, length_take. lia.
Qed.

(** The media key of [k] has been derived from its session key, into a buffer
    of the right size. *)
Definition media_derived (salt : list Z) (k : keyinfo) : Prop :=
  ∃ n out, length out = E2EE_SESSIONKEY_SIZE ∧
    (HKDF n out (ki_skey k) salt MKEY_INFO).1 ≠ 0 ∧
    (HKDF n out (ki_skey k) salt MKEY_INFO).2 = ki_mkey k.

(** The key is in use: it has been overwritten. *)
Definition overwritten (s : keystore) (k : keyinfo) (key : list Z) (err : Z)
    (s' : keystore) : Prop :=
  ∃ k', ki_addr k' = ki_addr k ∧ ki_index k' = ki_index k ∧ k' ∈ ks_keyl s' ∧
    ki_skey k' = copy_into E2EE_SESSIONKEY_SIZE E2EE_SESSIONKEY_SIZE key ∧
    (err = 0 → media_derived (ks_salt_bytes s) k') ∧ (err ≠ 0 → env_fails) ∧
    ks_current s' = ks_current s ∧ same_setup s s' ∧
    (ki_index <$> ks_keyl s') = (ki_index <$> ks_keyl s).

Lemma copy_into_min n sz src :
  copy_into n (length src `min` sz) src = copy_into n sz src.
Proof.
  unfold copy_into. rewrite <-take_take, (take_ge (take sz src)); [done|].
  rewrite length_take. lia.
Qed.

Lemma fmap_store_index (l : list keyinfo) k :
  (∀ x, x ∈ l → ki_addr x = ki_addr k → ki_index x = ki_index k) →
  ki_index <$> ((λ x, if (ki_addr x =? ki_addr k)%nat then k else x) <$> l) = ki_index <$> l.
Proof.
  intros Hl. rewrite <-list_fmap_compose. apply list_fmap_ext.
  intros i x Hx%list_elem_of_lookup_2. cbn.
  destruct (Nat.eqb_spec (ki_addr x) (ki_addr k)) as [He|]; [|done].
  symmetry. by apply Hl.
Qed.

Lemma ks_addr_inj s x y :
  ks_ok s → x ∈ ks_keyl s → y ∈ ks_keyl s → ki_addr x = ki_addr y → x = y.
Proof.
  intros Hok Hx Hy He.
  pose proof (key_at_elem _ x (ko_addrs _ _ (ok_keyl _ Hok)) Hx) as H1.
  pose proof (key_at_elem _ y (ko_addrs _ _ (ok_keyl _ Hok)) Hy) as H2.
  congruence.
Qed.

Lemma wp_set_existing_key s k key :
  ks_ok s → k ∈ ks_keyl s →
  let sz := (length key `min` E2EE_SESSIONKEY_SIZE)%nat in
  wp (set_existing_key k key sz) (λ err s' e, e = [] ∧ ks_ok s' ∧
    if decide (take sz (ki_skey k) = take sz key) then err = EALREADY ∧ s' = s
    else overwritten s k key err s') s.
Proof.
  intros Hok Hk sz. unfold set_existing_key.
  destruct (decide (take sz (ki_skey k) = take sz key)) as [Heq|Heq];
    [rewrite bool_decide_true by done|rewrite bool_decide_false by done].
  { by wp_steps. }
  destruct (keyl_ok_elem _ _ _ (ok_keyl _ Hok) Hk) as (_ & _ & _ & Hm).
  unfold sz. rewrite copy_into_min.
  apply wp_bind, (wp_store_key s k); [done..| |done|].
  { cbn. by apply copy_into_length. }
  intros s1 Es1 Hok1 Hk1. unfold jiffies, next_tick, set_update_ts. wp_steps. cbn [ks_tick].
  apply wp_derive_media_key. intros err mkey s2 Ht Hmlen Hfail Hd.
  assert (ticked s1 s2) as Ht2.
  { eapply ticked_trans; [|exact Ht]. eexists _, _. split; [|done]. lia. }
  apply wp_bind. set (k2 := {| k with ki_skey := _ |}) in *.
  assert (ks_keyl s2 = ks_keyl s1) as E2 by (by destruct Ht2 as (? & ? & _ & ->)).
  apply (wp_store_key s2 k2); [by eapply ks_ok_ticked|by rewrite E2|done|done| | |].
  { by apply copy_into_length. }
  { cbn in *. congruence. }
  intros s3 Es3 Hok3 Hk3. wp_steps. split_and!; [done..|].
  exists {| k2 with ki_mkey := mkey |}. split_and!; [done|done|exact Hk3|done| |done| | |].
  - intros Herr. destruct (Hd Herr) as (n & Hn1 & Hn2). exists n, (ki_mkey k).
    split; [done|]. subst s1. done.
  - subst s3. cbn. destruct Ht2 as (? & ? & _ & ->). cbn. by subst s1.
  - subst s3. destruct Ht2 as (? & ? & _ & ->). by subst s1.
  - subst s3. cbn [ks_keyl]. rewrite E2, fmap_store_index.
    + subst s1. cbn [ks_keyl]. apply fmap_store_index. cbn. intros x Hx Hax.
      by rewrite (ks_addr_inj s x k).
    + intros x Hx Hax. cbn in *. by rewrite (ks_addr_inj s1 x k2).
Qed.

(** The key is new: it has been linked in, and is current if it is the
    first. *)
Definition added (s : keystore) (index : Z) (key : list Z) (err : Z)
    (s' : keystore) : Prop :=
  (err ≠ 0 ∧ env_fails ∧ ticked s s') ∨
  (err = 0 ∧ ∃ k, ki_index k = index ∧
     ki_skey k = copy_into E2EE_SESSIONKEY_SIZE E2EE_SESSIONKEY_SIZE key ∧
     media_derived (ks_salt_bytes s) k ∧
     ks_keyl s' ≡ₚ k :: ks_keyl s ∧
     ks_current s' = Some (default (ki_addr k) (ks_current s)) ∧ same_setup s s').

(** A key above the current one has its place in the list. *)
Lemma ks_ok_insert s s1 pre kc post k :
  ks_ok s → ks_keyl s = pre ++ kc :: post → ks_current s = Some (ki_addr kc) →
  (length pre ≤ 1)%nat → ticked s s1 → key_ok (ks_tick s1) k → ki_addr k = ks_tick s →
  ki_index kc < ki_index k → (∀ k', k' ∈ post → ki_index k' ≠ ki_index k) →
  ∃ post1 post2, post = post1 ++ post2 ∧
    ks_ok {| s1 with ks_keyl := pre ++ kc :: post1 ++ k :: post2 |}.
Proof.
  intros [Hl Hc Hi Hh Hsalt] He Hcur Hpre (t & u & Ht & ->) Hk Ha Hlt Hne.
  rewrite He in Hl. pose proof Hl as [Hs _ _].
  pose proof Hs as (_ & [Hpost _]%StronglySorted_inv & _)%keys_sorted_app.
  destruct (keys_insert post k Hpost Hne) as (post1 & post2 & -> & Hins).
  exists post1, post2. split; [done|]. cbn in *. split; cbn; [| |done..].
  - apply (keyl_ok_tick (S (ki_addr k))); [unfold key_ok in Hk; lia|].
    change (kc :: post1 ++ k :: post2) with ((kc :: post1) ++ k :: post2).
    rewrite app_assoc. apply (keyl_ok_insert (ks_tick s)).
    + by rewrite <-app_assoc.
    + rewrite <-app_assoc. by apply keys_insert_above.
    + lia.
    + unfold key_ok in *. intuition lia.
  - rewrite Hcur. exists pre, kc, (post1 ++ k :: post2). done.
Qed.

(** The end of [set_new_key], for the first key and for a later one. *)
Lemma wp_append_new s s1 k Q :
  ks_ok s → ticked s s1 → key_ok (ks_tick s1) k → ki_addr k = ks_tick s →
  (∀ k', k' ∈ ks_keyl s → ki_index k' ≠ ki_index k) →
  (∀ k', k' ∈ ks_keyl s → ks_current s = Some (ki_addr k') → ki_index k' <= ki_index k) →
  (∀ l, l ≡ₚ k :: ks_keyl s → keyl_ok (ks_tick s1) l →
     (∀ c, ks_current s = Some c → current_ok (Some c) l) →
     Q 0 {| s1 with ks_keyl := l |} []) →
  wp (keystore_append_key k) Q s1.
Proof.
  intros Hok Ht Hk Ha Hne Hcur HQ.
  assert (ks_keyl s1 = ks_keyl s ∧ ks_current s1 = ks_current s) as [E1 E2].
  { by destruct Ht as (? & ? & _ & ->). }
  destruct (ks_current s) as [c|] eqn:Hc; cycle 1.
  - pose proof (ks_current_none s Hok Hc) as Hnil.
    apply wp_append_first; [congruence|done|].
    apply HQ; [by rewrite Hnil| |done].
    split; cbn; [repeat constructor|apply NoDup_singleton|by constructor].
  - destruct (ks_current_split s c Hok Hc) as (pre & kc & post & He & <- & Hpre).
    assert (ki_index kc < ki_index k).
    { specialize (Hcur kc ltac:(rewrite He; apply elem_mid) eq_refl).
      specialize (Hne kc ltac:(rewrite He; apply elem_mid)). lia. }
    destruct (ks_ok_insert s s1 pre kc post k) as (post1 & post2 & -> & Hok1); [done..| |].
    { intros k' Hk'. apply Hne. rewrite He. set_solver. }
    apply (wp_append_above s1 pre kc post1 post2); [congruence..| |].
    { apply Hok1. }
    apply HQ; [|apply Hok1|].
    + rewrite He.
      trans ((pre ++ kc :: post1) ++ k :: post2); [by rewrite <-app_assoc|].
      by rewrite <-(Permutation_middle (pre ++ kc :: post1) post2 k), <-app_assoc.
    + intros c [= <-]. by exists pre, kc, (post1 ++ k :: post2).
Qed.

Lemma wp_set_new_key s index key :
  ks_ok s → 0 <= index < 2 ^ 32 →
  (∀ k, k ∈ ks_keyl s → ki_index k ≠ index) →
  (∀ k, k ∈ ks_keyl s → ks_current s = Some (ki_addr k) → ki_index k <= index) →
  wp (set_new_key index key (length key `min` E2EE_SESSIONKEY_SIZE))
    (λ err s' e, changes e ∧ ks_ok s' ∧ added s index key err s') s.
Proof.
  intros Hok Hi Hne Hcur. unfold set_new_key, zalloc, next_tick. wp_steps. cbn [ks_tick].
  destruct (mem_zalloc_ok _) eqn:Hm.
  2:{ wp_steps. split; [apply changes_nil|]. split.
      - eapply ks_ok_ticked; [|exact Hok]. eexists _, _. split; [|done]. lia.
      - left. split_and!; [done|by left; eexists|]. eexists _, _. split; [|done]. lia. }
  unfold jiffies, next_tick, set_update_ts. rewrite copy_into_min. wp_steps. cbn [ks_tick].
  set (k0 := {| ki_addr := ks_tick s |}).
  apply wp_derive_media_key. intros err mkey s1 Ht Hmlen Hfail Hd.
  set (k := {| k0 with ki_mkey := mkey |}).
  assert (ticked s s1 ∧ (ks_tick s < ks_tick s1)%nat) as [Ht1 Hlt].
  { destruct Ht as (t & u & Ht & ->). cbn in *. split; [|lia].
    eexists _, _. split; [|done]. lia. }
  destruct (Z.eqb_spec err 0) as [->|Herr]; cbn [negb].
  2:{ wp_steps. split; [apply changes_nil|]. split; [by eapply ks_ok_ticked|]. left. auto. }
  assert (media_derived (ks_salt_bytes s) k) as Hmd.
  { destruct (Hd eq_refl) as (n & Hn1 & Hn2). by exists n, zero_key. }
  assert (key_ok (ks_tick s1) k) as Hkok.
  { split_and!; cbn; [lia|lia|lia|by apply copy_into_length|done]. }
  apply wp_bind, (wp_append_new s s1 k); [done..|].
  intros l Hl Hlok Hlc. cbn [negb Z.eqb]. wp_steps. cbn [ks_init].
  assert (ks_init s1 = bool_decide (is_Some (ks_current s)) ∧
          ks_current s1 = ks_current s ∧ ks_slen s1 = length (default [] (ks_salt s1)) ∧
          same_setup s s1) as (-> & Hc1 & Hs1 & Hsetup).
  { destruct Hok as [_ _ Hinit _ Hsalt]. by destruct Ht1 as (? & ? & _ & ->). }
  destruct (ks_current s) as [c|] eqn:Hc; cbn [bool_decide decide_rel is_Some_dec].
  - wp_steps. split; [apply changes_nil|]. split.
    + split; cbn; rewrite ?Hc1; auto.
    + right. split; [done|]. exists k. cbn. by rewrite Hc.
  - rewrite (ks_current_none s Hok Hc) in Hl. apply Permutation_singleton_r in Hl as ->.
    unfold set_current_ptr. wp_steps.
    apply (organise_current _ [] k []); cbn; [done|apply Hlok|apply Hlok|done|].
    wp_steps. apply wp_notify. wp_steps. split; [exists (ks_listeners s1); cbn; by rewrite app_nil_r|]. split.
    + split; cbn; [done| |done..]. exists [], k, []. split_and!; [done..|cbn; lia].
    + right. split; [done|]. exists k. cbn. rewrite Hc.
      by rewrite (ks_current_none s Hok Hc).
Qed.

Definition set_session_post (s : keystore) (index : Z) (key : list Z) (err : Z)
    (s' : keystore) : Prop :=
  (* no key *)
  (key = [] ∧ err = EINVAL ∧ s' = s) ∨
  (* older than the current key *)
  (∃ k, k ∈ ks_keyl s ∧ ks_current s = Some (ki_addr k) ∧ index < ki_index k ∧
     err = EALREADY ∧ s' = s) ∨
  (* an index in use *)
  (∃ k, k ∈ ks_keyl s ∧ ki_index k = index ∧
     let sz := (length key `min` E2EE_SESSIONKEY_SIZE)%nat in
     if decide (take sz (ki_skey k) = take sz key) then err = EALREADY ∧ s' = s
     else overwritten s k key err s') ∨
  (* a new key *)
  ((∀ k, k ∈ ks_keyl s → ki_index k ≠ index) ∧
   (∀ k, k ∈ ks_keyl s → ks_current s = Some (ki_addr k) → ki_index k <= index) ∧
   added s index key err s').

Lemma wp_below_current s index (Q : bool → keystore → list ks_event → Prop) :
  ks_ok s →
  ((∃ k, k ∈ ks_keyl s ∧ ks_current s = Some (ki_addr k) ∧ index < ki_index k) →
   Q true s []) →
  ((∀ k, k ∈ ks_keyl s → ks_current s = Some (ki_addr k) → ki_index k <= index) →
   Q false s []) →
  wp (below_current index) Q s.
Proof.
  intros Hok HT HF. unfold below_current. wp_steps.
  destruct (ks_current s) as [c|] eqn:Hc; [|by wp_steps; apply HF].
  destruct (ks_current_split s c Hok Hc) as (pre & kc & post & He & <- & Hpre).
  assert (kc ∈ ks_keyl s) as Hkc by (rewrite He; apply elem_mid).
  apply wp_bind, wp_deref; [done..|]. wp_steps.
  destruct (Z.ltb_spec index (ki_index kc)); [by apply HT; exists kc|].
  apply HF. intros k Hk [= Ha]. by rewrite (ks_addr_inj s k kc).
Qed.

Lemma wp_set_session_key s index key :
  ks_ok s → 0 <= index < 2 ^ 32 →
  wp (keystore_set_session_key index key) (λ err s' e,
    (ks_ok s' ∧ set_session_post s index key err s') ∧ lock_trace e) s.
Proof.
  intros Hok Hi. unfold keystore_set_session_key.
  destruct (Nat.eqb_spec (length key) 0) as [Hk0|Hk0].
  { wp_steps. destruct key; [|done]. split; [split; [done|]|by left]. left. done. }
  apply wp_locked_ok; [auto|]. apply wp_bind, wp_below_current; [done|..].
  { intros (k & Hk & Hold). wp_steps. split; [|apply changes_nil]. split; [done|].
    right; left. exists k. tauto. }
  intros Hold. wp_steps. destruct (List.find _ _) as [k|] eqn:Hf.
  - apply find_Some_split in Hf as [Hix%Z.eqb_eq Hk].
    eapply wp_mono; [by apply wp_set_existing_key|]. cbn beta.
    intros err s' e (-> & Hs' & Hpost). split; [|apply changes_nil]. split; [done|].
    do 2 right. left. exists k. auto.
  - assert (∀ k, k ∈ ks_keyl s → ki_index k ≠ index) as Hne.
    { intros k Hk. pose proof (find_None_all _ _ Hf k Hk) as Hn.
      apply Z.eqb_neq in Hn. congruence. }
    eapply wp_mono; [by apply wp_set_new_key|]. cbn beta.
    intros err s' e (He & Hs' & Hpost). split; [|done]. split; [done|].
    do 3 right. auto.
Qed.

Lemma wp_set_fresh s stack index key salt :
  ks_ok s → 0 <= index < 2 ^ 32 → length stack = E2EE_SESSIONKEY_SIZE →
  wp (keystore_set_fresh_session_key stack index key salt) (λ err s' e,
    (ks_ok s' ∧
     let '(r, hashed_key) := HKDF (ks_tick s) stack key salt CS_INFO in
     ∃ s0, ticked s s0 ∧
     if r =? 0 then err = EINVAL ∧ s' = s0
     else set_session_post s0 index hashed_key err s') ∧ lock_trace e) s.
Proof.
  intros Hok Hi Hst. unfold keystore_set_fresh_session_key, next_tick. wp_steps. cbn [ks_tick].
  destruct (HKDF _ _ _ _ _) as [r hk].
  assert (ticked s {| s with ks_tick := S (ks_tick s) |}) as Ht.
  { eexists _, _. split; [|done]. lia. }
  pose proof (ks_ok_ticked _ _ Ht Hok) as Hok1.
  destruct (r =? 0) eqn:Hr; cbn [negb].
  - wp_steps. split; [|by left]. split; [done|]. eexists. by split; [exact Ht|].
  - eapply wp_mono; [by apply wp_set_session_key|]. cbn beta.
    intros err s' e ([Hs' Hp] & Htr). split; [|done]. split; [done|]. eauto.
Qed.
(** *** [keystore_set_current] *)

Lemma wp_set_current s index :
  ks_ok s →
  wp (keystore_set_current index) (λ err s' e, (ks_ok s' ∧
    ((err = ENOENT ∧ s' = s ∧ ∀ k, k ∈ ks_keyl s → ki_index k ≠ index) ∨
     (err = 0 ∧ ∃ pre k post, ks_keyl s = pre ++ k :: post ∧ ki_index k = index ∧
        s' = moved_to s pre k post))) ∧ lock_trace e) s.
Proof.
  intros Hok. apply wp_locked_ok; [auto|]. wp_steps.
  destruct (List.find _ _) as [k|] eqn:Hf.
  - apply find_Some_split in Hf as [Hix%Z.eqb_eq (pre & post & He)%list_elem_of_split].
    unfold set_current_ptr. wp_steps. apply (wp_make_current s pre k post); [done..|].
    intros Hok'. cbn [negb Z.eqb]. apply wp_bind, wp_notify. wp_steps.
    rewrite !app_nil_r. split; [|by eexists]. split; [done|]. right. eauto 10.
  - wp_steps. split; [|apply changes_nil]. split; [done|]. left. split_and!; [done..|].
    intros k Hk. pose proof (find_None_all _ _ Hf k Hk) as Hn. by apply Z.eqb_neq in Hn.
Qed.

(** *** [keystore_get_media_key] *)

Definition key_size (ksz : nat) : nat := (ksz `min` E2EE_SESSIONKEY_SIZE)%nat.

(** The current key has a smaller index than [k]. *)
Definition current_below (s : keystore) (index : Z) : Prop :=
  ∃ kc, kc ∈ ks_keyl s ∧ ks_current s = Some (ki_addr kc) ∧ ki_index kc < index.

(** Hashing forward from the last key [k]: the store is left with every key up
    to [index], the last of which is current, and its media key is returned;
    or a derivation has failed. *)
Definition hash_forward_post (s : keystore) (k : keyinfo) (index : Z) (ksz : nat)
    (r : Z * list Z) (s' : keystore) : Prop :=
  if decide (ki_index k < index < u32 (ki_index k + NUM_KEYS)) then
    (r = (ENOENT, replicate ksz 0) ∧ env_fails ∧ ∃ ext, extended s s' ext) ∨
    (∃ ext s0 pre k', extended s s0 ext ∧ hash_chain (ks_salt_bytes s) k ext ∧
       ks_keyl s0 = pre ++ [k'] ∧ ki_index k' = index ∧ last ext = Some k' ∧
       s' = moved_to s0 pre k' [] ∧ r = (0, copy_into ksz (key_size ksz) (ki_mkey k')))
  else r = (ENOENT, replicate ksz 0) ∧ s' = s.

Definition get_media_post (s : keystore) (index : Z) (ksz : nat)
    (r : Z * list Z) (s' : keystore) : Prop :=
  (* the key is there *)
  (∃ pre k post, ks_keyl s = pre ++ k :: post ∧ ki_index k = index ∧
     r = (0, copy_into ksz (key_size ksz) (ki_mkey k)) ∧
     ((current_below s index ∧ s' = moved_to s pre k post) ∨
      (¬ current_below s index ∧ s' = s))) ∨
  (* it is not *)
  ((∀ k, k ∈ ks_keyl s → ki_index k ≠ index) ∧
   if ks_hash_forward s then
     match last (ks_keyl s) with
     | None => r = (ENOENT, replicate ksz 0) ∧ s' = {| s with ks_err_reported := true |}
     | Some k => hash_forward_post {| s with ks_err_reported := false |} k index ksz r s'
     end
   else r = (ENOENT, replicate ksz 0) ∧ s' = s).

(** The last key of a chain. *)
Lemma hash_chain_last salt k ext :
  hash_chain salt k ext →
  match last ext with
  | Some k' => ki_index k' = ki_index k + Z.of_nat (length ext)
  | None => ext = []
  end.
Proof.
  induction 1 as [|k k' l [Hi _] Hc IH]; [done|]. destruct l as [|k2 l].
  - cbn. lia.
  - change (last (k' :: k2 :: l)) with (last (k2 :: l)).
    destruct (last (k2 :: l)) as [kl|] eqn:Hl; [|done]. rewrite IH. cbn. lia.
Qed.

Lemma keys_sorted_last l k k' : keys_sorted (l ++ [k]) → k' ∈ l ++ [k] → ki_index k' <= ki_index k.
Proof.
  intros (_ & _ & Hs)%keys_sorted_app [Hk'| ->%list_elem_of_singleton]%elem_of_app; [|lia].
  specialize (Hs k' k Hk' ltac:(by left)). unfold key_lt in Hs. lia.
Qed.

Lemma extended_current s s' ext :
  extended s s' ext → ks_current s' = ks_current s ∧ ks_keyl s' = ks_keyl s ++ ext.
Proof. by intros (? & ? & _ & ->). Qed.

Lemma wp_hash_forward_key s l k index ksz :
  ks_ok s → ks_keyl s = l ++ [k] → index < 2 ^ 32 →
  wp (hash_forward_key k index ksz (key_size ksz)) (λ r s' e,
    (ks_ok s' ∧ hash_forward_post s k index ksz r s') ∧ e = []) s.
Proof.
  intros Hok He Hi. unfold hash_forward_key, hash_forward_post.
  destruct (decide (ki_index k < index < u32 (ki_index k + NUM_KEYS))) as [Hw|Hw]; cycle 1.
  { replace (_ && _)%bool with false by (symmetry; apply andb_false_iff; lia).
    by wp_steps. }
  replace (_ && _)%bool with true by (symmetry; apply andb_true_iff; lia).
  apply wp_bind. eapply wp_mono; [by apply (wp_hash_to_key index s l k)|]. cbn beta.
  intros err s0 e (-> & Hok0 & ext & Hext & Hchain & Hlen & Hfail).
  destruct (Z.eqb_spec err 0) as [->|]; cbn [negb]; cycle 1.
  { wp_steps. split; [|done]. split; [done|]. left. eauto. }
  specialize (Hlen eq_refl). apply hash_chain_last in Hchain as Hlast.
  destruct (extended_current _ _ _ Hext) as [Ec El].
  destruct (last ext) as [k'|] eqn:Hk'; [|subst ext; cbn in Hlen; lia].
  apply last_Some in Hk' as [ext' ->]. rewrite app_assoc in El.
  wp_steps. unfold keystore_get_latest. rewrite El, last_snoc.
  destruct (ks_current s0) as [c|] eqn:Hc; cycle 1.
  { apply ks_current_none in Hc; [|done]. rewrite Hc in El. by destruct (ks_keyl s ++ ext'). }
  destruct (ks_current_split s c Hok (eq_sym Ec)) as (pre & kc & post & Hs & <- & Hpre).
  assert (ki_index kc < ki_index k') as Hlt.
  { assert (ki_index kc <= ki_index k); [|lia]. apply (keys_sorted_last l).
    - rewrite <-He. apply Hok.
    - rewrite <-He, Hs. apply elem_mid. }
  apply wp_bind, (wp_of_ptr _ _ (ki_addr kc)); [done|]. apply wp_bind, wp_deref; [done| |].
  { rewrite El, Hs. set_solver. }
  rewrite (proj2 (Z.ltb_lt _ _) Hlt). unfold set_current_ptr. wp_steps.
  apply (wp_make_current s0 (ks_keyl s ++ ext') k' []); [done..|]. intros Hok'. wp_steps.
  split; [|done]. split; [done|]. right.
  exists (ext' ++ [k']), s0, (ks_keyl s ++ ext'), k'.
  split_and!; [done..|lia|by rewrite last_snoc|done|done].
Qed.
Lemma wp_above_current s index (Q : bool → keystore → list ks_event → Prop) :
  ks_ok s → ks_keyl s ≠ [] →
  (current_below s index → Q true s []) → (¬ current_below s index → Q false s []) →
  wp (above_current index) Q s.
Proof.
  intros Hok Hne HT HF. unfold above_current. wp_steps.
  destruct (ks_current s) as [c|] eqn:Hc; [|by apply ks_current_none in Hc].
  destruct (ks_current_split s c Hok Hc) as (pre & kc & post & He & <- & Hpre).
  assert (kc ∈ ks_keyl s) as Hkc by (rewrite He; apply elem_mid).
  apply wp_bind, wp_deref; [done..|]. wp_steps.
  destruct (Z.ltb_spec (ki_index kc) index); [by apply HT; exists kc|].
  apply HF. intros (k & Hk & Ha & Hlt). rewrite Hc in Ha. injection Ha as Ha.
  assert (kc = k) as <- by by apply (ks_addr_inj s). lia.
Qed.

Lemma wp_get_media_key s index ksz :
  ks_ok s → index < 2 ^ 32 →
  wp (keystore_get_media_key index ksz) (λ r s' e,
    (ks_ok s' ∧ get_media_post s index ksz r s') ∧ e = [KsLockRead; KsLockRel]) s.
Proof.
  intros Hok Hi. apply wp_locked. wp_steps.
  destruct (List.find _ _) as [k|] eqn:Hf.
  - apply find_Some_split in Hf as [Hix%Z.eqb_eq (pre & post & He)%list_elem_of_split].
    apply wp_bind, wp_above_current; [done|by rewrite He; destruct pre|..]; intros Hb.
    + unfold set_current_ptr. wp_steps. apply (wp_make_current s pre k post); [done..|].
      intros Hok'. wp_steps. split; [|done]. split; [done|]. left.
      exists pre, k, post. split_and!; [done..|auto].
    + wp_steps. split; [|done]. split; [done|]. left.
      exists pre, k, post. split_and!; [done..|auto].
  - assert (∀ k, k ∈ ks_keyl s → ki_index k ≠ index) as Hne.
    { intros k Hk. pose proof (find_None_all _ _ Hf k Hk) as Hn. by apply Z.eqb_neq in Hn. }
    destruct (ks_hash_forward s) eqn:Hh; cycle 1.
    { wp_steps. split; [|done]. split; [done|]. right. by rewrite Hh. }
    destruct (last (ks_keyl s)) as [k|] eqn:Hl; wp_steps; cycle 1.
    { split; [|done]. split; [by destruct Hok|]. right. by rewrite Hh, Hl. }
    apply last_Some in Hl as Hl'. destruct Hl' as [l He].
    eapply wp_mono; [apply (wp_hash_forward_key _ l k)|]; [by destruct Hok|done|done|].
    cbn beta. intros r s' e ((Hs' & Hp) & Hch). split; [|by rewrite Hch]. split; [done|].
    right. rewrite Hh in Hp. by rewrite Hh, Hl.
Qed.

(** *** [keystore_rotate_by_time] *)

(** [k] is the last key of [l] with a time stamp up to [ts]. *)
Definition latest_spec (ts : Z) (l : list keyinfo) (o : option keyinfo) : Prop :=
  match o with
  | None => ∀ k, k ∈ l → ts < ki_update_ts k
  | Some k => ∃ l1 l2, l = l1 ++ k :: l2 ∧ ki_update_ts k <= ts ∧
      ∀ k', k' ∈ l2 → ts < ki_update_ts k'
  end.

Lemma latest_until_spec ts l : latest_spec ts l (latest_until ts l).
Proof.
  unfold latest_until. induction l as [|k l IH] using rev_ind; [by intros k ?%elem_of_nil|].
  rewrite foldl_app. cbn. destruct (Z.leb_spec (ki_update_ts k) ts) as [Hk|Hk].
  - exists l, []. split_and!; [done..|]. by intros k' ?%elem_of_nil.
  - destruct (foldl _ _ _) as [k0|]; cbn in *.
    + destruct IH as (l1 & l2 & -> & H1 & H2). exists l1, (l2 ++ [k]).
      split_and!; [by rewrite <-app_assoc|done|]. set_solver.
    + set_solver.
Qed.

(** Either no key from the current one on is old enough, and nothing changes;
    or [k] is the last such key, it is current afterwards, and the result tells
    whether keys remain above it. *)
Definition rotate_by_time_post (s : keystore) (ts : Z) (more : bool) (s' : keystore) : Prop :=
  (s' = s ∧ more = true ∧ ∀ pre kc post, ks_keyl s = pre ++ kc :: post →
     ks_current s = Some (ki_addr kc) → ∀ k, k ∈ kc :: post → ts < ki_update_ts k) ∨
  (∃ pre kc mid k post, ks_keyl s = (pre ++ mid) ++ k :: post ∧
     head (mid ++ k :: post) = Some kc ∧ ks_current s = Some (ki_addr kc) ∧
     ki_update_ts k <= ts ∧ (∀ k', k' ∈ post → ts < ki_update_ts k') ∧
     more = bool_decide (is_Some (head post)) ∧
     s' = if decide (k = kc) then s else moved_to s (pre ++ mid) k post).

Lemma ks_split_unique s pre k post pre' k' post' :
  ks_ok s → ks_keyl s = pre ++ k :: post → ks_keyl s = pre' ++ k' :: post' →
  ki_addr k = ki_addr k' → k :: post = k' :: post'.
Proof.
  intros [[_ Ha _] _ _ _ _] He He' Hk. rewrite <-(from_addr_mid pre k post), Hk.
  - by rewrite <-He, He', from_addr_mid by (rewrite <-He'; done).
  - by rewrite <-He.
Qed.

Lemma wp_rotate_by_time s ts :
  ks_ok s →
  wp (keystore_rotate_by_time ts) (λ more s' e,
    (ks_ok s' ∧ rotate_by_time_post s ts more s') ∧ lock_trace e) s.
Proof.
  intros Hok. unfold keystore_rotate_by_time. apply wp_bind, wp_locked. wp_steps.
  destruct (ks_current s) as [c|] eqn:Hc; cycle 1.
  { wp_steps. rewrite (ks_current_none s) by done. cbn [latest_until foldl]. wp_steps.
    cbn [negb Z.eqb]. wp_steps. split; [split; [done|]|].
    - left. split_and!; [done..|]. intros pre kc post He. rewrite ks_current_none in He by done.
      by destruct pre.
    - right. exists KsLockWrite, []. auto. }
  destruct (ks_current_split s c Hok Hc) as (pre & kc & post & He & <- & Hpre).
  assert (kc ∈ ks_keyl s) as Hkc by (rewrite He; apply elem_mid).
  apply wp_bind, wp_deref; [done..|]. wp_steps. rewrite He, from_addr_mid.
  2:{ rewrite <-He. apply Hok. }
  pose proof (latest_until_spec ts (kc :: post)) as Hl.
  destruct (latest_until ts (kc :: post)) as [k|]; cycle 1.
  { wp_steps. cbn [negb Z.eqb]. wp_steps. split; [split; [done|]|].
    - left. split_and!; [done..|]. intros pre' kc' post' He' Hc' k Hk. apply Hl.
      rewrite Hc in Hc'. injection Hc' as Hc'.
      by rewrite (ks_split_unique s pre kc post pre' kc' post').
    - right. exists KsLockWrite, []. auto. }
  destruct Hl as (mid & post' & Hmid & Hts & Hpost').
  assert (ks_keyl s = (pre ++ mid) ++ k :: post') as Hs by (by rewrite He, Hmid, <-app_assoc).
  assert (ks_current s = Some (ki_addr k) ↔ k = kc) as Hck.
  { rewrite Hc. split; [|by intros ->]. intros [= Ha]. apply (ks_addr_inj s); [done| |done..].
    rewrite Hs. apply elem_mid. }
  assert (∀ s', s' = (if decide (k = kc) then s else moved_to s (pre ++ mid) k post') →
    rotate_by_time_post s ts (bool_decide (is_Some (head post'))) s') as Hpost.
  { intros s' ->. right. exists pre, kc, mid, k, post'. split_and!; [done| |done..].
    by rewrite <-Hmid. }
  rewrite <-Hc. clear Hc. destruct (decide (k = kc)) as [Hkk|Hkk].
  - rewrite (bool_decide_true (ks_current s = _)) by tauto. wp_steps. cbn [negb Z.eqb]. wp_steps.
    apply (wp_deref_next s (pre ++ mid) k post'); [done..|]. wp_steps.
    split; [split; [done|by apply Hpost]|]. right. exists KsLockWrite, []. auto.
  - rewrite (bool_decide_false (ks_current s = _)) by tauto. unfold set_current_ptr. wp_steps.
    apply (wp_make_current s (pre ++ mid) k post'); [done..|]. intros Hok'.
    cbn [negb Z.eqb]. apply wp_bind, wp_notify. wp_steps. cbn [negb Z.eqb]. wp_steps.
    apply (wp_deref_next _ (keep_last (pre ++ mid)) k post'); [done..|]. wp_steps.
    split; [split; [done|by apply Hpost]|]. right. exists KsLockWrite, (ks_listeners s).
    rewrite ?app_nil_r. auto.
Qed.
End Ops.
