(* ===== verification/KeystoreProps.v ===== *)
(** * What the key store promises

    The theorems about whole runs of the store: the invariant and memory
    safety, the lock discipline, the agreement of sender and receiver on the
    media keys, the erasure of old keys, and the failures that modelling
    showed. *)

From S2P Require Import Prelude LibRe Keystore KeystoreSpec KeystoreOps.

(** One call on the store, with arguments of the right types. *)
Definition ks_step `{LibRe, KsEnv} (s s' : keystore) : Prop :=
  ∃ op e, op_valid op ∧ ks_exec op s = Some ((), s', e).

(** The index of the current key. *)
Definition current_index (s : keystore) : option Z :=
  c ← ks_current s; k ← key_at c (ks_keyl s); Some (ki_index k).

Section Runs.
Context `{LibReSpec, !KsEnv, HLen : !KsEnvLen _}.

Lemma ks_ok_tick s : ks_ok s → ks_ok {| s with ks_tick := S (ks_tick s) |}.
Proof.
  intros Hok. eapply ks_ok_ticked; [|exact Hok]. eexists _, _. split; [|done]. lia.
Qed.

(** A body under a lock that keeps the invariant and calls nobody. *)
Ltac locked_body :=
  apply (wp_locked_ok _ _ (λ _ s', ks_ok s')); [by auto|]; wp_steps.

Lemma wp_get_current_session_key s ksz :
  ks_ok s →
  wp (keystore_get_current_session_key ksz) (λ _ s' e, ks_ok s' ∧ lock_trace e) s.
Proof.
  intros Hok. locked_body. destruct (ks_current s) as [c|] eqn:Hc.
  - destruct (ks_current_split s c Hok Hc) as (pre & k & post & He & <- & _).
    apply wp_bind, wp_deref; [done|rewrite He; apply elem_mid|]. wp_steps.
    split; [done|apply changes_nil].
  - wp_steps. split; [done|apply changes_nil].
Qed.

Lemma wp_get_next_session_key s ksz :
  ks_ok s →
  wp (keystore_get_next_session_key ksz) (λ _ s' e, ks_ok s' ∧ lock_trace e) s.
Proof.
  intros Hok. locked_body. destruct (ks_current s) as [c|] eqn:Hc.
  - destruct (ks_current_split s c Hok Hc) as (pre & k & post & He & <- & _).
    apply wp_bind, (wp_deref_next s pre k post); [done..|].
    destruct (head post); wp_steps; (split; [done|apply changes_nil]).
  - wp_steps. split; [done|apply changes_nil].
Qed.

Lemma wp_get_current s :
  ks_ok s →
  wp keystore_get_current (λ r s' e, s' = s ∧ e = [] ∧
    r = match current_index s with
        | Some i => (0, Some (i, ks_update_ts s))
        | None => (ENOENT, None)
        end) s.
Proof.
  intros Hok. unfold keystore_get_current, current_index. wp_steps.
  destruct (ks_current s) as [c|] eqn:Hc; [|by wp_steps].
  destruct (ks_current_split s c Hok Hc) as (pre & k & post & He & <- & _).
  assert (k ∈ ks_keyl s) as Hk by (rewrite He; apply elem_mid).
  apply wp_bind, wp_deref; [done..|]. wp_steps. cbn.
  by rewrite (key_at_elem _ k) by (done || apply Hok).
Qed.

(** The other operations that leave the keys alone. *)
Lemma wp_simple_ops op s :
  ks_ok s →
  match op with
  | OpReset | OpResetKeys | OpSetSalt _ | OpGetMaxKey | OpGenerateIv _ _ _
  | OpSetDecryptAttempted | OpSetDecryptSuccessful | OpHasKeys
  | OpGetDecryptStates | OpAddListener _ _ | OpRemoveListener _ => True
  | _ => False
  end →
  wp (ks_exec op) (λ _ s' e, ks_ok s' ∧ lock_trace e) s.
Proof.
  intros Hok Hop. pose proof Hok as [Hl Hc Hi Hh Hsalt].
  destruct op; try done; cbn [ks_exec]; apply wp_udone.
  - locked_body. split; [|apply changes_nil]. split; cbn; try done. by split; constructor.
  - locked_body. split; [|apply changes_nil]. split; cbn; try done. by split; constructor.
  - destruct salt as [salt|]; cbn [keystore_set_salt]; unfold zalloc, next_tick; wp_steps.
    2:{ split; [done|by left]. }
    destruct (mem_zalloc_ok _); wp_steps; [|split; [by apply ks_ok_tick|by left]].
    apply (wp_locked_ok _ _ (λ _ s', ks_ok s')); [auto|].
    unfold jiffies, next_tick, set_update_ts. wp_steps. split; [|apply changes_nil].
    split; cbn; try done. eapply keyl_ok_tick; [|exact Hl]. lia.
  - unfold keystore_get_max_key. wp_steps. split; [done|by left].
  - unfold keystore_generate_iv, next_tick. wp_steps. destruct (HKDF _ _ _ _ _).
    wp_steps. split; [by apply ks_ok_tick|by left].
  - locked_body. split; [split; cbn; done|apply changes_nil].
  - locked_body. split; [split; cbn; done|apply changes_nil].
  - locked_body. split; [done|apply changes_nil].
  - locked_body. split; [done|apply changes_nil].
  - destruct changedh; cbn [keystore_add_listener]; unfold zalloc, next_tick; wp_steps.
    2:{ split; [done|by left]. }
    apply ks_ok_tick in Hok as [? ? ? ? ?].
    destruct (mem_zalloc_ok _); wp_steps; [|split; [done|by left]].
    locked_body. split; [split; cbn; done|apply changes_nil].
  - locked_body. split; [split; cbn; done|apply changes_nil].
Qed.

(** Every operation, from every store that satisfies the invariant. *)
Lemma wp_ks_exec op s :
  ks_ok s → op_valid op → (op = OpRotate → ¬ rotate_wraps s) →
  wp (ks_exec op) (λ _ s' e, ks_ok s' ∧ lock_trace e) s.
Proof.
  intros Hok Hop Hw. destruct op; try by apply wp_simple_ops.
  all: cbn [ks_exec op_valid] in *; apply wp_udone.
  - eapply wp_mono; [by apply wp_set_session_key|]. cbn beta. tauto.
  - destruct Hop. eapply wp_mono; [by apply wp_set_fresh|]. cbn beta. tauto.
  - by apply wp_get_current_session_key.
  - by apply wp_get_next_session_key.
  - eapply wp_mono; [by apply wp_rotate, Hw|]. cbn beta. tauto.
  - eapply wp_mono; [by apply wp_get_current|]. cbn beta.
    intros r s' e (-> & -> & _). split; [done|by left].
  - eapply wp_mono; [by apply wp_set_current|]. cbn beta. tauto.
  - eapply wp_mono; [apply wp_get_media_key; [done|lia]|]. cbn beta.
    intros r s' e ([Hs' _] & ->). split; [done|]. right. exists KsLockRead, []. auto.
  - eapply wp_mono; [by apply wp_rotate_by_time|]. cbn beta. tauto.
Qed.

(** Rotating at the last index follows [current->le.next], which is [NULL]. *)
Lemma rotate_wraps_undef s : ks_ok s → rotate_wraps s → keystore_rotate s = None.
Proof.
  unfold rotate_wraps. destruct (last (ks_keyl s)) as [k|] eqn:Hl; [|done].
  apply last_Some in Hl as [l He]. intros Hok (Hf & Hc & Hi).
  assert (key_at (ki_addr k) (ks_keyl s) = Some k) as Hk.
  { apply key_at_elem; [apply Hok|]. rewrite He. apply elem_mid. }
  assert (next_of (ki_addr k) (ks_keyl s) = None) as Hn.
  { rewrite He, next_of_mid; [done|]. rewrite <-He. apply Hok. }
  assert (keystore_hash_to_key 0 s = Some (0, s, [])) as Hh.
  { unfold keystore_hash_to_key, keystore_get_latest, mbind, MU_bind, uget.
    rewrite He, last_snoc, Hi. change (Z.to_nat (0 - UINT32_MAX)) with 0%nat.
    unfold hash_to_key_loop, deref, mbind, MU_bind, uget. rewrite Hk. cbn. by rewrite Hi. }
  unfold keystore_rotate, rotate_to_next, locked, deref_next, deref, mbind, MU_bind,
    uget, uemit. rewrite Hc, Hk. cbn -[uwrap]. rewrite Hn, Hf, Hk. cbn -[uwrap keystore_hash_to_key]. rewrite Hi.
  change (u32 (UINT32_MAX + 1)) with 0. cbn -[keystore_hash_to_key].
  rewrite Hh. cbn. rewrite Hk. cbn. by rewrite Hn.
Qed.
Lemma ks_alloc_ok n lock_err hf s0 : keystore_alloc n lock_err hf = (0, Some s0) → ks_ok s0.
Proof.
  unfold keystore_alloc. destruct (negb (mem_zalloc_ok n)); [done|].
  destruct (negb (lock_err =? 0)); [by intros [= -> ?]|].
  intros [= <-]. split; cbn; try done. by split; constructor.
Qed.

Lemma ks_exec_some op s s' e :
  ks_ok s → op_valid op → ks_exec op s = Some ((), s', e) → ks_ok s' ∧ lock_trace e.
Proof.
  intros Hok Hop He.
  assert (op = OpRotate → ¬ rotate_wraps s) as Hw.
  { intros -> Hw. cbn in He. unfold udone, mbind, MU_bind in He.
    by rewrite rotate_wraps_undef in He. }
  pose proof (wp_ks_exec op s Hok Hop Hw) as Hwp. unfold wp in Hwp. rewrite He in Hwp. done.
Qed.

Lemma ks_step_ok s s' : ks_ok s → ks_step s s' → ks_ok s'.
Proof.
  intros Hok (op & e & Hop & He).
  by eapply ks_exec_some.
Qed.

(** C4: every store that can be reached from a fresh one by calls of any of
    the operations, in any order, satisfies the invariant [ks_ok]: the keys are
    sorted by index without duplicates, the current key is a live key of the
    list and at most one older key is kept, the flags agree with the list; and
    every further call has a defined behaviour (no [NULL] or dangling pointer,
    every loop ends), unless it rotates past the last 32-bit index. *)
Theorem keystore_reachable_ok n lock_err hf s0 s op :
  keystore_alloc n lock_err hf = (0, Some s0) → rtc ks_step s0 s →
  ks_ok s ∧
  (op_valid op → (op = OpRotate → ¬ rotate_wraps s) → is_Some (ks_exec op s)).
Proof.
  intros Ha Hr. assert (ks_ok s) as Hok.
  { eapply (rtc_invariant ks_step ks_ok); [exact ks_step_ok|done|by eapply ks_alloc_ok]. }
  split; [done|]. intros Hop Hw.
  destruct (wp_defined _ _ _ (wp_ks_exec op s Hok Hop Hw)) as ([] & s' & e & He & _).
  by eexists.
Qed.

(** [keystore_rotate] has an undefined behaviour exactly when the store
    hashes forward and the current key is the last one with index
    [0xffffffff]: [index + 1] wraps to 0, nothing is derived, and
    [current->le.next->data] is read through a [NULL] pointer. *)
Theorem keystore_rotate_undefined s :
  ks_ok s → (keystore_rotate s = None ↔ rotate_wraps s).
Proof.
  intros Hok. split; [|by apply rotate_wraps_undef].
  intros He. destruct (decide (rotate_wraps s)) as [|Hw]; [done|].
  destruct (wp_defined _ _ _ (wp_rotate s Hok Hw)) as (? & ? & ? & ? & _). congruence.
Qed.

(** the lock is held once and released once by every call that takes it,
    on every path, the listeners are called in between and nowhere else, and no
    call returns with the lock held. *)
Theorem keystore_locks_balanced op s s' e :
  ks_ok s → op_valid op → ks_exec op s = Some ((), s', e) → lock_trace e.
Proof.
  intros Hok Hop He.
  by eapply ks_exec_some.
Qed.
End Runs.

(** ** Order and erasure of keys *)

Section Keys.
Context `{LibReSpec, !KsEnv, HLen : !KsEnvLen _}.

Lemma current_index_of s k :
  ks_ok s → k ∈ ks_keyl s → ks_current s = Some (ki_addr k) →
  current_index s = Some (ki_index k).
Proof.
  intros Hok Hk Hc. unfold current_index. rewrite Hc. cbn.
  by rewrite (key_at_elem _ k) by (done || apply Hok).
Qed.

Lemma current_index_moved s pre k post :
  ks_ok (moved_to s pre k post) →
  current_index (moved_to s pre k post) = Some (ki_index k).
Proof. intros Hok. apply current_index_of; [done| |done]. cbn. apply elem_mid. Qed.

(** The key behind [current_index]. *)
Lemma current_index_inv s i :
  ks_ok s → current_index s = Some i →
  ∃ pre k post, ks_keyl s = pre ++ k :: post ∧ ks_current s = Some (ki_addr k) ∧ ki_index k = i.
Proof.
  intros Hok Hi. unfold current_index in Hi.
  destruct (ks_current s) as [c|] eqn:Hc; [|done]. cbn in Hi.
  destruct (ks_current_split s c Hok Hc) as (pre & k & post & He & <- & _).
  rewrite (key_at_elem _ k) in Hi; [|apply Hok|rewrite He; apply elem_mid].
  cbn in Hi. injection Hi as Hi. eauto 10.
Qed.

Lemma keys_sorted_le pre k mid k' post :
  keys_sorted (pre ++ k :: mid ++ k' :: post) → ki_index k < ki_index k'.
Proof.
  intros (_ & [_ Hf]%StronglySorted_inv & _)%keys_sorted_app.
  rewrite Forall_forall in Hf. apply Hf, elem_mid.
Qed.

Lemma current_index_key s i k :
  ks_ok s → current_index s = Some i → k ∈ ks_keyl s → ks_current s = Some (ki_addr k) →
  ki_index k = i.
Proof. intros Hok Hi Hk Hc. rewrite (current_index_of s k) in Hi by done. congruence. Qed.

Lemma current_index_extended s s' ext i :
  ks_ok s → ks_ok s' → extended s s' ext → current_index s = Some i →
  current_index s' = Some i.
Proof.
  intros Hok Hok' Hext (pre & k & post & He & Hc & <-)%current_index_inv; [|done].
  apply extended_current in Hext as [Ec El]. apply current_index_of; [done| |congruence].
  rewrite El, He. rewrite <-app_assoc. apply elem_mid.
Qed.

Lemma rotate_monotone s i :
  ks_ok s → current_index s = Some i → ¬ rotate_wraps s →
  wp keystore_rotate (λ err s' _,
    ∃ i', current_index s' = Some i' ∧ (if err =? 0 then i < i' else i = i')) s.
Proof.
  intros Hok Hi Hw. eapply wp_mono; [by apply wp_rotate|]. cbn beta.
  intros err s' e ((Hok' & Hp) & _).
  destruct Hp as [(-> & -> & _)|[(pre & kc & k & post & He & Hc & -> & ->)|
    (pre & kc & He & Hc & _ & [(Herr & _ & ext & Hext)|(-> & k & s0 & [Hk _] & Hext & ->)])]].
  - exists i. by split.
  - exists (ki_index k). rewrite current_index_moved by done. split; [done|]. cbn.
    rewrite <-(current_index_key s i kc); [|done..|rewrite He; apply elem_mid|done].
    apply (keys_sorted_le pre kc [] k post). cbn. rewrite <-He. apply Hok.
  - exists i. split; [by apply (current_index_extended s s' ext)|].
    destruct (Z.eqb_spec err 0); [done|]. done.
  - exists (ki_index k). rewrite current_index_moved by done. split; [done|]. cbn.
    rewrite <-(current_index_key s i kc); [lia|done..|rewrite He; apply elem_mid|done].
Qed.

Lemma rotate_by_time_monotone s i ts :
  ks_ok s → current_index s = Some i →
  wp (keystore_rotate_by_time ts) (λ _ s' _, ∃ i', current_index s' = Some i' ∧ i <= i') s.
Proof.
  intros Hok Hi. eapply wp_mono; [by apply wp_rotate_by_time|]. cbn beta.
  intros more s' e ((Hok' & Hp) & _).
  destruct Hp as [(-> & _)|(pre & kc & mid & k & post & He & Hhd & Hc & _ & _ & _ & ->)].
  { exists i. split; [done|lia]. }
  case_decide as Hk; [exists i; split; [done|lia]|].
  exists (ki_index k). rewrite current_index_moved by done. split; [done|].
  destruct mid as [|kc' mid]; cbn in Hhd; injection Hhd as ->; [done|].
  rewrite <-app_assoc in He. cbn in He.
  rewrite <-(current_index_key s i kc); [|done..|rewrite He; apply elem_mid|done].
  apply Z.lt_le_incl, (keys_sorted_le pre kc mid k post). rewrite <-He. apply Hok.
Qed.

Lemma get_media_monotone s i index ksz :
  ks_ok s → current_index s = Some i → index < 2 ^ 32 →
  wp (keystore_get_media_key index ksz) (λ r s' _,
    ∃ i', current_index s' = Some i' ∧ i <= i' ∧ (r.1 = 0 → i' = Z.max i index)) s.
Proof.
  intros Hok Hi Hix. eapply wp_mono; [by apply wp_get_media_key|]. cbn beta.
  intros r s' e ((Hok' & Hp) & _).
  assert (r = (ENOENT, replicate ksz 0) → current_index s' = Some i →
    ∃ i', current_index s' = Some i' ∧ i <= i' ∧ (r.1 = 0 → i' = Z.max i index)) as Hno.
  { intros -> Hs'. exists i. split_and!; [done|lia|done]. }
  destruct Hp as [(pre & k & post & He & Hk & -> & [[Hb ->]|[Hb ->]])|[_ Hp]].
  - exists (ki_index k). rewrite current_index_moved by done. destruct Hb as (kc & Hkc & Hc & Hlt).
    rewrite (current_index_key s i kc) in Hlt by done. split_and!; [done|lia|cbn; lia].
  - exists i. destruct (current_index_inv s i Hok Hi) as (pre' & kc & post' & He' & Hc & Hkc).
    assert (index <= i); [|split_and!; [done|lia|cbn; lia]].
    destruct (Z.le_gt_cases index i); [done|]. exfalso. apply Hb.
    exists kc. split_and!; [rewrite He'; apply elem_mid|done|lia].
  - destruct (ks_hash_forward s); [|destruct Hp as [-> ->]; by apply Hno].
    destruct (last (ks_keyl s)) as [k|] eqn:Hl; [|destruct Hp as [-> ->]; by apply Hno].
    apply last_Some in Hl as [l He].
    unfold hash_forward_post in Hp. case_decide as Hw; [|destruct Hp as [-> ->]; by apply Hno].
    destruct Hp as [(-> & _ & ext & Hext)|(ext & s0 & pre & k' & Hext & _ & He0 & Hk' & _ & -> & ->)].
    + apply Hno; [done|]. eapply current_index_extended; [|exact Hok'|exact Hext|exact Hi].
      by destruct Hok.
    + exists (ki_index k'). rewrite current_index_moved by done.
      destruct (current_index_inv s i Hok Hi) as (pre' & kc & post' & He' & Hc & Hkc).
      assert (ki_index kc <= ki_index k).
      { apply (keys_sorted_last l); [rewrite <-He; apply Hok|].
        rewrite <-He, He'. apply elem_mid. }
      split_and!; [done|lia|cbn; lia].
Qed.

(** [keystore_rotate] moves to a key with a higher index, or reports an
    error and leaves the current key; [keystore_rotate_by_time] and
    [keystore_get_media_key] never move back, and a successful look-up of
    [index] leaves the greater of the two indices current. *)
Theorem keystore_current_monotone s i :
  ks_ok s → current_index s = Some i →
  (¬ rotate_wraps s → wp keystore_rotate (λ err s' _,
     ∃ i', current_index s' = Some i' ∧ (if err =? 0 then i < i' else i = i')) s) ∧
  (∀ ts, wp (keystore_rotate_by_time ts) (λ _ s' _,
     ∃ i', current_index s' = Some i' ∧ i <= i') s) ∧
  (∀ index ksz, index < 2 ^ 32 → wp (keystore_get_media_key index ksz) (λ r s' _,
     ∃ i', current_index s' = Some i' ∧ i <= i' ∧ (r.1 = 0 → i' = Z.max i index)) s).
Proof.
  intros Hok Hi. split_and!; intros.
  - by apply rotate_monotone.
  - by apply rotate_by_time_monotone.
  - by apply get_media_monotone.
Qed.

(** an erased key is gone for good: for an index below every key the
    store holds, [keystore_get_media_key] returns [ENOENT] and a zeroed buffer,
    and [keystore_set_session_key] refuses to bring a key back; neither changes
    the list of keys. *)
Theorem keystore_erased_stay_erased s index ksz key :
  ks_ok s → ks_keyl s ≠ [] → key ≠ [] → 0 <= index < 2 ^ 32 →
  (∀ k, k ∈ ks_keyl s → index < ki_index k) →
  wp (keystore_get_media_key index ksz) (λ r s' _,
    r = (ENOENT, replicate ksz 0) ∧ ks_keyl s' = ks_keyl s) s ∧
  wp (keystore_set_session_key index key) (λ err s' _, err = EALREADY ∧ s' = s) s.
Proof.
  intros Hok Hne Hkey Hi Hlow. split.
  - eapply wp_mono; [apply wp_get_media_key; [done|lia]|]. cbn beta.
    intros r s' e ((_ & Hp) & _).
    destruct Hp as [(pre & k & post & He & Hk & _)|[_ Hp]].
    + specialize (Hlow k). rewrite He in Hlow. specialize (Hlow (elem_mid _ _ _)). lia.
    + destruct (ks_hash_forward s); [|by destruct Hp as [-> ->]].
      destruct (last (ks_keyl s)) as [k|] eqn:Hl; [|by destruct Hp as [-> ->]].
      apply last_Some in Hl as [l He]. unfold hash_forward_post in Hp.
      rewrite decide_False in Hp; [by destruct Hp as [-> ->]|].
      specialize (Hlow k). rewrite He in Hlow. specialize (Hlow (elem_mid _ _ _)). lia.
  - eapply wp_mono; [by apply wp_set_session_key|]. cbn beta.
    intros err s' e ((_ & Hp) & _).
    destruct Hp as [[-> _]|[(k & _ & _ & _ & H1)|[(k & Hk & Hix & _)|(_ & Hcur & _)]]].
    + done.
    + done.
    + specialize (Hlow k Hk). lia.
    + exfalso. destruct (ks_current s) as [c|] eqn:Hc.
      * destruct (ks_current_split s c Hok Hc) as (pre & k & post & He & <- & _).
        assert (k ∈ ks_keyl s) as Hk by (rewrite He; apply elem_mid).
        specialize (Hcur k Hk eq_refl). specialize (Hlow k Hk). lia.
      * by apply Hne, ks_current_none.
Qed.
End Keys.

(** ** Failures *)

Section Failures.
Context `{LibReSpec, !KsEnv, HLen : !KsEnvLen _}.

(** A look-up takes the lock for reading and yet writes: when the key it
    finds is newer than the current one, [keystore_get_media_key] moves
    [current] and frees keys, with no event but the read lock and its release
    (the listeners are not told either). *)
Theorem keystore_lookup_writes_under_read_lock s pre k post ksz :
  ks_ok s → ks_keyl s = pre ++ k :: post → current_below s (ki_index k) →
  wp (keystore_get_media_key (ki_index k) ksz) (λ r s' e,
    r.1 = 0 ∧ e = [KsLockRead; KsLockRel] ∧
    ks_current s' = Some (ki_addr k) ∧ ks_current s' ≠ ks_current s ∧
    ks_keyl s' = keep_last pre ++ k :: post) s.
Proof.
  intros Hok He Hb.
  assert (k ∈ ks_keyl s) as Hk by (rewrite He; apply elem_mid).
  destruct (keyl_ok_elem _ _ _ (ok_keyl _ Hok) Hk) as (_ & Hi & _).
  eapply wp_mono; [apply wp_get_media_key; [done|lia]|]. cbn beta.
  intros r s' e ((_ & Hp) & ->).
  destruct Hp as [(pre' & k' & post' & He' & Hk' & -> & Hs')|[Hno _]]; [|by edestruct Hno].
  destruct Hs' as [[_ ->]|[[] _]]; [|done]. cbn.
  assert (k' = k) as ->.
  { apply (keys_sorted_inj (ks_keyl s)); [apply Hok| |done|done]. rewrite He'. apply elem_mid. }
  assert (pre' = pre ∧ post' = post) as [-> ->].
  { pose proof (ks_split_unique s _ _ _ _ _ _ Hok He' He eq_refl) as Heq.
    injection Heq as ->. rewrite He' in He. by apply app_inv_tail in He. }
  split_and!; [done..| |done]. destruct Hb as (kc & Hkc & -> & Hlt).
  intros [= Ha]. rewrite (ks_addr_inj s k kc) in Hlt by done. lia.
Qed.
End Failures.

(** What [HKDF] of [hkdf.c] returns.  Its callers take a non-zero value
    for success; it is non-zero when all six OpenSSL calls succeed, and also
    when the context cannot be allocated: then the buffer is left as it was. *)
Theorem hkdf_openssl_result c out :
  (HKDF_openssl c out).1 ≠ 0 ↔
  kc_ctx_new c = false ∨
  (kc_ctx_new c = true ∧ 0 < kc_derive_init c ∧ 0 < kc_set_md c ∧ 0 < kc_set_salt c ∧
   0 < kc_set_key c ∧ 0 < kc_add_info c ∧ 0 < kc_derive c ∧
   HKDF_openssl c out = (1, kc_out c)).
Proof.
  unfold HKDF_openssl. destruct (kc_ctx_new c); cbn [negb]; [|by split; [left|]].
  repeat (match goal with |- context [?x <=? 0] => destruct (Z.leb_spec x 0) end;
          [cbn; split; [done|intros [?|?]; [done|lia]]|]).
  cbn. split; [|done]. intros _. right. by split_and!.
Qed.

(** With that [HKDF], a key that cannot be derived for want of memory is
    not reported: [keystore_derive_session_key] returns success and a session
    key of zeros. *)
Theorem derive_session_key_zeros `{LibRe, !KsEnv} calls prev s :
  (∀ n out secret salt info, HKDF n out secret salt info = HKDF_openssl (calls n) out) →
  (∀ n, kc_ctx_new (calls n) = false) → mem_zalloc_ok (ks_tick s) = true →
  wp (keystore_derive_session_key prev) (λ r _ _,
    r.1 = 0 ∧ ∃ k, r.2 = Some k ∧ ki_skey k = replicate E2EE_SESSIONKEY_SIZE 0) s.
Proof.
  intros HK Hc Hm. unfold keystore_derive_session_key, zalloc, hkdf, jiffies, next_tick,
    set_update_ts. wp_steps. cbn [ks_tick]. rewrite Hm. wp_steps. cbn [ks_tick].
  rewrite HK. unfold HKDF_openssl. rewrite Hc. cbn [negb]. wp_steps. cbn.
  split; [done|]. by eexists.
Qed.

(** ** Sender and receiver agree on the media keys

    With a cryptographic library that works ([KsEnvOk]), the keys of the store
    are a function of the session key, the salt and the index: the receiver
    that was told one session key follows the sender through its rotations. *)

#[global] Instance KsEnvOk_len E kdf : KsEnvOk E kdf → KsEnvLen E.
Proof. intros Hok. split. intros. rewrite HKDF_ok. cbn. by rewrite kdf_length. Qed.

Section Agree.
Context `{LibReSpec} {E : KsEnv} {kdf} `{HOk : !KsEnvOk E kdf}.

(** The media key of a session key, the session key that follows it, and the
    one [n] indices later. *)
Definition media_key (salt skey : list Z) : list Z :=
  kdf E2EE_SESSIONKEY_SIZE skey salt MKEY_INFO.
Definition next_key (salt skey : list Z) : list Z :=
  kdf E2EE_SESSIONKEY_SIZE skey salt SKEY_INFO.
Definition chain_key (salt : list Z) (n : nat) (skey : list Z) : list Z :=
  Nat.iter n (next_key salt) skey.

(** A session key as the store keeps it: cut or padded to its size. *)
Definition pad (key : list Z) : list Z :=
  copy_into E2EE_SESSIONKEY_SIZE E2EE_SESSIONKEY_SIZE key.

Lemma env_works : ¬ env_fails.
Proof.
  intros [(n & Hn)|(n & out & se & sa & i & Hn)].
  - by rewrite mem_ok in Hn.
  - by rewrite HKDF_ok in Hn.
Qed.

Lemma hashed_kdf salt k k' :
  hashed salt k k' → ki_index k' = ki_index k + 1 ∧
  ki_skey k' = next_key salt (ki_skey k) ∧ ki_mkey k' = media_key salt (ki_skey k').
Proof.
  intros (Hi & (n & _ & Hs) & (m & _ & Hm)). rewrite HKDF_ok in Hs, Hm.
  split_and!; [done|symmetry; exact Hs|symmetry; exact Hm].
Qed.

Lemma media_derived_kdf salt k :
  media_derived salt k → ki_mkey k = media_key salt (ki_skey k).
Proof.
  intros (n & out & Hlen & _ & Hm). rewrite HKDF_ok, Hlen in Hm. by cbn in Hm.
Qed.

Lemma hash_chain_kdf salt k ext k' :
  hash_chain salt k ext → last ext = Some k' →
  ki_skey k' = chain_key salt (length ext) (ki_skey k) ∧
  ki_mkey k' = media_key salt (ki_skey k').
Proof.
  induction 1 as [|k k1 l Hk Hl IH]; [done|]. apply hashed_kdf in Hk as (_ & Hs & Hm).
  destruct l as [|k2 l].
  - cbn. intros [= <-]. done.
  - change (last (k1 :: k2 :: l)) with (last (k2 :: l)). intros Hlast.
    destruct (IH Hlast) as [IH1 IH2]. split; [|done]. rewrite IH1, Hs.
    unfold chain_key. cbn [length]. by rewrite (Nat.iter_succ_r (S (length l))).
Qed.

Lemma copy_key_all l : length l = E2EE_SESSIONKEY_SIZE →
  copy_into E2EE_SESSIONKEY_SIZE (key_size E2EE_SESSIONKEY_SIZE) l = l.
Proof.
  intros Hl. unfold copy_into, key_size. rewrite Nat.min_id, take_ge by lia.
  rewrite Hl, Nat.sub_diag. cbn. by rewrite app_nil_r.
Qed.

(** Looking up a key that is there. *)
Lemma wp_get_present s k :
  ks_ok s → k ∈ ks_keyl s →
  wp (keystore_get_media_key (ki_index k) E2EE_SESSIONKEY_SIZE)
     (λ r s' _, r = (0, ki_mkey k)) s.
Proof.
  intros Hok Hk. destruct (keyl_ok_elem _ _ _ (ok_keyl _ Hok) Hk) as (_ & Hi & _ & Hm).
  eapply wp_mono; [apply wp_get_media_key; [done|lia]|]. cbn beta.
  intros r s' e ((_ & Hp) & _).
  destruct Hp as [(pre & k' & post & He & Hk' & -> & _)|[Hno _]]; [|by edestruct Hno].
  assert (k' = k) as ->; [|by rewrite copy_key_all].
  apply (keys_sorted_inj (ks_keyl s)); [apply Hok| |done|done]. rewrite He. apply elem_mid.
Qed.

(** insert and look up: a session key the store accepts for [index] is
    the one whose media key it returns for [index] afterwards, whatever keys it
    held before. *)
Theorem keystore_set_get s index key :
  ks_ok s → 0 <= index < 2 ^ 32 →
  wp (err ← keystore_set_session_key index key;
      r ← keystore_get_media_key index E2EE_SESSIONKEY_SIZE;
      mret (err, r))
     (λ a _ _, a.1 = 0 → a.2 = (0, media_key (ks_salt_bytes s) (pad key))) s.
Proof.
  intros Hok Hi. apply wp_bind. eapply wp_mono; [by apply wp_set_session_key|]. cbn beta.
  intros err s' e ((Hok' & Hp) & _). apply wp_bind.
  destruct (decide (err = 0)) as [->|Herr]; cycle 1.
  { eapply wp_mono; [apply wp_get_media_key; [done|lia]|]. intros. by wp_steps. }
  assert (∃ k, k ∈ ks_keyl s' ∧ ki_index k = index ∧
    ki_mkey k = media_key (ks_salt_bytes s) (pad key)) as (k & Hk & <- & Hm).
  { destruct Hp as [(_ & ? & _)|[(? & _ & _ & _ & ? & _)|[(k & Hk & Hix & Hp)|(_ & _ & Hp)]]].
    - done.
    - done.
    - cbn zeta in Hp. case_decide; [by destruct Hp|].
      destruct Hp as (k' & _ & Hix' & Hk' & Hsk & Hmd & _). exists k'.
      split_and!; [done|congruence|]. rewrite (media_derived_kdf _ _ (Hmd eq_refl)).
      by rewrite Hsk.
    - destruct Hp as [[? _]|(_ & k & Hix & Hsk & Hmd & Hl & _)]; [done|].
      exists k. split_and!; [rewrite Hl; by left|done|].
      rewrite (media_derived_kdf _ _ Hmd). by rewrite Hsk. }
  eapply wp_mono; [by apply wp_get_present|]. cbn beta. intros r s2 e2 ->. wp_steps.
  intros _. cbn. by rewrite Hm.
Qed.

(** *** Following the chain *)

(** The last key is current, and is [i] steps down the chain of [key]. *)
Definition chain_at (salt : list Z) (index : Z) (key : list Z) (i : nat) (s : keystore) : Prop :=
  ks_ok s ∧ ks_hash_forward s = true ∧ ks_salt_bytes s = salt ∧
  ∃ l k, ks_keyl s = l ++ [k] ∧ ks_current s = Some (ki_addr k) ∧
    ki_index k = index + Z.of_nat i ∧
    ki_skey k = chain_key salt i (pad key) ∧ ki_mkey k = media_key salt (ki_skey k).

Lemma same_setup_salt s s' : same_setup s s' → ks_salt_bytes s' = ks_salt_bytes s.
Proof. unfold ks_salt_bytes. by intros (-> & -> & _). Qed.

Lemma wp_set_first s index key :
  ks_ok s → ks_keyl s = [] → ks_hash_forward s = true → key ≠ [] → 0 <= index < 2 ^ 32 →
  wp (keystore_set_session_key index key)
     (λ err s' _, err = 0 ∧ chain_at (ks_salt_bytes s) index key 0 s') s.
Proof.
  intros Hok Hnil Hf Hkey Hi. eapply wp_mono; [by apply wp_set_session_key|]. cbn beta.
  intros err s' e ((Hok' & Hp) & _). unfold set_session_post in Hp.
  rewrite Hnil in Hp.
  destruct Hp as [[? _]|[(? & []%elem_of_nil & _)|[(? & []%elem_of_nil & _)|(_ & _ & Hp)]]];
    [done|].
  destruct Hp as [(_ & []%env_works & _)|(-> & k & Hix & Hsk & Hmd & Hl & Hc & Hset)].
  rewrite Hnil in Hl. apply Permutation_singleton_r in Hl.
  split; [done|]. split_and!; [done| |by apply same_setup_salt|].
  { destruct Hset as (_ & _ & ->). done. }
  exists [], k. split_and!; [done| |lia|done|by apply media_derived_kdf].
  rewrite Hc. destruct (ks_current s) as [c|] eqn:Hcur; [|done].
  destruct (ks_current_split s c Hok Hcur) as (pre & ? & ? & He & _).
  rewrite Hnil in He. by destruct pre.
Qed.

Lemma wp_rotate_chain salt index key i s :
  chain_at salt index key i s → index + Z.of_nat i < UINT32_MAX →
  wp keystore_rotate (λ err s' _, err = 0 ∧ chain_at salt index key (S i) s') s.
Proof.
  intros (Hok & Hf & <- & l & k & He & Hc & Hix & Hsk & Hmk) Hi.
  eapply wp_mono; [apply wp_rotate; [done|]|].
  { unfold rotate_wraps. rewrite He, last_snoc. lia. }
  cbn beta. intros err s' e ((Hok' & Hp) & _).
  destruct Hp as [(_ & _ & [Hnil|?])|[(pre & kc & k1 & post & He' & Hc' & _)|
    (pre & kc & He' & Hc' & _ & [(_ & []%env_works & _)|(-> & k1 & s0 & Hh & Hext & ->)])]].
  - rewrite Hnil in He. by destruct l.
  - congruence.
  - exfalso. rewrite Hc' in Hc. injection Hc as Hc.
    by pose proof (ks_split_unique s _ _ _ _ _ _ Hok He' He Hc).
  - rewrite He' in He. apply app_inj_tail in He as [-> ->].
    apply hashed_kdf in Hh as (Hi1 & Hs1 & Hm1).
    split; [done|]. split_and!; [done| | |].
    + by destruct Hext as (? & ? & _ & ->).
    + by destruct Hext as (? & ? & _ & ->).
    + exists (keep_last [k]), k1. split_and!; [done|done|lia| |done].
      rewrite Hs1, Hsk. done.
Qed.

(** The sender: [n] rotations. *)
Fixpoint rotate_n (n : nat) : KSM () :=
  match n with
  | O => mret ()
  | S n => _ ← keystore_rotate; rotate_n n
  end.

Lemma wp_rotate_n salt index key n i s :
  chain_at salt index key i s → index + Z.of_nat (i + n) <= UINT32_MAX →
  wp (rotate_n n) (λ _ s' _, chain_at salt index key (i + n) s') s.
Proof.
  revert i s. induction n as [|n IH]; intros i s Hs Hi; cbn [rotate_n].
  - wp_steps. by rewrite Nat.add_0_r.
  - apply wp_bind. eapply wp_mono; [apply (wp_rotate_chain salt index key i); [done|lia]|].
    cbn beta. intros err s1 e [_ Hs1]. eapply wp_mono; [apply (IH (S i)); [done|lia]|].
    cbn beta. intros _ s2 _ Hs2. by replace (i + S n)%nat with (S i + n)%nat by lia.
Qed.

(** The receiver: hashing forward from the first key. *)
Lemma wp_get_chain salt index key n s :
  chain_at salt index key 0 s → 0 <= index → index + NUM_KEYS <= UINT32_MAX →
  Z.of_nat n < NUM_KEYS →
  wp (keystore_get_media_key (index + Z.of_nat n) E2EE_SESSIONKEY_SIZE)
     (λ r _ _, r = (0, media_key salt (chain_key salt n (pad key)))) s.
Proof.
  intros (Hok & Hf & <- & l & k & He & Hc & Hix & Hsk & Hmk) H0 Hmax Hn.
  unfold UINT32_MAX, NUM_KEYS in *.
  destruct (decide (n = 0%nat)) as [->|Hn0].
  { rewrite <-Hix. eapply wp_mono; [apply wp_get_present; [done|rewrite He; apply elem_mid]|].
    cbn beta. intros r s' _ ->. by rewrite Hmk, Hsk. }
  eapply wp_mono; [apply wp_get_media_key; [done|lia]|]. cbn beta.
  intros r s' e ((_ & Hp) & _).
  destruct Hp as [(pre & k' & post & He' & Hk' & _)|[_ Hp]].
  { assert (ki_index k' <= ki_index k); [|lia]. apply (keys_sorted_last l).
    - rewrite <-He. apply Hok.
    - rewrite <-He, He'. apply elem_mid. }
  rewrite Hf, He, last_snoc in Hp. unfold hash_forward_post, NUM_KEYS in Hp.
  rewrite decide_True in Hp by (rewrite uwrap_small by lia; lia).
  destruct Hp as [(_ & []%env_works & _)|(ext & s0 & pre & k' & Hext & Hch & He0 & Hk' & Hlast & _ & ->)].
  pose proof (hash_chain_last _ _ _ Hch) as Hlen. rewrite Hlast in Hlen.
  destruct (hash_chain_kdf _ _ _ _ Hch Hlast) as [Hs1 Hm1].
  rewrite copy_key_all by (rewrite Hm1; apply kdf_length).
  rewrite Hm1, Hs1, Hsk. by replace (length ext) with n by lia.
Qed.

(** C7: agreement on the keys.  A sender and a receiver with empty stores and
    the same salt are given the same session key for [index].  The sender
    rotates [n < 16] times without telling anyone; when it encrypts with key
    [index + n], and the receiver asks its own store for that index, both get
    the same media key: [n] steps of the hash chain, then the media
    derivation. *)
Theorem keystore_sender_receiver_agree s r index key n :
  ks_ok s → ks_ok r → ks_keyl s = [] → ks_keyl r = [] →
  ks_hash_forward s = true → ks_hash_forward r = true →
  ks_salt_bytes s = ks_salt_bytes r → key ≠ [] →
  0 <= index → index + NUM_KEYS <= UINT32_MAX → Z.of_nat n < NUM_KEYS →
  let mkey := media_key (ks_salt_bytes s) (chain_key (ks_salt_bytes s) n (pad key)) in
  wp (_ ← keystore_set_session_key index key;
      rotate_n n;;
      keystore_get_media_key (index + Z.of_nat n) E2EE_SESSIONKEY_SIZE)
     (λ a _ _, a = (0, mkey)) s ∧
  wp (_ ← keystore_set_session_key index key;
      keystore_get_media_key (index + Z.of_nat n) E2EE_SESSIONKEY_SIZE)
     (λ a _ _, a = (0, mkey)) r.
Proof.
  intros Hs Hr Ns Nr Fs Fr Hsalt Hkey H0 Hmax Hn mkey. unfold UINT32_MAX, NUM_KEYS in *. split.
  - apply wp_bind. eapply wp_mono; [apply wp_set_first; [done..|lia]|]. cbn beta.
    intros err s1 e [_ Hc]. apply wp_bind.
    eapply wp_mono; [apply (wp_rotate_n (ks_salt_bytes s) index key n 0); [done|unfold UINT32_MAX; lia]|].
    cbn beta. intros _ s2 e2 (Hok & _ & _ & l & k & He & _ & Hix & Hsk & Hmk).
    cbn in Hix. rewrite <-Hix.
    eapply wp_mono; [apply wp_get_present; [done|rewrite He; apply elem_mid]|].
    cbn beta. intros a s3 _ ->. by rewrite Hmk, Hsk.
  - apply wp_bind. eapply wp_mono; [apply wp_set_first; [done..|lia]|]. cbn beta.
    intros err r1 e [_ Hc]. unfold mkey. rewrite Hsalt.
    eapply wp_mono; [apply (wp_get_chain (ks_salt_bytes r) index key n); [done|lia|..]|].
    + unfold UINT32_MAX, NUM_KEYS. lia.
    + unfold NUM_KEYS. lia.
    + done.
Qed.
End Agree.
