(* ===== verification/KeystoreWitness.v ===== *)
(** * The key store at concrete inputs

    A concrete environment (an arithmetic stand-in for HKDF, an allocator that
    succeeds, a clock that ticks) and the theorems about the store applied to
    stores built by calls of its operations. *)

From S2P Require Import Prelude LibRe Keystore KeystoreSpec KeystoreOps KeystoreProps.

Module KsRef.

Definition mix (l : list Z) : Z := foldl (λ a b, (a * 31 + b + 7) mod 65521) 1 l.

Definition kdf (n : nat) (secret salt info : list Z) : list Z :=
  (λ i, (mix (secret ++ salt ++ info ++ [Z.of_nat i])) mod 256) <$> seq 0 n.

#[export] Instance env : KsEnv := {|
  tmr_jiffies := λ n, 1000 + Z.of_nat n;
  mem_zalloc_ok := λ _, true;
  HKDF := λ _ out secret salt info, (1, kdf (length out) secret salt info);
|}.

#[export] Instance env_ok : KsEnvOk env kdf.
Proof.
  split; [done| |done]. intros. unfold kdf. by rewrite length_fmap, length_seq.
Qed.

(** The OpenSSL build when no context can be allocated. *)
Definition no_ctx : kdf_calls := {|
  kc_ctx_new := false; kc_derive_init := 0; kc_set_md := 0; kc_set_salt := 0;
  kc_set_key := 0; kc_add_info := 0; kc_derive := 0; kc_out := [] |}.

Definition env_no_ctx : KsEnv := {|
  tmr_jiffies := λ n, Z.of_nat n;
  mem_zalloc_ok := λ _, true;
  HKDF := λ _ out _ _ _, HKDF_openssl no_ctx out;
|}.

End KsRef.

Import LibReRef KsRef.

Definition fresh (hf : bool) : keystore :=
  default {| ks_keyl := []; ks_current := None; ks_init := false; ks_salt := None;
             ks_slen := 0; ks_hash_forward := hf; ks_has_keys := false;
             ks_decrypt_successful := false; ks_decrypt_attempted := false;
             ks_err_reported := false; ks_listeners := []; ks_update_ts := 0; ks_tick := 0 |}
    (keystore_alloc 0 0 hf).2.

(** The store after a list of calls. *)
Fixpoint run_ops (ops : list ks_op) (s : keystore) : keystore :=
  match ops with
  | [] => s
  | op :: ops =>
    match ks_exec op s with
    | Some (_, s, _) => run_ops ops s
    | None => s
    end
  end.

Definition sender : keystore :=
  run_ops [OpSetSalt (Some [1; 2; 3]); OpSetSessionKey 7 [10; 20; 30]; OpRotate; OpRotate]
    (fresh true).
Definition receiver : keystore :=
  run_ops [OpSetSalt (Some [1; 2; 3]); OpSetSessionKey 7 [10; 20; 30];
           OpSetSessionKey 9 [4; 4]] (fresh true).
Definition last_index : keystore :=
  run_ops [OpSetSessionKey UINT32_MAX [10; 20; 30]] (fresh true).

(** A concrete list of calls has valid arguments. *)
Ltac valid_ops :=
  repeat (apply Forall_cons; split; [cbn; unfold UINT32_MAX; first [exact I | lia]|]);
  apply Forall_nil; exact I.

Lemma run_ops_steps ops s :
  Forall op_valid ops → rtc ks_step s (run_ops ops s).
Proof.
  intros Hops. revert s. induction Hops as [|op ops Hop Hops IH]; intros s; cbn; [done|].
  destruct (ks_exec op s) as [[[[] s'] e]|] eqn:He; [|done].
  eapply rtc_l; [|apply IH]. by exists op, e.
Qed.

Lemma fresh_ok hf : ks_ok (fresh hf).
Proof. apply (ks_alloc_ok 0 0 hf). reflexivity. Qed.

Lemma run_ops_ok ops hf : Forall op_valid ops → ks_ok (run_ops ops (fresh hf)).
Proof.
  intros Hops. eapply (rtc_invariant ks_step ks_ok);
    [exact ks_step_ok|by apply run_ops_steps|apply fresh_ok].
Qed.

Lemma sender_ok : ks_ok sender.
Proof. apply run_ops_ok. valid_ops. Qed.
Lemma receiver_ok : ks_ok receiver.
Proof. apply run_ops_ok. valid_ops. Qed.
Lemma last_index_ok : ks_ok last_index.
Proof. apply run_ops_ok. valid_ops. Qed.

Example sender_keys : ki_index <$> ks_keyl sender = [8; 9].
Proof. vm_compute. reflexivity. Qed.
Example receiver_keys : ki_index <$> ks_keyl receiver = [7; 9].
Proof. vm_compute. reflexivity. Qed.

Lemma sender_index : current_index sender = Some 9.
Proof. vm_compute. reflexivity. Qed.
Lemma sender_no_wrap : ¬ rotate_wraps sender.
Proof. vm_compute. intuition congruence. Qed.
Lemma sender_above_7 k : k ∈ ks_keyl sender → 7 < ki_index k.
Proof.
  assert (Forall (λ k, 7 < ki_index k) (ks_keyl sender)) as Hall.
  { vm_compute. repeat constructor. }
  rewrite Forall_forall in Hall. apply Hall.
Qed.
Lemma sender_keyl : ks_keyl sender ≠ [].
Proof. vm_compute. discriminate. Qed.

Lemma keystore_reachable_ok_witness :
  ks_ok sender ∧ is_Some (ks_exec OpRotate sender).
Proof.
  destruct (keystore_reachable_ok 0 0 true (fresh true) sender OpRotate) as [Hok Hdef].
  - reflexivity.
  - apply run_ops_steps. valid_ops.
  - split; [exact Hok|]. apply Hdef; [exact I|]. intros _. exact sender_no_wrap.
Defined.

Lemma keystore_rotate_undefined_witness : keystore_rotate last_index = None.
Proof.
  apply (keystore_rotate_undefined last_index); [exact last_index_ok|].
  vm_compute. repeat split.
Defined.

Lemma keystore_locks_balanced_witness :
  ∃ s' e, ks_exec OpRotate sender = Some ((), s', e) ∧ lock_trace e.
Proof.
  destruct (ks_exec OpRotate sender) as [[[[] s'] e]|] eqn:He.
  - exists s', e. split; [reflexivity|].
    exact (keystore_locks_balanced OpRotate sender s' e sender_ok I He).
  - vm_compute in He. discriminate He.
Defined.

Lemma keystore_current_monotone_witness :
  wp keystore_rotate (λ err s' _,
    ∃ i', current_index s' = Some i' ∧ (if err =? 0 then 9 < i' else 9 = i')) sender.
Proof.
  exact (proj1 (keystore_current_monotone sender 9 sender_ok sender_index) sender_no_wrap).
Defined.

Lemma keystore_erased_stay_erased_witness :
  wp (keystore_get_media_key 7 32) (λ r s' _,
    r = (ENOENT, replicate 32 0) ∧ ks_keyl s' = ks_keyl sender) sender.
Proof.
  refine (proj1 (keystore_erased_stay_erased sender 7 32 [1] sender_ok sender_keyl _ _
    sender_above_7)); [discriminate|lia].
Defined.

Lemma keystore_set_get_witness :
  wp (err ← keystore_set_session_key 11 [5; 6];
      r ← keystore_get_media_key 11 E2EE_SESSIONKEY_SIZE;
      mret (err, r))
     (λ a _ _, a.1 = 0 → a.2 = (0, media_key (kdf := kdf) (ks_salt_bytes sender) (pad [5; 6])))
     sender.
Proof. apply (keystore_set_get sender 11 [5; 6]); [exact sender_ok|lia]. Defined.

Lemma keystore_sender_receiver_agree_witness :
  let mkey := media_key (kdf := kdf) [] (chain_key (kdf := kdf) [] 3 (pad [10; 20; 30])) in
  wp (_ ← keystore_set_session_key 7 [10; 20; 30];
      rotate_n 3;;
      keystore_get_media_key 10 E2EE_SESSIONKEY_SIZE)
     (λ a _ _, a = (0, mkey)) (fresh true) ∧
  wp (_ ← keystore_set_session_key 7 [10; 20; 30];
      keystore_get_media_key 10 E2EE_SESSIONKEY_SIZE)
     (λ a _ _, a = (0, mkey)) (fresh true).
Proof.
  apply (keystore_sender_receiver_agree (fresh true) (fresh true) 7 [10; 20; 30] 3);
    [apply fresh_ok|apply fresh_ok|reflexivity..|discriminate|lia| |reflexivity].
  unfold NUM_KEYS, UINT32_MAX. lia.
Defined.

Lemma keystore_lookup_writes_under_read_lock_witness :
  match ks_keyl receiver with
  | [k7; k9] =>
    wp (keystore_get_media_key 9 32) (λ r s' e,
      r.1 = 0 ∧ e = [KsLockRead; KsLockRel] ∧
      ks_current s' = Some (ki_addr k9) ∧ ks_current s' ≠ ks_current receiver ∧
      ks_keyl s' = [k7; k9]) receiver
  | _ => False
  end.
Proof.
  destruct (ks_keyl receiver) as [|k7 [|k9 [|]]] eqn:He; try (vm_compute in He; discriminate He).
  assert (9 = ki_index k9) as H9 by (vm_compute in He; injection He as <- <-; reflexivity).
  rewrite H9.
  apply (keystore_lookup_writes_under_read_lock receiver [k7] k9 []);
    [exact receiver_ok|exact He|].
  exists k7. rewrite He. split; [by left|].
  vm_compute in He. injection He as <- <-. vm_compute. split; reflexivity.
Defined.

Lemma derive_session_key_zeros_witness :
  wp (keystore_derive_session_key (H0 := env_no_ctx)
       {| ki_addr := 0; ki_skey := [1; 2]; ki_mkey := []; ki_index := 1; ki_update_ts := 0 |})
     (λ r _ _, r.1 = 0 ∧ ∃ k, r.2 = Some k ∧ ki_skey k = replicate E2EE_SESSIONKEY_SIZE 0)
     (fresh true).
Proof. by apply (derive_session_key_zeros (λ _, no_ctx)). Defined.
