(* ===== verification/Icall.v ===== *)
(** * The call interface ([include/avs_icall.h])

    What the call objects ([ecall], [ccall]) share: types of calls and
    conversations, the metrics of a call, the reasons for which it ends and the
    callbacks an application installs. *)

From S2P Require Import Prelude.

(** Error codes of [errno.h] and of [include/avs_base.h]. *)
Definition EINTR : Z := 4.
Definition EACCES : Z := 13.
Definition ENOTCONN : Z := 107.
Definition ETIMEDOUT : Z := 110.
Definition EDATACHANNEL : Z := -1003.
Definition ENOONEJOINED : Z := -1004.
Definition EEVERYONELEFT : Z := -1005.
Definition EDURATION : Z := -1006.

Definition ICALL_REASON_NORMAL : Z := 0.
Definition ICALL_REASON_ERROR : Z := 1.
Definition ICALL_REASON_TIMEOUT : Z := 2.
Definition ICALL_REASON_STILL_ONGOING : Z := 7.
Definition ICALL_REASON_REJECTED : Z := 10.
Definition ICALL_REASON_OUTDATED_CLIENT : Z := 11.
Definition ICALL_REASON_NOONE_JOINED : Z := 12.
Definition ICALL_REASON_EVERYONE_LEFT : Z := 13.
Definition ICALL_REASON_AUTH_FAILED : Z := 14.
Definition ICALL_REASON_AUTH_FAILED_START : Z := 15.
Definition ICALL_REASON_DURATION : Z := 16.

Definition ICALL_NETWORK_PROBLEM : Z := 200.
Definition ICALL_RECONNECTING : Z := 201.

Definition MAX_TURN_SERVERS : nat := 16.

(** [enum icall_call_type] *)
Inductive icall_call_type :=
| ICALL_CALL_TYPE_NORMAL
| ICALL_CALL_TYPE_VIDEO
| ICALL_CALL_TYPE_FORCED_AUDIO.

(** [enum icall_conv_type] *)
Inductive icall_conv_type :=
| ICALL_CONV_TYPE_ONEONONE
| ICALL_CONV_TYPE_GROUP
| ICALL_CONV_TYPE_CONFERENCE
| ICALL_CONV_TYPE_CONFERENCE_MLS.

#[export] Instance icall_call_type_eq_dec : EqDecision icall_call_type.
Proof. solve_decision. Defined.
#[export] Instance icall_conv_type_eq_dec : EqDecision icall_conv_type.
Proof. solve_decision. Defined.

(** [struct icall_metrics] *)
Record icall_metrics := {
  mt_conv_type : icall_conv_type;
  mt_duration_call : Z;
  mt_duration_active : Z;
  mt_participants_max : Z;
  mt_participants_audio_max : Z;
  mt_participants_video_max : Z;
  mt_participants_video_req : Z;
  mt_packetloss_last : Z;
  mt_packetloss_max : Z;
  mt_rtt_last : Z;
  mt_rtt_max : Z;
  mt_reconnects_attempted : Z;
  mt_reconnects_successful : Z;
  mt_initiator : bool;
}.

(** [struct stats_report], as far as it is used. *)
Record stats_report := {
  st_rtt : Z;
  st_lost_tx : Z;
  st_lost_rx : Z;
}.

(** The callbacks of [struct icall] that an [ecall] or an [egcall] uses; a set of
    them says which are not [NULL]. *)
Inductive icall_cb :=
| CB_SEND | CB_START | CB_ANSWER | CB_MEDIA_ESTAB | CB_AUDIO_ESTAB | CB_DATACHAN_ESTAB
| CB_MEDIA_STOPPED | CB_LEAVE | CB_CLOSE | CB_VSTATE_CHANGED | CB_ACBR_CHANGED
| CB_MUTED_CHANGED | CB_QUALITY | CB_NORELAY | CB_REQ_CLIENTS | CB_AUDIO_LEVEL
| CB_GROUP_CHANGED | CB_METRICS.

#[export] Instance icall_cb_eq_dec : EqDecision icall_cb.
Proof. solve_decision. Defined.
