(* ===== verification/CcallKeys.v ===== *)
(** * The keys of a conference call ([src/ccall/ccall.c])

    The part of [struct ccall] that ties the member list to the key store: the
    key generator makes session keys, sends them to the members that wait for
    one and rotates them; the others ask for keys and accept them from the key
    generator only.  In an MLS call the keys come from outside, and the call
    follows the oldest epoch of its members.

    - [ccall] is the part of the struct these functions use.  Its member list
      and its key store are the objects of [UserList] and [Keystore].
    - The messages handed to the transport, the timers and the synchronisation of
      properties are events, among those of the two objects.
    - [cc_tick] counts the calls to the environment: [ck_mem_ok] says which
      allocations of a message succeed, [randombytes_buf] is the [n]-th output of
      the random generator; [ecall_props_set_local] and [ecall_sync_props] are the
      results of these two functions of [ecall.c].  The clock is that of the key store.
    - The result of [sendh] is ignored by all callers and not modelled. *)

From S2P Require Import Prelude LibRe EconnMsg UserHash AudioLevel UserList Keystore.

(** [enum ccall_state] *)
Inductive ccall_state :=
| CCALL_STATE_NONE
| CCALL_STATE_IDLE
| CCALL_STATE_INCOMING
| CCALL_STATE_CONNSENT
| CCALL_STATE_SETUPRECV
| CCALL_STATE_CONNECTING
| CCALL_STATE_CONNECTED
| CCALL_STATE_ACTIVE
| CCALL_STATE_TERMINATING
| CCALL_STATE_WAITCONFIG
| CCALL_STATE_WAITCONFIG_OUTGOING
| CCALL_STATE_WAITNETWORK.

#[export] Instance ccall_state_eq_dec : EqDecision ccall_state.
Proof. solve_decision. Defined.

Definition CCALL_SEND_CHECK_TIMEOUT : Z := 60000.
Definition CCALL_ROTATE_KEY_TIMEOUT : Z := 30000.
Definition CCALL_ROTATE_KEY_FIRST_TIMEOUT : Z := 5000.
Definition CCALL_ROTATE_MLS_TIMEOUT : Z := 5000.
Definition CCALL_MLS_KEY_AGE : Z := 60000.

(** The part of [struct ccall] that concerns keys. *)
Record ccall := {
  cc_userl : userlist;
  cc_keystore : keystore;
  cc_state : ccall_state;
  cc_is_mls_call : bool;
  cc_someone_left : bool;
  cc_became_kg : bool;
  cc_request_key : bool;
  cc_convid_hash : option string;
  cc_confpart_data : list Z;
  cc_epoch_start_ts : Z;
  cc_ecall : option nat;  (* the address of the [ecall] *)
  cc_tick : nat;
}.

(** The timers of the struct. *)
Inductive ccall_timer :=
| TmrConnect | TmrSendCheck | TmrOngoing | TmrRotateKey | TmrRotateMls | TmrRing
| TmrSftReject | TmrVstate | TmrDecryptCheck | TmrKeepalive | TmrAlone
| TmrDuration | TmrTerm.

#[export] Instance ccall_timer_eq_dec : EqDecision ccall_timer.
Proof. solve_decision. Defined.

Inductive ck_event :=
| CkUl (e : ul_event)
| CkKs (e : ks_event)
| CkConfKey (targets : list icall_client) (keyl : list econn_key_info)
| CkConfKeyReq (targets : list icall_client)
| CkTmrStart (t : ccall_timer) (delay : Z)
| CkTmrCancel (t : ccall_timer)
| CkSyncProps (epochid : Z).

Abbreviation CKM := (MU ccall ck_event).

Class CkEnv := {
  (** Does the [n]-th allocation of a message succeed? *)
  ck_mem_ok : nat → bool;
  (** The [n]-th call to [randombytes_buf] for a session key. *)
  randombytes_buf : nat → list Z;
  (** The results of [ecall_props_set_local] and [ecall_sync_props]. *)
  ecall_props_set_local : nat → Z;
  ecall_sync_props : nat → Z;
}.

Section Ops.
Context `{LibRe, Sodium, UlEnv, KsEnv, CkEnv}.

(** An operation of the member list, and one of the key store. *)
Definition on_ul {A} (m : ULM A) : CKM A := λ c,
  match m (cc_userl c) with
  | None => None
  | Some (a, l, e) => Some (a, {| c with cc_userl := l |}, CkUl <$> e)
  end.

Definition on_store {A} (m : KSM A) : CKM A := λ c,
  match m (cc_keystore c) with
  | None => None
  | Some (a, k, e) => Some (a, {| c with cc_keystore := k |}, CkKs <$> e)
  end.

Definition ck_next : CKM nat :=
  c ← uget;
  umodify (λ c, {| c with cc_tick := S (cc_tick c) |});;
  mret (cc_tick c).

(** [alloc_message] for a [CONF_KEY] message, as far as its keys are
    concerned: the error code and the keys. *)
Definition alloc_confkey (resp : bool) : CKM (Z * list econn_key_info) :=
  c ← uget;
  n ← ck_next;
  if negb (ck_mem_ok n) then mret (ENOMEM, []) else
  if cc_is_mls_call c then mret (EINVAL, []) else
  if negb resp then mret (0, []) else
  n ← ck_next;
  if negb (ck_mem_ok n) then mret (ENOMEM, []) else
  '(err, idx, data) ← on_store (keystore_get_current_session_key E2EE_SESSIONKEY_SIZE);
  if negb (err =? 0) then mret (err, []) else
  let key0 := {| ek_idx := default 0 idx; ek_data := data |} in
  n ← ck_next;
  if negb (ck_mem_ok n) then mret (ENOMEM, []) else
  '(err, idx, data) ← on_store (keystore_get_next_session_key E2EE_SESSIONKEY_SIZE);
  if negb (err =? 0) then mret (0, [key0])
  else mret (0, [key0; {| ek_idx := default 0 idx; ek_data := data |}]).

(** [ccall_send_msg] with a [CONF_KEY] message: nothing is sent when the message
    cannot be made. *)
Definition send_confkey (resp : bool) (targets : list icall_client) : CKM Z :=
  '(err, keyl) ← alloc_confkey resp;
  if negb (err =? 0) then mret err
  else uemit [if resp then CkConfKey targets keyl else CkConfKeyReq targets];; mret 0.

(** [ccall_send_keys] *)
Definition ccall_send_keys (send_to_all : bool) : CKM Z :=
  c ← uget;
  if cc_is_mls_call c then mret 0 else
  '(err, targets) ←
    (if userlist_is_keygenerator_me (cc_userl c)
        && bool_decide (cc_state c = CCALL_STATE_ACTIVE)
     then on_ul (userlist_get_key_targets send_to_all)
     else mret (0, []));
  if negb (err =? 0) then mret err else
  (if (0 <? length targets)%nat then _ ← send_confkey true targets; mret () else mret ());;
  mret 0.

(** The index of a new session key: the next multiple of [0x10000], one further
    when this client has just become key generator. *)
Definition new_key_index (is_first became_kg : bool) (max_key : Z) : Z :=
  if is_first then 0 else
  let idx := u32 (Z.lor max_key 0xFFFF + 1) in
  if became_kg then u32 (idx + 0x10000) else idx.

(** [ccall_generate_session_key]; [hashed_key] is the buffer on the stack of
    [keystore_set_fresh_session_key]. *)
Definition ccall_generate_session_key (hashed_key : list Z) (is_first : bool) : CKM Z :=
  c ← uget;
  max_key ← on_store keystore_get_max_key;
  let idx := new_key_index is_first (cc_became_kg c) max_key in
  umodify (λ c, {| c with cc_became_kg := false |});;
  n ← ck_next;
  err ← on_store (keystore_set_fresh_session_key hashed_key idx (randombytes_buf n)
                    (cc_confpart_data c));
  if negb (err =? 0) then mret err else ccall_send_keys true.

(** [ccall_rotate_key_timeout] *)
Definition ccall_rotate_key_timeout (hashed_key : list Z) : CKM () :=
  c ← uget;
  if bool_decide (cc_state c = CCALL_STATE_ACTIVE)
     && (userlist_is_keygenerator_me (cc_userl c) && negb (cc_is_mls_call c)) then
    _ ← on_store keystore_rotate;
    (if cc_someone_left c && negb (cc_is_mls_call c) then
       _ ← ccall_generate_session_key hashed_key false;
       umodify (λ c, {| c with cc_someone_left := false |})
     else mret ());;
    uemit [CkTmrStart TmrRotateKey CCALL_ROTATE_KEY_TIMEOUT]
  else mret ().

(** [ccall_rotate_mls_timeout]; a failed [assert] ends the program. *)
Definition ccall_rotate_mls_timeout : CKM () :=
  c ← uget;
  if bool_decide (cc_state c = CCALL_STATE_ACTIVE) && cc_is_mls_call c then
    now ← on_store jiffies;
    if negb (CCALL_MLS_KEY_AGE <? now) then undef else
    again ← on_store (keystore_rotate_by_time (now - CCALL_MLS_KEY_AGE));
    uemit (if again : bool then [CkTmrStart TmrRotateMls CCALL_ROTATE_MLS_TIMEOUT] else [])
  else mret ().

(** The member or client at an address of the list. *)
Definition user_at (l : userlist) (a : nat) : option userinfo :=
  List.find (λ u, (ui_addr u =? a)%nat) (ul_self l :: ul_users l).

(** [ccall_request_keys] *)
Definition ccall_request_keys : CKM Z :=
  c ← uget;
  match userlist_get_keygenerator (cc_userl c) with
  | None => mret 0
  | Some a =>
    if cc_is_mls_call c then mret 0 else
    if userlist_is_keygenerator_me (cc_userl c) then mret 0 else
    kg ← of_ptr (user_at (cc_userl c) a);
    match ui_userid_real kg, ui_clientid_real kg with
    | Some _, Some _ =>
      n ← ck_next;
      if negb (ck_mem_ok n) then mret ENOMEM else
      _ ← send_confkey false [icall_client_alloc (ui_userid_real kg) (ui_clientid_real kg)];
      mret 0
    | _, _ => mret 0
    end
  end.

(** The loop over the keys of a [CONF_KEY] response. *)
Fixpoint set_keys (keyl : list (option econn_key_info)) : CKM () :=
  match keyl with
  | [] => mret ()
  | None :: keyl => set_keys keyl
  | Some k :: keyl =>
    err ← on_store (keystore_set_session_key (ek_idx k) (ek_data k));
    if negb (err =? 0) && negb (err =? EALREADY) then mret () else set_keys keyl
  end.

(** The [CONF_KEY] case of [ccall_msg_recv]: a response. *)
Definition recv_confkey_resp (userid_sender clientid_sender : option string)
    (keyl : list (option econn_key_info)) : CKM () :=
  c ← uget;
  match userlist_get_keygenerator (cc_userl c) with
  | None => umodify (λ c, {| c with cc_request_key := true |})
  | Some a =>
    if userlist_is_keygenerator_me (cc_userl c) then mret () else
    kg ← of_ptr (user_at (cc_userl c) a);
    match ui_userid_real kg, ui_clientid_real kg with
    | Some _, Some _ =>
      if negb (strcaseeq userid_sender (ui_userid_real kg))
         || negb (strcaseeq clientid_sender (ui_clientid_real kg)) then mret () else
      _ ← on_store (keystore_set_salt (bytes_of_string <$> cc_convid_hash c));
      set_keys keyl
    | _, _ => mret ()
    end
  end.

(** The [CONF_KEY] case of [ccall_msg_recv]: a request. *)
Definition recv_confkey_req (userid_sender clientid_sender : option string) : CKM () :=
  c ← uget;
  if negb (userlist_is_keygenerator_me (cc_userl c)) then mret () else
  match userlist_find_by_real (cc_userl c) userid_sender clientid_sender with
  | None => mret ()
  | Some u =>
    if negb (ui_incall_now u) then mret () else
    on_ul (set_user (ui_addr u) (λ u, {| u with ui_needs_key := true |}));;
    _ ← ccall_send_keys false;
    mret ()
  end.

(** [userlist_kg_change_handler] *)
Definition userlist_kg_change_handler (hashed_key : list Z) (is_me is_first : bool) : CKM () :=
  c ← uget;
  if is_me then
    (if negb (cc_is_mls_call c) then
       '(err, _) ← on_store keystore_get_current;
       (if err =? ENOENT then _ ← ccall_generate_session_key hashed_key true; mret ()
        else umodify (λ c, {| c with cc_became_kg := true |}));;
       uemit [CkTmrStart TmrRotateKey CCALL_ROTATE_KEY_FIRST_TIMEOUT]
     else mret ());;
    uemit [CkTmrStart TmrSendCheck (if is_first then CCALL_SEND_CHECK_TIMEOUT else 0)]
  else
    (if cc_request_key c then
       _ ← ccall_request_keys;
       umodify (λ c, {| c with cc_request_key := false |})
     else mret ());;
    uemit [CkTmrCancel TmrSendCheck; CkTmrCancel TmrRotateKey].

(** [ccall_sync_media_keys] *)
Definition ccall_sync_media_keys : CKM Z :=
  c ← uget;
  let min_key := userlist_get_key_index (cc_userl c) in
  if min_key =? 0 then mret 0 else
  '(err, cur) ← on_store keystore_get_current;
  if negb (err =? 0) then mret err else
  (if default 0 (fst <$> cur) <? min_key
   then _ ← on_store (keystore_set_current min_key); mret () else mret ());;
  ccall_rotate_mls_timeout;;
  mret err.

(** [ccall_sync_props]: the members are told this client's epoch, when there is
    a connection to tell them over. *)
Definition ccall_sync_props : CKM Z :=
  c ← uget;
  if bool_decide (cc_ecall c = None) then mret 0 else
  let '(err, epochid) := userlist_get_latest_epoch (cc_userl c) in
  n ← ck_next;
  let err' := ecall_props_set_local n in
  if negb (err' =? 0) then mret err' else
  uemit [CkSyncProps (if negb (err =? 0) then 0 else epochid)];;
  n ← ck_next;
  mret (ecall_sync_props n).

(** [ccall_set_media_key] *)
Definition ccall_set_media_key (epochid : Z) (key_data : list Z) : CKM Z :=
  c ← uget;
  if negb (cc_is_mls_call c) then mret EINVAL else
  err ← on_store (keystore_set_session_key epochid key_data);
  if negb (err =? 0) then mret err else
  now ← on_store jiffies;
  umodify (λ c, {| c with cc_epoch_start_ts := now |});;
  _ ← on_ul (userlist_set_latest_epoch epochid);
  _ ← ccall_sync_props;
  _ ← ccall_sync_media_keys;
  ccall_rotate_mls_timeout;;
  mret 0.
End Ops.
