(* ===== verification/CcallKeysSpec.v ===== *)
(** * Properties of the keys of a conference call

    Session keys go to approved members in the call and to nobody else, and are
    taken from the key generator and from nobody else; a member that joins late
    is given the current key and follows the rotations from there. *)

From S2P Require Import Prelude LibRe EconnMsg UserHash AudioLevel UserList UserListSpec UserListSft UserListOps UserListProps UserListMembers Keystore KeystoreSpec KeystoreOps KeystoreProps CcallKeys.

Create HintDb discreet discriminated.

Section Lift.
Context `{L : LibRe, UE : UlEnv, KE : KsEnv, CE : CkEnv}.

Lemma wp_on_ul {A} (m : ULM A) (Q : A → ccall → list ck_event → Prop) c :
  wp m (λ a l e, Q a {| c with cc_userl := l |} (CkUl <$> e)) (cc_userl c) → wp (on_ul m) Q c.
Proof. unfold wp, on_ul. by destruct (m (cc_userl c)) as [[[a l] e]|]. Qed.

Lemma wp_on_store {A} (m : KSM A) (Q : A → ccall → list ck_event → Prop) c :
  wp m (λ a k e, Q a {| c with cc_keystore := k |} (CkKs <$> e)) (cc_keystore c) →
  wp (on_store m) Q c.
Proof. unfold wp, on_store. by destruct (m (cc_keystore c)) as [[[a k] e]|]. Qed.

(** ** Who is trusted with keys, and whose keys are trusted *)

(** The sender of a key message is the key generator this client knows. *)
Definition trusts (c : ccall) (userid clientid : option string) : bool :=
  match ul_keygenerator (cc_userl c) with
  | None => false
  | Some a =>
    negb (userlist_is_keygenerator_me (cc_userl c)) &&
    match user_at (cc_userl c) a with
    | None => false
    | Some kg =>
      bool_decide (is_Some (ui_userid_real kg)) && bool_decide (is_Some (ui_clientid_real kg))
      && strcaseeq userid (ui_userid_real kg) && strcaseeq clientid (ui_clientid_real kg)
    end
  end.

Lemma user_at_kg l a : ul_ok l → ul_keygenerator l = Some a → ∃ kg, user_at l a = Some kg.
Proof.
  intros Hok Hk. unfold user_at. destruct (List.find _ _) as [kg|] eqn:Hf; [by eauto|].
  apply (ok_kg l Hok) in Hk. change (a ∈ (ui_ids <$> (ul_self l :: ul_users l)).*1) in Hk.
  rewrite <- list_fmap_compose in Hk. apply list_elem_of_fmap in Hk as (u & -> & Hu).
  apply (find_None_all _ _ Hf) in Hu. cbn in Hu. by rewrite Nat.eqb_refl in Hu.
Qed.

(** C26: keys are accepted from the key generator only: a key message of anybody
    else, and any key message while this client is the key generator itself or
    knows none, changes neither the key store nor the member list. *)
Theorem confkey_only_from_keygenerator c userid clientid keyl :
  ul_ok (cc_userl c) → trusts c userid clientid = false →
  wp (recv_confkey_resp userid clientid keyl)
     (λ _ c' e, cc_keystore c' = cc_keystore c ∧ cc_userl c' = cc_userl c ∧ e = []) c.
Proof.
  intros Hok Ht. unfold recv_confkey_resp. wp_step. wp_step.
  unfold trusts in Ht. unfold userlist_get_keygenerator.
  destruct (ul_keygenerator (cc_userl c)) as [a|] eqn:Hk; [|by wp_step].
  destruct (userlist_is_keygenerator_me (cc_userl c)); [by wp_step|]. cbn [negb andb] in Ht.
  destruct (user_at_kg _ _ Hok Hk) as [kg Hkg]. rewrite Hkg in Ht. wp_step.
  eapply wp_of_ptr; [exact Hkg|].
  destruct (ui_userid_real kg) as [uid|]; [|by wp_step].
  destruct (ui_clientid_real kg) as [cid|]; [|by wp_step].
  rewrite !bool_decide_eq_true_2 in Ht by by eexists. cbn [andb] in Ht.
  rewrite <- negb_andb, Ht. cbn [negb]. by wp_step.
Qed.

(** ** The index of a new key *)

(** a new session key gets an index above every key there is, at the start of
    a block of [0x10000] that rotation has not reached, and at most two blocks
    further; this needs two free blocks, for otherwise the index wraps around and
    is not above the others. *)
Theorem new_key_index_fresh became_kg max_key :
  0 <= max_key < 2 ^ 32 →
  let idx := new_key_index false became_kg max_key in
  idx mod 0x10000 = 0 ∧ 0 <= idx < 2 ^ 32 ∧
  (max_key < 0xFFFE0000 → max_key < idx <= max_key + 0x20000) ∧
  (0xFFFF0000 <= max_key → idx <= 0x10000).
Proof.
  intros Hm. cbn zeta. unfold new_key_index, uwrap.
  assert (Hlor : Z.lor max_key 0xFFFF = max_key / 0x10000 * 0x10000 + 0xFFFF).
  { change 0x10000 with (2 ^ 16). rewrite <- Z.shiftr_div_pow2, <- Z.shiftl_mul_pow2 by lia.
    assert (Hd : Z.land (Z.shiftl (Z.shiftr max_key 16) 16) 0xFFFF = 0).
    { change 0xFFFF with (Z.ones 16). rewrite Z.land_ones, Z.shiftl_mul_pow2 by lia.
      apply Z.mod_mul. lia. }
    rewrite (Z.add_nocarry_lxor _ _ Hd), (Z.lxor_lor _ _ Hd).
    apply Z.bits_inj'. intros n Hn. rewrite !Z.lor_spec. change 0xFFFF with (Z.ones 16).
    rewrite Z.testbit_ones_nonneg by lia.
    destruct (Z.ltb_spec n 16); [by rewrite !orb_true_r|].
    rewrite !orb_false_r, Z.shiftl_spec, Z.shiftr_spec by lia. f_equal. lia. }
  rewrite Hlor. destruct became_kg; lia_div.
Qed.

(** ** Session keys stay among the approved members *)

(** What the key functions never change of a member, and of the list. *)
Definition mview (u : userinfo) :=
  (ui_addr u, ui_userid_real u, ui_clientid_real u, ui_se_approved u, ui_incall_now u).

Definition roster (l : userlist) :=
  (mview <$> ul_users l, ul_keygenerator l, ui_addr (ul_self l)).

(** Everyone in the list is an approved member in the call. *)
Definition entitled (l : userlist) (targets : list icall_client) : Prop :=
  ∀ cl, cl ∈ targets → ∃ a uid cid, (a, uid, cid, true, true) ∈ mview <$> ul_users l ∧
                                    cl = icall_client_alloc uid cid.

(** Session keys are sent only as the key generator of an active call, to
    members entitled to them. *)
Definition sends_discreet (c : ccall) (e : list ck_event) : Prop :=
  ∀ targets keyl, CkConfKey targets keyl ∈ e →
    userlist_is_keygenerator_me (cc_userl c) = true ∧ cc_state c = CCALL_STATE_ACTIVE ∧
    cc_is_mls_call c = false ∧ entitled (cc_userl c) targets.

(** A step that does so and keeps the roster. *)
Definition discreet (c c' : ccall) (e : list ck_event) : Prop :=
  roster (cc_userl c') = roster (cc_userl c) ∧
  (cc_state c', cc_is_mls_call c') = (cc_state c, cc_is_mls_call c) ∧ sends_discreet c e.

Abbreviation wlp_discreet m c := (wlp m (λ _ c' e, discreet c c' e) c).

Lemma roster_me l l' :
  roster l' = roster l → userlist_is_keygenerator_me l' = userlist_is_keygenerator_me l.
Proof. unfold roster, userlist_is_keygenerator_me. by intros [= _ -> ->]. Qed.

Lemma roster_entitled l l' ts : roster l' = roster l → entitled l' ts → entitled l ts.
Proof. unfold roster, entitled. by intros [= -> _ _]. Qed.

Lemma discreet_trans c1 c2 c3 e1 e2 :
  discreet c1 c2 e1 → discreet c2 c3 e2 → discreet c1 c3 (e1 ++ e2).
Proof.
  intros (R1 & S1 & K1) (R2 & S2 & K2). split; [congruence|]. split; [congruence|].
  intros ts ks [Hin|Hin]%elem_of_app; [by eapply K1|].
  destruct (K2 ts ks Hin) as (Hme & Hact & Hmls & Hent). injection S1 as S1 M1.
  rewrite (roster_me _ _ R1) in Hme. split; [done|]. split; [congruence|]. split; [congruence|].
  by eapply roster_entitled.
Qed.

Definition is_confkey (e : ck_event) : bool :=
  match e with CkConfKey _ _ => true | _ => false end.

(** A step without key messages. *)
Lemma discreet_quiet c c' e :
  roster (cc_userl c') = roster (cc_userl c) →
  (cc_state c', cc_is_mls_call c') = (cc_state c, cc_is_mls_call c) →
  existsb is_confkey e = false → discreet c c' e.
Proof.
  intros HR HS He. split; [done|]. split; [done|]. intros ts ks Hin.
  apply not_true_iff_false in He. destruct He. apply existsb_exists.
  exists (CkConfKey ts ks). split; [by apply list_elem_of_In|done].
Qed.

Lemma discreet_bind {A B} (m : CKM A) (k : A → CKM B) c :
  wlp_discreet m c → (∀ a c', wlp_discreet (k a) c') → wlp_discreet (m ≫= k) c.
Proof.
  intros Hm Hk. apply wlp_bind. eapply wlp_mono; [exact Hm|]. intros a c' e Hd.
  eapply wlp_mono; [apply Hk|]. intros b c'' e' Hd'. exact (discreet_trans _ _ _ _ _ Hd Hd').
Qed.

Lemma discreet_ret {A} (a : A) c : wlp_discreet (mret a : CKM A) c.
Proof. by apply discreet_quiet. Qed.

Lemma discreet_undef {A} c : wlp_discreet (undef : CKM A) c.
Proof. done. Qed.

Lemma discreet_emit e c : existsb is_confkey e = false → wlp_discreet (uemit e : CKM ()) c.
Proof. intros. by apply discreet_quiet. Qed.

Lemma discreet_modify (f : ccall → ccall) c :
  cc_userl (f c) = cc_userl c → cc_state (f c) = cc_state c →
  cc_is_mls_call (f c) = cc_is_mls_call c → wlp_discreet (umodify f) c.
Proof. intros E1 E2 E3. apply discreet_quiet; [by rewrite E1|by rewrite E2, E3|done]. Qed.

Lemma discreet_of_ptr {A} (o : option A) c : wlp_discreet (of_ptr o : CKM A) c.
Proof. destruct o; [apply discreet_ret|done]. Qed.

Lemma discreet_store {A} (m : KSM A) c : wlp_discreet (on_store m) c.
Proof.
  unfold wlp, on_store. destruct (m (cc_keystore c)) as [[[a k] e]|]; [|done].
  apply discreet_quiet; [done|done|]. induction e; done.
Qed.

(** Operations of the member list that keep the roster. *)
Lemma discreet_ul {A} (m : ULM A) c :
  wlp m (λ _ l' _, roster l' = roster (cc_userl c)) (cc_userl c) → wlp_discreet (on_ul m) c.
Proof.
  unfold wlp, on_ul. destruct (m (cc_userl c)) as [[[a l] e]|]; [|done]. intros HR.
  apply discreet_quiet; [done|done|]. clear. induction e; done.
Qed.

Lemma set_user_roster a f (l : userlist) :
  (∀ u, mview (f u) = mview u) →
  roster {| l with ul_users := (λ u, if (ui_addr u =? a)%nat then f u else u) <$> ul_users l |}
  = roster l.
Proof.
  intros Hf. unfold roster. cbn. do 2 f_equal. rewrite <- list_fmap_compose.
  apply list_fmap_ext. intros i u _. cbn. by destruct (_ =? _)%nat.
Qed.

Lemma wlp_alloc l :
  wlp ul_alloc (λ _ l' _, l' = {| l with ul_tick := S (ul_tick l) |}) l.
Proof. done. Qed.

(** The targets are entitled to keys, and handing them out keeps the roster. *)
Lemma key_targets_loop_entitled all l0 us : ∀ ts l,
  us ⊆ ul_users l0 → entitled l0 ts → roster l = roster l0 →
  wlp (key_targets_loop all us ts)
      (λ r l' _, roster l' = roster l0 ∧ entitled l0 r.2) l.
Proof.
  induction us as [|u us IH]; intros ts l Hus Hts HR; cbn [key_targets_loop];
    [by unfold wlp; cbn|].
  assert (Hus' : us ⊆ ul_users l0) by (intros v Hv; apply Hus; by right).
  destruct (key_target all u) eqn:Hk; [|by apply IH].
  unfold key_target in Hk. apply andb_prop in Hk as [[Hnow Happ]%andb_prop _].
  apply wlp_bind. eapply wlp_mono; [apply wlp_alloc|]. intros [a|] l1 e1 ->; [|by split].
  apply wlp_bind. unfold set_user, umodify, wlp at 1. apply IH; [done| |].
  - intros cl [Hcl| ->%list_elem_of_singleton]%elem_of_app; [by apply Hts|].
    exists (ui_addr u), (ui_userid_real u), (ui_clientid_real u). split; [|done].
    apply list_elem_of_fmap. exists u. split; [|apply Hus; by left].
    unfold mview. by rewrite Happ, Hnow.
  - rewrite <- HR.
    exact (set_user_roster (ui_addr u) (λ u, {| u with ui_needs_key := false |})
             {| l with ul_tick := S (ul_tick l) |} (λ _, eq_refl)).
Qed.

Lemma discreet_get {B} (k : ccall → CKM B) c : wlp_discreet (k c) c → wlp_discreet (uget ≫= k) c.
Proof. intros Hk. apply wlp_bind. exact Hk. Qed.

(** Steps whose messages do not depend on the state. *)
Ltac discreet_step :=
  lazymatch goal with
  | |- wlp (uget ≫= _) _ _ => apply discreet_get
  | |- wlp (_ ≫= _) _ _ => apply discreet_bind
  | |- ∀ _, _ => intro
  | |- wlp (mret _) _ _ => apply discreet_ret
  | |- wlp undef _ _ => apply discreet_undef
  | |- wlp (uemit _) _ _ => apply discreet_emit; first [reflexivity | by case_match]
  | |- wlp (umodify _) _ _ => apply discreet_modify; reflexivity
  | |- wlp (of_ptr _) _ _ => apply discreet_of_ptr
  | |- wlp (on_store _) _ _ => apply discreet_store
  | |- wlp (match ?x with _ => _ end) _ _ => destruct x
  end.
Ltac discreet := repeat first [discreet_step | solve [eauto with discreet]].

Lemma alloc_confkey_discreet resp c : wlp_discreet (alloc_confkey resp) c.
Proof. unfold alloc_confkey, ck_next. discreet. Qed.
#[local] Hint Resolve alloc_confkey_discreet : discreet.

Lemma send_confkey_discreet ts c :
  userlist_is_keygenerator_me (cc_userl c) = true → cc_state c = CCALL_STATE_ACTIVE →
  cc_is_mls_call c = false → entitled (cc_userl c) ts → wlp_discreet (send_confkey true ts) c.
Proof.
  intros Hme Hact Hmls Hent. unfold send_confkey. apply wlp_bind.
  eapply wlp_mono; [apply alloc_confkey_discreet|]. intros [err keyl] c' e Hd.
  destruct (negb (err =? 0)); cbn; rewrite ?app_nil_r; [done|].
  destruct Hd as (HR & HS & HK). split; [done|]. split; [done|].
  intros ts' ks [Hin|[= -> ->]%list_elem_of_singleton]%elem_of_app; [by apply HK in Hin|done].
Qed.

Lemma request_confkey_discreet ts c : wlp_discreet (send_confkey false ts) c.
Proof. unfold send_confkey. discreet. Qed.

Lemma send_keys_discreet all c : wlp_discreet (ccall_send_keys all) c.
Proof.
  unfold ccall_send_keys. apply discreet_get. destruct (cc_is_mls_call c) eqn:Hmls; [discreet|].
  destruct (_ && _) eqn:Hc; [|by apply discreet_quiet].
  apply andb_prop in Hc as [Hme Hact%bool_decide_eq_true_1].
  apply wlp_bind. eapply (wlp_mono _ (λ r c' e, discreet c c' e ∧ entitled (cc_userl c) r.2)).
  - pose proof (key_targets_loop_entitled all (cc_userl c) (ul_users (cc_userl c)) [] (cc_userl c)
      (reflexivity _)) as Hl.
    unfold wlp, on_ul, userlist_get_key_targets, mbind, MU_bind, uget in *.
    destruct (key_targets_loop _ _ _ _) as [[[r l] e]|]; [|done].
    destruct Hl as [HR Hent]; [by intros ? []%elem_of_nil|done|]. split; [|done].
    apply discreet_quiet; [done|done|]. clear. induction e; done.
  - intros [err ts] c' e [Hd Hent]. eapply wlp_mono; [|intros ? ? ? Hd'; exact (discreet_trans _ _ _ _ _ Hd Hd')].
    destruct (negb (err =? 0)); [discreet|]. destruct (0 <? length ts)%nat; [|discreet].
    destruct Hd as (HR & [= HS HM] & _).
    apply discreet_bind; [apply discreet_bind|]; [|discreet..].
    apply send_confkey_discreet; [by rewrite (roster_me _ _ HR)|congruence|congruence|].
    by apply (roster_entitled _ (cc_userl c)).
Qed.
#[local] Hint Resolve request_confkey_discreet send_keys_discreet : discreet.

Lemma generate_discreet buf first c : wlp_discreet (ccall_generate_session_key buf first) c.
Proof. unfold ccall_generate_session_key, ck_next. discreet. Qed.

Lemma rotate_mls_discreet c : wlp_discreet ccall_rotate_mls_timeout c.
Proof. unfold ccall_rotate_mls_timeout. discreet. Qed.
#[local] Hint Resolve generate_discreet rotate_mls_discreet : discreet.

Lemma rotate_key_discreet buf c : wlp_discreet (ccall_rotate_key_timeout buf) c.
Proof. unfold ccall_rotate_key_timeout. discreet. Qed.

Lemma request_keys_discreet c : wlp_discreet ccall_request_keys c.
Proof. unfold ccall_request_keys, ck_next. discreet. Qed.

Lemma set_keys_discreet keyl c : wlp_discreet (set_keys keyl) c.
Proof. revert c. induction keyl as [|[k|] keyl IH]; intros c; cbn [set_keys]; discreet; apply IH. Qed.
#[local] Hint Resolve request_keys_discreet set_keys_discreet : discreet.

Lemma recv_resp_discreet uid cid keyl c : wlp_discreet (recv_confkey_resp uid cid keyl) c.
Proof. unfold recv_confkey_resp. discreet. Qed.

Lemma recv_req_discreet uid cid c : wlp_discreet (recv_confkey_req uid cid) c.
Proof.
  unfold recv_confkey_req. discreet. apply discreet_ul. unfold set_user, umodify, wlp.
  by apply set_user_roster.
Qed.

Lemma kg_change_discreet buf me first c : wlp_discreet (userlist_kg_change_handler buf me first) c.
Proof. unfold userlist_kg_change_handler. discreet. Qed.

Lemma sync_media_keys_discreet c : wlp_discreet ccall_sync_media_keys c.
Proof. unfold ccall_sync_media_keys. discreet. Qed.

Lemma sync_props_discreet c : wlp_discreet ccall_sync_props c.
Proof. unfold ccall_sync_props, ck_next. discreet. Qed.
#[local] Hint Resolve sync_media_keys_discreet sync_props_discreet : discreet.

Lemma set_media_key_discreet epoch key c : wlp_discreet (ccall_set_media_key epoch key) c.
Proof. unfold ccall_set_media_key. discreet. by apply discreet_ul. Qed.

Context `{SO : Sodium}.

(** The operations of the call that deal with keys, and those of its member
    list. *)
Inductive ck_op :=
| CkOpUserList (o : ul_op)
| CkOpSendKeys (send_to_all : bool)
| CkOpGenerate (hashed_key : list Z) (is_first : bool)
| CkOpRotateTimeout (hashed_key : list Z)
| CkOpRotateMls
| CkOpRequestKeys
| CkOpRecvResp (userid clientid : option string) (keyl : list (option econn_key_info))
| CkOpRecvReq (userid clientid : option string)
| CkOpKgChange (hashed_key : list Z) (is_me is_first : bool)
| CkOpSetMediaKey (epochid : Z) (key_data : list Z)
| CkOpSyncMediaKeys.

Definition ck_exec (o : ck_op) : CKM () :=
  match o with
  | CkOpUserList o => on_ul (ul_exec o)
  | CkOpSendKeys all => _ ← ccall_send_keys all; mret ()
  | CkOpGenerate buf first => _ ← ccall_generate_session_key buf first; mret ()
  | CkOpRotateTimeout buf => ccall_rotate_key_timeout buf
  | CkOpRotateMls => ccall_rotate_mls_timeout
  | CkOpRequestKeys => _ ← ccall_request_keys; mret ()
  | CkOpRecvResp uid cid keyl => recv_confkey_resp uid cid keyl
  | CkOpRecvReq uid cid => recv_confkey_req uid cid
  | CkOpKgChange buf me first => userlist_kg_change_handler buf me first
  | CkOpSetMediaKey epoch key => _ ← ccall_set_media_key epoch key; mret ()
  | CkOpSyncMediaKeys => _ ← ccall_sync_media_keys; mret ()
  end.

#[local] Hint Resolve rotate_key_discreet recv_resp_discreet recv_req_discreet
  kg_change_discreet set_media_key_discreet : discreet.

Lemma ck_exec_discreet o c : wlp (ck_exec o) (λ _ _ e, sends_discreet c e) c.
Proof.
  destruct o.
  1:{ unfold wlp. cbn [ck_exec]. unfold on_ul.
      destruct (ul_exec _ _) as [[[a l] e]|]; [|done].
      intros ts ks Hin. by apply list_elem_of_fmap in Hin as (? & ? & _). }
  all: apply (wlp_mono _ (λ _ c' e, discreet c c' e)); [|by intros ? ? ? (_ & _ & ?)];
    cbn [ck_exec]; discreet.
Qed.

(** C9: session keys stay among those entitled to them: whatever operation is
    performed in whatever state, a message with session keys is sent by the key
    generator of an active call that is not an MLS call, and each of its
    targets is a member of the list that the conversation has approved and that
    is in the call. *)
Theorem session_keys_confidential o c c' e targets keyl :
  ck_exec o c = Some ((), c', e) → CkConfKey targets keyl ∈ e →
  userlist_is_keygenerator_me (cc_userl c) = true ∧ cc_state c = CCALL_STATE_ACTIVE ∧
  cc_is_mls_call c = false ∧
  ∀ cl, cl ∈ targets → ∃ u, u ∈ ul_users (cc_userl c) ∧ ui_se_approved u = true ∧
                            ui_incall_now u = true ∧ cl = client_of u.
Proof.
  intros Hrun Hin. pose proof (ck_exec_discreet o c) as Hd. unfold wlp in Hd. rewrite Hrun in Hd.
  destruct (Hd _ _ Hin) as (Hme & Hact & Hmls & Hent). split_and!; [done..|].
  intros cl Hcl. destruct (Hent cl Hcl) as (a & uid & cid & Hv & ->).
  apply list_elem_of_fmap in Hv as (u & [= -> -> -> Ha Hn] & Hu). by exists u.
Qed.
End Lift.

(** ** A member that joins late follows the keys

    The composition of the member list, the key messages and the key stores of
    two clients: the key generator sends its current session key to the members
    that wait for one, and from then on rotates silently; the receiver derives
    every later key by itself. *)

Section Join.
Context `{L : LibReSpec, UE : UlEnv, CE : CkEnv} {E : KsEnv} {kdf} `{HOk : !KsEnvOk E kdf}.

Definition same_flags (c c' : ccall) : Prop :=
  cc_state c' = cc_state c ∧ cc_is_mls_call c' = cc_is_mls_call c ∧
  cc_someone_left c' = cc_someone_left c.

(** Nothing but the count of the allocations changes. *)
Definition idle (c c' : ccall) : Prop :=
  cc_keystore c' = cc_keystore c ∧ cc_userl c' = cc_userl c ∧ same_flags c c'.

Lemma idle_trans c1 c2 c3 : idle c1 c2 → idle c2 c3 → idle c1 c3.
Proof.
  intros (A1 & B1 & C1 & D1 & E1) (A2 & B2 & C2 & D2 & E2). repeat split; by etrans.
Qed.

Lemma wp_ck_next (Q : nat → ccall → list ck_event → Prop) c :
  (∀ n c', idle c c' → Q n c' []) → wp ck_next Q c.
Proof. intros HQ. unfold ck_next. wp_steps. by apply HQ. Qed.

Lemma wp_on_store_read {A} (m : KSM A) (P : A → Prop) Q c :
  wp m (λ r s' _, s' = cc_keystore c ∧ P r) (cc_keystore c) →
  (∀ r c' e, idle c c' → P r → Q r c' e) → wp (on_store m) Q c.
Proof.
  intros Hm HQ. apply wp_on_store. eapply wp_mono; [exact Hm|]. intros r s' e [-> HP].
  by apply HQ.
Qed.

(** ** What a key message holds *)

Lemma wp_current_last s l k :
  ks_ok s → ks_keyl s = l ++ [k] → ks_current s = Some (ki_addr k) →
  wp (keystore_get_current_session_key E2EE_SESSIONKEY_SIZE)
     (λ r s' _, s' = s ∧ r = (0, Some (ki_index k), ki_skey k)) s.
Proof.
  intros Hok Hl Hc. assert (Hk : k ∈ ks_keyl s) by (rewrite Hl; apply elem_mid).
  destruct (keyl_ok_elem _ _ _ (ok_keyl _ Hok) Hk) as (_ & _ & Hs & _).
  apply wp_locked. wp_steps. rewrite Hc. apply wp_bind, wp_deref; [done|done|]. wp_steps.
  split; [done|]. by rewrite copy_key_all.
Qed.

Lemma wp_next_last s l k :
  ks_ok s → ks_keyl s = l ++ [k] → ks_current s = Some (ki_addr k) →
  wp (keystore_get_next_session_key E2EE_SESSIONKEY_SIZE) (λ r s' _, s' = s ∧ r.1.1 = ENOENT) s.
Proof.
  intros Hok Hl Hc. apply wp_locked. wp_steps. rewrite Hc.
  apply wp_bind, (wp_deref_next s l k []); [done..|]. by wp_steps.
Qed.

(** The message holds the current key, and nothing else when that is the last. *)
Lemma wp_alloc_confkey c l k :
  (∀ n, ck_mem_ok n = true) → cc_is_mls_call c = false → ks_ok (cc_keystore c) →
  ks_keyl (cc_keystore c) = l ++ [k] → ks_current (cc_keystore c) = Some (ki_addr k) →
  wp (alloc_confkey true)
     (λ r c' _, r = (0, [{| ek_idx := ki_index k; ek_data := ki_skey k |}]) ∧
                idle c c') c.
Proof.
  intros Hmem Hmls Hok Hl Hc. unfold alloc_confkey. wp_step. wp_step. wp_step.
  apply wp_ck_next. intros n c1 H1. rewrite Hmem, Hmls. cbn [negb]. wp_step.
  apply wp_ck_next. intros n2 c2 H2. rewrite Hmem. cbn [negb]. wp_step.
  pose proof (idle_trans _ _ _ H1 H2) as H02. pose proof H02 as (Hks & _).
  eapply wp_on_store_read; [rewrite Hks; by eapply wp_current_last|]. intros r c3 e3 H3 ->.
  cbn [Z.eqb negb]. wp_step. apply wp_ck_next. intros n4 c4 H4. rewrite Hmem. cbn [negb]. wp_step.
  pose proof (idle_trans _ _ _ H02 (idle_trans _ _ _ H3 H4)) as H04. pose proof H04 as (Hks4 & _).
  eapply (wp_on_store_read _ (λ r, r.1.1 = ENOENT)); [rewrite Hks4; by eapply wp_next_last|].
  intros [[err ix] d] c5 e5 H5 Herr. cbn in Herr. rewrite Herr. cbn [Z.eqb negb ENOENT]. wp_step.
  split; [done|]. by eapply idle_trans.
Qed.

Lemma keeps_ids_me l l' :
  keeps_ids l l' → userlist_is_keygenerator_me l' = userlist_is_keygenerator_me l.
Proof.
  unfold userlist_is_keygenerator_me, keeps_ids. intros (Hs & _ & _ & ->).
  injection Hs as -> _. done.
Qed.

(** Every waiting member gets it. *)
Lemma wp_send_keys all c l k u :
  ul_ok (cc_userl c) → (∀ n, ul_mem_ok n = true) → (∀ n, ck_mem_ok n = true) →
  cc_is_mls_call c = false → cc_state c = CCALL_STATE_ACTIVE →
  userlist_is_keygenerator_me (cc_userl c) = true → ks_ok (cc_keystore c) →
  ks_keyl (cc_keystore c) = l ++ [k] → ks_current (cc_keystore c) = Some (ki_addr k) →
  u ∈ ul_users (cc_userl c) → key_target all u = true →
  wp (ccall_send_keys all)
     (λ r c' e, r = 0 ∧ cc_keystore c' = cc_keystore c ∧
        userlist_is_keygenerator_me (cc_userl c') = true ∧ same_flags c c' ∧
        ∃ ts, client_of u ∈ ts ∧
              CkConfKey ts [{| ek_idx := ki_index k; ek_data := ki_skey k |}] ∈ e) c.
Proof.
  intros Hul Hmu Hmc Hmls Hact Hme Hok Hl Hc Hu Hk. unfold ccall_send_keys. wp_step. wp_step.
  rewrite Hmls, Hme, bool_decide_eq_true_2 by done. cbn [andb]. wp_step. apply wp_on_ul.
  eapply wp_mono; [apply wp_and; [by apply get_key_targets_spec|apply get_key_targets_keeps]|].
  intros r l' e [(-> & Hu' & _ & ->) Hkeep]. apply keeps_ids_me in Hkeep.
  assert (Hin : client_of u ∈ client_of <$> List.filter (key_target all) (ul_users (cc_userl c))).
  { by apply list_elem_of_fmap_2, list_elem_of_In, filter_In; split; [apply list_elem_of_In|]. }
  cbn [Z.eqb negb]. destruct (client_of <$> _) as [|t ts]; [by apply not_elem_of_nil in Hin|].
  cbn [length Nat.ltb Nat.leb]. unfold send_confkey. do 3 wp_step.
  eapply wp_mono; [by eapply wp_alloc_confkey|]. intros r c' e (-> & Hks & Hul' & Hfl).
  cbn [Z.eqb negb]. wp_steps. split; [done|]. split; [done|].
  split; [rewrite Hul'; cbn [cc_userl]; by rewrite Hkeep|]. split; [done|]. exists (t :: ts). split; [done|].
  rewrite !elem_of_app, list_elem_of_singleton. tauto.
Qed.

(** ** What the receiver makes of it *)

Lemma wp_set_salt s salt :
  ks_ok s →
  wp (keystore_set_salt (Some salt))
     (λ _ s' _, ks_ok s' ∧ ks_salt_bytes s' = salt ∧ ks_keyl s' = ks_keyl s ∧
                ks_hash_forward s' = ks_hash_forward s) s.
Proof.
  intros Hok. cbn [keystore_set_salt]. unfold zalloc, next_tick. wp_steps. rewrite mem_ok.
  apply wp_locked. unfold jiffies, next_tick, set_update_ts. wp_steps.
  split_and!; [|unfold ks_salt_bytes; cbn; by rewrite take_ge|done|done].
  destruct Hok. split; cbn; try done. eapply keyl_ok_tick; [|done]. lia.
Qed.

Lemma pad_length key : length (pad key) = E2EE_SESSIONKEY_SIZE.
Proof.
  unfold pad, copy_into. rewrite length_app, length_replicate, length_take. lia.
Qed.

Lemma pad_pad key : pad (pad key) = pad key.
Proof.
  pose proof (pad_length key) as Hl. pose proof (copy_key_all _ Hl) as Hc.
  unfold key_size in Hc. rewrite Nat.min_id in Hc. exact Hc.
Qed.

Lemma wp_recv_first c uid cid hash index key :
  trusts c uid cid = true → cc_convid_hash c = Some hash → ks_ok (cc_keystore c) →
  ks_keyl (cc_keystore c) = [] → ks_hash_forward (cc_keystore c) = true →
  0 <= index < 2 ^ 32 →
  wp (recv_confkey_resp uid cid [Some {| ek_idx := index; ek_data := pad key |}])
     (λ _ c' _, chain_at (kdf := kdf) (bytes_of_string hash) index key 0 (cc_keystore c')) c.
Proof.
  intros Ht Hh Hok Hnil Hf Hi. unfold recv_confkey_resp. wp_step. wp_step. unfold trusts in Ht.
  unfold userlist_get_keygenerator. destruct (ul_keygenerator (cc_userl c)) as [a|]; [|done].
  destruct (userlist_is_keygenerator_me (cc_userl c)); [done|]. cbn [negb andb] in Ht.
  destruct (user_at (cc_userl c) a) as [kg|] eqn:Hkg; [|done]. wp_step.
  eapply wp_of_ptr; [done|].
  apply andb_prop in Ht as [[[[u Hu]%bool_decide_eq_true_1
    [i Hci]%bool_decide_eq_true_1]%andb_prop Es1]%andb_prop Es2].
  rewrite Hu, Hci in *. rewrite Es1, Es2. cbn [negb orb]. rewrite Hh. wp_step. apply wp_on_store.
  eapply wp_mono; [by apply wp_set_salt|]. intros r s' e (Hok' & Hs & Hk & Hf').
  cbn [set_keys]. wp_step. apply wp_on_store. cbn [cc_keystore ek_idx ek_data].
  eapply wp_mono; [apply wp_set_first; [done|congruence|congruence| |done]|].
  { intros E0. pose proof (pad_length key) as Hl. by rewrite E0 in Hl. }
  intros err s2 e2 [-> Hch]. cbn [Z.eqb negb andb]. wp_steps. rewrite Hs in Hch.
  unfold chain_at in *. rewrite pad_pad in Hch. exact Hch.
Qed.

(** ** Rotation *)

(** The key generator of an active call that nobody has left. *)
Definition rotating (c : ccall) : Prop :=
  cc_state c = CCALL_STATE_ACTIVE ∧ cc_is_mls_call c = false ∧ cc_someone_left c = false ∧
  userlist_is_keygenerator_me (cc_userl c) = true.

(** The rotation timer expires [n] times. *)
Fixpoint timeouts (hashed_key : list Z) (n : nat) : CKM () :=
  match n with
  | O => mret ()
  | S n => ccall_rotate_key_timeout hashed_key;; timeouts hashed_key n
  end.

Lemma wp_timeout buf salt index key i c :
  rotating c → chain_at (kdf := kdf) salt index key i (cc_keystore c) →
  index + Z.of_nat i < UINT32_MAX →
  wp (ccall_rotate_key_timeout buf)
     (λ _ c' _, rotating c' ∧ chain_at (kdf := kdf) salt index key (S i) (cc_keystore c')) c.
Proof.
  intros Hrot Hch Hi. pose proof Hrot as (Ha & Hm & Hl & Hk). unfold ccall_rotate_key_timeout.
  wp_step. wp_step. rewrite Hm, Hl, Hk, bool_decide_eq_true_2 by done. cbn [andb negb].
  wp_step. apply wp_on_store. eapply wp_mono; [by eapply wp_rotate_chain|].
  intros err s' e [_ Hch']. by wp_steps.
Qed.

Lemma wp_timeouts buf salt index key n : ∀ i c,
  rotating c → chain_at (kdf := kdf) salt index key i (cc_keystore c) →
  index + Z.of_nat (i + n) <= UINT32_MAX →
  wp (timeouts buf n)
     (λ _ c' _, chain_at (kdf := kdf) salt index key (i + n) (cc_keystore c')) c.
Proof.
  induction n as [|n IH]; intros i c Hrot Hch Hi; cbn [timeouts].
  - wp_step. by rewrite Nat.add_0_r.
  - wp_step. eapply wp_mono; [eapply wp_timeout; [done|done|lia]|].
    intros [] c1 e [Hrot1 Hch1]. eapply wp_mono; [by apply (IH (S i)); [..|lia]|].
    intros [] c2 e2 Hch2. by replace (i + S n)%nat with (S i + n)%nat by lia.
Qed.

(** ** Sender and late receiver *)

(** C8: a member that joins late follows the keys.  The key generator's store
    is at the key [key] of [index]; a member of its list waits for a key.  The
    message that [ccall_send_keys] sends is addressed to that member, whose store
    is empty and who trusts the sender.  From then on the rotation timer of the
    key generator may expire [n < 16] times without another message, and for the
    index it then encrypts with the two stores give the same media key. *)
Theorem late_joiner_follows cA cB all u uid cid hash index key buf n :
  ul_ok (cc_userl cA) → (∀ n, ul_mem_ok n = true) → (∀ n, ck_mem_ok n = true) →
  rotating cA → u ∈ ul_users (cc_userl cA) → key_target all u = true →
  chain_at (kdf := kdf) (bytes_of_string hash) index key 0 (cc_keystore cA) →
  trusts cB uid cid = true → cc_convid_hash cB = Some hash →
  ks_ok (cc_keystore cB) → ks_keyl (cc_keystore cB) = [] →
  ks_hash_forward (cc_keystore cB) = true →
  0 <= index → index + NUM_KEYS <= UINT32_MAX → Z.of_nat n < NUM_KEYS →
  wp (ccall_send_keys all) (λ _ cA' e, ∃ ts keyl,
    CkConfKey ts keyl ∈ e ∧ client_of u ∈ ts ∧
    wp (recv_confkey_resp uid cid (Some <$> keyl)) (λ _ cB' _,
      wp (timeouts buf n;;
          on_store (keystore_get_media_key (index + Z.of_nat n) E2EE_SESSIONKEY_SIZE))
         (λ a _ _,
           a.1 = 0 ∧
           wp (on_store (keystore_get_media_key (index + Z.of_nat n) E2EE_SESSIONKEY_SIZE))
              (λ b _ _, b = a) cB') cA') cB) cA.
Proof.
  intros Hul Hmu Hmc Hrot Hu Hk HA Ht Hh HokB HnilB HfB H0 Hmax Hn.
  pose proof HA as (HokA & _ & _ & l & k & Hl & Hc & Hix & Hsk & _).
  unfold UINT32_MAX, NUM_KEYS in *.
  pose proof Hrot as (Hact & Hmls & Hleft & Hme).
  eapply wp_mono; [by eapply (wp_send_keys all cA l k u)|].
  intros r cA' e (-> & HksA & Hme' & (Hact' & Hmls' & Hleft') & ts & Hts & Hev). eexists ts, _. split; [done|]. split; [done|].
  rewrite Z.add_0_r in Hix. cbn [chain_key Nat.iter nat_rect] in Hsk. rewrite Hix, Hsk.
  eapply wp_mono; [by apply (wp_recv_first cB uid cid hash index key); [..|lia]|].
  intros [] cB' e' HB. wp_step. rewrite <- HksA in HA.
  eapply wp_mono; [eapply (wp_timeouts buf _ index key n 0); [|exact HA|unfold UINT32_MAX; lia]|].
  { split_and!; congruence. }
  intros [] cA2 e2 (Hok2 & _ & _ & l2 & k2 & Hl2 & _ & Hix2 & Hsk2 & Hmk2).
  apply wp_on_store. cbn in Hix2. rewrite <- Hix2.
  eapply wp_mono; [apply wp_get_present; [done|rewrite Hl2; apply elem_mid]|].
  intros a s3 e3 ->. split; [done|]. apply wp_on_store. rewrite Hix2.
  eapply wp_mono; [apply (wp_get_chain _ index key n _ HB); unfold UINT32_MAX, NUM_KEYS; lia|].
  intros b s4 e4 ->. by rewrite Hmk2, Hsk2.
Qed.
End Join.
