(* ===== verification/CcallKeysWitness.v ===== *)
(** * The keys of a conference call on concrete inputs

    Alice is the key generator of an active call and Bob a member of it. *)

From S2P Require Import Prelude LibRe EconnMsg UserHash AudioLevel UserList UserListSpec UserListSft UserListOps UserListProps UserListMembers UserListWitness Keystore KeystoreSpec KeystoreOps KeystoreProps KeystoreWitness CcallKeys CcallKeysSpec.

Import LibReRef SodiumRef KsRef.

#[export] Instance ck_env : CkEnv := {|
  ck_mem_ok := λ _, true;
  randombytes_buf := λ n, replicate E2EE_SESSIONKEY_SIZE (Z.of_nat n mod 256);
  ecall_props_set_local := λ _, 0;
  ecall_sync_props := λ _, 0;
|}.

Definition mk_call (l : userlist) (s : keystore) : ccall := {|
  cc_userl := l; cc_keystore := s; cc_state := CCALL_STATE_ACTIVE;
  cc_is_mls_call := false; cc_someone_left := false; cc_became_kg := false;
  cc_request_key := false; cc_convid_hash := Some "s"%string; cc_confpart_data := [1; 2];
  cc_epoch_start_ts := 0; cc_ecall := Some 0%nat; cc_tick := 0;
|}.

(** The store of the key generator, before and after its first key. *)
Definition salted : keystore := run_ops [OpSetSalt (Some (bytes_of_string "s"))] (fresh true).
Definition keyed : keystore :=
  match keystore_set_session_key 7 [10; 20; 30] salted with
  | Some (_, s, _) => s
  | None => salted
  end.

Definition bob_waits : userinfo :=
  let u := bob_in_call in {| u with ui_needs_key := true |}.
Definition alice_list : userlist :=
  let l := mk_list (mk_user 1 "alice" "ha") [bob_waits] in {| l with ul_keygenerator := Some 1%nat |}.
Definition bob_list : userlist := let l := at_bob in {| l with ul_keygenerator := Some 2%nat |}.

Definition alice_call : ccall := mk_call alice_list keyed.
Definition bob_call : ccall := mk_call bob_list (fresh true).

Lemma salted_ok : ks_ok salted.
Proof. apply run_ops_ok. valid_ops. Qed.

Lemma salted_facts :
  ks_keyl salted = [] ∧ ks_hash_forward salted = true ∧
  ks_salt_bytes salted = bytes_of_string "s".
Proof. vm_compute. repeat split. Qed.

Lemma keyed_chain :
  chain_at (kdf := kdf) (bytes_of_string "s") 7 [10; 20; 30] 0 keyed.
Proof.
  destruct salted_facts as (Hnil & Hf & <-).
  pose proof (wp_set_first salted 7 [10; 20; 30] salted_ok Hnil Hf
    ltac:(discriminate) ltac:(lia)) as Hw.
  apply wp_defined in Hw as (err & s & e & Hrun & _ & Hch).
  unfold keyed. rewrite Hrun. exact Hch.
Qed.

Lemma alice_list_ok : ul_ok alice_list.
Proof.
  assert (Hok : ul_ok (mk_list (mk_user 1 "alice" "ha") [bob_waits])).
  { apply two_ok; [done|done|]. intros (_ & _ & _ & _ & E & _). discriminate E. }
  destruct Hok as [Hids _]. split; [exact Hids|]. intros a [= <-]. by left.
Qed.

Lemma bob_list_ok : ul_ok bob_list.
Proof. destruct at_bob_ok as [Hids _]. split; [exact Hids|]. intros a [= <-]. right. by left. Qed.

Lemma confkey_only_from_keygenerator_witness :
  wp (recv_confkey_resp (Some "eve") (Some "c") [Some {| ek_idx := 9; ek_data := [6; 6; 6] |}])%string
     (λ _ c' e, cc_keystore c' = fresh true ∧ cc_userl c' = bob_list ∧ e = []) bob_call.
Proof. apply (confkey_only_from_keygenerator bob_call); [apply bob_list_ok|reflexivity]. Defined.

Lemma new_key_index_fresh_witness :
  0x30007 < new_key_index false true 0x30007 <= 0x50007.
Proof.
  destruct (new_key_index_fresh true 0x30007 ltac:(lia)) as (_ & _ & H & _). apply H. lia.
Defined.

Lemma session_keys_confidential_witness :
  ∃ c' e keyl, ck_exec (CkOpSendKeys false) alice_call = Some ((), c', e) ∧
    CkConfKey [client_of bob_waits] keyl ∈ e ∧
    ∃ u, u ∈ ul_users alice_list ∧ ui_se_approved u = true ∧ ui_incall_now u = true ∧
         client_of bob_waits = client_of u.
Proof.
  destruct (ck_exec (CkOpSendKeys false) alice_call) as [[[[] c'] e]|] eqn:Hrun.
  2:{ vm_compute in Hrun. discriminate Hrun. }
  assert (Hin : ∃ keyl, CkConfKey [client_of bob_waits] keyl ∈ e).
  { vm_compute in Hrun. injection Hrun as _ <-. eexists. do 4 right. left. }
  destruct Hin as [keyl Hin]. exists c', e, keyl. split; [reflexivity|]. split; [exact Hin|].
  destruct (session_keys_confidential _ _ _ _ _ _ Hrun Hin) as (_ & _ & _ & H).
  apply H. by left.
Defined.

Lemma late_joiner_follows_witness :
  wp (ccall_send_keys false) (λ _ cA' e, ∃ ts keyl,
    CkConfKey ts keyl ∈ e ∧ client_of bob_waits ∈ ts ∧
    wp (recv_confkey_resp (Some "alice") (Some "c") (Some <$> keyl))%string (λ _ cB' _,
      wp (timeouts [] 3;; on_store (keystore_get_media_key 10 E2EE_SESSIONKEY_SIZE))
         (λ a _ _, a.1 = 0 ∧
           wp (on_store (keystore_get_media_key 10 E2EE_SESSIONKEY_SIZE))
              (λ b _ _, b = a) cB') cA') bob_call) alice_call.
Proof.
  apply (late_joiner_follows alice_call bob_call false bob_waits _ _ "s"%string 7 [10; 20; 30] [] 3);
    try reflexivity.
  - apply alice_list_ok.
  - repeat split.
  - by left.
  - apply keyed_chain.
  - apply fresh_ok.
  - lia.
  - unfold NUM_KEYS, UINT32_MAX. lia.
Defined.
