(* ===== verification/CcallKeysInv.v ===== *)
(** * The functions on keys keep the call well formed

    [keys_ok] is the part of the invariant of a conference call that concerns its
    member list and its key store; every function of [CcallKeys] is defined from
    there and keeps it, leaves the state of the call and lets the connect timer
    run. *)

From S2P Require Import Prelude LibRe EconnMsg UserHash AudioLevel UserList UserListSpec UserListSft UserListOps UserListProps Keystore KeystoreSpec KeystoreOps KeystoreProps CcallKeys CcallKeysSpec.

Create HintDb ksafe discriminated.

(** The member list and the key store are well formed, and the identifier of the
    conversation is known. *)
Record keys_ok `{LibRe} (k : ccall) : Prop := {
  ko_userl : ul_ok (cc_userl k);
  ko_store : ks_ok (cc_keystore k);
  ko_hash : is_Some (cc_convid_hash k);
}.

(** Events that leave the connect timer alone. *)
Definition spares_connect (e : ck_event) : bool :=
  match e with
  | CkTmrStart TmrConnect _ | CkTmrCancel TmrConnect => false
  | _ => true
  end.

(** A step of the functions on keys. *)
Record kstep `{LibRe} (k k' : ccall) (e : list ck_event) : Prop := {
  st_ok : keys_ok k';
  st_state : cc_state k' = cc_state k;
  st_spares : forallb spares_connect e = true;
}.

Section Keys.
Context `{LS : LibReSpec, SO : Sodium, UE : UlEnv, KE : KsEnv, KL : !KsEnvLen KE, CE : CkEnv}.

Lemma kstep_refl k : keys_ok k → kstep k k [].
Proof. by split. Qed.

Lemma kstep_trans k1 k2 k3 e1 e2 : kstep k1 k2 e1 → kstep k2 k3 e2 → kstep k1 k3 (e1 ++ e2).
Proof.
  intros [_ S1 T1] [K2 S2 T2]. split; [done|congruence|]. by rewrite forallb_app, T1, T2.
Qed.

Abbreviation wp_kstep m k := (wp m (λ _ k' e, kstep k k' e) k).

Lemma kstep_bind {A B} (m : CKM A) (f : A → CKM B) k :
  wp_kstep m k → (∀ a k', keys_ok k' → wp_kstep (f a) k') → wp_kstep (m ≫= f) k.
Proof.
  intros Hm Hf. wp_step. eapply wp_mono; [exact Hm|]. intros a k' e Hk.
  eapply wp_mono; [exact (Hf a k' (st_ok _ _ _ Hk))|]. intros b k'' e' Hk'.
  exact (kstep_trans _ _ _ _ _ Hk Hk').
Qed.

Lemma kstep_get {B} (f : ccall → CKM B) k : wp_kstep (f k) k → wp_kstep (uget ≫= f) k.
Proof. intros Hf. wp_step. by wp_step. Qed.

Lemma kstep_ret {A} (a : A) k : keys_ok k → wp_kstep (mret a : CKM A) k.
Proof. intros. wp_step. by apply kstep_refl. Qed.

Lemma kstep_emit e k : keys_ok k → forallb spares_connect e = true → wp_kstep (uemit e : CKM ()) k.
Proof. intros. wp_step. by split. Qed.

Lemma kstep_modify (f : ccall → ccall) k :
  keys_ok k → cc_userl (f k) = cc_userl k → cc_keystore (f k) = cc_keystore k →
  cc_convid_hash (f k) = cc_convid_hash k → cc_state (f k) = cc_state k →
  wp_kstep (umodify f) k.
Proof.
  intros [K1 K2 K3] E1 E2 E3 E4. wp_step. split; [|done|done]. split; [by rewrite E1|by rewrite E2|by rewrite E3].
Qed.

Lemma kstep_of_ptr {A} (o : option A) k : keys_ok k → is_Some o → wp_kstep (of_ptr o : CKM A) k.
Proof. intros Hk [a ->]. by apply kstep_ret. Qed.

Lemma spares_fmap {A} (f : A → ck_event) es :
  (∀ x, spares_connect (f x) = true) → forallb spares_connect (f <$> es) = true.
Proof. intros Hf. induction es as [|x es IH]; [done|]. cbn. by rewrite Hf. Qed.

Lemma kstep_ul {A} (m : ULM A) k :
  keys_ok k → wp m (λ _ l' _, ul_ok l') (cc_userl k) → wp_kstep (on_ul m) k.
Proof.
  intros [K1 K2 K3] Hm. apply wp_on_ul. eapply wp_mono; [exact Hm|]. intros a l e Hl.
  split; [by split|done|]. by apply spares_fmap.
Qed.

Lemma kstep_store {A} (m : KSM A) k :
  keys_ok k → wp m (λ _ s' _, ks_ok s') (cc_keystore k) → wp_kstep (on_store m) k.
Proof.
  intros [K1 K2 K3] Hm. apply wp_on_store. eapply wp_mono; [exact Hm|]. intros a s e Hs.
  split; [by split|done|]. by apply spares_fmap.
Qed.

(** An operation of the key store. *)
Lemma wp_of_udone {S E A} (m : MU S E A) (P : S → Prop) s :
  wp (udone m) (λ _ s' _, P s') s → wp m (λ _ s' _, P s') s.
Proof.
  unfold wp, udone, mbind, MU_bind. by destruct (m s) as [[[a s'] e]|].
Qed.

Lemma store_op_ok {A} (m : KSM A) op k :
  udone m = ks_exec op → keys_ok k → op_valid op →
  (op = OpRotate → ¬ rotate_wraps (cc_keystore k)) → wp_kstep (on_store m) k.
Proof.
  intros E Hk Hop Hw. apply kstep_store; [done|]. apply wp_of_udone. rewrite E.
  eapply wp_mono; [by apply wp_ks_exec; [apply ko_store| |]|]. by intros a s' e [? _].
Qed.

(** The operations without conditions on their arguments. *)
Lemma store_op_plain {A} (m : KSM A) op k :
  udone m = ks_exec op → keys_ok k →
  match op with
  | OpSetSessionKey _ _ | OpSetFresh _ _ _ _ | OpSetCurrent _ | OpGetMediaKey _ _ | OpRotate => False
  | _ => True
  end → wp_kstep (on_store m) k.
Proof. intros E Hk Hop. by apply (store_op_ok m op k E Hk); destruct op. Qed.

Lemma jiffies_ok k :
  keys_ok k → wp (on_store jiffies) (λ now k' e, kstep k k' e ∧ ∃ n, now = tmr_jiffies n) k.
Proof.
  intros [K1 K2 K3]. apply wp_on_store. unfold jiffies, next_tick. wp_steps.
  split; [|by eexists]. split; [|done|done]. split; [done| |done]. by apply ks_ok_tick.
Qed.

Lemma kstep_jiffies k : keys_ok k → wp_kstep (on_store jiffies) k.
Proof. intros Hk. eapply wp_mono; [by apply jiffies_ok|]. by intros ??? [? _]. Qed.

Lemma kstep_next k : keys_ok k → wp_kstep ck_next k.
Proof.
  intros Hk. unfold ck_next. apply kstep_get, kstep_bind; [by apply kstep_modify|].
  intros. by apply kstep_ret.
Qed.

(** Steps that keep the keys well formed; what is left are the operations whose
    arguments matter. *)
Ltac kstep_plain :=
  lazymatch goal with
  | |- wp (on_store jiffies) _ _ => by apply kstep_jiffies
  | |- wp (on_store keystore_get_current) _ _ => by apply (store_op_plain _ OpGetCurrent)
  | |- wp (on_store keystore_get_max_key) _ _ => by apply (store_op_plain _ OpGetMaxKey)
  | |- wp (on_store keystore_get_decrypt_states) _ _ => by apply (store_op_plain _ OpGetDecryptStates)
  | |- wp (on_store keystore_has_keys) _ _ => by apply (store_op_plain _ OpHasKeys)
  | |- wp (on_store keystore_reset) _ _ => by apply (store_op_plain _ OpReset)
  | |- wp (on_store keystore_reset_keys) _ _ => by apply (store_op_plain _ OpResetKeys)
  | |- wp (on_store (keystore_set_salt ?s)) _ _ => by apply (store_op_plain _ (OpSetSalt s))
  | |- wp (on_store (keystore_get_current_session_key ?s)) _ _ =>
    by apply (store_op_plain _ (OpGetCurrentSessionKey s))
  | |- wp (on_store (keystore_get_next_session_key ?s)) _ _ =>
    by apply (store_op_plain _ (OpGetNextSessionKey s))
  | |- wp (on_store (keystore_rotate_by_time ?s)) _ _ => by apply (store_op_plain _ (OpRotateByTime s))
  | |- wp (on_ul (userlist_get_key_targets ?b)) _ _ =>
    apply kstep_ul; [done|]; apply wp_ok_of_keeps, get_key_targets_keeps; by apply ko_userl
  end.
Ltac kstep_step :=
  lazymatch goal with
  | |- wp (uget ≫= _) _ _ => apply kstep_get
  | |- wp (_ ≫= _) _ _ => apply kstep_bind
  | |- ∀ _, _ => intro
  | |- wp (mret _) _ _ => by apply kstep_ret
  | |- wp (uemit _) _ _ => apply kstep_emit; [done|]; first [reflexivity | by repeat case_match]
  | |- wp (umodify _) _ _ => by apply kstep_modify
  | |- wp ck_next _ _ => by apply kstep_next
  | |- wp (on_store _) _ _ => kstep_plain
  | |- wp (on_ul _) _ _ => kstep_plain
  | |- wp (match ?x with _ => _ end) _ _ => destruct x
  end.
Ltac kstep := repeat first [kstep_step | solve [eauto with ksafe]].

Lemma alloc_confkey_ok r k : keys_ok k → wp_kstep (alloc_confkey r) k.
Proof. intros. unfold alloc_confkey. kstep. Qed.
#[local] Hint Resolve alloc_confkey_ok : ksafe.

Lemma send_confkey_ok r ts k : keys_ok k → wp_kstep (send_confkey r ts) k.
Proof. intros. unfold send_confkey. kstep. Qed.
#[local] Hint Resolve send_confkey_ok : ksafe.

Lemma send_keys_ok all k : keys_ok k → wp_kstep (ccall_send_keys all) k.
Proof. intros. unfold ccall_send_keys. kstep. Qed.
#[local] Hint Resolve send_keys_ok : ksafe.

Lemma new_key_index_range first kg m : 0 <= new_key_index first kg m < 2 ^ 32.
Proof. unfold new_key_index. repeat case_match; first [lia | by apply uwrap_range]. Qed.

Lemma generate_ok buf first k :
  keys_ok k → length buf = E2EE_SESSIONKEY_SIZE →
  wp_kstep (ccall_generate_session_key buf first) k.
Proof.
  intros Hk Hb. unfold ccall_generate_session_key. kstep.
  eapply (store_op_ok _ (OpSetFresh _ _ _ _)); [done..| |done].
  by split; [apply new_key_index_range|].
Qed.

Lemma kg_at k a : keys_ok k → userlist_get_keygenerator (cc_userl k) = Some a →
  is_Some (user_at (cc_userl k) a).
Proof. intros Hk Ha. destruct (user_at_kg _ a (ko_userl k Hk) Ha) as [u ->]. by eexists. Qed.

Lemma request_keys_ok k : keys_ok k → wp_kstep ccall_request_keys k.
Proof.
  intros Hk. unfold ccall_request_keys. kstep_step.
  destruct (userlist_get_keygenerator _) eqn:Ha; kstep.
  apply kstep_of_ptr; [done|]. by apply kg_at.
Qed.
#[local] Hint Resolve request_keys_ok : ksafe.

Lemma rotate_key_ok buf k :
  keys_ok k → length buf = E2EE_SESSIONKEY_SIZE → ¬ rotate_wraps (cc_keystore k) →
  wp_kstep (ccall_rotate_key_timeout buf) k.
Proof.
  intros Hk Hb Hw. unfold ccall_rotate_key_timeout. kstep.
  - by apply (store_op_ok _ OpRotate).
  - by apply generate_ok.
Qed.

Lemma kg_change_ok buf me first k :
  keys_ok k → length buf = E2EE_SESSIONKEY_SIZE →
  wp_kstep (CcallKeys.userlist_kg_change_handler buf me first) k.
Proof.
  intros Hk Hb. unfold CcallKeys.userlist_kg_change_handler. kstep. by apply generate_ok.
Qed.

(** The keys of a message have indices of their C type. *)
Definition keyl_valid (keyl : list (option econn_key_info)) : Prop :=
  ∀ ek, Some ek ∈ keyl → 0 <= ek_idx ek < 2 ^ 32.

Lemma set_keys_ok keyl : ∀ k, keys_ok k → keyl_valid keyl → wp_kstep (set_keys keyl) k.
Proof.
  induction keyl as [|[ek|] keyl IH]; intros k Hk Hv; cbn [set_keys]; [kstep|..].
  all: assert (Hv' : keyl_valid keyl) by (intros x Hx; apply Hv; by right).
  - kstep; [|by apply IH..]. apply (store_op_ok _ (OpSetSessionKey (ek_idx ek) (ek_data ek))); [done..| |done].
    apply Hv. by left.
  - by apply IH.
Qed.

Lemma recv_resp_ok uid cid keyl k :
  keys_ok k → keyl_valid keyl → wp_kstep (recv_confkey_resp uid cid keyl) k.
Proof.
  intros Hk Hv. unfold recv_confkey_resp. kstep_step.
  destruct (userlist_get_keygenerator _) eqn:Ha; kstep; [|by apply set_keys_ok].
  apply kstep_of_ptr; [done|]. by apply kg_at.
Qed.

Lemma set_user_ok a f k :
  (∀ u, ui_ids (f u) = ui_ids u) → keys_ok k → wp_kstep (on_ul (set_user a f)) k.
Proof.
  intros Hf Hk. apply kstep_ul; [done|]. apply wp_ok_of_keeps; [by apply ko_userl|].
  by apply wp_keeps_set_user.
Qed.

Lemma recv_req_ok uid cid k : keys_ok k → wp_kstep (recv_confkey_req uid cid) k.
Proof. intros Hk. unfold recv_confkey_req. kstep. by apply set_user_ok. Qed.

Context (Hclock : ∀ n, CCALL_MLS_KEY_AGE < tmr_jiffies n).

Lemma rotate_mls_ok k : keys_ok k → wp_kstep ccall_rotate_mls_timeout k.
Proof.
  intros Hk. unfold ccall_rotate_mls_timeout. kstep_step. destruct (_ && _); [|kstep].
  wp_step. eapply wp_mono; [by apply jiffies_ok|]. intros now k' e [Hs [n ->]].
  rewrite (proj2 (Z.ltb_lt _ _) (Hclock n)). cbn [negb].
  eapply wp_mono; [|intros ? ? ? Hs'; exact (kstep_trans _ _ _ _ _ Hs Hs')].
  apply st_ok in Hs. kstep.
Qed.

Lemma sync_props_ok k : keys_ok k → wp_kstep ccall_sync_props k.
Proof. intros Hk. unfold ccall_sync_props. kstep. Qed.
#[local] Hint Resolve rotate_mls_ok sync_props_ok : ksafe.

Lemma sync_media_keys_ok k : keys_ok k → wp_kstep ccall_sync_media_keys k.
Proof.
  intros Hk. unfold ccall_sync_media_keys. kstep. apply kstep_store; [done|].
  eapply wp_mono; [by apply wp_set_current, ko_store|]. by intros ? ? ? [[? _] _].
Qed.
#[local] Hint Resolve sync_media_keys_ok : ksafe.

Lemma set_media_key_ok epoch key k :
  keys_ok k → 0 <= epoch < 2 ^ 32 → wp_kstep (ccall_set_media_key epoch key) k.
Proof.
  intros Hk He. unfold ccall_set_media_key. kstep.
  - by apply (store_op_ok _ (OpSetSessionKey epoch key)).
  - apply kstep_ul; [done|]. apply wp_ok_of_keeps; [by apply ko_userl|].
    apply set_latest_epoch_keeps.
Qed.
End Keys.
