(* ===== verification/CcallSft.v ===== *)
(** * The URLs of SFT servers ([src/ccall/ccall.c])

    A conference call names its servers by URLs that come from the
    configuration, from other clients and from the servers themselves, with and
    without a slash at the end.  [copy_sft] brings a URL into the form with a
    slash, [sfts_equal] compares two URLs up to that slash, and the functions on
    the configuration look servers up with it. *)

From Stdlib Require Import Ascii.
From S2P Require Import Prelude LibRe EconnMsg.

#[local] Open Scope string_scope.

Definition SLASH : Ascii.ascii := "/"%char.

(** [s\[strlen(s) - 1\] == '/'], for a string that is not empty. *)
Definition ends_with_slash (s : string) : bool :=
  match String.get (String.length s - 1) s with
  | Some c => Ascii.eqb c SLASH
  | None => false
  end.

(** [copy_sft]: the error code and the new string; [None] when the character in
    front of an empty string is read.  [mem_ok] tells whether the allocation
    succeeds. *)
Definition copy_sft (mem_ok : bool) (src : string) : option (Z * option string) :=
  if negb mem_ok then Some (ENOMEM, None)
  else if (String.length src =? 0)%nat then None
  else Some (0, Some (if ends_with_slash src then src else src ++ "/")).

(** [sfts_equal] *)
Definition sfts_equal (sfta sftb : option string) : bool :=
  match sfta, sftb with
  | Some a, Some b =>
    let lena := (String.length a - if ends_with_slash a then 1 else 0)%nat in
    let lenb := (String.length b - if ends_with_slash b then 1 else 0)%nat in
    if negb (lena =? lenb)%nat then false
    else String.eqb (String.substring 0 lena a) (String.substring 0 lena b)
  | _, _ => false
  end.

(** The loop of [ccall_sftlist_changed], over lists of the same length. *)
Fixpoint sftlist_differs (lista listb : list string) : bool :=
  match lista, listb with
  | a :: lista, b :: listb =>
    if negb (sfts_equal (Some a) (Some b)) then true else sftlist_differs lista listb
  | _, _ => false
  end.

(** [ccall_sftlist_changed] *)
Definition ccall_sftlist_changed (lista listb : list string) : bool :=
  if negb (length lista =? length listb)%nat then true else sftlist_differs lista listb.

(** ** The configuration *)

(** [struct call_config], as far as conference calls use it. *)
Record call_config := {
  cfg_iceservers : list zapi_ice_server;
  cfg_sftservers : list zapi_ice_server;
  cfg_sftservers_all : list zapi_ice_server;
  cfg_sfticeservers : list zapi_ice_server;
  cfg_is_federating : bool;
}.

(** [config_get_sftservers], [config_get_sftservers_all] and
    [config_get_sfticeservers]: [NULL] for an empty array. *)
Definition config_get (servers : list zapi_ice_server) : option (list zapi_ice_server) :=
  match servers with [] => None | _ => Some servers end.

(** [ccall_get_sft_info] *)
Definition ccall_get_sft_info (cfg : call_config) (sft_url : option string)
    : option zapi_ice_server :=
  match sft_url, config_get (cfg_sftservers_all cfg) with
  | Some url, Some sftv => List.find (λ s, sfts_equal (Some url) (Some (srv_url s))) sftv
  | _, _ => None
  end.

(** [ccall_get_sft_info_at_index] *)
Definition ccall_get_sft_info_at_index (cfg : call_config) (ix : nat) : option zapi_ice_server :=
  match config_get (cfg_sftservers_all cfg) with
  | Some sftv => sftv !! ix
  | None => None
  end.

(** [ccall_can_connect_sft] *)
Definition ccall_can_connect_sft (cfg : call_config) (sft_url : option string) : bool :=
  match sft_url with
  | None => false
  | Some url =>
    match cfg_sftservers_all cfg with
    | [] => true
    | _ => bool_decide (is_Some (ccall_get_sft_info cfg (Some url)))
    end
  end.

(** ** Facts *)

(** The URL without a slash at the end. *)
Definition strip (s : string) : string :=
  if ends_with_slash s then String.substring 0 (String.length s - 1) s else s.

Lemma substring_all s : String.substring 0 (String.length s) s = s.
Proof. induction s as [|c s IH]; cbn; [done|by rewrite IH]. Qed.

Lemma length_substring_0 n s :
  (n ≤ String.length s)%nat → String.length (String.substring 0 n s) = n.
Proof.
  revert n. induction s as [|c s IH]; intros [|n] Hn; cbn in *; try done; [lia|].
  by rewrite IH by lia.
Qed.

Lemma strip_substring s :
  strip s = String.substring 0 (String.length s - if ends_with_slash s then 1 else 0)%nat s.
Proof.
  unfold strip. destruct (ends_with_slash s); [done|]. by rewrite Nat.sub_0_r, substring_all.
Qed.

Lemma ends_with_slash_split s : ends_with_slash s = true → s = strip s ++ "/".
Proof.
  intros Hs. unfold strip. rewrite Hs. revert Hs. unfold ends_with_slash.
  induction s as [|c s IH]; [done|]. destruct s as [|d s].
  - cbn. intros ->%Ascii.eqb_eq. done.
  - cbn [String.length]. replace (S (S (String.length s)) - 1)%nat
      with (S (S (String.length s) - 1)) by lia.
    cbn [String.get String.substring]. intros Hs.
    change (String c (String d s)
      = String c (String.substring 0 (S (String.length s) - 1) (String d s) ++ "/")).
    f_equal. by apply IH.
Qed.

Lemma sfts_equal_strip a b : sfts_equal (Some a) (Some b) = true ↔ strip a = strip b.
Proof.
  unfold sfts_equal. cbn zeta. rewrite !strip_substring.
  set (la := (String.length a - _)%nat). set (lb := (String.length b - _)%nat).
  assert (Ha : String.length (String.substring 0 la a) = la)
    by (apply length_substring_0; unfold la; lia).
  assert (Hb : String.length (String.substring 0 lb b) = lb)
    by (apply length_substring_0; unfold lb; lia).
  destruct (Nat.eqb_spec la lb) as [E|E]; cbn [negb].
  - rewrite String.eqb_eq, <- E. done.
  - split; [done|]. intros Heq. exfalso. apply E. rewrite <- Ha, <- Hb. by rewrite Heq.
Qed.

Lemma get_last s : String.get (String.length s) (s ++ "/") = Some SLASH.
Proof. by induction s. Qed.

Lemma length_slash s : String.length (s ++ "/") = S (String.length s).
Proof. induction s as [|c s IH]; [done|]. by change (S (String.length (s ++ "/")) = S (S (String.length s))); rewrite IH. Qed.

Lemma ends_with_slash_app s : ends_with_slash (s ++ "/") = true.
Proof.
  unfold ends_with_slash. rewrite length_slash, Nat.sub_1_r. cbn [pred].
  by rewrite get_last.
Qed.

Lemma append_slash_inj s t : s ++ "/" = t ++ "/" → s = t.
Proof.
  revert t. induction s as [|c s IH]; intros [|d t] E.
  - done.
  - injection E as _ E. by destruct t.
  - injection E as _ E. by destruct s.
  - change (String c (s ++ "/") = String d (t ++ "/")) in E. injection E as -> E.
    f_equal. by apply IH.
Qed.

Lemma strip_slash s : strip (s ++ "/") = s.
Proof.
  apply append_slash_inj. symmetry. apply ends_with_slash_split, ends_with_slash_app.
Qed.

Lemma copy_sft_spec src :
  src ≠ "" → copy_sft true src = Some (0, Some (strip src ++ "/")).
Proof.
  intros Hs. unfold copy_sft. cbn [negb].
  destruct (Nat.eqb_spec (String.length src) 0) as [E|E].
  - by destruct src.
  - do 3 f_equal. destruct (ends_with_slash src) eqn:He.
    + by apply ends_with_slash_split.
    + unfold strip. by rewrite He.
Qed.

(** URLs of servers are compared up to a slash at the end: two URLs are
    equal exactly when [copy_sft] makes the same string of them, which ends with
    a slash, is equal to either and is left alone by a second [copy_sft]; of an
    empty URL [copy_sft] reads the character in front of it. *)
Theorem sft_urls_normalised a b :
  a ≠ "" → b ≠ "" →
  (sfts_equal (Some a) (Some b) = true ↔ copy_sft true a = copy_sft true b) ∧
  (∃ u, copy_sft true a = Some (0, Some u) ∧ ends_with_slash u = true ∧
        sfts_equal (Some a) (Some u) = true ∧ copy_sft true u = Some (0, Some u)) ∧
  copy_sft true "" = None.
Proof.
  intros Ha Hb. rewrite sfts_equal_strip, !copy_sft_spec by done. split_and!; [|clear Hb|done].
  - split; [by intros ->|]. intros [= E]. by apply append_slash_inj.
  - exists (strip a ++ "/"). rewrite sfts_equal_strip, strip_slash, ends_with_slash_app.
    split_and!; [done..|]. rewrite copy_sft_spec, strip_slash; [done|]. by destruct (strip a).
Qed.

Lemma sft_urls_normalised_witness :
  (sfts_equal (Some "https://sft.wire/") (Some "https://sft.wire") = true
   ↔ copy_sft true "https://sft.wire/" = copy_sft true "https://sft.wire") ∧
  (∃ u, copy_sft true "https://sft.wire/" = Some (0, Some u) ∧ ends_with_slash u = true ∧
        sfts_equal (Some "https://sft.wire/") (Some u) = true ∧
        copy_sft true u = Some (0, Some u)) ∧
  copy_sft true "" = None.
Proof. apply sft_urls_normalised; discriminate. Defined.
