(* ===== verification/Config.v ===== *)
(** * The call configuration ([src/config/config.c])

    The servers of the backend, requested by the application when the library asks
    for them and kept up to date by a timer.  [config] is the struct; [struct
    call_config] is [server_config], four arrays with their counts and a flag.  An
    array is a pointer ([None] is [NULL]) beside a count that is stored separately.
    Requests and update callbacks are events; the result of the request handler and
    the time are arguments. *)

From S2P Require Import Prelude LibRe LibReJson Jzon EconnMsg EconnFmt.

#[local] Open Scope string_scope.
#[local] Open Scope Z_scope.
#[local] Open Scope list_scope.

(** ** Data *)

Definition EXPIRY_MIN : Z := 300.
Definition EXPIRY_MAX : Z := 3600.

(** An array of servers and its count. *)
Record server_array := {
  sv_v : option (list zapi_ice_server);
  sv_c : nat;
}.

(** [struct call_config] *)
Record server_config := {
  sc_iceserver : server_array;
  sc_sftserver : server_array;
  sc_sftservers_all : server_array;
  sc_sfticeserver : server_array;
  sc_is_federating : bool;
}.

(** [struct config_update_elem]; [ue_cfg] tells whether [cfg] is set. *)
Record config_update_elem := {
  ue_addr : nat;
  ue_updh : bool;
  ue_arg : nat;
  ue_cfg : bool;
}.

(** [struct config] *)
Record config := {
  cg_updh : bool;
  cg_reqh : bool;
  cg_tmr : option Z;
  cg_expires_ts : Z;
  cg_is_updating : bool;
  cg_config : server_config;
  cg_updl : list config_update_elem;
}.

Inductive config_event :=
| CgRequest
| CgUpdate (elem : option nat) (config : server_config).

Abbreviation CGM := (M config config_event).

(** The four arrays: the JSON member an array is read from, the field, and whether
    an empty array is an error. *)
Inductive server_kind := ICE_SERVERS | SFT_SERVERS | SFT_SERVERS_ALL | SFT_ICE_SERVERS.

Definition kind_key (k : server_kind) : string :=
  match k with
  | ICE_SERVERS => "ice_servers"
  | SFT_SERVERS => "sft_servers"
  | SFT_SERVERS_ALL => "sft_servers_all"
  | SFT_ICE_SERVERS => "sft_ice_servers"
  end.
Definition kind_required (k : server_kind) : bool :=
  match k with SFT_ICE_SERVERS => false | _ => true end.
Definition kind_get (k : server_kind) (s : server_config) : server_array :=
  match k with
  | ICE_SERVERS => sc_iceserver s
  | SFT_SERVERS => sc_sftserver s
  | SFT_SERVERS_ALL => sc_sftservers_all s
  | SFT_ICE_SERVERS => sc_sfticeserver s
  end.
Definition kind_set (k : server_kind) (a : server_array) (s : server_config) : server_config :=
  match k with
  | ICE_SERVERS => {| s with sc_iceserver := a |}
  | SFT_SERVERS => {| s with sc_sftserver := a |}
  | SFT_SERVERS_ALL => {| s with sc_sftservers_all := a |}
  | SFT_ICE_SERVERS => {| s with sc_sfticeserver := a |}
  end.

(** ** Requests and allocation *)

(** [do_request]; [ret] is what the request handler returns. *)
Definition do_request (ret : Z) : CGM Z :=
  modify (λ c, {| c with cg_tmr := None |});;
  c ← get;
  if cg_reqh c then
    modify (λ c, {| c with cg_is_updating := true |});;
    emit CgRequest;;
    mret ret
  else mret 0.

(** [tmr_handler] *)
Definition tmr_handler (ret : Z) : CGM () := _ ← do_request ret; mret ().

Definition no_servers : server_array := {| sv_v := None; sv_c := 0 |}.

(** [config_alloc] *)
Definition config_alloc (reqh updh mem : bool) : Z + config :=
  if negb mem then inl ENOMEM
  else inr {|
    cg_updh := updh; cg_reqh := reqh; cg_tmr := None; cg_expires_ts := 0;
    cg_is_updating := false;
    cg_config := {| sc_iceserver := no_servers; sc_sftserver := no_servers;
                    sc_sftservers_all := no_servers; sc_sfticeserver := no_servers;
                    sc_is_federating := false |};
    cg_updl := [] |}.

(** ** Updates *)

Section Update.
Context `{LibRe, LibReJson}.

(** One array of the response: the old array is released before the new one is
    read, its count stays until there is a new one. *)
Definition read_servers (jobj : json_object) (k : server_kind) : CGM Z :=
  match jzon_array (Some jobj) (kind_key k) with
  | inl _ => mret 0
  | inr jarr =>
    modify (λ c, {| c with cg_config := kind_set k
      {| sv_v := None; sv_c := sv_c (kind_get k (cg_config c)) |} (cg_config c) |});;
    match zapi_iceservers_decode jarr with
    | inl err => mret err
    | inr srvv =>
      modify (λ c, {| c with cg_config := kind_set k
        {| sv_v := Some srvv; sv_c := length srvv |} (cg_config c) |});;
      mret (if kind_required k && (length srvv =? 0)%nat then ENOENT else 0)
    end
  end.

Definition read_federating (jobj : json_object) : CGM () :=
  modify (λ c, {| c with cg_config := let s := cg_config c in
    {| s with sc_is_federating :=
       match jzon_bool (Some jobj) "is_federating" with
       | inr b => b
       | inl _ => (0 <? sv_c (sc_sftservers_all s))%nat
       end |} |}).

(** The arrays in the order of the code; the first error ends it. *)
Fixpoint read_kinds (jobj : json_object) (ks : list server_kind) : CGM Z :=
  match ks with
  | [] => mret 0
  | k :: ks =>
    err ← read_servers jobj k;
    if negb (err =? 0) then mret err else read_kinds jobj ks
  end.
Definition read_config (jobj : json_object) : CGM Z :=
  err ← read_kinds jobj [ICE_SERVERS; SFT_SERVERS; SFT_SERVERS_ALL];
  if negb (err =? 0) then mret err
  else read_federating jobj;; read_servers jobj SFT_ICE_SERVERS.

(** The update handlers, in the order of the list. *)
Fixpoint notify_loop (l : list config_update_elem) : CGM () :=
  match l with
  | [] => mret ()
  | u :: l =>
    c ← get;
    (when (ue_updh u) (emit (CgUpdate (Some (ue_addr u)) (cg_config c))));;
    notify_loop l
  end.
Definition notify : CGM () :=
  c ← get;
  (when (cg_updh c) (emit (CgUpdate None (cg_config c))));;
  notify_loop (cg_updl c).

(** The time to live in seconds, within its limits. *)
Definition ttl_of (jobj : json_object) : Z :=
  Z.max (Z.min (or_keep (jzon_u32 (Some jobj) "ttl") 0) EXPIRY_MAX) EXPIRY_MIN.

(** [config_update] *)
Definition config_update (err : Z) (conf_json : option string) (now : Z) : CGM Z :=
  match conf_json with
  | None => mret EINVAL
  | Some text =>
    modify (λ c, {| c with cg_is_updating := false |});;
    if negb (err =? 0) then
      modify (λ c, {| c with cg_tmr := Some (60 * 1000) |});; mret 0
    else
      match jzon_decode (Some text) with
      | inl err => mret err
      | inr jobj =>
        let ttl := ttl_of jobj in
        modify (λ c, {| c with cg_expires_ts := u64 (now + u32 (ttl * 1000)) |});;
        err ← read_config jobj;
        if negb (err =? 0) then
          modify (λ c, {| c with cg_tmr := Some (60 * 1000) |});; mret err
        else
          modify (λ c, {| c with cg_tmr := Some (u32 (u32 (ttl * 9) / 10 * 1000)) |});;
          notify;;
          mret 0
      end
  end.

End Update.

(** ** The rest of the interface *)

(** [config_start], [config_stop], [config_request] *)
Definition config_start (ret : Z) : CGM Z := do_request ret.
Definition config_stop : CGM () := modify (λ c, {| c with cg_tmr := None |}).
Definition config_request (ret : Z) : CGM Z := do_request ret.

(** The pointer that is returned, and the count if it is written. *)
Definition get_servers (k : server_kind) (c : config)
    : option (list zapi_ice_server) * option nat :=
  let a := kind_get k (cg_config c) in
  if (sv_c a =? 0)%nat then (None, None) else (sv_v a, Some (sv_c a)).

(** [config_get_iceservers], [config_get_sftservers], [config_get_sftservers_all],
    [config_get_sfticeservers], [config_is_federating] *)
Definition config_get_iceservers := get_servers ICE_SERVERS.
Definition config_get_sftservers := get_servers SFT_SERVERS.
Definition config_get_sftservers_all := get_servers SFT_SERVERS_ALL.
Definition config_get_sfticeservers := get_servers SFT_ICE_SERVERS.
Definition config_is_federating (c : config) : bool := sc_is_federating (cg_config c).

(** [config_register_update_handler]; an element that is in the list stays where it
    is. *)
Definition config_register_update_handler (u : config_update_elem) : CGM Z :=
  if negb (ue_updh u) then mret ENOSYS
  else
    modify (λ c, {| c with cg_updl :=
      if bool_decide (ue_addr u ∈ ue_addr <$> cg_updl c) then cg_updl c
      else cg_updl c ++ [{| u with ue_cfg := true |}] |});;
    mret 0.

(** [config_unregister_update_handler] *)
Definition config_unregister_update_handler (u : config_update_elem) : CGM Z :=
  if negb (ue_cfg u) then mret ENOSYS
  else
    modify (λ c, {| c with cg_updl := filter (λ v, ue_addr v ≠ ue_addr u) (cg_updl c) |});;
    mret 0.

(** [config_unregister_all_updates]; [arg] is not [NULL].  The next element is read
    before the current one is removed. *)
Fixpoint unregister_loop (l : list config_update_elem) (arg : nat) : CGM () :=
  match l with
  | [] => mret ()
  | u :: l =>
    (when (ue_arg u =? arg)%nat (_ ← config_unregister_update_handler u; mret ()));;
    unregister_loop l arg
  end.
Definition config_unregister_all_updates (arg : nat) : CGM Z :=
  c ← get; unregister_loop (cg_updl c) arg;; mret 0.

(** [config_needs_update] *)
Definition config_needs_update (c : config) (now : Z) : bool :=
  cg_is_updating c || (cg_expires_ts c <=? now).

(** ** Operations *)

Inductive config_op :=
| CgStart (ret : Z)
| CgStop
| CgAsk (ret : Z)
| CgResponse (err : Z) (text : option string) (now : Z)
| CgTimer (ret : Z)
| CgRegister (u : config_update_elem)
| CgUnregister (u : config_update_elem)
| CgUnregisterAll (arg : nat).

Definition config_exec `{LibRe, LibReJson} (o : config_op) : CGM () :=
  match o with
  | CgStart ret => _ ← config_start ret; mret ()
  | CgStop => config_stop
  | CgAsk ret => _ ← config_request ret; mret ()
  | CgResponse err text now => _ ← config_update err text now; mret ()
  | CgTimer ret => c ← get; when (bool_decide (cg_tmr c ≠ None)) (tmr_handler ret)
  | CgRegister u => _ ← config_register_update_handler u; mret ()
  | CgUnregister u => _ ← config_unregister_update_handler u; mret ()
  | CgUnregisterAll arg => _ ← config_unregister_all_updates arg; mret ()
  end.
