(* ===== verification/ConfigProps.v ===== *)
(** * Properties of the call configuration

    A response of the backend ([response]) is read into the configuration and
    announced; the configuration is requested again before it expires; what an
    unreadable response does; and the configuration as conference calls see it. *)

From stdpp Require Import gmap.
From S2P Require Import Prelude LibRe LibReJson Jzon EconnMsg EconnFmt EconnFmtSpec EconnFmtProps CcallSft Config.

#[local] Open Scope string_scope.
#[local] Open Scope Z_scope.
#[local] Open Scope list_scope.

(** ** Responses *)

(** A server as the backend writes it: its URLs are an array, of which the first is
    used, or a string, under one of two names; user name and credential may be
    missing. *)
Inductive written_urls :=
| UrlArray (url : string) (others : list string)
| UrlsString (url : string)
| UrlString (url : string).
Record written_server := {
  ws_urls : written_urls;
  ws_username : option string;
  ws_credential : option string;
}.
Definition written_url (u : written_urls) : string :=
  match u with UrlArray url _ | UrlsString url | UrlString url => url end.
Definition server_of (w : written_server) : zapi_ice_server := {|
  srv_url := written_url (ws_urls w); srv_username := default "" (ws_username w);
  srv_credential := default "" (ws_credential w) |}.

(** A response: the time to live, the arrays that are not empty, and the flag if it
    is there. *)
Record response := {
  rs_ttl : Z;
  rs_servers : server_kind → list written_server;
  rs_federating : option bool;
}.

Section Response.
Context `{LibReSpec} `{!LibReJson} `{!LibReJsonSpec}.

Definition url_field (u : written_urls) : field :=
  match u with
  | UrlArray url others => array_field "urls" (ODICT_STRING <$> (url :: others))
  | UrlsString url => str_field "urls" url
  | UrlString url => str_field "url" url
  end.
Definition written_fields (w : written_server) : list field :=
  [url_field (ws_urls w); opt_field "username" (ws_username w);
   opt_field "credential" (ws_credential w)].
Definition servers_field (r : response) (k : server_kind) : field :=
  array_field_ne (kind_key k) ((λ w, obj (written_fields w)) <$> rs_servers r k).
Definition response_fields (r : response) : list field :=
  [int_field "ttl" (rs_ttl r); servers_field r ICE_SERVERS; servers_field r SFT_SERVERS;
   servers_field r SFT_SERVERS_ALL; ("is_federating", ODICT_BOOL <$> rs_federating r);
   servers_field r SFT_ICE_SERVERS].
Definition response_text (r : response) : string := json_encode_odict (present (response_fields r)).

Record response_ok (r : response) : Prop := {
  ro_ttl : 0 <= rs_ttl r < 2 ^ 32;
  ro_servers : ∀ k, turnv_fits (server_of <$> rs_servers r k);
}.

(** The servers after a response: an array that is missing stays as it was. *)
Definition servers_after (r : response) (s : server_config) (k : server_kind) : server_array :=
  match rs_servers r k with
  | [] => kind_get k s
  | ws => {| sv_v := Some (server_of <$> ws); sv_c := length ws |}
  end.
Definition config_after (r : response) (s : server_config) : server_config := {|
  sc_iceserver := servers_after r s ICE_SERVERS;
  sc_sftserver := servers_after r s SFT_SERVERS;
  sc_sftservers_all := servers_after r s SFT_SERVERS_ALL;
  sc_sfticeserver := servers_after r s SFT_ICE_SERVERS;
  sc_is_federating :=
    default (0 <? sv_c (servers_after r s SFT_SERVERS_ALL))%nat (rs_federating r) |}.
Definition ttl_after (r : response) : Z := Z.max (Z.min (rs_ttl r) EXPIRY_MAX) EXPIRY_MIN.

Lemma written_ok ws : Forall (json_ok 2) ((λ w, obj (written_fields w)) <$> ws).
Proof.
  apply Forall_fmap, Forall_true. intros [[url others|url|url] u c]; apply present_ok; try keys_differ.
  all: repeat (apply Forall_cons; split); try apply Forall_nil_2; try apply opt_field_ok.
  all: first [apply array_field_ok, strings_ok | apply str_field_ok].
Qed.
Lemma server_decodes w : srv_fits (server_of w) → iceserver_decode (obj (written_fields w)) = inr (server_of w).
Proof.
  destruct w as [[url others|url|url] [u|] [c|]]; intros (Hu & Hn & Hc); cbn in Hu, Hn, Hc.
  all: try (pose proof (array_get_numbered (ODICT_STRING <$> (url :: others)) 0) as Hi; change (Z.of_nat 0) with 0 in Hi; cbn in Hi).
  all: unfold iceserver_decode, written_fields, server_of, url_field.
  all: read; unfold ncpy0; cbn; rewrite ?Hi; cbn; by rewrite !str_ncpy_fits by done.
Qed.

Lemma response_json_ok r : json_ok 4 (obj (response_fields r)).
Proof.
  apply present_ok; [keys_differ|]. unfold response_fields, servers_field.
  repeat (apply Forall_cons; split); try apply Forall_nil_2;
    first [apply int_field_ok | apply array_field_ne_ok, written_ok | apply bool_opt_ok].
Qed.
Lemma response_decodes r : jzon_decode (Some (response_text r)) = inr (obj (response_fields r)).
Proof. apply (decode_text 4); [apply response_json_ok|lia]. Qed.

Lemma response_field r k :
  json_object_object_get_ex (Some (obj (response_fields r))) (kind_key k)
  = if (0 <? length (rs_servers r k))%nat
    then Some (ODICT_ARRAY (numbered ((λ w, obj (written_fields w)) <$> rs_servers r k))) else None.
Proof.
  rewrite get_obj by keys_differ.
  destruct k; cbn -[numbered Nat.ltb]; by rewrite length_fmap.
Qed.

Lemma response_array r k :
  jzon_array (Some (obj (response_fields r))) (kind_key k)
  = match rs_servers r k with
    | [] => inl ENOENT
    | ws => inr (ODICT_ARRAY (numbered ((λ w, obj (written_fields w)) <$> ws)))
    end.
Proof.
  unfold jzon_array, generic_object. rewrite response_field.
  destruct (rs_servers r k); cbn -[numbered]; [done|]. by rewrite bool_decide_true.
Qed.

Lemma response_ttl r : response_ok r → ttl_of (obj (response_fields r)) = ttl_after r.
Proof.
  intros []. unfold ttl_of, ttl_after. unfold jzon_u32, jzon_typed. rewrite get_obj by keys_differ.
  cbn -[s32 uwrap]. rewrite bool_decide_true by done. cbn [or_keep]. by rewrite u32_s32.
Qed.
Lemma response_fed r :
  jzon_bool (Some (obj (response_fields r))) "is_federating"
  = match rs_federating r with Some b => inr b | None => inl ENOENT end.
Proof.
  unfold jzon_bool, jzon_typed. rewrite get_obj by keys_differ.
  cbn. destruct (rs_federating r); [|done]. cbn. by rewrite bool_decide_true.
Qed.

(** One array of a response. *)
Lemma read_servers_eval r k c :
  response_ok r →
  read_servers (obj (response_fields r)) k c
  = (0, {| c with cg_config := kind_set k (servers_after r (cg_config c) k) (cg_config c) |}, []).
Proof.
  intros Hr. unfold read_servers, servers_after. rewrite response_array.
  pose proof (ro_servers r Hr k) as [Hf Hl]. rewrite length_fmap in Hl.
  rewrite Forall_fmap in Hf. destruct (rs_servers r k) as [|s l].
  - destruct c as [? ? ? ? ? [] ?], k; done.
  - rewrite (iceservers_decode_written written_fields server_of); [|by eapply Forall_impl; [exact Hf|]; intros w; apply server_decodes|done].
    destruct c as [? ? ? ? ? [] ?], k; unfold modify, mbind, M_bind, mret, M_ret; cbn; by rewrite length_fmap.
Qed.

Lemma read_kinds_cons r k ks c :
  response_ok r →
  read_kinds (obj (response_fields r)) (k :: ks) c
  = read_kinds (obj (response_fields r)) ks
      {| c with cg_config := kind_set k (servers_after r (cg_config c) k) (cg_config c) |}.
Proof.
  intros Hr. cbn [read_kinds]. unfold mbind, M_bind. rewrite read_servers_eval by done.
  cbn. by destruct (read_kinds _ _ _) as [[? ?] ?].
Qed.

Lemma read_config_eval r c :
  response_ok r →
  read_config (obj (response_fields r)) c
  = (0, {| c with cg_config := config_after r (cg_config c) |}, []).
Proof.
  intros Hr. unfold read_config, mbind, M_bind. rewrite !read_kinds_cons by done.
  cbn [read_kinds mret M_ret]. cbn [negb Z.eqb]. unfold read_federating, modify.
  rewrite response_fed, read_servers_eval by done. cbn [app].
  destruct c as [? ? ? ? ? [] ?]. unfold config_after, servers_after. cbn.
  by destruct (rs_federating r).
Qed.

(** The handlers that are told, in order. *)
Definition told (c : config) (s : server_config) : list config_event :=
  (if cg_updh c then [CgUpdate None s] else [])
  ++ ((λ u, CgUpdate (Some (ue_addr u)) s) <$> filter (λ u, ue_updh u = true) (cg_updl c)).

Lemma notify_loop_eval l c :
  notify_loop l c
  = ((), c, (λ u, CgUpdate (Some (ue_addr u)) (cg_config c)) <$> filter (λ u, ue_updh u = true) l).
Proof.
  induction l as [|u l IH]; [done|]. cbn [notify_loop]. unfold mbind, M_bind, get, when, emit, mret, M_ret.
  rewrite filter_cons. destruct (ue_updh u) eqn:Hu; rewrite IH.
  - by rewrite decide_True.
  - by rewrite decide_False.
Qed.
Lemma notify_eval c : notify c = ((), c, told c (cg_config c)).
Proof.
  unfold notify, told, mbind, M_bind, get, when, emit, mret, M_ret.
  destruct (cg_updh c); by rewrite notify_loop_eval.
Qed.

Lemma ttl_bounds r : EXPIRY_MIN <= ttl_after r <= EXPIRY_MAX.
Proof. unfold ttl_after, EXPIRY_MIN, EXPIRY_MAX. lia. Qed.

(** C21: A response of the backend is read as it was written.  It has a time to live of
    32 bits and any of the four arrays of servers, none of them empty; the URLs of a
    server are an array, of which the first is used, or a string, user name and
    credential may be missing, and all of them fit their fields ([response_ok]).
    Every array that is there replaces the old one, the others stay, the flag is the
    one in the response or says whether there are federated servers; the owner and
    then every registered handler are told, in the order of registration; and the
    configuration is valid for the time to live within its limits, and requested again
    when nine tenths of it have passed, before it expires (the clock does not overflow
    within the hour). *)
Theorem config_response_applied r c now :
  response_ok r → 0 <= now → now + 3600000 < 2 ^ 64 →
  ∃ c' d,
    config_update 0 (Some (response_text r)) now c
      = (0, c', told c (config_after r (cg_config c)))
    ∧ cg_config c' = config_after r (cg_config c)
    ∧ cg_tmr c' = Some d ∧ d = ttl_after r * 9 / 10 * 1000
    ∧ 270000 <= d < cg_expires_ts c' - now
    ∧ ∀ t, now <= t <= now + d → config_needs_update c' t = false.
Proof.
  intros Hr Hn0 Hn. pose proof (ttl_bounds r) as Ht. unfold EXPIRY_MIN, EXPIRY_MAX in Ht.
  assert (u32 (u32 (ttl_after r * 9) / 10 * 1000) = ttl_after r * 9 / 10 * 1000) as Ed.
  { rewrite (uwrap_small 32 (ttl_after r * 9)) by lia. apply uwrap_small. lia_div. }
  assert (u64 (now + u32 (ttl_after r * 1000)) = now + ttl_after r * 1000) as Ee.
  { rewrite (uwrap_small 32) by lia. apply uwrap_small. lia. }
  eexists _, _. split.
  { unfold config_update, mbind, M_bind, modify. cbn [negb Z.eqb]. rewrite response_decodes.
    rewrite response_ttl by done. cbn [fst snd]. rewrite read_config_eval by done.
    cbn [negb Z.eqb]. rewrite notify_eval, Ed, Ee. unfold mret, M_ret. rewrite app_nil_r.
    destruct c. reflexivity. }
  destruct c. cbn. unfold config_needs_update. cbn.
  split; [done|]. split; [done|]. split; [done|]. split; [lia_div|].
  intros t Hti. apply Z.leb_gt. lia_div.
Qed.
End Response.

(** ** Refreshing *)

Create HintDb cfg.

Section Refresh.
Context `{LibRe, LibReJson}.

(** A sequence of operations: the configuration it leaves and its events. *)
Fixpoint config_run (os : list config_op) (c : config) : config * list config_event :=
  match os with
  | [] => (c, [])
  | o :: os =>
    let r := config_exec o c in
    let r' := config_run os (final r) in (r'.1, events r ++ r'.2)
  end.

(** The timer runs. *)
Definition scheduled (c : config) : Prop := ∃ d, cg_tmr c = Some d ∧ 60000 <= d <= 3240000.

(** A request was made and no response has come since; [b] says whether one was
    outstanding before. *)
Definition is_request (e : config_event) : bool := match e with CgRequest => true | _ => false end.
Definition awaits (b : bool) (o : config_op) (c : config) : bool :=
  match o with
  | CgResponse _ _ _ => false
  | _ => b || existsb is_request (events (config_exec o c))
  end.
Fixpoint outstanding (b : bool) (os : list config_op) (c : config) : bool :=
  match os with
  | [] => b
  | o :: os => outstanding (awaits b o c) os (final (config_exec o c))
  end.

(** The library is not stopped, the request handler accepts the requests it is given,
    and a response has a text, which is JSON when it reports success. *)
Definition answers (o : config_op) : Prop :=
  match o with
  | CgStop => False
  | CgStart ret | CgAsk ret | CgTimer ret => ret = 0
  | CgResponse err text _ =>
    ∃ t, text = Some t ∧ (err = 0 → failed (jzon_decode (Some t)) = false)
  | _ => True
  end.

(** What the parts of an operation leave alone. *)
Definition keeps_cg {A} (m : CGM A) : Prop :=
  ∀ c, let c' := final (m c) in
       cg_reqh c' = cg_reqh c ∧ cg_tmr c' = cg_tmr c ∧ cg_is_updating c' = cg_is_updating c.

Lemma keeps_cg_bind {A B} (m : CGM A) (k : A → CGM B) :
  keeps_cg m → (∀ a, keeps_cg (k a)) → keeps_cg (m ≫= k).
Proof.
  intros Hm Hk c. unfold mbind, M_bind. specialize (Hm c). destruct (m c) as [[a c1] e1]. cbn in Hm.
  specialize (Hk a c1). destruct (k a c1) as [[b c2] e2].
  destruct Hm as (E1 & E2 & E3), Hk as (F1 & F2 & F3). cbn in *. by rewrite F1, F2, F3.
Qed.
Lemma keeps_cg_ret {A} (a : A) : keeps_cg (mret a).
Proof. done. Qed.
Lemma keeps_cg_get : keeps_cg get.
Proof. done. Qed.
Lemma keeps_cg_emit e : keeps_cg (emit e).
Proof. done. Qed.
Lemma keeps_cg_config f : keeps_cg (modify (λ c, {| c with cg_config := f c |})).
Proof. done. Qed.
Lemma keeps_cg_updl f : keeps_cg (modify (λ c, {| c with cg_updl := f c |})).
Proof. done. Qed.
#[local] Hint Resolve keeps_cg_ret keeps_cg_get keeps_cg_emit keeps_cg_config keeps_cg_updl : cfg.
Ltac keeps_steps :=
  repeat (lazymatch goal with
          | |- keeps_cg (_ ≫= _) => apply keeps_cg_bind
          | |- ∀ _, keeps_cg _ => intros ?
          | |- keeps_cg (when _ _) => unfold when
          | |- keeps_cg (match _ with _ => _ end) => case_match
          | |- keeps_cg (if _ then _ else _) => case_match
          end); auto with cfg.

Lemma read_servers_keeps jobj k : keeps_cg (read_servers jobj k).
Proof. unfold read_servers. keeps_steps. Qed.
Lemma read_kinds_keeps jobj ks : keeps_cg (read_kinds jobj ks).
Proof.
  induction ks as [|k ks IH]; cbn; [done|]. apply keeps_cg_bind; [apply read_servers_keeps|].
  intros ?. by case_match.
Qed.
Lemma read_config_keeps jobj : keeps_cg (read_config jobj).
Proof.
  apply keeps_cg_bind; [apply read_kinds_keeps|]. intros ?. case_match; [done|].
  apply keeps_cg_bind; [done|]. intros ?. apply read_servers_keeps.
Qed.
Lemma notify_keeps : keeps_cg notify.
Proof. intros c. by rewrite notify_eval. Qed.
Lemma unregister_keeps u : keeps_cg (config_unregister_update_handler u).
Proof. unfold config_unregister_update_handler. keeps_steps. Qed.
Lemma unregister_all_keeps arg : keeps_cg (config_unregister_all_updates arg).
Proof.
  apply keeps_cg_bind; [done|]. intros c. apply keeps_cg_bind; [|done].
  induction (cg_updl c) as [|u l IH]; cbn; [done|]. apply keeps_cg_bind; [|done].
  unfold when. case_match; [|done]. apply keeps_cg_bind; [apply unregister_keeps|done].
Qed.

Lemma response_schedules err text now c :
  answers (CgResponse err text now) → scheduled (final (config_update err text now c)).
Proof.
  intros (t & -> & Ht). unfold config_update.
  unfold mbind, M_bind, modify. destruct (Z.eqb_spec err 0) as [->|]; cbn [negb].
  2:{ exists 60000. split; [done|lia]. }
  specialize (Ht eq_refl).
  destruct (jzon_decode (Some t)) as [|jobj]; [discriminate Ht|]. cbn [negb Z.eqb].
  match goal with |- context [read_config jobj ?c1] =>
    destruct (read_config jobj c1) as [[e c2] es] end.
  destruct (negb (e =? 0)); [exists 60000; split; [done|lia]|].
  rewrite notify_eval. cbn [final fst snd]. eexists. split; [done|].
  unfold ttl_of, EXPIRY_MIN, EXPIRY_MAX.
  generalize (or_keep (jzon_u32 (Some jobj) "ttl") 0). intros n.
  rewrite (uwrap_small 32 (_ * 9)) by lia. rewrite uwrap_small; lia_div.
Qed.
Lemma update_keeps_reqh err text now c :
  cg_reqh (final (config_update err text now c)) = cg_reqh c.
Proof.
  unfold config_update. destruct text as [text|]; [|done]. unfold mbind, M_bind, modify.
  destruct (negb (err =? 0)); [done|]. destruct (jzon_decode (Some text)) as [|jobj]; [done|].
  match goal with |- context [read_config jobj ?c1] =>
    pose proof (read_config_keeps jobj c1) as (E1 & _);
    destruct (read_config jobj c1) as [[e c2] es] end.
  cbn in E1. destruct (negb (e =? 0)); [done|]. by rewrite notify_eval.
Qed.

Lemma do_request_asks ret c :
  cg_reqh c = true →
  cg_reqh (final (do_request ret c)) = true ∧ events (do_request ret c) = [CgRequest].
Proof. intros Hr. unfold do_request, mbind, M_bind, modify, get. cbn. by rewrite Hr. Qed.

(** A configuration that is requested when it has to be. *)
Definition fresh_ok (b : bool) (c : config) : Prop :=
  cg_reqh c = true ∧ (b = true ∨ scheduled c).

Lemma exec_fresh b o c :
  answers o → fresh_ok b c → fresh_ok (awaits b o c) (final (config_exec o c)).
Proof.
  intros Ho [Hr Hf].
  assert (∀ A (m : CGM A), (_ ← m; mret ()) c = ((), final (m c), events (m c))) as Hd.
  { intros A m. unfold mbind, M_bind, mret, M_ret. destruct (m c) as [[a c1] e1]. by rewrite app_nil_r. }
  assert (∀ ret b', fresh_ok (b' || existsb is_request (events (do_request ret c))) (final (do_request ret c))) as Hq.
  { intros ret b'. destruct (do_request_asks ret c Hr) as [E1 E2]. rewrite E2. split; [done|]. left.
    cbn. by destruct b'. }
  assert (∀ A (m : CGM A) b', keeps_cg m → fresh_ok (b || b') (final (m c))) as Hk.
  { intros A m b' Hm. destruct (Hm c) as (E1 & E2 & _). unfold fresh_ok, scheduled. rewrite E1, E2.
    split; [done|]. destruct Hf as [->|Hf]; [by left|by right]. }
  destruct o; cbn [awaits config_exec]; rewrite ?Hd; cbn [final events fst snd].
  - apply Hq.
  - done.
  - apply Hq.
  - split; [by rewrite update_keeps_reqh|]. right. by apply response_schedules.
  - unfold when, mbind, M_bind, get, tmr_handler. destruct (bool_decide _).
    + specialize (Hq ret b). unfold mbind, M_bind. destruct (do_request ret c) as [[? ?] ?].
      cbn in *. by rewrite !app_nil_r.
    + cbn. rewrite orb_false_r. by split.
  - apply Hk. unfold config_register_update_handler. keeps_steps.
  - apply Hk, unregister_keeps.
  - apply Hk, unregister_all_keeps.
Qed.

Lemma run_fresh os : ∀ b c,
  Forall answers os → fresh_ok b c → fresh_ok (outstanding b os c) (config_run os c).1.
Proof.
  induction os as [|o os IH]; intros b c Hos Hf; [done|].
  apply Forall_cons in Hos as [Ho Hos]. cbn [outstanding config_run fst].
  apply IH; [done|]. by apply exec_fresh.
Qed.

(** C32: Once it is started the configuration is kept up to date.  As long as the
    library is not stopped, the request handler accepts the requests, and every
    response has a text (JSON when it reports success; [answers]), and whatever else
    the backend answers, the application asks for and is registered, in whatever
    order: a request has been made to which no response has come yet, or the timer
    runs, for at least one and at most 54 minutes; any response starts the timer; and
    when the timer expires a request is made. *)
Theorem config_kept_fresh updh c0 os c es :
  config_alloc true updh true = inr c0 → Forall answers os →
  config_run (CgStart 0 :: os) c0 = (c, es) →
  (outstanding false (CgStart 0 :: os) c0 = true ∨ scheduled c)
  ∧ (∀ err text now, answers (CgResponse err text now) →
       scheduled (final (config_exec (CgResponse err text now) c)))
  ∧ (cg_tmr c ≠ None → events (config_exec (CgTimer 0) c) = [CgRequest]).
Proof.
  intros [= <-] Hos Hrun. set (c0 := {| cg_updh := updh; cg_reqh := true |}) in *.
  pose proof (f_equal fst Hrun) as Hc. cbn [fst] in Hc.
  assert (fresh_ok (outstanding false (CgStart 0 :: os) c0) c) as [Hr Hf].
  { rewrite <- Hc. cbn [outstanding config_run fst]. apply run_fresh; [done|]. split; [done|by left]. }
  split; [done|]. split.
  - intros err text now Ha. cbn [config_exec]. unfold mbind, M_bind.
    pose proof (response_schedules err text now c Ha) as Hs.
    by destruct (config_update err text now c) as [[? ?] ?].
  - intros Ht. cbn [config_exec]. unfold mbind, M_bind, get.
    rewrite (bool_decide_true (cg_tmr c ≠ None)) by done. unfold when, tmr_handler.
    destruct (do_request_asks 0 c Hr) as [_ E]. unfold mbind, M_bind.
    destruct (do_request 0 c) as [[? ?] ?]. cbn in *. by rewrite E.
Qed.

(** Operations that neither ask for the configuration nor answer a request. *)
Definition passive (o : config_op) : Prop :=
  match o with CgStart _ | CgAsk _ | CgResponse _ _ _ => False | _ => True end.

Lemma passive_exec o c :
  passive o → cg_tmr c = None →
  cg_tmr (final (config_exec o c)) = None ∧ events (config_exec o c) = [].
Proof.
  intros Ho Ht.
  assert (∀ A (m : CGM A), (_ ← m; mret ()) c = ((), final (m c), events (m c))) as Hd.
  { intros A m. unfold mbind, M_bind, mret, M_ret. destruct (m c) as [[a c1] e1]. by rewrite app_nil_r. }
  assert (∀ u c, events (config_unregister_update_handler u c) = []) as Hu.
  { intros u c'. unfold config_unregister_update_handler. by case_match. }
  destruct o; try done; cbn [config_exec]; rewrite ?Hd; cbn [final events fst snd].
  - unfold mbind, M_bind, get. rewrite (bool_decide_false (cg_tmr c ≠ None)) by (rewrite Ht; auto). done.
  - unfold config_register_update_handler. by case_match.
  - split; [|apply Hu]. destruct (unregister_keeps u c) as (_ & E & _). by rewrite E.
  - destruct (unregister_all_keeps arg c) as (_ & E & _). split; [by rewrite E|].
    unfold config_unregister_all_updates, mbind, M_bind, get.
    assert (∀ l c, (unregister_loop l arg c).2 = []) as Hl.
    { induction l as [|u l IH]; intros c'; [done|]. cbn [unregister_loop].
      unfold mbind, M_bind, when. destruct (ue_arg u =? arg)%nat.
      - unfold mbind, M_bind. pose proof (Hu u c') as E'.
        destruct (config_unregister_update_handler u c') as [[? c2] ?]. cbn in E' |- *. subst.
        specialize (IH c2). destruct (unregister_loop l arg c2) as [[? ?] ?]. exact IH.
      - cbn. specialize (IH c'). destruct (unregister_loop l arg c') as [[? ?] ?]. exact IH. }
    specialize (Hl (cg_updl c) c). destruct (unregister_loop _ _ c) as [[? ?] ?].
    cbn in *. by rewrite Hl.
Qed.

Lemma passive_run os : Forall passive os → ∀ c, cg_tmr c = None → (config_run os c).2 = [].
Proof.
  induction 1 as [|o os Ho Hos IH]; intros c Ht; [done|]. cbn [config_run snd].
  destruct (passive_exec o c Ho Ht) as [E1 E2]. by rewrite E2, IH.
Qed.
Lemma ask_exec ret c :
  let r := config_exec (CgAsk ret) c in
  cg_tmr (final r) = None ∧ events r = if cg_reqh c then [CgRequest] else [].
Proof.
  cbn [config_exec]. unfold config_request, do_request, mbind, M_bind, modify, get. cbn.
  by destruct (cg_reqh c).
Qed.

(** The result of the request handler is not looked at: when it fails, the timer that
    [do_request] has cancelled is not started again, and no request is made any more,
    unless the application asks or a response comes all the same. *)
Theorem failed_request_stops_refresh c ret os :
  Forall passive os →
  (config_run (CgAsk ret :: os) c).2 = (if cg_reqh c then [CgRequest] else []).
Proof.
  intros Hos. cbn [config_run snd]. destruct (ask_exec ret c) as [T1 E1].
  rewrite passive_run by done. rewrite E1. by destruct (cg_reqh c).
Qed.

(** A response that reports success but is not JSON stops the refreshing for
    good: [config_update] returns before it starts the timer that the request had
    cancelled, so whatever happens afterwards, unless the application asks, no
    request is made. *)
Theorem garbled_response_stops_refresh c ret text err now os :
  jzon_decode (Some text) = inl err → Forall passive os →
  (config_run (CgAsk ret :: CgResponse 0 (Some text) now :: os) c).2
  = (if cg_reqh c then [CgRequest] else []).
Proof.
  intros Hj Hos. cbn [config_run snd]. destruct (ask_exec ret c) as [T1 E1].
  set (r1 := config_exec (CgAsk ret) c) in *.
  assert (config_exec (CgResponse 0 (Some text) now) (final r1)
    = ((), {| (final r1) with cg_is_updating := false |}, [])) as E2.
  { cbn [config_exec]. unfold config_update, mbind, M_bind, modify. by rewrite Hj. }
  rewrite E2. cbn [final events fst snd]. rewrite passive_run by done. rewrite E1.
  by destruct (cg_reqh c).
Qed.

(** The errors of the server decoder are errors. *)
Lemma iceserver_error jice err : iceserver_decode jice = inl err → err ≠ 0.
Proof.
  unfold iceserver_decode. cbv zeta. destruct (jzon_array _ "urls").
  - destruct (jzon_str _ "urls"); [done|]. destruct (jzon_str _ "url"); [done|]. by intros [= <-].
  - destruct (json_object_get_string _); [done|]. by intros [= <-].
Qed.
Lemma iceservers_error jarr err : zapi_iceservers_decode jarr = inl err → err ≠ 0.
Proof.
  unfold zapi_iceservers_decode. destruct (negb _); [by intros [= <-]|]. generalize 0%nat as i.
  induction (Z.to_nat _) as [|n IH]; intros i; cbn [iceservers_decode_loop]; [done|].
  destruct (json_object_array_get_idx (Some jarr) (Z.of_nat i)); [|by intros [= <-]].
  unfold mbind, cres_bind. destruct (iceserver_decode _) eqn:E.
  { intros [= <-]. by eapply iceserver_error. }
  specialize (IH (S i)). destruct (iceservers_decode_loop _ _ n); [|done].
  intros [= <-]. by apply IH.
Qed.

Lemma read_config_fails jobj jarr err c :
  jzon_array (Some jobj) "ice_servers" = inr jarr → zapi_iceservers_decode jarr = inl err →
  read_config jobj c
  = (err, {| c with cg_config := kind_set ICE_SERVERS
       {| sv_v := None; sv_c := sv_c (sc_iceserver (cg_config c)) |} (cg_config c) |}, []).
Proof.
  intros Ha Hd. pose proof (iceservers_error _ _ Hd) as He%Z.eqb_neq.
  unfold read_config, mbind, M_bind. cbn [read_kinds]. unfold mbind, M_bind, read_servers, kind_key.
  rewrite Ha, Hd. unfold modify, mbind, M_bind, mret, M_ret. rewrite He. cbn [negb]. rewrite He. done.
Qed.

(** A response with a server that cannot be read loses the servers but not
    their number: afterwards [config_get_iceservers] returns [NULL] and says that
    there are as many servers as before. *)
Theorem lost_servers_counted c text now jobj jarr err :
  jzon_decode (Some text) = inr jobj → jzon_array (Some jobj) "ice_servers" = inr jarr →
  zapi_iceservers_decode jarr = inl err → (0 < sv_c (sc_iceserver (cg_config c)))%nat →
  config_get_iceservers (final (config_update 0 (Some text) now c))
  = (None, Some (sv_c (sc_iceserver (cg_config c)))).
Proof.
  intros Hj Ha Hd Hc. pose proof (iceservers_error _ _ Hd) as He%Z.eqb_neq.
  unfold config_update, mbind, M_bind, modify. cbn [negb Z.eqb]. rewrite Hj. cbn [negb Z.eqb].
  rewrite (read_config_fails _ _ _ _ Ha Hd), He.
  unfold config_get_iceservers, get_servers, kind_get. cbn.
  destruct (sv_c (sc_iceserver (cg_config c))); [lia|done].
Qed.
End Refresh.

(** ** The configuration of conference calls *)

(** An array and its count belong together. *)
Definition array_ok (a : server_array) : Prop := sv_c a = length (default [] (sv_v a)).
Definition arrays_ok (s : server_config) : Prop := ∀ k, array_ok (kind_get k s).

(** The record that conference calls are given. *)
Definition call_view (s : server_config) : call_config := {|
  cfg_iceservers := default [] (sv_v (sc_iceserver s));
  cfg_sftservers := default [] (sv_v (sc_sftserver s));
  cfg_sftservers_all := default [] (sv_v (sc_sftservers_all s));
  cfg_sfticeservers := default [] (sv_v (sc_sfticeserver s));
  cfg_is_federating := sc_is_federating s |}.

(** A response that can be read keeps arrays and counts together, and then the
    getters return what conference calls take them to return. *)
Lemma config_after_ok r s : arrays_ok s → arrays_ok (config_after r s).
Proof.
  intros Hs k. unfold array_ok. specialize (Hs k).
  destruct k; cbn; unfold servers_after; case_match; cbn; by rewrite ?length_fmap.
Qed.
Lemma get_servers_view k c :
  arrays_ok (cg_config c) →
  get_servers k c
  = let l := default [] (sv_v (kind_get k (cg_config c))) in
    (config_get l, length <$> config_get l).
Proof.
  intros Hs. specialize (Hs k). unfold array_ok in Hs. unfold get_servers. rewrite Hs.
  by destruct (sv_v _) as [[]|].
Qed.
Lemma sftservers_view c :
  arrays_ok (cg_config c) →
  (config_get_sftservers c).1 = config_get (cfg_sftservers (call_view (cg_config c)))
  ∧ (config_get_sftservers_all c).1 = config_get (cfg_sftservers_all (call_view (cg_config c)))
  ∧ (config_get_sfticeservers c).1 = config_get (cfg_sfticeservers (call_view (cg_config c))).
Proof.
  intros Hs. unfold config_get_sftservers, config_get_sftservers_all, config_get_sfticeservers.
  by rewrite !get_servers_view.
Qed.

(** ** Concrete responses *)

Module ConfigWitness.
Import LibReRef LibReJsonRef.

Definition server (urls : written_urls) : written_server :=
  {| ws_urls := urls; ws_username := Some "u"; ws_credential := Some "p" |}.
Definition sample : response := {|
  rs_ttl := 900;
  rs_servers := λ k, match k with
                     | ICE_SERVERS => [server (UrlArray "turn:a" ["turn:a2"]); server (UrlsString "turn:b")]
                     | SFT_SERVERS => [{| ws_urls := UrlArray "https://sft1" []; ws_username := None; ws_credential := None |}]
                     | SFT_SERVERS_ALL => []
                     | SFT_ICE_SERVERS => [server (UrlString "turn:c")]
                     end;
  rs_federating := None |}.

Lemma sample_ok : response_ok sample.
Proof.
  split; [cbn; lia|]. intros []; split; cbn -[Z.pow]; try lia;
    repeat (apply Forall_cons; split); try apply Forall_nil_2; repeat split; cbn; lia.
Qed.

(** A new configuration with a handler, and one that has read the response. *)
Definition fresh : config := {|
  cg_updh := true; cg_reqh := true; cg_tmr := None; cg_expires_ts := 0; cg_is_updating := false;
  cg_config := {| sc_iceserver := no_servers; sc_sftserver := no_servers;
                  sc_sftservers_all := no_servers; sc_sfticeserver := no_servers;
                  sc_is_federating := false |};
  cg_updl := [] |}.
Definition handler : config_update_elem :=
  {| ue_addr := 7; ue_updh := true; ue_arg := 1; ue_cfg := false |}.
Definition day : list config_op :=
  [CgRegister handler; CgResponse 0 (Some (response_text sample)) 1000; CgTimer 0;
   CgResponse 5 (Some "") 812000; CgTimer 0].
Definition informed : config :=
  (config_run (CgStart 0 :: CgRegister handler
               :: [CgResponse 0 (Some (response_text sample)) 1000]) fresh).1.
Definition no_url : string :=
  json_encode_odict [("ice_servers", ODICT_ARRAY [("0", ODICT_OBJECT [("username", ODICT_STRING "u")])])].
Definition no_url_array : json_object :=
  ODICT_ARRAY [("0", ODICT_OBJECT [("username", ODICT_STRING "u")])].

Lemma config_response_applied_witness :
  ∃ c' d,
    config_update 0 (Some (response_text sample)) 1000 informed
      = (0, c', told informed (config_after sample (cg_config informed)))
    ∧ cg_config c' = config_after sample (cg_config informed)
    ∧ cg_tmr c' = Some d ∧ d = ttl_after sample * 9 / 10 * 1000
    ∧ 270000 <= d < cg_expires_ts c' - 1000
    ∧ ∀ t, 1000 <= t <= 1000 + d → config_needs_update c' t = false.
Proof. apply (config_response_applied sample informed 1000); [apply sample_ok|lia|lia]. Defined.

Lemma config_kept_fresh_witness :
  let c := (config_run (CgStart 0 :: day) fresh).1 in
  outstanding false (CgStart 0 :: day) fresh = true
  ∧ scheduled (final (config_exec (CgResponse 5 (Some "") 900000) c)).
Proof.
  cbv zeta. split; [vm_compute; reflexivity|].
  apply (config_kept_fresh true fresh day _ (config_run (CgStart 0 :: day) fresh).2).
  - reflexivity.
  - repeat (apply Forall_cons; split); try apply Forall_nil_2; try done; by eexists.
  - by destruct (config_run (CgStart 0 :: day) fresh).
  - by eexists.
Defined.

Lemma garbled_response_stops_refresh_witness :
  (config_run [CgAsk 0; CgResponse 0 (Some "<html>") 2000; CgTimer 0; CgUnregisterAll 1] informed).2
  = [CgRequest].
Proof.
  apply (garbled_response_stops_refresh informed 0 "<html>" EBADMSG 2000 [CgTimer 0; CgUnregisterAll 1]).
  - vm_compute. reflexivity.
  - by repeat constructor.
Defined.

Lemma lost_servers_counted_witness :
  config_get_iceservers (final (config_update 0 (Some no_url) 2000 informed)) = (None, Some 2%nat).
Proof.
  apply (lost_servers_counted informed no_url 2000 (ODICT_OBJECT [("ice_servers", no_url_array)])
           no_url_array EPROTO); vm_compute; reflexivity || lia.
Defined.
End ConfigWitness.
