(* ===== verification/Ccall.v ===== *)
(** * The conference call ([src/ccall/ccall.c])

    A call of many clients over an SFT server: it is announced by CONFSTART and
    CONFCHECK messages, joined through the configuration of servers and a
    connection to one of them, kept alive by pings, re-established when they stop
    and ended when everybody has left.

    - [struct ccall] is [conf_call], with the part that deals with keys, [ccall]
      of [CcallKeys], as a field; [on_keys] runs the functions on that part.
    - [cf_timers] maps the timers that run to their delays.  The expiry of a timer
      is an operation ([CcallMsg.fire]).
    - The callbacks to the application, the messages to other clients and to
      servers, and the calls into [ecall] are events; the application's callbacks
      are all set.  The functions of [ecall] that call back are the last thing
      their callers do ([ecall_msg_recv], [ecall_answer]), or call back from a
      timer ([ecall_end]): what they call back is an operation of its own.
    - The member list calls the handlers of the call while it is updated:
      [with_users] runs them on the events of the update, in their order.  Those
      handlers do not change the list, but for the one for a new key generator;
      the update from the SFT server makes that call last, before it sorts the
      list, and [ecall_confpart_handler] sorts after the handlers have run.
    - [CcEnv] holds the results of the functions of other components, by the
      number of the call.  Messages of type CONFKEY are those of [CcallKeys]. *)

From S2P Require Import Prelude LibRe EconnMsg Icall UserHash AudioLevel UserList Keystore CcallKeys CcallSft.

(** ** Constants *)

Definition CCALL_CONNECT_TIMEOUT : Z := 15000.
Definition CCALL_SHOULD_RING_TIMEOUT : Z := 30000.
Definition CCALL_RINGER_TIMEOUT : Z := 30000.
Definition CCALL_CONFSTART_TIMEOUT_S : Z := 120.
Definition CCALL_ONGOING_CALL_TIMEOUT : Z := 90000.
Definition CCALL_ROTATE_KEY_FAST_TIMEOUT : Z := 1000.
Definition CCALL_DECRYPT_CHECK_TIMEOUT : Z := 10000.
Definition CCALL_KEEPALIVE_TIMEOUT : Z := 5000.
Definition CCALL_MAX_MISSING_PINGS : Z := 4.
Definition CCALL_QUALITY_MEDIUM_MISSING : Z := 1.
Definition CCALL_QUALITY_POOR_MISSING : Z := CCALL_MAX_MISSING_PINGS - 1.
Definition CCALL_NOONE_JOINED_TIMEOUT : Z := 300000.
Definition CCALL_EVERYONE_LEFT_TIMEOUT : Z := 90000.
Definition CCALL_REQ_NEW_EPOCH_TIMEOUT : Z := 82800000.
Definition CCALL_DURATION_TERM_TIMEOUT : Z := 60000.
Definition CCALL_MAX_RECONNECT_ATTEMPTS : Z := 2.
Definition CCALL_MAX_VSTREAMS : Z := 9.
Definition SFT_STATUS_NETWORK_ERROR : Z := 1000.

(** [None] when a signed operation overflows. *)
Definition int_op (x : Z) : option Z :=
  if (- 2 ^ 31 <=? x) && (x <? 2 ^ 31) then Some x else None.

(** ** Data *)

(** [enum sreason] *)
Inductive sreason :=
| CCALL_STOP_RINGING_NONE
| CCALL_STOP_RINGING_ANSWERED
| CCALL_STOP_RINGING_REJECTED.

#[export] Instance sreason_eq_dec : EqDecision sreason.
Proof. solve_decision. Defined.

(** [struct join_elem] *)
Record join_elem := {
  je_addr : nat;
  je_call_type : icall_call_type;
  je_audio_cbr : bool;
  je_retry_attempt : bool;
}.

(** [struct ccall]; [cf] is the part of [CcallKeys]. *)
Record conf_call := {
  cf : ccall;
  cf_turnv : list zapi_ice_server;
  cf_convid_real : string;
  cf_saved_partl : list econn_group_part;
  cf_primary_sft_url : option string;
  cf_sft_url : option string;
  cf_sft_tuple : option string;
  cf_sftl : list string;
  cf_secret : list Z;
  cf_sft_timestamp : Z;
  cf_sft_seqno : Z;
  cf_is_caller : bool;
  cf_is_ringing : bool;
  cf_stop_ringing_reason : sreason;
  cf_call_type : icall_call_type;
  cf_vstate : icall_vstate;
  cf_someone_joined : bool;
  cf_reconnect_attempts : Z;
  cf_expected_ping : Z;
  cf_last_ping : Z;
  cf_received_confpart : bool;
  cf_error : Z;
  cf_timers : ccall_timer → option Z;
  cf_je : option join_elem;
  cf_cfg : option call_config;
  cf_quality_interval : Z;
  cf_confconn_status : econn_confconn_status;
  cf_ts_start : Z;
  cf_metrics : icall_metrics;
  cf_inc_reconnects : bool;
  cf_videol : list icall_client;
  cf_meeting_is_set : bool;
  cf_meeting_duration : Z;
  cf_meeting_start_duration : Z;
}.

(** The calls into [ecall]. *)
Inductive ecall_call :=
| EcEnd
| EcAnswer (call_type : icall_call_type) (audio_cbr : bool)
| EcMsgRecv (userid clientid : string) (msg : econn_message)
| EcPing (response : bool)
| EcUpdateSsrc (ssrca ssrcv : Z)
| EcDceSend (msg : econn_message)
| EcSetSessid (sessid : option string)
| EcAddDecoders (u : userinfo)
| EcRemoveDecoders (u : userinfo)
| EcSyncDecoders
| EcAddTurnserver (srv : zapi_ice_server)
| EcSetRealClientid (clientid : option string)
| EcMediaStart
| EcMediaStop
| EcSetVideoSendState (vstate : icall_vstate)
| EcSetQualityInterval (interval : Z)
| EcUpdateMuteState
| EcActivate (active : bool)
| EcRestart (call_type : icall_call_type).

Inductive cc_event :=
| CcKeys (e : ck_event)
(* callbacks to the application *)
| CcStart (msg_time : Z) (userid clientid : string) (should_ring : bool)
| CcLeave (reason : Z) (msg_time : Z)
| CcClose (err : Z) (msg_time : Z)
| CcGroupChanged
| CcReqClients
| CcReqNewEpoch
| CcMediaEstab (update : bool)
| CcAudioEstab (update : bool)
| CcVstateChanged (userid clientid : option string) (vstate : icall_vstate)
| CcAudioLevel (levell : list (option audio_level_t))
| CcQuality (userid clientid : string) (stats : stats_report)
(* messages and requests *)
| CcSend (msg : econn_message) (targets : option (list icall_client)) (my_clients_only : bool)
| CcSft (url : string) (msg : econn_message)
| CcConfigRequest
| CcEcall (ecall : nat) (c : ecall_call).

Abbreviation CCM := (MU conf_call cc_event).

(** The results of the functions of other components, by the number of the
    call. *)
Class CcEnv := {
  sendh_ret : nat → Z;
  sfth_ret : nat → Z;
  (** The functions of [ecall.c]. *)
  ecall_ret : nat → Z;
  ecall_has_econn : nat → bool;
  econn_message_encode_ret : nat → Z;
  config_request_ret : nat → Z;
  msystem_get_muted : nat → bool;
  msystem_get_env : Z;
  avs_version_str : string;
  avs_version_short : string;
  (** The properties with [videosend] set, and a look-up ([props.c]). *)
  econn_props_videosend : bool → econn_props_ref;
  econn_props_get : econn_props_ref → string → option string;
  (** The buffer on the stack of [keystore_set_fresh_session_key]. *)
  stack_key : nat → list Z;
}.

Section Ops.
Context `{LibRe, Sodium, UlEnv, KsEnv, CkEnv, CcEnv}.

(** ** The parts of the state *)

Definition tmr_set (t : ccall_timer) (d : option Z) (tm : ccall_timer → option Z)
    : ccall_timer → option Z :=
  λ t', if bool_decide (t' = t) then d else tm t'.

(** What the functions of [CcallKeys] do to the timers. *)
Definition run_timers (es : list ck_event) (tm : ccall_timer → option Z)
    : ccall_timer → option Z :=
  foldl (λ tm e, match e with
                 | CkTmrStart t d => tmr_set t (Some d) tm
                 | CkTmrCancel t => tmr_set t None tm
                 | _ => tm
                 end) tm es.

Definition on_keys {A} (m : CKM A) : CCM A := λ c,
  match m (cf c) with
  | None => None
  | Some (a, k, e) =>
    Some (a, {| c with cf := k; cf_timers := run_timers e (cf_timers c) |}, CcKeys <$> e)
  end.

Definition on_list {A} (m : ULM A) : CCM A := on_keys (on_ul m).
Definition on_ks {A} (m : KSM A) : CCM A := on_keys (on_store m).

Definition cf_state (c : conf_call) : ccall_state := cc_state (cf c).
Definition cf_userl (c : conf_call) : userlist := cc_userl (cf c).

Definition tmr_start (t : ccall_timer) (delay : Z) : CCM () :=
  umodify (λ c, {| c with cf_timers := tmr_set t (Some delay) (cf_timers c) |}).
Definition tmr_cancel (t : ccall_timer) : CCM () :=
  umodify (λ c, {| c with cf_timers := tmr_set t None (cf_timers c) |}).
Fixpoint tmr_cancels (ts : list ccall_timer) : CCM () :=
  match ts with
  | [] => mret ()
  | t :: ts => tmr_cancel t;; tmr_cancels ts
  end.

(** Does the next allocation succeed? *)
Definition next_alloc : CCM bool := n ← on_keys ck_next; mret (ck_mem_ok n).

(** [str_dup]: the error code and the copy. *)
Definition str_dup (s : option string) : CCM (Z * option string) :=
  match s with
  | None => mret (EINVAL, None)
  | Some s => ok ← next_alloc; mret (if ok : bool then (0, Some s) else (ENOMEM, None))
  end.

Definition copy_sft' (src : string) : CCM (Z * option string) :=
  ok ← next_alloc; of_ptr (copy_sft ok src).

(** A call into [ecall], whose functions do nothing with [NULL]. *)
Definition call_ecall (f : ecall_call) : CCM Z :=
  c ← uget;
  match cc_ecall (cf c) with
  | None => mret EINVAL
  | Some a => uemit [CcEcall a f];; n ← on_keys ck_next; mret (ecall_ret n)
  end.

(** [if (ccall->ecall) ...] *)
Definition if_ecall (f : ecall_call) : CCM () :=
  c ← uget;
  if bool_decide (cc_ecall (cf c) = None) then mret () else _ ← call_ecall f; mret ().

(** [ccall_update_active_counts] *)
Definition ccall_update_active_counts : CCM () :=
  c ← uget;
  let '(active, active_a, active_v) := userlist_get_active_counts (cf_userl c) in
  n ← on_keys ck_next;
  let active_a := if msystem_get_muted n then active_a else u32 (active_a + 1) in
  let active_v := if bool_decide (cf_vstate c = ICALL_VIDEO_STATE_STARTED)
                  then u32 (active_v + 1) else active_v in
  umodify (λ c, {| c with cf_metrics :=
    (let m := cf_metrics c in
     {| m with mt_participants_max := Z.max (mt_participants_max m) active;
               mt_participants_audio_max := Z.max (mt_participants_audio_max m) active_a;
               mt_participants_video_max := Z.max (mt_participants_video_max m) active_v |}) |}).

(** ** The handlers of the member list *)

(** [userlist_add_user_handler] *)
Definition userlist_add_user_handler (user : userinfo) : CCM () :=
  if_ecall (EcAddDecoders user);;
  uemit (if negb (bool_decide (ui_video_state user = ICALL_VIDEO_STATE_STOPPED))
            && (0 <? ui_ssrcv user)
         then [CcVstateChanged (ui_userid_real user) (ui_clientid_real user)
                               (ui_video_state user)]
         else []).

(** [userlist_remove_user_handler] *)
Definition userlist_remove_user_handler (user : userinfo) (call_vstateh : bool) : CCM () :=
  umodify (λ c, {| c with cf := (let k := cf c in {| k with cc_someone_left := true |}) |});;
  if_ecall (EcRemoveDecoders user);;
  uemit (if call_vstateh
            && negb (bool_decide (ui_video_state user = ICALL_VIDEO_STATE_STOPPED))
         then [CcVstateChanged (ui_userid_real user) (ui_clientid_real user)
                               ICALL_VIDEO_STATE_STOPPED]
         else []).

(** [userlist_sync_users_handler] *)
Definition userlist_sync_users_handler : CCM () :=
  if_ecall EcSyncDecoders;; ccall_update_active_counts.

(** [userlist_vstate_handler] *)
Definition userlist_vstate_handler (user : userinfo) : CCM () :=
  uemit [CcVstateChanged (ui_userid_real user) (ui_clientid_real user)
                         ICALL_VIDEO_STATE_STOPPED].

Definition userlist_handler (e : ul_event) : CCM () :=
  match e with
  | UlAdd u => userlist_add_user_handler u
  | UlRemove u call_vstateh => userlist_remove_user_handler u call_vstateh
  | UlSync => userlist_sync_users_handler
  | UlKgChange _ is_me is_first =>
    n ← on_keys ck_next;
    on_keys (CcallKeys.userlist_kg_change_handler (stack_key n) is_me is_first)
  | UlVstate u _ => userlist_vstate_handler u
  end.

Fixpoint userlist_handlers (es : list ul_event) : CCM () :=
  match es with
  | [] => mret ()
  | e :: es => userlist_handler e;; userlist_handlers es
  end.

(** An update of the member list, with the handlers it calls. *)
Definition with_users {A} (m : ULM A) : CCM A := λ c,
  match m (cf_userl c) with
  | None => None
  | Some (a, l, es) =>
    (userlist_handlers es;; mret a)
      {| c with cf := (let k := cf c in {| k with cc_userl := l |}) |}
  end.

(** ** States *)

(** [set_state] *)
Definition set_state (state : ccall_state) : CCM () :=
  c ← uget;
  let old_state := cf_state c in
  umodify (λ c, {| c with cf := (let k := cf c in {| k with cc_state := state |}) |});;
  (if bool_decide (old_state = CCALL_STATE_IDLE) && (cf_ts_start c =? 0) then
     now ← on_ks jiffies; umodify (λ c, {| c with cf_ts_start := now |})
   else mret ());;
  match state with
  | CCALL_STATE_IDLE =>
    umodify (λ c, {| c with cf_sft_url := None; cf_sft_timestamp := 0 |});;
    on_list userlist_reset_keygenerator;;
    umodify (λ c, {| c with cf_received_confpart := false |});;
    _ ← on_ks keystore_reset;
    tmr_cancels [TmrRotateKey; TmrRotateMls; TmrSendCheck; TmrConnect; TmrDecryptCheck;
                 TmrKeepalive; TmrAlone; TmrDuration]
  | CCALL_STATE_INCOMING =>
    umodify (λ c, {| c with cf_sft_url := None |});;
    on_list userlist_reset_keygenerator;;
    umodify (λ c, {| c with cf_received_confpart := false |});;
    _ ← on_ks keystore_reset_keys;
    tmr_cancels [TmrRotateKey; TmrRotateMls; TmrSendCheck];;
    tmr_start TmrOngoing CCALL_ONGOING_CALL_TIMEOUT;;
    tmr_cancels [TmrDecryptCheck; TmrKeepalive; TmrAlone]
  | CCALL_STATE_WAITCONFIG | CCALL_STATE_WAITCONFIG_OUTGOING =>
    umodify (λ c, {| c with cf_sft_url := None |});;
    on_list userlist_reset_keygenerator;;
    umodify (λ c, {| c with cf_received_confpart := false |});;
    _ ← on_ks keystore_reset_keys;
    tmr_cancels [TmrRotateKey; TmrRotateMls; TmrSendCheck];;
    tmr_start TmrConnect CCALL_CONNECT_TIMEOUT;;
    tmr_cancels [TmrDecryptCheck; TmrKeepalive; TmrAlone; TmrRing]
  | CCALL_STATE_CONNSENT =>
    umodify (λ c, {| c with cf_received_confpart := false |});;
    c ← uget;
    (if negb (cc_is_mls_call (cf c)) && (cf_reconnect_attempts c =? 0)
     then _ ← on_ks keystore_reset_keys; tmr_cancel TmrRotateMls
     else mret ());;
    tmr_cancels [TmrRotateKey; TmrSendCheck];;
    tmr_start TmrConnect CCALL_CONNECT_TIMEOUT;;
    tmr_cancels [TmrDecryptCheck; TmrKeepalive; TmrAlone]
  | CCALL_STATE_CONNECTED => tmr_cancel TmrConnect
  | CCALL_STATE_ACTIVE =>
    umodify (λ c, {| c with cf_expected_ping := 0; cf_last_ping := 0 |});;
    tmr_cancel TmrConnect;;
    tmr_start TmrDecryptCheck CCALL_DECRYPT_CHECK_TIMEOUT;;
    tmr_start TmrKeepalive CCALL_KEEPALIVE_TIMEOUT;;
    c ← uget;
    if (0 <? cf_reconnect_attempts c) && userlist_is_keygenerator_me (cf_userl c)
    then tmr_cancel TmrSendCheck;; tmr_start TmrSendCheck 0
    else mret ()
  | CCALL_STATE_TERMINATING =>
    tmr_cancels [TmrSendCheck; TmrConnect; TmrKeepalive; TmrAlone; TmrDuration]
  | CCALL_STATE_SETUPRECV | CCALL_STATE_CONNECTING | CCALL_STATE_NONE
  | CCALL_STATE_WAITNETWORK => mret ()
  end;;
  uemit (if negb (bool_decide (state = old_state))
            && (bool_decide (state = CCALL_STATE_ACTIVE)
                || bool_decide (old_state = CCALL_STATE_ACTIVE))
         then [CcGroupChanged] else []).

(** [ccall_set_secret]; the first four bytes are printed. *)
Definition ccall_set_secret (secret : list Z) : CCM Z :=
  if (length secret <? 4)%nat then undef else
  umodify (λ c, {| c with cf_secret := [] |});;
  ok ← next_alloc;
  if negb ok then mret ENOMEM else
  umodify (λ c, {| c with cf_secret := secret |});;
  c ← uget;
  ok ← next_alloc;
  r ← of_ptr (hash_conv ok secret (cf_convid_real c));
  umodify (λ c, {| c with cf := (let k := cf c in {| k with cc_convid_hash := r.2 |}) |});;
  _ ← on_list (userlist_set_secret secret);
  err ← on_ks (keystore_set_salt (bytes_of_string <$> r.2));
  if_ecall (EcSetSessid r.2);;
  mret err.

(** ** Messages *)

Definition id_of (s : option string) : string :=
  match s with Some s => str_ncpy s ECONN_ID_LEN | None => "" end.

(** [econn_message_alloc] and the common fields. *)
Definition new_message (type : econn_msg) (rsp : bool)
    (src_userid src_clientid dest_userid dest_clientid : option string) (trans : bool)
    : econn_message := {|
  msg_type := type; sessid_sender := "";
  src_userid := id_of src_userid; src_clientid := id_of src_clientid;
  dest_userid := id_of dest_userid; dest_clientid := id_of dest_clientid;
  resp := rsp; transient := trans; msg_time := 0; msg_age := 0; msg_u := u_zero |}.

(** The servers a CONFSTART or CONFCHECK names. *)
Definition announced_sfts (c : conf_call) : list string :=
  if (0 <? length (cf_sftl c))%nat then cf_sftl c else option_list (cf_primary_sft_url c).

(** What CONFSTART and CONFCHECK have in common: the error code and the
    payload. *)
Definition alloc_confstart : CCM (Z * option confstart) :=
  c ← uget;
  ok ← next_alloc;
  if negb ok then mret (ENOMEM, None) else
  '(err, url) ← str_dup (cf_primary_sft_url c);
  if negb (err =? 0) then mret (err, None) else
  '(err, tuple) ← (match cf_sft_tuple c with
                   | Some t => str_dup (Some t)
                   | None => mret (0, None)
                   end);
  if negb (err =? 0) then mret (err, None) else
  mret (0, Some {| cs_props := None; cs_sft_url := url; cs_sft_tuple := tuple;
                   cs_secret := cf_secret c; cs_timestamp := cf_sft_timestamp c;
                   cs_seqno := cf_sft_seqno c; cs_sftl := announced_sfts c |}).

(** [alloc_message]: the error code and the message. *)
Definition alloc_message (type : econn_msg) (rsp : bool)
    (src_userid src_clientid dest_userid dest_clientid : option string) (trans : bool)
    : CCM (Z * option econn_message) :=
  c ← uget;
  ok ← next_alloc;
  if negb ok then mret (ENOMEM, None) else
  let msg := new_message type rsp src_userid src_clientid dest_userid dest_clientid trans in
  let sessid := id_of (cc_convid_hash (cf c)) in
  match type with
  | ECONN_CONF_START =>
    '(err, cs) ← alloc_confstart;
    match cs with
    | None => mret (err, None)
    | Some cs =>
      ok ← next_alloc;
      if negb ok then mret (ENOMEM, None) else
      ok ← next_alloc;
      if negb ok then mret (ENOMEM, None) else
      let props := econn_props_videosend
                     (bool_decide (cf_call_type c = ICALL_CALL_TYPE_VIDEO)) in
      mret (0, Some {| msg with sessid_sender := sessid;
                                msg_u := u_confstart {| cs with cs_props := Some props |} |})
    end
  | ECONN_CONF_CHECK =>
    '(err, cs) ← alloc_confstart;
    match cs with
    | None => mret (err, None)
    | Some cs => mret (0, Some {| msg with sessid_sender := sessid; msg_u := u_confcheck cs |})
    end
  | ECONN_CONF_END | ECONN_CONF_STREAMS => mret (0, Some {| msg with sessid_sender := sessid |})
  | _ => mret (0, Some msg)
  end.

(** [ccall_send_msg_i] *)
Definition ccall_send_msg_i (type : econn_msg) (rsp : bool)
    (targets : option (list icall_client)) (trans my_clients_only : bool) : CCM Z :=
  c ← uget;
  let self := userlist_get_self (cf_userl c) in
  '(err, msg) ← alloc_message type rsp (ui_userid_real self) (ui_clientid_real self)
                              None None trans;
  match msg with
  | None => mret err
  | Some msg =>
    uemit [CcSend msg targets my_clients_only];; n ← on_keys ck_next; mret (sendh_ret n)
  end.

(** [ccall_send_msg] *)
Definition ccall_send_msg (type : econn_msg) (rsp : bool)
    (targets : option (list icall_client)) (trans : bool) : CCM Z :=
  ccall_send_msg_i type rsp targets trans false.

(** [ccall_send_msg_sft] *)
Definition ccall_send_msg_sft (sft_url : option string) (msg : econn_message) : CCM Z :=
  match sft_url with
  | None => mret EINVAL
  | Some sft_url =>
    if (String.length sft_url <? 1)%nat then mret EINVAL else
    match msg_type msg with
    | ECONN_CONF_CONN | ECONN_SETUP | ECONN_UPDATE =>
      c ← uget;
      hash ← of_ptr (cc_convid_hash (cf c));
      ok ← next_alloc;
      if negb ok then mret ENOMEM else
      let url := (sft_url ++ (if ends_with_slash sft_url then "sft/" else "/sft/") ++ hash)%string in
      uemit [CcSft url {| msg with sessid_sender := str_ncpy hash ECONN_ID_LEN |}];;
      n ← on_keys ck_next;
      let err := sfth_ret n in
      if negb (err =? 0) then mret err else
      (if negb (bool_decide (msg_type msg = ECONN_CONF_CONN))
          && negb (bool_decide (cf_state c = CCALL_STATE_ACTIVE))
       then set_state CCALL_STATE_CONNECTING else mret ());;
      mret 0
    | _ => mret 0
    end
  end.

(** [ecall_transp_send_handler] *)
Definition ecall_transp_send_handler (msg : econn_message) : CCM Z :=
  c ← uget; ccall_send_msg_sft (cf_sft_url c) msg.

(** A [str_dup] that may be left out. *)
Definition str_dup_if (b : bool) (s : option string) : CCM (Z * option string) :=
  if b then str_dup s else mret (0, None).

Definition cfg_servers (get : call_config → list zapi_ice_server) (cfg : option call_config)
    : option (list zapi_ice_server) :=
  cfg ≫= λ cfg, config_get (get cfg).

(** The TURN servers of a CONFCONN: those of the configuration, which are copied
    into a new array, or those the call was given. *)
Definition confconn_turnv : CCM (list zapi_ice_server) :=
  c ← uget;
  match cfg_servers cfg_sfticeservers (cf_cfg c) with
  | Some turnv => ok ← next_alloc; if (ok : bool) then mret turnv else undef
  | None => mret (cf_turnv c)
  end.

Definition nonempty (s : option string) : bool :=
  match s with Some s => (0 <? String.length s)%nat | None => false end.

(** [ccall_send_conf_conn] *)
Definition ccall_send_conf_conn (sft_url sft_username sft_credential : option string)
    (update : bool) : CCM Z :=
  match sft_url with
  | None => mret EINVAL
  | Some sft_url =>
    c ← uget;
    let self := userlist_get_self (cf_userl c) in
    '(err, term) ← copy_sft' sft_url;
    if negb (err =? 0) then mret err else
    '(err, msg) ← alloc_message ECONN_CONF_CONN false (ui_userid_hash self)
                    (ui_clientid_hash self) (Some "SFT"%string) (Some "_"%string) false;
    match msg with
    | None => mret err
    | Some msg =>
      turnv ← confconn_turnv;
      '(err, tool) ← str_dup (Some avs_version_str);
      if negb (err =? 0) then mret err else
      '(err, toolver) ← str_dup (Some avs_version_short);
      if negb (err =? 0) then mret err else
      let other := match cf_primary_sft_url c, term with
                   | Some p, Some t => negb (String.eqb p t)
                   | _, _ => false
                   end in
      '(err, url) ← str_dup_if other (cf_primary_sft_url c);
      if negb (err =? 0) then mret err else
      '(err, tuple) ← str_dup_if (other && bool_decide (is_Some (cf_sft_tuple c)))
                                 (cf_sft_tuple c);
      if negb (err =? 0) then mret err else
      let auth := nonempty sft_username && nonempty sft_credential in
      '(err, user) ← str_dup_if auth sft_username;
      if negb (err =? 0) then mret err else
      '(err, cred) ← str_dup_if auth sft_credential;
      if negb (err =? 0) then mret err else
      ccall_send_msg_sft term
        {| msg with sessid_sender := id_of (cc_convid_hash (cf c));
                    msg_u := u_confconn {|
            cn_turnv := turnv; cn_update := update; cn_env := msystem_get_env;
            cn_tool := tool; cn_toolver := toolver; cn_status := ECONN_CONFCONN_OK;
            cn_selective_audio := true; cn_selective_video := true;
            cn_vstreams := CCALL_MAX_VSTREAMS; cn_sft_url := url; cn_sft_tuple := tuple;
            cn_sft_username := user; cn_sft_credential := cred |} |}
    end
  end.

(** [send_confpart_response] *)
Definition send_confpart_response : CCM Z :=
  c ← uget;
  let self := userlist_get_self (cf_userl c) in
  '(err, msg) ← alloc_message ECONN_CONF_PART true (ui_userid_hash self) (ui_clientid_hash self)
                  (Some "SFT"%string) (Some "SFT"%string) false;
  match msg with
  | None => mret err
  | Some msg =>
    '(err, partl) ← on_list (userlist_get_partlist (cc_is_mls_call (cf c)));
    if negb (err =? 0) then mret err else
    n ← on_keys ck_next;
    let err := econn_message_encode_ret n in
    if negb (err =? 0) then mret err else
    call_ecall (EcDceSend {| msg with msg_u := u_confpart {|
      cp_timestamp := 0; cp_seqno := 0; cp_should_start := false;
      cp_partl := Some <$> partl; cp_entropy := None; cp_sftl := [] |} |})
  end.

(** ** Ending and re-establishing a call *)

(** The reason of a leave callback for an error. *)
Definition reason_of (err : Z) : Z :=
  if err =? 0 then ICALL_REASON_NORMAL
  else if err =? ETIMEDOUT then ICALL_REASON_TIMEOUT
  else if err =? ENOONEJOINED then ICALL_REASON_NOONE_JOINED
  else if err =? EEVERYONELEFT then ICALL_REASON_EVERYONE_LEFT
  else if err =? EDURATION then ICALL_REASON_DURATION
  else if err =? EACCES then ICALL_REASON_AUTH_FAILED
  else ICALL_REASON_ERROR.

(** [ccall_end_with_err] *)
Definition ccall_end_with_err (err : Z) : CCM () :=
  umodify (λ c, {| c with cf_error := err |});;
  c ← uget;
  match cf_state c with
  | CCALL_STATE_NONE | CCALL_STATE_IDLE => set_state CCALL_STATE_IDLE
  | CCALL_STATE_CONNSENT | CCALL_STATE_INCOMING | CCALL_STATE_WAITCONFIG
  | CCALL_STATE_WAITCONFIG_OUTGOING | CCALL_STATE_WAITNETWORK =>
    set_state CCALL_STATE_IDLE;;
    uemit [CcLeave (reason_of err) ECONN_MESSAGE_TIME_UNKNOWN]
  | CCALL_STATE_TERMINATING => mret ()
  | CCALL_STATE_SETUPRECV | CCALL_STATE_CONNECTING | CCALL_STATE_CONNECTED
  | CCALL_STATE_ACTIVE =>
    set_state CCALL_STATE_TERMINATING;;
    uemit (if err =? EDURATION
           then [CcLeave ICALL_REASON_DURATION ECONN_MESSAGE_TIME_UNKNOWN] else [])
  end;;
  with_users (userlist_incall_clear false false);;
  c ← uget;
  n ← on_keys ck_next;
  if negb (bool_decide (cc_ecall (cf c) = None)) && ecall_has_econn n
  then _ ← call_ecall EcEnd; mret ()
  else set_state CCALL_STATE_IDLE.

(** [ccall_reconnect] *)
Definition ccall_reconnect (msg_time : Z) (notify again : bool) : CCM () :=
  c ← uget;
  if bool_decide (cf_state c = CCALL_STATE_CONNSENT) then mret () else
  _ ← on_ks keystore_get_decrypt_states;
  if CCALL_MAX_RECONNECT_ATTEMPTS <=? cf_reconnect_attempts c then
    ccall_end_with_err ETIMEDOUT;;
    uemit [CcLeave ICALL_REASON_STILL_ONGOING msg_time]
  else
  umodify (λ c, {| c with cf_reconnect_attempts := u32 (cf_reconnect_attempts c + 1);
                          cf_expected_ping := 0; cf_last_ping := 0 |});;
  (if notify then
     umodify (λ c, {| c with cf_inc_reconnects := true;
       cf_metrics := (let m := cf_metrics c in
         {| m with mt_reconnects_attempted := u32 (mt_reconnects_attempted m + 1) |}) |})
   else mret ());;
  with_users (userlist_incall_clear true again);;
  umodify (λ c, {| c with cf_videol := [] |});;
  set_state CCALL_STATE_CONNSENT;;
  c ← uget;
  (match cf_sft_url c with
   | None => mret ()
   | Some url =>
     let sfti := cf_cfg c ≫= λ cfg, ccall_get_sft_info cfg (Some url) in
     _ ← ccall_send_conf_conn (Some url) (srv_username <$> sfti) (srv_credential <$> sfti) true;
     mret ()
   end);;
  uemit (if notify
         then [CcQuality "SFT" "SFT" {| st_rtt := 0; st_lost_tx := ICALL_RECONNECTING;
                                        st_lost_rx := ICALL_RECONNECTING |}]
         else []).

(** ** Timers *)

(** [ccall_connect_timeout] *)
Definition ccall_connect_timeout : CCM () :=
  c ← uget;
  if bool_decide (cf_state c = CCALL_STATE_ACTIVE) then mret ()
  else ccall_end_with_err ETIMEDOUT.

(** [ccall_send_check_timeout] *)
Definition ccall_send_check_timeout : CCM () :=
  c ← uget;
  (if bool_decide (cf_state c = CCALL_STATE_ACTIVE)
      && userlist_is_keygenerator_me (cf_userl c) then
     _ ← ccall_send_msg ECONN_CONF_CHECK true None false;
     if cc_is_mls_call (cf c) then
       now ← on_ks jiffies;
       uemit (if (0 <? cc_epoch_start_ts (cf c))
                 && (CCALL_REQ_NEW_EPOCH_TIMEOUT <=? u64 (now - cc_epoch_start_ts (cf c)))
              then [CcReqNewEpoch] else [])
     else mret ()
   else mret ());;
  tmr_start TmrSendCheck CCALL_SEND_CHECK_TIMEOUT.

(** [ccall_ongoing_call_timeout] *)
Definition ccall_ongoing_call_timeout : CCM () :=
  c ← uget;
  if bool_decide (cf_state c = CCALL_STATE_INCOMING) then
    set_state CCALL_STATE_IDLE;;
    uemit [CcClose 0 ECONN_MESSAGE_TIME_UNKNOWN]
  else mret ().

(** [ccall_stop_ringing_timeout] *)
Definition ccall_stop_ringing_timeout : CCM () :=
  c ← uget;
  if bool_decide (cf_state c = CCALL_STATE_INCOMING) then
    uemit [CcLeave ICALL_REASON_STILL_ONGOING ECONN_MESSAGE_TIME_UNKNOWN];;
    umodify (λ c, {| c with cf_is_ringing := false |})
  else mret ().

(** The reason of a leave callback for a rejection by the server; [None] for the
    status that is none. *)
Definition reject_reason (st : econn_confconn_status) : option Z :=
  match st with
  | ECONN_CONFCONN_OK => None
  | ECONN_CONFCONN_REJECTED_BLACKLIST => Some ICALL_REASON_OUTDATED_CLIENT
  | ECONN_CONFCONN_REJECTED_AUTH_INVALID | ECONN_CONFCONN_REJECTED_AUTH_LIMIT
  | ECONN_CONFCONN_REJECTED_AUTH_EXPIRED => Some ICALL_REASON_AUTH_FAILED
  | ECONN_CONFCONN_REJECTED_AUTH_CANTSTART => Some ICALL_REASON_AUTH_FAILED_START
  | ECONN_CONFCONN_other _ => Some 0
  end.

(** [ccall_sft_reject_timeout] *)
Definition ccall_sft_reject_timeout : CCM () :=
  c ← uget;
  if bool_decide (cf_state c = CCALL_STATE_CONNSENT) then
    set_state CCALL_STATE_IDLE;;
    match reject_reason (cf_confconn_status c) with
    | None => mret ()
    | Some reason =>
      uemit [CcLeave reason ECONN_MESSAGE_TIME_UNKNOWN];;
      _ ← call_ecall EcEnd;
      mret ()
    end
  else mret ().

(** [ccall_set_vstate] *)
Definition ccall_set_vstate (state : icall_vstate) : CCM Z :=
  umodify (λ c, {| c with cf_vstate := state |});;
  c ← uget;
  let self := userlist_get_self (cf_userl c) in
  uemit [CcVstateChanged (ui_userid_real self) (ui_clientid_real self) state; CcGroupChanged];;
  if bool_decide (cc_ecall (cf c) = None) then mret 0
  else call_ecall (EcSetVideoSendState state).

(** [ccall_sync_vstate_timeout] *)
Definition ccall_sync_vstate_timeout : CCM () :=
  c ← uget; _ ← ccall_set_vstate (cf_vstate c); mret ().

(** [ccall_decrypt_check_timeout] *)
Definition ccall_decrypt_check_timeout : CCM () :=
  c ← uget;
  if negb (bool_decide (cf_state c = CCALL_STATE_ACTIVE)) then mret () else
  if negb (cf_received_confpart c) then ccall_reconnect ECONN_MESSAGE_TIME_UNKNOWN true false else
  if bool_decide (userlist_get_keygenerator (cf_userl c) = None)
  then tmr_start TmrDecryptCheck CCALL_DECRYPT_CHECK_TIMEOUT else
  if userlist_is_keygenerator_me (cf_userl c) then mret () else
  has_keys ← on_ks keystore_has_keys;
  '(attempted, successful) ← on_ks keystore_get_decrypt_states;
  if negb has_keys || (attempted && negb successful)
  then _ ← on_keys ccall_request_keys; mret () else mret ().

(** [ccall_keepalive_timeout] *)
Definition ccall_keepalive_timeout : CCM () :=
  c ← uget;
  if negb (bool_decide (cf_state c = CCALL_STATE_ACTIVE)) then mret () else
  if bool_decide (cc_ecall (cf c) = None) then mret () else
  _ ← call_ecall (EcPing false);
  umodify (λ c, {| c with cf_expected_ping := u32 (cf_expected_ping c + 1) |});;
  c ← uget;
  if CCALL_MAX_MISSING_PINGS <? cf_expected_ping c
  then ccall_reconnect ECONN_MESSAGE_TIME_UNKNOWN true false
  else tmr_start TmrKeepalive CCALL_KEEPALIVE_TIMEOUT.

(** [ccall_alone_timeout] *)
Definition ccall_alone_timeout : CCM () :=
  c ← uget;
  if negb (bool_decide (cf_state c = CCALL_STATE_ACTIVE)) then mret () else
  if bool_decide (cc_ecall (cf c) = None) then mret () else
  ccall_end_with_err (if cf_someone_joined c then EEVERYONELEFT else ENOONEJOINED).

(** [durterm_timeout_handler] *)
Definition durterm_timeout_handler : CCM () :=
  set_state CCALL_STATE_IDLE;;
  c ← uget;
  uemit [CcClose (cf_error c) ECONN_MESSAGE_TIME_UNKNOWN].

(** [duration_timeout_handler] *)
Definition duration_timeout_handler : CCM () := ccall_end_with_err EDURATION.
End Ops.
