(* ===== verification/CcallOps.v ===== *)
(** * The conference call: connection, members, joining, messages
    ([src/ccall/ccall.c])

    The handlers [ccall] gives to its [ecall], the functions the application
    calls, and the messages of other clients and of the SFT server. *)

From Stdlib Require Import Ascii.
From S2P Require Import Prelude LibRe EconnMsg UserHash AudioLevel UserList Keystore CcallKeys CcallSft Icall Ccall.

Section Ops.
Context `{LibRe, Sodium, UlEnv, KsEnv, CkEnv, CcEnv}.

(** ** The handlers given to [ecall] *)

(** [ecall_ping_handler] *)
Definition ecall_ping_handler : CCM Z :=
  now ← on_ks jiffies;
  umodify (λ c, {| c with cf_last_ping := now; cf_expected_ping := 0;
                          cf_reconnect_attempts := 0 |});;
  c ← uget;
  (if cf_inc_reconnects c then
     umodify (λ c, {| c with cf_inc_reconnects := false;
       cf_metrics := (let m := cf_metrics c in
         {| m with mt_reconnects_successful := u32 (mt_reconnects_successful m + 1) |}) |})
   else mret ());;
  mret 0.

(** [ecall_setup_handler]; constant bit rate is always on. *)
Definition ecall_setup_handler : CCM () :=
  c ← uget; _ ← call_ecall (EcAnswer (cf_call_type c) true); mret ().

(** [ecall_datachan_estab_handler] *)
Definition ecall_datachan_estab_handler : CCM () :=
  c ← uget;
  if bool_decide (cf_state c = CCALL_STATE_CONNECTING)
  then set_state CCALL_STATE_CONNECTED else mret ().

(** [ecall_media_estab_handler] *)
Definition ecall_media_estab_handler (ecall : nat) (update : bool) : CCM () :=
  c ← uget;
  if negb (bool_decide (cc_ecall (cf c) = Some ecall)) then mret () else
  uemit [CcMediaEstab update];;
  uemit (if cc_is_mls_call (cf c) then [CcReqNewEpoch] else []);;
  if bool_decide (cf_state c = CCALL_STATE_CONNSENT) then mret () else
  set_state CCALL_STATE_ACTIVE;;
  with_users (userlist_incall_clear true (bool_decide (cf_state c = CCALL_STATE_ACTIVE))).

(** [ecall_audio_estab_handler] *)
Definition ecall_audio_estab_handler (update : bool) : CCM () := uemit [CcAudioEstab update].

(** [ecall_aulevel_handler] *)
Definition ecall_aulevel_handler (levell : list (option audio_level_t)) : CCM () :=
  '(levell, changed) ← with_users (userlist_update_audio_level levell);
  uemit (if changed : bool then [CcGroupChanged] else []);;
  uemit [CcAudioLevel levell].

(** The metrics of the connection, added to those of the call. *)
Definition add_metrics (metrics : icall_metrics) : CCM () :=
  now ← on_ks jiffies;
  umodify (λ c, {| c with cf_metrics := (let m := cf_metrics c in
    {| m with mt_duration_call := u64 (now - cf_ts_start c) / 1000;
              mt_duration_active := u64 (mt_duration_active m + mt_duration_call metrics);
              mt_packetloss_last := mt_packetloss_last metrics;
              mt_packetloss_max := Z.max (mt_packetloss_max metrics) (mt_packetloss_max m);
              mt_rtt_last := mt_rtt_last metrics;
              mt_rtt_max := Z.max (mt_rtt_max metrics) (mt_rtt_max m) |}) |}).

(** [ecall_close_handler] *)
Definition ecall_close_handler (ecall : nat) (err : Z) (metrics : option icall_metrics)
    (msg_time : Z) : CCM () :=
  c ← uget;
  let should_end := userlist_incall_count (cf_userl c) =? 0 in
  if negb (bool_decide (cc_ecall (cf c) = Some ecall)) then mret () else
  on_list userlist_reset_keygenerator;;
  if (err =? EAGAIN) || (err =? ENOTCONN) then
    umodify (λ c, {| c with cf_reconnect_attempts := 0; cf_expected_ping := 0;
                            cf_last_ping := 0 |});;
    ccall_reconnect msg_time (err =? ENOTCONN) (err =? EAGAIN)
  else
  with_users (userlist_incall_clear false false);;
  (if ((cf_error c =? 0) || (cf_error c =? ENOONEJOINED) || (cf_error c =? EEVERYONELEFT))
      && (should_end && cf_received_confpart c)
   then _ ← ccall_send_msg ECONN_CONF_END false None false; mret ()
   else mret ());;
  (match metrics with Some m => add_metrics m | None => mret () end);;
  (if should_end then
     set_state CCALL_STATE_IDLE;;
     uemit (if cf_error c =? EDURATION then [] else [CcClose (cf_error c) msg_time])
   else if cf_error c =? EDURATION then
     tmr_start TmrTerm CCALL_DURATION_TERM_TIMEOUT
   else
     set_state CCALL_STATE_INCOMING;;
     uemit [CcLeave ICALL_REASON_STILL_ONGOING msg_time]);;
  umodify (λ c, {| c with cf := (let k := cf c in {| k with cc_ecall := None |});
                          cf_error := 0 |}).

(** [ecall_quality_handler]; the degradation of resolutions is compiled out. *)
Definition ecall_quality_handler (userid clientid : string) (stats : stats_report) : CCM () :=
  c ← uget;
  if negb (bool_decide (cf_state c = CCALL_STATE_ACTIVE)) then mret () else
  _ ← on_ks jiffies;
  let rx := if CCALL_QUALITY_POOR_MISSING <=? cf_expected_ping c then 30
            else if CCALL_QUALITY_MEDIUM_MISSING <? cf_expected_ping c then 10
            else st_lost_rx stats in
  uemit [CcQuality userid clientid {| stats with st_lost_rx := rx |}].

(** *** Properties *)

(** [sscanf(s, "%u", ...)]: the number, when there is one. *)
Definition is_space (c : Ascii.ascii) : bool :=
  let n := Ascii.nat_of_ascii c in ((n =? 32) || ((9 <=? n) && (n <=? 13)))%nat.
Definition digit_of (c : Ascii.ascii) : option Z :=
  let n := Z.of_nat (Ascii.nat_of_ascii c) in
  if (48 <=? n) && (n <=? 57) then Some (n - 48) else None.

Fixpoint scan_digits (s : string) (acc : option Z) : option Z :=
  match s with
  | EmptyString => acc
  | String c s =>
    match digit_of c with
    | Some d => scan_digits s (Some (Z.min (default 0 acc * 10 + d) (2 ^ 64 - 1)))
    | None => acc
    end
  end.

Fixpoint scan_u (s : string) : option Z :=
  match s with
  | EmptyString => None
  | String c s' =>
    if is_space c then scan_u s'
    else if Ascii.eqb c "+"%char then scan_digits s' None
    else if Ascii.eqb c "-"%char then (λ x, - x) <$> scan_digits s' None
    else scan_digits s None
  end.

Definition sscanf_u (s : string) : option Z := u32 <$> scan_u s.

(** [propsync_get_states] of [ecall.c]: the state of the video and of the
    microphone, when they are present. *)
Definition propsync_get_states (props : econn_props_ref) : option icall_vstate * option bool :=
  let vr := econn_props_get props "videosend" in
  let v := if bool_decide (vr = Some "true"%string) then ICALL_VIDEO_STATE_STARTED
           else if bool_decide (vr = Some "paused"%string) then ICALL_VIDEO_STATE_PAUSED
           else ICALL_VIDEO_STATE_STOPPED in
  let sr := econn_props_get props "screensend" in
  let v := if bool_decide (sr = Some "true"%string) then ICALL_VIDEO_STATE_SCREENSHARE
           else if bool_decide (sr = Some "paused"%string)
                   && negb (bool_decide (v = ICALL_VIDEO_STATE_STARTED))
           then ICALL_VIDEO_STATE_PAUSED else v in
  let mt := econn_props_get props "muted" in
  (if bool_decide (vr = None) && bool_decide (sr = None) then None else Some v,
   (λ mt, String.eqb mt "true") <$> mt).

(** [ecall_propsync_handler] *)
Definition ecall_propsync_handler (msg : econn_message) : CCM Z :=
  let props := match msg_u msg with u_propsync p => p | _ => None end in
  let latest_epoch := default 0 (props ≫= λ p, econn_props_get p "keysync" ≫= sscanf_u) in
  c ← uget;
  match userlist_find_by_hash (cf_userl c) (Some (src_userid msg)) (Some (src_clientid msg)) with
  | None => mret 0
  | Some user =>
    let '(vs, mt) := match props with
                     | Some p => propsync_get_states p
                     | None => (None, None)
                     end in
    let vnew := vs ≫= λ v, if bool_decide (v = ui_video_state user) then None else Some v in
    let mnew := mt ≫= λ m, if Bool.eqb m (ui_muted user) then None else Some m in
    (match vnew with
     | None => mret ()
     | Some v =>
       on_list (set_user (ui_addr user) (λ u, {| u with ui_video_state := v |}));;
       uemit [CcVstateChanged (ui_userid_real user) (ui_clientid_real user) v]
     end);;
    (match mnew with
     | None => mret ()
     | Some m => on_list (set_user (ui_addr user) (λ u, {| u with ui_muted := m |}))
     end);;
    uemit (if bool_decide (is_Some vnew) || bool_decide (is_Some mnew)
           then [CcGroupChanged] else []);;
    err ← (if (0 <? latest_epoch) && negb (latest_epoch =? ui_latest_epoch user) then
             on_list (set_user (ui_addr user) (λ u, {| u with ui_latest_epoch := latest_epoch |}));;
             on_keys ccall_sync_media_keys
           else mret 0);
    if negb (err =? 0) then mret err else
    ccall_update_active_counts;;
    mret err
  end.

(** *** The participants *)

(** [x] in [n] bytes, the most significant first. *)
Fixpoint be_bytes (n : nat) (x : Z) : list Z :=
  match n with
  | O => []
  | S n => u8 (Z.shiftr x (8 * Z.of_nat n)) :: be_bytes n x
  end.

(** The bytes and the copy of a participant, for the loop of
    [ccall_keep_confpart_data]; [None] ends the loop with an error. *)
Definition part_bytes (p : econn_group_part) : option (list Z) :=
  (λ uid, bytes_of_string uid ++ be_bytes 4 (gp_ssrca p) ++ be_bytes 4 (gp_ssrcv p))
    <$> gp_userid p.

Definition part_copy (p : econn_group_part) : econn_group_part := {|
  gp_userid := gp_userid p; gp_clientid := gp_clientid p; gp_authorized := false;
  gp_muted_state := MUTED_STATE_UNKNOWN; gp_ssrca := gp_ssrca p; gp_ssrcv := gp_ssrcv p;
  gp_ts := 0 |}.

(** The loop: the bytes written, unless it ended with an error. *)
Fixpoint keep_parts (partl : list (option econn_group_part)) (data : list Z)
    : CCM (option (list Z)) :=
  match partl with
  | [] => mret (Some data)
  | None :: partl => keep_parts partl data
  | Some p :: partl =>
    match part_bytes p with
    | None => mret None
    | Some bs =>
      ok ← next_alloc;
      if negb ok then mret None else
      umodify (λ c, {| c with cf_saved_partl := cf_saved_partl c ++ [part_copy p] |});;
      keep_parts partl (data ++ bs)
    end
  end.

(** [ccall_keep_confpart_data]; writes to the buffer succeed, but for those of a
    [NULL] pointer.  After an error the position of the buffer is its end, so
    that nothing is left to be read. *)
Definition ccall_keep_confpart_data (cp : confpart) : CCM () :=
  data ← (match cp_entropy cp with
          | None => mret None
          | Some entropy =>
            umodify (λ c, {| c with cf_saved_partl := [] |});;
            keep_parts (cp_partl cp)
              (be_bytes 8 (cp_timestamp cp) ++ be_bytes 4 (cp_seqno cp) ++ entropy)
          end);
  umodify (λ c, {| c with cf := (let k := cf c in
                     {| k with cc_confpart_data := default [] data |}) |}).

(** The timer that ends a call in which this client stays alone. *)
Definition update_alone (count : nat) : CCM () :=
  c ← uget;
  if (1 <? count)%nat then
    tmr_cancel TmrAlone;; umodify (λ c, {| c with cf_someone_joined := true |})
  else if cf_someone_joined c then tmr_start TmrAlone CCALL_EVERYONE_LEFT_TIMEOUT
  else if negb (cf_meeting_is_set c) then tmr_start TmrAlone CCALL_NOONE_JOINED_TIMEOUT
  else mret ().

(** The duration of a meeting, checked with the first list of participants. *)
Definition check_duration (timestamp : Z) : CCM () :=
  c ← uget;
  let start := s32 (timestamp - cf_sft_timestamp c) in
  umodify (λ c, {| c with cf_meeting_start_duration := start |});;
  duration ← of_ptr (int_op (cf_meeting_duration c - start));
  if duration <=? 0 then ccall_end_with_err EDURATION else tmr_start TmrDuration duration.

(** [ecall_confpart_handler] *)
Definition ecall_confpart_handler (ecall : nat) (cp : confpart) : CCM () :=
  c ← uget;
  let first_confpart := negb (cf_received_confpart c) in
  if negb (bool_decide (cc_ecall (cf c) = Some ecall)) then mret () else
  let count := length (cp_partl cp) in
  let should_start := cp_should_start cp ||
    (cf_is_caller c && (cf_sft_timestamp c =? 0) && (cf_sft_seqno c =? 0) && (count =? 1)%nat) in
  umodify (λ c, {| c with cf_received_confpart := true |});;
  ccall_keep_confpart_data cp;;
  (if should_start then umodify (λ c, {| c with cf_metrics :=
     (let m := cf_metrics c in {| m with mt_initiator := true |}) |}) else mret ());;
  (if should_start && cf_is_caller c then
     umodify (λ c, {| c with cf_sft_timestamp := cp_timestamp cp; cf_sft_seqno := cp_seqno cp |});;
     _ ← ccall_send_msg ECONN_CONF_START false None false;
     mret ()
   else if (cf_sft_timestamp c =? 0) && (cf_sft_seqno c =? 0) then
     umodify (λ c, {| c with cf_sft_timestamp := cp_timestamp cp; cf_sft_seqno := cp_seqno cp |})
   else mret ());;
  update_alone count;;
  (if negb (cf_meeting_duration c =? 0) && first_confpart
   then check_duration (cp_timestamp cp) else mret ());;
  c ← uget;
  (if first_confpart && negb (bool_decide (cc_ecall (cf c) = None))
   then _ ← on_keys ccall_sync_props; mret () else mret ());;
  r ← (with_users (sft_update (cp_partl cp) false) : CCM (Z * option (bool * bool) * bool));
  if negb (r.1.1 =? 0) then mret () else
  on_list sort_users;;
  let list_changed := default false (fst <$> r.1.2) in
  let missing_parts := default false (snd <$> r.1.2) in
  _ ← send_confpart_response;
  c ← uget;
  (if (r.2 : bool) then
     let self := userlist_get_self (cf_userl c) in
     _ ← call_ecall (EcUpdateSsrc (ui_ssrca self) (ui_ssrcv self)); mret ()
   else mret ());;
  (if list_changed then
     uemit [CcGroupChanged];;
     if userlist_is_keygenerator_me (cf_userl c) && negb (cc_is_mls_call (cf c))
     then _ ← on_keys (ccall_send_keys false); mret () else mret ()
   else mret ());;
  uemit (if missing_parts then [CcReqClients] else []);;
  let sft_changed := ccall_sftlist_changed (cf_sftl c) (cp_sftl cp) in
  umodify (λ c, {| c with cf_sftl := cp_sftl cp |});;
  c ← uget;
  if userlist_is_keygenerator_me (cf_userl c) && negb should_start && sft_changed
  then ccall_send_check_timeout else mret ().

(** [ecall_confmsg_handler] *)
Definition ecall_confmsg_handler (ecall : nat) (msg : econn_message) : CCM () :=
  match msg_type msg, msg_u msg with
  | ECONN_CONF_PART, u_confpart cp => ecall_confpart_handler ecall cp
  | _, _ => mret ()
  end.

(** [create_ecall]: a failed [assert] ends the program. *)
Fixpoint add_turnservers (ecall : nat) (srvs : list zapi_ice_server) : CCM Z :=
  match srvs with
  | [] => mret 0
  | srv :: srvs =>
    uemit [CcEcall ecall (EcAddTurnserver srv)];;
    n ← on_keys ck_next;
    let err := ecall_ret n in
    if negb (err =? 0) then mret err else add_turnservers ecall srvs
  end.

Definition create_ecall : CCM Z :=
  c ← uget;
  if negb (bool_decide (cc_ecall (cf c) = None)) then undef else
  let self := userlist_get_self (cf_userl c) in
  umodify (λ c, {| c with cf_call_type :=
    match cf_call_type c, cf_vstate c with
    | ICALL_CALL_TYPE_NORMAL, (ICALL_VIDEO_STATE_STARTED | ICALL_VIDEO_STATE_SCREENSHARE) =>
      ICALL_CALL_TYPE_VIDEO
    | t, _ => t
    end |});;
  ecall ← on_keys ck_next;
  let err := ecall_ret ecall in
  if negb (err =? 0) then mret err else
  uemit [CcEcall ecall (EcSetQualityInterval (cf_quality_interval c))];;
  n ← on_keys ck_next;
  let err := ecall_ret n in
  if negb (err =? 0) then mret err else
  uemit [CcEcall ecall (EcSetRealClientid (ui_clientid_real self))];;
  n ← on_keys ck_next;
  let err := ecall_ret n in
  if negb (err =? 0) then mret err else
  err ← add_turnservers ecall (cf_turnv c);
  if negb (err =? 0) then mret err else
  uemit (if bool_decide (cc_convid_hash (cf c) = None) then []
         else [CcEcall ecall (EcSetSessid (cc_convid_hash (cf c)))]);;
  umodify (λ c, {| c with cf := (let k := cf c in {| k with cc_ecall := Some ecall |}) |});;
  tmr_start TmrVstate 0;;
  mret 0.

(** ** Joining *)

(** [ccall_stop_others_ringing_i] *)
Definition ccall_stop_others_ringing_i : CCM () :=
  c ← uget;
  let type := match cf_stop_ringing_reason c with
              | CCALL_STOP_RINGING_ANSWERED => Some ECONN_CONF_START
              | CCALL_STOP_RINGING_REJECTED => Some ECONN_REJECT
              | CCALL_STOP_RINGING_NONE => None
              end in
  match type with
  | None => mret ()
  | Some type =>
    umodify (λ c, {| c with cf_stop_ringing_reason := CCALL_STOP_RINGING_NONE |});;
    '(err, targets) ← on_list userlist_get_my_clients;
    if negb (err =? 0) then mret () else
    if cc_is_mls_call (cf c) || (0 <? length targets)%nat
    then _ ← ccall_send_msg_i type true (Some targets) false true; mret () else mret ()
  end.

(** [ccall_stop_others_ringing] *)
Definition ccall_stop_others_ringing : CCM () :=
  c ← uget;
  if cc_is_mls_call (cf c) then ccall_stop_others_ringing_i else uemit [CcReqClients].

(** [ccall_req_cfg_join] *)
Definition ccall_req_cfg_join (call_type : icall_call_type) (audio_cbr retry_attempt is_outgoing : bool)
    : CCM Z :=
  n ← on_keys ck_next;
  if negb (ck_mem_ok n) then mret ENOMEM else
  umodify (λ c, {| c with cf_je := None |});;
  set_state (if is_outgoing then CCALL_STATE_WAITCONFIG_OUTGOING else CCALL_STATE_WAITCONFIG);;
  umodify (λ c, {| c with cf_je := Some {| je_addr := n; je_call_type := call_type;
    je_audio_cbr := audio_cbr; je_retry_attempt := retry_attempt |} |});;
  c ← uget;
  if bool_decide (is_Some (cf_cfg c)) then
    uemit [CcConfigRequest];; n ← on_keys ck_next; mret (config_request_ret n)
  else mret EINVAL.

(** The attempts to join over the servers the call is known to use, at most
    three of them: the last error and the number of successes. *)
Fixpoint join_known (cfg : call_config) (sftl : list string) (err connected : Z) : CCM (Z * Z) :=
  match sftl with
  | [] => mret (err, connected)
  | url :: sftl =>
    '(err, connected) ←
      (if ccall_can_connect_sft cfg (Some url) then
         let sfti := ccall_get_sft_info cfg (Some url) in
         err ← ccall_send_conf_conn (Some url) (srv_username <$> sfti)
                                    (srv_credential <$> sfti) false;
         mret (err, if err =? 0 then connected + 1 else connected)
       else mret (err, connected));
    if 3 <=? connected then mret (err, connected) else join_known cfg sftl err connected
  end.

(** The server an entry of the configuration stands for. *)
Definition sft_for (cfg : call_config) (srv : zapi_ice_server) : zapi_ice_server :=
  match ccall_get_sft_info cfg (Some (srv_url srv)) with
  | Some si => si
  | None =>
    match ccall_get_sft_info_at_index cfg 0 with
    | Some si => {| si with srv_url := str_ncpy (srv_url srv) 256 |}
    | None => srv
    end
  end.

(** The attempts to join over the servers of the configuration: the last
    error. *)
Fixpoint join_config (cfg : call_config) (urlv : list zapi_ice_server) (err : Z) : CCM Z :=
  match urlv with
  | [] => mret err
  | srv :: urlv =>
    let sfti := sft_for cfg srv in
    err ← ccall_send_conf_conn (Some (srv_url sfti)) (Some (srv_username sfti))
                               (Some (srv_credential sfti)) false;
    join_config cfg urlv err
  end.

(** The label [out] of [config_update_handler]. *)
Definition cfg_out (je : join_elem) (err : Z) (deref_je : bool) : CCM () :=
  (if err =? 0 then
     set_state CCALL_STATE_CONNSENT;;
     umodify (λ c, {| c with cf_call_type := je_call_type je |});;
     ccall_stop_others_ringing
   else mret ());;
  if deref_je then umodify (λ c, {| c with cf_je := None |}) else mret ().

(** The part of [config_update_handler] for a call others have started, up to a
    [goto out]; [None] when it goes on with the servers of the configuration. *)
Definition cfg_join_known (je : join_elem) (cfg : call_config) : CCM (option (Z * bool)) :=
  c ← uget;
  r ← (match cf_sftl c, cf_primary_sft_url c with
       | _ :: _, _ =>
         '(err, connected) ← join_known cfg (cf_sftl c) 0 0;
         mret (if 0 <? connected then Some (err, true) else None)
       | [], Some primary =>
         if ccall_can_connect_sft cfg (Some primary) then
           let sfti := ccall_get_sft_info cfg (Some primary) in
           err ← ccall_send_conf_conn (Some primary) (srv_username <$> sfti)
                                      (srv_credential <$> sfti) false;
           mret (Some (err, true))
         else mret None
       | [], None => mret None
       end);
  if bool_decide (is_Some r) then mret r else
  if cfg_is_federating cfg then mret None else
  if je_retry_attempt je then ccall_end_with_err EACCES;; mret (Some (EACCES, true)) else
  c ← uget;
  err ← ccall_req_cfg_join (je_call_type je) (je_audio_cbr je) true
          (bool_decide (cf_state c = CCALL_STATE_WAITCONFIG_OUTGOING));
  mret (Some (if negb (err =? 0) then (err, true) else (EAGAIN, false))).

(** [config_update_handler] *)
Definition config_update_handler (je : nat) : CCM () :=
  c ← uget;
  match cf_je c with
  | None => mret ()
  | Some je' =>
    if negb (je_addr je' =? je)%nat then mret () else
    match cf_cfg c, cfg_servers cfg_sftservers (cf_cfg c) with
    | Some cfg, Some urlv =>
      match cf_state c with
      | CCALL_STATE_WAITCONFIG =>
        r ← cfg_join_known je' cfg;
        match r with
        | Some (err, deref_je) => cfg_out je' err deref_je
        | None => err ← join_config cfg (take 3 urlv) 0; cfg_out je' err true
        end
      | CCALL_STATE_WAITCONFIG_OUTGOING =>
        err ← join_config cfg (take 3 urlv) 0; cfg_out je' err true
      | _ => cfg_out je' 0 true
      end
    | _, _ => ccall_end_with_err ENOTSUP;; cfg_out je' 0 true
    end
  end.

(** ** Calls of the application *)

(** [ccall_answer] *)
Definition ccall_answer (call_type : icall_call_type) (audio_cbr : bool) : CCM Z :=
  umodify (λ c, {| c with cf_error := 0 |});;
  c ← uget;
  match cf_state c with
  | CCALL_STATE_IDLE | CCALL_STATE_INCOMING =>
    umodify (λ c, {| c with cf_is_caller := false;
                            cf_stop_ringing_reason := CCALL_STOP_RINGING_ANSWERED |});;
    ccall_req_cfg_join call_type audio_cbr false false
  | _ => mret EINVAL
  end.

(** [ccall_start] *)
Definition ccall_start (call_type : icall_call_type) (audio_cbr meeting : bool) : CCM Z :=
  umodify (λ c, {| c with cf_error := 0; cf_meeting_is_set := meeting |});;
  c ← uget;
  match cf_state c with
  | CCALL_STATE_INCOMING => ccall_answer call_type audio_cbr
  | CCALL_STATE_IDLE =>
    umodify (λ c, {| c with cf_is_caller := true |});;
    ccall_req_cfg_join call_type audio_cbr false true
  | _ => mret 0
  end.

(** [ccall_end] *)
Definition ccall_end : CCM () := if_ecall EcEnd.

(** [ccall_reject] *)
Definition ccall_reject : CCM () :=
  c ← uget;
  if bool_decide (cf_state c = CCALL_STATE_INCOMING) then
    umodify (λ c, {| c with cf_stop_ringing_reason := CCALL_STOP_RINGING_REJECTED |});;
    ccall_stop_others_ringing
  else mret ().

(** [ccall_media_start] *)
Definition ccall_media_start : CCM Z := _ ← call_ecall EcMediaStart; mret 0.

(** [ccall_media_stop] *)
Definition ccall_media_stop : CCM () := _ ← call_ecall EcMediaStop; mret ().

(** [ccall_get_members] *)
Definition ccall_get_members : CCM (Z * option wcall_members) :=
  c ← uget;
  n ← on_keys ck_next;
  on_list (userlist_get_members (msystem_get_muted n)
             (if bool_decide (cf_state c = CCALL_STATE_ACTIVE)
              then ICALL_AUDIO_STATE_ESTABLISHED else ICALL_AUDIO_STATE_CONNECTING)
             (cf_vstate c)).

(** [ccall_set_quality_interval] *)
Definition ccall_set_quality_interval (interval : Z) : CCM Z :=
  umodify (λ c, {| c with cf_quality_interval := interval |});;
  if_ecall (EcSetQualityInterval interval);;
  mret 0.

(** [ccall_add_turnserver] *)
Definition ccall_add_turnserver (srv : zapi_ice_server) : CCM Z :=
  c ← uget;
  if (MAX_TURN_SERVERS <=? length (cf_turnv c))%nat then mret EOVERFLOW else
  umodify (λ c, {| c with cf_turnv := cf_turnv c ++ [srv] |});;
  mret 0.

(** [ccall_set_config] *)
Definition ccall_set_config (cfg : call_config) : CCM Z :=
  umodify (λ c, {| c with cf_cfg := Some cfg |});; mret 0.

(** [ccall_set_clients] *)
Definition ccall_set_clients (clientl : list (option icall_client)) (epoch : Z) : CCM () :=
  c ← uget;
  r ← (with_users (userlist_update_from_selist clientl epoch (cf_secret c))
       : CCM (option (bool * bool)));
  let list_changed := default false (fst <$> r) in
  let list_removed := default false (snd <$> r) in
  uemit (if list_changed then [CcGroupChanged] else []);;
  (if list_removed then
     umodify (λ c, {| c with cf := (let k := cf c in {| k with cc_someone_left := true |}) |});;
     tmr_start TmrRotateKey CCALL_ROTATE_KEY_FAST_TIMEOUT
   else mret ());;
  (if bool_decide (cf_state c = CCALL_STATE_ACTIVE) then
     (if list_changed then _ ← send_confpart_response; mret () else mret ());;
     _ ← on_keys (ccall_send_keys false);
     mret ()
   else mret ());;
  if negb (bool_decide (cf_stop_ringing_reason c = CCALL_STOP_RINGING_NONE))
  then ccall_stop_others_ringing_i else mret ().

(** [ccall_update_mute_state] *)
Definition ccall_update_mute_state : CCM Z :=
  uemit [CcGroupChanged];;
  c ← uget;
  if bool_decide (cc_ecall (cf c) = None) then mret 0 else call_ecall EcUpdateMuteState.

(** [ccall_set_background] *)
Definition ccall_set_background (background : bool) : CCM Z :=
  c ← uget;
  (if bool_decide (cf_state c = CCALL_STATE_INCOMING)
   then if background then tmr_cancel TmrOngoing
        else tmr_start TmrOngoing CCALL_ONGOING_CALL_TIMEOUT
   else mret ());;
  mret 0.

(** [ccall_activate] *)
Definition ccall_activate (active : bool) : CCM Z := if_ecall (EcActivate active);; mret 0.

(** [ccall_set_duration] *)
Definition ccall_set_duration (duration : Z) : CCM () :=
  d ← of_ptr (int_op (duration * 1000));
  umodify (λ c, {| c with cf_meeting_duration := d |}).

(** [ccall_restart] *)
Definition ccall_restart : CCM Z :=
  c ← uget; if_ecall (EcRestart (cf_call_type c));; mret 0.

(** The loop of [ccall_request_video_streams]: the streams asked for, or an
    error; the result of [icall_client_alloc] is not tested. *)
Fixpoint request_streams (clientl : list icall_client) (streaml : list econn_stream_info)
    : CCM (Z * list econn_stream_info) :=
  match clientl with
  | [] => mret (0, streaml)
  | cli :: clientl =>
    c ← uget;
    match userlist_find_by_real (cf_userl c) (cl_userid cli) (cl_clientid cli) with
    | None => request_streams clientl streaml
    | Some user =>
      ok ← next_alloc;
      if negb ok then mret (ENOMEM, streaml) else
      let sinfo := {| si_userid := id_of (ui_userid_hash user);
                      si_quality := u32 (cl_quality cli);
                      si_ssrcv_clientid := ""; si_ssrcv_hi := 0; si_ssrcv_lo := 0 |} in
      ok ← next_alloc;
      if negb ok then undef else
      let vinfo := icall_client_alloc (cl_userid cli) (cl_clientid cli) in
      umodify (λ c, {| c with cf_videol := cf_videol c ++
        [{| vinfo with cl_quality := cl_quality cli; cl_vstate := ui_video_state user |}] |});;
      request_streams clientl (streaml ++ [sinfo])
    end
  end.

(** [ccall_request_video_streams]: when the message cannot be made, an
    uninitialised pointer is released. *)
Definition ccall_request_video_streams (clientl : list icall_client) : CCM Z :=
  if (length clientl =? 0)%nat then mret EINVAL else
  c ← uget;
  let self := userlist_get_self (cf_userl c) in
  '(_, msg) ← alloc_message ECONN_CONF_STREAMS false (ui_userid_hash self)
                (ui_clientid_hash self) (Some "SFT"%string) (Some "SFT"%string) false;
  msg ← of_ptr msg;
  umodify (λ c, {| c with cf_videol := [] |});;
  ok ← next_alloc;
  if negb ok then undef else
  '(err, streaml) ← request_streams clientl [];
  if negb (err =? 0) then mret err else
  umodify (λ c, {| c with cf_metrics := (let m := cf_metrics c in
    {| m with mt_participants_video_req :=
         Z.max (mt_participants_video_req m) (Z.of_nat (length streaml)) |}) |});;
  n ← on_keys ck_next;
  let err := econn_message_encode_ret n in
  if negb (err =? 0) then mret err else
  call_ecall (EcDceSend {| msg with msg_u := u_confstreams streaml (Some "list"%string) |}).
End Ops.
