(* ===== verification/CcallMsg.v ===== *)
(** * The conference call: messages and life cycle ([src/ccall/ccall.c])

    The messages of other clients and of the SFT server, the allocation of a call
    and the expiry of its timers.  [cc_op] lists everything that can happen to a
    call and [cc_exec] what it does. *)

From S2P Require Import Prelude LibRe EconnMsg UserHash AudioLevel UserList Keystore CcallKeys CcallSft Icall Ccall CcallOps.

Section Ops.
Context `{LibRe, Sodium, UlEnv, KsEnv, CkEnv, CcEnv}.

(** ** CONFSTART and CONFCHECK *)

(** The common part of the two messages, and whether it is to be taken note
    of; [None] for other messages. *)
Definition confstart_of (msg : econn_message) : option (confstart * bool) :=
  match msg_type msg, msg_u msg with
  | ECONN_CONF_START, u_confstart cs => Some (cs, msg_age msg <? CCALL_CONFSTART_TIMEOUT_S)
  | ECONN_CONF_CHECK, u_confcheck cs =>
    Some (cs, negb (econn_message_isrequest msg) && (msg_age msg <? CCALL_CONFSTART_TIMEOUT_S))
  | _, _ => None
  end.

(** [ts_cmp]: positive when the message announces an earlier call. *)
Definition ts_cmp (sft_timestamp sft_seqno msg_ts msg_seqno : Z) : Z :=
  if (sft_timestamp =? 0) || (msg_ts <? sft_timestamp) then 1
  else if sft_timestamp <? msg_ts then -1
  else s32 (sft_seqno - msg_seqno).

(** The earlier call is adopted: the error code. *)
Definition adopt_call (cs : confstart) : CCM Z :=
  umodify (λ c, {| c with cf_primary_sft_url := None |});;
  url ← of_ptr (cs_sft_url cs);
  '(_, primary) ← copy_sft' url;
  umodify (λ c, {| c with cf_primary_sft_url := primary; cf_sft_tuple := None |});;
  '(err, tuple) ← str_dup_if (bool_decide (is_Some (cs_sft_tuple cs))) (cs_sft_tuple cs);
  if negb (err =? 0) then mret err else
  umodify (λ c, {| c with cf_sft_tuple := tuple; cf_sft_timestamp := cs_timestamp cs;
                          cf_sft_seqno := cs_seqno cs |});;
  _ ← on_ks keystore_reset;
  _ ← ccall_set_secret (cs_secret cs);
  umodify (λ c, {| c with cf_is_caller := false |});;
  on_list userlist_reset_keygenerator;;
  mret 0.

(** [should_ring] *)
Definition rings (c : conf_call) (msg : econn_message) (userid_sender : string) : bool :=
  econn_message_isrequest msg
  && bool_decide (msg_type msg = ECONN_CONF_START)
  && (u32 (msg_age msg * 1000) <? CCALL_SHOULD_RING_TIMEOUT)
  && negb (strcaseeq (Some userid_sender) (ui_userid_real (ul_self (cf_userl c))))
  && negb (cf_meeting_is_set c).

(** The connection is dropped and the earlier call is joined. *)
Definition rejoin (sftl : list string) : CCM Z :=
  _ ← call_ecall EcEnd;
  umodify (λ c, {| c with cf := (let k := cf c in {| k with cc_ecall := None |});
                          cf_sftl := sftl |});;
  c ← uget;
  ccall_req_cfg_join (cf_call_type c) true false false.

(** [ccall_handle_confstart_check] *)
Definition ccall_handle_confstart_check (userid_sender clientid_sender : option string)
    (msg : econn_message) : CCM Z :=
  match userid_sender, clientid_sender, confstart_of msg with
  | Some userid_sender, Some clientid_sender, Some (cs, valid_call) =>
    if negb valid_call then mret 0 else
    c ← uget;
    let cmp := ts_cmp (cf_sft_timestamp c) (cf_sft_seqno c) (cs_timestamp cs) (cs_seqno cs) in
    err ← (if 0 <? cmp then adopt_call cs else mret 0);
    if negb (err =? 0) then mret err else
    let set_sftl := if 0 <=? cmp then umodify (λ c, {| c with cf_sftl := cs_sftl cs |})
                    else mret () in
    match cf_state c with
    | CCALL_STATE_IDLE =>
      let should_ring := rings c msg userid_sender in
      umodify (λ c, {| c with cf_is_ringing := should_ring |});;
      set_state CCALL_STATE_INCOMING;;
      uemit [CcStart (msg_time msg) userid_sender clientid_sender should_ring];;
      (if should_ring then tmr_start TmrRing CCALL_RINGER_TIMEOUT else mret ());;
      set_sftl;;
      mret 0
    | CCALL_STATE_INCOMING =>
      (if strcaseeq (Some userid_sender) (ui_userid_real (ul_self (cf_userl c)))
          && cf_is_ringing c then
         tmr_cancel TmrRing;;
         uemit [CcLeave ICALL_REASON_STILL_ONGOING ECONN_MESSAGE_TIME_UNKNOWN];;
         umodify (λ c, {| c with cf_is_ringing := false |})
       else mret ());;
      tmr_cancel TmrOngoing;;
      tmr_start TmrOngoing CCALL_ONGOING_CALL_TIMEOUT;;
      set_sftl;;
      mret 0
    | CCALL_STATE_CONNSENT | CCALL_STATE_SETUPRECV | CCALL_STATE_CONNECTING
    | CCALL_STATE_CONNECTED | CCALL_STATE_WAITCONFIG | CCALL_STATE_WAITCONFIG_OUTGOING
    | CCALL_STATE_WAITNETWORK =>
      if 0 <? cmp then
        umodify (λ c, {| c with cf_metrics :=
          (let m := cf_metrics c in {| m with mt_initiator := false |}) |});;
        rejoin (cs_sftl cs)
      else mret 0
    | CCALL_STATE_ACTIVE =>
      if 0 <? cmp then rejoin (cs_sftl cs)
      else if (cmp <? 0) && userlist_is_keygenerator_me (cf_userl c) then
        _ ← ccall_send_msg ECONN_CONF_START true None false; mret 0
      else mret 0
    | CCALL_STATE_NONE | CCALL_STATE_TERMINATING => mret 0
    end
  | _, _, _ => mret EINVAL
  end.

(** ** Other messages of clients *)

(** [strncmp(a, b, ECONN_ID_LEN) == 0], where the first is an array of that
    length. *)
Definition same_sessid (a b : string) : bool :=
  String.eqb (String.substring 0 ECONN_ID_LEN a) (String.substring 0 ECONN_ID_LEN b).

(** [ccall_msg_recv] *)
Definition ccall_msg_recv (userid_sender clientid_sender : option string)
    (msg : econn_message) : CCM Z :=
  c ← uget;
  match msg_type msg with
  | ECONN_CONF_START | ECONN_CONF_CHECK =>
    ccall_handle_confstart_check userid_sender clientid_sender msg
  | ECONN_CONF_END =>
    match cf_state c with
    | CCALL_STATE_INCOMING =>
      hash ← of_ptr (cc_convid_hash (cf c));
      if same_sessid (sessid_sender msg) hash then
        set_state CCALL_STATE_IDLE;;
        uemit [CcClose 0 ECONN_MESSAGE_TIME_UNKNOWN];;
        mret 0
      else mret 0
    | CCALL_STATE_ACTIVE =>
      (if userlist_is_keygenerator_me (cf_userl c)
       then tmr_cancel TmrSendCheck;; tmr_start TmrSendCheck 0 else mret ());;
      mret 0
    | _ => mret 0
    end
  | ECONN_CONF_KEY =>
    (if resp msg then
       on_keys (recv_confkey_resp userid_sender clientid_sender
                  (match msg_u msg with u_confkey keyl => keyl | _ => [] end))
     else on_keys (recv_confkey_req userid_sender clientid_sender));;
    mret 0
  | ECONN_REJECT =>
    (if bool_decide (cf_state c = CCALL_STATE_INCOMING)
        && strcaseeq userid_sender (ui_userid_real (ul_self (cf_userl c))) then
       tmr_cancel TmrRing;;
       uemit [CcLeave ICALL_REASON_STILL_ONGOING ECONN_MESSAGE_TIME_UNKNOWN];;
       umodify (λ c, {| c with cf_is_ringing := false |})
     else mret ());;
    mret 0
  | _ => mret 0
  end.

(** ** Messages of the SFT server *)

(** The URL and tuple of a SETUP are remembered: the error code. *)
Definition setup_from (msg : econn_message) : CCM Z :=
  match setup_url msg with
  | None => mret 0
  | Some url =>
    c ← uget;
    err ← (if bool_decide (cf_sft_url c = None) then
             '(err, u) ← copy_sft' url;
             (if err =? 0 then umodify (λ c, {| c with cf_sft_url := u |}) else mret ());;
             mret err
           else mret 0);
    if negb (err =? 0) then mret err else
    if negb (bool_decide (cf_primary_sft_url c = None)) then mret 0 else
    '(err, u) ← copy_sft' url;
    if negb (err =? 0) then mret err else
    umodify (λ c, {| c with cf_primary_sft_url := u; cf_sft_tuple := None |});;
    '(err, tuple) ← str_dup_if (bool_decide (is_Some (setup_sft_tuple msg))) (setup_sft_tuple msg);
    umodify (λ c, {| c with cf_sft_tuple := tuple |});;
    mret err
  end.

(** The message is handed to the connection, which is made if there is none. *)
Definition to_ecall (msg : econn_message) : CCM Z :=
  c ← uget;
  (if bool_decide (cc_ecall (cf c) = None) then _ ← create_ecall; mret () else mret ());;
  let userid_peer := if str_isset (Some (src_userid msg)) then src_userid msg else "SFT"%string in
  call_ecall (EcMsgRecv userid_peer "SFT" msg).

(** [ccall_sft_msg_recv] *)
Definition ccall_sft_msg_recv (status : Z) (msg : option econn_message) : CCM Z :=
  if status =? SFT_STATUS_NETWORK_ERROR then ccall_end_with_err ENOSYS;; mret 0 else
  c ← uget;
  match msg with
  | None =>
    (if bool_decide (cf_state c = CCALL_STATE_CONNSENT)
     then set_state CCALL_STATE_WAITNETWORK else mret ());;
    mret 0
  | Some msg =>
    if bool_decide (is_Some (cc_convid_hash (cf c)))
       && negb (strcaseeq (cc_convid_hash (cf c)) (Some (sessid_sender msg))) then mret 0 else
    match msg_type msg with
    | ECONN_CONF_CONN =>
      match msg_u msg with
      | u_confconn cn =>
        match cn_status cn with
        | ECONN_CONFCONN_REJECTED_BLACKLIST | ECONN_CONFCONN_REJECTED_AUTH_INVALID
        | ECONN_CONFCONN_REJECTED_AUTH_LIMIT | ECONN_CONFCONN_REJECTED_AUTH_EXPIRED
        | ECONN_CONFCONN_REJECTED_AUTH_CANTSTART =>
          umodify (λ c, {| c with cf_confconn_status := cn_status cn |});;
          tmr_start TmrSftReject 1;;
          mret 0
        | ECONN_CONFCONN_OK | ECONN_CONFCONN_other _ => mret 0
        end
      | _ => mret 0
      end
    | ECONN_SETUP =>
      if negb (bool_decide (cf_state c = CCALL_STATE_CONNSENT)) then mret 0 else
      set_state CCALL_STATE_SETUPRECV;;
      err ← setup_from msg;
      if negb (err =? 0) then mret err else to_ecall msg
    | ECONN_UPDATE =>
      if negb (bool_decide (cf_state c = CCALL_STATE_CONNSENT)) then mret 0 else
      set_state CCALL_STATE_SETUPRECV;;
      to_ecall msg
    | _ => to_ecall msg
    end
  end.

(** ** Allocation *)

Definition metrics_zero (mls : bool) : icall_metrics := {|
  mt_conv_type := if mls then ICALL_CONV_TYPE_CONFERENCE_MLS else ICALL_CONV_TYPE_CONFERENCE;
  mt_duration_call := 0; mt_duration_active := 0; mt_participants_max := 0;
  mt_participants_audio_max := 0; mt_participants_video_max := 0;
  mt_participants_video_req := 0; mt_packetloss_last := 0; mt_packetloss_max := 0;
  mt_rtt_last := 0; mt_rtt_max := 0; mt_reconnects_attempted := 0;
  mt_reconnects_successful := 0; mt_initiator := false |}.

(** The fields of a new call with a given list and key store. *)
Definition new_call (convid : string) (l : userlist) (ks : keystore) (mls meeting : bool)
    : conf_call := {|
  cf := {| cc_userl := l; cc_keystore := ks; cc_state := CCALL_STATE_IDLE;
           cc_is_mls_call := mls; cc_someone_left := false; cc_became_kg := false;
           cc_request_key := false; cc_convid_hash := None; cc_confpart_data := [];
           cc_epoch_start_ts := 0; cc_ecall := None; cc_tick := 0 |};
  cf_turnv := []; cf_convid_real := convid; cf_saved_partl := [];
  cf_primary_sft_url := None; cf_sft_url := None; cf_sft_tuple := None; cf_sftl := [];
  cf_secret := []; cf_sft_timestamp := 0; cf_sft_seqno := 0; cf_is_caller := false;
  cf_is_ringing := false; cf_stop_ringing_reason := CCALL_STOP_RINGING_NONE;
  cf_call_type := ICALL_CALL_TYPE_NORMAL; cf_vstate := ICALL_VIDEO_STATE_STOPPED;
  cf_someone_joined := false; cf_reconnect_attempts := 0; cf_expected_ping := 0;
  cf_last_ping := 0; cf_received_confpart := false; cf_error := 0;
  cf_timers := λ _, None; cf_je := None; cf_cfg := None; cf_quality_interval := 0;
  cf_confconn_status := ECONN_CONFCONN_OK; cf_ts_start := 0;
  cf_metrics := metrics_zero mls; cf_inc_reconnects := false; cf_videol := [];
  cf_meeting_is_set := meeting; cf_meeting_duration := 0; cf_meeting_start_duration := 0;
|}.

(** [ccall_alloc], when its allocations succeed: the call, whose first secret is
    random. *)
Definition ccall_alloc (convid : string) (userid_self clientid : option string)
    (mls meeting : bool) (secret : list Z) : option conf_call :=
  match userlist_alloc 0 userid_self clientid true true true true true,
        keystore_alloc 0 0 (negb mls) with
  | (_, Some l), (_, Some ks) =>
    match ccall_set_secret secret (new_call convid l ks mls meeting) with
    | Some (_, c, _) => Some c
    | None => None
    end
  | _, _ => None
  end.

(** ** Everything that can happen to a call *)

(** The handler of a timer. *)
Definition timer_handler (t : ccall_timer) : CCM () :=
  match t with
  | TmrConnect => ccall_connect_timeout
  | TmrSendCheck => ccall_send_check_timeout
  | TmrOngoing => ccall_ongoing_call_timeout
  | TmrRotateKey => n ← on_keys ck_next; on_keys (ccall_rotate_key_timeout (stack_key n))
  | TmrRotateMls => on_keys ccall_rotate_mls_timeout
  | TmrRing => ccall_stop_ringing_timeout
  | TmrSftReject => ccall_sft_reject_timeout
  | TmrVstate => ccall_sync_vstate_timeout
  | TmrDecryptCheck => ccall_decrypt_check_timeout
  | TmrKeepalive => ccall_keepalive_timeout
  | TmrAlone => ccall_alone_timeout
  | TmrDuration => duration_timeout_handler
  | TmrTerm => durterm_timeout_handler
  end.

(** A timer that runs expires. *)
Definition fire (t : ccall_timer) : CCM () :=
  c ← uget;
  if bool_decide (cf_timers c t = None) then mret () else tmr_cancel t;; timer_handler t.

Inductive cc_op :=
(* the application *)
| DoStart (call_type : icall_call_type) (audio_cbr meeting : bool)
| DoAnswer (call_type : icall_call_type) (audio_cbr : bool)
| DoEnd
| DoReject
| DoMediaStart
| DoMediaStop
| DoSetVstate (vstate : icall_vstate)
| DoGetMembers
| DoSetQualityInterval (interval : Z)
| DoAddTurnserver (srv : zapi_ice_server)
| DoSetConfig (cfg : call_config)
| DoSetClients (clientl : list (option icall_client)) (epoch : Z)
| DoUpdateMuteState
| DoSetBackground (background : bool)
| DoActivate (active : bool)
| DoSetDuration (duration : Z)
| DoRestart
| DoSetMediaKey (epochid : Z) (key_data : list Z)
| DoRequestVideoStreams (clientl : list icall_client)
(* messages and the configuration *)
| DoMsgRecv (userid clientid : option string) (msg : econn_message)
| DoSftMsgRecv (status : Z) (msg : option econn_message)
| DoConfigUpdate (je : nat)
(* the connection *)
| DoPing
| DoSetup
| DoTranspSend (msg : econn_message)
| DoDatachanEstab
| DoMediaEstab (ecall : nat) (update : bool)
| DoAudioEstab (update : bool)
| DoAulevel (levell : list (option audio_level_t))
| DoClose (ecall : nat) (err : Z) (metrics : option icall_metrics) (msg_time : Z)
| DoQuality (userid clientid : string) (stats : stats_report)
| DoPropsync (msg : econn_message)
| DoConfmsg (ecall : nat) (msg : econn_message)
(* time *)
| DoTimer (t : ccall_timer).

Definition cc_exec (o : cc_op) : CCM () :=
  match o with
  | DoStart t cbr meeting => udone (ccall_start t cbr meeting)
  | DoAnswer t cbr => udone (ccall_answer t cbr)
  | DoEnd => ccall_end
  | DoReject => ccall_reject
  | DoMediaStart => udone ccall_media_start
  | DoMediaStop => ccall_media_stop
  | DoSetVstate v => udone (ccall_set_vstate v)
  | DoGetMembers => udone ccall_get_members
  | DoSetQualityInterval i => udone (ccall_set_quality_interval i)
  | DoAddTurnserver srv => udone (ccall_add_turnserver srv)
  | DoSetConfig cfg => udone (ccall_set_config cfg)
  | DoSetClients cl epoch => ccall_set_clients cl epoch
  | DoUpdateMuteState => udone ccall_update_mute_state
  | DoSetBackground b => udone (ccall_set_background b)
  | DoActivate b => udone (ccall_activate b)
  | DoSetDuration d => ccall_set_duration d
  | DoRestart => udone ccall_restart
  | DoSetMediaKey epoch key => udone (on_keys (ccall_set_media_key epoch key))
  | DoRequestVideoStreams cl => udone (ccall_request_video_streams cl)
  | DoMsgRecv uid cid msg => udone (ccall_msg_recv uid cid msg)
  | DoSftMsgRecv st msg => udone (ccall_sft_msg_recv st msg)
  | DoConfigUpdate je => config_update_handler je
  | DoPing => udone ecall_ping_handler
  | DoSetup => ecall_setup_handler
  | DoTranspSend msg => udone (ecall_transp_send_handler msg)
  | DoDatachanEstab => ecall_datachan_estab_handler
  | DoMediaEstab a update => ecall_media_estab_handler a update
  | DoAudioEstab update => ecall_audio_estab_handler update
  | DoAulevel l => ecall_aulevel_handler l
  | DoClose a err m t => ecall_close_handler a err m t
  | DoQuality uid cid st => ecall_quality_handler uid cid st
  | DoPropsync msg => udone (ecall_propsync_handler msg)
  | DoConfmsg a msg => ecall_confmsg_handler a msg
  | DoTimer t => fire t
  end.

(** A sequence of operations. *)
Fixpoint cc_execs (ops : list cc_op) : CCM () :=
  match ops with
  | [] => mret ()
  | o :: ops => cc_exec o;; cc_execs ops
  end.
End Ops.
