(* ===== verification/CcallSpec.v ===== *)
(** * The invariant of a conference call

    [call_ok]: the member list and the key store are well formed, the URLs of
    servers are not empty, the counters stay in their bounds, and a call that
    waits for a server is watched by the connect timer.  [calm] steps keep the
    state and the connect timer; [set_state] changes them. *)

From S2P Require Import Prelude LibRe EconnMsg UserHash AudioLevel UserList UserListSpec UserListSft UserListOps UserListProps Keystore KeystoreSpec KeystoreOps KeystoreProps CcallKeys CcallKeysSpec CcallKeysInv CcallSft Icall Ccall.

Create HintDb calm discriminated.

(** What the call relies on: a clock that is past the age of MLS keys, a source
    of session keys on the stack, and allocations that succeed. *)
Class CallEnvOk `{KE : KsEnv, CE : CkEnv, CC : CcEnv} : Prop := {
  clock_ok n : CCALL_MLS_KEY_AGE < tmr_jiffies n;
  stack_key_ok n : length (stack_key n) = E2EE_SESSIONKEY_SIZE;
  alloc_ok n : ck_mem_ok n = true;
}.


Definition url_ok (url : option string) : Prop := url ≠ Some ""%string.

(** The URL of a server fits its array. *)
Definition srv_ok (srv : zapi_ice_server) : Prop :=
  srv_url srv ≠ ""%string ∧ (String.length (srv_url srv) < 256)%nat.
Definition cfg_ok (cfg : call_config) : Prop :=
  Forall srv_ok (cfg_sftservers cfg) ∧ Forall srv_ok (cfg_sftservers_all cfg).

(** States in which the call waits for the configuration or for a server. *)
Definition waiting (st : ccall_state) : bool :=
  match st with
  | CCALL_STATE_WAITCONFIG | CCALL_STATE_WAITCONFIG_OUTGOING | CCALL_STATE_CONNSENT
  | CCALL_STATE_SETUPRECV | CCALL_STATE_WAITNETWORK => true
  | _ => false
  end.

Record base_ok `{LibRe} (c : conf_call) : Prop := {
  bo_keys : keys_ok (cf c);
  bo_attempts : 0 <= cf_reconnect_attempts c <= CCALL_MAX_RECONNECT_ATTEMPTS;
  bo_ping : 0 <= cf_expected_ping c <= CCALL_MAX_MISSING_PINGS + 1;
  bo_primary : url_ok (cf_primary_sft_url c);
  bo_sft_url : url_ok (cf_sft_url c);
  bo_sftl : Forall (λ u, u ≠ ""%string) (cf_sftl c);
  bo_cfg cfg : cf_cfg c = Some cfg → cfg_ok cfg;
  bo_turnv : (length (cf_turnv c) ≤ MAX_TURN_SERVERS)%nat;
  bo_duration : - 2 ^ 31 <= cf_meeting_duration c < 2 ^ 31;
}.

(** The state, and what watches over it. *)
Definition watch (c : conf_call) : ccall_state * option Z * Z :=
  (cf_state c, cf_timers c TmrConnect, cf_expected_ping c).

Definition watched (w : ccall_state * option Z * Z) : Prop :=
  (waiting w.1.1 = true → is_Some w.1.2) ∧
  (w.1.1 = CCALL_STATE_ACTIVE → w.2 <= CCALL_MAX_MISSING_PINGS).

Record call_ok `{LibRe} (c : conf_call) : Prop := {
  co_base : base_ok c;
  co_watched : watched (watch c);
}.

(** Which call it is: when it was started, its secret and its first server. *)
Record call_id := {
  id_timestamp : Z;
  id_seqno : Z;
  id_secret : list Z;
  id_sft : option string;
  id_tuple : option string;
}.

Definition call_of (c : conf_call) : call_id := {|
  id_timestamp := cf_sft_timestamp c; id_seqno := cf_sft_seqno c; id_secret := cf_secret c;
  id_sft := cf_primary_sft_url c; id_tuple := cf_sft_tuple c |}.

Definition ident (c : conf_call) : call_id * (Z * Z) :=
  (call_of c, (cf_meeting_duration c, cf_reconnect_attempts c)).

Record calm `{LibRe} (c c' : conf_call) : Prop := {
  cm_ok : base_ok c';
  cm_watch : watch c' = watch c;
  cm_ident : ident c' = ident c;
}.

(** What [base_ok] depends on. *)
Definition view (c : conf_call) :=
  ((cc_userl (cf c), cc_keystore (cf c), cc_convid_hash (cf c)),
   (cf_reconnect_attempts c, cf_expected_ping c),
   (cf_primary_sft_url c, cf_sft_url c, cf_sftl c, cf_cfg c, cf_turnv c, cf_meeting_duration c)).

Section Rules.
Context `{LS : LibReSpec, SO : Sodium, SL : !SodiumLen SO, UE : UlEnv, KE : KsEnv,
          KL : !KsEnvLen KE, CE : CkEnv, CC : CcEnv, EO : !CallEnvOk}.

Lemma view_ok c c' : view c' = view c → base_ok c → base_ok c'.
Proof.
  unfold view. intros [= E1 E2 E3 E4 E5 E6 E7 E8 E9 E10 E11]
    [[K1 K2 K3] B2 B3 B4 B5 B6 B7 B8 B9].
  split; [split; congruence|..]; try congruence. rewrite E9. exact B7.
Qed.

Lemma calm_trans c1 c2 c3 : calm c1 c2 → calm c2 c3 → calm c1 c3.
Proof. intros [_ W1 I1] [B2 W2 I2]. split; [done|congruence..]. Qed.

Lemma calm_call_ok c c' : call_ok c → calm c c' → call_ok c'.
Proof. intros [_ W] [B E _]. split; [done|by rewrite E]. Qed.

#[local] Abbreviation wp_calm m c := (wp m (λ _ c' _, calm c c') c).

Lemma calm_bind {A B} (m : CCM A) (f : A → CCM B) c :
  wp_calm m c → (∀ a c', base_ok c' → wp_calm (f a) c') → wp_calm (m ≫= f) c.
Proof.
  intros Hm Hf. wp_step. eapply wp_mono; [exact Hm|]. intros a c' e Hc.
  eapply wp_mono; [exact (Hf a c' (cm_ok _ _ Hc))|]. intros b c'' e' Hc'.
  exact (calm_trans _ _ _ Hc Hc').
Qed.

Lemma calm_get {B} (f : conf_call → CCM B) c : wp_calm (f c) c → wp_calm (uget ≫= f) c.
Proof. intros Hf. wp_step. by wp_step. Qed.

Lemma calm_ret {A} (a : A) c : base_ok c → wp_calm (mret a : CCM A) c.
Proof. intros. wp_step. by split. Qed.

Lemma calm_emit e c : base_ok c → wp_calm (uemit e : CCM ()) c.
Proof. intros. wp_step. by split. Qed.

Lemma calm_modify f c :
  base_ok c → view (f c) = view c → watch (f c) = watch c → ident (f c) = ident c →
  wp_calm (umodify f : CCM ()) c.
Proof. intros. wp_step. split; [by eapply view_ok|done..]. Qed.

(** Changes of fields [base_ok] is about. *)
Lemma calm_update f c :
  base_ok c → (base_ok c → base_ok (f c)) → watch (f c) = watch c →
  ident (f c) = ident c → wp_calm (umodify f : CCM ()) c.
Proof. intros Hc Hf E I. wp_step. split; [by apply Hf|done..]. Qed.

Lemma calm_of_ptr {A} (o : option A) c : base_ok c → is_Some o → wp_calm (of_ptr o : CCM A) c.
Proof. intros Hc [a ->]. by apply calm_ret. Qed.

Lemma run_timers_connect es : ∀ tm,
  forallb spares_connect es = true → run_timers es tm TmrConnect = tm TmrConnect.
Proof.
  induction es as [|e es IH]; intros tm He; [done|]. cbn in He. apply andb_prop in He as [He Hes].
  cbn [run_timers foldl]. fold (run_timers es). unfold run_timers in IH. rewrite IH by done.
  destruct e as [| | | |t d|t|]; try done; by destruct t.
Qed.

Lemma calm_keys {A} (m : CKM A) c :
  base_ok c → (keys_ok (cf c) → wp m (λ _ k' e, kstep (cf c) k' e) (cf c)) →
  wp_calm (on_keys m) c.
Proof.
  intros [K B2 B3 B4 B5 B6 B7 B8 B9] Hm. specialize (Hm K). unfold wp, on_keys in *.
  destruct (m (cf c)) as [[[a k'] e]|]; [|done]. destruct Hm as [Hk Hst Hsp].
  split; [by split| |done]. unfold watch, cf_state. cbn. by rewrite Hst, run_timers_connect.
Qed.

Lemma calm_list {A} (m : ULM A) c :
  base_ok c → wp m (λ _ l' _, ul_ok l') (cf_userl c) → wp_calm (on_list m) c.
Proof. intros Hc Hm. apply calm_keys; [done|]. intros Hk. by apply kstep_ul. Qed.

Lemma calm_list_keeps {A} (m : ULM A) c :
  base_ok c → wp_keeps m (cf_userl c) → wp_calm (on_list m) c.
Proof. intros Hc Hm. apply calm_list, wp_ok_of_keeps, Hm; [done|]. apply ko_userl, bo_keys, Hc. Qed.

Lemma calm_store {A} (m : KSM A) op c :
  udone m = ks_exec op → base_ok c →
  match op with
  | OpSetSessionKey _ _ | OpSetFresh _ _ _ _ | OpSetCurrent _ | OpGetMediaKey _ _ | OpRotate => False
  | _ => True
  end → wp_calm (on_ks m) c.
Proof. intros E Hc Hop. apply calm_keys; [done|]. intros Hk. by eapply store_op_plain. Qed.

Lemma calm_jiffies c : base_ok c → wp_calm (on_ks jiffies) c.
Proof. intros Hc. apply calm_keys; [done|]. intros. by apply kstep_jiffies. Qed.

Lemma calm_next c : base_ok c → wp_calm (on_keys ck_next) c.
Proof. intros Hc. apply calm_keys; [done|]. intros. by apply kstep_next. Qed.

Lemma calm_reset_kg c : base_ok c → wp_calm (on_list userlist_reset_keygenerator) c.
Proof.
  intros Hc. apply calm_list; [done|]. apply wp_modify.
  split; [exact (ok_ids _ (ko_userl _ (bo_keys _ Hc)))|done].
Qed.

End Rules.

Abbreviation wp_calm m c := (wp m (λ _ c' _, calm c c') c).

Ltac base_split :=
  intros [[? ? ?] ? ? ? ? ? ? ? ?]; split; try done; cbn;
  try (unfold url_ok in *; congruence); try lia; try by constructor.
Ltac calm_step :=
  lazymatch goal with
  | |- wp (uget ≫= _) _ _ => apply calm_get
  | |- wp (_ ≫= _) _ _ => apply calm_bind
  | |- ∀ _, _ => intro
  | |- wp (mret _) _ _ => by apply calm_ret
  | |- wp (of_ptr (Some _)) _ _ => by apply calm_ret
  | |- wp (uemit _) _ _ => by apply calm_emit
  | |- wp (umodify _) _ _ =>
    first [by apply calm_modify | apply calm_update; [done|by base_split|done|done]]
  | |- wp (tmr_start _ _) _ _ => by apply calm_modify
  | |- wp (tmr_cancel _) _ _ => by apply calm_modify
  | |- wp (on_keys ck_next) _ _ => by apply calm_next
  | |- wp (on_ks jiffies) _ _ => by apply calm_jiffies
  | |- wp (on_ks keystore_reset) _ _ => by apply (calm_store _ OpReset)
  | |- wp (on_ks keystore_reset_keys) _ _ => by apply (calm_store _ OpResetKeys)
  | |- wp (on_ks keystore_has_keys) _ _ => by apply (calm_store _ OpHasKeys)
  | |- wp (on_ks keystore_get_decrypt_states) _ _ => by apply (calm_store _ OpGetDecryptStates)
  | |- wp (on_ks (keystore_set_salt ?s)) _ _ => by apply (calm_store _ (OpSetSalt s))
  | |- wp (on_list userlist_reset_keygenerator) _ _ => by apply calm_reset_kg
  | |- wp (match ?x with _ => _ end) _ _ => destruct x
  end.
Ltac calm := repeat first [calm_step | solve [eauto with calm]].

Section Calm.
Context `{LS : LibReSpec, SO : Sodium, SL : !SodiumLen SO, HS : !SodiumSpec SO ab sha, UE : UlEnv, KE : KsEnv,
          KL : !KsEnvLen KE, CE : CkEnv, CC : CcEnv, EO : !CallEnvOk}.

Lemma next_alloc_calm c : base_ok c → wp_calm next_alloc c.
Proof. intros. unfold next_alloc. calm. Qed.
#[local] Hint Resolve next_alloc_calm : calm.

Lemma str_dup_calm s c : base_ok c → wp_calm (str_dup s) c.
Proof. intros. unfold str_dup. calm. Qed.
#[local] Hint Resolve str_dup_calm : calm.

Lemma str_dup_if_calm b s c : base_ok c → wp_calm (str_dup_if b s) c.
Proof. intros. unfold str_dup_if. calm. Qed.

Lemma call_ecall_calm f c : base_ok c → wp_calm (call_ecall f) c.
Proof. intros. unfold call_ecall. calm. Qed.
#[local] Hint Resolve str_dup_if_calm call_ecall_calm : calm.

Lemma if_ecall_calm f c : base_ok c → wp_calm (if_ecall f) c.
Proof. intros. unfold if_ecall. calm. Qed.

Lemma update_active_counts_calm c : base_ok c → wp_calm ccall_update_active_counts c.
Proof. intros. unfold ccall_update_active_counts. calm. Qed.
#[local] Hint Resolve if_ecall_calm update_active_counts_calm : calm.

(** *** The handlers of the member list *)

Lemma kg_change_calm buf me first c :
  base_ok c → length buf = E2EE_SESSIONKEY_SIZE →
  wp_calm (on_keys (CcallKeys.userlist_kg_change_handler buf me first)) c.
Proof. intros Hc Hb. apply calm_keys; [done|]. intros. by apply kg_change_ok. Qed.

Lemma userlist_handler_calm ev c : base_ok c → wp_calm (userlist_handler ev) c.
Proof.
  intros Hc. destruct ev; cbn [userlist_handler].
  - unfold userlist_add_user_handler. calm.
  - unfold userlist_remove_user_handler. calm.
  - unfold userlist_sync_users_handler. calm.
  - calm. apply kg_change_calm, stack_key_ok. done.
  - unfold userlist_vstate_handler. calm.
Qed.

Lemma userlist_handlers_calm es : ∀ c, base_ok c → wp_calm (userlist_handlers es) c.
Proof.
  induction es as [|ev es IH]; intros c Hc; cbn [userlist_handlers]; calm.
  by apply userlist_handler_calm.
Qed.

Lemma with_users_calm {A} (m : ULM A) c :
  base_ok c → wp m (λ _ l' _, ul_ok l') (cf_userl c) → wp_calm (with_users m) c.
Proof.
  intros [[K1 K2 K3] B2 B3 B4 B5 B6 B7 B8 B9] Hm. unfold with_users, wp in *.
  destruct (m (cf_userl c)) as [[[a l] es]|]; [|done].
  set (c1 := {| c with cf := _ |}).
  assert (H1 : base_ok c1) by by split.
  change (wp (userlist_handlers es;; mret a) (λ _ c' _, calm c c') c1).
  apply (wp_mono _ (λ _ c' _, calm c1 c')); [|by intros ? ? ? [? ? ?]; split].
  calm. by apply userlist_handlers_calm.
Qed.

Lemma with_users_keeps {A} (m : ULM A) c :
  base_ok c → wp_keeps m (cf_userl c) → wp_calm (with_users m) c.
Proof. intros Hc Hm. apply with_users_calm, wp_ok_of_keeps, Hm; [done|]. apply ko_userl, bo_keys, Hc. Qed.

Lemma incall_clear_calm fd again c : base_ok c → wp_calm (with_users (userlist_incall_clear fd again)) c.
Proof. intros Hc. apply with_users_keeps, incall_clear_keeps. done. Qed.
#[local] Hint Resolve incall_clear_calm : calm.

(** *** The secret *)

Lemma hash_conv_ok secret convid : ∃ h, hash_conv true secret convid = Some (0, Some h).
Proof.
  unfold hash_conv. rewrite hash_pieces_ok. cbn [negb].
  destruct (sha_digest_ok [secret; bytes_of_string convid]) as [Hl Hb].
  destruct (hex_loop_spec hlen _ Hb) as (cs & -> & _).
  { rewrite Hl. unfold hlen, crypto_hash_sha256_BYTES. lia. }
  by exists (string_of_list_ascii cs).
Qed.

(** The state after an allocation. *)
Definition tick (c : conf_call) : conf_call :=
  {| c with cf := (let k := cf c in {| k with cc_tick := S (cc_tick k) |}) |}.

Lemma wp_next (Q : nat → conf_call → list cc_event → Prop) c :
  Q (cc_tick (cf c)) (tick c) [] → wp (on_keys ck_next) Q c.
Proof. done. Qed.

Lemma tick_calm c : base_ok c → calm c (tick c).
Proof. intros Hc. split; [|done..]. by apply (view_ok c). Qed.

Lemma wp_next_alloc (Q : bool → conf_call → list cc_event → Prop) c :
  Q true (tick c) [] → wp next_alloc Q c.
Proof.
  intros HQ. unfold next_alloc. wp_step. apply wp_next. wp_step. by rewrite alloc_ok.
Qed.

Lemma next_alloc_ok c : base_ok c → wp next_alloc (λ ok c' _, calm c c' ∧ ok = true) c.
Proof. intros Hc. apply wp_next_alloc. split; [by apply tick_calm|done]. Qed.

Definition with_hash (h : string) (c : conf_call) : conf_call :=
  {| c with cf := (let k := cf c in {| k with cc_convid_hash := Some h |}) |}.

Lemma with_hash_ok h h' c : base_ok (with_hash h c) → base_ok (with_hash h' c).
Proof. intros [[K1 K2 K3] B2 B3 B4 B5 B6 B7 B8 B9]. by split. Qed.

(** The identifier of the conversation is known afterwards, even if it was not
    before. *)
Lemma set_secret_init secret c :
  base_ok (with_hash "" c) → (4 ≤ length secret)%nat →
  wp (ccall_set_secret secret) (λ _ c' _, calm {| c with cf_secret := secret |} c') c.
Proof.
  intros Hc Hs. unfold ccall_set_secret. rewrite (proj2 (Nat.ltb_ge _ _) Hs).
  do 3 wp_step. apply wp_next_alloc. cbn [negb]. do 4 wp_step.
  wp_step. apply wp_next_alloc. destruct (hash_conv_ok secret (cf_convid_real c)) as [h Hh].
  wp_step. eapply wp_of_ptr; [exact Hh|]. cbn [snd]. do 2 wp_step.
  match goal with |- wp _ _ ?x => set (c1 := x) end.
  assert (H1 : base_ok c1) by (eapply (view_ok (with_hash h c)); [done|by eapply with_hash_ok]).
  apply (wp_mono _ (λ _ c' _, calm c1 c')); [|by intros ? ? ? [? ? ?]; split].
  clearbody c1. calm. apply calm_list_keeps, set_secret_keeps. done.
Qed.

Lemma set_secret_spec secret c :
  base_ok c → (4 ≤ length secret)%nat →
  wp (ccall_set_secret secret) (λ _ c' _, calm {| c with cf_secret := secret |} c') c.
Proof.
  intros Hc. apply set_secret_init. destruct Hc as [[K1 K2 K3] B2 B3 B4 B5 B6 B7 B8 B9]. by split.
Qed.

(** *** Messages *)

Lemma copy_sft_calm url c :
  base_ok c → url ≠ ""%string →
  wp (copy_sft' url) (λ r c' _, calm c c' ∧ r.1 = 0 ∧ url_ok r.2) c.
Proof.
  intros Hc Hu. unfold copy_sft'. wp_step. eapply wp_mono; [by apply next_alloc_ok|].
  intros ok c' e [C ->]. eapply wp_of_ptr; [by apply copy_sft_spec|]. split; [done|].
  split; [done|]. unfold url_ok. cbn. by destruct (strip url).
Qed.

Lemma alloc_confstart_calm c : base_ok c → wp_calm alloc_confstart c.
Proof. intros. unfold alloc_confstart. calm. Qed.
#[local] Hint Resolve alloc_confstart_calm : calm.

Lemma alloc_message_calm type r su sc du dc tr c :
  base_ok c → wp_calm (alloc_message type r su sc du dc tr) c.
Proof. intros. unfold alloc_message. calm. Qed.
#[local] Hint Resolve alloc_message_calm : calm.

Lemma send_msg_i_calm type r ts tr my c : base_ok c → wp_calm (ccall_send_msg_i type r ts tr my) c.
Proof. intros. unfold ccall_send_msg_i. calm. Qed.

Lemma send_msg_calm type r ts tr c : base_ok c → wp_calm (ccall_send_msg type r ts tr) c.
Proof. apply send_msg_i_calm. Qed.

Lemma confconn_turnv_calm c : base_ok c → wp_calm confconn_turnv c.
Proof.
  intros Hc. unfold confconn_turnv. calm_step. destruct (cfg_servers _ _); [|calm].
  wp_step. eapply wp_mono; [by apply next_alloc_ok|]. intros ok c' e [C ->]. by wp_step.
Qed.

Lemma get_partlist_calm b c : base_ok c → wp_calm (on_list (userlist_get_partlist b)) c.
Proof.
  intros Hc. apply calm_list_keeps; [done|]. unfold userlist_get_partlist. keeps_step.
  apply collect_loop_keeps.
Qed.

Lemma get_my_clients_calm c : base_ok c → wp_calm (on_list userlist_get_my_clients) c.
Proof.
  intros Hc. apply calm_list_keeps; [done|]. unfold userlist_get_my_clients. keeps_step.
  apply collect_loop_keeps.
Qed.
#[local] Hint Resolve send_msg_i_calm send_msg_calm get_partlist_calm get_my_clients_calm : calm.

Lemma send_confpart_response_calm c : base_ok c → wp_calm send_confpart_response c.
Proof. intros. unfold send_confpart_response. calm. Qed.

Lemma set_vstate_calm st c : base_ok c → wp_calm (ccall_set_vstate st) c.
Proof. intros. unfold ccall_set_vstate. calm. Qed.

(** *** Keys *)

Lemma send_keys_calm all c : base_ok c → wp_calm (on_keys (ccall_send_keys all)) c.
Proof. intros. apply calm_keys; [done|]. apply send_keys_ok. Qed.

Lemma request_keys_calm c : base_ok c → wp_calm (on_keys ccall_request_keys) c.
Proof. intros. apply calm_keys; [done|]. apply request_keys_ok. Qed.

Lemma sync_props_calm c : base_ok c → wp_calm (on_keys ccall_sync_props) c.
Proof. intros. apply calm_keys; [done|]. apply sync_props_ok. Qed.

Lemma sync_media_keys_calm c : base_ok c → wp_calm (on_keys ccall_sync_media_keys) c.
Proof. intros. apply calm_keys; [done|]. apply sync_media_keys_ok, clock_ok. Qed.

Lemma rotate_mls_calm c : base_ok c → wp_calm (on_keys ccall_rotate_mls_timeout) c.
Proof. intros. apply calm_keys; [done|]. apply rotate_mls_ok, clock_ok. Qed.

Lemma set_user_calm a f c :
  (∀ u, ui_ids (f u) = ui_ids u) → base_ok c → wp_calm (on_list (set_user a f)) c.
Proof. intros Hf Hc. apply calm_keys; [done|]. by apply set_user_ok. Qed.
End Calm.

#[export] Hint Resolve next_alloc_calm str_dup_calm str_dup_if_calm call_ecall_calm if_ecall_calm
  update_active_counts_calm incall_clear_calm alloc_confstart_calm alloc_message_calm
  send_msg_i_calm send_msg_calm confconn_turnv_calm get_partlist_calm get_my_clients_calm
  send_confpart_response_calm set_vstate_calm send_keys_calm request_keys_calm sync_props_calm
  sync_media_keys_calm rotate_mls_calm : calm.
