(* ===== verification/CcallInv.v ===== *)
(** * Every operation keeps the invariant of a conference call

    Each function of [Ccall], [CcallOps] and [CcallMsg] has a defined behaviour
    from a call that satisfies [call_ok], given arguments of their C types, and
    leaves a call that satisfies it. *)

From S2P Require Import Prelude LibRe EconnMsg UserHash AudioLevel UserList UserListSpec UserListSft UserListOps UserListProps Keystore KeystoreSpec KeystoreOps KeystoreProps CcallKeys CcallKeysSpec CcallKeysInv CcallSft Icall Ccall CcallOps CcallMsg CcallSpec.

Create HintDb csafe discriminated.

(** What entering a state does to the state and its watch. *)
Definition enter (st : ccall_state) (w : ccall_state * option Z * Z) : ccall_state * option Z * Z :=
  match st with
  | CCALL_STATE_IDLE | CCALL_STATE_TERMINATING | CCALL_STATE_CONNECTED => (st, None, w.2)
  | CCALL_STATE_ACTIVE => (st, None, 0)
  | CCALL_STATE_WAITCONFIG | CCALL_STATE_WAITCONFIG_OUTGOING | CCALL_STATE_CONNSENT =>
    (st, Some CCALL_CONNECT_TIMEOUT, w.2)
  | CCALL_STATE_NONE | CCALL_STATE_INCOMING | CCALL_STATE_SETUPRECV | CCALL_STATE_CONNECTING
  | CCALL_STATE_WAITNETWORK => (st, w.1.2, w.2)
  end.

Definition enter_id (st : ccall_state) (i : call_id * (Z * Z)) : call_id * (Z * Z) :=
  match st with
  | CCALL_STATE_IDLE => (let id := i.1 in {| id with id_timestamp := 0 |}, i.2)
  | _ => i
  end.

Record at_watch `{LibRe} (w : (ccall_state * option Z * Z) * (call_id * (Z * Z))) (c : conf_call) : Prop := {
  aw_ok : base_ok c;
  aw_eq : (watch c, ident c) = w;
}.

Section States.
Context `{LS : LibReSpec, SO : Sodium, SL : !SodiumLen SO, HS : !SodiumSpec SO ab sha, UE : UlEnv,
          KE : KsEnv, KL : !KsEnvLen KE, CE : CkEnv, CC : CcEnv, EO : !CallEnvOk}.

Abbreviation wp_at m w c := (wp m (λ _ c' _, at_watch w c') c).

Lemma at_bind {A B} (m : CCM A) (f : A → CCM B) w w' c :
  wp_at m w c → (∀ a c', at_watch w c' → wp_at (f a) w' c') → wp_at (m ≫= f) w' c.
Proof.
  intros Hm Hf. wp_step. eapply wp_mono; [exact Hm|]. intros a c' e Hc. by apply Hf.
Qed.

Lemma at_get {B} (f : conf_call → CCM B) w c : wp_at (f c) w c → wp_at (uget ≫= f) w c.
Proof. intros Hf. wp_step. by wp_step. Qed.

Lemma at_calm {A} (m : CCM A) w c :
  at_watch w c → (base_ok c → wp m (λ _ c' _, calm c c') c) → wp_at m w c.
Proof.
  intros [B E] Hm. eapply wp_mono; [exact (Hm B)|]. intros a c' e [B' E' I']. split; [done|congruence].
Qed.

Lemma at_update f w c :
  at_watch w c → (base_ok c → base_ok (f c)) → (watch (f c), ident (f c)) = (watch c, ident c) →
  wp_at (umodify f : CCM ()) w c.
Proof. intros [B E] Hf Ew. wp_step. split; [by apply Hf|congruence]. Qed.

Lemma at_timer t d s x p i c :
  at_watch (s, x, p, i) c →
  wp_at (umodify (λ c, {| c with cf_timers := tmr_set t d (cf_timers c) |}) : CCM ())
        (s, if bool_decide (t = TmrConnect) then d else x, p, i) c.
Proof.
  intros [B [= E1 E2 E3 E4]]. wp_step. split; [by apply (view_ok c)|].
  rewrite <- E4, <- E3, <- E1. unfold watch. cbn. unfold tmr_set. do 3 f_equal.
  by rewrite E2, (bool_decide_ext (TmrConnect = t) (t = TmrConnect)).
Qed.

Lemma at_cancels ts s p i : ∀ x c,
  at_watch (s, x, p, i) c →
  wp_at (tmr_cancels ts) (s, if bool_decide (TmrConnect ∈ ts) then None else x, p, i) c.
Proof.
  induction ts as [|t ts IH]; intros x c Hc; cbn [tmr_cancels]; [by wp_step|].
  eapply at_bind; [by apply (at_timer t None)|]. intros _ c' Hc'. eapply wp_mono; [by apply IH|].
  intros [] c'' e. destruct (decide (t = TmrConnect)) as [->|Hn].
  - rewrite (bool_decide_eq_true_2 (TmrConnect ∈ TmrConnect :: ts)) by by left.
    by destruct (bool_decide _).
  - rewrite (bool_decide_eq_false_2 (t = TmrConnect)) by done.
    by rewrite (bool_decide_ext (TmrConnect ∈ t :: ts) (TmrConnect ∈ ts)) by set_solver.
Qed.

Ltac at_step :=
  lazymatch goal with
  | |- wp (uget ≫= _) _ _ => apply at_get
  | |- wp (tmr_cancels _ ≫= _) _ _ => eapply at_bind; [apply at_cancels; eassumption|]
  | |- wp (tmr_start _ _ ≫= _) _ _ => eapply at_bind; [apply at_timer; eassumption|]
  | |- wp (tmr_cancel _ ≫= _) _ _ => eapply at_bind; [apply at_timer; eassumption|]
  | |- wp (umodify _ ≫= _) _ _ =>
    eapply at_bind; [by eapply at_update; [eassumption|base_split|reflexivity]|]
  | |- wp (_ ≫= _) _ _ => eapply at_bind; [apply at_calm; [eassumption|intros; by calm]|]
  | |- wp (tmr_cancels _) _ _ => eapply wp_mono; [eapply at_cancels; eassumption|by intros]
  | |- wp (tmr_start _ _) _ _ => eapply wp_mono; [eapply at_timer; eassumption|by intros]
  | |- wp (tmr_cancel _) _ _ => eapply wp_mono; [eapply at_timer; eassumption|by intros]
  | |- ∀ _, _ => intro
  | |- wp (match ?x with _ => _ end) _ _ => destruct x
  | |- wp _ _ _ => apply at_calm; [assumption|intros; by calm]
  end.

Lemma set_state_at st c :
  base_ok c → wp_at (set_state st) (enter st (watch c), enter_id st (ident c)) c.
Proof.
  intros Hc. unfold set_state. apply at_get.
  apply (at_bind _ _ (st, cf_timers c TmrConnect, cf_expected_ping c, ident c)).
  { wp_step. split; [by apply (view_ok c)|done]. }
  intros _ c1 H1. at_step. intros _ c2 H2.
  apply (at_bind _ _ (enter st (watch c), enter_id st (ident c))); [|intros; at_step].
  clear c1 H1. destruct st.
  2:{ apply (at_bind _ _ (CCALL_STATE_IDLE, cf_timers c TmrConnect, cf_expected_ping c,
                        enter_id CCALL_STATE_IDLE (ident c))); [|repeat at_step].
    destruct H2 as [B E]. wp_step. split; [by revert B; base_split|].
    exact (f_equal (λ w, (w.1, enter_id CCALL_STATE_IDLE w.2)) E). }
  7:{ apply (at_bind _ _ (CCALL_STATE_ACTIVE, cf_timers c TmrConnect, 0, ident c)); [|repeat at_step].
    destruct H2 as [B E]. wp_step. split; [by revert B; base_split|].
    exact (f_equal (λ w, ((w.1.1, 0), w.2)) E). }
  all: repeat at_step.
Qed.

Lemma set_state_ok st c :
  base_ok c →
  (match st with
   | CCALL_STATE_SETUPRECV | CCALL_STATE_WAITNETWORK => is_Some (cf_timers c TmrConnect)
   | _ => True
   end) →
  wp (set_state st) (λ _ c' _, call_ok c' ∧ cf_state c' = st ∧ ident c' = enter_id st (ident c)) c.
Proof.
  intros Hc Hst. eapply wp_mono; [by apply set_state_at|]. intros _ c' _ [B EI].
  pose proof (f_equal fst EI) as E. pose proof (f_equal snd EI) as I. cbn [fst snd] in E, I.
  assert (Es : cf_state c' = st) by (apply (f_equal (λ w, w.1.1)) in E; by destruct st).
  split_and!; [|done|done]. split; [done|]. rewrite E. unfold watched. destruct st; cbn in *; try done.
Qed.

(** ** Steps that keep the invariant *)

Abbreviation wp_ok m c := (wp m (λ _ c' _, call_ok c') c).

Lemma ok_bind {A B} (m : CCM A) (f : A → CCM B) c :
  wp_ok m c → (∀ a c', call_ok c' → wp_ok (f a) c') → wp_ok (m ≫= f) c.
Proof. intros Hm Hf. wp_step. eapply wp_mono; [exact Hm|]. intros a c' e Hc. by apply Hf. Qed.

Lemma ok_get {B} (f : conf_call → CCM B) c : wp_ok (f c) c → wp_ok (uget ≫= f) c.
Proof. intros Hf. wp_step. by wp_step. Qed.

Lemma ok_calm {A} (m : CCM A) c :
  call_ok c → (base_ok c → wp m (λ _ c' _, calm c c') c) → wp_ok m c.
Proof.
  intros Hc Hm. eapply wp_mono; [exact (Hm (co_base c Hc))|]. intros a c' e. by apply calm_call_ok.
Qed.

(** A change of fields the invariant is about. *)
Lemma ok_update f c :
  call_ok c → (base_ok c → base_ok (f c)) → watch (f c) = watch c → wp_ok (umodify f : CCM ()) c.
Proof. intros [B W] Hf E. wp_step. split; [by apply Hf|by rewrite E]. Qed.

(** The result of a calm step, when it matters. *)
Lemma ok_bind_calm {A B} (m : CCM A) (f : A → CCM B) (P : A → Prop) c :
  call_ok c → wp m (λ a c' _, calm c c' ∧ P a) c →
  (∀ a c', call_ok c' → calm c c' → P a → wp_ok (f a) c') → wp_ok (m ≫= f) c.
Proof.
  intros Hc Hm Hf. wp_step. eapply wp_mono; [exact Hm|]. intros a c' e [C HP].
  apply Hf; [by eapply calm_call_ok|done..].
Qed.

Lemma ok_state st c :
  call_ok c →
  (match st with CCALL_STATE_SETUPRECV | CCALL_STATE_WAITNETWORK => False | _ => True end) →
  wp_ok (set_state st) c.
Proof.
  intros Hc Hst. eapply wp_mono; [apply set_state_ok; [by apply co_base|by destruct st]|].
  by intros ? ? ? [? _].
Qed.
End States.

Ltac ok_step :=
  lazymatch goal with
  | |- wp (uget ≫= _) _ _ => apply ok_get
  | |- wp (_ ≫= _) _ _ => apply ok_bind
  | |- ∀ _, _ => intro
  | |- wp (set_state _) _ _ => by apply ok_state
  | |- wp (match ?x with _ => _ end) _ _ => destruct x
  end.
Ltac ok_calm := apply ok_calm; [assumption|intros; solve [calm]].
Ltac ok_update :=
  lazymatch goal with |- wp (umodify _) _ _ => apply ok_update; [assumption|by base_split|done] end.
Ltac ok_auto := repeat first [solve [eauto with csafe] | ok_step | ok_calm | ok_update].

Section Ending.
Context `{LS : LibReSpec, SO : Sodium, SL : !SodiumLen SO, HS : !SodiumSpec SO ab sha, UE : UlEnv,
          KE : KsEnv, KL : !KsEnvLen KE, CE : CkEnv, CC : CcEnv, EO : !CallEnvOk}.

Abbreviation wp_ok m c := (wp m (λ _ c' _, call_ok c') c).

Lemma send_msg_sft_ok url msg c : call_ok c → wp_ok (ccall_send_msg_sft url msg) c.
Proof.
  intros Hc. unfold ccall_send_msg_sft. destruct url as [url|]; [|ok_auto].
  destruct (_ <? _)%nat; [ok_auto|].
  assert (Hh : is_Some (cc_convid_hash (cf c))) by apply ko_hash, bo_keys, co_base, Hc.
  destruct (msg_type msg); ok_auto; apply ok_calm; try done; intros; by apply calm_of_ptr.
Qed.
#[local] Hint Resolve send_msg_sft_ok : csafe.

Lemma transp_send_ok msg c : call_ok c → wp_ok (ecall_transp_send_handler msg) c.
Proof. intros. unfold ecall_transp_send_handler. ok_auto. Qed.

Lemma send_conf_conn_ok url user cred update c :
  call_ok c → url_ok url → wp_ok (ccall_send_conf_conn url user cred update) c.
Proof.
  intros Hc Hu. unfold ccall_send_conf_conn. destruct url as [url|]; [|ok_auto].
  apply ok_get. eapply ok_bind_calm; [done|apply copy_sft_calm|].
  - by apply co_base.
  - intros ->. by apply Hu.
  - intros [err term] c' Hc' _ _. ok_auto.
Qed.

(** *** Ending a call *)

Record ended (c : conf_call) : Prop := {
  en_ok : base_ok c;
  en_state : cf_state c = CCALL_STATE_IDLE ∨ cf_state c = CCALL_STATE_TERMINATING;
}.

Lemma ended_call_ok c : ended c → call_ok c.
Proof.
  intros [B S]. split; [done|]. split; intros H; cbn in H; by destruct S as [E|E]; rewrite E in H.
Qed.

Lemma ended_calm c c' : ended c → calm c c' → ended c'.
Proof. intros [_ S] [B [= E _ _] _]. split; [done|by rewrite E]. Qed.

Lemma set_state_ended st c :
  base_ok c → st = CCALL_STATE_IDLE ∨ st = CCALL_STATE_TERMINATING →
  wp (set_state st) (λ _ c' _, ended c' ∧ cf_state c' = st) c.
Proof.
  intros Hc Hst. eapply wp_mono; [apply set_state_ok; [done|by destruct Hst as [->| ->]]|].
  intros _ c' _ ([B _] & E & _). split; [|done]. split; [done|by rewrite E].
Qed.

(** The states in which a call that ends has not been set up: the application is
    told at once. *)
Definition unconnected (st : ccall_state) : bool :=
  match st with
  | CCALL_STATE_CONNSENT | CCALL_STATE_INCOMING | CCALL_STATE_WAITCONFIG
  | CCALL_STATE_WAITCONFIG_OUTGOING | CCALL_STATE_WAITNETWORK => true
  | _ => false
  end.

(** What the end of a call does: it is idle, or waits for its connection to
    close. *)
Definition end_post (err : Z) (c c' : conf_call) (e : list cc_event) : Prop :=
  ended c' ∧
  (unconnected (cf_state c) = true →
     CcLeave (reason_of err) ECONN_MESSAGE_TIME_UNKNOWN ∈ e) ∧
  (cf_state c' = CCALL_STATE_IDLE ∨ ∃ a, CcEcall a EcEnd ∈ e) ∧
  (unconnected (cf_state c) = true → cf_state c' = CCALL_STATE_IDLE).

Lemma wp_emitting (m : CCM ()) es (Q : conf_call → Prop) c :
  wp m (λ _ c' _, Q c') c →
  wp (m;; uemit es) (λ _ c' e, Q c' ∧ ∀ x, x ∈ es → x ∈ e) c.
Proof.
  intros Hm. wp_step. eapply wp_mono; [exact Hm|]. intros a c' e HQ. wp_step.
  split; [done|]. intros x Hx. apply elem_of_app. by right.
Qed.

Lemma call_ecall_emits f c :
  cc_ecall (cf c) ≠ None → wp (call_ecall f) (λ _ _ e, ∃ a, CcEcall a f ∈ e) c.
Proof.
  intros He. unfold call_ecall. do 2 wp_step. destruct (cc_ecall (cf c)) as [a|]; [|done].
  by exists a; left.
Qed.

Lemma end_with_err_state err c :
  base_ok c →
  wp (match cf_state c with
      | CCALL_STATE_NONE | CCALL_STATE_IDLE => set_state CCALL_STATE_IDLE
      | CCALL_STATE_CONNSENT | CCALL_STATE_INCOMING | CCALL_STATE_WAITCONFIG
      | CCALL_STATE_WAITCONFIG_OUTGOING | CCALL_STATE_WAITNETWORK =>
        set_state CCALL_STATE_IDLE;;
        uemit [CcLeave (reason_of err) ECONN_MESSAGE_TIME_UNKNOWN]
      | CCALL_STATE_TERMINATING => mret ()
      | CCALL_STATE_SETUPRECV | CCALL_STATE_CONNECTING | CCALL_STATE_CONNECTED
      | CCALL_STATE_ACTIVE =>
        set_state CCALL_STATE_TERMINATING;;
        uemit (if err =? EDURATION
               then [CcLeave ICALL_REASON_DURATION ECONN_MESSAGE_TIME_UNKNOWN] else [])
      end)
     (λ _ c' e, ended c' ∧ (unconnected (cf_state c) = true →
        CcLeave (reason_of err) ECONN_MESSAGE_TIME_UNKNOWN ∈ e ∧ cf_state c' = CCALL_STATE_IDLE)) c.
Proof.
  intros Hc. destruct (cf_state c) eqn:Es; cbn [unconnected].
  9:{ wp_step. split; [|done]. split; [done|]. rewrite Es. by right. }
  all: first
    [ eapply wp_mono; [apply wp_emitting; apply set_state_ended; by auto|];
      intros ? ? ? [[? E] Hin]; split; [done|]; intros;
      first [done | split; [apply Hin; by left|exact E]]
    | eapply wp_mono; [apply set_state_ended; by auto|]; intros ? ? ? [? ?]; by split ].
Qed.

Lemma end_with_err_spec err c :
  base_ok c → wp (ccall_end_with_err err) (λ _ c' e, end_post err c c' e) c.
Proof.
  intros Hc. unfold ccall_end_with_err. do 4 wp_step. set (c1 := {| c with cf_error := err |}).
  assert (H1 : base_ok c1) by by apply (view_ok c).
  wp_step. eapply wp_mono; [by apply (end_with_err_state err c1)|].
  intros [] c2 e2 [E2 L2]. change (cf_state c1) with (cf_state c) in L2. wp_step.
  eapply wp_mono; [apply incall_clear_calm, en_ok, E2|]. intros [] c3 e3 C3.
  pose proof (ended_calm _ _ E2 C3) as E3. do 2 wp_step. wp_step. apply wp_next.
  pose proof (ended_calm _ _ E3 (tick_calm c3 (en_ok _ E3))) as E4. cbn [app]. unfold end_post.
  assert (Lv : ∀ e, unconnected (cf_state c) = true →
    CcLeave (reason_of err) ECONN_MESSAGE_TIME_UNKNOWN ∈ e2 ++ e3 ++ e).
  { intros e Hu. apply elem_of_app. left. by apply L2. }
  assert (S4 : unconnected (cf_state c) = true → cf_state (tick c3) = CCALL_STATE_IDLE).
  { intros Hu. destruct (L2 Hu) as [_ S2]. destruct C3 as [_ [= W3 _ _] _].
    change (cf_state c3 = CCALL_STATE_IDLE). by rewrite W3. }
  destruct (_ && _) eqn:He.
  - apply andb_prop in He as [He%negb_true_iff%bool_decide_eq_false_1 _]. wp_step.
    eapply wp_mono.
    { apply wp_and; [apply call_ecall_calm, (en_ok _ E4)|by apply (call_ecall_emits EcEnd)]. }
    intros r c5 e5 [C5 [a Ha]]. wp_step. split; [by apply (ended_calm (tick c3))|].
    split; [apply Lv|]. split; [right; exists a; rewrite !elem_of_app; tauto|].
    intros Hu. destruct C5 as [_ [= W5 _ _] _]. rewrite W5. by apply S4.
  - eapply wp_mono; [apply set_state_ok; [apply (en_ok _ E4)|done]|].
    intros [] c5 e5 ([B5 _] & S5 & _). split; [by split; [|left]|]. split; [apply Lv|]. by split; [left|].
Qed.

Lemma end_with_err_ok err c : base_ok c → wp_ok (ccall_end_with_err err) c.
Proof.
  intros Hc. eapply wp_mono; [by apply end_with_err_spec|]. intros [] c' e [E _].
  by apply ended_call_ok.
Qed.

Lemma end_ok err c : call_ok c → wp_ok (ccall_end_with_err err) c.
Proof. intros Hc. apply end_with_err_ok, Hc. Qed.
#[local] Hint Resolve end_ok : csafe.

(** *** Re-establishing a call *)

(** The functions on keys change nothing else. *)
Lemma on_keys_frame {A} (m : CKM A) Q c :
  wp (on_keys m) Q c →
  wp (on_keys m) (λ a c' e, Q a c' e ∧ ∃ k tm, c' = {| c with cf := k; cf_timers := tm |}) c.
Proof.
  unfold wp, on_keys. destruct (m (cf c)) as [[[a k] e]|]; [|done]. by eauto.
Qed.

Lemma reconnect_ok t notify again c :
  base_ok c → (cf_state c = CCALL_STATE_CONNSENT → call_ok c) →
  wp_ok (ccall_reconnect t notify again) c.
Proof.
  intros Hc Hs. unfold ccall_reconnect. apply ok_get.
  destruct (bool_decide _) eqn:Hd; [apply bool_decide_eq_true_1 in Hd; apply wp_ret; auto|].
  wp_step. eapply wp_mono; [by apply on_keys_frame, (calm_store _ OpGetDecryptStates)|].
  intros ? c1 e1 [[B1 _ _] (k & tm & E1)].
  destruct (_ <=? _) eqn:Ha.
  { apply ok_bind; [by apply end_with_err_ok|]. intros. ok_auto. }
  apply Z.leb_gt in Ha. pose proof (bo_attempts c Hc) as Hr.
  assert (Ea : cf_reconnect_attempts c1 = cf_reconnect_attempts c) by by rewrite E1.
  do 2 wp_step. match goal with |- wp _ _ ?x => set (c2 := x) end.
  assert (B2 : base_ok c2).
  { revert B1. base_split; rewrite Ea; rewrite uwrap_small; unfold CCALL_MAX_RECONNECT_ATTEMPTS in *; lia. }
  clearbody c2. apply (wp_bind _ _ _ c2). eapply wp_mono; [by destruct notify; calm|].
  intros [] c3 e3 [B3 _ _]. wp_step. eapply wp_mono; [by apply incall_clear_calm|].
  intros [] c4 e4 [B4 _ _]. do 3 wp_step. eapply wp_mono; [apply set_state_ok; [by apply (view_ok c4)|done]|].
  intros [] c5 e5 [H5 _]. apply ok_get, ok_bind; [|intros; ok_auto].
  pose proof (bo_sft_url _ (co_base _ H5)) as Hu.
  destruct (cf_sft_url c5) as [url|] eqn:Eu; [|ok_auto]. apply ok_bind; [|intros; ok_auto].
  by apply send_conf_conn_ok.
Qed.

Lemma reconnect_ok' t notify again c : call_ok c → wp_ok (ccall_reconnect t notify again) c.
Proof. intros Hc. by apply reconnect_ok; [apply co_base|]. Qed.
#[local] Hint Resolve reconnect_ok' : csafe.

(** *** Timers *)

Lemma connect_timeout_spec c :
  base_ok c → cf_state c ≠ CCALL_STATE_ACTIVE →
  wp ccall_connect_timeout (λ _ c' e, end_post ETIMEDOUT c c' e) c.
Proof.
  intros Hc Hs. unfold ccall_connect_timeout. do 2 wp_step.
  rewrite bool_decide_eq_false_2 by done. by apply end_with_err_spec.
Qed.

Lemma send_check_timeout_calm c : base_ok c → wp ccall_send_check_timeout (λ _ c' _, calm c c') c.
Proof. intros. unfold ccall_send_check_timeout. calm. Qed.

Lemma send_check_timeout_ok c : call_ok c → wp_ok ccall_send_check_timeout c.
Proof. intros Hc. apply ok_calm; [done|]. apply send_check_timeout_calm. Qed.

Lemma ongoing_call_timeout_ok c : call_ok c → wp_ok ccall_ongoing_call_timeout c.
Proof. intros. unfold ccall_ongoing_call_timeout. ok_auto. Qed.

Lemma stop_ringing_timeout_ok c : call_ok c → wp_ok ccall_stop_ringing_timeout c.
Proof. intros. unfold ccall_stop_ringing_timeout. ok_auto. Qed.

Lemma sft_reject_timeout_ok c : call_ok c → wp_ok ccall_sft_reject_timeout c.
Proof. intros. unfold ccall_sft_reject_timeout. ok_auto. Qed.

Lemma sync_vstate_timeout_ok c : call_ok c → wp_ok ccall_sync_vstate_timeout c.
Proof. intros. unfold ccall_sync_vstate_timeout. ok_auto. Qed.

Lemma decrypt_check_timeout_ok c : call_ok c → wp_ok ccall_decrypt_check_timeout c.
Proof. intros. unfold ccall_decrypt_check_timeout. ok_auto. Qed.

Lemma alone_timeout_ok c : call_ok c → wp_ok ccall_alone_timeout c.
Proof. intros. unfold ccall_alone_timeout. ok_auto. Qed.

Lemma durterm_timeout_ok c : call_ok c → wp_ok durterm_timeout_handler c.
Proof. intros. unfold durterm_timeout_handler. ok_auto. Qed.

Lemma keepalive_timeout_ok c : call_ok c → wp_ok ccall_keepalive_timeout c.
Proof.
  intros Hc. unfold ccall_keepalive_timeout. apply ok_get.
  destruct (bool_decide (cf_state c = _)) eqn:Hs; cbn [negb]; [|ok_auto].
  apply bool_decide_eq_true_1 in Hs. destruct (bool_decide _); [ok_auto|]. wp_step.
  eapply wp_mono; [apply call_ecall_calm, Hc|]. intros r c1 e1 [B1 [= E1 E2 E3] _].
  pose proof (bo_ping _ (co_base _ Hc)) as Hp. destruct (co_watched _ Hc) as [_ Ha].
  specialize (Ha Hs). cbn in Ha. do 4 wp_step.
  match goal with |- wp _ _ ?x => set (c2 := x) end. unfold CCALL_MAX_MISSING_PINGS in *.
  assert (Ep : cf_expected_ping c2 = cf_expected_ping c + 1).
  { change (u32 (cf_expected_ping c1 + 1) = cf_expected_ping c + 1).
    rewrite E3, uwrap_small; lia. }
  assert (B2 : base_ok c2).
  { revert B1. base_split; change (u32 _) with (cf_expected_ping c2);
      unfold CCALL_MAX_MISSING_PINGS; lia. }
  assert (S2 : cf_state c2 = CCALL_STATE_ACTIVE) by (change (cf_state c1 = CCALL_STATE_ACTIVE); congruence).
  destruct (_ <? _) eqn:Hl.
  - apply reconnect_ok; [done|]. by rewrite S2.
  - apply Z.ltb_ge in Hl. apply ok_calm; [|intros; calm]. split; [done|]. split; cbn.
    + by rewrite S2.
    + done.
Qed.
End Ending.

#[export] Hint Resolve send_msg_sft_ok transp_send_ok send_conf_conn_ok end_ok reconnect_ok'
  send_check_timeout_ok ongoing_call_timeout_ok stop_ringing_timeout_ok sft_reject_timeout_ok
  sync_vstate_timeout_ok decrypt_check_timeout_ok alone_timeout_ok durterm_timeout_ok
  keepalive_timeout_ok : csafe.
