(* ===== verification/CcallSafe.v ===== *)
(** * The operations of a conference call are safe

    Every operation of [CcallOps] and [CcallMsg] has a defined behaviour from a
    call that satisfies [call_ok] and leaves such a call, given arguments of their
    C types ([op_ok]). *)

From S2P Require Import Prelude LibRe EconnMsg UserHash AudioLevel UserList UserListSpec UserListSft UserListOps UserListProps Keystore KeystoreSpec KeystoreOps KeystoreProps CcallKeys CcallKeysSpec CcallKeysInv CcallSft Icall Ccall CcallOps CcallMsg CcallSpec CcallInv.

Section Ops.
Context `{LS : LibReSpec, SO : Sodium, SL : !SodiumLen SO, HS : !SodiumSpec SO ab sha, UE : UlEnv,
          KE : KsEnv, KL : !KsEnvLen KE, CE : CkEnv, CC : CcEnv, EO : !CallEnvOk}.

Abbreviation wp_ok m c := (wp m (λ _ c' _, call_ok c') c).

(** One that resets the count of missing pings. *)
Lemma ok_reset f c :
  call_ok c → (base_ok c → base_ok (f c)) → watch (f c) = ((watch c).1, 0) →
  wp_ok (umodify f : CCM ()) c.
Proof.
  intros [B [W1 W2]] Hf E. wp_step. split; [by apply Hf|]. rewrite E. by split.
Qed.

(** ** The handlers given to [ecall] *)

Lemma ping_handler_ok c : call_ok c → wp_ok ecall_ping_handler c.
Proof.
  intros Hc. unfold ecall_ping_handler. ok_auto. apply ok_reset; [done|by base_split|done].
Qed.

Lemma setup_handler_ok c : call_ok c → wp_ok ecall_setup_handler c.
Proof. intros. unfold ecall_setup_handler. ok_auto. Qed.

Lemma datachan_estab_ok c : call_ok c → wp_ok ecall_datachan_estab_handler c.
Proof. intros. unfold ecall_datachan_estab_handler. ok_auto. Qed.

Lemma media_estab_ok a update c : call_ok c → wp_ok (ecall_media_estab_handler a update) c.
Proof. intros. unfold ecall_media_estab_handler. ok_auto. Qed.

Lemma audio_estab_ok update c : call_ok c → wp_ok (ecall_audio_estab_handler update) c.
Proof. intros. unfold ecall_audio_estab_handler. ok_auto. Qed.

Lemma aulevel_ok levell c : call_ok c → wp_ok (ecall_aulevel_handler levell) c.
Proof.
  intros. unfold ecall_aulevel_handler. ok_auto. apply ok_calm; [done|]. intros.
  apply with_users_keeps, update_audio_level_keeps. done.
Qed.

Lemma add_metrics_ok m c : call_ok c → wp_ok (add_metrics m) c.
Proof. intros. unfold add_metrics. ok_auto. Qed.
#[local] Hint Resolve add_metrics_ok : csafe.

Lemma close_handler_ok a err m t c : call_ok c → wp_ok (ecall_close_handler a err m t) c.
Proof.
  intros. unfold ecall_close_handler. ok_auto. apply ok_reset; [done|by base_split|done].
Qed.

Lemma quality_handler_ok uid cid st c : call_ok c → wp_ok (ecall_quality_handler uid cid st) c.
Proof. intros. unfold ecall_quality_handler. ok_auto. Qed.

Lemma propsync_handler_ok msg c : call_ok c → wp_ok (ecall_propsync_handler msg) c.
Proof.
  intros. unfold ecall_propsync_handler. ok_auto; apply ok_calm; try done; by apply set_user_calm.
Qed.

(** *** The participants *)

Lemma keep_parts_calm ps : ∀ data c, base_ok c → wp (keep_parts ps data) (λ _ c' _, calm c c') c.
Proof. induction ps as [|[p|] ps IH]; intros data c Hc; cbn [keep_parts]; calm. Qed.
#[local] Hint Resolve keep_parts_calm : calm.

Lemma keep_confpart_data_calm cp c :
  base_ok c → wp (ccall_keep_confpart_data cp) (λ _ c' _, calm c c') c.
Proof. intros. unfold ccall_keep_confpart_data. calm. Qed.

Lemma update_alone_calm n c : base_ok c → wp (update_alone n) (λ _ c' _, calm c c') c.
Proof. intros. unfold update_alone. calm. Qed.
#[local] Hint Resolve keep_confpart_data_calm update_alone_calm : calm.

(** What is left of a meeting is an [int]. *)
Definition duration_fits (c : conf_call) (timestamp : Z) : Prop :=
  - 2 ^ 31 <= cf_meeting_duration c - s32 (timestamp - cf_sft_timestamp c) < 2 ^ 31.

Lemma int_op_fits x : - 2 ^ 31 <= x < 2 ^ 31 → int_op x = Some x.
Proof.
  intros Hx. unfold int_op. by rewrite (proj2 (Z.leb_le _ _)), (proj2 (Z.ltb_lt _ _)) by lia.
Qed.

Lemma check_duration_ok ts c : call_ok c → duration_fits c ts → wp_ok (check_duration ts) c.
Proof.
  intros Hc Hf. unfold check_duration. ok_auto.
  apply ok_calm; [done|]. intros. apply calm_of_ptr; [done|]. rewrite int_op_fits by done. by eexists.
Qed.

(** The call as it was, or with the start the server reports. *)
Record started (c0 : conf_call) (ts : Z) (c : conf_call) : Prop := {
  sd_ok : call_ok c;
  sd_duration : cf_meeting_duration c = cf_meeting_duration c0;
  sd_ts : cf_sft_timestamp c = cf_sft_timestamp c0 ∨ cf_sft_timestamp c = ts;
}.

Lemma started_calm {A} (m : CCM A) c0 ts c :
  started c0 ts c → (base_ok c → wp m (λ _ c' _, calm c c') c) →
  wp m (λ _ c' _, started c0 ts c') c.
Proof.
  intros [S1 S2 S3] Hm. eapply wp_mono; [apply Hm, S1|]. intros a c' e C.
  pose proof (cm_ident _ _ C) as [= E1 _ _ _ _ E3 _].
  split; [by eapply calm_call_ok|congruence|by rewrite E1].
Qed.

Lemma started_bind {A B} (m : CCM A) (f : A → CCM B) c0 ts c :
  started c0 ts c → wp m (λ _ c' _, started c0 ts c') c →
  (∀ a c', started c0 ts c' → wp_ok (f a) c') → wp_ok (m ≫= f) c.
Proof. intros _ Hm Hf. wp_step. eapply wp_mono; [exact Hm|]. intros a c' e. by apply Hf. Qed.

Lemma started_set ts sq c0 c :
  started c0 ts c →
  wp (umodify (λ c, {| c with cf_sft_timestamp := ts; cf_sft_seqno := sq |}) : CCM ())
     (λ _ c' _, started c0 ts c') c.
Proof.
  intros [[B W] S2 S3]. wp_step. split; [|done|by right]. split; [by apply (view_ok c)|done].
Qed.

Lemma started_fits c0 ts c :
  started c0 ts c → duration_fits c0 ts → duration_fits c ts.
Proof.
  intros [[B _] Ed [E|E]] Hf; unfold duration_fits; rewrite Ed, E; [exact Hf|].
  rewrite Z.sub_diag, <- Ed. pose proof (bo_duration c B). change (s32 0) with 0. lia.
Qed.

(** A report of the server: the participants are there, the URLs are not empty and
    the duration does not overflow. *)
Record confpart_ok (c : conf_call) (cp : confpart) : Prop := {
  pk_partl : ∃ ps, cp_partl cp = Some <$> ps;
  pk_sftl : Forall (λ u, u ≠ ""%string) (cp_sftl cp);
  pk_duration : cf_meeting_duration c ≠ 0 → cf_received_confpart c = false →
                duration_fits c (cp_timestamp cp);
}.

Lemma sft_update_calm ps sc c :
  base_ok c → wp (with_users (sft_update (Some <$> ps) sc)) (λ _ c' _, calm c c') c.
Proof.
  intros Hc. apply with_users_calm; [done|].
  eapply wp_mono; [apply sft_update_spec, ko_userl, bo_keys, Hc|]. by intros ? ? ? [? _].
Qed.

Lemma sort_users_calm c : base_ok c → wp (on_list sort_users) (λ _ c' _, calm c c') c.
Proof.
  intros Hc. apply calm_list; [done|]. apply wp_modify.
  eapply ul_ok_keeps; [apply sorted_users_keeps|apply ko_userl, bo_keys, Hc].
Qed.
#[local] Hint Resolve sft_update_calm sort_users_calm : calm.

Lemma confpart_handler_ok a cp c :
  call_ok c → confpart_ok c cp → wp_ok (ecall_confpart_handler a cp) c.
Proof.
  intros Hc [[ps Eps] Hsft Hdur]. unfold ecall_confpart_handler. apply ok_get.
  destruct (negb _); [ok_auto|]. rewrite Eps.
  assert (S0 : started c (cp_timestamp cp) c) by (split; auto).
  eapply started_bind; [exact S0|apply started_calm; [done|intros; calm]|]. intros _ c1 S1.
  eapply started_bind; [exact S1|apply started_calm; [done|intros; calm]|]. intros _ c2 S2.
  eapply started_bind; [exact S2|apply started_calm; [done|intros; calm]|]. intros _ c3 S3.
  eapply (started_bind _ _ c (cp_timestamp cp)); [exact S3| |].
  { case_match; [|case_match].
    - wp_step. eapply wp_mono; [by apply started_set|]. intros [] c4 e4 S4.
      apply started_calm; [done|intros; calm].
    - by apply started_set.
    - apply started_calm; [done|intros; calm]. }
  intros _ c4 S4.
  eapply started_bind; [exact S4|apply started_calm; [done|intros; calm]|]. intros _ c5 S5.
  apply ok_bind.
  { destruct (_ && _) eqn:Hd; [|apply wp_ret, S5]. to_prop.
    apply check_duration_ok; [apply S5|]. by apply (started_fits c), Hdur. }
  ok_auto.
Qed.

Lemma confmsg_handler_ok a msg c :
  call_ok c → (∀ cp, msg_u msg = u_confpart cp → confpart_ok c cp) →
  wp_ok (ecall_confmsg_handler a msg) c.
Proof.
  intros Hc Hm. unfold ecall_confmsg_handler. destruct (msg_type msg), (msg_u msg); ok_auto.
  by apply confpart_handler_ok; [|apply Hm].
Qed.

(** ** Joining *)

Lemma add_turnservers_calm a srvs : ∀ c,
  base_ok c → wp (add_turnservers a srvs) (λ _ c' _, calm c c') c.
Proof. induction srvs as [|srv srvs IH]; intros c Hc; cbn [add_turnservers]; calm. Qed.
#[local] Hint Resolve add_turnservers_calm : calm.

Lemma create_ecall_calm c :
  base_ok c → cc_ecall (cf c) = None → wp create_ecall (λ _ c' _, calm c c') c.
Proof.
  intros Hc He. unfold create_ecall. apply calm_get. rewrite He.
  rewrite bool_decide_eq_true_2 by done. cbn [negb]. calm.
Qed.

Lemma stop_others_ringing_i_calm c :
  base_ok c → wp ccall_stop_others_ringing_i (λ _ c' _, calm c c') c.
Proof. intros. unfold ccall_stop_others_ringing_i. calm. Qed.
#[local] Hint Resolve stop_others_ringing_i_calm : calm.

Lemma stop_others_ringing_ok c : call_ok c → wp_ok ccall_stop_others_ringing c.
Proof. intros. unfold ccall_stop_others_ringing. ok_auto. Qed.

Lemma req_cfg_join_ok t cbr retry out c : call_ok c → wp_ok (ccall_req_cfg_join t cbr retry out) c.
Proof. intros. unfold ccall_req_cfg_join. destruct out; ok_auto. Qed.
#[local] Hint Resolve stop_others_ringing_ok req_cfg_join_ok : csafe.

Lemma join_known_ok cfg sftl : ∀ err n c,
  call_ok c → Forall (λ u, u ≠ ""%string) sftl → wp_ok (join_known cfg sftl err n) c.
Proof.
  induction sftl as [|url sftl IH]; intros err n c Hc Hs; cbn [join_known]; [ok_auto|].
  apply Forall_cons in Hs as [Hu Hs]. ok_auto. apply send_conf_conn_ok; [done|].
  unfold url_ok. congruence.
Qed.

Lemma find_srv_ok cfg url srv :
  cfg_ok cfg → ccall_get_sft_info cfg url = Some srv → srv_ok srv.
Proof.
  intros [_ Ha]. unfold ccall_get_sft_info, config_get. destruct url as [url|]; [|done].
  destruct (cfg_sftservers_all cfg) as [|s0 ss] eqn:E; [done|].
  intros [_ Hin]%find_Some_split. rewrite Forall_forall in Ha. by apply Ha.
Qed.

Lemma sft_for_ok cfg srv : cfg_ok cfg → srv_ok srv → srv_ok (sft_for cfg srv).
Proof.
  intros Hc Hs. unfold sft_for. destruct (ccall_get_sft_info _ _) eqn:E; [by eapply find_srv_ok|].
  destruct (ccall_get_sft_info_at_index _ _); [|done]. destruct Hs as [H1 H2]. split; cbn;
    rewrite str_ncpy_fits; done.
Qed.

Lemma join_config_ok cfg urlv : ∀ err c,
  call_ok c → cfg_ok cfg → Forall srv_ok urlv → wp_ok (join_config cfg urlv err) c.
Proof.
  induction urlv as [|srv urlv IH]; intros err c Hc Hcfg Hs; cbn [join_config]; [ok_auto|].
  apply Forall_cons in Hs as [Hu Hs]. ok_auto. apply send_conf_conn_ok; [done|].
  unfold url_ok. destruct (sft_for_ok cfg srv Hcfg Hu) as [Hn _]. congruence.
Qed.

Lemma cfg_out_ok je err d c : call_ok c → wp_ok (cfg_out je err d) c.
Proof. intros. unfold cfg_out. ok_auto. Qed.

Lemma cfg_join_known_ok je cfg c : call_ok c → wp_ok (cfg_join_known je cfg) c.
Proof.
  intros Hc. unfold cfg_join_known. apply ok_get.
  pose proof (bo_sftl _ (co_base _ Hc)) as Hs. pose proof (bo_primary _ (co_base _ Hc)) as Hp.
  destruct (cf_sftl c) as [|url sftl] eqn:E.
  - destruct (cf_primary_sft_url c); ok_auto.
  - ok_auto. by apply join_known_ok.
Qed.
#[local] Hint Resolve cfg_out_ok cfg_join_known_ok : csafe.

Lemma cfg_servers_ok c cfg urlv :
  call_ok c → cf_cfg c = Some cfg → cfg_servers cfg_sftservers (cf_cfg c) = Some urlv →
  cfg_ok cfg ∧ Forall srv_ok (take 3 urlv).
Proof.
  intros Hc Ec Es. pose proof (bo_cfg _ (co_base _ Hc) cfg Ec) as Hk. split; [done|].
  rewrite Ec in Es. cbn in Es. unfold config_get in Es.
  assert (urlv = cfg_sftservers cfg) as -> by (by destruct (cfg_sftservers cfg); simplify_eq).
  apply Forall_take, Hk.
Qed.

Lemma config_update_ok je c : call_ok c → wp_ok (config_update_handler je) c.
Proof.
  intros Hc. unfold config_update_handler. apply ok_get.
  destruct (cf_je c) as [je'|]; [|ok_auto]. destruct (negb _); [ok_auto|].
  destruct (cf_cfg c) as [cfg|] eqn:Ec; [|ok_auto].
  destruct (cfg_servers _ _) as [urlv|] eqn:Es; [|ok_auto].
  destruct (cfg_servers_ok c cfg urlv Hc Ec) as [Hk Hs]; [by rewrite Ec|].
  destruct (cf_state c); ok_auto; by apply join_config_ok.
Qed.

(** ** Calls of the application *)

Lemma ccall_answer_ok t cbr c : call_ok c → wp_ok (ccall_answer t cbr) c.
Proof. intros. unfold ccall_answer. ok_auto. Qed.
#[local] Hint Resolve ccall_answer_ok : csafe.

Lemma ccall_start_ok t cbr meeting c : call_ok c → wp_ok (ccall_start t cbr meeting) c.
Proof. intros. unfold ccall_start. ok_auto. Qed.

Lemma ccall_reject_ok c : call_ok c → wp_ok ccall_reject c.
Proof. intros. unfold ccall_reject. ok_auto. Qed.

Lemma get_members_ok c : call_ok c → wp_ok ccall_get_members c.
Proof.
  intros. unfold ccall_get_members. ok_auto. apply ok_calm; [done|]. intros.
  apply calm_list_keeps, get_members_keeps. done.
Qed.

Lemma add_turnserver_ok srv c : call_ok c → wp_ok (ccall_add_turnserver srv) c.
Proof.
  intros Hc. unfold ccall_add_turnserver. apply ok_get. destruct (_ <=? _)%nat eqn:E; [ok_auto|].
  apply Nat.leb_gt in E. apply ok_bind; [|intros; ok_auto].
  apply ok_update; [done| |done]. base_split. rewrite length_app. cbn. lia.
Qed.

Lemma set_config_ok cfg c : call_ok c → cfg_ok cfg → wp_ok (ccall_set_config cfg) c.
Proof.
  intros. unfold ccall_set_config. apply ok_bind; [|intros; ok_auto].
  apply ok_update; [done| |done]. by base_split.
Qed.

Lemma set_clients_ok cl epoch c : call_ok c → wp_ok (ccall_set_clients cl epoch) c.
Proof.
  intros Hc. unfold ccall_set_clients. ok_auto. apply ok_calm; [done|]. intros B.
  apply with_users_calm; [done|]. apply update_from_selist_ok, ko_userl, bo_keys, B.
Qed.

Lemma set_duration_ok d c :
  call_ok c → - 2 ^ 31 <= d * 1000 < 2 ^ 31 → wp_ok (ccall_set_duration d) c.
Proof.
  intros Hc Hd. unfold ccall_set_duration. wp_step. eapply wp_of_ptr; [by apply int_op_fits|].
  apply ok_update; [done|by base_split|done].
Qed.

Lemma calm_alloc {B} (f : bool → CCM B) c :
  base_ok c → (∀ c', base_ok c' → wp (f true) (λ _ c'' _, calm c' c'') c') →
  wp (next_alloc ≫= f) (λ _ c' _, calm c c') c.
Proof.
  intros Hc Hf. wp_step. apply wp_next_alloc. pose proof (tick_calm c Hc) as C.
  eapply wp_mono; [apply Hf, C|]. intros ? ? ? C'. exact (calm_trans _ _ _ C C').
Qed.

Lemma request_streams_calm cl : ∀ sl c,
  base_ok c → wp (request_streams cl sl) (λ _ c' _, calm c c') c.
Proof.
  induction cl as [|cli cl IH]; intros sl c Hc; cbn [request_streams]; [calm|].
  apply calm_get. destruct (userlist_find_by_real _ _ _); [|by apply IH].
  apply calm_alloc; [done|]. intros c1 H1. cbn [negb].
  apply calm_alloc; [done|]. intros c2 H2. cbn [negb]. calm.
Qed.
#[local] Hint Resolve request_streams_calm : calm.

Lemma alloc_streams_calm su sc du dc c :
  base_ok c →
  wp (alloc_message ECONN_CONF_STREAMS false su sc du dc false)
     (λ r c' _, calm c c' ∧ is_Some r.2) c.
Proof.
  intros Hc. unfold alloc_message. do 3 wp_step. apply wp_next_alloc. cbn [negb]. wp_step.
  split; [by apply tick_calm|by eexists].
Qed.

Lemma request_video_streams_ok cl c : call_ok c → wp_ok (ccall_request_video_streams cl) c.
Proof.
  intros Hc. unfold ccall_request_video_streams. destruct (_ =? _)%nat; [ok_auto|]. apply ok_get.
  eapply ok_bind_calm; [done|apply alloc_streams_calm, Hc|]. intros [e [msg|]] c1 H1 _ [m Hm]; [|done].
  ok_step; [ok_calm|]. intros msg' c2 H2. ok_step; [ok_calm|]. intros _ c3 H3.
  eapply ok_bind_calm; [done|apply next_alloc_ok, H3|]. intros ok c4 H4 _ ->. cbn [negb]. ok_auto.
Qed.

(** ** Messages *)

(** A CONFSTART or CONFCHECK names its server and carries a secret. *)
Record confstart_ok (cs : confstart) : Prop := {
  sk_url : ∃ u, cs_sft_url cs = Some u ∧ u ≠ ""%string;
  sk_secret : (4 ≤ length (cs_secret cs))%nat;
  sk_sftl : Forall (λ u, u ≠ ""%string) (cs_sftl cs);
}.

Lemma set_secret_ok secret c :
  call_ok c → (4 ≤ length secret)%nat → wp_ok (ccall_set_secret secret) c.
Proof.
  intros [B W] Hs. eapply wp_mono; [by apply set_secret_spec|]. intros r c' e [B' W' _].
  split; [done|by rewrite W'].
Qed.

Lemma adopt_call_ok cs c : call_ok c → confstart_ok cs → wp_ok (adopt_call cs) c.
Proof.
  intros Hc [(u & Eu & Hu) Hs _]. unfold adopt_call.
  ok_step; [ok_auto|]. intros _ c1 H1. wp_step. eapply wp_of_ptr; [exact Eu|].
  eapply ok_bind_calm; [done|apply copy_sft_calm; [apply H1|done]|].
  intros [err url] c2 H2 _ [_ Hurl]. cbn in Hurl.
  ok_auto. by apply set_secret_ok.
Qed.

Lemma rejoin_ok sftl c :
  call_ok c → Forall (λ u, u ≠ ""%string) sftl → wp_ok (rejoin sftl) c.
Proof. intros. unfold rejoin. ok_auto. Qed.

Lemma handle_confstart_ok uid cid msg c :
  call_ok c → (∀ cs b, confstart_of msg = Some (cs, b) → confstart_ok cs) →
  wp_ok (ccall_handle_confstart_check uid cid msg) c.
Proof.
  intros Hc Hm. unfold ccall_handle_confstart_check.
  destruct uid as [uid|], cid as [cid|]; [|ok_auto..].
  destruct (confstart_of msg) as [[cs b]|] eqn:E; [|ok_auto].
  specialize (Hm cs b eq_refl). pose proof (sk_sftl cs Hm) as Hsft.
  destruct (negb b); [ok_auto|]. apply ok_get. apply ok_bind.
  { destruct (0 <? _); [by apply adopt_call_ok|ok_auto]. }
  intros err c1 H1. destruct (negb _); [ok_auto|]. cbv zeta.
  destruct (cf_state c); ok_auto; by apply rejoin_ok.
Qed.

Definition recv_ok (msg : econn_message) : Prop :=
  (∀ cs b, confstart_of msg = Some (cs, b) → confstart_ok cs) ∧
  (∀ keyl, msg_u msg = u_confkey keyl → keyl_valid keyl).

Lemma msg_recv_ok uid cid msg c :
  call_ok c → recv_ok msg → wp_ok (ccall_msg_recv uid cid msg) c.
Proof.
  intros Hc [Hm Hk]. unfold ccall_msg_recv. apply ok_get. destruct (msg_type msg).
  all: try by ok_auto.
  all: try by apply handle_confstart_ok.
  - pose proof (ko_hash _ (bo_keys _ (co_base _ Hc))) as Hh.
    destruct (cf_state c); ok_auto. apply ok_calm; [done|]. intros. by apply calm_of_ptr.
  - ok_auto; apply ok_calm; try done; intros; apply calm_keys; try done; intros.
    + apply recv_resp_ok; [done|]. destruct (msg_u msg); try (by intros ? ?%elem_of_nil). by apply Hk.
    + by apply recv_req_ok.
Qed.

(** The states that follow CONNSENT. *)
Lemma after_connsent_ok st c :
  call_ok c → cf_state c = CCALL_STATE_CONNSENT →
  st = CCALL_STATE_SETUPRECV ∨ st = CCALL_STATE_WAITNETWORK → wp_ok (set_state st) c.
Proof.
  intros [B [W _]] E Hst. eapply wp_mono.
  - apply set_state_ok; [done|]. cbn in W. rewrite E in W. by destruct Hst as [->| ->]; apply W.
  - by intros ? ? ? [? _].
Qed.

Lemma setup_from_ok msg c :
  call_ok c → url_ok (setup_url msg) → wp_ok (setup_from msg) c.
Proof.
  intros Hc Hu. unfold setup_from. destruct (setup_url msg) as [url|]; [|ok_auto].
  assert (Hn : url ≠ ""%string) by (intros ->; by apply Hu).
  assert (Hcopy : ∀ c, base_ok c → wp (copy_sft' url) (λ r c' _, calm c c' ∧ url_ok r.2) c).
  { intros c0 H0. eapply wp_mono; [by apply copy_sft_calm|]. by intros ? ? ? (? & _ & ?). }
  apply ok_get. apply ok_bind.
  { destruct (bool_decide _); [|ok_auto].
    eapply ok_bind_calm; [done|apply Hcopy, Hc|]. intros [err u] c1 H1 _ Hurl. cbn in Hurl.
    ok_auto. }
  intros err c1 H1. destruct (negb (err =? 0)); [ok_auto|]. destruct (negb _); [ok_auto|].
  eapply ok_bind_calm; [done|apply Hcopy, H1|]. intros [err2 u] c2 H2 _ Hurl. cbn in Hurl.
  ok_auto.
Qed.

Lemma to_ecall_ok msg c : call_ok c → wp_ok (to_ecall msg) c.
Proof.
  intros Hc. unfold to_ecall. apply ok_get. apply ok_bind; [|intros; ok_auto].
  destruct (bool_decide _) eqn:E; [|ok_auto]. apply bool_decide_eq_true_1 in E.
  apply ok_bind; [|intros; ok_auto]. apply ok_calm; [done|]. intros. by apply create_ecall_calm.
Qed.
#[local] Hint Resolve setup_from_ok to_ecall_ok after_connsent_ok : csafe.

Lemma sft_msg_recv_ok st msg c :
  call_ok c → (∀ m, msg = Some m → url_ok (setup_url m)) → wp_ok (ccall_sft_msg_recv st msg) c.
Proof.
  intros Hc Hm. unfold ccall_sft_msg_recv. destruct (_ =? _); [ok_auto|]. apply ok_get.
  destruct msg as [msg|].
  - specialize (Hm msg eq_refl). destruct (_ && _); [ok_auto|].
    destruct (bool_decide (cf_state c = _)) eqn:E; [apply bool_decide_eq_true_1 in E|].
    all: destruct (msg_type msg); cbn [negb]; ok_auto.
  - destruct (bool_decide (cf_state c = _)) eqn:E; ok_auto. apply bool_decide_eq_true_1 in E.
    apply after_connsent_ok; auto.
Qed.

(** ** Everything that can happen *)

(** The arguments of an operation are what their C types, the messages' parsers
    and the state promise. *)
Definition op_ok (c : conf_call) (o : cc_op) : Prop :=
  match o with
  | DoSetConfig cfg => cfg_ok cfg
  | DoSetDuration d => - 2 ^ 31 <= d * 1000 < 2 ^ 31
  | DoSetMediaKey epoch _ => 0 <= epoch < 2 ^ 32
  | DoMsgRecv _ _ msg => recv_ok msg
  | DoSftMsgRecv _ msg => ∀ m, msg = Some m → url_ok (setup_url m)
  | DoConfmsg _ msg => ∀ cp, msg_u msg = u_confpart cp → confpart_ok c cp
  | DoTimer TmrRotateKey => ¬ rotate_wraps (cc_keystore (cf c))
  | _ => True
  end.

(** The connect timer has expired. *)
Lemma connect_expired_ok c : call_ok c → wp_ok (tmr_cancel TmrConnect;; ccall_connect_timeout) c.
Proof.
  intros [B [_ W]]. unfold tmr_cancel. do 2 wp_step. match goal with |- wp _ _ ?x => set (c1 := x) end.
  assert (B1 : base_ok c1) by by apply (view_ok c).
  unfold ccall_connect_timeout. apply ok_get. destruct (bool_decide _) eqn:E.
  - apply bool_decide_eq_true_1 in E. apply wp_ret. split; [done|]. split; cbn; [by rewrite E|].
    intros _. by apply W.
  - by apply end_with_err_ok.
Qed.

Lemma rotate_expired_ok c :
  call_ok c → ¬ rotate_wraps (cc_keystore (cf c)) →
  wp_ok (tmr_cancel TmrRotateKey;; timer_handler TmrRotateKey) c.
Proof.
  intros Hc Hw. unfold tmr_cancel. cbn [timer_handler]. do 2 wp_step. wp_step. apply wp_next.
  match goal with |- wp _ _ ?x => set (c1 := x) end.
  assert (C1 : calm c c1) by (split; [by apply (view_ok c); [|apply Hc]|done..]).
  assert (Hw1 : ¬ rotate_wraps (cc_keystore (cf c1))) by done.
  clearbody c1. apply ok_calm; [by eapply calm_call_ok|]. intros B1. apply calm_keys; [done|].
  intros Hk. apply rotate_key_ok; [done|apply stack_key_ok|done].
Qed.

Lemma fire_ok t c : call_ok c → op_ok c (DoTimer t) → wp_ok (fire t) c.
Proof.
  intros Hc Ho. unfold fire. apply ok_get. destruct (bool_decide _); [ok_auto|].
  destruct t; [by apply connect_expired_ok|..]; [| |by apply rotate_expired_ok|..].
  all: cbn [timer_handler]; unfold duration_timeout_handler; ok_auto.
Qed.

Lemma ok_udone {A} (m : CCM A) c : wp_ok m c → wp_ok (udone m) c.
Proof. apply wp_udone. Qed.

#[local] Hint Resolve ccall_start_ok ccall_reject_ok get_members_ok add_turnserver_ok set_config_ok
  set_clients_ok set_duration_ok request_video_streams_ok msg_recv_ok sft_msg_recv_ok
  config_update_ok ping_handler_ok setup_handler_ok datachan_estab_ok media_estab_ok
  audio_estab_ok aulevel_ok close_handler_ok quality_handler_ok propsync_handler_ok
  confmsg_handler_ok fire_ok : csafe.

Lemma cc_exec_ok o c : call_ok c → op_ok c o → wp_ok (cc_exec o) c.
Proof.
  intros Hc Ho. destruct o; cbn [cc_exec op_ok] in *; try apply ok_udone.
  all: first
    [ solve [eauto with csafe]
    | unfold ccall_end, ccall_media_start, ccall_media_stop, ccall_set_quality_interval,
        ccall_update_mute_state, ccall_set_background, ccall_activate, ccall_restart; by ok_auto
    | idtac ].
  apply ok_calm; [done|]. intros. apply calm_keys; [done|]. intros.
  apply set_media_key_ok; [apply clock_ok|done..].
Qed.
End Ops.
