(* ===== verification/CcallProps.v ===== *)
(** * Properties of conference calls

    The invariant of every call that can be reached, the end of a call nobody
    answers, and the agreement of clients on which of several calls it is. *)

From S2P Require Import Prelude LibRe EconnMsg UserHash AudioLevel UserList UserListSpec UserListSft UserListOps UserListProps Keystore KeystoreSpec KeystoreOps KeystoreProps CcallKeys CcallKeysSpec CcallKeysInv CcallSft Icall Ccall CcallOps CcallMsg CcallSpec CcallInv CcallSafe.

Section Props.
Context `{LS : LibReSpec, SO : Sodium, SL : !SodiumLen SO, HS : !SodiumSpec SO ab sha, UE : UlEnv,
          KE : KsEnv, KL : !KsEnvLen KE, CE : CkEnv, CC : CcEnv, EO : !CallEnvOk}.

Lemma new_call_ok convid l ks mls meeting :
  ul_ok l → ks_ok ks → base_ok (with_hash "" (new_call convid l ks mls meeting)).
Proof. intros Hl Hk. split; cbn; try done; cbv; lia. Qed.

Lemma ccall_alloc_ok convid uid cid mls meeting secret c :
  ccall_alloc convid uid cid mls meeting secret = Some c → (4 ≤ length secret)%nat → call_ok c.
Proof.
  unfold ccall_alloc. destruct (userlist_alloc _ _ _ _ _ _ _ _) as [e1 [l|]] eqn:E1; [|done].
  destruct (keystore_alloc _ _ _) as [e2 [ks|]] eqn:E2; [|done]. intros Hrun Hs.
  assert (e1 = 0) as ->.
  { revert E1. unfold userlist_alloc, userinfo_alloc. intros. by split_cases. }
  assert (e2 = 0) as -> by (revert E2; unfold keystore_alloc; intros; by split_cases).
  pose proof (new_call_ok convid l ks mls meeting (userlist_alloc_ok _ _ _ _ _ _ _ _ _ E1)
                (ks_alloc_ok _ _ _ _ E2)) as Hn.
  pose proof (set_secret_init secret _ Hn Hs) as Hi. unfold wp in Hi.
  destruct (ccall_set_secret secret _) as [[[r c'] e]|]; [|done]. injection Hrun as <-.
  destruct Hi as [B W _]. split; [done|]. rewrite W. by split.
Qed.

(** A step of a call. *)
Definition cc_step (c c' : conf_call) : Prop :=
  ∃ o e, op_ok c o ∧ cc_exec o c = Some ((), c', e).

Lemma cc_step_ok c c' : call_ok c → cc_step c c' → call_ok c'.
Proof.
  intros Hc (o & e & Ho & Hrun). pose proof (cc_exec_ok o c Hc Ho) as Hw.
  unfold wp in Hw. by rewrite Hrun in Hw.
Qed.

(** C10: in a system whose allocations succeed and whose clock is past the age of MLS
    keys ([CallEnvOk]), and for every sequence of operations with the arguments listed
    below, in whatever order (calls of the application, messages of clients and
    servers, reports of the connection, configurations and timers), the call stays
    well formed and the next such operation has a defined behaviour: its member list
    and key store satisfy their invariants, the identifier of the conversation is
    known, no URL of a server is empty, at most two reconnections are attempted and
    five pings missed (four while it is active), at most sixteen TURN servers are
    kept, and the connect timer runs while the call waits for the configuration or a
    server.  The arguments ([op_ok]): the secret of the call has at least four bytes;
    the SFT servers of a configuration have URLs that are not empty and fit their
    field; a duration in milliseconds fits an [int], also when the time that has
    passed is taken off it at the first report of the server; a media key has an epoch
    of 32 bits; an announcement (CONFSTART, CONFCHECK) names its server and has a
    secret of at least four bytes, and no URL in a message is empty; keys and
    participants in messages are there; and the rotation of keys is not due at the
    last index.  The decoder of messages does not establish the conditions on URLs and
    secrets, and the code is undefined without them ([null_url_undefined],
    [keystore_rotate_undefined]). *)
Theorem ccall_reachable_ok convid uid cid mls meeting secret c0 c :
  ccall_alloc convid uid cid mls meeting secret = Some c0 → (4 ≤ length secret)%nat →
  rtc cc_step c0 c →
  call_ok c ∧
  ∀ o, op_ok c o → ∃ c' e, cc_exec o c = Some ((), c', e) ∧ call_ok c'.
Proof.
  intros Ha Hs Hr.
  assert (Hc : call_ok c).
  { eapply rtc_invariant; [|exact Hr|by eapply ccall_alloc_ok]. intros. by eapply cc_step_ok. }
  split; [done|]. intros o Ho.
  destruct (wp_defined _ _ _ (cc_exec_ok o c Hc Ho)) as ([] & c' & e & Hrun & Hc'). eauto.
Qed.

(** *** What the application is told about the end of a call *)

Definition tells_end (e : cc_event) : bool :=
  match e with CcLeave _ _ | CcClose _ _ => true | _ => false end.
Definition told_end (es : list cc_event) : list cc_event := filter (λ e, tells_end e = true) es.
Lemma told_end_app e1 e2 : told_end (e1 ++ e2) = told_end e1 ++ told_end e2.
Proof. apply filter_app. Qed.

(** A computation that tells nothing about the end of the call. *)
Definition hushed {A} (m : CCM A) : Prop := ∀ c, wlp m (λ _ _ e, told_end e = []) c.
Lemma hushed_bind {A B} (m : CCM A) (k : A → CCM B) : hushed m → (∀ a, hushed (k a)) → hushed (m ≫= k).
Proof.
  intros Hm Hk c. apply wlp_bind. eapply wlp_mono; [apply Hm|]. intros a c1 e1 E1.
  eapply wlp_mono; [apply Hk|]. intros b c2 e2 E2. by rewrite told_end_app, E1, E2.
Qed.
Lemma hushed_keys {A} (m : CKM A) : hushed (on_keys m).
Proof.
  intros c. unfold wlp, on_keys. destruct (m (cf c)) as [[[a k] e]|]; [|done].
  induction e as [|x e IH]; [done|]. unfold told_end in *. by rewrite fmap_cons, filter_cons, decide_False.
Qed.
Lemma hushed_cancels ts : hushed (tmr_cancels ts).
Proof. induction ts as [|t ts IH]; [done|]. cbn. by apply hushed_bind. Qed.
Ltac hushed_steps :=
  repeat (lazymatch goal with
          | |- hushed (_ ≫= _) => apply hushed_bind
          | |- ∀ _, hushed _ => intros ?
          | |- hushed (on_keys _) => apply hushed_keys
          | |- hushed (on_list _) => apply hushed_keys
          | |- hushed (on_ks _) => apply hushed_keys
          | |- hushed (tmr_cancels _) => apply hushed_cancels
          | |- hushed (if _ then _ else _) => case_match
          | |- hushed (uemit (if _ then _ else _)) => case_match
          end); try done.
Lemma hushed_state st : hushed (set_state st).
Proof. unfold set_state. hushed_steps. destruct st; hushed_steps. Qed.
Lemma hushed_clear : hushed (with_users (userlist_incall_clear false false)).
Proof. done. Qed.

(** When a call ends that has not been set up the application is told once, and
    otherwise not at all; its connection may do so when it has closed. *)
Lemma end_with_err_told c :
  wlp (ccall_end_with_err ETIMEDOUT) (λ _ _ e,
    told_end e = if unconnected (cf_state c)
                 then [CcLeave ICALL_REASON_TIMEOUT ECONN_MESSAGE_TIME_UNKNOWN] else []) c.
Proof.
  unfold ccall_end_with_err. apply wlp_bind. unfold umodify, wlp at 1. apply wlp_bind.
  unfold uget, wlp at 1. apply wlp_bind. change (cf_state {| c with cf_error := ETIMEDOUT |}) with (cf_state c).
  eapply wlp_mono with (Q := λ _ _ e, told_end e = if unconnected (cf_state c)
    then [CcLeave ICALL_REASON_TIMEOUT ECONN_MESSAGE_TIME_UNKNOWN] else []).
  - assert (∀ es st c, wlp (set_state st;; uemit es) (λ _ _ e, told_end e = told_end es) c) as He.
    { intros es st c0. apply wlp_bind. eapply wlp_mono; [apply hushed_state|].
      intros [] c1 e1 E1. unfold wlp, uemit. by rewrite told_end_app, E1. }
    destruct (cf_state c); cbn [unconnected].
    all: lazymatch goal with
         | |- wlp (set_state _) _ _ => apply hushed_state
         | |- wlp (mret _) _ _ => exact eq_refl
         | |- wlp (set_state _;; uemit _) _ _ => apply He
         end.
  - intros [] c1 e1 E1. cbn [app]. eapply wlp_mono.
    { assert (hushed (with_users (userlist_incall_clear false false);;
        c ← uget; n ← on_keys ck_next;
        if negb (bool_decide (cc_ecall (cf c) = None)) && ecall_has_econn n
        then _ ← call_ecall EcEnd; mret () else set_state CCALL_STATE_IDLE)) as Hh; [|apply Hh].
      apply hushed_bind; [apply hushed_clear|]. intros []. apply hushed_bind; [done|]. intros c2.
      apply hushed_bind; [apply hushed_keys|]. intros n. destruct (_ && _); [|apply hushed_state].
      apply hushed_bind; [|done]. unfold call_ecall. apply hushed_bind; [done|]. intros c3.
      destruct (cc_ecall _); [|done]. apply hushed_bind; [done|]. intros []. apply hushed_bind; [|done].
      apply hushed_keys. }
    intros [] c2 e2 E2. by rewrite told_end_app, E1, E2, app_nil_r.
Qed.

(** C31: a call does not wait forever: while it waits for its configuration, for a
    server or for the network, or for the connection that the answer of a server
    sets up, the connect timer runs, and when it expires the call ends.  Unless the
    answer of the server has arrived, the application is told exactly once, that the
    call has timed out, and the call is idle.  If it has arrived ([SETUPRECV]), the
    call tells the application nothing: either its connection is told to end and the
    call waits for it to close, or, when there is no connection to wait for, the
    call is idle. *)
Theorem waiting_call_times_out c :
  call_ok c → waiting (cf_state c) = true →
  is_Some (cf_timers c TmrConnect) ∧
  wp (fire TmrConnect) (λ _ c' e,
    call_ok c' ∧
    if bool_decide (cf_state c = CCALL_STATE_SETUPRECV)
    then told_end e = [] ∧
         (cf_state c' = CCALL_STATE_IDLE ∨
          cf_state c' = CCALL_STATE_TERMINATING ∧ ∃ a, CcEcall a EcEnd ∈ e)
    else told_end e = [CcLeave ICALL_REASON_TIMEOUT ECONN_MESSAGE_TIME_UNKNOWN] ∧
         cf_state c' = CCALL_STATE_IDLE) c.
Proof.
  intros [B [W A]] Hw. specialize (W Hw). split; [done|]. unfold fire. do 2 wp_step.
  rewrite bool_decide_eq_false_2 by (cbn in W; by destruct W as [d ->]).
  unfold tmr_cancel. do 2 wp_step. cbn [timer_handler].
  match goal with |- wp _ _ ?x => set (c1 := x) end.
  assert (B1 : base_ok c1) by by apply (view_ok c).
  assert (Hn : cf_state c1 ≠ CCALL_STATE_ACTIVE)
    by (change (cf_state c1) with (cf_state c); intros E; by rewrite E in Hw).
  unfold ccall_connect_timeout. do 2 wp_step. rewrite bool_decide_eq_false_2 by done.
  eapply wp_mono; [exact (wp_wlp _ _ _ _ (end_with_err_spec ETIMEDOUT c1 B1) (end_with_err_told c1))|].
  intros [] c' e ((E & _ & R & I) & T). change (cf_state c1) with (cf_state c) in I, T. cbn [app].
  split; [by apply ended_call_ok|]. destruct (cf_state c); try done; cbn [unconnected] in I, T.
  all: try (rewrite bool_decide_eq_false_2 by done; split; [done|by apply I]).
  rewrite bool_decide_eq_true_2 by done. split; [done|].
  destruct R as [R|R]; [by left|]. destruct (en_state _ E); [by left|by right].
Qed.

(** ** Joining a server is calm *)

Lemma alloc_confconn_spec r su sc du dc tr c :
  base_ok c →
  wp (alloc_message ECONN_CONF_CONN r su sc du dc tr)
     (λ r c' _, calm c c' ∧ ∀ m, r.2 = Some m → msg_type m = ECONN_CONF_CONN) c.
Proof.
  intros Hc. unfold alloc_message. do 3 wp_step. apply wp_next_alloc. cbn [negb]. wp_step.
  split; [by apply tick_calm|]. by intros m [= <-].
Qed.

Lemma send_confconn_sft_calm url msg c :
  base_ok c → msg_type msg = ECONN_CONF_CONN →
  wp (ccall_send_msg_sft url msg) (λ _ c' _, calm c c') c.
Proof.
  intros Hc Hm. unfold ccall_send_msg_sft. rewrite Hm.
  rewrite bool_decide_eq_true_2 by done. cbn [negb andb].
  destruct url as [url|]; [|calm]. destruct (_ <? _)%nat; [calm|].
  assert (Hh : is_Some (cc_convid_hash (cf c))) by apply ko_hash, bo_keys, Hc.
  calm. by apply calm_of_ptr.
Qed.

Lemma calm_bind_P {A B} (m : CCM A) (f : A → CCM B) (P : A → Prop) c :
  wp m (λ a c' _, calm c c' ∧ P a) c →
  (∀ a c', base_ok c' → P a → wp (f a) (λ _ c'' _, calm c' c'') c') →
  wp (m ≫= f) (λ _ c' _, calm c c') c.
Proof.
  intros Hm Hf. wp_step. eapply wp_mono; [exact Hm|]. intros a c' e [C HP].
  eapply wp_mono; [exact (Hf a c' (cm_ok _ _ C) HP)|]. intros b c'' e' C'.
  exact (calm_trans _ _ _ C C').
Qed.

Lemma send_conf_conn_calm url user cred update c :
  base_ok c → url_ok url →
  wp (ccall_send_conf_conn url user cred update) (λ _ c' _, calm c c') c.
Proof.
  intros Hc Hu. unfold ccall_send_conf_conn. destruct url as [url|]; [|calm]. apply calm_get.
  eapply calm_bind_P; [apply copy_sft_calm; [done|]|]; [intros ->; by apply Hu|].
  intros [err term] c1 H1 _. destruct (negb _); [calm|].
  eapply calm_bind_P; [by apply alloc_confconn_spec|].
  intros [err2 [msg|]] c2 H2 Hm; [|calm]. specialize (Hm msg eq_refl).
  calm. by apply send_confconn_sft_calm.
Qed.

(** ** A dead connection *)

Definition cancelled (t : ccall_timer) (c : conf_call) : conf_call :=
  {| c with cf_timers := tmr_set t None (cf_timers c) |}.

Lemma wp_fire t (Q : () → conf_call → list cc_event → Prop) c :
  is_Some (cf_timers c t) → wp (timer_handler t) Q (cancelled t c) → wp (fire t) Q c.
Proof.
  intros [d Ht] HQ. unfold fire. do 2 wp_step. rewrite bool_decide_eq_false_2 by by rewrite Ht.
  unfold tmr_cancel. do 2 wp_step. exact HQ.
Qed.

Lemma cancelled_ok t c : t ≠ TmrConnect → call_ok c → call_ok (cancelled t c).
Proof.
  intros Hn [B W]. split; [by apply (view_ok c)|]. unfold watch, cancelled in *. cbn in *.
  unfold tmr_set. by rewrite bool_decide_eq_false_2.
Qed.

Lemma wp_call_ecall a f (Q : Z → conf_call → list cc_event → Prop) c :
  cc_ecall (cf c) = Some a → (∀ r, Q r (tick c) [CcEcall a f]) → wp (call_ecall f) Q c.
Proof.
  intros Ha HQ. unfold call_ecall. do 2 wp_step. rewrite Ha. do 2 wp_step. wp_step.
  apply wp_next. wp_step. apply HQ.
Qed.

(** The state with one more ping expected. *)
Definition pinged (c : conf_call) : conf_call :=
  let c' := tick c in {| c' with cf_expected_ping := u32 (cf_expected_ping c + 1) |}.

Lemma keepalive_handler_spec a (Q : () → conf_call → list cc_event → Prop) c :
  cf_state c = CCALL_STATE_ACTIVE → cc_ecall (cf c) = Some a →
  wp (if CCALL_MAX_MISSING_PINGS <? cf_expected_ping (pinged c)
      then ccall_reconnect ECONN_MESSAGE_TIME_UNKNOWN true false
      else tmr_start TmrKeepalive CCALL_KEEPALIVE_TIMEOUT)
     (λ r c' e, Q r c' (CcEcall a (EcPing false) :: e)) (pinged c) →
  wp ccall_keepalive_timeout Q c.
Proof.
  intros Hs Ha HQ. unfold ccall_keepalive_timeout. do 2 wp_step.
  rewrite bool_decide_eq_true_2 by done. cbn [negb].
  rewrite (bool_decide_eq_false_2 (cc_ecall _ = None)) by by rewrite Ha.
  wp_step. apply (wp_call_ecall a); [done|]. intros r. do 4 wp_step. exact HQ.
Qed.

Lemma pinged_ok c :
  base_ok c → cf_expected_ping c <= CCALL_MAX_MISSING_PINGS →
  base_ok (pinged c) ∧ cf_expected_ping (pinged c) = cf_expected_ping c + 1.
Proof.
  intros B Hp. pose proof (bo_ping c B) as Hr. unfold CCALL_MAX_MISSING_PINGS in *.
  assert (Eu : u32 (cf_expected_ping c + 1) = cf_expected_ping c + 1) by (apply uwrap_small; lia).
  split; [|done]. unfold pinged. rewrite Eu. revert B. base_split. unfold CCALL_MAX_MISSING_PINGS. lia.
Qed.

(** The connection of an active call, watched by the keep-alive timer. *)
Record alive (a : nat) (c : conf_call) : Prop := {
  al_ok : call_ok c;
  al_state : cf_state c = CCALL_STATE_ACTIVE;
  al_ecall : cc_ecall (cf c) = Some a;
  al_timer : is_Some (cf_timers c TmrKeepalive);
}.

Lemma keepalive_step a c :
  alive a c → cf_expected_ping c < CCALL_MAX_MISSING_PINGS →
  wp (fire TmrKeepalive) (λ _ c' e,
    alive a c' ∧ cf_expected_ping c' = cf_expected_ping c + 1 ∧
    cf_reconnect_attempts c' = cf_reconnect_attempts c ∧ e = [CcEcall a (EcPing false)]) c.
Proof.
  intros [Hc Hs Ha Ht] Hp. apply wp_fire; [done|]. cbn [timer_handler].
  apply (cancelled_ok TmrKeepalive) in Hc; [|done].
  apply (keepalive_handler_spec a); [done..|].
  destruct (pinged_ok (cancelled TmrKeepalive c) (co_base _ Hc)) as [B Ep].
  { change (cf_expected_ping c <= CCALL_MAX_MISSING_PINGS). lia. }
  set (c1 := pinged _) in *. change (cf_expected_ping (cancelled _ c)) with (cf_expected_ping c) in Ep.
  rewrite (proj2 (Z.ltb_ge _ _)) by lia. apply wp_modify. split; [|done].
  assert (E1 : cf_state c1 = CCALL_STATE_ACTIVE) by done.
  split; [|done|done|done]. split; [by apply (view_ok c1)|].
  change (watched (cf_state c1, cf_timers c1 TmrConnect, cf_expected_ping c1)).
  rewrite E1. split; [done|]. intros _. cbn [snd]. lia.
Qed.

(** What a reconnection leads to: the call asks its server again, or gives up. *)
Definition reconnects (c c' : conf_call) (e : list cc_event) : Prop :=
  call_ok c' ∧
  if cf_reconnect_attempts c <? CCALL_MAX_RECONNECT_ATTEMPTS
  then cf_state c' = CCALL_STATE_CONNSENT ∧ cf_expected_ping c' = 0 ∧
       cf_reconnect_attempts c' = cf_reconnect_attempts c + 1
  else ended c' ∧ CcLeave ICALL_REASON_STILL_ONGOING ECONN_MESSAGE_TIME_UNKNOWN ∈ e.

Lemma reconnect_gives_up notify again c :
  base_ok c → cf_state c ≠ CCALL_STATE_CONNSENT →
  cf_reconnect_attempts c = CCALL_MAX_RECONNECT_ATTEMPTS →
  wp (ccall_reconnect ECONN_MESSAGE_TIME_UNKNOWN notify again) (λ _ c' e,
    ended c' ∧ CcLeave ICALL_REASON_STILL_ONGOING ECONN_MESSAGE_TIME_UNKNOWN ∈ e) c.
Proof.
  intros Hc Hs Ha. unfold ccall_reconnect. do 2 wp_step. rewrite bool_decide_eq_false_2 by done.
  wp_step. eapply wp_mono; [by apply (calm_store _ OpGetDecryptStates)|]. intros r c1 e1 [B1 _ _].
  rewrite Ha. change (_ <=? _) with true. cbn iota. wp_step.
  eapply wp_mono; [by apply end_with_err_spec|]. intros [] c2 e2 (E2 & _). wp_step.
  split; [done|]. rewrite !elem_of_app. do 3 right. by left.
Qed.

Lemma at_state st c w i :
  at_watch (w, i) c →
  wp (set_state st) (λ _ c' _, at_watch (enter st w, enter_id st i) c') c.
Proof.
  intros [B E]. pose proof (set_state_at st c B) as Hw.
  pose proof (f_equal fst E) as E1. pose proof (f_equal snd E) as E2. cbn [fst snd] in E1, E2.
  by rewrite E1, E2 in Hw.
Qed.

(** The body of a reconnection, once it is decided. *)
Lemma reconnect_body (notify again : bool) c w i :
  at_watch (w, i) c →
  wp ((if notify then
         umodify (λ c, {| c with cf_inc_reconnects := true;
           cf_metrics := (let m := cf_metrics c in
             {| m with mt_reconnects_attempted := u32 (mt_reconnects_attempted m + 1) |}) |})
       else mret ());;
      with_users (userlist_incall_clear true again);;
      umodify (λ c, {| c with cf_videol := [] |});;
      set_state CCALL_STATE_CONNSENT;;
      c ← uget;
      (match cf_sft_url c with
       | None => mret ()
       | Some url =>
         let sfti := cf_cfg c ≫= λ cfg, ccall_get_sft_info cfg (Some url) in
         _ ← ccall_send_conf_conn (Some url) (srv_username <$> sfti) (srv_credential <$> sfti) true;
         mret ()
       end);;
      uemit (if notify
             then [CcQuality "SFT" "SFT" {| st_rtt := 0; st_lost_tx := ICALL_RECONNECTING;
                                            st_lost_rx := ICALL_RECONNECTING |}]
             else []))
     (λ _ c' _, at_watch (enter CCALL_STATE_CONNSENT w, i) c') c.
Proof.
  intros H.
  eapply at_bind; [apply at_calm; [exact H|intros; destruct notify; by calm]|]. intros _ c1 H1.
  eapply at_bind; [apply at_calm; [exact H1|intros; by calm]|]. intros _ c2 H2.
  eapply at_bind; [apply at_calm; [exact H2|intros; by calm]|]. intros _ c3 H3.
  eapply at_bind; [apply at_state; exact H3|]. intros _ c4 H4. apply at_get.
  eapply at_bind; [apply at_calm; [exact H4|]|]; [|intros _ c5 H5; apply at_calm; [done|intros; by calm]].
  intros B. pose proof (bo_sft_url c4 B) as Hu. destruct (cf_sft_url c4) as [url|]; cbv zeta; calm.
  by apply send_conf_conn_calm.
Qed.

Lemma reconnect_joins notify again c :
  base_ok c → cf_state c ≠ CCALL_STATE_CONNSENT →
  cf_reconnect_attempts c < CCALL_MAX_RECONNECT_ATTEMPTS →
  wp (ccall_reconnect ECONN_MESSAGE_TIME_UNKNOWN notify again) (λ _ c' _,
    call_ok c' ∧ cf_state c' = CCALL_STATE_CONNSENT ∧ cf_expected_ping c' = 0 ∧
    cf_reconnect_attempts c' = cf_reconnect_attempts c + 1) c.
Proof.
  intros Hc Hs Ha. pose proof (bo_attempts c Hc) as Hr. unfold ccall_reconnect. do 2 wp_step.
  rewrite bool_decide_eq_false_2 by done.
  wp_step. eapply wp_mono; [by apply (calm_store _ OpGetDecryptStates)|]. intros r c1 e1 [B1 W1 I1].
  rewrite (proj2 (Z.leb_gt _ _)) by lia. do 2 wp_step.
  match goal with |- wp _ _ ?x => set (c2 := x) end.
  assert (Ea : cf_reconnect_attempts c2 = cf_reconnect_attempts c + 1).
  { injection I1 as _ _ _ _ _ _ E. unfold c2. cbn. rewrite E. unfold CCALL_MAX_RECONNECT_ATTEMPTS in *.
    apply uwrap_small. lia. }
  assert (B2 : base_ok c2).
  { revert B1. base_split; change (u32 _) with (cf_reconnect_attempts c2); lia. }
  assert (P2 : cf_expected_ping c2 = 0) by done. clearbody c2.
  eapply wp_mono; [by apply (reconnect_body notify again c2 (watch c2) (ident c2))|].
  intros [] c3 e3 [B3 E3].
  pose proof (f_equal fst E3) as W3. pose proof (f_equal (λ w, w.2.2.2) E3) as A3.
  cbn in W3, A3. injection W3 as E31 E32 E33. split_and!; [split; [done|]|done|congruence|congruence].
  unfold watch. rewrite E31, E32. by split.
Qed.

(** [n] expiries of the keep-alive timer, with nothing else happening. *)
Fixpoint silence (n : nat) : CCM () :=
  match n with
  | O => mret ()
  | S n => fire TmrKeepalive;; silence n
  end.

Lemma silence_alive a n : ∀ c,
  alive a c → cf_expected_ping c + Z.of_nat n <= CCALL_MAX_MISSING_PINGS →
  wp (silence n) (λ _ c' _,
    alive a c' ∧ cf_expected_ping c' = cf_expected_ping c + Z.of_nat n ∧
    cf_reconnect_attempts c' = cf_reconnect_attempts c) c.
Proof.
  induction n as [|n IH]; intros c Hc Hn; cbn [silence]; [wp_step; split_and!; [done|lia|done]|].
  wp_step. eapply wp_mono; [apply (keepalive_step a); [done|lia]|].
  intros [] c1 e1 (H1 & E1 & E2 & _). eapply wp_mono; [apply IH; [done|lia]|].
  intros [] c2 e2 (H2 & E3 & E4). split_and!; [done|lia|congruence].
Qed.

Lemma silence_last a c :
  alive a c → cf_expected_ping c = CCALL_MAX_MISSING_PINGS →
  wp (fire TmrKeepalive) (λ _ c' e, reconnects c c' e) c.
Proof.
  intros [Hc Hs Ha Ht] Hp. apply wp_fire; [done|]. cbn [timer_handler].
  apply (cancelled_ok TmrKeepalive) in Hc; [|done].
  apply (keepalive_handler_spec a); [done..|].
  destruct (pinged_ok (cancelled TmrKeepalive c) (co_base _ Hc)) as [B Ep].
  { change (cf_expected_ping c <= CCALL_MAX_MISSING_PINGS). lia. }
  set (c1 := pinged _) in *. change (cf_expected_ping (cancelled _ c)) with (cf_expected_ping c) in Ep.
  rewrite (proj2 (Z.ltb_lt _ _)) by lia. unfold reconnects.
  change (cf_reconnect_attempts c) with (cf_reconnect_attempts c1).
  change (cf_state c) with (cf_state c1) in Hs. clearbody c1. pose proof (bo_attempts c1 B) as Hr.
  destruct (Z.ltb_spec (cf_reconnect_attempts c1) CCALL_MAX_RECONNECT_ATTEMPTS).
  - eapply wp_mono; [apply reconnect_joins; [done|by rewrite Hs|done]|]. cbn beta. tauto.
  - eapply wp_mono; [apply reconnect_gives_up; [done|by rewrite Hs|lia]|].
    intros [] c2 e2 [E2 L2]. split; [by apply ended_call_ok|]. split; [done|by right].
Qed.

(** a dead connection is noticed: an active call that hears no answer to its
    pings sends one every five seconds and, when the fifth expiry of the
    keep-alive timer in a row finds none, asks its server to connect again, at
    most twice in a row; the next time it ends and tells the application that the
    call goes on without it. *)
Theorem dead_connection_noticed a c :
  alive a c → cf_expected_ping c = 0 →
  wp (silence 4;; fire TmrKeepalive) (λ _ c' e, reconnects c c' e) c.
Proof.
  intros Hc Hp. wp_step. eapply wp_mono; [apply (silence_alive a 4); [done|by rewrite Hp]|].
  intros [] c1 e1 (H1 & E1 & E2). eapply wp_mono; [apply (silence_last a); [done|by rewrite E1, Hp]|].
  intros [] c2 e2 [H2 R2]. rewrite E2 in R2. split; [done|]. case_match; [done|].
  destruct R2 as [E L2]. split; [done|]. apply elem_of_app. by right.
Qed.

(** ** A configuration without servers *)

Lemma stop_others_calm c : base_ok c → wp ccall_stop_others_ringing (λ _ c' _, calm c c') c.
Proof.
  intros. unfold ccall_stop_others_ringing. calm. by apply stop_others_ringing_i_calm.
Qed.

Lemma cfg_out_enters je d c :
  base_ok c →
  wp (cfg_out je 0 d) (λ _ c' _,
    cf_state c' = CCALL_STATE_CONNSENT ∧
    cf_timers c' TmrConnect = Some CCALL_CONNECT_TIMEOUT) c.
Proof.
  intros Hc. apply (wp_mono _ (λ _ c' _,
    at_watch (enter CCALL_STATE_CONNSENT (watch c), ident c) c')); [|by intros [] c' e [_ [= -> -> _ _]]].
  unfold cfg_out. change (0 =? 0) with true. cbn iota.
  eapply at_bind; [|intros _ c1 H1; destruct d; apply at_calm; [done|intros; by calm|done|intros; by calm]].
  eapply at_bind; [by apply at_state|]. intros _ c1 H1.
  eapply at_bind; [apply at_calm; [exact H1|intros; by calm]|]. intros _ c2 H2.
  apply at_calm; [done|]. intros. by apply stop_others_calm.
Qed.

(** a configuration without servers, or one that arrives after the call has
    stopped waiting for it (because it has ended, say), does not leave the call
    alone: the first ends the call and tells the application of an error, the
    second is to be ignored, but in both cases the handler goes on as if a server
    had been asked, and the call waits for an answer of a server. *)
Theorem useless_config_reenters je c :
  call_ok c → cf_je c = Some je →
  cfg_servers cfg_sftservers (cf_cfg c) = None ∨
  (cf_state c ≠ CCALL_STATE_WAITCONFIG ∧ cf_state c ≠ CCALL_STATE_WAITCONFIG_OUTGOING) →
  wp (config_update_handler (je_addr je)) (λ _ c' e,
    cf_state c' = CCALL_STATE_CONNSENT ∧
    cf_timers c' TmrConnect = Some CCALL_CONNECT_TIMEOUT ∧
    (cfg_servers cfg_sftservers (cf_cfg c) = None → unconnected (cf_state c) = true →
       CcLeave ICALL_REASON_ERROR ECONN_MESSAGE_TIME_UNKNOWN ∈ e)) c.
Proof.
  intros [Hc _] Hj Hs. unfold config_update_handler. do 2 wp_step. rewrite Hj, Nat.eqb_refl.
  cbn [negb]. destruct (cfg_servers _ _) as [urlv|] eqn:Hcfg.
  - destruct Hs as [Hs|[Hs1 Hs2]]; [done|]. destruct (cf_cfg c) as [cfg|]; [|done].
    pose proof (cfg_out_enters je true c Hc) as Hrun.
    destruct (cf_state c); try done; (eapply wp_mono; [exact Hrun|]); intros [] c' e [? ?]; by split_and!.
  - assert (Hrun : wp (ccall_end_with_err ENOTSUP;; cfg_out je 0 true) (λ _ c' e,
      cf_state c' = CCALL_STATE_CONNSENT ∧
      cf_timers c' TmrConnect = Some CCALL_CONNECT_TIMEOUT ∧
      (@None (list zapi_ice_server) = None → unconnected (cf_state c) = true →
         CcLeave ICALL_REASON_ERROR ECONN_MESSAGE_TIME_UNKNOWN ∈ e)) c); [|by destruct (cf_cfg c)].
    wp_step. eapply wp_mono; [by apply end_with_err_spec|]. intros [] c1 e1 ([B1 _] & Lv & _).
    eapply wp_mono; [by apply cfg_out_enters|]. intros [] c2 e2 [S2 T2]. split_and!; [done..|].
    intros _ Hu. apply elem_of_app. left. by apply Lv.
Qed.
End Props.
