(* ===== verification/CcallAgree.v ===== *)
(** * Agreement on which call it is

    Two clients may start a conference at the same time.  Each announces its call
    by CONFSTART and CONFCHECK, and a client that hears of an earlier call gives
    up its own and joins that one: clients that have heard of the same calls, in
    whatever order, end up with the same start, secret and server. *)

From S2P Require Import Prelude LibRe EconnMsg UserHash AudioLevel UserList UserListSpec Keystore KeystoreSpec CcallKeys CcallKeysInv CcallSft Icall Ccall CcallOps CcallMsg CcallSpec CcallInv CcallSafe.

(** ** The earliest call *)

Definition earlier (i j : call_id) : bool :=
  (id_timestamp i <? id_timestamp j)
  || (id_timestamp i =? id_timestamp j) && (id_seqno i <? id_seqno j).

(** A client that knows no call, or hears of an earlier one, takes it. *)
Definition adopt (i j : call_id) : call_id :=
  if (id_timestamp i =? 0) || earlier j i then j else i.

(** Timestamps and sequence numbers of calls, for which [ts_cmp] compares without
    overflow. *)
Definition id_ok (i : call_id) : Prop := 0 < id_timestamp i ∧ 0 <= id_seqno i < 2 ^ 31.

(** The calls a client knows of. *)
Definition known (i : call_id) : list call_id := if id_timestamp i =? 0 then [] else [i].

Definition earliest (i : call_id) (l : list call_id) : Prop :=
  i ∈ l ∧ ∀ j, j ∈ l → earlier j i = false.

Lemma earlier_total i j :
  earlier i j = false → earlier j i = false →
  (id_timestamp i, id_seqno i) = (id_timestamp j, id_seqno j).
Proof. unfold earlier. intros. f_equal; lia. Qed.

Lemma earlier_trans i j k :
  earlier i j = false → earlier j k = false → earlier i k = false.
Proof. unfold earlier. lia. Qed.

Lemma adopt_earliest i j : 0 <= id_timestamp i → id_ok j → earliest (adopt i j) (known i ++ [j]).
Proof.
  intros Hi [Hj _]. unfold earliest, adopt, known, earlier.
  destruct (Z.eqb_spec (id_timestamp i) 0) as [E|E]; cbn [orb app].
  - split; [by left|]. intros k ->%list_elem_of_singleton. lia.
  - case_match; (split; [first [by left | by right; left]|]);
      intros k [->| ->%list_elem_of_singleton]%elem_of_cons; lia.
Qed.

Lemma foldl_adopt js : ∀ i,
  0 <= id_timestamp i → Forall id_ok js → known i ++ js ≠ [] →
  earliest (foldl adopt i js) (known i ++ js).
Proof.
  induction js as [|j js IH]; intros i Hi Hjs Hne; cbn [foldl].
  - unfold known in *. case_match; [done|]. split; [by left|].
    intros j ->%list_elem_of_singleton. unfold earlier. lia.
  - apply Forall_cons in Hjs as [Hj Hjs]. destruct (adopt_earliest i j Hi Hj) as [Ha Hb].
    assert (Hts : 0 < id_timestamp (adopt i j)).
    { unfold adopt. destruct Hj. destruct (Z.eqb_spec (id_timestamp i) 0); [done|]. cbn.
      case_match; lia. }
    assert (Ek : known (adopt i j) = [adopt i j]).
    { unfold known. by rewrite (proj2 (Z.eqb_neq _ _)) by lia. }
    destruct (IH (adopt i j)) as [Hc Hd]; [lia|done|by rewrite Ek|]. rewrite Ek in Hc, Hd.
    change (j :: js) with ([j] ++ js). rewrite (assoc_L (++)). split.
    + apply elem_of_app. apply elem_of_app in Hc as [->%list_elem_of_singleton|Hc]; auto.
    + intros k [Hk|Hk]%elem_of_app.
      * eapply earlier_trans; [by apply Hb|]. apply Hd. by left.
      * apply Hd. by right.
Qed.

(** Two lists with the same calls have the same earliest one, when the start
    identifies a call. *)
Lemma earliest_unique i j l l' :
  (∀ k, k ∈ l ↔ k ∈ l') →
  (∀ k k', k ∈ l → k' ∈ l →
     (id_timestamp k, id_seqno k) = (id_timestamp k', id_seqno k') → k = k') →
  earliest i l → earliest j l' → i = j.
Proof.
  intros Hl Hu [Hi Mi] [Hj Mj]. apply Hu; [done|by apply Hl|].
  apply earlier_total; [apply Mj; by apply Hl|apply Mi; by apply Hl].
Qed.

(** ** The code computes it *)

(** The call a message announces. *)
Definition announced (cs : confstart) : call_id := {|
  id_timestamp := cs_timestamp cs; id_seqno := cs_seqno cs; id_secret := cs_secret cs;
  id_sft := (λ u, strip u ++ "/")%string <$> cs_sft_url cs; id_tuple := cs_sft_tuple cs |}.

Lemma ts_cmp_spec i j :
  (id_timestamp i ≠ 0 → id_ok i) → id_ok j →
  (0 <? ts_cmp (id_timestamp i) (id_seqno i) (id_timestamp j) (id_seqno j)) =
  ((id_timestamp i =? 0) || earlier j i).
Proof.
  intros Hi [Hj1 Hj2]. unfold ts_cmp, earlier.
  destruct (Z.eqb_spec (id_timestamp i) 0) as [E|E]; [done|]. destruct (Hi E) as [Hi1 Hi2].
  cbn [orb]. destruct (Z.ltb_spec (id_timestamp j) (id_timestamp i)); [done|]. cbn [orb].
  destruct (Z.ltb_spec (id_timestamp i) (id_timestamp j)); [lia|].
  rewrite (proj2 (Z.eqb_eq _ _)) by lia. cbn [andb]. unfold s32.
  destruct (Z.ltb_spec (id_seqno j) (id_seqno i)).
  - rewrite uwrap_small by lia. rewrite (proj2 (Z.ltb_lt _ (2 ^ 31))) by lia. lia.
  - destruct (Z.eq_dec (id_seqno i) (id_seqno j)) as [->|Hn]; [by rewrite Z.sub_diag|].
    assert (u32 (id_seqno i - id_seqno j) = id_seqno i - id_seqno j + 2 ^ 32) as ->.
    { unfold uwrap. rewrite <- (Z.mod_add _ 1) by lia. rewrite Z.mod_small; lia. }
    case_match; lia.
Qed.

Section Agree.
Context `{LS : LibReSpec, SO : Sodium, SL : !SodiumLen SO, HS : !SodiumSpec SO ab sha, UE : UlEnv,
          KE : KsEnv, KL : !KsEnvLen KE, CE : CkEnv, CC : CcEnv, EO : !CallEnvOk}.

(** Steps that stay with a call. *)
Record with_call (i : call_id) (c : conf_call) : Prop := {
  wc_ok : call_ok c;
  wc_id : call_of c = i;
}.
Abbreviation wp_with m i c := (wp m (λ _ c' _, with_call i c') c).

Lemma with_bind {A B} (m : CCM A) (f : A → CCM B) i c :
  wp_with m i c → (∀ a c', with_call i c' → wp_with (f a) i c') → wp_with (m ≫= f) i c.
Proof. intros Hm Hf. wp_step. eapply wp_mono; [exact Hm|]. intros a c' e. by apply Hf. Qed.

Lemma with_get {B} (f : conf_call → CCM B) i c : wp_with (f c) i c → wp_with (uget ≫= f) i c.
Proof. intros Hf. wp_step. by wp_step. Qed.

Lemma with_calm {A} (m : CCM A) i c :
  with_call i c → (base_ok c → wp m (λ _ c' _, calm c c') c) → wp_with m i c.
Proof.
  intros [H E] Hm. eapply wp_mono; [apply Hm, H|]. intros a c' e C.
  split; [by eapply calm_call_ok|]. pose proof (f_equal fst (cm_ident _ _ C)) as E'.
  cbn [ident fst] in E'. congruence.
Qed.

Lemma with_state st i c :
  with_call i c →
  match st with
  | CCALL_STATE_IDLE | CCALL_STATE_SETUPRECV | CCALL_STATE_WAITNETWORK => False
  | _ => True
  end → wp_with (set_state st) i c.
Proof.
  intros [H E] Hst. eapply wp_mono; [apply set_state_ok; [apply H|by destruct st]|].
  intros [] c' e (H' & _ & I). split; [done|]. apply (f_equal fst) in I. cbn [ident fst] in I.
  rewrite I. by destruct st.
Qed.

Ltac with_step :=
  lazymatch goal with
  | |- wp (uget ≫= _) _ _ => apply with_get
  | |- wp (_ ≫= _) _ _ => apply with_bind
  | |- ∀ _, _ => intro
  | |- wp (set_state _) _ _ => by apply with_state
  | |- wp (match ?x with _ => _ end) _ _ => destruct x
  end.
Ltac with_auto := repeat first [with_step | apply with_calm; [assumption|intros; solve [calm]]].

Lemma rejoin_with sftl i c :
  with_call i c → Forall (λ u, u ≠ ""%string) sftl → wp_with (rejoin sftl) i c.
Proof. intros. unfold rejoin, ccall_req_cfg_join. with_auto. Qed.

Lemma str_dup_if_spec s c :
  base_ok c →
  wp (str_dup_if (bool_decide (is_Some s)) s) (λ r c' _, calm c c' ∧ r = (0, s)) c.
Proof.
  intros Hc. destruct s as [s|]; [|rewrite bool_decide_eq_false_2 by (by intros []); cbn [str_dup_if]; by wp_step].
  rewrite bool_decide_eq_true_2 by by eexists.
  cbn [str_dup_if str_dup]. wp_step. apply wp_next_alloc. wp_step.
  split; [by apply tick_calm|done].
Qed.

Lemma set_secret_with secret i c :
  with_call i c → (4 ≤ length secret)%nat →
  wp_with (ccall_set_secret secret) {| i with id_secret := secret |} c.
Proof.
  intros [H E] Hs. eapply wp_mono; [apply set_secret_spec; [apply H|done]|].
  intros r c' e [B W I]. split; [split; [done|rewrite W; apply H]|].
  apply (f_equal fst) in I. cbn [ident fst] in I. rewrite I, <- E. done.
Qed.

Lemma adopt_call_spec cs c :
  call_ok c → confstart_ok cs →
  wp (adopt_call cs) (λ err c' _, err = 0 ∧ with_call (announced cs) c') c.
Proof.
  intros Hc [(u & Eu & Hu) Hs _]. unfold adopt_call. do 2 wp_step. wp_step.
  eapply wp_of_ptr; [exact Eu|]. wp_step. unfold copy_sft'. wp_step. apply wp_next_alloc.
  eapply wp_of_ptr; [by apply copy_sft_spec|]. cbv beta iota. do 2 wp_step.
  match goal with |- wp _ _ ?x => set (c1 := x) end.
  assert (B1 : base_ok c1).
  { destruct Hc as [B _]. revert B. base_split. by destruct (strip u). }
  wp_step. eapply wp_mono; [by apply str_dup_if_spec|]. intros [err tuple] c2 e2 [C2 [= -> ->]].
  cbn [negb]. change (negb (0 =? 0)) with false. cbn iota. do 2 wp_step.
  match goal with |- wp _ _ ?x => set (c3 := x) end.
  assert (W3 : with_call {| id_timestamp := cs_timestamp cs; id_seqno := cs_seqno cs;
    id_secret := cf_secret c; id_sft := Some (strip u ++ "/")%string; id_tuple := cs_sft_tuple cs |} c3).
  { pose proof (cm_ident _ _ C2) as [= _ _ E2 E3 _ _ _]. split.
    - split; [apply (view_ok c2); [done|apply C2]|]. change (watch c3) with (watch c2).
      rewrite (cm_watch _ _ C2). apply Hc.
    - unfold call_of. cbn. by rewrite E2, E3. }
  clearbody c3. wp_step. eapply wp_mono; [apply with_calm; [exact W3|intros; by calm]|].
  intros r4 c4 e4 W4. cbn beta in W4. wp_step. eapply wp_mono; [apply (set_secret_with _ _ _ W4 Hs)|]. cbn [id_timestamp id_seqno id_sft id_tuple].
  intros r5 c5 e5 W5. wp_step. eapply wp_mono; [apply with_calm; [exact W5|intros; by calm]|].
  intros r6 c6 e6 W6. wp_step. eapply wp_mono; [apply with_calm; [exact W6|intros; by calm]|].
  intros r7 c7 e7 W7. wp_step. split; [done|]. unfold announced. by rewrite Eu.
Qed.

(** A fresh announcement, taken note of: the call is the one it was or the one
    announced, whichever is earlier. *)
Lemma confstart_spec uid cid msg cs c :
  call_ok c → confstart_of msg = Some (cs, true) → confstart_ok cs → id_ok (announced cs) →
  (cf_sft_timestamp c ≠ 0 → id_ok (call_of c)) →
  wp_with (ccall_handle_confstart_check (Some uid) (Some cid) msg)
          (adopt (call_of c) (announced cs)) c.
Proof.
  intros Hc Em Hcs Hid Hown. unfold ccall_handle_confstart_check. rewrite Em. cbn [negb].
  apply with_get. pose proof (ts_cmp_spec (call_of c) (announced cs) Hown Hid) as Hcmp.
  cbn [call_of announced id_timestamp id_seqno] in Hcmp.
  unfold adopt. change (id_timestamp (call_of c)) with (cf_sft_timestamp c). rewrite <- Hcmp.
  wp_step. apply (wp_mono _ (λ err c' _, err = 0 ∧ with_call
    (if 0 <? ts_cmp (cf_sft_timestamp c) (cf_sft_seqno c) (cs_timestamp cs) (cs_seqno cs)
     then announced cs else call_of c) c')).
  { case_match; [by apply adopt_call_spec|]. wp_step. by split. }
  generalize (ts_cmp (cf_sft_timestamp c) (cf_sft_seqno c) (cs_timestamp cs) (cs_seqno cs)).
  intros cmp err c1 e1 [-> W1]. change (negb (0 =? 0)) with false. cbv iota zeta.
  pose proof (sk_sftl cs Hcs) as Hsft. revert W1.
  generalize (if 0 <? cmp then announced cs else call_of c). intros i W1.
  destruct (cf_state c); with_auto; by apply rejoin_with.
Qed.

(** *** Any number of announcements *)

(** A sender and its message, which announces a call, is not too old, and, when it
    is a CONFCHECK, is a response. *)
Definition announces (m : string * string * econn_message) (cs : confstart) : Prop :=
  confstart_of m.2 = Some (cs, true) ∧ confstart_ok cs ∧ id_ok (announced cs).

Fixpoint recv_all (ms : list (string * string * econn_message)) : CCM () :=
  match ms with
  | [] => mret ()
  | (uid, cid, msg) :: ms => _ ← ccall_msg_recv (Some uid) (Some cid) msg; recv_all ms
  end.

Lemma announces_recv uid cid msg cs c :
  announces (uid, cid, msg) cs →
  ccall_msg_recv (Some uid) (Some cid) msg c
  = ccall_handle_confstart_check (Some uid) (Some cid) msg c.
Proof.
  intros (E & _ & _). cbn in E. unfold ccall_msg_recv, mbind, MU_bind, uget.
  unfold confstart_of in E. destruct (msg_type msg); try done; by destruct (ccall_handle_confstart_check _ _ _ _) as [[[? ?] ?]|].
Qed.

Lemma recv_all_spec ms css : ∀ c,
  call_ok c → Forall2 announces ms css → (cf_sft_timestamp c ≠ 0 → id_ok (call_of c)) →
  wp_with (recv_all ms) (foldl adopt (call_of c) (announced <$> css)) c.
Proof.
  revert css. induction ms as [|[[uid cid] msg] ms IH]; intros css c Hc Hms Hown.
  { apply Forall2_nil_inv_l in Hms as ->. cbn [recv_all fmap list_fmap foldl]. by wp_step. }
  apply Forall2_cons_inv_l in Hms as (cs & css' & Hm & Hms & ->). cbn [recv_all fmap list_fmap foldl].
  pose proof Hm as (Em & Hcs & Hid). wp_step.
  eapply (wp_mono _ (λ _ c' _, with_call (adopt (call_of c) (announced cs)) c')).
  { unfold wp. rewrite (announces_recv _ _ _ _ _ Hm). by apply confstart_spec. }
  intros r c1 e1 [H1 E1]. rewrite <- E1. apply IH; [done..|].
  intros Hn. rewrite E1. change (id_timestamp (call_of c1) ≠ 0) in Hn. rewrite E1 in Hn.
  unfold adopt in *. case_match; [done|]. by apply Hown.
Qed.

(** A client and the announcements it receives. *)
Record hears (c : conf_call) (ms : list (string * string * econn_message))
    (css : list confstart) : Prop := {
  hr_ok : call_ok c;
  hr_own : cf_sft_timestamp c ≠ 0 → id_ok (call_of c);
  hr_msgs : Forall2 announces ms css;
}.

(** The calls it has heard of afterwards. *)
Definition heard (c : conf_call) (css : list confstart) : list call_id :=
  known (call_of c) ++ (announced <$> css).

Lemma hears_earliest c ms css :
  hears c ms css → heard c css ≠ [] →
  wp (recv_all ms) (λ _ c' _, earliest (call_of c') (heard c css)) c.
Proof.
  intros [Hc Hown Hms] Hne. eapply wp_mono; [by apply (recv_all_spec ms css)|].
  intros [] c' e [_ E]. rewrite E. apply foldl_adopt; [| |done].
  - destruct (decide (cf_sft_timestamp c = 0)) as [Ez|Hn]; [by cbn; rewrite Ez|].
    destruct (Hown Hn) as [? _]. lia.
  - apply Forall_fmap. clear -Hms. induction Hms as [|m cs ms css (_ & _ & Hid)]; by constructor.
Qed.

(** C22: clients agree on the call: two clients that have heard of the same calls,
    the ones they started themselves among them, in whatever states they are and
    whatever order the announcements (CONFSTART, and CONFCHECK from the key
    generator, less than two minutes old) arrive in, end up with the same start,
    the same secret and the same server: those of the call that was started
    first.  A call is identified by its start, and sequence numbers are less than
    half their range apart. *)
Theorem clients_agree_on_call cA cB msA msB cssA cssB :
  hears cA msA cssA → hears cB msB cssB →
  heard cA cssA ≠ [] → (∀ i, i ∈ heard cA cssA ↔ i ∈ heard cB cssB) →
  (∀ i j, i ∈ heard cA cssA → j ∈ heard cA cssA →
     (id_timestamp i, id_seqno i) = (id_timestamp j, id_seqno j) → i = j) →
  wp (recv_all msA) (λ _ cA' _,
    wp (recv_all msB) (λ _ cB' _,
      call_of cA' = call_of cB' ∧ earliest (call_of cA') (heard cA cssA)) cB) cA.
Proof.
  intros HA HB Hne Hsame Huniq. eapply wp_mono; [by eapply hears_earliest|]. intros [] cA' eA EA.
  eapply wp_mono.
  - eapply hears_earliest; [exact HB|]. destruct (heard cA cssA) as [|i l]; [done|].
    intros E. specialize (proj1 (Hsame i)). rewrite E. intros Hi.
    by apply not_elem_of_nil in Hi; [|left].
  - intros [] cB' eB EB. split; [|done]. by eapply earliest_unique.
Qed.

(** ** An incoming call *)

Lemma rings_spec c msg uid :
  0 <= msg_age msg < CCALL_CONFSTART_TIMEOUT_S →
  rings c msg uid = true ↔
    resp msg = false ∧ msg_type msg = ECONN_CONF_START ∧ msg_age msg < 30 ∧
    strcaseeq (Some uid) (ui_userid_real (ul_self (cf_userl c))) = false ∧
    cf_meeting_is_set c = false.
Proof.
  intros Ha. unfold rings, econn_message_isrequest, CCALL_SHOULD_RING_TIMEOUT, CCALL_CONFSTART_TIMEOUT_S in *.
  rewrite uwrap_small by lia. rewrite !andb_true_iff, !negb_true_iff, bool_decide_eq_true, Z.ltb_lt.
  split; [intros ((((? & ?) & ?) & ?) & ?)|intros (? & ? & ? & ? & ?)]; split_and!; done || lia.
Qed.

(** What an incoming call leads to. *)
Definition comes_in (msg : econn_message) (uid cid : string) (should_ring : bool)
    (err : Z) (c' : conf_call) (e : list cc_event) : Prop :=
  err = 0 ∧ call_ok c' ∧ cf_state c' = CCALL_STATE_INCOMING ∧
  CcStart (msg_time msg) uid cid should_ring ∈ e ∧
  (should_ring = true → cf_timers c' TmrRing = Some CCALL_RINGER_TIMEOUT).

Lemma incoming_body msg uid cid (b : bool) cs cmp c :
  call_ok c → Forall (λ u, u ≠ ""%string) (cs_sftl cs) →
  wp (umodify (λ c, {| c with cf_is_ringing := b |});;
      set_state CCALL_STATE_INCOMING;;
      uemit [CcStart (msg_time msg) uid cid b];;
      (if b then tmr_start TmrRing CCALL_RINGER_TIMEOUT else mret ());;
      (if 0 <=? cmp then umodify (λ c, {| c with cf_sftl := cs_sftl cs |}) else mret ());;
      mret 0) (comes_in msg uid cid b) c.
Proof.
  intros [B W] Hs. do 2 wp_step. wp_step.
  eapply wp_mono; [apply set_state_ok; [by apply (view_ok c)|done]|].
  intros [] c1 e1 (H1 & S1 & _). do 3 wp_step.
  set (c2 := if b then {| c1 with cf_timers := tmr_set TmrRing (Some CCALL_RINGER_TIMEOUT)
                                                   (cf_timers c1) |} else c1).
  assert (H2 : call_ok c2).
  { destruct H1 as [B1 W1]. destruct b; [|done]. split; [by apply (view_ok c1)|done]. }
  assert (S2 : cf_state c2 = CCALL_STATE_INCOMING) by by destruct b.
  assert (T2 : b = true → cf_timers c2 TmrRing = Some CCALL_RINGER_TIMEOUT) by by intros ->.
  apply (wp_mono _ (λ _ c' _, c' = c2)); [by destruct b|]. intros [] c3 e3 ->. clearbody c2.
  assert (Hin : ∀ e e' : list cc_event, CcStart (msg_time msg) uid cid b ∈ [] ++ e ++ [CcStart (msg_time msg) uid cid b] ++ e').
  { intros. rewrite !elem_of_app. right. right. left. by left. }
  wp_step. destruct (0 <=? cmp); do 2 wp_step; split_and!; try done.
  destruct H2 as [B2 W2]. split; [by revert B2; base_split|done].
Qed.

(** a call that is announced to an idle client comes in: the application is
    told, and it rings exactly when the announcement is a CONFSTART request of
    another user that is less than 30 seconds old and the call is not a meeting;
    the ringing is bounded by a timer. *)
Theorem incoming_call_rings uid cid msg cs c :
  call_ok c → cf_state c = CCALL_STATE_IDLE → announces (uid, cid, msg) cs →
  0 <= msg_age msg < CCALL_CONFSTART_TIMEOUT_S →
  ∃ should_ring,
  (should_ring = true ↔
    resp msg = false ∧ msg_type msg = ECONN_CONF_START ∧ msg_age msg < 30 ∧
    strcaseeq (Some uid) (ui_userid_real (ul_self (cf_userl c))) = false ∧
    cf_meeting_is_set c = false) ∧
  wp (ccall_msg_recv (Some uid) (Some cid) msg) (comes_in msg uid cid should_ring) c.
Proof.
  intros Hc Hs Hm Ha. exists (rings c msg uid). split; [by apply rings_spec|].
  unfold wp. rewrite (announces_recv _ _ _ _ _ Hm).
  match goal with |- match ?m c with _ => _ end =>
    change (wp m (comes_in msg uid cid (rings c msg uid)) c) end.
  destruct Hm as (Em & Hcs & _). cbn in Em. pose proof (sk_sftl cs Hcs) as Hsft.
  unfold ccall_handle_confstart_check. rewrite Em. cbn [negb]. do 2 wp_step. rewrite Hs.
  wp_step. apply (wp_mono _ (λ err c' _, err = 0 ∧ call_ok c')).
  { case_match; [|by wp_step]. eapply wp_mono; [by apply adopt_call_spec|]. by intros ? ? ? [? [? _]]. }
  intros err c1 e1 [-> H1]. change (negb (0 =? 0)) with false. cbv iota zeta.
  eapply wp_mono; [by apply incoming_body|]. intros r c2 e2 (? & ? & ? & Hin & ?). split_and!; try done.
  rewrite !elem_of_app. by right; right.
Qed.
End Agree.
