(* ===== verification/CcallWire.v ===== *)
(** * Texts received by a conference call

    The decoder of [EconnFmt] in front of the conference call: which of the
    conditions under which the call is safe hold for every text, and what
    happens where the decoder lets something through. *)

From stdpp Require Import gmap.
From S2P Require Import Prelude LibRe LibReJson Jzon EconnMsg EconnFmt EconnFmtSpec EconnFmtProps UserHash AudioLevel UserList Keystore KeystoreSpec CcallKeys CcallKeysInv CcallSft Icall Ccall CcallOps CcallMsg CcallSpec CcallInv CcallSafe.

#[local] Open Scope string_scope.
#[local] Open Scope Z_scope.

(** What the decoder does not check: URLs are not empty, an announcement has a
    URL and a secret of at least four bytes. *)
Record urls_set (m : econn_message) : Prop := {
  us_confstart : ∀ cs b, confstart_of m = Some (cs, b) → confstart_ok cs;
  us_setup : url_ok (setup_url m);
  us_sfts : ∀ cp, msg_u m = u_confpart cp → Forall (λ u, u ≠ "") (cp_sftl cp);
}.

(** The ways a received message takes into the call. *)
Inductive receives (m : econn_message) : cc_op → Prop :=
| recv_client uid cid : receives m (DoMsgRecv uid cid m)
| recv_sft status : receives m (DoSftMsgRecv status (Some m))
| recv_datachan ecall : receives m (DoConfmsg ecall m).

Section Wire.
Context `{LS : LibReSpec, LJ : LibReJson, LJS : !LibReJsonSpec, SO : Sodium, SL : !SodiumLen SO,
          HS : !SodiumSpec SO ab sha, UE : UlEnv,
          KE : KsEnv, KL : !KsEnvLen KE, CE : CkEnv, CC : CcEnv, EO : !CallEnvOk}.

Lemma typed_keys h m keyl :
  payload_typed h (msg_type m) (msg_u m) → msg_u m = u_confkey keyl → keyl_valid keyl.
Proof.
  intros Ht E. rewrite E in Ht. destruct (msg_type m); try done.
  destruct Ht as (ks & -> & Hk). intros ek (x & [= <-] & Hin)%list_elem_of_fmap.
  rewrite Forall_forall in Hk. apply (Hk _ Hin).
Qed.

Lemma typed_parts h m cp :
  payload_typed h (msg_type m) (msg_u m) → msg_u m = u_confpart cp →
  ∃ ps, cp_partl cp = Some <$> ps.
Proof.
  intros Ht E. rewrite E in Ht. destruct (msg_type m); try done.
  destruct (rt_partl _ Ht) as (ps & Ep & _). eauto.
Qed.

(** C20: Whatever text another client, a server or the data channel delivers to a well
    formed call, if it is decoded, then the conference call handles the message
    without undefined behaviour and keeps its invariant, in a system whose allocations
    succeed ([CallEnvOk]) and on three conditions that the decoder does not check:
    announcements have a URL and a secret of at least four bytes and no URL is empty
    ([urls_set]); and in a call of limited duration the rest of it, computed from the
    first CONFPART, fits an [int].  Key indices, participants, lists and numbers need
    no check beyond those of the decoder. *)
Theorem received_text_safe h curr_time mtime text m h' o c :
  econn_message_decode h curr_time mtime text = inr (Decoded m h') →
  urls_set m → receives m o → call_ok c →
  (∀ cp, msg_u m = u_confpart cp → cf_meeting_duration c ≠ 0 → cf_received_confpart c = false →
         duration_fits c (cp_timestamp cp)) →
  wp (cc_exec o) (λ _ c' _, call_ok c') c.
Proof.
  intros Hd%decoded_payload_typed [Hcs Hurl Hsft] Ho Hc Hdur. apply cc_exec_ok; [done|].
  destruct Ho; cbn.
  - split; [done|]. intros keyl. by eapply typed_keys.
  - by intros m' [= <-].
  - intros cp E. split; [by eapply typed_parts|by apply Hsft|by apply Hdur].
Qed.

(** The members of a CONFSTART whose URL is JSON's [null]. *)
Definition null_url_fields (secret : list Z) (timestamp seqno : Z) : list field :=
  [("sft_url", Some ODICT_NULL); str_field "secret" (b64 secret);
   str_field "timestamp" (decimal timestamp); str_field "seqno" (decimal seqno)].

Definition null_url_text (m : econn_message) (secret : list Z) (timestamp seqno : Z) : string :=
  json_encode_odict (present (header_fields m ++ null_url_fields secret timestamp seqno)).

Lemma bind_undef {A B} (f : CCM A) (k : A → CCM B) c : f c = None → (f ≫= k) c = None.
Proof. intros E. unfold mbind, MU_bind. by rewrite E. Qed.
Lemma get_undef {B} (k : conf_call → CCM B) c : k c c = None → (uget ≫= k) c = None.
Proof. intros E. unfold mbind, MU_bind, uget. by rewrite E. Qed.

(** The announcement the decoder makes of it. *)
Definition null_url_call (secret : list Z) (timestamp seqno : Z) : confstart := {|
  cs_props := None; cs_sft_url := None; cs_sft_tuple := None; cs_secret := secret;
  cs_timestamp := timestamp; cs_seqno := seqno; cs_sftl := [] |}.

Lemma null_url_payload h m secret timestamp seqno :
  bytes_ok secret → 0 <= timestamp < 2 ^ 64 → 0 <= seqno < 2 ^ 32 →
  payload_decode h ECONN_CONF_START (obj (header_fields m ++ null_url_fields secret timestamp seqno))
  = inr (u_confstart (null_url_call secret timestamp seqno), h).
Proof.
  intros Hb Ht Hs.
  unfold payload_decode, props_decode_opt, econn_props_decode, confstart_decode, econn_stringlist_decode.
  read. rewrite secret_decodes by done. cbn -[uwrap decimal].
  by rewrite !pl_set_str_Some, pl_u64_decimal, pl_u32_decimal.
Qed.

(** A CONFSTART whose [sft_url] is [null] passes the decoder, and a call that
    knows of no other call then follows the [NULL] pointer: a text that any
    client of the conversation can send leads to undefined behaviour. *)
Theorem null_url_undefined h m secret timestamp seqno curr_time mtime uid cid c :
  msg_type m = ECONN_CONF_START → header_ok m → bytes_ok secret →
  0 <= timestamp < 2 ^ 64 → 0 <= seqno < 2 ^ 32 →
  0 <= curr_time - mtime < CCALL_CONFSTART_TIMEOUT_S → cf_sft_timestamp c = 0 →
  ∃ m', econn_message_decode h curr_time mtime (Some (null_url_text m secret timestamp seqno))
        = inr (Decoded m' h)
        ∧ ccall_msg_recv (Some uid) (Some cid) m' c = None.
Proof.
  intros Ht Hh Hb Hts Hs Hage Hc. unfold null_url_text. rewrite decode_header; [|done|keys_differ|].
  - rewrite Ht, null_url_payload by done. eexists. split; [done|].
    unfold CCALL_CONFSTART_TIMEOUT_S in Hage.
    assert (u32 (if curr_time <? mtime then 0 else curr_time - mtime) = curr_time - mtime) as Ha.
    { rewrite (proj2 (Z.ltb_ge _ _)) by lia. apply uwrap_small. lia. }
    rewrite Ha. unfold ccall_msg_recv, ccall_handle_confstart_check, confstart_of.
    cbn -[Z.ltb adopt_call]. unfold CCALL_CONFSTART_TIMEOUT_S.
    rewrite (proj2 (Z.ltb_lt _ _)) by lia. cbn [negb].
    do 2 apply get_undef. apply bind_undef. unfold ts_cmp. by rewrite Hc.
  - apply present_ok; [keys_differ|].
    repeat (apply Forall_cons; split); try apply Forall_nil_2.
    all: first [apply str_field_ok|apply id_field_ok|apply bool_field_ok|by intros v [= <-]].
Qed.

End Wire.
