(* ===== verification/CcallWitness.v ===== *)
(** * Conference calls on concrete inputs

    Alice's client starts a conference, joins it over a server and becomes active;
    an idle client hears of calls. *)

From S2P Require Import Prelude LibRe EconnMsg UserHash AudioLevel UserList UserListSpec UserListWitness Keystore KeystoreSpec KeystoreWitness CcallKeys CcallKeysSpec CcallKeysInv CcallKeysWitness CcallSft Icall Ccall CcallOps CcallMsg CcallSpec CcallInv CcallSafe CcallProps CcallAgree.

Import LibReRef SodiumRef.

(** A clock that has run for a while. *)
Definition late_env : KsEnv := {|
  tmr_jiffies := λ n, 100000 + Z.of_nat n;
  mem_zalloc_ok := λ _, true;
  HKDF := λ _ out secret salt info, (1, KsRef.kdf (length out) secret salt info);
|}.
#[local] Existing Instance late_env.

#[local] Instance late_env_len : KsEnvLen late_env.
Proof. split. intros. cbn. unfold KsRef.kdf. by rewrite length_fmap, length_seq. Qed.

#[local] Instance cc_env : CcEnv := {|
  sendh_ret := λ _, 0; sfth_ret := λ _, 0; ecall_ret := λ _, 0; ecall_has_econn := λ _, true;
  econn_message_encode_ret := λ _, 0; config_request_ret := λ _, 0;
  msystem_get_muted := λ _, false; msystem_get_env := 1;
  avs_version_str := "avs 1.0"; avs_version_short := "1.0";
  econn_props_videosend := λ b, if b then 1%positive else 2%positive;
  econn_props_get := λ _ _, None;
  stack_key := λ _, replicate E2EE_SESSIONKEY_SIZE 0;
|}.

#[local] Instance call_env_ok : CallEnvOk.
Proof.
  split; [|done|done]. intros n. unfold CCALL_MLS_KEY_AGE. cbn. lia.
Qed.

Definition secret1 : list Z := [1; 2; 3; 4].
Definition some_call (o : option conf_call) : conf_call :=
  match o with
  | Some c => c
  | None => new_call "" (mk_list (mk_user 1 "" "") []) (fresh true) false false
  end.

Definition idle : conf_call :=
  some_call (ccall_alloc "conv" (Some "alice") (Some "c") false false secret1)%string.

Lemma idle_alloc :
  ccall_alloc "conv" (Some "alice") (Some "c") false false secret1 = Some idle.
Proof.
  unfold idle. assert (E : match ccall_alloc "conv" (Some "alice") (Some "c") false false secret1
    with Some _ => true | None => false end = true) by reflexivity.
  by destruct (ccall_alloc _ _ _ _ _ _).
Qed.

Lemma idle_ok : call_ok idle.
Proof. eapply ccall_alloc_ok; [apply idle_alloc|cbn; lia]. Qed.

(** The call after operations. *)
Definition run1 (o : cc_op) (c : conf_call) : conf_call :=
  match cc_exec o c with Some (_, c', _) => c' | None => c end.
Definition run_cc (os : list cc_op) (c : conf_call) : conf_call := foldl (λ c o, run1 o c) c os.

Fixpoint ops_ok (os : list cc_op) (c : conf_call) : Prop :=
  match os with
  | [] => True
  | o :: os => op_ok c o ∧ ops_ok os (run1 o c)
  end.

Lemma run1_step o c : call_ok c → op_ok c o → cc_step c (run1 o c).
Proof.
  intros Hc Ho. destruct (wp_defined _ _ _ (cc_exec_ok o c Hc Ho)) as ([] & c' & e & Hrun & _).
  exists o, e. unfold run1. by rewrite Hrun.
Qed.

Lemma run_cc_steps os : ∀ c, call_ok c → ops_ok os c → rtc cc_step c (run_cc os c).
Proof.
  induction os as [|o os IH]; intros c Hc Hos; [done|]. destruct Hos as [Ho Hos].
  pose proof (run1_step o c Hc Ho) as Hst. eapply rtc_l; [exact Hst|].
  apply IH; [by eapply cc_step_ok|done].
Qed.

Lemma run_cc_ok os c : call_ok c → ops_ok os c → call_ok (run_cc os c).
Proof.
  intros Hc Hos. eapply rtc_invariant; [intros; by eapply cc_step_ok|by apply run_cc_steps|done].
Qed.

(** A configuration with one server. *)
Definition sft1 : zapi_ice_server := {|
  srv_url := "https://sft1.wire"; srv_username := ""; srv_credential := "" |}.
Definition config1 : call_config := {|
  cfg_iceservers := []; cfg_sftservers := [sft1]; cfg_sftservers_all := [];
  cfg_sfticeservers := []; cfg_is_federating := false |}.

Lemma config1_ok : cfg_ok config1.
Proof. split; [|constructor]. constructor; [|constructor]. split; [done|cbn; lia]. Qed.

(** Alice starts the call and waits for the configuration. *)
Definition ops_start : list cc_op := [DoSetConfig config1; DoStart ICALL_CALL_TYPE_NORMAL true false].
Definition outgoing : conf_call := run_cc ops_start idle.

Lemma outgoing_ok : ops_ok ops_start idle.
Proof. repeat split; apply config1_ok. Qed.

Lemma outgoing_state : cf_state outgoing = CCALL_STATE_WAITCONFIG_OUTGOING.
Proof. reflexivity. Qed.

Lemma ccall_reachable_ok_witness :
  call_ok outgoing ∧
  ∃ c' e, cc_exec (DoTimer TmrConnect) outgoing = Some ((), c', e) ∧ call_ok c'.
Proof.
  destruct (ccall_reachable_ok "conv" (Some "alice"%string) (Some "c"%string) false false secret1
              idle outgoing) as [H1 H2].
  - exact idle_alloc.
  - apply le_n.
  - exact (run_cc_steps ops_start idle idle_ok outgoing_ok).
  - split; [exact H1|]. exact (H2 (DoTimer TmrConnect) I).
Defined.

Lemma waiting_call_times_out_witness :
  is_Some (cf_timers outgoing TmrConnect) ∧
  wp (fire TmrConnect) (λ _ c' e,
    call_ok c' ∧
    if bool_decide (cf_state outgoing = CCALL_STATE_SETUPRECV)
    then told_end e = [] ∧
         (cf_state c' = CCALL_STATE_IDLE ∨
          cf_state c' = CCALL_STATE_TERMINATING ∧ ∃ a, CcEcall a EcEnd ∈ e)
    else told_end e = [CcLeave ICALL_REASON_TIMEOUT ECONN_MESSAGE_TIME_UNKNOWN] ∧
         cf_state c' = CCALL_STATE_IDLE) outgoing.
Proof.
  apply waiting_call_times_out; [exact (run_cc_ok _ _ idle_ok outgoing_ok)|reflexivity].
Defined.

(** Without servers. *)
Definition config0 : call_config := {|
  cfg_iceservers := []; cfg_sftservers := []; cfg_sftservers_all := [];
  cfg_sfticeservers := []; cfg_is_federating := false |}.
Definition ops_start0 : list cc_op := [DoSetConfig config0; DoStart ICALL_CALL_TYPE_NORMAL true false].
Definition outgoing0 : conf_call := run_cc ops_start0 idle.

Lemma outgoing0_ok : ops_ok ops_start0 idle.
Proof. repeat split; constructor. Qed.

Definition je_of (c : conf_call) : join_elem :=
  default {| je_addr := 0; je_call_type := ICALL_CALL_TYPE_NORMAL; je_audio_cbr := false;
             je_retry_attempt := false |} (cf_je c).

Lemma je_some c :
  match cf_je c with Some _ => true | None => false end = true → cf_je c = Some (je_of c).
Proof. unfold je_of. by destruct (cf_je c). Qed.

Lemma useless_config_reenters_witness :
  wp (config_update_handler (je_addr (je_of outgoing0))) (λ _ c' e,
    cf_state c' = CCALL_STATE_CONNSENT ∧
    cf_timers c' TmrConnect = Some CCALL_CONNECT_TIMEOUT ∧
    (cfg_servers cfg_sftservers (cf_cfg outgoing0) = None →
     unconnected (cf_state outgoing0) = true →
       CcLeave ICALL_REASON_ERROR ECONN_MESSAGE_TIME_UNKNOWN ∈ e)) outgoing0.
Proof.
  apply useless_config_reenters.
  - exact (run_cc_ok _ _ idle_ok outgoing0_ok).
  - apply je_some. reflexivity.
  - left. reflexivity.
Defined.

(** *** An active call *)

Definition sft_setup : econn_message := {|
  msg_type := ECONN_SETUP; sessid_sender := default ""%string (cc_convid_hash (cf idle));
  src_userid := "SFT"; src_clientid := "SFT"; dest_userid := "alice"; dest_clientid := "c";
  resp := false; transient := false; msg_time := 0; msg_age := 0;
  msg_u := u_setup (Some "sdp"%string) None (Some "https://sft1.wire/"%string) None |}.

Definition ops_join : list cc_op :=
  ops_start ++ [DoConfigUpdate (je_addr (je_of outgoing)); DoSftMsgRecv 200 (Some sft_setup)].
Definition joined : conf_call := run_cc ops_join idle.
Definition conn : nat := default 0%nat (cc_ecall (cf joined)).
Definition active : conf_call := run_cc [DoMediaEstab conn false] joined.

Lemma joined_ok : ops_ok ops_join idle.
Proof. repeat split; [apply config1_ok..|]. intros m [= <-]. discriminate. Qed.

Lemma active_alive : alive conn active.
Proof.
  split.
  - apply run_cc_ok; [exact (run_cc_ok _ _ idle_ok joined_ok)|]. by split.
  - reflexivity.
  - reflexivity.
  - exists CCALL_KEEPALIVE_TIMEOUT. reflexivity.
Qed.

Lemma dead_connection_noticed_witness :
  wp (silence 4;; fire TmrKeepalive) (λ _ c' e, reconnects active c' e) active.
Proof. apply (dead_connection_noticed conn); [exact active_alive|reflexivity]. Defined.

(** *** Announcements *)

Definition start_of (ts sq : Z) (url : string) : confstart := {|
  cs_props := None; cs_sft_url := Some url; cs_sft_tuple := None;
  cs_secret := [ts; sq; 0; 0]; cs_timestamp := ts; cs_seqno := sq; cs_sftl := [url] |}.
Definition start_msg (cs : confstart) : econn_message := {|
  msg_type := ECONN_CONF_START; sessid_sender := ""; src_userid := ""; src_clientid := "";
  dest_userid := ""; dest_clientid := ""; resp := false; transient := false; msg_time := 1000;
  msg_age := 5; msg_u := u_confstart cs |}.

Definition bobs_call : confstart := start_of 50 2 "https://sft1.wire".
Definition carols_call : confstart := start_of 40 7 "https://sft2.wire/".
Definition from_bob : string * string * econn_message := ("bob", "b", start_msg bobs_call)%string.
Definition from_carol : string * string * econn_message :=
  ("carol", "d", start_msg carols_call)%string.

Lemma announces_start u d ts sq url :
  0 < ts → 0 <= sq < 2 ^ 31 → url ≠ ""%string →
  announces (u, d, start_msg (start_of ts sq url)) (start_of ts sq url).
Proof.
  intros Ht Hq Hu. split; [done|]. split; [|by split]. split; [by exists url|cbn; lia|].
  by constructor; [|constructor].
Qed.

Lemma bob_announces : announces from_bob bobs_call.
Proof. by apply announces_start. Qed.
Lemma carol_announces : announces from_carol carols_call.
Proof. by apply announces_start. Qed.

Lemma idle_ts : cf_sft_timestamp idle = 0.
Proof. reflexivity. Qed.

Lemma idle_hears ms css : Forall2 announces ms css → hears idle ms css.
Proof. intros Hms. split; [exact idle_ok|by rewrite idle_ts|done]. Qed.

Lemma idle_heard css : heard idle css = announced <$> css.
Proof. unfold heard, known. cbn [call_of id_timestamp]. by rewrite idle_ts. Qed.

Lemma clients_agree_on_call_witness :
  wp (recv_all [from_bob; from_carol]) (λ _ cA' _,
    wp (recv_all [from_carol; from_bob]) (λ _ cB' _,
      call_of cA' = call_of cB' ∧ earliest (call_of cA') (heard idle [bobs_call; carols_call]))
      idle) idle.
Proof.
  apply (clients_agree_on_call idle idle _ _ [bobs_call; carols_call] [carols_call; bobs_call]).
  - apply idle_hears. constructor; [exact bob_announces|].
    constructor; [exact carol_announces|constructor].
  - apply idle_hears. constructor; [exact carol_announces|].
    constructor; [exact bob_announces|constructor].
  - by rewrite idle_heard.
  - intros i. rewrite !idle_heard. cbn. set_solver.
  - intros i j. rewrite !idle_heard. cbn. rewrite !elem_of_cons, !elem_of_nil.
    intros [->|[->|[]]] [->|[->|[]]]; done.
Defined.

Lemma incoming_call_rings_witness :
  ∃ should_ring,
  (should_ring = true ↔
    false = false ∧ ECONN_CONF_START = ECONN_CONF_START ∧ 5 < 30 ∧
    strcaseeq (Some "bob"%string) (ui_userid_real (ul_self (cf_userl idle))) = false ∧
    cf_meeting_is_set idle = false) ∧
  wp (ccall_msg_recv (Some "bob") (Some "b") (start_msg bobs_call))%string
     (comes_in (start_msg bobs_call) "bob" "b" should_ring) idle.
Proof.
  apply (incoming_call_rings "bob" "b" (start_msg bobs_call) bobs_call idle).
  - exact idle_ok.
  - reflexivity.
  - apply bob_announces.
  - split; [discriminate|reflexivity].
Defined.
