(* ===== verification/WireWitness.v ===== *)
(** * The message format on concrete messages

    With the concrete implementations of libre: messages of every kind that are
    encoded and decoded, and texts received by a conference call. *)

From stdpp Require Import gmap.
From S2P Require Import Prelude LibRe LibReJson Jzon EconnMsg EconnFmt EconnFmtSpec EconnFmtProps UserHash AudioLevel UserList UserListWitness Keystore KeystoreSpec KeystoreWitness CcallKeys CcallKeysInv CcallKeysWitness CcallSft Icall Ccall CcallOps CcallMsg CcallSpec CcallInv CcallSafe CcallWitness CcallWire.

Import LibReRef LibReJsonRef SodiumRef.

#[local] Open Scope string_scope.
#[local] Open Scope Z_scope.

#[local] Existing Instances late_env late_env_len cc_env call_env_ok.

Definition no_props : props_heap := ∅.
Definition some_props : props_heap := {[ 1%positive := [("videosend", ODICT_STRING "false")] ]}.

Definition message (t : econn_msg) (u : econn_payload) : econn_message := {|
  msg_type := t; sessid_sender := "3F2A"; src_userid := "alice"; src_clientid := "c1";
  dest_userid := ""; dest_clientid := ""; resp := false; transient := true;
  msg_time := 0; msg_age := 0; msg_u := u |}.

Lemma message_header t u : header_ok (message t u).
Proof. split; unfold id_fits, ECONN_ID_LEN; cbn; lia. Qed.

(** A conference announcement with a secret, two servers and properties. *)
Definition announcement : econn_message :=
  message ECONN_CONF_START (u_confstart {|
    cs_props := Some 1%positive; cs_sft_url := Some "https://sft1/"; cs_sft_tuple := None;
    cs_secret := [0; 255; 16; 17; 3]; cs_timestamp := 1700000000; cs_seqno := 4294967295;
    cs_sftl := ["https://sft1/"; "https://sft2/"] |}).

Lemma announcement_ok : message_ok some_props announcement.
Proof.
  split; [apply message_header|]. split; cbn -[Z.pow]; try lia; [|eauto|].
  - exists [("videosend", ODICT_STRING "false")]. split; [done|]. split; [keys_differ|].
    by repeat constructor.
  - split; [done|]. unfold bytes_ok. apply (bool_decide_unpack _). by vm_compute.
Qed.

Lemma message_delivered_witness :
  ∃ text p h2',
    econn_message_encode some_props announcement = Some (inr text)
    ∧ econn_message_decode no_props 1700000010 1700000003 (Some text)
      = inr (Decoded (delivered announcement 1700000010 1700000003 p) h2')
    ∧ no_props ⊆ h2'
    ∧ (p ≫= (h2' !!.))
      = (payload_props (delivered_payload (msg_type announcement) (msg_u announcement))
         ≫= (some_props !!.)).
Proof. apply message_delivered, announcement_ok. Defined.

(** The same, computed. *)
Example announcement_arrives :
  match econn_message_encode some_props announcement with
  | Some (inr text) =>
    match econn_message_decode no_props 1700000010 1700000003 (Some text) with
    | inr (Decoded m _) => bool_decide (m = delivered announcement 1700000010 1700000003 (Some 1%positive))
    | _ => false
    end
  | _ => false
  end = true.
Proof. vm_compute. reflexivity. Qed.

Definition text_of (h : props_heap) (m : econn_message) : string :=
  match econn_message_encode h m with Some (inr text) => text | _ => "" end.

(** A key message. *)
Definition key_message : econn_message :=
  message ECONN_CONF_KEY (u_confkey [Some {| ek_idx := 65536; ek_data := [1; 2; 3; 4] |};
                                     Some {| ek_idx := 4294901760; ek_data := [] |}]).

Definition key_received : econn_message := delivered key_message 20 10 None.

Lemma decoded_message_typed_witness :
  message_typed no_props key_received ∧ transient key_received = false
  ∧ ∃ j name, jzon_decode (Some (text_of no_props key_message)) = inr j
              ∧ jzon_str (Some j) "type" = Some name
              ∧ LibReRef.lower name = LibReRef.lower (econn_msg_name (msg_type key_received)).
Proof. apply (decoded_message_typed no_props 20 10). vm_compute. reflexivity. Defined.

Definition offer : econn_message := message ECONN_UPDATE (u_setup (Some "v=0") None None None).

Lemma optional_props_undecodable_witness :
  ∃ text, econn_message_encode no_props offer = Some (inr text)
          ∧ econn_message_decode some_props 7 7 (Some text) = inl ENOENT.
Proof.
  apply (optional_props_undecodable no_props some_props offer "v=0" None None); [|apply message_header|done].
  right. by right.
Defined.

Lemma received_text_safe_witness :
  wp (cc_exec (DoMsgRecv (Some "bob") (Some "d") key_received)) (λ _ c' _, call_ok c') idle.
Proof.
  apply (received_text_safe no_props 20 10 (Some (text_of no_props key_message)) key_received no_props).
  - vm_compute. reflexivity.
  - split; [done|done|done].
  - constructor.
  - apply idle_ok.
  - intros cp E. vm_compute in E. discriminate E.
Defined.

Lemma null_url_undefined_witness :
  ∃ m', econn_message_decode no_props 100 90
          (Some (null_url_text (message ECONN_CONF_START u_zero) [9; 9; 9; 9] 1700000000 1))
        = inr (Decoded m' no_props)
        ∧ ccall_msg_recv (Some "mallory") (Some "m") m' idle = None.
Proof.
  apply null_url_undefined; [done|apply message_header| |lia|lia|unfold CCALL_CONFSTART_TIMEOUT_S; lia|].
  - unfold bytes_ok. apply (bool_decide_unpack _). by vm_compute.
  - reflexivity.
Defined.
