(* ===== verification/Ecall.v ===== *)
(** * The end-to-end call: the object and its flow ([src/ecall/ecall.c],
      [ecall.h], [trace.c])

    A call between two clients.  An [ecall] owns a connection ([Econn]) that
    negotiates the call with messages, and a media flow that produces and
    consumes the SDP texts of the negotiation and carries the data channel; it
    ties the two together, replaces the flow when the call is renegotiated, and
    reports to the application.

    - Flows are behind an interface ([struct iflow]): a flow is its address, calls
      into it are events, and their results are in [EcEnv], by the number of the
      call.  A call on a [NULL] flow does nothing and returns 0.
    - A flow calls back from the event loop, so a callback is an operation of its
      own, with two exceptions: [stop_media] calls the stopped handler, which only
      informs the application, and [handle_answer] calls the restart handler when
      the answer asks for a constant bit rate ([flow_handle_answer]).
    - The connection's callbacks are the last thing its functions do, and the
      functions of the connection that the handlers call do not call back: a
      function is run, and then its events are dispatched ([on_econn]).
    - Properties are shared objects on a heap, see [EconnFmt].
    - The callbacks of the application are events, with their results in [EcEnv];
      applications call into the object from the event loop.
    - Copies of strings succeed where the code ignores the result; other
      allocations can fail. *)

From stdpp Require Import gmap.
From S2P Require Import Prelude LibRe LibReJson Jzon EconnMsg EconnFmt Econn Icall AudioLevel UserList.

#[local] Open Scope string_scope.
#[local] Open Scope Z_scope.

(** ** Data *)

Definition TIMEOUT_MEDIA_START : Z := 10000.
Definition TIMEOUT_CONNECTION : Z := 10000.
Definition TIMEOUT_AUDIO_LEVEL : Z := 3000.

(** [enum async_sdp] *)
Inductive async_sdp := ASYNC_NONE | ASYNC_OFFER | ASYNC_ANSWER | ASYNC_COMPLETE.

(** The timers of [struct ecall]. *)
Inductive ecall_timer := DC_TMR | MEDIA_START_TMR | CONNECTION_TMR | QUALITY_TMR | LEVEL_TMR.

#[export] Instance async_sdp_eq_dec : EqDecision async_sdp.
Proof. solve_decision. Defined.
#[export] Instance ecall_timer_eq_dec : EqDecision ecall_timer.
Proof. solve_decision. Defined.

(** [struct trace_entry]; a message that was decoded to a blank one has a type
    without a name. *)
Record trace_entry := {
  tr_ts : Z;
  tr_tx : bool;
  tr_tp : econn_transport;
  tr_msg_type : option econn_msg;
  tr_resp : bool;
  tr_age : Z;
}.

(** [struct ecall].  [e_heap] are the property objects, [e_tick] numbers the calls
    into the environment, [e_nflow] is the next address of a flow.
    [econn_pending] can only point to the connection of the call; [e_sessid_freed]
    tells that [sessid] points to memory that was released. *)
Record ecall := {
  e_cb : icall_cb → bool;
  e_call_type : icall_call_type;
  e_vstate : icall_vstate;
  e_glare_vstate : icall_vstate;
  e_conf : econn_conf;
  e_econn : option econn;
  e_conv_type : icall_conv_type;
  e_flow : option nat;
  e_oldflow : option nat;
  e_timers : ecall_timer → option Z;
  e_heap : props_heap;
  e_props_local : option econn_props_ref;
  e_props_remote : option econn_props_ref;
  e_propsynch : bool;
  e_convid : string;
  e_userid_self : string;
  e_clientid_self : string;
  e_clientid_real : option string;
  e_userid_peer : option string;
  e_clientid_peer : option string;
  e_sessid : option string;
  e_sessid_freed : bool;
  e_max_retries : Z;
  e_num_retries : Z;
  e_async : async_sdp;
  e_offer : option string;
  e_econn_pending : bool;
  e_answered : bool;
  e_established : bool;
  e_update : bool;
  e_update_glare : bool;
  e_delayed_restart : bool;
  e_call_setup_time : Z;
  e_call_estab_time : Z;
  e_audio_setup_time : Z;
  e_ts_started : Z;
  e_ts_answered : Z;
  e_conf_part : option nat;
  e_tracel : list trace_entry;
  e_ts_start : Z;
  e_devpair : bool;
  e_audio_cbr : bool;
  e_recv_state : icall_vstate;
  e_audio_estab : bool;
  e_cbr_state : bool;
  e_remote_muted : bool;
  e_quality_interval : Z;
  e_turnv : list zapi_ice_server;
  e_turn_added : bool;
  e_confmsgh : bool;
  e_media_laddr : option string;
  e_keystore : option nat;
  e_should_reject : bool;
  e_pingh : bool;
  e_metrics : icall_metrics;
  e_video_local : Z;
  e_video_remote : Z;
  e_inc_reconnects : bool;
  e_dce_pendingl : list string;
  e_tick : nat;
  e_nflow : nat;
}.

(** The calls into a flow that are not mere questions. *)
Inductive flow_call :=
| FlSetVideoState (vstate : icall_vstate)
| FlGenerateOffer
| FlGenerateAnswer
| FlHandleOffer (sdp : string)
| FlHandleAnswer (sdp : option string)
| FlEnablePrivacy
| FlSetCallType (call_type : icall_call_type)
| FlSetAudioCbr (enabled : bool)
| FlSetRemote (userid clientid : option string)
| FlAddTurnserver (srv : zapi_ice_server)
| FlGatherAll (offer : bool)
| FlAddDecoders (userid clientid : string) (userid_hash : option string) (ssrca ssrcv : Z)
| FlRemoveDecoders (userid clientid : string)
| FlSyncDecoders
| FlSetKeystore (keystore : nat)
| FlDceSend (data : string)
| FlStopMedia
| FlClose
| FlUpdateSsrc (ssrca ssrcv : Z).

Inductive ecall_event :=
| EeFlowAlloc (flow : nat) (call_type : icall_call_type) (vstate : icall_vstate)
| EeFlow (flow : nat) (f : flow_call)
| EeSetMuted (muted : bool)
(* callbacks to the application *)
| EeSend (userid : string) (msg : econn_message) (targets : option (list icall_client))
    (my_clients_only : bool)
| EeStart (msg_time : Z) (userid clientid : string) (video : bool)
| EeAnswer
| EeMediaEstab (userid clientid : option string) (update : bool)
| EeAudioEstab (userid clientid : option string) (update : bool)
| EeDatachanEstab (userid clientid : option string) (update : bool)
| EeMediaStopped
| EeLeave (reason msg_time : Z)
| EeClose (err : Z) (metrics : option icall_metrics) (msg_time : Z)
    (userid clientid : option string)
| EeVstateChanged (userid clientid : option string) (vstate : icall_vstate)
| EeAcbrChanged (userid clientid : option string) (enabled : bool)
| EeMutedChanged (userid clientid : option string) (muted : bool)
| EeQuality (userid clientid : option string) (stats : stats_report) (peer : icall_conv_type)
| EeNorelay (local : bool)
| EeReqClients
| EeAudioLevel (levell : list (option audio_level_t))
| EeConfmsg (msg : econn_message)
| EePropsync (msg : econn_message)
| EePing (response : bool).

Abbreviation EM := (MU ecall ecall_event).

(** The results of the functions of other components, by the number of the
    call.  A question to a flow that cannot answer it is 0. *)
Class EcEnv := {
  iflow_alloc : nat → Z;
  (** An error and the text in the buffer. *)
  flow_generate_offer : nat → Z * string;
  flow_generate_answer : nat → Z * string;
  flow_handle_offer : nat → Z;
  (** An error, and whether the answer asks for a constant bit rate. *)
  flow_handle_answer_ret : nat → Z * bool;
  flow_has_video : nat → bool;
  flow_is_gathered : nat → bool;
  flow_get_audio_cbr : nat → bool;
  flow_set_video_state : nat → Z;
  flow_dce_send : nat → Z;
  flow_get_stats : nat → Z * stats_report;
  flow_get_audio_level : nat → Z * list (option audio_level_t);
  flow_ret : nat → Z;
  (** [sendh] and [propsynch] of the application. *)
  sendh_ret : nat → Z;
  propsynch_ret : nat → Z;
  msystem_get_muted : nat → bool;
  msystem_get_privacy : bool;
  tmr_jiffies : nat → Z;
  mem_ok : nat → bool;
  rand_str : nat → string;
}.

Section Ops.
Context `{LibRe, LibReJson, EcEnv}.

(** ** Primitives *)

Definition next : EM nat :=
  c ← uget; umodify (λ c, {| c with e_tick := S (e_tick c) |});; mret (e_tick c).

Definition uwhen (b : bool) (m : EM ()) : EM () := if b then m else mret ().

Definition tmr_set (t : ecall_timer) (d : option Z) (tm : ecall_timer → option Z)
    : ecall_timer → option Z :=
  λ t', if bool_decide (t' = t) then d else tm t'.
Definition tmr_start (t : ecall_timer) (delay : Z) : EM () :=
  umodify (λ c, {| c with e_timers := tmr_set t (Some delay) (e_timers c) |}).
Definition tmr_cancel (t : ecall_timer) : EM () :=
  umodify (λ c, {| c with e_timers := tmr_set t None (e_timers c) |}).

(** [ecall->icall.xh = NULL] *)
Definition cb_clear (k : icall_cb) : EM () :=
  umodify (λ c, {| c with e_cb := λ k', if bool_decide (k' = k) then false else e_cb c k' |}).

(** [ICALL_CALL_CB] *)
Definition call_cb (k : icall_cb) (e : ecall_event) : EM () :=
  c ← uget; uwhen (e_cb c k) (uemit [e]).

(** [IFLOW_CALL], [IFLOW_CALLE] and [IFLOW_CALLE] for a question *)
Definition flow_do (flow : option nat) (f : flow_call) : EM () :=
  match flow with Some a => uemit [EeFlow a f] | None => mret () end.
Definition flow_call_do (f : flow_call) : EM () := c ← uget; flow_do (e_flow c) f.
Definition flow_call_ret {A} (f : flow_call) (zero : A) (ret : nat → A) : EM A :=
  c ← uget;
  match e_flow c with
  | Some a => uemit [EeFlow a f];; n ← next; mret (ret n)
  | None => mret zero
  end.
Definition flow_ask {A} (zero : A) (ret : nat → A) : EM A :=
  c ← uget;
  match e_flow c with Some _ => n ← next; mret (ret n) | None => mret zero end.

(** [econn_current_state], [econn_userid_remote], [econn_clientid_remote] *)
Definition econn_current_state (conn : option econn) : econn_state :=
  match conn with Some conn => ec_state conn | None => ECONN_IDLE end.
Definition econn_userid_remote (conn : option econn) : option string := ec_userid_remote <$> conn.
Definition econn_clientid_remote (conn : option econn) : option string :=
  ec_clientid_remote <$> conn.
Definition can_send_propsync (conn : option econn) : bool :=
  match conn with Some conn => econn_can_send_propsync conn | None => false end.

(** [ecall_trace] *)
Definition trace_msg (tx : bool) (tp : econn_transport) (t : option econn_msg) (rsp : bool)
    (age : Z) : EM () :=
  n ← next;
  umodify (λ c, {| c with e_tracel := (e_tracel c ++
    [{| tr_ts := u64 (tmr_jiffies n - e_ts_start c); tr_tx := tx; tr_tp := tp;
        tr_msg_type := t; tr_resp := rsp; tr_age := age |}])%list |}).
Definition ecall_trace (msg : econn_message) (tx : bool) (tp : econn_transport) : EM () :=
  trace_msg tx tp (Some (msg_type msg)) (resp msg) (msg_age msg).

(** ** Properties *)

(** [econn_props_update(ecall->props_local, ...)] *)
Definition props_local_update (key val : string) : EM Z :=
  c ← uget;
  p ← of_ptr (e_props_local c);
  r ← of_ptr (econn_props_update (e_heap c) p key (Some val));
  umodify (λ c, {| c with e_heap := r.2 |});;
  mret r.1.

(** [ecall_props_get_local], [ecall_props_get_remote] *)
Definition ecall_props_get_local (key : string) : EM (option string) :=
  c ← uget;
  match e_econn c with
  | None => mret None
  | Some _ => of_ptr (econn_props_get (e_heap c) (e_props_local c) (Some key))
  end.
Definition ecall_props_get_remote (key : string) : EM (option string) :=
  c ← uget;
  match e_econn c with
  | None => mret None
  | Some _ => of_ptr (econn_props_get (e_heap c) (e_props_remote c) (Some key))
  end.

(** [ecall_props_set_local] *)
Definition ecall_props_set_local (key value : string) : EM Z :=
  c ← uget;
  match e_econn c with
  | None => mret EINVAL
  | Some _ =>
    v ← of_ptr (econn_props_get (e_heap c) (e_props_local c) (Some key));
    match v with
    | Some _ => props_local_update key value
    | None =>
      r ← of_ptr (econn_props_add (e_heap c) (e_props_local c) (Some key) (Some value));
      umodify (λ c, {| c with e_heap := r.2 |});;
      mret r.1
    end
  end.

(** [update_mute_props] *)
Definition update_mute_props : EM () :=
  c ← uget;
  if bool_decide (e_props_local c = None) then mret ()
  else n ← next;
       udone (props_local_update "muted" (if msystem_get_muted n then "true" else "false")).

(** ** Sending *)

(** [ecall_dce_sendmsg] *)
Definition ecall_dce_sendmsg (msg : econn_message) : EM Z :=
  c ← uget;
  str ← of_ptr (econn_message_encode (e_heap c) msg);
  match str with
  | inl err => mret err
  | inr str =>
    (uwhen (negb (bool_decide (msg_type msg = ECONN_PING)))
       (ecall_trace msg true ECONN_TRANSP_DIRECT));;
    flow_call_ret (FlDceSend str) 0 flow_dce_send
  end.

(** [ecall_dce_send]; [mb] are the bytes of the buffer. *)
Definition ecall_dce_send (mb : string) : EM Z :=
  err ← flow_call_ret (FlDceSend mb) 0 flow_dce_send;
  if negb (err =? ENOENT) then mret err
  else
    n ← next;
    if mem_ok n
    then umodify (λ c, {| c with e_dce_pendingl := (e_dce_pendingl c ++ [mb])%list |});; mret 0
    else mret ENOMEM.

(** The message with the identifiers of the call. *)
Definition address_msg (c : ecall) (msg : econn_message) : econn_message :=
  {| msg with
     src_userid := str_ncpy (e_userid_self c) ECONN_ID_LEN;
     src_clientid := str_ncpy (e_clientid_self c) ECONN_ID_LEN;
     dest_userid := match e_userid_peer c with
                    | Some u => str_ncpy u ECONN_ID_LEN | None => dest_userid msg end;
     dest_clientid := match e_clientid_peer c with
                      | Some u => str_ncpy u ECONN_ID_LEN | None => dest_clientid msg end |}.

(** The transport that [send_handler] selects; [None] where the type is not
    supported. *)
Definition send_transport (t : econn_msg) : option econn_transport :=
  match t with
  | ECONN_SETUP | ECONN_UPDATE | ECONN_CANCEL | ECONN_ALERT => Some ECONN_TRANSP_BACKEND
  | ECONN_PROPSYNC | ECONN_HANGUP | ECONN_PING => Some ECONN_TRANSP_DIRECT
  | _ => None
  end.

(** [send_handler]; [n] is the number under which the result of the application's
    [sendh] is found. *)
Definition send_err (c : ecall) (n : nat) (msg : econn_message) : Z :=
  match send_transport (msg_type msg) with
  | Some ECONN_TRANSP_BACKEND => if e_cb c CB_SEND then sendh_ret n else 0
  | Some ECONN_TRANSP_DIRECT => 0
  | None => EPROTO
  end.
Definition send_handler (n : nat) (msg : econn_message) : EM Z :=
  c ← uget;
  let msg := address_msg c msg in
  match send_transport (msg_type msg) with
  | None => mret EPROTO
  | Some ECONN_TRANSP_DIRECT => _ ← ecall_dce_sendmsg msg; mret 0
  | Some ECONN_TRANSP_BACKEND =>
    ecall_trace msg true ECONN_TRANSP_BACKEND;;
    call_cb CB_SEND (EeSend (e_userid_self c) msg None false);;
    mret (send_err c n msg)
  end.

(** ** The connection *)

Fixpoint dispatch (cb : econn_event → EM ()) (n : nat) (evs : list econn_event) : EM () :=
  match evs with
  | [] => mret ()
  | EvSend msg :: evs => _ ← send_handler n msg; dispatch cb n evs
  | ev :: evs => cb ev;; dispatch cb n evs
  end.

(** A function of the connection, which is not [NULL], with its messages sent and
    its callbacks handled. *)
Definition on_econn_with {A} (cb : econn_event → EM ()) (m : (econn_message → Z) → ECM A)
    : EM A :=
  c ← uget;
  conn ← of_ptr (e_econn c);
  n ← next;
  let r := m (send_err c n) conn in
  umodify (λ c, {| c with e_econn := Some (final r) |});;
  dispatch cb n (events r);;
  mret (result r).

(** The same for the functions that do not call back. *)
Definition on_econn {A} (m : (econn_message → Z) → ECM A) : EM A :=
  on_econn_with (λ _, undef) m.

(** [econn_send_propsync(ecall->econn, response, ecall->props_local)], when the
    connection is not [NULL]. *)
Definition send_propsync (response : bool) : EM Z :=
  c ← uget;
  match e_props_local c with
  | None => mret EINVAL
  | Some p => on_econn (λ tx, econn_send_propsync tx response p)
  end.

(** [if (!ecall->devpair && ... && econn_can_send_propsync(ecall->econn)) { err =
    econn_send_propsync(...); }] *)
Definition sync_if (cond : ecall → bool) (response : bool) : EM Z :=
  c ← uget;
  if negb (e_devpair c) && cond c && can_send_propsync (e_econn c)
  then send_propsync response
  else mret 0.

(** [ecall_sync_props] *)
Definition ecall_sync_props (response : bool) : EM Z :=
  c ← uget;
  if bool_decide (e_econn c = None) then mret EINTR
  else if e_devpair c then mret 0
  else if negb (can_send_propsync (e_econn c)) then mret 0
  else send_propsync response.

(** [ecall_ping] *)
Definition ecall_ping (response : bool) : EM Z :=
  c ← uget;
  if bool_decide (e_econn c = None) then mret EINVAL
  else on_econn (λ tx, econn_send_ping tx response).

(** [ecall_create_econn], which asserts that there is no connection and reads
    [sessid]. *)
Definition ecall_create_econn : EM Z :=
  c ← uget;
  if negb (bool_decide (e_econn c = None)) || e_sessid_freed c then undef else
  n ← next;
  n2 ← next;
  match econn_alloc (mem_ok n) (mem_ok n2) (rand_str n) (Some (e_conf c)) (e_userid_self c)
          (e_clientid_self c) (e_sessid c) (Some {| sendh := true |})
          true true true true true true true true with
  | inl err => mret err
  | inr conn => umodify (λ c, {| c with e_econn := Some conn |});; mret 0
  end.

(** ** Closing *)

(** [ecall_media_stop] *)
Definition ecall_media_stop : EM () := flow_call_do FlStopMedia.

(** [flow = ecall->flow; ecall->flow = NULL; IFLOW_CALL(flow, close);] and the same
    for [oldflow] *)
Definition close_flow : EM () :=
  c ← uget;
  umodify (λ c, {| c with e_flow := None |});;
  flow_do (e_flow c) FlClose.
Definition close_oldflow : EM () :=
  c ← uget;
  umodify (λ c, {| c with e_oldflow := None |});;
  flow_do (e_oldflow c) FlClose.

(** The metrics of a call that was answered at [e_ts_answered]. *)
Definition close_metrics (c : ecall) (now : Z) : icall_metrics :=
  let d := u64 (now - e_ts_answered c) / 1000 in
  let m := e_metrics c in
  {| m with mt_duration_call := d; mt_duration_active := d;
            mt_participants_max := 2; mt_participants_audio_max := 2;
            mt_participants_video_max := u32 (e_video_local c + e_video_remote c) |}.

(** [ecall_close] *)
Definition ecall_close (err msg_time : Z) : EM () :=
  cb_clear CB_QUALITY;;
  tmr_cancel QUALITY_TMR;; tmr_cancel DC_TMR;; tmr_cancel MEDIA_START_TMR;;
  tmr_cancel CONNECTION_TMR;;
  umodify (λ c, {| c with e_conf_part := None |});;
  close_flow;;
  close_oldflow;;
  c ← uget;
  (uwhen (negb (bool_decide (e_recv_state c = ICALL_VIDEO_STATE_STOPPED)))
     (call_cb CB_VSTATE_CHANGED
        (EeVstateChanged (e_userid_peer c) (e_clientid_peer c) ICALL_VIDEO_STATE_STOPPED);;
      umodify (λ c, {| c with e_recv_state := ICALL_VIDEO_STATE_STOPPED |})));;
  uwhen (e_cb c CB_CLOSE)
    ((uwhen (negb (e_ts_answered c =? 0))
        (n ← next;
         umodify (λ c, {| c with e_metrics := close_metrics c (tmr_jiffies n) |})));;
     cb_clear CB_CLOSE;;
     c ← uget;
     uemit [EeClose err (if e_ts_answered c =? 0 then None else Some (e_metrics c)) msg_time
              (e_userid_peer c) (e_clientid_peer c)]).

(** [ecall_end] *)
Definition ecall_end : EM () :=
  c ← uget;
  (if bool_decide (e_econn c = None) then mret () else on_econn econn_end);;
  flow_call_do FlStopMedia.

End Ops.
