(* ===== verification/EcallOps.v ===== *)
(** * The end-to-end call: negotiation, media and messages
      ([src/ecall/ecall.c], continued)

    Allocation and renegotiation of flows, offers and answers, the handlers of the
    flow, of the timers and of the connection, and what the application and the
    other client ask of a call. *)

From stdpp Require Import gmap.
From S2P Require Import Prelude LibRe LibReJson Jzon EconnMsg EconnFmt Econn Icall AudioLevel UserList Ecall.

#[local] Open Scope string_scope.
#[local] Open Scope Z_scope.

Section Ops.
Context `{LibRe, LibReJson, EcEnv}.

(** ** Flows *)

(** [set_offer_sdp] *)
Definition set_offer_sdp (sdp : option string) : EM () :=
  umodify (λ c, {| c with e_offer := sdp |}).

(** [gather_all] *)
Definition gather_all (offer : bool) : EM () := flow_call_do (FlGatherAll offer).

Fixpoint add_turnservers (srvs : list zapi_ice_server) : EM () :=
  match srvs with
  | [] => mret ()
  | srv :: srvs => flow_call_do (FlAddTurnserver srv);; add_turnservers srvs
  end.

(** [alloc_flow]: the flow becomes the old one, whose predecessor is closed; a new
    flow is allocated and set up. *)
Definition retire_flow : EM () :=
  c ← uget;
  flow_do (e_oldflow c) FlClose;;
  umodify (λ c, {| c with e_oldflow := e_flow c; e_flow := None; e_established := false |}).
Definition new_flow (call_type : icall_call_type) : EM Z :=
  n ← next;
  if negb (iflow_alloc n =? 0) then mret (iflow_alloc n)
  else
    c ← uget;
    uemit [EeFlowAlloc (e_nflow c) call_type (e_vstate c)];;
    umodify (λ c, {| c with e_flow := Some (e_nflow c); e_nflow := S (e_nflow c) |});;
    mret 0.
Definition alloc_flow (role : async_sdp) (call_type : icall_call_type) (audio_cbr : bool)
    : EM Z :=
  retire_flow;;
  err ← new_flow call_type;
  if negb (err =? 0) then mret err
  else
    c ← uget;
    umodify (λ c, {| c with e_audio_cbr := audio_cbr |});;
    flow_call_do (FlSetAudioCbr audio_cbr);;
    (uwhen (str_isset (e_userid_peer c) || str_isset (e_clientid_peer c))
       (flow_call_do (FlSetRemote (e_userid_peer c) (e_clientid_peer c))));;
    flow_call_do (FlSetVideoState (e_vstate c));;
    add_turnservers (e_turnv c);;
    match e_keystore c with
    | Some ks => flow_call_do (FlSetKeystore ks)
    | None => mret ()
    end;;
    (uwhen msystem_get_privacy (flow_call_do FlEnablePrivacy));;
    umodify (λ c, {| c with e_turn_added := true |});;
    (uwhen (bool_decide (role = ASYNC_OFFER)) (gather_all true));;
    mret 0.

(** [muted = msystem_get_muted(); ... msystem_set_muted(muted);] around [m] *)
Definition keep_muted {A} (m : EM A) : EM A :=
  n ← next; a ← m; uemit [EeSetMuted (msystem_get_muted n)];; mret a.

(** ** Offers and answers *)

(** [econn_update_req(ecall->econn, ...)], which reads the configuration of the
    connection before it checks the pointer, and [econn_start(ecall->econn, ...)] *)
Definition update_req (sdp : string) : EM Z :=
  c ← uget; on_econn (λ tx, econn_update_req tx (Some sdp) (e_props_local c)).
Definition start_conn (sdp : string) : EM Z :=
  c ← uget;
  if bool_decide (e_econn c = None) then mret EINVAL
  else on_econn (λ tx, econn_start tx (Some sdp) (e_props_local c)).

(** [offer_and_connect] *)
Definition offer_and_connect : EM Z :=
  n ← next;
  if negb (mem_ok n) then mret ENOMEM
  else
    r ← flow_call_ret FlGenerateOffer (0, "") flow_generate_offer;
    if negb (r.1 =? 0) then mret EPROTO
    else
      c ← uget;
      if e_update c then update_req r.2 else start_conn r.2.

(** [generate_offer] *)
Definition generate_offer : EM Z :=
  g ← flow_ask false flow_is_gathered;
  if g : bool then offer_and_connect
  else
    c ← uget;
    if negb (bool_decide (e_async c = ASYNC_NONE)) then mret EPROTO
    else umodify (λ c, {| c with e_async := ASYNC_OFFER |});; mret 0.

(** [if (!ecall->established) tmr_start(&ecall->connection_tmr, ...)] *)
Definition await_connection : EM () :=
  c ← uget; uwhen (negb (e_established c)) (tmr_start CONNECTION_TMR TIMEOUT_CONNECTION).

(** [generate_answer]; [econn] tells whether the connection it is given is one. *)
Definition generate_answer (econn : bool) : EM Z :=
  if negb econn then mret EPROTO
  else
    n ← next;
    if negb (mem_ok n) then mret ENOMEM
    else
      r ← flow_call_ret FlGenerateAnswer (0, "") flow_generate_answer;
      if negb (r.1 =? 0) then mret r.1
      else
        c ← uget;
        err ← (if e_update c
               then umodify (λ c, {| c with e_num_retries := u32 (e_num_retries c + 1) |});;
                    on_econn (λ tx, econn_update_resp tx (Some r.2) (e_props_local c))
               else on_econn (λ tx, econn_answer tx (Some r.2) (e_props_local c)));
        if negb (err =? 0) then mret err
        else await_connection;; mret 0.

(** [generate_or_gather_answer], with the connection of the call. *)
Definition generate_or_gather_answer : EM Z :=
  c ← uget;
  err ← (match e_offer c with
         | None => mret 0
         | Some offer =>
           err ← flow_call_ret (FlHandleOffer offer) 0 flow_handle_offer;
           if negb (err =? 0) then mret EBADMSG
           else umodify (λ c, {| c with e_offer := None |});; mret 0
         end);
  if negb (err =? 0) then mret err
  else
    g ← flow_ask false flow_is_gathered;
    if g : bool then generate_answer (bool_decide (e_econn c ≠ None))
    else
      (uwhen (bool_decide (e_async c = ASYNC_NONE))
         (umodify (λ c, {| c with e_async := ASYNC_ANSWER;
                                  e_econn_pending := bool_decide (e_econn c ≠ None) |});;
          gather_all false));;
      mret 0.

(** [ecall_answer] *)
Definition ecall_answer (call_type : icall_call_type) (audio_cbr : bool) : EM Z :=
  c ← uget;
  if bool_decide (e_econn c = None) then mret ENOENT
  else if negb (bool_decide (econn_current_state (e_econn c) = ECONN_PENDING_INCOMING))
  then mret EPROTO
  else if bool_decide (e_flow c = None) then mret EPROTO
  else
    umodify (λ c, {| c with e_call_type := call_type |});;
    flow_call_do (FlSetCallType call_type);;
    umodify (λ c, {| c with e_audio_cbr := audio_cbr |});;
    flow_call_do (FlSetAudioCbr audio_cbr);;
    update_mute_props;;
    err ← generate_or_gather_answer;
    if negb (err =? 0) then mret err
    else
      n ← next;
      umodify (λ c, {| c with e_answered := true; e_audio_setup_time := -1;
                              e_call_estab_time := -1; e_ts_answered := u64 (tmr_jiffies n) |});;
      mret 0.

(** [ecall_start] *)
Definition ecall_start (call_type : icall_call_type) (audio_cbr : bool) : EM Z :=
  c ← uget;
  if negb (bool_decide (e_econn c = None)) then
    if bool_decide (econn_current_state (e_econn c) = ECONN_PENDING_INCOMING)
    then ecall_answer call_type audio_cbr
    else mret EALREADY
  else
    umodify (λ c, {| c with e_call_type := call_type |});;
    err ← ecall_create_econn;
    if negb (err =? 0) then mret err
    else
      on_econn (λ _, econn_set_state ECONN_PENDING_OUTGOING);;
      err ← alloc_flow ASYNC_OFFER call_type audio_cbr;
      if negb (err =? 0) then mret err
      else
        flow_call_do (FlSetAudioCbr audio_cbr);;
        update_mute_props;;
        c ← uget;
        (uwhen (negb (bool_decide (e_props_local c = None))
                && bool_decide (call_type = ICALL_CALL_TYPE_VIDEO)
                && bool_decide (e_vstate c = ICALL_VIDEO_STATE_STARTED))
           (udone (props_local_update "videosend" "true")));;
        umodify (λ c, {| c with e_async := ASYNC_NONE |});;
        err ← generate_offer;
        if negb (err =? 0) then mret err
        else
          n ← next;
          umodify (λ c, {| c with e_ts_started := u64 (tmr_jiffies n); e_call_setup_time := -1;
            e_metrics := (let m := e_metrics c in {| m with mt_initiator := true |}) |});;
          mret 0.

(** [ecall_restart] *)
Definition can_restart (st : econn_state) : bool :=
  bool_decide (st = ECONN_ANSWERED ∨ st = ECONN_DATACHAN_ESTABLISHED
               ∨ st = ECONN_UPDATE_SENT ∨ st = ECONN_UPDATE_RECV).
Definition reconnecting : stats_report :=
  {| st_rtt := 0; st_lost_tx := ICALL_RECONNECTING; st_lost_rx := ICALL_RECONNECTING |}.
Definition ecall_restart (call_type : icall_call_type) (notify : bool) : EM Z :=
  c ← uget;
  if negb (can_restart (econn_current_state (e_econn c))) then mret EPROTO
  else if bool_decide (e_conv_type c = ICALL_CONV_TYPE_CONFERENCE) then
    call_cb CB_CLOSE (EeClose (if notify then ENOTCONN else EAGAIN) None 0 None None);;
    mret 0
  else
    umodify (λ c, {| c with e_call_type := call_type; e_update := true;
                            e_audio_estab := false; e_conf_part := None |});;
    tmr_cancel DC_TMR;;
    err ← keep_muted (alloc_flow ASYNC_OFFER call_type (e_audio_cbr c));
    if negb (err =? 0) then mret err
    else
      (uwhen notify
         (umodify (λ c, {| c with e_inc_reconnects := true; e_metrics :=
            (let m := e_metrics c in
             {| m with mt_reconnects_attempted := u32 (mt_reconnects_attempted m + 1) |}) |});;
          call_cb CB_QUALITY (EeQuality (e_userid_peer c) (e_clientid_peer c) reconnecting
                                ICALL_CONV_TYPE_ONEONONE)));;
      flow_call_do (FlSetRemote (econn_userid_remote (e_econn c))
                                (econn_clientid_remote (e_econn c)));;
      flow_call_do (FlSetVideoState (e_vstate c));;
      umodify (λ c, {| c with e_async := ASYNC_NONE |});;
      generate_offer.

(** ** The state of video and microphone *)

(** The values of [videosend] and [screensend]. *)
Definition vstate_strings (vstate : icall_vstate) : string * string :=
  match vstate with
  | ICALL_VIDEO_STATE_STARTED => ("true", "false")
  | ICALL_VIDEO_STATE_SCREENSHARE => ("false", "true")
  | ICALL_VIDEO_STATE_PAUSED => ("paused", "false")
  | _ => ("false", "false")
  end.

(** [ecall_set_video_send_state] *)
Definition video_glare (c : ecall) : bool :=
  bool_decide (e_conv_type c = ICALL_CONV_TYPE_ONEONONE)
  && (bool_decide (econn_current_state (e_econn c) = ECONN_PENDING_OUTGOING)
      || bool_decide (econn_current_state (e_econn c) = ECONN_PENDING_INCOMING)
      || bool_decide (econn_current_state (e_econn c) = ECONN_UPDATE_RECV)
      || e_update c).
Definition not_updating (c : ecall) : bool := negb (e_update c).
Definition is_sending (vstate : icall_vstate) : bool :=
  bool_decide (vstate = ICALL_VIDEO_STATE_STARTED ∨ vstate = ICALL_VIDEO_STATE_SCREENSHARE).
Definition may_escalate (st : econn_state) : bool :=
  bool_decide (st = ECONN_ANSWERED ∨ st = ECONN_DATACHAN_ESTABLISHED).
Definition apply_vstate (vstate : icall_vstate) : EM Z :=
  umodify (λ c, {| c with e_vstate := vstate |});;
  c ← uget;
  (uwhen (bool_decide (e_conv_type c = ICALL_CONV_TYPE_ONEONONE))
     (call_cb CB_VSTATE_CHANGED
        (EeVstateChanged (Some (e_userid_self c)) (Some (e_clientid_self c)) vstate)));;
  video ← flow_ask false flow_has_video;
  if video : bool then
    err ← flow_call_ret (FlSetVideoState vstate) 0 flow_set_video_state;
    if negb (err =? 0) then mret err else sync_if not_updating false
  else if is_sending vstate && may_escalate (econn_current_state (e_econn c)) then
    _ ← ecall_restart ICALL_CALL_TYPE_VIDEO false; mret 0
  else sync_if not_updating false.
Definition ecall_set_video_send_state (vstate : icall_vstate) : EM Z :=
  c ← uget;
  if bool_decide (e_vstate c = vstate) then mret 0
  else if video_glare c then
    umodify (λ c, {| c with e_update_glare := true; e_glare_vstate := vstate |});; mret 0
  else
    (uwhen (bool_decide (vstate = ICALL_VIDEO_STATE_STARTED))
       (umodify (λ c, {| c with e_video_local := 1 |})));;
    err ← props_local_update "videosend" (vstate_strings vstate).1;
    if negb (err =? 0) then mret err
    else
      err ← props_local_update "screensend" (vstate_strings vstate).2;
      if negb (err =? 0) then mret err else apply_vstate vstate.

(** [ecall_update_mute_state] *)
Definition ecall_update_mute_state : EM Z :=
  n ← next;
  err ← props_local_update "muted" (if msystem_get_muted n then "true" else "false");
  if negb (err =? 0) then mret err else sync_if not_updating false.

(** [propsync_get_states]: the states of video and microphone, if there are any.
    A value that is not a string is undefined. *)
Definition propsync_get_states (h : props_heap) (props : econn_props_ref)
    : option (option icall_vstate * option bool) :=
  video ← econn_props_get h (Some props) (Some "videosend");
  screen ← econn_props_get h (Some props) (Some "screensend");
  mute ← econn_props_get h (Some props) (Some "muted");
  let v := match video with
           | Some vr => Some (if String.eqb vr "true" then ICALL_VIDEO_STATE_STARTED
                              else if String.eqb vr "paused" then ICALL_VIDEO_STATE_PAUSED
                              else ICALL_VIDEO_STATE_STOPPED)
           | None => None
           end in
  let v := match screen with
           | Some vr =>
             let vstate := default ICALL_VIDEO_STATE_STOPPED v in
             Some (if String.eqb vr "true" then ICALL_VIDEO_STATE_SCREENSHARE
                   else if String.eqb vr "paused"
                           && negb (bool_decide (vstate = ICALL_VIDEO_STATE_STARTED))
                   then ICALL_VIDEO_STATE_PAUSED else vstate)
           | None => v
           end in
  Some (v, option_map (λ mt, String.eqb mt "true") mute).

(** [propsync_handler] *)
Definition propsync_handler : EM () :=
  c ← uget;
  st ← (match e_props_remote c with
        | None => mret (None, None)
        | Some p => of_ptr (propsync_get_states (e_heap c) p)
        end);
  match st.1 with
  | Some vstate =>
    uwhen (negb (bool_decide (vstate = e_recv_state c)))
      (umodify (λ c, {| c with e_recv_state := vstate |});;
       (uwhen (bool_decide (vstate = ICALL_VIDEO_STATE_STARTED))
          (umodify (λ c, {| c with e_video_remote := 1 |})));;
       call_cb CB_VSTATE_CHANGED (EeVstateChanged (e_userid_peer c) (e_clientid_peer c) vstate))
  | None => mret ()
  end;;
  match st.2 with
  | Some muted =>
    uwhen (negb (eqb muted (e_remote_muted c)))
      (umodify (λ c, {| c with e_remote_muted := muted |});;
       call_cb CB_MUTED_CHANGED (EeMutedChanged (e_userid_peer c) (e_clientid_peer c) muted))
  | None => mret ()
  end.

(** [handle_propsync] *)
Definition handle_propsync (msg : econn_message) : EM Z :=
  err ← sync_if (λ c, econn_message_isrequest msg
                      && negb (bool_decide (e_conv_type c = ICALL_CONV_TYPE_CONFERENCE))) true;
  c ← uget;
  if e_propsynch c then uemit [EePropsync msg];; n ← next; mret (propsynch_ret n)
  else
    props ← of_ptr (match msg_u msg with u_propsync p => Some p | _ => None end);
    match props with
    | Some p => umodify (λ c, {| c with e_props_remote := Some p |})
    | None => mret ()
    end;;
    propsync_handler;;
    mret err.

(** ** The handlers of the connection *)

(** [econn_conn_handler] *)
Definition conn_handler (userid_sender clientid_sender : string) (sdp : option string)
    (props : option econn_props_ref) (reset : bool) (msg_time : Z) : EM Z :=
  c ← uget;
  err ← (if str_isset (e_userid_peer c) then mret 0
         else n ← next;
              if mem_ok n
              then umodify (λ c, {| c with e_userid_peer := Some userid_sender |});; mret 0
              else mret ENOMEM);
  if negb (err =? 0) then mret err
  else
    err ← (if reset || bool_decide (e_flow c = None)
           then alloc_flow ASYNC_ANSWER (e_call_type c) false
           else mret 0);
    if negb (err =? 0) then mret err
    else
      flow_call_do (FlSetRemote (Some userid_sender) (Some clientid_sender));;
      set_offer_sdp sdp;;
      (uwhen reset (umodify (λ c, {| c with e_props_remote := None |})));;
      c ← uget;
      if negb (bool_decide (e_props_remote c = None)) then mret EPROTO
      else
        umodify (λ c, {| c with e_props_remote := props |});;
        vr ← ecall_props_get_remote "videosend";
        let video_active := match vr with Some v => String.eqb v "true" | None => false end in
        if reset then
          umodify (λ c, {| c with e_async := ASYNC_NONE; e_update := false |});;
          c ← uget;
          ecall_answer (e_call_type c) (e_audio_cbr c)
        else
          call_cb CB_START (EeStart msg_time userid_sender clientid_sender video_active);;
          n ← next;
          umodify (λ c, {| c with e_ts_started := u64 (tmr_jiffies n);
                                  e_call_setup_time := -1 |});;
          mret 0.
Definition econn_conn_handler (msg_time : Z) (userid_sender clientid_sender : string)
    (sdp : option string) (props : option econn_props_ref) (reset : bool) : EM () :=
  err ← conn_handler userid_sender clientid_sender sdp props reset msg_time;
  uwhen (negb (err =? 0)) (ecall_close err msg_time).

(** [strstr(sdp, "x-streamchange") != NULL] *)
Fixpoint strstr (s pat : string) : bool :=
  String.prefix pat s || match s with EmptyString => false | String _ s => strstr s pat end.

(** [econn_update_req_handler] *)
Definition update_req_handler (userid_sender : string) (sdp : option string)
    (props : option econn_props_ref) : EM Z :=
  umodify (λ c, {| c with e_update := true |});;
  text ← of_ptr sdp;
  c ← uget;
  n ← next;
  err ← (if negb (bool_decide (e_flow c = None)) && strstr text "x-streamchange"
         then flow_call_do FlStopMedia;; mret 0
         else
           err ← alloc_flow ASYNC_ANSWER (e_call_type c) (e_audio_cbr c);
           (uwhen (err =? 0)
              (flow_call_do (FlSetRemote (Some userid_sender)
                                         (econn_clientid_remote (e_econn c)))));;
           mret err);
  if negb (err =? 0) then mret err
  else
    uemit [EeSetMuted (msystem_get_muted n)];;
    umodify (λ c, {| c with e_props_remote := props |});;
    propsync_handler;;
    umodify (λ c, {| c with e_async := ASYNC_NONE |});;
    set_offer_sdp sdp;;
    generate_or_gather_answer.
Definition econn_update_req_handler (userid_sender : string) (sdp : option string)
    (props : option econn_props_ref) : EM () :=
  err ← update_req_handler userid_sender sdp props;
  uwhen (negb (err =? 0)) (ecall_close err ECONN_MESSAGE_TIME_UNKNOWN).

(** [mf_restart_handler] *)
Definition mf_restart_handler (iflow : nat) (force_cbr : bool) : EM () :=
  c ← uget;
  if negb (bool_decide (e_flow c = Some iflow)) then mret ()
  else
    (uwhen (bool_decide (econn_current_state (e_econn c) = ECONN_ANSWERED) && force_cbr)
       (umodify (λ c, {| c with e_audio_cbr := true; e_delayed_restart := true |})));;
    uwhen (bool_decide (econn_current_state (e_econn c) = ECONN_DATACHAN_ESTABLISHED))
      (udone (ecall_restart (e_call_type c) true)).

(** [IFLOW_CALLE(ecall->flow, handle_answer, sdp)] *)
Definition flow_handle_answer (sdp : option string) : EM Z :=
  c ← uget;
  match e_flow c with
  | None => mret 0
  | Some a =>
    uemit [EeFlow a (FlHandleAnswer sdp)];;
    n ← next;
    (uwhen (flow_handle_answer_ret n).2 (mf_restart_handler a true));;
    mret (flow_handle_answer_ret n).1
  end.

(** [econn_answer_handler] *)
Definition answer_reset (sdp : option string) : EM Z :=
  c ← uget;
  err ← keep_muted (alloc_flow ASYNC_ANSWER (e_call_type c) false);
  if negb (err =? 0) then mret err
  else
    flow_call_do (FlSetRemote (econn_userid_remote (e_econn c))
                              (econn_clientid_remote (e_econn c)));;
    umodify (λ c, {| c with e_async := ASYNC_NONE |});;
    set_offer_sdp sdp;;
    err ← generate_or_gather_answer;
    if negb (err =? 0) then mret err
    else umodify (λ c, {| c with e_answered := true |});; mret 0.
Definition econn_answer_handler (reset : bool) (sdp : option string)
    (props : option econn_props_ref) : EM () :=
  n ← next;
  umodify (λ c, {| c with e_audio_setup_time := -1; e_call_estab_time := -1;
                          e_ts_answered := u64 (tmr_jiffies n) |});;
  if reset then
    err ← answer_reset sdp;
    uwhen (negb (err =? 0)) (ecall_close err ECONN_MESSAGE_TIME_UNKNOWN)
  else
    c ← uget;
    if e_answered c then mret ()
    else
      flow_call_do (FlSetRemote (econn_userid_remote (e_econn c))
                                (econn_clientid_remote (e_econn c)));;
      udone (flow_handle_answer sdp);;
      umodify (λ c, {| c with e_props_remote := props; e_answered := true |});;
      call_cb CB_ANSWER EeAnswer;;
      await_connection.

(** [econn_update_resp_handler] *)
Definition econn_update_resp_handler (sdp : option string) (props : option econn_props_ref)
    : EM () :=
  c ← uget;
  if negb (e_update c) then mret ()
  else
    err ← flow_handle_answer sdp;
    if negb (err =? 0) then ecall_close err ECONN_MESSAGE_TIME_UNKNOWN
    else
      umodify (λ c, {| c with e_props_remote := props |});;
      await_connection.

(** [econn_alert_handler], [econn_confmsg_handler], [econn_close_handler] and
    [econn_ping_handler] *)
Definition econn_alert_handler : EM () := mret ().
Definition econn_confmsg_handler (msg : econn_message) : EM () :=
  c ← uget; uwhen (e_confmsgh c) (uemit [EeConfmsg msg]).
Definition econn_close_handler (err msg_time : Z) : EM () :=
  ecall_media_stop;; ecall_close err msg_time.
Definition econn_ping_handler (response : bool) : EM () :=
  c ← uget; uwhen (e_pingh c) (uemit [EePing response]).

(** The handlers given to [econn_alloc]. *)
Definition econn_handler (ev : econn_event) : EM () :=
  match ev with
  | EvSend _ => mret ()
  | EvConn time userid clientid _ sdp props reset =>
    econn_conn_handler time userid clientid sdp props reset
  | EvAnswer reset sdp props => econn_answer_handler reset sdp props
  | EvUpdateReq userid _ sdp props _ => econn_update_req_handler userid sdp props
  | EvUpdateResp sdp props => econn_update_resp_handler sdp props
  | EvAlert _ _ => econn_alert_handler
  | EvConfmsg msg => econn_confmsg_handler msg
  | EvPing response => econn_ping_handler response
  | EvClose err time => econn_close_handler err time
  end.

(** A function of the connection that may call back. *)
Definition run_econn (m : (econn_message → Z) → ECM ()) : EM () := on_econn_with econn_handler m.

End Ops.
