(* ===== verification/EcallMsg.v ===== *)
(** * The end-to-end call: events and messages ([src/ecall/ecall.c], continued)

    The handlers of the flow and of the timers, the messages that arrive over the
    backend and over the data channel, the remaining functions of the interface,
    and all of them as operations on a call ([ecall_op], [ecall_exec]). *)

From stdpp Require Import gmap.
From S2P Require Import Prelude LibRe LibReJson Jzon EconnMsg EconnFmt Econn Icall AudioLevel UserList Ecall EcallOps.

#[local] Open Scope string_scope.
#[local] Open Scope Z_scope.

Section Ops.
Context `{LibRe, LibReJson, EcEnv}.

(** ** Timers *)

(** [connection_timeout_handler] *)
Definition connection_timeout_handler : EM () :=
  c ← uget;
  if bool_decide (e_conv_type c = ICALL_CONV_TYPE_GROUP)
  then udone (ecall_restart (e_call_type c) true)
  else uwhen (negb (e_cb c CB_MEDIA_ESTAB)) (ecall_close ETIMEDOUT ECONN_MESSAGE_TIME_UNKNOWN).

(** [econn_set_error(ecall->econn, err); ecall_end(ecall)], or [ecall_close] without
    a connection *)
Definition end_with_error (err : Z) : EM () :=
  c ← uget;
  if bool_decide (e_econn c = None) then ecall_close err ECONN_MESSAGE_TIME_UNKNOWN
  else on_econn (λ _, econn_set_error err);; ecall_end.

(** [media_start_timeout_handler] *)
Definition media_start_timeout_handler : EM () := end_with_error EIO.

(** [audio_level_handler] *)
Definition audio_level_handler : EM () :=
  tmr_start LEVEL_TMR TIMEOUT_AUDIO_LEVEL;;
  c ← uget;
  uwhen (e_cb c CB_AUDIO_LEVEL)
    (r ← flow_ask (0, []) flow_get_audio_level;
     uwhen (r.1 =? 0) (call_cb CB_AUDIO_LEVEL (EeAudioLevel r.2))).

(** [quality_handler] *)
Definition quality_metrics (stats : stats_report) (m : icall_metrics) : icall_metrics :=
  let dloss := u32 (st_lost_rx stats) in
  let rtt := u32 (st_rtt stats) in
  {| m with mt_packetloss_last := dloss;
            mt_packetloss_max := Z.max (mt_packetloss_max m) dloss;
            mt_rtt_last := rtt;
            mt_rtt_max := Z.max (mt_rtt_max m) rtt |}.
Definition quality_handler : EM () :=
  c ← uget;
  tmr_start QUALITY_TMR (e_quality_interval c);;
  uwhen (e_cb c CB_QUALITY && negb (bool_decide (e_flow c = None)) && negb (e_update c))
    (n ← next;
     let r := flow_get_stats n in
     uwhen (r.1 =? 0)
       (call_cb CB_QUALITY (EeQuality (e_userid_peer c) (e_clientid_peer c) r.2 (e_conv_type c));;
        umodify (λ c, {| c with e_metrics := quality_metrics r.2 (e_metrics c) |}))).

(** A timer expires: it is stopped, then its handler runs.  [dc_tmr] is never
    started. *)
Definition fire (t : ecall_timer) : EM () :=
  c ← uget;
  match e_timers c t with
  | None => mret ()
  | Some _ =>
    tmr_cancel t;;
    match t with
    | DC_TMR => mret ()
    | MEDIA_START_TMR => media_start_timeout_handler
    | CONNECTION_TMR => connection_timeout_handler
    | QUALITY_TMR => quality_handler
    | LEVEL_TMR => audio_level_handler
    end
  end.

(** The timer of the connection expires. *)
Definition econn_expire : EM () :=
  c ← uget; if bool_decide (e_econn c = None) then mret () else run_econn tmr_expire.

(** ** The handlers of the flow *)

(** A callback of the current flow; other flows are ignored. *)
Definition on_flow (iflow : nat) (m : EM ()) : EM () :=
  c ← uget; if negb (bool_decide (e_flow c = Some iflow)) then mret () else m.

(** [ecall_media_start] *)
Definition ecall_media_start : EM Z :=
  is_video ← ecall_props_get_local "videosend";
  c ← uget;
  (uwhen (match is_video with Some v => String.eqb v "true" | None => false end)
     (flow_call_do (FlSetVideoState (e_vstate c))));;
  tmr_cancel MEDIA_START_TMR;;
  mret 0.

(** [mf_estab_handler] *)
Definition mf_estab_handler (iflow : nat) : EM () :=
  on_flow iflow
    (c ← uget;
     (uwhen ((e_call_estab_time c <? 0) && negb (e_ts_answered c =? 0))
        (n ← next;
         umodify (λ c, {| c with e_call_estab_time := s32 (tmr_jiffies n - e_ts_answered c) |})));;
     umodify (λ c, {| c with e_audio_estab := true; e_established := true |});;
     tmr_cancel CONNECTION_TMR;;
     if e_cb c CB_MEDIA_ESTAB then
       tmr_start MEDIA_START_TMR TIMEOUT_MEDIA_START;;
       call_cb CB_MEDIA_ESTAB (EeMediaEstab (e_userid_peer c) (e_clientid_peer c) (e_update c))
     else
       err ← ecall_media_start;
       uwhen (negb (err =? 0)) ecall_end).

(** [mf_close_handler] *)
Definition mf_close_handler (iflow : nat) (err : Z) : EM () :=
  c ← uget;
  if bool_decide (e_oldflow c = Some iflow) then close_oldflow
  else
    on_flow iflow
      (if bool_decide (econn_current_state (e_econn c) = ECONN_ANSWERED)
          && (err =? ETIMEDOUT) && (e_num_retries c <? e_max_retries c)
       then udone (ecall_restart (e_call_type c) true)
       else end_with_error err).

(** [mf_stopped_handler] *)
Definition mf_stopped_handler (iflow : nat) : EM () :=
  on_flow iflow (call_cb CB_MEDIA_STOPPED EeMediaStopped).

(** [mf_gather_handler] *)
Definition is_ending (st : econn_state) : bool :=
  bool_decide (st = ECONN_TERMINATING ∨ st = ECONN_HANGUP_SENT ∨ st = ECONN_HANGUP_RECV).
Definition mf_gather_handler (iflow : nat) : EM () :=
  on_flow iflow
    (c ← uget;
     let finish (m : EM Z) : EM () :=
       err ← m;
       if negb (err =? 0) then ecall_close err ECONN_MESSAGE_TIME_UNKNOWN
       else umodify (λ c, {| c with e_async := ASYNC_COMPLETE |}) in
     if is_ending (econn_current_state (e_econn c)) then mret ()
     else
       match e_async c with
       | ASYNC_NONE | ASYNC_COMPLETE => mret ()
       | ASYNC_OFFER => finish offer_and_connect
       | ASYNC_ANSWER => finish (generate_answer (e_econn_pending c))
       end).

(** The loop of [channel_estab_handler] over the pending messages.  A message that
    is queued again is one more round: the loop is given as many rounds as there
    are messages. *)
Fixpoint send_pending (rounds : nat) : EM () :=
  c ← uget;
  match e_dce_pendingl c, rounds with
  | [], _ => mret ()
  | _ :: _, O => undef
  | mb :: _, S rounds =>
    _ ← ecall_dce_send mb;
    umodify (λ c, {| c with e_dce_pendingl := drop 1 (e_dce_pendingl c) |});;
    send_pending rounds
  end.

(** [channel_estab_handler] *)
Definition no_stats : stats_report := {| st_rtt := 0; st_lost_tx := 0; st_lost_rx := 0 |}.
Definition channel_sync : EM Z :=
  cbr ← flow_ask false flow_get_audio_cbr;
  err ← (if cbr : bool then props_local_update "audiocbr" "true" else mret 0);
  if negb (err =? 0) then mret err else sync_if (λ _, true) false.
Definition channel_ready : EM () :=
  c ← uget;
  send_pending (length (e_dce_pendingl c));;
  umodify (λ c, {| c with e_update := false; e_num_retries := 0;
    e_metrics := (let m := e_metrics c in
      if e_inc_reconnects c
      then {| m with mt_reconnects_successful := u32 (mt_reconnects_successful m + 1) |}
      else m);
    e_inc_reconnects := false |});;
  (uwhen (e_cb c CB_AUDIO_LEVEL) (tmr_start LEVEL_TMR TIMEOUT_AUDIO_LEVEL));;
  call_cb CB_DATACHAN_ESTAB (EeDatachanEstab (e_userid_peer c) (e_clientid_peer c) false);;
  call_cb CB_QUALITY (EeQuality (e_userid_peer c) (e_clientid_peer c) no_stats
                        ICALL_CONV_TYPE_ONEONONE);;
  uwhen (e_update_glare c)
    (umodify (λ c, {| c with e_update_glare := false |});;
     udone (ecall_set_video_send_state (e_glare_vstate c))).
Definition channel_estab_handler (iflow : nat) : EM () :=
  on_flow iflow
    (tmr_cancel DC_TMR;;
     close_oldflow;;
     c ← uget;
     (if bool_decide (e_econn c = None) then mret ()
      else on_econn (λ _, econn_set_datachan_established));;
     if e_delayed_restart c then
       umodify (λ c, {| c with e_delayed_restart := false |});;
       udone (ecall_restart (e_call_type c) false)
     else
       err ← channel_sync;
       if negb (err =? 0) then ecall_close err ECONN_MESSAGE_TIME_UNKNOWN else channel_ready).

(** [channel_close_handler] *)
Definition channel_close_handler (iflow : nat) : EM () :=
  on_flow iflow
    (c ← uget;
     if bool_decide (econn_current_state (e_econn c) = ECONN_DATACHAN_ESTABLISHED)
     then udone (ecall_restart (e_call_type c) true)
     else ecall_close EDATACHANNEL ECONN_MESSAGE_TIME_UNKNOWN).

(** [rtp_start_handler] *)
Definition rtp_start_handler (iflow : nat) (started : bool) : EM () :=
  on_flow iflow
    (uwhen started
       (c ← uget;
        umodify (λ c, {| c with e_num_retries := 0 |});;
        call_cb CB_AUDIO_ESTAB (EeAudioEstab (e_userid_peer c) (e_clientid_peer c) (e_update c));;
        uwhen ((e_audio_setup_time c <? 0) && negb (e_ts_answered c =? 0))
          (n ← next;
           umodify (λ c, {| c with
             e_audio_setup_time := s32 (tmr_jiffies n - e_ts_answered c);
             e_call_setup_time := s32 (tmr_jiffies n - e_ts_started c) |})))).

(** [acbr_detect_handler] *)
Definition is_true (v : option string) : bool :=
  match v with Some s => String.eqb s "true" | None => false end.
Definition acbr_detect_handler (iflow : nat) (enabled : bool) : EM () :=
  on_flow iflow
    (cl ← ecall_props_get_local "audiocbr";
     cr ← ecall_props_get_remote "audiocbr";
     c ← uget;
     let cbr_enabled := enabled && (is_true cr && is_true cl) in
     uwhen (negb (eqb cbr_enabled (e_cbr_state c)) && e_cb c CB_ACBR_CHANGED)
       (uemit [EeAcbrChanged (e_userid_peer c) (e_clientid_peer c) cbr_enabled];;
        umodify (λ c, {| c with e_cbr_state := cbr_enabled |}))).

(** [norelay_handler]; the flow that calls is not looked at. *)
Definition norelay_handler (iflow : nat) (local : bool) : EM () := call_cb CB_NORELAY (EeNorelay local).

(** ** Messages *)

(** [econn_recv_message(ecall->econn, ...)] *)
Definition recv_message (userid_sender clientid_sender : string) (msg : econn_message) : EM () :=
  c ← uget;
  if bool_decide (e_econn c = None) then mret ()
  else run_econn (λ tx, econn_recv_message tx userid_sender clientid_sender msg).

(** [data_channel_handler] *)
Definition data_channel_handler (iflow : nat) (data : string) : EM () :=
  c ← uget;
  let oldflow := bool_decide (e_oldflow c = Some iflow) in
  if negb oldflow && negb (bool_decide (e_flow c = Some iflow)) then mret ()
  else
    match econn_message_decode (e_heap c) 0 0 (Some data) with
    | inl _ => mret ()
    | inr DecodedBlank =>
      uwhen (negb oldflow) (trace_msg false ECONN_TRANSP_DIRECT None false 0)
    | inr (Decoded msg h) =>
      umodify (λ c, {| c with e_heap := h |});;
      if oldflow && negb (bool_decide (msg_type msg = ECONN_HANGUP)) then mret ()
      else
        (uwhen (negb (bool_decide (msg_type msg = ECONN_PING)))
           (ecall_trace msg false ECONN_TRANSP_DIRECT));;
        if bool_decide (msg_type msg = ECONN_PROPSYNC) then udone (handle_propsync msg)
        else
          match e_econn c with
          | Some conn => recv_message (ec_userid_remote conn) (ec_clientid_remote conn) msg
          | None => mret ()
          end
    end.

(** [ecall_set_peer_userid], [ecall_set_peer_clientid] *)
Definition ecall_set_peer_userid (userid : option string) : EM () :=
  umodify (λ c, {| c with e_userid_peer := userid |}).
Definition ecall_set_peer_clientid (clientid : option string) : EM () :=
  umodify (λ c, {| c with e_clientid_peer := clientid |}).

(** The beginning of [ecall_msg_recv]: the sender of the first message becomes the
    peer. *)
Definition learn_peer (userid_sender clientid_sender : string) : EM () :=
  c ← uget;
  (uwhen (bool_decide (e_userid_peer c = None)) (ecall_set_peer_userid (Some userid_sender)));;
  (uwhen (bool_decide (e_clientid_peer c = None))
     (ecall_set_peer_clientid (Some clientid_sender)));;
  c ← uget;
  flow_call_do (FlSetRemote (e_userid_peer c) (e_clientid_peer c)).

(** A message of another client of this user, in a one-to-one call. *)
Definition recv_own (msg : econn_message) : EM () :=
  c ← uget;
  if negb (bool_decide (econn_current_state (e_econn c) = ECONN_PENDING_INCOMING)) then mret ()
  else if bool_decide (msg_type msg = ECONN_SETUP) && resp msg
  then run_econn (λ tx, econn_close tx EALREADY (msg_time msg))
  else uwhen (bool_decide (msg_type msg = ECONN_REJECT))
         (call_cb CB_LEAVE (EeLeave ICALL_REASON_REJECTED 0)).

(** [ecall_msg_recv] *)
Definition ecall_msg_recv (userid_sender clientid_sender : string) (msg : econn_message) : EM Z :=
  ecall_trace msg false ECONN_TRANSP_BACKEND;;
  learn_peer userid_sender clientid_sender;;
  if bool_decide (msg_type msg = ECONN_PROPSYNC) then handle_propsync msg
  else
    c ← uget;
    if (str_casecmp (Some (e_userid_self c)) (Some userid_sender) =? 0)
       && bool_decide (e_conv_type c = ICALL_CONV_TYPE_ONEONONE)
    then recv_own msg;; mret 0
    else
      err ← (if bool_decide (e_econn c = None)
                && econn_is_creator_full (Some (e_userid_self c)) (Some (e_clientid_self c))
                     (Some userid_sender) (Some clientid_sender) (Some msg)
             then ecall_create_econn else mret 0);
      if negb (err =? 0) then mret err
      else recv_message userid_sender clientid_sender msg;; mret 0.

(** [ecall_transp_recv] *)
Definition ecall_transp_recv (curr_time mtime : Z) (userid_sender clientid_sender str : string)
    : EM () :=
  c ← uget;
  match econn_message_decode (e_heap c) curr_time mtime (Some str) with
  | inl _ => mret ()
  | inr DecodedBlank =>
    trace_msg false ECONN_TRANSP_BACKEND None false 0;;
    learn_peer userid_sender clientid_sender
  | inr (Decoded msg h) =>
    umodify (λ c, {| c with e_heap := h |});;
    udone (ecall_msg_recv userid_sender clientid_sender msg)
  end.

(** ** The rest of the interface *)

(** [icall_send_reject_msg] *)
Definition reject_targets (clientl : list (option icall_client)) (userid_local clientid_local : string)
    : list icall_client :=
  omap (λ cli, match cli with
               | Some cli =>
                 if strcaseeq (cl_userid cli) (Some userid_local)
                    && negb (strcaseeq (cl_clientid cli) (Some clientid_local))
                 then Some (icall_client_alloc (cl_userid cli) (cl_clientid cli)) else None
               | None => None
               end) clientl.
Definition reject_msg (userid_local clientid_local : string) : econn_message := {|
  msg_type := ECONN_REJECT; sessid_sender := "";
  src_userid := str_ncpy userid_local ECONN_ID_LEN;
  src_clientid := str_ncpy clientid_local ECONN_ID_LEN;
  dest_userid := ""; dest_clientid := "";
  resp := false; transient := false; msg_time := 0; msg_age := 0; msg_u := u_zero |}.
Definition icall_send_reject_msg (clientl : list (option icall_client))
    (userid_local clientid_local : string) : EM Z :=
  let targets := reject_targets clientl userid_local clientid_local in
  if bool_decide (targets = []) then mret 0
  else
    n ← next;
    if negb (mem_ok n) then mret ENOMEM
    else
      c ← uget;
      call_cb CB_SEND (EeSend userid_local (reject_msg userid_local clientid_local)
                         (Some targets) true);;
      mret (if e_cb c CB_SEND then sendh_ret n else 0).

(** [ecall_set_clients], [ecall_reject] *)
Definition ecall_set_clients (clientl : list (option icall_client)) : EM () :=
  c ← uget;
  uwhen (e_should_reject c)
    (_ ← icall_send_reject_msg clientl (e_userid_self c) (e_clientid_self c);
     umodify (λ c, {| c with e_should_reject := false |})).
Definition ecall_reject : EM () :=
  umodify (λ c, {| c with e_should_reject := true |});;
  call_cb CB_REQ_CLIENTS EeReqClients.

(** [ecall_add_turnserver] *)
Definition ecall_add_turnserver (srv : zapi_ice_server) : EM Z :=
  c ← uget;
  if (MAX_TURN_SERVERS <=? length (e_turnv c))%nat then mret 0
  else if String.prefix "turns:" (srv_url srv) then mret 0
  else umodify (λ c, {| c with e_turnv := (e_turnv c ++ [srv])%list; e_turn_added := true |});;
       mret 0.

(** [ecall_set_media_laddr] *)
Definition ecall_set_media_laddr (laddr : string) : EM Z :=
  umodify (λ c, {| c with e_media_laddr := None |});;
  n ← next;
  if negb (mem_ok n) then mret ENOMEM
  else umodify (λ c, {| c with e_media_laddr := Some laddr |});; mret 0.

(** [ecall_set_sessid]: the old text is released before it is known whether there
    is a new one. *)
Definition ecall_set_sessid (sessid : option string) : EM Z :=
  c ← uget;
  if e_sessid_freed c then undef else
  n ← next;
  match sessid with
  | Some s =>
    if mem_ok n then umodify (λ c, {| c with e_sessid := Some s |});; mret 0
    else umodify (λ c, {| c with e_sessid_freed := bool_decide (e_sessid c ≠ None) |});;
         mret ENOMEM
  | None =>
    umodify (λ c, {| c with e_sessid_freed := bool_decide (e_sessid c ≠ None) |});;
    mret EINVAL
  end.

(** [ecall_set_real_clientid] *)
Definition ecall_set_real_clientid (clientid : option string) : EM Z :=
  umodify (λ c, {| c with e_clientid_real := None |});;
  match clientid with
  | None => mret 0
  | Some s =>
    n ← next;
    if negb (mem_ok n) then mret ENOMEM
    else umodify (λ c, {| c with e_clientid_real := Some s |});; mret 0
  end.

(** [ecall_set_conf_part], [ecall_set_confmsg_handler], [ecall_set_propsync_handler]
    and [ecall_set_ping_handler] *)
Definition ecall_set_conf_part (cp : option nat) : EM () :=
  umodify (λ c, {| c with e_conf_part := cp |}).
Definition ecall_set_confmsg_handler (confmsgh : bool) : EM Z :=
  umodify (λ c, {| c with e_confmsgh := confmsgh |});; mret 0.
Definition ecall_set_propsync_handler (propsynch : bool) : EM Z :=
  umodify (λ c, {| c with e_propsynch := propsynch |});; mret 0.
Definition ecall_set_ping_handler (pingh : bool) : EM Z :=
  umodify (λ c, {| c with e_pingh := pingh |});; mret 0.
(** [ecall_update_ssrc], [ecall_add_decoders_for_user], [ecall_remove_decoders_for_user],
    [ecall_sync_decoders], [ecall_set_keystore] *)
Definition ecall_update_ssrc (ssrca ssrcv : Z) : EM Z :=
  flow_call_ret (FlUpdateSsrc ssrca ssrcv) 0 flow_ret.
Definition ecall_add_decoders_for_user (userid clientid : string) (userid_hash : option string)
    (ssrca ssrcv : Z) : EM Z :=
  if (ssrca =? 0) && (ssrcv =? 0) then mret EINVAL
  else flow_call_ret (FlAddDecoders userid clientid userid_hash ssrca ssrcv) 0 flow_ret.
Definition ecall_remove_decoders_for_user (userid clientid : string) (ssrca ssrcv : Z) : EM Z :=
  if (ssrca =? 0) && (ssrcv =? 0) then mret EINVAL
  else flow_call_ret (FlRemoveDecoders userid clientid) 0 flow_ret.
Definition ecall_sync_decoders : EM Z := flow_call_ret FlSyncDecoders 0 flow_ret.
Definition ecall_set_keystore (keystore : nat) : EM Z :=
  umodify (λ c, {| c with e_keystore := Some keystore |});;
  flow_call_do (FlSetKeystore keystore);;
  mret 0.

(** [ecall_set_quality_interval], [ecall_activate] *)
Definition ecall_set_quality_interval (interval : Z) : EM Z :=
  umodify (λ c, {| c with e_quality_interval := interval |});;
  (if interval =? 0 then tmr_cancel QUALITY_TMR else tmr_start QUALITY_TMR interval);;
  mret 0.
Definition ecall_activate (active : bool) : EM Z := mret (if active then 0 else EINVAL).

(** [_icall_restart] *)
Definition icall_restart : EM Z := c ← uget; ecall_restart (e_call_type c) true.

(** [_icall_get_members]: an error or the members. *)
Definition icall_get_members : EM (Z + list wcall_member) :=
  c ← uget;
  n1 ← next;
  if negb (mem_ok n1) then mret (inl ENOMEM)
  else
    n2 ← next;
    if negb (mem_ok n2) then mret (inl ENOMEM)
    else
      n ← next;
      let audio := if e_audio_estab c then ICALL_AUDIO_STATE_ESTABLISHED
                   else ICALL_AUDIO_STATE_CONNECTING in
      mret (inr (
        {| wm_userid := Some (e_userid_self c); wm_clientid := Some (e_clientid_self c);
           wm_audio_state := audio; wm_video_recv := e_vstate c;
           wm_muted := msystem_get_muted n |} ::
        if negb (bool_decide (e_userid_peer c = None))
           && negb (bool_decide (e_clientid_peer c = None))
        then [{| wm_userid := e_userid_peer c; wm_clientid := e_clientid_peer c;
                 wm_audio_state := audio; wm_video_recv := e_recv_state c;
                 wm_muted := e_remote_muted c |}]
        else [])).

(** [ecall_has_video], [ecall_state], [ecall_is_answered] *)
Definition ecall_has_video : EM bool :=
  c ← uget;
  if bool_decide (e_econn c = None) then mret false else flow_ask false flow_has_video.
Definition ecall_state (c : ecall) : econn_state := econn_current_state (e_econn c).
Definition ecall_is_answered (c : ecall) : bool := e_answered c.

(** [ecall_destructor]: what happens to the flows. *)
Definition ecall_destructor : EM () :=
  tmr_cancel DC_TMR;; tmr_cancel MEDIA_START_TMR;; tmr_cancel CONNECTION_TMR;;
  tmr_cancel QUALITY_TMR;; tmr_cancel LEVEL_TMR;;
  close_flow;; close_oldflow.

(** [ecall_find_convid], [ecall_find_userclient]: the first match in the list. *)
Definition ecall_find_convid (ecalls : list ecall) (convid : option string) : option ecall :=
  List.find (λ c, str_casecmp convid (Some (e_convid c)) =? 0) ecalls.
Definition ecall_find_userclient (ecalls : list ecall) (userid clientid : option string)
    : option ecall :=
  List.find (λ c, (str_casecmp userid (e_userid_peer c) =? 0)
                  && (str_casecmp clientid (e_clientid_peer c) =? 0)) ecalls.

(** ** Allocation *)

Definition metrics_zero : icall_metrics := {|
  mt_conv_type := ICALL_CONV_TYPE_ONEONONE; mt_duration_call := 0; mt_duration_active := 0;
  mt_participants_max := 0; mt_participants_audio_max := 0; mt_participants_video_max := 0;
  mt_participants_video_req := 0; mt_packetloss_last := 0; mt_packetloss_max := 0;
  mt_rtt_last := 0; mt_rtt_max := 0; mt_reconnects_attempted := 0;
  mt_reconnects_successful := 0; mt_initiator := false |}.

(** The object after [mem_zalloc], with the fields that [ecall_alloc] sets from its
    arguments. *)
Definition ecall_init (h : props_heap) (conv_type : icall_conv_type)
    (call_type : icall_call_type) (conf : option econn_conf)
    (convid userid_self clientid : string) : ecall := {|
  e_cb := λ _, false; e_call_type := call_type;
  e_vstate := if bool_decide (call_type = ICALL_CALL_TYPE_VIDEO)
              then ICALL_VIDEO_STATE_STARTED else ICALL_VIDEO_STATE_STOPPED;
  e_glare_vstate := ICALL_VIDEO_STATE_STOPPED;
  e_conf := default default_conf conf;
  e_econn := None; e_conv_type := conv_type; e_flow := None; e_oldflow := None;
  e_timers := λ _, None; e_heap := h; e_props_local := None; e_props_remote := None;
  e_propsynch := false; e_convid := convid; e_userid_self := userid_self;
  e_clientid_self := clientid; e_clientid_real := None; e_userid_peer := None;
  e_clientid_peer := None; e_sessid := None; e_sessid_freed := false;
  e_max_retries := match conv_type with
                   | ICALL_CONV_TYPE_CONFERENCE | ICALL_CONV_TYPE_GROUP => 2
                   | _ => 0 end;
  e_num_retries := 0; e_async := ASYNC_NONE; e_offer := None; e_econn_pending := false;
  e_answered := false; e_established := false; e_update := false; e_update_glare := false;
  e_delayed_restart := false; e_call_setup_time := 0; e_call_estab_time := 0;
  e_audio_setup_time := 0; e_ts_started := 0; e_ts_answered := 0; e_conf_part := None;
  e_tracel := []; e_ts_start := 0; e_devpair := false; e_audio_cbr := false;
  e_recv_state := ICALL_VIDEO_STATE_STOPPED; e_audio_estab := false; e_cbr_state := false;
  e_remote_muted := false; e_quality_interval := 0; e_turnv := []; e_turn_added := false;
  e_confmsgh := false; e_media_laddr := None; e_keystore := None; e_should_reject := false;
  e_pingh := false; e_metrics := metrics_zero; e_video_local := 0; e_video_remote := 0;
  e_inc_reconnects := false; e_dce_pendingl := []; e_tick := 0; e_nflow := 0 |}.

(** The properties a call starts with. *)
Definition initial_props (call_type : icall_call_type) (muted : bool) : list (string * string) :=
  [("videosend", if bool_decide (call_type = ICALL_CALL_TYPE_VIDEO) then "true" else "false");
   ("screensend", "false"); ("audiocbr", "false"); ("muted", if muted then "true" else "false")].
Fixpoint add_props (l : list (string * string)) : EM Z :=
  match l with
  | [] => mret 0
  | (key, val) :: l =>
    c ← uget;
    r ← of_ptr (econn_props_add (e_heap c) (e_props_local c) (Some key) (Some val));
    umodify (λ c, {| c with e_heap := r.2 |});;
    if negb (r.1 =? 0) then mret r.1 else add_props l
  end.
Definition alloc_steps (call_type : icall_call_type) : EM Z :=
  n ← next;
  if negb (mem_ok n) then mret ENOMEM
  else
    umodify (λ c, let r := econn_props_alloc (e_heap c) None in
                  {| c with e_heap := r.2; e_props_local := Some r.1 |});;
    n ← next;
    err ← add_props (initial_props call_type (msystem_get_muted n));
    if negb (err =? 0) then mret err
    else if negb (mem_ok n) then mret ENOMEM
    else
      n ← next;
      umodify (λ c, {| c with e_ts_start := u64 (tmr_jiffies n) |});;
      mret 0.

(** [ecall_alloc]; [msys] tells whether there is a media system. *)
Definition ecall_alloc (h : props_heap) (conv_type : icall_conv_type)
    (call_type : icall_call_type) (conf : option econn_conf) (msys : bool)
    (convid userid_self clientid : string) : option (Z + ecall) :=
  if negb msys || negb (str_isset (Some convid)) then Some (inl EINVAL)
  else
    match alloc_steps call_type
            (ecall_init h conv_type call_type conf convid userid_self clientid) with
    | None => None
    | Some (err, c, _) => Some (if err =? 0 then inr c else inl err)
    end.

(** [icall_set_callbacks], which the owner of a call does once. *)
Definition icall_set_callbacks (cb : icall_cb → bool) (c : ecall) : ecall :=
  {| c with e_cb := cb |}.

(** ** Operations *)

Inductive ecall_op :=
| DoStart (call_type : icall_call_type) (audio_cbr : bool)
| DoAnswer (call_type : icall_call_type) (audio_cbr : bool)
| DoEnd
| DoReject
| DoMediaStart
| DoMediaStop
| DoSetVideoSendState (vstate : icall_vstate)
| DoUpdateMuteState
| DoRestart
| DoSetClients (clientl : list (option icall_client))
| DoGetMembers
| DoDceSend (mb : string)
| DoSyncProps (response : bool)
| DoPropsSet (key value : string)
| DoPing (response : bool)
| DoAddTurnserver (srv : zapi_ice_server)
| DoSetMediaLaddr (laddr : string)
| DoSetSessid (sessid : option string)
| DoSetPeer (userid clientid : option string)
| DoSetRealClientid (clientid : option string)
| DoSetConfPart (cp : option nat)
| DoSetHandlers (confmsgh propsynch pingh : bool)
| DoUpdateSsrc (ssrca ssrcv : Z)
| DoAddDecoders (userid clientid : string) (userid_hash : option string) (ssrca ssrcv : Z)
| DoRemoveDecoders (userid clientid : string) (ssrca ssrcv : Z)
| DoSyncDecoders
| DoSetKeystore (keystore : nat)
| DoSetQualityInterval (interval : Z)
| DoTranspRecv (curr_time mtime : Z) (userid clientid str : string)
| DoFlowEstab (flow : nat)
| DoFlowClose (flow : nat) (err : Z)
| DoFlowStopped (flow : nat)
| DoFlowRestart (flow : nat) (force_cbr : bool)
| DoFlowGather (flow : nat)
| DoChannelEstab (flow : nat)
| DoChannelData (flow : nat) (data : string)
| DoChannelClose (flow : nat)
| DoRtpStart (flow : nat) (started : bool)
| DoAcbrDetect (flow : nat) (enabled : bool)
| DoNorelay (iflow : nat) (local : bool)
| DoTimer (t : ecall_timer)
| DoEconnTimer.

Definition ecall_exec (o : ecall_op) : EM () :=
  match o with
  | DoStart ct cbr => udone (ecall_start ct cbr)
  | DoAnswer ct cbr => udone (ecall_answer ct cbr)
  | DoEnd => ecall_end
  | DoReject => ecall_reject
  | DoMediaStart => udone ecall_media_start
  | DoMediaStop => ecall_media_stop
  | DoSetVideoSendState v => udone (ecall_set_video_send_state v)
  | DoUpdateMuteState => udone ecall_update_mute_state
  | DoRestart => udone icall_restart
  | DoSetClients cl => ecall_set_clients cl
  | DoGetMembers => udone icall_get_members
  | DoDceSend mb => udone (ecall_dce_send mb)
  | DoSyncProps r => udone (ecall_sync_props r)
  | DoPropsSet k v => udone (ecall_props_set_local k v)
  | DoPing r => udone (ecall_ping r)
  | DoAddTurnserver srv => udone (ecall_add_turnserver srv)
  | DoSetMediaLaddr a => udone (ecall_set_media_laddr a)
  | DoSetSessid s => udone (ecall_set_sessid s)
  | DoSetPeer u cl => ecall_set_peer_userid u;; ecall_set_peer_clientid cl
  | DoSetRealClientid cl => udone (ecall_set_real_clientid cl)
  | DoSetConfPart cp => ecall_set_conf_part cp
  | DoSetHandlers a b p =>
    _ ← ecall_set_confmsg_handler a; _ ← ecall_set_propsync_handler b;
    udone (ecall_set_ping_handler p)
  | DoUpdateSsrc a v => udone (ecall_update_ssrc a v)
  | DoAddDecoders u cl h a v => udone (ecall_add_decoders_for_user u cl h a v)
  | DoRemoveDecoders u cl a v => udone (ecall_remove_decoders_for_user u cl a v)
  | DoSyncDecoders => udone ecall_sync_decoders
  | DoSetKeystore ks => udone (ecall_set_keystore ks)
  | DoSetQualityInterval i => udone (ecall_set_quality_interval i)
  | DoTranspRecv ct mt u cl s => ecall_transp_recv ct mt u cl s
  | DoFlowEstab f => mf_estab_handler f
  | DoFlowClose f err => mf_close_handler f err
  | DoFlowStopped f => mf_stopped_handler f
  | DoFlowRestart f b => mf_restart_handler f b
  | DoFlowGather f => mf_gather_handler f
  | DoChannelEstab f => channel_estab_handler f
  | DoChannelData f d => data_channel_handler f d
  | DoChannelClose f => channel_close_handler f
  | DoRtpStart f b => rtp_start_handler f b
  | DoAcbrDetect f b => acbr_detect_handler f b
  | DoNorelay f b => norelay_handler f b
  | DoTimer t => fire t
  | DoEconnTimer => econn_expire
  end.

End Ops.
