(* ===== verification/EcallSpec.v ===== *)
(** * What a call keeps, and how to prove it

    The invariant of a call ([ecall_ok]), what every function preserves ([sp]:
    the invariant, the flows it opens and closes, the calls of the close handler),
    and the rules by which the functions are shown to do so. *)

From stdpp Require Import gmap.
From S2P Require Import Prelude LibRe LibReJson Jzon EconnMsg EconnFmt EconnFmtSpec EconnFmtProps Econn EconnSpec Icall AudioLevel UserList Ecall EcallOps EcallMsg.

#[local] Open Scope string_scope.
#[local] Open Scope Z_scope.
#[local] Open Scope list_scope.

Create HintDb ecall.

(** ** The invariant *)

(** A connection of a call: it has a transport, its timer runs while it waits,
    and its close handler is gone only when it has ended. *)
Record conn_ok (conn : econn) : Prop := {
  ck_setup : timeout_setup (ec_conf conn) ≠ 0;
  ck_timer : timer_ok conn;
  ck_transp : ec_transp conn = Some {| sendh := true |};
  ck_closeh : ec_closeh conn = false → ec_state conn = ECONN_TERMINATING;
}.

(** Properties, if there are any, are live dictionaries of strings. *)
Definition props_opt_ok (h : props_heap) (p : option econn_props_ref) : Prop :=
  ∀ r, p = Some r → props_ok h r.

Record ecall_ok (c : ecall) : Prop := {
  ok_conf : timeout_setup (e_conf c) ≠ 0;
  ok_conn : ∀ conn, e_econn c = Some conn → conn_ok conn;
  ok_local : ∃ p, e_props_local c = Some p ∧ props_ok (e_heap c) p;
  ok_remote : props_opt_ok (e_heap c) (e_props_remote c);
  ok_update : e_update c = true → is_Some (e_econn c);
  ok_pending : e_econn_pending c = true → is_Some (e_econn c);
  ok_sess : e_sessid_freed c = false;
}.

(** ** What a computation does *)

(** The flows a call owns, and those that were opened and closed. *)
Definition flows (c : ecall) : list nat := option_list (e_flow c) ++ option_list (e_oldflow c).
Definition opened1 (e : ecall_event) : list nat :=
  match e with EeFlowAlloc a _ _ => [a] | _ => [] end.
Definition closed1 (e : ecall_event) : list nat :=
  match e with EeFlow a FlClose => [a] | _ => [] end.
Definition opened (es : list ecall_event) : list nat := es ≫= opened1.
Definition closed (es : list ecall_event) : list nat := es ≫= closed1.

(** How often the application was told that the call is closed. *)
Definition close1 (e : ecall_event) : nat := match e with EeClose _ _ _ _ _ => 1 | _ => 0 end.
Definition close_calls (es : list ecall_event) : nat := list_sum (close1 <$> es).
Definition close_set (c : ecall) : nat := Nat.b2n (e_cb c CB_CLOSE).

(** From [c] to [c'] with the events [es]: the invariant holds, connection and
    local properties stay, live properties stay so, flows are owned or closed, and
    the close handler is called when it is consumed, and consumed when it is called
    unless the call is a conference. *)
Record sp (c c' : ecall) (es : list ecall_event) : Prop := {
  sp_ok : ecall_ok c';
  sp_conn : is_Some (e_econn c) → is_Some (e_econn c');
  sp_heap : ∀ p, props_ok (e_heap c) p → props_ok (e_heap c') p;
  sp_local : e_props_local c' = e_props_local c;
  sp_conv : e_conv_type c' = e_conv_type c;
  sp_flows : flows c ++ opened es ≡ₚ closed es ++ flows c';
  sp_nflow : (e_nflow c ≤ e_nflow c')%nat;
  sp_fresh : Forall (λ a, e_nflow c ≤ a < e_nflow c')%nat (opened es) ∧ NoDup (opened es);
  sp_closes : e_conv_type c ≠ ICALL_CONV_TYPE_CONFERENCE →
              (close_calls es + close_set c' = close_set c)%nat;
  sp_told : (close_set c ≤ close_calls es + close_set c')%nat;
}.

Lemma opened_app e1 e2 : opened (e1 ++ e2) = opened e1 ++ opened e2.
Proof. apply bind_app. Qed.
Lemma closed_app e1 e2 : closed (e1 ++ e2) = closed e1 ++ closed e2.
Proof. apply bind_app. Qed.
Lemma close_calls_app e1 e2 : close_calls (e1 ++ e2) = (close_calls e1 + close_calls e2)%nat.
Proof. unfold close_calls. by rewrite fmap_app, list_sum_app. Qed.

Lemma sp_refl c : ecall_ok c → sp c c [].
Proof.
  intros Hok. split; try done; cbn; [by rewrite app_nil_r|]. split; [constructor|apply NoDup_nil_2].
Qed.

Lemma sp_trans c c1 c2 e1 e2 : sp c c1 e1 → sp c1 c2 e2 → sp c c2 (e1 ++ e2).
Proof.
  intros [O1 C1 H1 L1 V1 F1 N1 [B1 D1] S1 T1] [O2 C2 H2 L2 V2 F2 N2 [B2 D2] S2 T2].
  split; try congruence; eauto; rewrite ?opened_app, ?closed_app, ?close_calls_app.
  - by rewrite app_assoc, F1, <-!app_assoc, F2.
  - lia.
  - rewrite Forall_app, NoDup_app. rewrite Forall_forall in B1, B2. split_and!; try done.
    + apply Forall_forall. intros a Ha. specialize (B1 a Ha). lia.
    + apply Forall_forall. intros a Ha. specialize (B2 a Ha). lia.
    + intros a Ha1 Ha2. specialize (B1 a Ha1). specialize (B2 a Ha2). lia.
  - intros Hv. rewrite <-S1, <-S2 by congruence. lia.
  - lia.
Qed.

(** ** Rules *)

Section Rules.
Context `{LR : LibRe, LJ : LibReJson, EN : EcEnv}.

(** [m] is defined from [c] and does what it should. *)
Definition safe {A} (m : EM A) (c : ecall) : Prop := wp m (λ _ c' es, sp c c' es) c.

Lemma safe_ret {A} (a : A) c : ecall_ok c → safe (mret a) c.
Proof. apply sp_refl. Qed.

Lemma safe_bind {A B} (m : EM A) (k : A → EM B) c :
  safe m c → (∀ a c1 es, m c = Some (a, c1, es) → sp c c1 es → safe (k a) c1) →
  safe (m ≫= k) c.
Proof.
  unfold safe, wp, mbind, MU_bind. destruct (m c) as [[[a c1] e1]|]; [|done].
  intros H1 H2. specialize (H2 a c1 e1 eq_refl H1).
  destruct (k a c1) as [[[b c2] e2]|]; [|done]. by eapply sp_trans.
Qed.

Lemma safe_bind_wp {A B} (m : EM A) (k : A → EM B) c (P : A → ecall → Prop) :
  wp m (λ a c1 es, sp c c1 es ∧ P a c1) c →
  (∀ a c1 es, sp c c1 es → P a c1 → safe (k a) c1) → safe (m ≫= k) c.
Proof.
  unfold safe, wp, mbind, MU_bind. destruct (m c) as [[[a c1] e1]|]; [|done].
  intros [H1 HP] H2. specialize (H2 a c1 e1 H1 HP).
  destruct (k a c1) as [[[b c2] e2]|]; [|done]. by eapply sp_trans.
Qed.

Lemma safe_get {B} (k : ecall → EM B) c : safe (k c) c → safe (uget ≫= k) c.
Proof.
  unfold safe, wp, mbind, MU_bind, uget. by destruct (k c c) as [[[b c2] e2]|].
Qed.

Lemma safe_modify (f : ecall → ecall) c : sp c (f c) [] → safe (umodify f) c.
Proof. done. Qed.

Lemma safe_emit es c : ecall_ok c → opened es = [] → closed es = [] → close_calls es = 0%nat →
  safe (uemit es) c.
Proof.
  intros Hok Ho Hc Hn. unfold safe, wp, uemit. split; try done; rewrite ?Ho, ?Hc, ?Hn; try done.
  - by rewrite app_nil_r.
  - split; [constructor|apply NoDup_nil_2].
Qed.

Lemma safe_of_ptr {A} (o : option A) c : ecall_ok c → is_Some o → safe (of_ptr o) c.
Proof. intros Hok [a ->]. by apply safe_ret. Qed.

Lemma safe_ptr {A B} (o : option A) a (k : A → EM B) c :
  o = Some a → safe (k a) c → safe (of_ptr o ≫= k) c.
Proof.
  intros ->. unfold safe, wp, mbind, MU_bind, of_ptr, mret, MU_ret.
  by destruct (k a c) as [[[b c2] e2]|].
Qed.

Lemma safe_when b m c : ecall_ok c → (b = true → safe m c) → safe (uwhen b m) c.
Proof. intros Hok Hm. destruct b; [by apply Hm|by apply safe_ret]. Qed.

Lemma safe_done {A} (m : EM A) c : safe m c → safe (udone m) c.
Proof. intros Hm. apply safe_bind; [done|]. intros a c1 es _ Hs. apply safe_ret, Hs. Qed.

End Rules.

#[global] Arguments safe : simpl never.
#[export] Hint Resolve sp_ok safe_ret : ecall.

(** ** The connection *)

Section Conn.
Context `{LR : LibReSpec}.

Lemma call_transp tx call conn :
  match do_call tx call conn with (_, conn', _) => ec_transp conn' = ec_transp conn end.
Proof. destruct call; eval_all; done. Qed.

(** The messages and callbacks a call can lead to. *)
Definition call_ev_ok (call : econn_call) (ev : econn_event) : Prop :=
  match ev with
  | EvSend msg =>
    match msg_type msg with
    | ECONN_PROPSYNC => ∃ rsp p, call = CallPropsync rsp p ∧ msg_u msg = u_propsync (Some p)
    | _ => True
    end
  | EvConn _ _ _ _ sdp props _ | EvAnswer _ sdp props =>
    ∃ u cl m, call = CallRecv u cl m ∧ msg_type m = ECONN_SETUP
              ∧ sdp = setup_sdp_msg m ∧ props = setup_props m
  | EvUpdateReq _ _ sdp props _ | EvUpdateResp sdp props =>
    ∃ u cl m, call = CallRecv u cl m ∧ msg_type m = ECONN_UPDATE
              ∧ sdp = setup_sdp_msg m ∧ props = setup_props m
  | EvAlert _ _ | EvConfmsg _ | EvPing _ => ∃ u cl m, call = CallRecv u cl m
  | EvClose _ _ =>
    (∃ u cl m, call = CallRecv u cl m) ∨ call = CallTimer ∨ ∃ err time, call = CallClose err time
  end.

Lemma sent_ev_ok call conn msg :
  msg_type msg ≠ ECONN_PROPSYNC → Forall (call_ev_ok call) (sent conn msg).
Proof.
  intros Ht. unfold sent. split_cases; repeat constructor. cbn. by destruct (msg_type msg).
Qed.

Lemma call_events tx call conn : Forall (call_ev_ok call) (events (do_call tx call conn)).
Proof.
  destruct call; unfold events; eval_all; rewrite ?app_nil_r.
  all: repeat first [apply Forall_app; split | apply Forall_cons; split | apply Forall_nil_2
                    | apply sent_ev_ok; done].
  all: try (cbn; eauto 10).
  all: unfold sent; split_cases; repeat constructor; cbn; eauto.
Qed.

Lemma call_conn_ok tx call conn : conn_ok conn → conn_ok (final (do_call tx call conn)).
Proof.
  intros [Hs Ht Hp Hc].
  pose proof (call_timer tx call conn Hs Ht) as Htimer.
  pose proof (call_transp tx call conn) as Htransp.
  pose proof (call_closes tx call conn) as Hcl.
  pose proof (call_terminating tx call conn) as Hterm.
  unfold final. destruct (do_call tx call conn) as [[[] conn'] evs]. cbn.
  destruct Htimer as [Hcf Ht'], Hcl as [Hcl1 Hcl2].
  split; [congruence|done|congruence|].
  intros E. rewrite E in Hcl1. destruct (ec_closeh conn) eqn:E0; cbn in Hcl1.
  - apply Hcl2. lia.
  - by apply Hterm, Hc.
Qed.

Lemma ignore_final {A} (m : ECM A) conn : final (ignore m conn) = final (m conn).
Proof. unfold final, ignore. run_M. by destruct (m conn) as [[a c] e]. Qed.
Lemma ignore_events {A} (m : ECM A) conn : events (ignore m conn) = events (m conn).
Proof. unfold events, ignore. run_M. destruct (m conn) as [[a c] e]. cbn. apply app_nil_r. Qed.

Lemma alloc_conn_ok zok dok rand cf uid cid sess conn :
  timeout_setup cf ≠ 0 →
  econn_alloc zok dok rand (Some cf) uid cid sess (Some {| sendh := true |})
    true true true true true true true true = inr conn →
  conn_ok conn ∧ ec_state conn = ECONN_IDLE.
Proof.
  intros Hcf. unfold econn_alloc.
  destruct (_ || _), (negb zok), (negb dok); try done. intros [= <-].
  split; [|done]. split; cbn; try done. intros _. by eexists.
Qed.

Lemma pending_conn_ok conn :
  conn_ok conn → ec_state conn = ECONN_IDLE →
  conn_ok (final (econn_set_state ECONN_PENDING_OUTGOING conn)).
Proof.
  intros [Hs Ht Hp Hc] Hst. rewrite set_state_eval. unfold final. cbn.
  split; cbn; try done.
  - intros _. apply Ht. by rewrite Hst.
  - intros E. by rewrite (Hc E) in Hst.
Qed.

End Conn.

(** ** Steps that leave the core alone *)

(** A silent step. *)
Lemma sp_silent c c' :
  ecall_ok c' → (is_Some (e_econn c) → is_Some (e_econn c')) →
  (∀ p, props_ok (e_heap c) p → props_ok (e_heap c') p) →
  e_props_local c' = e_props_local c → e_conv_type c' = e_conv_type c → flows c' = flows c →
  e_nflow c' = e_nflow c → e_cb c' CB_CLOSE = e_cb c CB_CLOSE → sp c c' [].
Proof.
  intros Hok Hc Hh Hl Hv Hf Hn Hcb. split; try done.
  - by rewrite Hf, app_nil_r.
  - by rewrite Hn.
  - split; [constructor|apply NoDup_nil_2].
  - intros _. unfold close_set. by rewrite Hcb.
  - unfold close_set. by rewrite Hcb.
Qed.

(** Everything but the flows. *)
Definition same_core (c c' : ecall) : Prop :=
  e_conf c' = e_conf c ∧ e_econn c' = e_econn c ∧ e_heap c' = e_heap c
  ∧ e_props_local c' = e_props_local c ∧ e_props_remote c' = e_props_remote c
  ∧ e_update c' = e_update c ∧ e_econn_pending c' = e_econn_pending c
  ∧ e_sessid_freed c' = e_sessid_freed c ∧ e_conv_type c' = e_conv_type c
  ∧ e_cb c' CB_CLOSE = e_cb c CB_CLOSE.

Lemma sp_core_flows c c' es :
  ecall_ok c → same_core c c' →
  flows c ++ opened es ≡ₚ closed es ++ flows c' → (e_nflow c ≤ e_nflow c')%nat →
  Forall (λ a, e_nflow c ≤ a < e_nflow c')%nat (opened es) → NoDup (opened es) →
  close_calls es = 0%nat → sp c c' es.
Proof.
  intros [] (E1 & E2 & E3 & E4 & E5 & E6 & E7 & E8 & E9 & E10) Hf Hn Hb Hd Hc.
  split; try done.
  - split; rewrite ?E1, ?E2, ?E3, ?E4, ?E5, ?E6, ?E7, ?E8; done.
  - by rewrite E2.
  - by rewrite E3.
  - unfold close_set. by rewrite Hc, E10.
  - unfold close_set. by rewrite Hc, E10.
Qed.

Lemma sp_core c c' :
  ecall_ok c → same_core c c' → flows c' = flows c → e_nflow c' = e_nflow c → sp c c' [].
Proof.
  intros Hok Hc Hf Hn. apply sp_core_flows; try done.
  all: rewrite ?Hf, ?Hn, ?app_nil_r; done || apply NoDup_nil_2 || constructor.
Qed.

Ltac inert := solve [apply sp_core; [eauto with ecall|repeat split|reflexivity..]].
