(* ===== verification/EcallSafe.v ===== *)
(** * Every function of a call is safe

    From a call that satisfies the invariant no function of [ecall.c] leads to
    undefined behaviour; it keeps the invariant, owns or closes the flows it
    opens, and consumes the close handler when it calls it. *)

From stdpp Require Import gmap.
From S2P Require Import Prelude LibRe LibReJson Jzon EconnMsg EconnFmt EconnFmtSpec EconnFmtProps Econn EconnSpec Icall AudioLevel UserList Ecall EcallOps EcallMsg EcallSpec.

#[local] Open Scope string_scope.
#[local] Open Scope Z_scope.
#[local] Open Scope list_scope.

(** One step of the code. *)
Ltac safe_bind :=
  apply safe_bind;
  [|let a := fresh "a" in let c1 := fresh "c" in let es := fresh "es" in
    let Hs := fresh "Hs" in let Hok := fresh "Hok" in
    intros a c1 es _ Hs; assert (Hok : ecall_ok c1) by apply Hs].
Ltac safe_step :=
  lazymatch goal with
  | |- safe (uget ≫= _) _ => apply safe_get
  | |- safe (_ ≫= _) _ => safe_bind
  | |- safe (mret _) _ => apply safe_ret; assumption
  | |- safe (uwhen _ _) _ => apply safe_when; [assumption|intros ?]
  | |- safe (udone _) _ => apply safe_done
  | |- safe (umodify _) _ => apply safe_modify; try inert
  | |- safe (uemit _) _ => apply safe_emit; [assumption|reflexivity..]
  | |- safe (if ?b then _ else _) _ => destruct b eqn:?
  | |- safe (match ?o with Some _ => _ | None => _ end) _ => destruct o eqn:?
  | |- safe _ _ => solve [eauto with ecall]
  end.
Ltac safe_steps := cbv beta zeta; repeat (safe_step; cbv beta zeta).

(** Properties that were live some steps ago. *)
Ltac carry_props :=
  repeat (let r := fresh in let Hr := fresh in
          intros r Hr; eapply sp_heap; [eassumption|]; revert r Hr); done.

(** What a computation with the result [E] leaves alone. *)
Ltac run_eq E :=
  unfold call_cb, uwhen, next, umodify, uget, uemit, mbind, MU_bind, mret, MU_ret in E;
  repeat case_match; simplify_eq; reflexivity.

#[export] Hint Extern 2 (is_Some (e_econn _)) => (eapply sp_conn; [eassumption|]) : ecall.
#[export] Hint Extern 1 (ecall_ok _) => assumption : ecall.

Section Safe.
Context `{LR : LibReSpec, LJ : LibReJson, LJS : !LibReJsonSpec, EN : EcEnv}.
Implicit Types c : ecall.

(** ** Primitives *)

Lemma next_safe c : ecall_ok c → safe next c.
Proof. intros Hok. unfold next. safe_steps. Qed.

Lemma tmr_start_safe t d c : ecall_ok c → safe (tmr_start t d) c.
Proof. intros Hok. unfold tmr_start. safe_steps. Qed.
Lemma tmr_cancel_safe t c : ecall_ok c → safe (tmr_cancel t) c.
Proof. intros Hok. unfold tmr_cancel. safe_steps. Qed.

Lemma call_cb_safe k e c :
  ecall_ok c → opened [e] = [] → closed [e] = [] → close_calls [e] = 0%nat → safe (call_cb k e) c.
Proof. intros Hok ???. unfold call_cb. safe_steps. by apply safe_emit. Qed.

Lemma flow_do_safe o f c : ecall_ok c → f ≠ FlClose → safe (flow_do o f) c.
Proof.
  intros Hok Hf. unfold flow_do. safe_steps. apply safe_emit; [done|done| |done].
  unfold closed, closed1. by destruct f.
Qed.
Lemma flow_call_do_safe f c : ecall_ok c → f ≠ FlClose → safe (flow_call_do f) c.
Proof. intros Hok Hf. unfold flow_call_do. safe_steps. by apply flow_do_safe. Qed.
#[local] Hint Resolve next_safe tmr_start_safe tmr_cancel_safe flow_call_do_safe : ecall.
#[local] Hint Extern 1 (safe (call_cb _ _) _) => apply call_cb_safe; [|reflexivity..] : ecall.
#[local] Hint Extern 1 (_ ≠ FlClose) => discriminate : ecall.

Lemma flow_call_ret_safe {A} f (z : A) ret c :
  ecall_ok c → f ≠ FlClose → safe (flow_call_ret f z ret) c.
Proof.
  intros Hok Hf. unfold flow_call_ret. safe_steps.
  apply safe_emit; [done|done| |done]. unfold closed, closed1. by destruct f.
Qed.
Lemma flow_ask_safe {A} (z : A) ret c : ecall_ok c → safe (flow_ask z ret) c.
Proof. intros Hok. unfold flow_ask. safe_steps. Qed.
#[local] Hint Resolve flow_call_ret_safe flow_ask_safe : ecall.

Lemma trace_safe tx tp t rsp age c : ecall_ok c → safe (trace_msg tx tp t rsp age) c.
Proof. intros Hok. unfold trace_msg. safe_steps. Qed.
Lemma ecall_trace_safe m tx tp c : ecall_ok c → safe (ecall_trace m tx tp) c.
Proof. intros Hok. by apply trace_safe. Qed.
#[local] Hint Resolve trace_safe ecall_trace_safe : ecall.

(** ** Properties *)

Lemma props_get_defined h p key : props_opt_ok h p → is_Some (econn_props_get h p key).
Proof.
  intros Hp. unfold econn_props_get. destruct p as [p|]; [|by eexists].
  destruct key as [k|]; [|by eexists]. destruct (negb _); [by eexists|].
  destruct (Hp p eq_refl) as (d & Hd & Hn & Hs). rewrite Hd. cbn.
  rewrite lookup_nodup by done. clear Hd Hn.
  induction Hs as [|[k' w] d [s Hw] Hs IH]; cbn in *; [by eexists|].
  case_bool_decide; [subst w; by eexists|done].
Qed.

Lemma props_update_ok h p key val :
  props_ok h p →
  ∃ h', econn_props_update h p key (Some val) = Some (0, h')
        ∧ ∀ q, props_ok h q → props_ok h' q.
Proof.
  intros Hp. destruct (props_update_spec h p key val Hp) as (d & d' & Hd & _ & E & Hn & Hs & _).
  exists (<[p := d']> h). split; [done|]. intros q (dq & Hq & Hrest).
  destruct (decide (q = p)) as [->|Hne].
  - exists d'. split; [apply (lookup_insert_eq h)|done].
  - exists dq. split; [|done]. by rewrite (lookup_insert_ne h).
Qed.

Lemma props_add_ok h p key val :
  props_ok h p → key ≠ "" → econn_props_get h (Some p) (Some key) = Some None →
  ∃ h', econn_props_add h (Some p) (Some key) (Some val) = Some (0, h')
        ∧ ∀ q, props_ok h q → props_ok h' q.
Proof.
  intros (d & Hd & Hn & Hs) Hk Hg. rewrite (props_get_spec _ _ d) in Hg by done.
  assert (key ∉ d.*1) as Hnew.
  { intros ([k v] & -> & Hin)%list_elem_of_fmap. cbn in *.
    rewrite (LibReJsonRef.lookup_first_in d k v) in Hg by done.
    rewrite Forall_forall in Hs. destruct (Hs _ Hin) as [s Es]. cbn in Es. by subst. }
  unfold econn_props_add. rewrite Hd. cbn. rewrite odict_entry_add_fresh by done.
  exists (<[p := d ++ [(key, ODICT_STRING val)]]> h). split; [done|]. intros q (dq & Hq & Hnq & Hsq).
  destruct (decide (q = p)) as [->|Hne].
  - exists (d ++ [(key, ODICT_STRING val)]). split; [apply (lookup_insert_eq h)|]. split.
    + rewrite fmap_app. apply NoDup_app. split; [done|]. split; [|apply NoDup_singleton].
      by intros k Hin ->%list_elem_of_singleton.
    + apply Forall_app. split; [done|]. constructor; [by exists val|constructor].
  - exists dq. split; [|done]. by rewrite (lookup_insert_ne h).
Qed.

Lemma sp_heap_grows c h :
  ecall_ok c → (∀ q, props_ok (e_heap c) q → props_ok h q) → sp c {| c with e_heap := h |} [].
Proof.
  intros [? ? (p & Hp & Hpo) Hr ? ? ?] Hh. apply sp_silent; try done.
  split; cbn; try done; [by exists p; auto|]. intros r Er. auto.
Qed.

Lemma props_local_update_safe key val c : ecall_ok c → safe (props_local_update key val) c.
Proof.
  intros Hok. unfold props_local_update. safe_step.
  destruct (ok_local c Hok) as (p & Hp & Hpo).
  destruct (props_update_ok _ _ key val Hpo) as (h & E & Hh).
  apply (safe_ptr _ p); [done|]. apply (safe_ptr _ (0, h)); [done|].
  safe_steps. by apply sp_heap_grows.
Qed.
#[local] Hint Resolve props_local_update_safe : ecall.

Lemma local_opt_ok c : ecall_ok c → props_opt_ok (e_heap c) (e_props_local c).
Proof. intros [? ? (p & Hp & Hpo) ? ? ? ?] r. rewrite Hp. by intros [= <-]. Qed.

Lemma props_get_local_safe key c : ecall_ok c → safe (ecall_props_get_local key) c.
Proof.
  intros Hok. unfold ecall_props_get_local. safe_steps.
  apply safe_of_ptr; [done|]. by apply props_get_defined, local_opt_ok.
Qed.
Lemma props_get_remote_safe key c : ecall_ok c → safe (ecall_props_get_remote key) c.
Proof.
  intros Hok. unfold ecall_props_get_remote. safe_steps.
  apply safe_of_ptr; [done|]. apply props_get_defined, (ok_remote c Hok).
Qed.
#[local] Hint Resolve props_get_local_safe props_get_remote_safe : ecall.

Lemma props_set_local_safe key val c :
  ecall_ok c → key ≠ "" → safe (ecall_props_set_local key val) c.
Proof.
  intros Hok Hk. unfold ecall_props_set_local. safe_step. safe_step; [|safe_step].
  destruct (ok_local c Hok) as (p & Hp & Hpo).
  destruct (props_get_defined (e_heap c) (e_props_local c) (Some key)) as [v Ev];
    [by apply local_opt_ok|].
  apply (safe_ptr _ v); [done|]. destruct v as [v|]; [safe_step|].
  rewrite Hp in Ev |- *. destruct (props_add_ok _ _ key val Hpo Hk Ev) as (h & E & Hh).
  apply (safe_ptr _ (0, h)); [done|]. safe_steps. by apply sp_heap_grows.
Qed.

Lemma update_mute_props_safe c : ecall_ok c → safe update_mute_props c.
Proof. intros Hok. unfold update_mute_props. safe_steps. Qed.
#[local] Hint Resolve update_mute_props_safe : ecall.

(** ** Sending *)

Definition sends_ok (h : props_heap) (msg : econn_message) : Prop :=
  match msg_type msg with
  | ECONN_PROPSYNC => ∃ p, msg_u msg = u_propsync (Some p) ∧ props_ok h p
  | _ => True
  end.

Lemma encode_defined h msg :
  send_transport (msg_type msg) = Some ECONN_TRANSP_DIRECT → sends_ok h msg →
  is_Some (econn_message_encode h msg).
Proof.
  intros Ht Hs. unfold econn_message_encode.
  assert (is_Some (payload_encode h (msg_type msg) (msg_u msg))) as [e ->]; [|by eexists].
  unfold sends_ok in Hs. destruct (msg_type msg); try done.
  destruct Hs as (p & -> & d & Hd & _). unfold payload_encode, econn_props_encode. cbn.
  rewrite Hd. by eexists.
Qed.

Lemma dce_sendmsg_safe msg c :
  ecall_ok c → send_transport (msg_type msg) = Some ECONN_TRANSP_DIRECT →
  sends_ok (e_heap c) msg → safe (ecall_dce_sendmsg msg) c.
Proof.
  intros Hok Ht Hs. unfold ecall_dce_sendmsg. safe_step.
  destruct (encode_defined _ _ Ht Hs) as [r Er]. apply (safe_ptr _ r); [done|].
  destruct r; safe_steps.
Qed.

Lemma dce_send_safe mb c : ecall_ok c → safe (ecall_dce_send mb) c.
Proof. intros Hok. unfold ecall_dce_send. safe_steps. Qed.

Lemma send_handler_safe n msg c :
  ecall_ok c → sends_ok (e_heap c) msg → safe (send_handler n msg) c.
Proof.
  intros Hok Hs. unfold send_handler. safe_step.
  destruct (send_transport (msg_type (address_msg c msg))) as [[]|] eqn:Ht; safe_steps.
  by apply dce_sendmsg_safe.
Qed.

(** ** The connection *)

(** What the handlers need of the callback at hand. *)
Definition ev_ok (c : ecall) (ev : econn_event) : Prop :=
  match ev with
  | EvSend msg => sends_ok (e_heap c) msg
  | EvConn _ _ _ _ _ props _ | EvAnswer _ _ props | EvUpdateResp _ props =>
    props_opt_ok (e_heap c) props
  | EvUpdateReq _ _ sdp props _ => is_Some sdp ∧ props_opt_ok (e_heap c) props
  | _ => True
  end.

Lemma ev_ok_sp c c' es ev : sp c c' es → ev_ok c ev → ev_ok c' ev.
Proof.
  intros Hs. pose proof (sp_heap _ _ _ Hs) as Hh. unfold ev_ok, sends_ok, props_opt_ok.
  destruct ev; try by intuition eauto. destruct (msg_type m); try done.
  intros (p & ? & ?). eauto.
Qed.

Lemma dispatch_safe cb n evs c :
  (∀ ev c', ev ∈ evs → (∀ m, ev ≠ EvSend m) → ecall_ok c' → is_Some (e_econn c') →
            ev_ok c' ev → safe (cb ev) c') →
  ecall_ok c → is_Some (e_econn c) → Forall (ev_ok c) evs → safe (dispatch cb n evs) c.
Proof.
  intros Hcb. revert c. induction evs as [|ev evs IH]; intros c Hok Hconn Hev; [by apply safe_ret|].
  apply Forall_cons in Hev as [He Hev].
  assert (∀ c1 es, sp c c1 es → safe (dispatch cb n evs) c1) as Hrest.
  { intros c1 es Hs. apply IH; [|by eapply sp_ok|by eapply sp_conn|].
    - intros ev' c' Hin. apply Hcb. by right.
    - eapply Forall_impl; [exact Hev|]. intros x. by eapply ev_ok_sp. }
  destruct ev; cbn [dispatch]; (apply safe_bind; [|intros a c1 es _ Hs; by eapply Hrest]).
  all: try by apply send_handler_safe.
  all: apply Hcb; try done; by left.
Qed.

Lemma sp_set_conn c conn :
  ecall_ok c → conn_ok conn → sp c {| c with e_econn := Some conn |} [].
Proof.
  intros [] Hc. apply sp_silent; try done. split; cbn; try done. intros conn' [= <-]. done.
Qed.

(** A call on the connection, with handlers for what it may call back. *)
Lemma on_econn_with_safe {A} cb (m : (econn_message → Z) → ECM A) c conn :
  ecall_ok c → e_econn c = Some conn →
  (∀ tx, conn_ok (final (m tx conn)) ∧ Forall (ev_ok c) (events (m tx conn))) →
  (∀ tx ev c', ev ∈ events (m tx conn) → (∀ m, ev ≠ EvSend m) → ecall_ok c' →
            is_Some (e_econn c') → ev_ok c' ev → safe (cb ev) c') →
  safe (on_econn_with cb m) c.
Proof.
  intros Hok Hconn Hm Hcb. unfold on_econn_with. safe_step.
  apply (safe_ptr _ conn); [done|]. safe_step; [safe_step|].
  destruct (Hm (send_err c a)) as [Hcok Hev].
  apply safe_bind; [apply safe_modify; by apply sp_set_conn|]. intros [] c1 es1 E Hs1.
  injection E as <- _.
  apply safe_bind; [|intros ? ? ? _ Hs2; apply safe_ret, Hs2].
  apply dispatch_safe; [|apply Hs1|by eexists|].
  - intros ev c' Hin. by apply (Hcb (send_err c a)).
  - eapply Forall_impl; [exact Hev|]. intros ev He. eapply ev_ok_sp; [exact Hs1|].
    by eapply ev_ok_sp.
Qed.

(** A call that does not call back. *)
Definition nested (call : econn_call) : Prop :=
  match call with CallRecv _ _ _ | CallTimer | CallClose _ _ => False | _ => True end.
Definition call_props_ok (c : ecall) (call : econn_call) : Prop :=
  match call with CallPropsync _ p => props_ok (e_heap c) p | _ => True end.

(** [m] is [call] with a result. *)
Definition is_call {A} (m : (econn_message → Z) → ECM A) (call : econn_call) : Prop :=
  ∀ tx conn, final (m tx conn) = final (do_call tx call conn)
             ∧ events (m tx conn) = events (do_call tx call conn).

Lemma is_call_ignore {A} (m : (econn_message → Z) → ECM A) call :
  (∀ tx, do_call tx call = ignore (m tx)) → is_call m call.
Proof. intros E tx conn. by rewrite E, ignore_final, ignore_events. Qed.
Lemma is_call_eq (m : (econn_message → Z) → ECM ()) call :
  (∀ tx, do_call tx call = m tx) → is_call m call.
Proof. intros E tx conn. by rewrite E. Qed.

Lemma nested_sends call ev : nested call → call_ev_ok call ev → ∃ m, ev = EvSend m.
Proof.
  destruct call; try done; intros _; destruct ev; cbn; eauto; intros Hev.
  all: repeat match goal with
       | H : ∃ _, _ |- _ => destruct H
       | H : _ ∧ _ |- _ => destruct H
       | H : _ ∨ _ |- _ => destruct H
       end; discriminate.
Qed.

Lemma on_econn_safe {A} (m : (econn_message → Z) → ECM A) call c :
  ecall_ok c → is_Some (e_econn c) → is_call m call → nested call → call_props_ok c call →
  safe (on_econn m) c.
Proof.
  intros Hok [conn Hconn] Hm Hn Hp. apply (on_econn_with_safe _ _ _ conn); [done|done| |].
  - intros tx. destruct (Hm tx conn) as [-> ->].
    split; [by apply call_conn_ok, (ok_conn c Hok)|].
    eapply Forall_impl; [apply call_events|]. intros ev Hev.
    destruct (nested_sends _ _ Hn Hev) as [msg ->]. cbn in Hev |- *.
    unfold sends_ok. destruct (msg_type msg); try done.
    destruct Hev as (rsp & p & -> & Hu). by exists p.
  - intros tx ev c' Hin Hns. destruct (Hm tx conn) as [_ Ee]. rewrite Ee in Hin.
    pose proof (call_events tx call conn) as Hall. rewrite Forall_forall in Hall.
    destruct (nested_sends _ _ Hn (Hall ev Hin)) as [msg ->]. by destruct (Hns msg).
Qed.

Ltac econn_step call :=
  apply (on_econn_safe _ call);
  [assumption|eauto 12 with ecall|first [by apply is_call_ignore|by apply is_call_eq]|done|try done].

Lemma send_propsync_safe rsp c : ecall_ok c → is_Some (e_econn c) → safe (send_propsync rsp) c.
Proof.
  intros Hok Hconn. unfold send_propsync. safe_step. destruct (ok_local c Hok) as (p & -> & Hp).
  econn_step (CallPropsync rsp p).
Qed.

Lemma can_send_conn o : can_send_propsync o = true → is_Some o.
Proof. by destruct o. Qed.

Lemma sync_if_safe cond rsp c : ecall_ok c → safe (sync_if cond rsp) c.
Proof.
  intros Hok. unfold sync_if. safe_steps. to_prop. apply send_propsync_safe; [done|].
  by apply can_send_conn.
Qed.

Lemma sync_props_safe rsp c : ecall_ok c → safe (ecall_sync_props rsp) c.
Proof.
  intros Hok. unfold ecall_sync_props. safe_steps. to_prop.
  apply send_propsync_safe; [done|]. by apply can_send_conn.
Qed.

Lemma not_none {A} (o : option A) : o ≠ None → is_Some o.
Proof. by apply not_eq_None_Some. Qed.
#[local] Hint Resolve not_none sync_if_safe : ecall.

Lemma ping_safe rsp c : ecall_ok c → safe (ecall_ping rsp) c.
Proof.
  intros Hok. unfold ecall_ping. safe_step. safe_step; [safe_step|]. to_prop.
  econn_step (CallPing rsp).
Qed.

Lemma end_safe c : ecall_ok c → safe ecall_end c.
Proof.
  intros Hok. unfold ecall_end. safe_steps. to_prop. econn_step CallEnd.
Qed.
#[local] Hint Resolve ping_safe end_safe : ecall.

(** [ecall_create_econn] leaves an idle connection when it succeeds. *)
Lemma create_econn_safe c :
  ecall_ok c → e_econn c = None →
  wp ecall_create_econn (λ err c' es,
    sp c c' es ∧ (err = 0 → ∃ conn, e_econn c' = Some conn ∧ ec_state conn = ECONN_IDLE)) c.
Proof.
  intros Hok Hn.
  unfold ecall_create_econn, next, wp, uget, umodify, mbind, MU_bind, mret, MU_ret.
  rewrite Hn, (ok_sess c Hok), bool_decide_true by done. cbn -[econn_alloc].
  match goal with |- context [match ?x with inl _ => _ | inr _ => _ end] =>
    destruct x as [err|conn] eqn:E end; cbn -[econn_alloc].
  - split; [inert|]. intros ->. exfalso. revert E. unfold econn_alloc.
    repeat case_match; intros [= ?]; discriminate.
  - apply alloc_conn_ok in E as [Hc Hst]; [|apply Hok]. split; [|eauto].
    apply (sp_trans _ {| c with e_tick := S (S (e_tick c)) |} _ [] []); [inert|].
    apply (sp_set_conn {| c with e_tick := S (S (e_tick c)) |}); [|done].
    apply (sp_ok c _ []). inert.
Qed.

(** ** Flows *)

Lemma close_flow_safe c : ecall_ok c → safe close_flow c.
Proof.
  intros Hok. unfold close_flow. safe_step. unfold safe, wp, umodify, mbind, MU_bind.
  destruct (e_flow c) as [a|] eqn:E; cbn; (apply sp_core_flows; try done).
  all: unfold flows; rewrite ?E; cbn; rewrite ?app_nil_r; try done.
  all: apply NoDup_nil_2.
Qed.

Lemma close_oldflow_safe c : ecall_ok c → safe close_oldflow c.
Proof.
  intros Hok. unfold close_oldflow. safe_step. unfold safe, wp, umodify, mbind, MU_bind.
  destruct (e_oldflow c) as [a|] eqn:E; cbn; (apply sp_core_flows; try done).
  all: unfold flows; rewrite ?E; cbn; rewrite ?app_nil_r; try done.
  all: first [apply NoDup_nil_2 | symmetry; apply Permutation_cons_append].
Qed.
#[local] Hint Resolve close_flow_safe close_oldflow_safe : ecall.

Lemma cb_clear_safe k c : ecall_ok c → k ≠ CB_CLOSE → safe (cb_clear k) c.
Proof.
  intros Hok Hk. apply safe_modify. apply sp_core; [done| |done|done].
  repeat split. cbn. rewrite bool_decide_false; [done|congruence].
Qed.
#[local] Hint Resolve cb_clear_safe : ecall.
#[local] Hint Extern 1 (_ ≠ CB_CLOSE) => discriminate : ecall.

(** The close handler is cleared and called. *)
Lemma close_once_safe err time c :
  ecall_ok c → e_cb c CB_CLOSE = true →
  safe (cb_clear CB_CLOSE;;
        c ← uget;
        uemit [EeClose err (if e_ts_answered c =? 0 then None else Some (e_metrics c)) time
                 (e_userid_peer c) (e_clientid_peer c)]) c.
Proof.
  intros [] Hcb. unfold safe, wp, cb_clear, umodify, uget, uemit, mbind, MU_bind. cbn.
  split; try done.
  - by rewrite app_nil_r.
  - split; [constructor|apply NoDup_nil_2].
  - intros _. unfold close_set. cbn. by rewrite Hcb.
  - unfold close_set. cbn. by rewrite Hcb.
Qed.

Lemma close_safe err time c : ecall_ok c → safe (ecall_close err time) c.
Proof.
  intros Hok. unfold ecall_close.
  do 8 (safe_bind; [safe_steps|]). safe_step.
  apply safe_bind.
  { safe_steps. }
  intros [] c8 es8 E8 Hs8. apply safe_when; [apply Hs8|]. intros Hcb.
  assert (e_cb c8 CB_CLOSE = true) as Hcb8 by (rewrite <-Hcb; run_eq E8).
  assert (ecall_ok c8) as Hok8 by apply Hs8.
  apply safe_bind; [safe_steps|]. intros [] c9 es9 E9 Hs9.
  apply close_once_safe; [apply Hs9|]. rewrite <-Hcb8. run_eq E9.
Qed.
#[local] Hint Resolve close_safe : ecall.

(** After the flow was retired there is none. *)
Lemma retire_flow_safe c : ecall_ok c → wp retire_flow (λ _ c' es, sp c c' es ∧ e_flow c' = None) c.
Proof.
  intros Hok. unfold retire_flow, wp, uget, umodify, mbind, MU_bind.
  destruct (e_oldflow c) as [a|] eqn:E; cbn; (split; [|done]; apply sp_core_flows; try done).
  all: unfold flows; rewrite ?E; cbn; rewrite ?app_nil_r; try done.
  all: first [apply NoDup_nil_2 | symmetry; apply Permutation_cons_append].
Qed.

Lemma new_flow_safe ct c : ecall_ok c → e_flow c = None → safe (new_flow ct) c.
Proof.
  intros Hok Hf.
  unfold new_flow, next, safe, wp, uget, umodify, uemit, mbind, MU_bind, mret, MU_ret.
  destruct (negb _); cbn; [inert|]. apply sp_core_flows; try done; unfold flows; cbn.
  - rewrite Hf. cbn. symmetry. apply Permutation_cons_append.
  - lia.
  - repeat constructor; cbn; lia.
  - apply NoDup_singleton.
Qed.

Lemma add_turnservers_safe srvs c : ecall_ok c → safe (add_turnservers srvs) c.
Proof.
  revert c. induction srvs as [|srv srvs IH]; intros c Hok; cbn [add_turnservers]; safe_steps.
Qed.
#[local] Hint Resolve add_turnservers_safe : ecall.

Lemma gather_all_safe offer c : ecall_ok c → safe (gather_all offer) c.
Proof. intros Hok. by apply flow_call_do_safe. Qed.
#[local] Hint Resolve gather_all_safe : ecall.

Lemma alloc_flow_safe role ct cbr c : ecall_ok c → safe (alloc_flow role ct cbr) c.
Proof.
  intros Hok. unfold alloc_flow. apply (safe_bind_wp _ _ _ (λ _ c1, e_flow c1 = None)).
  { eapply wp_mono; [by apply retire_flow_safe|]. by intros [] c1 es [? ?]. }
  intros [] c1 es Hs Hf. assert (ecall_ok c1) by apply Hs.
  safe_bind; [by apply new_flow_safe|]. safe_steps.
Qed.
#[local] Hint Resolve alloc_flow_safe : ecall.

Lemma keep_muted_safe {A} (m : EM A) c :
  ecall_ok c → (∀ c', ecall_ok c' → safe m c') → safe (keep_muted m) c.
Proof. intros Hok Hm. unfold keep_muted. safe_steps. Qed.

(** ** Offers and answers *)

Lemma set_offer_safe sdp c : ecall_ok c → safe (set_offer_sdp sdp) c.
Proof. intros Hok. unfold set_offer_sdp. safe_steps. Qed.
Lemma await_safe c : ecall_ok c → safe await_connection c.
Proof. intros Hok. unfold await_connection. safe_steps. Qed.
#[local] Hint Resolve set_offer_safe await_safe : ecall.

Lemma offer_safe c : ecall_ok c → safe offer_and_connect c.
Proof.
  intros Hok. unfold offer_and_connect, update_req, start_conn. safe_steps.
  - econn_step (CallUpdateReq (Some a0.2) (e_props_local c1)). by apply (ok_update c1).
  - to_prop. econn_step (CallStart (Some a0.2) (e_props_local c1)).
Qed.
#[local] Hint Resolve offer_safe : ecall.

Lemma generate_offer_safe c : ecall_ok c → safe generate_offer c.
Proof. intros Hok. unfold generate_offer. safe_steps. Qed.
#[local] Hint Resolve generate_offer_safe : ecall.

Lemma generate_answer_safe b c :
  ecall_ok c → (b = true → is_Some (e_econn c)) → safe (generate_answer b) c.
Proof.
  intros Hok Hb. unfold generate_answer. safe_steps; to_prop; subst.
  - econn_step (CallUpdateResp (Some a0.2) (e_props_local c1)).
  - econn_step (CallAnswer (Some a0.2) (e_props_local c1)).
Qed.

Lemma sp_set_pending c b st :
  ecall_ok c → (b = true → is_Some (e_econn c)) →
  sp c {| c with e_async := st; e_econn_pending := b |} [].
Proof. intros [] Hb. by apply sp_silent. Qed.
Lemma sp_set_update c : ecall_ok c → is_Some (e_econn c) → sp c {| c with e_update := true |} [].
Proof. intros [] Hb. by apply sp_silent. Qed.
Lemma sp_set_remote c p :
  ecall_ok c → props_opt_ok (e_heap c) p → sp c {| c with e_props_remote := p |} [].
Proof. intros [] Hp. by apply sp_silent. Qed.

Lemma gather_answer_safe c : ecall_ok c → safe generate_or_gather_answer c.
Proof.
  intros Hok. unfold generate_or_gather_answer. safe_steps.
  - apply generate_answer_safe; [done|]. intros Hb. to_prop. eauto 12 with ecall.
  - apply sp_set_pending; [done|]. intros Hb. to_prop. eauto with ecall.
Qed.
#[local] Hint Resolve gather_answer_safe : ecall.

Lemma answer_safe ct cbr c : ecall_ok c → safe (ecall_answer ct cbr) c.
Proof. intros Hok. unfold ecall_answer. safe_steps. Qed.
#[local] Hint Resolve answer_safe : ecall.

Lemma set_pending_outgoing_safe c conn :
  ecall_ok c → e_econn c = Some conn → ec_state conn = ECONN_IDLE →
  safe (on_econn (λ _, econn_set_state ECONN_PENDING_OUTGOING)) c.
Proof.
  intros Hok Hc Hst. apply (on_econn_with_safe _ _ _ conn); [done|done| |].
  - intros tx. split; [by apply pending_conn_ok; [apply (ok_conn c Hok)|]|].
    rewrite set_state_eval. constructor.
  - intros tx ev c' Hin. rewrite set_state_eval in Hin. by apply not_elem_of_nil in Hin.
Qed.

Lemma start_safe ct cbr c : ecall_ok c → safe (ecall_start ct cbr) c.
Proof.
  intros Hok. unfold ecall_start. safe_step. safe_step; [safe_steps|]. to_prop.
  apply safe_bind; [safe_step|]. intros [] c1 es1 E Hs1. injection E as <- _.
  apply (safe_bind_wp _ _ _ (λ err c', err = 0 →
           ∃ conn, e_econn c' = Some conn ∧ ec_state conn = ECONN_IDLE)).
  { eapply wp_mono; [apply create_econn_safe; [apply Hs1|done]|]. by cbn. }
  intros err c2 es2 Hs2 Hconn. assert (ecall_ok c2) by apply Hs2.
  safe_step; [safe_step|]. to_prop. destruct (Hconn Heqb0) as (conn & Ec & Hst).
  safe_bind; [by eapply set_pending_outgoing_safe|]. safe_steps.
Qed.
#[local] Hint Resolve start_safe : ecall.

Lemma restart_close_safe err time c :
  ecall_ok c → e_conv_type c = ICALL_CONV_TYPE_CONFERENCE →
  safe (call_cb CB_CLOSE (EeClose err None time None None)) c.
Proof.
  intros Hok Hv. unfold call_cb. safe_steps. unfold safe, wp, uemit. split; try done.
  - by rewrite app_nil_r.
  - split; [constructor|apply NoDup_nil_2].
  - cbn. lia.
Qed.

Lemma can_restart_conn o : can_restart (econn_current_state o) = true → is_Some o.
Proof. by destruct o. Qed.

Lemma restart_safe ct notify c : ecall_ok c → safe (ecall_restart ct notify) c.
Proof.
  intros Hok. unfold ecall_restart. safe_step. safe_step; [safe_step|]. safe_step.
  - to_prop. safe_bind; [by apply restart_close_safe|]. safe_step.
  - to_prop. safe_bind.
    { apply safe_modify. apply (sp_trans _ {| c with e_update := true |} _ [] []).
      - by apply sp_set_update; [|apply can_restart_conn].
      - assert (ecall_ok {| c with e_update := true |}).
        { apply (sp_ok c _ []). by apply sp_set_update; [|apply can_restart_conn]. }
        inert. }
    safe_bind; [safe_steps|].
    safe_bind; [apply keep_muted_safe; [done|]; intros; safe_step|]. safe_steps.
Qed.
#[local] Hint Resolve restart_safe : ecall.

(** ** Video, microphone, properties *)

Lemma set_video_safe v c : ecall_ok c → safe (ecall_set_video_send_state v) c.
Proof. intros Hok. unfold ecall_set_video_send_state, apply_vstate. safe_steps. Qed.
Lemma update_mute_safe c : ecall_ok c → safe ecall_update_mute_state c.
Proof. intros Hok. unfold ecall_update_mute_state. safe_steps. Qed.
#[local] Hint Resolve set_video_safe update_mute_safe : ecall.

Lemma propsync_states_defined h p : props_ok h p → is_Some (propsync_get_states h p).
Proof.
  intros Hp. assert (props_opt_ok h (Some p)) as Ho by (by intros r [= <-]).
  unfold propsync_get_states.
  destruct (props_get_defined h (Some p) (Some "videosend") Ho) as [v ->].
  destruct (props_get_defined h (Some p) (Some "screensend") Ho) as [sc ->].
  destruct (props_get_defined h (Some p) (Some "muted") Ho) as [m ->].
  by eexists.
Qed.

Lemma propsync_handler_safe c : ecall_ok c → safe propsync_handler c.
Proof.
  intros Hok. unfold propsync_handler. safe_steps.
  apply safe_of_ptr; [done|]. apply propsync_states_defined. by apply (ok_remote c Hok).
Qed.
#[local] Hint Resolve propsync_handler_safe : ecall.

Lemma handle_propsync_safe msg c p :
  ecall_ok c → msg_u msg = u_propsync p → props_opt_ok (e_heap c) p → safe (handle_propsync msg) c.
Proof.
  intros Hok Hu Hp. unfold handle_propsync. safe_bind; [safe_step|]. safe_step.
  safe_step; [safe_steps|]. rewrite Hu. apply (safe_ptr _ p); [done|]. safe_steps.
  apply sp_set_remote; [done|]. intros r Hr. eapply sp_heap; [done|]. naive_solver.
Qed.

(** ** The handlers of the connection *)

Lemma sp_clear_update c st :
  ecall_ok c → sp c {| c with e_async := st; e_update := false |} [].
Proof. intros []. by apply sp_silent. Qed.

Lemma conn_handler_safe t u cl sdp p reset c :
  ecall_ok c → props_opt_ok (e_heap c) p → safe (econn_conn_handler t u cl sdp p reset) c.
Proof.
  intros Hok Hp. unfold econn_conn_handler, conn_handler. safe_steps.
  all: try (apply sp_set_remote; [done|]; try (intros r Hr; by simplify_eq)).
  all: try by apply sp_clear_update.
  all: carry_props.
Qed.

Lemma update_req_safe u sdp p c :
  ecall_ok c → is_Some (e_econn c) → is_Some sdp → props_opt_ok (e_heap c) p →
  safe (econn_update_req_handler u sdp p) c.
Proof.
  intros Hok Hconn [text ->] Hp. unfold econn_update_req_handler, update_req_handler.
  safe_bind; [|safe_steps].
  safe_bind; [apply safe_modify; by apply sp_set_update|].
  apply (safe_ptr _ text); [done|]. safe_steps.
  apply sp_set_remote; [done|].
  carry_props.
Qed.

Lemma restart_handler_safe flow force c : ecall_ok c → safe (mf_restart_handler flow force) c.
Proof. intros Hok. unfold mf_restart_handler. safe_steps. Qed.
#[local] Hint Resolve restart_handler_safe : ecall.

Lemma flow_handle_answer_safe sdp c : ecall_ok c → safe (flow_handle_answer sdp) c.
Proof. intros Hok. unfold flow_handle_answer. safe_steps. Qed.
#[local] Hint Resolve flow_handle_answer_safe : ecall.

Lemma sp_set_answered c p b :
  ecall_ok c → props_opt_ok (e_heap c) p →
  sp c {| c with e_props_remote := p; e_answered := b |} [].
Proof. intros [] Hp. by apply sp_silent. Qed.

Lemma answer_handler_safe reset sdp p c :
  ecall_ok c → props_opt_ok (e_heap c) p → safe (econn_answer_handler reset sdp p) c.
Proof.
  intros Hok Hp. unfold econn_answer_handler, answer_reset. safe_steps.
  - apply keep_muted_safe; [done|]. intros; safe_step.
  - apply sp_set_answered; [done|].
    carry_props.
Qed.

Lemma update_resp_safe sdp p c :
  ecall_ok c → props_opt_ok (e_heap c) p → safe (econn_update_resp_handler sdp p) c.
Proof.
  intros Hok Hp. unfold econn_update_resp_handler. safe_steps.
  apply sp_set_remote; [done|].
  carry_props.
Qed.

Lemma econn_handler_safe ev c :
  ecall_ok c → is_Some (e_econn c) → ev_ok c ev → safe (econn_handler ev) c.
Proof.
  intros Hok Hconn Hev. destruct ev; cbn in Hev |- *.
  - safe_step.
  - by apply conn_handler_safe.
  - by apply answer_handler_safe.
  - destruct Hev. by apply update_req_safe.
  - by apply update_resp_safe.
  - by apply safe_ret.
  - unfold econn_confmsg_handler. safe_steps.
  - unfold econn_ping_handler. safe_steps.
  - unfold econn_close_handler, ecall_media_stop. safe_steps.
Qed.

(** A message the decoder let through, whose properties are strings. *)
Definition msg_ok (h : props_heap) (m : econn_message) : Prop :=
  payload_typed h (msg_type m) (msg_u m) ∧ props_opt_ok h (payload_props (msg_u m)).

Lemma msg_setup_ok h m :
  msg_ok h m → msg_type m = ECONN_SETUP ∨ msg_type m = ECONN_UPDATE →
  is_Some (setup_sdp_msg m) ∧ props_opt_ok h (setup_props m).
Proof.
  intros [Ht Hp] Hty. unfold setup_sdp_msg, setup_props. unfold payload_typed in Ht.
  destruct Hty as [Ety|Ety]; rewrite Ety in Ht; destruct (msg_u m); try done.
  all: destruct sdp_msg; [|done]; split; [by eexists|done].
Qed.

(** What the calls from outside have to satisfy. *)
Definition outer_ok (c : ecall) (call : econn_call) : Prop :=
  match call with
  | CallRecv _ _ m => msg_ok (e_heap c) m
  | CallTimer | CallClose _ _ => True
  | _ => False
  end.

Lemma outer_ev_ok c call ev : outer_ok c call → call_ev_ok call ev → ev_ok c ev.
Proof.
  intros Ho Hev. destruct ev; cbn in Hev |- *; try done.
  - unfold sends_ok. destruct (msg_type m); try done. by destruct Hev as (rsp & p & -> & _).
  - destruct Hev as (u & cl & m & -> & Ht & -> & ->). apply (msg_setup_ok _ m); auto.
  - destruct Hev as (u & cl & m & -> & Ht & -> & ->). apply (msg_setup_ok _ m); auto.
  - destruct Hev as (u & cl & m & -> & Ht & -> & ->). apply (msg_setup_ok _ m); auto.
  - destruct Hev as (u & cl & m & -> & Ht & -> & ->). apply (msg_setup_ok _ m); auto.
Qed.

Lemma run_econn_safe (m : (econn_message → Z) → ECM ()) call c :
  ecall_ok c → is_Some (e_econn c) → is_call m call → outer_ok c call → safe (run_econn m) c.
Proof.
  intros Hok [conn Hconn] Hm Ho. apply (on_econn_with_safe _ _ _ conn); [done|done| |].
  - intros tx. destruct (Hm tx conn) as [-> ->].
    split; [by apply call_conn_ok, (ok_conn c Hok)|].
    eapply Forall_impl; [apply call_events|]. intros ev. by apply outer_ev_ok.
  - intros tx ev c' Hin Hns. by apply econn_handler_safe.
Qed.

Ltac outer_step call :=
  apply (run_econn_safe _ call); [assumption|eauto 12 with ecall|by apply is_call_eq|try done].

(** ** Timers and flows *)

Lemma end_with_error_safe err c : ecall_ok c → safe (end_with_error err) c.
Proof.
  intros Hok. unfold end_with_error. safe_steps. to_prop. econn_step (CallSetError err).
Qed.
#[local] Hint Resolve end_with_error_safe : ecall.

Lemma fire_safe t c : ecall_ok c → safe (fire t) c.
Proof.
  intros Hok. unfold fire, media_start_timeout_handler, connection_timeout_handler,
    quality_handler, audio_level_handler.
  safe_step. safe_step; [|safe_step]. safe_bind; [safe_step|]. destruct t; safe_steps.
Qed.

Lemma expire_safe c : ecall_ok c → safe econn_expire c.
Proof.
  intros Hok. unfold econn_expire. safe_step. safe_step; [safe_step|]. to_prop.
  outer_step CallTimer.
Qed.

Lemma on_flow_safe a m c : ecall_ok c → safe m c → safe (on_flow a m) c.
Proof. intros Hok Hm. unfold on_flow. safe_steps. Qed.

Lemma media_start_safe c : ecall_ok c → safe ecall_media_start c.
Proof. intros Hok. unfold ecall_media_start. safe_steps. Qed.
#[local] Hint Resolve media_start_safe : ecall.

Lemma estab_safe a c : ecall_ok c → safe (mf_estab_handler a) c.
Proof. intros Hok. apply on_flow_safe; [done|]. safe_steps. Qed.
Lemma flow_close_safe a err c : ecall_ok c → safe (mf_close_handler a err) c.
Proof.
  intros Hok. unfold mf_close_handler. safe_step. safe_step; [safe_step|].
  apply on_flow_safe; [done|]. safe_steps.
Qed.
Lemma stopped_safe a c : ecall_ok c → safe (mf_stopped_handler a) c.
Proof. intros Hok. apply on_flow_safe; [done|]. safe_steps. Qed.

Lemma gather_safe a c : ecall_ok c → safe (mf_gather_handler a) c.
Proof.
  intros Hok. apply on_flow_safe; [done|]. safe_step. cbv zeta. safe_step; [safe_step|].
  destruct (e_async c); safe_steps.
  apply generate_answer_safe; [done|]. apply (ok_pending c Hok).
Qed.

(** A message that is sent leaves the queue, so the rounds are enough. *)
Lemma send_pending_safe n c :
  (∀ n, flow_dce_send n ≠ ENOENT) → ecall_ok c → (length (e_dce_pendingl c) ≤ n)%nat →
  safe (send_pending n) c.
Proof.
  intros Hns. revert c. induction n as [|n IH]; intros c Hok Hn; cbn [send_pending]; safe_step.
  - destruct (e_dce_pendingl c); [safe_step|cbn in Hn; lia].
  - destruct (e_dce_pendingl c) as [|mb l] eqn:El; [safe_step|].
    apply (safe_bind_wp _ _ _ (λ _ c1, e_dce_pendingl c1 = e_dce_pendingl c)).
    { eapply wp_and; [by apply dce_send_safe|].
      unfold ecall_dce_send, flow_call_ret, next, wp, uget, uemit, umodify, mbind, MU_bind,
        mret, MU_ret.
      destruct (e_flow c); cbn; [|done].
      rewrite (proj2 (Z.eqb_neq _ _) (Hns _)). done. }
    intros err c1 es Hs El1. assert (ecall_ok c1) by apply Hs.
    apply safe_bind; [safe_step|]. intros [] c2 es2 E Hs2. injection E as <- _.
    apply IH; [apply Hs2|]. cbn. rewrite El1, El. cbn in Hn |- *. rewrite drop_0. lia.
Qed.

Lemma sp_ready c m :
  ecall_ok c →
  sp c {| c with e_update := false; e_num_retries := 0; e_metrics := m;
                 e_inc_reconnects := false |} [].
Proof. intros []. by apply sp_silent. Qed.

Lemma channel_estab_safe a c :
  (∀ n, flow_dce_send n ≠ ENOENT) → ecall_ok c → safe (channel_estab_handler a) c.
Proof.
  intros Hns Hok. apply on_flow_safe; [done|]. unfold channel_sync, channel_ready. safe_steps.
  - to_prop. econn_step CallDatachan.
  - by apply send_pending_safe.
  - by apply sp_ready.
Qed.

Lemma channel_close_safe a c : ecall_ok c → safe (channel_close_handler a) c.
Proof. intros Hok. apply on_flow_safe; [done|]. safe_steps. Qed.
Lemma rtp_start_safe a b c : ecall_ok c → safe (rtp_start_handler a b) c.
Proof. intros Hok. apply on_flow_safe; [done|]. safe_steps. Qed.
Lemma acbr_safe a b c : ecall_ok c → safe (acbr_detect_handler a b) c.
Proof. intros Hok. apply on_flow_safe; [done|]. safe_steps. Qed.

(** ** Messages *)

Lemma recv_message_safe u cl m c :
  ecall_ok c → msg_ok (e_heap c) m → safe (recv_message u cl m) c.
Proof.
  intros Hok Hm. unfold recv_message. safe_step. safe_step; [safe_step|]. to_prop.
  outer_step (CallRecv u cl m).
Qed.

Lemma msg_ok_mono (h h' : props_heap) m :
  (∀ p, props_ok h p → props_ok h' p) → msg_ok h m → msg_ok h' m.
Proof.
  intros Hh [Ht Hp]. split; [|intros r Hr; auto].
  assert (∀ p, props_opt_ok h p → props_live h' p) as Hl.
  { intros p Hpo r Hr. destruct (Hh r (Hpo r Hr)) as (d & Hd & _). by eexists. }
  unfold payload_typed in *. destruct (msg_type m), (msg_u m); try done.
  all: repeat case_match; try done; try by apply Hl.
  destruct Ht. split; [done|]. by apply Hl.
Qed.

Lemma learn_peer_safe u cl c : ecall_ok c → safe (learn_peer u cl) c.
Proof.
  intros Hok. unfold learn_peer, ecall_set_peer_userid, ecall_set_peer_clientid. safe_steps.
Qed.
#[local] Hint Resolve learn_peer_safe : ecall.

Lemma propsync_msg_ok h m : msg_ok h m → msg_type m = ECONN_PROPSYNC →
  ∃ p, msg_u m = u_propsync p ∧ props_opt_ok h p.
Proof.
  intros [Ht Hp] Ety. rewrite Ety in Ht. unfold payload_typed in Ht.
  destruct (msg_u m) eqn:E; try done. eauto.
Qed.

Lemma recv_own_safe m c : ecall_ok c → safe (recv_own m) c.
Proof.
  intros Hok. unfold recv_own. safe_steps. to_prop. outer_step (CallClose EALREADY (msg_time m)).
  by destruct (e_econn c).
Qed.

Lemma msg_recv_safe u cl m c :
  ecall_ok c → msg_ok (e_heap c) m → safe (ecall_msg_recv u cl m) c.
Proof.
  intros Hok Hm. unfold ecall_msg_recv. safe_bind; [safe_step|]. safe_bind; [safe_step|].
  assert (msg_ok (e_heap c1) m) as Hm1.
  { eapply msg_ok_mono; [by eapply sp_heap|]. eapply msg_ok_mono; [by eapply sp_heap|]. done. }
  safe_step.
  - to_prop. destruct (propsync_msg_ok _ _ Hm1 Heqb) as (p & Hu & Hp).
    by eapply handle_propsync_safe.
  - safe_step. safe_step; [safe_bind; [by apply recv_own_safe|safe_step]|].
    safe_bind.
    { safe_step; [|safe_step]. to_prop.
      eapply wp_mono; [by apply create_econn_safe|]. by intros ??? [? _]. }
    safe_step; [safe_step|]. safe_bind; [|safe_step].
    apply recv_message_safe; [done|]. eapply msg_ok_mono; [by eapply sp_heap|done].
Qed.

(** A text whose message, if it can be decoded, has properties that are strings. *)
Definition text_ok (h : props_heap) (curr_time mtime : Z) (str : string) : Prop :=
  ∀ m h', econn_message_decode h curr_time mtime (Some str) = inr (Decoded m h') →
          props_opt_ok h' (payload_props (msg_u m)).

(** The message and the heap of a text that was decoded. *)
Lemma decoded_ok c curr_time mtime str m h' :
  ecall_ok c → text_ok (e_heap c) curr_time mtime str →
  econn_message_decode (e_heap c) curr_time mtime (Some str) = inr (Decoded m h') →
  sp c {| c with e_heap := h' |} [] ∧ msg_ok h' m.
Proof.
  intros Hok Ht Hd. split.
  - apply sp_heap_grows; [done|]. apply decode_inv in Hd as (j & _ & _ & _ & _ & _ & _ & Hu & _).
    pose proof (payload_decode_grows (e_heap c) (msg_type m) j) as Hg. rewrite Hu in Hg.
    intros q (d & Hq & Hrest). exists d. split; [|done]. by eapply lookup_weaken.
  - split; [by eapply decoded_payload_typed|by apply Ht].
Qed.

Lemma transp_recv_safe ct mt u cl str c :
  ecall_ok c → text_ok (e_heap c) ct mt str → safe (ecall_transp_recv ct mt u cl str) c.
Proof.
  intros Hok Ht. unfold ecall_transp_recv. safe_step.
  destruct (econn_message_decode _ _ _ _) as [err|[m h'|]] eqn:Hd; [safe_step| |safe_steps].
  destruct (decoded_ok _ _ _ _ _ _ Hok Ht Hd) as [Hs Hm].
  apply safe_bind; [by apply safe_modify|]. intros [] c1 es E Hs1. injection E as <- _.
  safe_step. apply msg_recv_safe; [apply Hs1|done].
Qed.

Lemma channel_data_safe a data c :
  ecall_ok c → text_ok (e_heap c) 0 0 data → safe (data_channel_handler a data) c.
Proof.
  intros Hok Ht. unfold data_channel_handler. safe_step. cbv zeta. safe_step; [safe_step|].
  destruct (econn_message_decode _ _ _ _) as [err|[m h'|]] eqn:Hd; [safe_step| |safe_steps].
  destruct (decoded_ok _ _ _ _ _ _ Hok Ht Hd) as [Hs Hm].
  apply safe_bind; [by apply safe_modify|]. intros [] c1 es E Hs1. injection E as <- _.
  assert (ecall_ok {| c with e_heap := h' |}) by apply Hs1.
  safe_step; [safe_step|]. safe_bind; [safe_steps|].
  assert (msg_ok (e_heap c0) m) as Hm0 by (eapply msg_ok_mono; [by eapply sp_heap|done]).
  safe_step.
  - to_prop. destruct (propsync_msg_ok _ _ Hm0 Heqb1) as (p & Hu & Hp).
    safe_step. by eapply handle_propsync_safe.
  - safe_step; [by apply recv_message_safe|safe_step].
Qed.

(** ** All operations *)

(** What an operation can be relied on: properties other clients send are strings,
    the application sets properties under a name and a session that exists; an
    open data channel takes messages. *)
Definition op_ok (c : ecall) (o : ecall_op) : Prop :=
  match o with
  | DoTranspRecv ct mt _ _ str => text_ok (e_heap c) ct mt str
  | DoChannelData _ data => text_ok (e_heap c) 0 0 data
  | DoPropsSet key _ => key ≠ ""
  | DoSetSessid s => e_sessid c = None ∨ is_Some s ∧ ∀ n, mem_ok n = true
  | DoChannelEstab _ => ∀ n, flow_dce_send n ≠ ENOENT
  | _ => True
  end.

Lemma set_sessid_safe s c :
  ecall_ok c → e_sessid c = None ∨ is_Some s ∧ (∀ n, mem_ok n = true) →
  safe (ecall_set_sessid s) c.
Proof.
  intros Hok Hs. unfold ecall_set_sessid. safe_step. rewrite (ok_sess c Hok).
  unfold next, safe, wp, uget, umodify, mbind, MU_bind, mret, MU_ret. cbn.
  destruct Hs as [Hn|[[s' ->] Hm]].
  - destruct s; [destruct (mem_ok _)|]; cbn; rewrite ?Hn; try inert.
    all: apply sp_core; try done; repeat split; cbn.
    all: rewrite (ok_sess c Hok); apply bool_decide_false; by intros [].
  - rewrite Hm. inert.
Qed.

Lemma reject_safe cl u d c : ecall_ok c → safe (icall_send_reject_msg cl u d) c.
Proof. intros Hok. unfold icall_send_reject_msg. safe_steps. Qed.
#[local] Hint Resolve reject_safe : ecall.

#[local] Hint Resolve dce_send_safe sync_props_safe props_set_local_safe set_sessid_safe
  transp_recv_safe estab_safe flow_close_safe stopped_safe gather_safe
  channel_estab_safe channel_data_safe channel_close_safe rtp_start_safe acbr_safe fire_safe
  expire_safe : ecall.

Lemma exec_safe o c : ecall_ok c → op_ok c o → safe (ecall_exec o) c.
Proof.
  intros Hok Ho. destruct o; cbn [ecall_exec op_ok] in *.
  all: unfold ecall_reject, ecall_media_stop, icall_restart, ecall_set_clients,
         icall_get_members, ecall_add_turnserver, ecall_set_media_laddr,
         ecall_set_peer_userid, ecall_set_peer_clientid, ecall_set_real_clientid,
         ecall_set_conf_part, ecall_set_confmsg_handler, ecall_set_propsync_handler,
         ecall_set_ping_handler, ecall_update_ssrc, ecall_add_decoders_for_user,
         ecall_remove_decoders_for_user, ecall_sync_decoders, ecall_set_keystore,
         ecall_set_quality_interval, norelay_handler.
  all: safe_steps.
Qed.

(** ** Allocation *)

Definition string_entries (l : list (string * string)) : odict := prod_map id ODICT_STRING <$> l.

Lemma add_props_eval l c p d :
  e_props_local c = Some p → e_heap c !! p = Some d → NoDup (d.*1 ++ l.*1) →
  add_props l c
  = Some (0, {| c with e_heap := <[p := d ++ string_entries l]> (e_heap c) |}, []).
Proof.
  revert c d. induction l as [|[k v] l IH]; intros c d Hp Hd Hn; cbn in Hn.
  { unfold string_entries. cbn. rewrite app_nil_r.
    assert (<[p := d]> (e_heap c) = e_heap c) as -> by (by apply insert_id). by destruct c. }
  cbn [add_props]. unfold uget, umodify, of_ptr, mret, mbind, MU_ret, MU_bind.
  rewrite Hp. cbn [econn_props_add]. rewrite Hd. cbn -[add_props odict_entry_add].
  assert (k ∉ d.*1) as Hk.
  { apply NoDup_app in Hn as (_ & Hn & _). intros Hk. by apply (Hn k Hk); left. }
  rewrite odict_entry_add_fresh by done. cbn -[add_props]. rewrite Z.eqb_refl. cbn -[add_props].
  rewrite (IH _ (d ++ [(k, ODICT_STRING v)])); cbn.
  - by rewrite (insert_insert_eq (e_heap c)), <-app_assoc, ?Hp.
  - done.
  - apply (lookup_insert_eq (e_heap c)).
  - by rewrite fmap_app, <-app_assoc.
Qed.

Lemma initial_props_nodup ct muted : NoDup (initial_props ct muted).*1.
Proof. apply (bool_decide_unpack _). by vm_compute. Qed.

(** The properties of a new call. *)
Lemma alloc_ok h conv ct conf msys convid uid cid c :
  ecall_alloc h conv ct conf msys convid uid cid = Some (inr c) →
  timeout_setup (default default_conf conf) ≠ 0 →
  ecall_ok c ∧ flows c = [] ∧ e_nflow c = 0%nat ∧ e_conv_type c = conv.
Proof.
  unfold ecall_alloc. destruct (negb msys || _); [done|].
  unfold alloc_steps, next, uget, umodify, mbind, MU_bind, mret, MU_ret. cbn -[add_props fresh].
  destruct (negb (mem_ok 0)); [done|]. cbn -[add_props fresh].
  set (p := fresh (dom h)).
  erewrite (add_props_eval _ _ p []); [|done|apply (lookup_insert_eq h)|apply initial_props_nodup].
  cbn -[string_entries initial_props]. rewrite Z.eqb_refl. cbn -[string_entries initial_props].
  destruct (negb (mem_ok 1)); [done|]. cbn -[string_entries initial_props].
  intros [= <-] Hcf. split; [|done]. split; cbn -[string_entries initial_props]; try done.
  exists p. split; [done|]. exists (string_entries (initial_props ct (msystem_get_muted 1))).
  split; [apply (lookup_insert_eq _ p)|].
  split; [apply (bool_decide_unpack _); by vm_compute|].
  unfold string_entries, initial_props. repeat constructor; cbn; by eexists.
Qed.

End Safe.
