(* ===== verification/EcallProps.v ===== *)
(** * What a call guarantees

    Sequences of operations on a call, each with its own answers from the flow,
    the application and the system, and the theorems about everything that can be
    reached. *)

From stdpp Require Import gmap.
From S2P Require Import Prelude LibRe LibReJson Jzon EconnMsg EconnFmt EconnFmtSpec EconnFmtProps Econn EconnSpec Icall AudioLevel UserList Ecall EcallOps EcallMsg EcallSpec EcallSafe.

#[local] Open Scope string_scope.
#[local] Open Scope Z_scope.
#[local] Open Scope list_scope.

(** Operations one after the other. *)
Inductive ecall_run `{LibRe, LibReJson} : ecall → list ecall_op → list ecall_event → ecall → Prop :=
| er_nil c : ecall_run c [] [] c
| er_cons (EN : EcEnv) c o c1 e1 os e2 c2 :
    op_ok c o → ecall_exec o c = Some ((), c1, e1) → ecall_run c1 os e2 c2 →
    ecall_run c (o :: os) (e1 ++ e2) c2.

Section Props.
Context `{LR : LibReSpec, LJ : LibReJson, LJS : !LibReJsonSpec}.
Implicit Types c : ecall.

Lemma run_sp c os es c' : ecall_run c os es c' → ecall_ok c → sp c c' es.
Proof.
  induction 1 as [c|EN c o c1 e1 os e2 c2 Ho E _ IH]; intros Hok; [by apply sp_refl|].
  pose proof (exec_safe o c Hok Ho) as Hs. unfold safe, wp in Hs. rewrite E in Hs.
  eapply sp_trans; [exact Hs|]. apply IH, Hs.
Qed.

(** A call as its owner gets it: allocated, with its callbacks. *)
Definition created (c : ecall) (conv : icall_conv_type) : Prop :=
  ∃ (EN : EcEnv) h ct conf msys convid uid cid cb c0,
    ecall_alloc h conv ct conf msys convid uid cid = Some (inr c0)
    ∧ timeout_setup (default default_conf conf) ≠ 0 ∧ c = icall_set_callbacks cb c0.

Lemma created_ok c conv :
  created c conv → ecall_ok c ∧ flows c = [] ∧ e_nflow c = 0%nat ∧ e_conv_type c = conv.
Proof.
  intros (EN & h & ct & conf & msys & convid & uid & cid & cb & c0 & Ha & Hcf & ->).
  destruct (alloc_ok _ _ _ _ _ _ _ _ _ Ha Hcf) as ([] & Hf & Hn & Hv). split; [|done]. by split.
Qed.

(** C11: Whatever happens to a call after its allocation, in whatever order (the
    application, messages, the flow and its data channel, timers) and whatever
    the flow, the application and the system answer, within the conditions of [op_ok]
    on each operation, the next one is defined and the call stays well formed: its
    connection has a running timer while it waits, its properties are live, and a
    renegotiation has a connection.  The conditions: the properties in the texts that
    other clients send are strings ([nonstring_property_undefined] is what happens
    otherwise); the application sets properties under a name; an identifier of the
    session that replaces another one is there, and its allocation succeeds; and a
    flow that reports its data channel as established does not answer that it is
    missing (the loop over the messages that wait would not end).  The connection has
    a time-out for its set-up. *)
Theorem ecall_reachable_ok c0 conv os es c (EN : EcEnv) o :
  created c0 conv → ecall_run c0 os es c → op_ok c o →
  ecall_ok c ∧ ∃ c' es', ecall_exec o c = Some ((), c', es') ∧ ecall_ok c'.
Proof.
  intros Hc Hrun Ho. destruct (created_ok _ _ Hc) as [Hok _].
  pose proof (sp_ok _ _ _ (run_sp _ _ _ _ Hrun Hok)) as Hok'. split; [done|].
  pose proof (exec_safe o c Hok' Ho) as Hs. apply wp_defined in Hs as ([] & c' & es' & E & Hs).
  exists c', es'. split; [done|apply Hs].
Qed.

(** The flows of a run: every one that was opened was opened once, and has either
    been closed or is owned by the call. *)
Lemma flows_accounted c0 conv os es c :
  created c0 conv → ecall_run c0 os es c →
  opened es ≡ₚ closed es ++ flows c ∧ NoDup (opened es).
Proof.
  intros Hc Hrun. destruct (created_ok _ _ Hc) as (Hok & Hf & _).
  pose proof (run_sp _ _ _ _ Hrun Hok) as Hs.
  pose proof (sp_flows _ _ _ Hs) as Hp. rewrite Hf in Hp.
  split; [done|apply (sp_fresh _ _ _ Hs)].
Qed.

(** The callbacks of a flow. *)
Definition flow_op (a : nat) (o : ecall_op) : Prop :=
  match o with
  | DoFlowEstab f | DoFlowClose f _ | DoFlowStopped f | DoFlowRestart f _ | DoFlowGather f
  | DoChannelEstab f | DoChannelData f _ | DoChannelClose f | DoRtpStart f _
  | DoAcbrDetect f _ | DoNorelay f _ => f = a
  | _ => False
  end.

(** What the application hears when a flow that was closed calls back: nothing, but
    that a relay is missing, which is passed on whatever flow says so. *)
Definition stale_events (c : ecall) (o : ecall_op) : list ecall_event :=
  match o with
  | DoNorelay _ local => if e_cb c CB_NORELAY then [EeNorelay local] else []
  | _ => []
  end.

Lemma stale_flow (EN : EcEnv) a o c :
  flow_op a o → a ∉ flows c → ecall_exec o c = Some ((), c, stale_events c o).
Proof.
  intros Ho Ha. unfold flows in Ha. apply not_elem_of_app in Ha as [H1 H2].
  assert (bool_decide (e_flow c = Some a) = false) as E1.
  { apply bool_decide_false. intros E. rewrite E in H1. cbn in H1. set_solver. }
  assert (bool_decide (e_oldflow c = Some a) = false) as E2.
  { apply bool_decide_false. intros E. rewrite E in H2. cbn in H2. set_solver. }
  destruct o; cbn in Ho; try done; subst; cbn [ecall_exec].
  all: unfold mf_estab_handler, mf_close_handler, mf_stopped_handler, mf_restart_handler,
         mf_gather_handler, channel_estab_handler, data_channel_handler,
         channel_close_handler, rtp_start_handler, acbr_detect_handler, norelay_handler, call_cb,
         when, on_flow, uget, mbind, MU_bind; cbv zeta.
  all: rewrite ?E2, ?E1; cbn; by destruct (e_cb c CB_NORELAY).
Qed.

(** C12: Flows are never leaked or closed twice, and a flow that was closed has no say
    any more: of the flows a call has opened, each was opened once and has been closed
    once or is the current flow or its predecessor; and when a flow that was closed
    still calls back, with whatever event, nothing changes and the application hears
    nothing, with one exception: that a relay is missing is passed on to the
    application also from a flow that was closed ([stale_events]). *)
Theorem flows_owned_or_closed c0 conv os es c :
  created c0 conv → ecall_run c0 os es c →
  NoDup (closed es ++ flows c) ∧ (∀ a, a ∈ opened es ↔ a ∈ closed es ∨ a ∈ flows c)
  ∧ ∀ (EN : EcEnv) a o, a ∈ closed es → flow_op a o →
      ecall_exec o c = Some ((), c, stale_events c o).
Proof.
  intros Hc Hrun. destruct (flows_accounted _ _ _ _ _ Hc Hrun) as [Hp Hn].
  rewrite Hp in Hn. split; [done|]. split.
  - intros a. by rewrite Hp, elem_of_app.
  - intros EN a o Ha Ho. apply (stale_flow EN a); [done|].
    apply NoDup_app in Hn as (_ & Hd & _). by apply Hd.
Qed.

(** C33: The application of a call that is not a conference is told at most once
    that the call is closed, and it has been told when the handler is gone. *)
Theorem call_closed_once c0 conv os es c :
  created c0 conv → conv ≠ ICALL_CONV_TYPE_CONFERENCE → ecall_run c0 os es c →
  (close_calls es ≤ 1)%nat
  ∧ (e_cb c0 CB_CLOSE = true → close_calls es = 1%nat ↔ e_cb c CB_CLOSE = false).
Proof.
  intros Hc Hv Hrun. destruct (created_ok _ _ Hc) as (Hok & _ & _ & Ev).
  pose proof (sp_closes _ _ _ (run_sp _ _ _ _ Hrun Hok)) as Hcl.
  rewrite Ev in Hcl. specialize (Hcl Hv). unfold close_set in Hcl.
  destruct (e_cb c0 CB_CLOSE), (e_cb c CB_CLOSE); cbn in Hcl; split; intros; try split; lia || done.
Qed.

End Props.
