(* ===== verification/EcallView.v ===== *)
(** * Running a call step by step

    What the functions of a call do to the part of its state that decides what
    happens next ([view]), and which of their events are seen from outside
    ([visible]).  Computations that touch neither are [quiet]; of the others,
    [sees] states the result, the new view and the visible events. *)

From stdpp Require Import gmap.
From S2P Require Import Prelude LibRe LibReJson Jzon EconnMsg EconnFmt EconnFmtSpec EconnFmtProps Econn EconnSpec EconnPair Icall AudioLevel UserList Ecall EcallOps EcallMsg.

#[local] Open Scope string_scope.
#[local] Open Scope Z_scope.
#[local] Open Scope list_scope.

(** ** Views *)

Record ecview := {
  v_cb : icall_cb → bool;
  v_vstate : icall_vstate;
  v_conf : econn_conf;
  v_econn : option econn;
  v_conv : icall_conv_type;
  v_flow : option nat;
  v_oldflow : option nat;
  v_nflow : nat;
  v_heap : props_heap;
  v_local : option econn_props_ref;
  v_remote : option econn_props_ref;
  v_propsynch : bool;
  v_uself : string;
  v_cself : string;
  v_upeer : option string;
  v_cpeer : option string;
  v_sessid : option string;
  v_freed : bool;
  v_async : async_sdp;
  v_offer : option string;
  v_pending : bool;
  v_answered : bool;
  v_update : bool;
  v_glare : bool;
  v_glare_vstate : icall_vstate;
  v_restart : bool;
  v_devpair : bool;
  v_recv : icall_vstate;
  v_muted : bool;
  v_dce : list string;
}.

Definition view (c : ecall) : ecview := {|
  v_cb := e_cb c; v_vstate := e_vstate c; v_conf := e_conf c; v_econn := e_econn c;
  v_conv := e_conv_type c; v_flow := e_flow c; v_oldflow := e_oldflow c; v_nflow := e_nflow c;
  v_heap := e_heap c; v_local := e_props_local c; v_remote := e_props_remote c;
  v_propsynch := e_propsynch c; v_uself := e_userid_self c; v_cself := e_clientid_self c;
  v_upeer := e_userid_peer c; v_cpeer := e_clientid_peer c; v_sessid := e_sessid c;
  v_freed := e_sessid_freed c; v_async := e_async c; v_offer := e_offer c;
  v_pending := e_econn_pending c; v_answered := e_answered c; v_update := e_update c;
  v_glare := e_update_glare c; v_glare_vstate := e_glare_vstate c;
  v_restart := e_delayed_restart c; v_devpair := e_devpair c; v_recv := e_recv_state c;
  v_muted := e_remote_muted c; v_dce := e_dce_pendingl c |}.

(** The fields of a call through its view. *)
Create Rewrite HintDb view.
Lemma e_cb_view c : e_cb c = v_cb (view c).
Proof. done. Qed.
Lemma e_vstate_view c : e_vstate c = v_vstate (view c).
Proof. done. Qed.
Lemma e_conf_view c : e_conf c = v_conf (view c).
Proof. done. Qed.
Lemma e_econn_view c : e_econn c = v_econn (view c).
Proof. done. Qed.
Lemma e_conv_type_view c : e_conv_type c = v_conv (view c).
Proof. done. Qed.
Lemma e_flow_view c : e_flow c = v_flow (view c).
Proof. done. Qed.
Lemma e_oldflow_view c : e_oldflow c = v_oldflow (view c).
Proof. done. Qed.
Lemma e_nflow_view c : e_nflow c = v_nflow (view c).
Proof. done. Qed.
Lemma e_heap_view c : e_heap c = v_heap (view c).
Proof. done. Qed.
Lemma e_props_local_view c : e_props_local c = v_local (view c).
Proof. done. Qed.
Lemma e_props_remote_view c : e_props_remote c = v_remote (view c).
Proof. done. Qed.
Lemma e_propsynch_view c : e_propsynch c = v_propsynch (view c).
Proof. done. Qed.
Lemma e_userid_self_view c : e_userid_self c = v_uself (view c).
Proof. done. Qed.
Lemma e_clientid_self_view c : e_clientid_self c = v_cself (view c).
Proof. done. Qed.
Lemma e_userid_peer_view c : e_userid_peer c = v_upeer (view c).
Proof. done. Qed.
Lemma e_clientid_peer_view c : e_clientid_peer c = v_cpeer (view c).
Proof. done. Qed.
Lemma e_sessid_view c : e_sessid c = v_sessid (view c).
Proof. done. Qed.
Lemma e_sessid_freed_view c : e_sessid_freed c = v_freed (view c).
Proof. done. Qed.
Lemma e_async_view c : e_async c = v_async (view c).
Proof. done. Qed.
Lemma e_offer_view c : e_offer c = v_offer (view c).
Proof. done. Qed.
Lemma e_econn_pending_view c : e_econn_pending c = v_pending (view c).
Proof. done. Qed.
Lemma e_answered_view c : e_answered c = v_answered (view c).
Proof. done. Qed.
Lemma e_update_view c : e_update c = v_update (view c).
Proof. done. Qed.
Lemma e_update_glare_view c : e_update_glare c = v_glare (view c).
Proof. done. Qed.
Lemma e_glare_vstate_view c : e_glare_vstate c = v_glare_vstate (view c).
Proof. done. Qed.
Lemma e_delayed_restart_view c : e_delayed_restart c = v_restart (view c).
Proof. done. Qed.
Lemma e_devpair_view c : e_devpair c = v_devpair (view c).
Proof. done. Qed.
Lemma e_recv_state_view c : e_recv_state c = v_recv (view c).
Proof. done. Qed.
Lemma e_remote_muted_view c : e_remote_muted c = v_muted (view c).
Proof. done. Qed.
Lemma e_dce_pendingl_view c : e_dce_pendingl c = v_dce (view c).
Proof. done. Qed.
#[export] Hint Rewrite e_cb_view e_vstate_view e_conf_view e_econn_view e_conv_type_view e_flow_view e_oldflow_view e_nflow_view e_heap_view e_props_local_view e_props_remote_view e_propsynch_view e_userid_self_view e_clientid_self_view e_userid_peer_view e_clientid_peer_view e_sessid_view e_sessid_freed_view e_async_view e_offer_view e_econn_pending_view e_answered_view e_update_view e_update_glare_view e_glare_vstate_view e_delayed_restart_view e_devpair_view e_recv_state_view e_remote_muted_view e_dce_pendingl_view : view.

(** ** Visible events: messages, the SDP texts a flow is given, what it sends and that it
    is closed, and what the application learns about the call *)

Definition visible1 (e : ecall_event) : option ecall_event :=
  match e with
  | EeFlow _ (FlHandleOffer _) | EeFlow _ (FlHandleAnswer _) | EeFlow _ (FlDceSend _)
  | EeFlow _ FlClose | EeSend _ _ _ _ | EeStart _ _ _ _ | EeAnswer | EeVstateChanged _ _ _
  | EeMutedChanged _ _ _ | EeDatachanEstab _ _ _ => Some e
  | EeClose err _ time u cl => Some (EeClose err None time u cl)
  | _ => None
  end.
Definition visible (es : list ecall_event) : list ecall_event := omap visible1 es.

Lemma visible_app e1 e2 : visible (e1 ++ e2) = visible e1 ++ visible e2.
Proof. apply omap_app. Qed.

(** ** Rules *)

(** [m] is defined from [c]; its result, the view it leaves and its visible events
    satisfy [Q]. *)
Definition sees {A} (m : EM A) (c : ecall) (Q : A → ecview → list ecall_event → Prop) : Prop :=
  wp m (λ a c' es, Q a (view c') (visible es)) c.
Definition quiet {A} (m : EM A) (c : ecall) : Prop :=
  wp m (λ _ c' es, view c' = view c ∧ visible es = []) c.

Section Rules.
Implicit Types c : ecall.

Lemma sees_bind {A B} (m : EM A) (k : A → EM B) c Q :
  sees m c (λ a v es, ∀ c1, view c1 = v → sees (k a) c1 (λ b v2 e2, Q b v2 (es ++ e2))) →
  sees (m ≫= k) c Q.
Proof.
  intros Hm. apply wp_bind. eapply wp_mono; [exact Hm|]. cbn. intros a c1 es1 Hk.
  eapply wp_mono; [by apply Hk|]. cbn. intros b c2 e2. by rewrite visible_app.
Qed.

Lemma sees_mono {A} (m : EM A) c (Q Q' : A → ecview → list ecall_event → Prop) :
  sees m c Q → (∀ a v es, Q a v es → Q' a v es) → sees m c Q'.
Proof. intros Hm HQ. eapply wp_mono; [exact Hm|]. cbn. eauto. Qed.

(** Steps in front of [k] that are not visible. *)
Lemma sees_skip {A B} (m : EM A) (k : A → EM B) c Q :
  quiet m c → (∀ a c1, view c1 = view c → sees (k a) c1 Q) → sees (m ≫= k) c Q.
Proof.
  intros Hm Hk. apply wp_bind. eapply wp_mono; [exact Hm|]. cbn. intros a c1 es1 (Hv & He).
  eapply wp_mono; [by apply Hk|]. cbn. intros b c2 e2. by rewrite visible_app, He.
Qed.
Lemma sees_set {B} f v (k : () → EM B) c Q :
  view (f c) = v → (∀ c1, view c1 = v → sees (k ()) c1 Q) → sees (umodify f ≫= k) c Q.
Proof. intros Hv Hk. apply sees_bind. unfold sees at 1, wp, umodify.
  intros c1 E. rewrite Hv in E. by apply Hk. Qed.
Lemma sees_idle {B} f (k : () → EM B) c Q :
  (∀ c, view (f c) = view c) → (∀ c1, view c1 = view c → sees (k ()) c1 Q) →
  sees (umodify f ≫= k) c Q.
Proof. intros Hf Hk. by eapply sees_set; [apply Hf|]. Qed.
Lemma sees_read {B} (k : ecall → EM B) c Q : sees (k c) c Q → sees (uget ≫= k) c Q.
Proof. intros Hk. unfold sees. apply wp_bind. exact Hk. Qed.
Lemma sees_ptr {A B} (o : option A) a (k : A → EM B) c Q :
  o = Some a → sees (k a) c Q → sees (of_ptr o ≫= k) c Q.
Proof. intros -> Hk. unfold sees. apply wp_bind. exact Hk. Qed.
Lemma sees_ret {A} (a : A) c (Q : A → ecview → list ecall_event → Prop) :
  Q a (view c) [] → sees (mret a) c Q.
Proof. done. Qed.
Lemma sees_step {A B} (a : A) (k : A → EM B) c Q : sees (k a) c Q → sees (mret a ≫= k) c Q.
Proof. intros Hk. unfold sees. apply wp_bind. exact Hk. Qed.
Lemma sees_last f v c (Q : () → ecview → list ecall_event → Prop) :
  view (f c) = v → Q () v [] → sees (umodify f) c Q.
Proof. by intros <-. Qed.
Lemma sees_quiet m c (Q : () → ecview → list ecall_event → Prop) :
  quiet m c → Q () (view c) [] → sees m c Q.
Proof. intros Hm HQ. eapply wp_mono; [exact Hm|]. cbn. by intros [] c1 es1 (-> & ->). Qed.
Lemma sees_when_true b m c (Q : () → ecview → list ecall_event → Prop) :
  b = true → sees m c Q → sees (uwhen b m) c Q.
Proof. by intros ->. Qed.
Lemma sees_emit {B} es (k : () → EM B) c Q :
  sees (k ()) c (λ b v2 e2, Q b v2 (visible es ++ e2)) → sees (uemit es ≫= k) c Q.
Proof.
  intros Hk. apply wp_bind. unfold wp at 1, uemit. eapply wp_mono; [exact Hk|]. cbn.
  intros b c2 e2. by rewrite visible_app.
Qed.
Lemma sees_assoc {A B C} (m : EM A) (k : A → EM B) (k' : B → EM C) c Q :
  sees (m ≫= λ a, k a ≫= k') c Q → sees ((m ≫= k) ≫= k') c Q.
Proof.
  unfold sees, wp, mbind, MU_bind. destruct (m c) as [[[a c1] e1]|]; [|done].
  destruct (k a c1) as [[[b c2] e2]|]; [|done]. destruct (k' b c2) as [[[d c3] e3]|]; [|done].
  by rewrite app_assoc.
Qed.

Lemma sees_unbind {A} (m : EM A) c Q : sees (m ≫= mret) c Q → sees m c Q.
Proof.
  unfold sees, wp, mbind, MU_bind, mret, MU_ret. destruct (m c) as [[[a c1] e1]|]; [|done].
  by rewrite app_nil_r.
Qed.

Lemma quiet_bind {A B} (m : EM A) (k : A → EM B) c :
  quiet m c → (∀ a c1, view c1 = view c → quiet (k a) c1) → quiet (m ≫= k) c.
Proof.
  intros Hm Hk. apply wp_bind. eapply wp_mono; [exact Hm|]. cbn.
  intros a' c1 es1 (Hv & He). eapply wp_mono; [by apply Hk|]. cbn.
  intros b' c2 es2 (E & E'). by rewrite visible_app, He, E', E, Hv.
Qed.
Lemma quiet_get {B} (k : ecall → EM B) c : quiet (k c) c → quiet (uget ≫= k) c.
Proof. intros Hk. unfold quiet. apply wp_bind. exact Hk. Qed.
Lemma quiet_ret {A} (a : A) c : quiet (mret a) c.
Proof. done. Qed.
Lemma quiet_when b m c : quiet m c → quiet (uwhen b m) c.
Proof. by destruct b. Qed.
End Rules.

(** ** The connection *)

Section Conn.
Context `{LR : LibRe, LJ : LibReJson, EN : EcEnv}.
Implicit Types c : ecall.

(** The call after a function of the connection, which left it as [conn], when the
    events of the connection are still to be dispatched. *)
Definition after_conn c (conn : econn) : ecall :=
  {| c with e_econn := Some conn; e_tick := S (e_tick c) |}.

Lemma on_econn_with_eval {A} cb (m : (econn_message → Z) → ECM A) c conn a conn' evs :
  e_econn c = Some conn → m (send_err c (e_tick c)) conn = (a, conn', evs) →
  on_econn_with cb m c = (dispatch cb (e_tick c) evs;; mret a) (after_conn c conn').
Proof.
  intros Hc Hm. unfold on_econn_with, next, uget, umodify, mbind, MU_bind, mret, MU_ret.
  rewrite Hc. cbn [of_ptr mret MU_ret]. unfold result, final, events. rewrite Hm.
  cbn -[dispatch]. unfold after_conn.
  by destruct (dispatch cb (e_tick c) evs _) as [[[[] c2] e2]|].
Qed.
End Conn.

(** ** Quiet primitives *)

Create HintDb quiet.

Ltac quiet_step :=
  lazymatch goal with
  | |- quiet (uget ≫= _) _ => apply quiet_get
  | |- quiet (_ ≫= _) _ => apply quiet_bind; [|intros ? ? ?]
  | |- quiet (mret _) _ => apply quiet_ret
  | |- quiet (uwhen _ _) _ => apply quiet_when
  | |- quiet (umodify _) _ => done
  | |- quiet (uemit _) _ => done
  | |- quiet (if ?b then _ else _) _ => destruct b eqn:?
  | |- quiet (match ?o with Some _ => _ | None => _ end) _ => destruct o eqn:?
  | |- quiet _ _ => solve [eauto with quiet]
  end.
Ltac fields_in H :=
  cbn [v_cb v_vstate v_conf v_econn v_conv v_flow v_oldflow v_nflow v_heap v_local v_remote
    v_propsynch v_uself v_cself v_upeer v_cpeer v_sessid v_freed v_async v_offer v_pending
    v_answered v_update v_glare v_glare_vstate v_restart v_devpair v_recv v_muted v_dce v_cb
    v_conv v_heap v_propsynch v_upeer v_freed v_pending v_glare v_restart v_muted] in H.
(** The view of the call at hand in terms of the view at the beginning. *)
Ltac settle :=
  repeat match goal with
  | H0 : view ?c0 = _, H1 : context [view ?c0] |- _ =>
    lazymatch H0 with H1 => fail | _ => rewrite H0 in H1; fields_in H1 end
  end.
Ltac flat := repeat (lazymatch goal with |- sees ((_ ≫= _) ≫= _) _ _ => apply sees_assoc end).
(** One step in front of the rest that is not visible. *)
Ltac hush :=
  flat;
  first [ apply sees_idle; [done|]
        | apply sees_skip; [solve [repeat (quiet_step; cbn beta)]|] ];
  let a := fresh "a" in let c1 := fresh "c" in let Hv := fresh "Hv" in
  lazymatch goal with
  | |- ∀ c1 : ecall, _ → _ => intros c1 Hv
  | |- _ => intros a c1 Hv; lazymatch type of a with unit => destruct a | _ => idtac end
  end;
  lazymatch type of Hv with
  | view _ = view ?c0 => try match goal with H0 : view c0 = _ |- _ => rewrite H0 in Hv; clear H0 end
  end.
(** An assignment that is visible. *)
Ltac assigned H :=
  unfold view at 2 in H;
  cbn [e_cb e_vstate e_conf e_econn e_conv_type e_flow e_oldflow e_nflow e_heap
    e_props_local e_props_remote e_propsynch e_userid_self e_clientid_self e_userid_peer
    e_clientid_peer e_sessid e_sessid_freed e_async e_offer e_econn_pending e_answered
    e_update e_update_glare e_glare_vstate e_delayed_restart e_devpair e_recv_state
    e_remote_muted e_dce_pendingl] in H;
  autorewrite with view in H;
  repeat match goal with H0 : view ?c0 = _ |- _ =>
    lazymatch type of H with context [view c0] =>
      lazymatch H0 with H => fail | _ => rewrite H0 in H; fields_in H; clear H0 end
    end
  end.
Ltac assign :=
  flat;
  eapply sees_set; [reflexivity|];
  let c1 := fresh "c" in let Hv := fresh "Hv" in intros c1 Hv; assigned Hv.
(** Look a field of the call at hand up in its view. *)
Ltac in_view :=
  autorewrite with view;
  repeat match goal with H : view ?c = _ |- context [view ?c] => rewrite H end;
  cbn;
  repeat match goal with
  | v : ecview, H : ?f ?v = _ |- context [?f ?v] => rewrite H
  end;
  cbn; done || assumption || congruence.
(** The error code of a step that succeeded. *)
Ltac no_err := change (negb (0 =? 0)) with false; cbv iota.
Ltac quiet_steps := repeat (quiet_step; cbn beta).

Section Quiet.
Context `{LR : LibRe, LJ : LibReJson, EN : EcEnv}.
Implicit Types c : ecall.

Lemma next_quiet c : quiet next c.
Proof. unfold next. quiet_steps. Qed.
Lemma tmr_start_quiet t d c : quiet (tmr_start t d) c.
Proof. done. Qed.
Lemma tmr_cancel_quiet t c : quiet (tmr_cancel t) c.
Proof. done. Qed.
Hint Resolve next_quiet tmr_start_quiet tmr_cancel_quiet : quiet.

Definition silent_flow (f : flow_call) : Prop :=
  match f with FlHandleOffer _ | FlHandleAnswer _ | FlDceSend _ | FlClose => False | _ => True end.

Lemma flow_do_quiet o f c : silent_flow f → quiet (flow_do o f) c.
Proof. intros Hf. unfold flow_do. destruct o; [|quiet_step]. by destruct f. Qed.
Lemma flow_call_do_quiet f c : silent_flow f → quiet (flow_call_do f) c.
Proof. intros Hf. unfold flow_call_do. quiet_steps. by apply flow_do_quiet. Qed.
Lemma trace_quiet tx tp t r age c : quiet (trace_msg tx tp t r age) c.
Proof. unfold trace_msg. quiet_steps. Qed.
Lemma ecall_trace_quiet m tx tp c : quiet (ecall_trace m tx tp) c.
Proof. apply trace_quiet. Qed.
Lemma await_quiet c : quiet await_connection c.
Proof. unfold await_connection. quiet_steps. Qed.
Hint Resolve flow_call_do_quiet trace_quiet ecall_trace_quiet await_quiet : quiet.
Hint Extern 1 (silent_flow _) => exact I : quiet.

Lemma add_turnservers_quiet srvs c : quiet (add_turnservers srvs) c.
Proof. revert c. induction srvs; intros c; cbn [add_turnservers]; quiet_steps. Qed.
Lemma gather_all_quiet b c : quiet (gather_all b) c.
Proof. by apply flow_call_do_quiet. Qed.
End Quiet.
#[export] Hint Resolve next_quiet tmr_start_quiet tmr_cancel_quiet flow_do_quiet flow_call_do_quiet trace_quiet
  ecall_trace_quiet await_quiet add_turnservers_quiet gather_all_quiet : quiet.
#[export] Hint Extern 1 (silent_flow _) => exact I : quiet.
