(* ===== verification/EcallLive.v ===== *)
(** * Calls that are not answered

    What closing a call leaves, and that a call whose connection waits for
    somebody is closed when the timer of the connection expires. *)

From stdpp Require Import gmap.
From S2P Require Import Prelude LibRe LibReJson Jzon EconnMsg EconnFmt EconnFmtSpec EconnFmtProps Econn EconnSpec Icall AudioLevel UserList Ecall EcallOps EcallMsg EcallSpec EcallSafe EcallProps EcallView.

#[local] Open Scope string_scope.
#[local] Open Scope Z_scope.
#[local] Open Scope list_scope.

Section Close.
Context `{LR : LibReSpec, LJ : LibReJson, LJS : !LibReJsonSpec, EN : EcEnv}.
Implicit Types c : ecall.

(** What is left of a call: its connection, its flows and the close handler. *)
Definition remains (c : ecall) : option econn * option nat * option nat * bool :=
  (e_econn c, e_flow c, e_oldflow c, e_cb c CB_CLOSE).
Definition leaves {A} (m : EM A) c r : Prop := wp m (λ _ c' _, remains c' = r) c.

Lemma leaves_bind {A B} (m : EM A) (k : A → EM B) c r r' :
  leaves m c r → (∀ a c1, remains c1 = r → leaves (k a) c1 r') → leaves (m ≫= k) c r'.
Proof.
  intros Hm Hk. apply wp_bind. eapply wp_mono; [exact Hm|]. intros a c1 e1 E. cbv beta in E.
  eapply wp_mono; [by apply Hk|]. done.
Qed.
Lemma leaves_get {B} (k : ecall → EM B) c r : leaves (k c) c r → leaves (uget ≫= k) c r.
Proof. intros Hk. unfold leaves. apply wp_bind. exact Hk. Qed.
Lemma leaves_when b m c r :
  (b = true → leaves m c r) → (b = false → remains c = r) → leaves (uwhen b m) c r.
Proof. destruct b; intros H1 H2; [by apply H1|by apply H2]. Qed.

Lemma flow_do_leaves o f c r : remains c = r → leaves (flow_do o f) c r.
Proof. by destruct o. Qed.
Lemma call_cb_leaves k e c r : remains c = r → leaves (call_cb k e) c r.
Proof. intros. by apply leaves_get, leaves_when. Qed.

(** One step that leaves what is left alone. *)
Ltac idle_step :=
  match goal with
  | H : remains ?c = ?r |- leaves (_ ≫= _) ?c _ =>
    eapply (leaves_bind _ _ _ r);
    [first [by apply flow_do_leaves | by apply call_cb_leaves | exact H]
    |clear H; intros ? ? H]
  end.

Lemma close_flow_leaves c x y z b :
  remains c = (x, y, z, b) → leaves close_flow c (x, None, z, b).
Proof.
  intros [= <- _ <- <-]. apply leaves_get. eapply leaves_bind; [done|].
  intros [] c1 E. by apply flow_do_leaves.
Qed.
Lemma close_oldflow_leaves c x y z b :
  remains c = (x, y, z, b) → leaves close_oldflow c (x, y, None, b).
Proof.
  intros [= <- <- _ <-]. apply leaves_get. eapply leaves_bind; [done|].
  intros [] c1 E. by apply flow_do_leaves.
Qed.

(** A call that was closed has no flow, and nobody is told again. *)
Lemma close_leaves err time c : leaves (ecall_close err time) c (e_econn c, None, None, false).
Proof.
  assert (remains c = remains c) as H by done. unfold ecall_close.
  do 6 idle_step. unfold remains at 2 in H.
  eapply leaves_bind; [by eapply close_flow_leaves|]. clear H. intros [] c7 H.
  eapply leaves_bind; [by eapply close_oldflow_leaves|]. clear H. intros [] c8 H.
  apply leaves_get. eapply (leaves_bind _ _ _ (remains c8)).
  { apply leaves_when; [|done]. intros _. eapply (leaves_bind _ _ _ (remains c8)); [by apply call_cb_leaves|].
    intros [] c9 H9. exact H9. }
  intros [] c9 H9. rewrite H in H9. injection H as _ _ _ Hcb.
  apply leaves_when; intros E; [|by rewrite H9, <-Hcb, E].
  eapply (leaves_bind _ _ _ (remains c9)).
  { apply leaves_when; [|done]. intros _. eapply (leaves_bind next _ _ (remains c9)); [done|].
    intros n c10 H10. exact H10. }
  intros [] c10 H10. rewrite H9 in H10. injection H10 as E1 E2 E3 E4.
  eapply (leaves_bind _ _ _ (e_econn c, None, None, false)); [|done].
  unfold leaves, wp, cb_clear, umodify. unfold remains. cbn. by rewrite E1, E2, E3.
Qed.
Lemma econn_close_leaves err time c :
  leaves (econn_close_handler err time) c (e_econn c, None, None, false).
Proof.
  unfold econn_close_handler, ecall_media_stop, flow_call_do.
  eapply (leaves_bind _ _ _ (remains c)); [by apply leaves_get, flow_do_leaves|].
  intros [] c1 E. injection E as <- _ _ _. apply close_leaves.
Qed.

Lemma expire_events tx conn delay h :
  ec_tmr_local conn = Some (delay, h) → ec_closeh conn = true →
  ∃ conn' evs err time,
    tmr_expire tx conn = ((), conn', evs ++ [EvClose err time])
    ∧ ec_state conn' = ECONN_TERMINATING ∧ ec_tmr_local conn' = None
    ∧ Forall (λ ev, ∃ m, ev = EvSend m ∧ msg_type m = ECONN_CANCEL) evs.
Proof.
  intros Ht Hh. eval_call. rewrite Ht. cbn.
  destruct h; eval_call; rewrite close_eval; cbn; rewrite Hh.
  all: do 4 eexists; split_and!; [reflexivity|done|done|].
  all: unfold sent; cbn; split_cases; repeat constructor; eexists; split; done.
Qed.

Lemma cancel_leaves n m c r :
  msg_type m = ECONN_CANCEL → remains c = r → leaves (send_handler n m) c r.
Proof.
  intros Ht Hr. unfold send_handler. apply leaves_get. cbv zeta. cbn [address_msg msg_type].
  rewrite Ht. cbn [send_transport]. unfold ecall_trace, trace_msg.
  eapply (leaves_bind _ _ _ r).
  { eapply (leaves_bind _ _ _ r); [exact Hr|]. intros n' c1 H1. exact H1. }
  intros [] c1 H1. eapply (leaves_bind _ _ _ r); [by apply call_cb_leaves|]. done.
Qed.

Lemma dispatch_close_leaves n evs err time c :
  Forall (λ ev, ∃ m, ev = EvSend m ∧ msg_type m = ECONN_CANCEL) evs →
  leaves (dispatch econn_handler n (evs ++ [EvClose err time])) c (e_econn c, None, None, false).
Proof.
  intros Hevs. revert c. induction Hevs as [|ev evs (m & -> & Ht) _ IH]; intros c; cbn [dispatch app].
  - eapply leaves_bind; [apply econn_close_leaves|]. done.
  - eapply (leaves_bind _ _ _ (remains c)); [by apply cancel_leaves|].
    intros _ c1 H1. injection H1 as <- _ _ _. apply IH.
Qed.

(** The timer of a waiting connection expires. *)
Lemma expire_leaves c conn :
  ecall_ok c → e_econn c = Some conn → waiting (ec_state conn) = true →
  is_Some (ec_tmr_local conn)
  ∧ ∃ conn', ec_state conn' = ECONN_TERMINATING ∧ ec_tmr_local conn' = None
             ∧ leaves econn_expire c (Some conn', None, None, false).
Proof.
  intros Hok Hc Hw. destruct (ok_conn c Hok conn Hc) as [_ Ht _ Hcl].
  destruct (Ht Hw) as [[delay h] Htmr]. split; [by eexists|].
  assert (ec_closeh conn = true) as Hh.
  { destruct (ec_closeh conn) eqn:E; [done|]. by rewrite Hcl in Hw. }
  destruct (expire_events (send_err c (e_tick c)) conn delay h Htmr Hh)
    as (conn' & evs & err & time & Ex & Hst & Htm & Hevs).
  exists conn'. split; [done|]. split; [done|].
  unfold econn_expire. apply leaves_get. rewrite bool_decide_false by (by rewrite Hc).
  unfold leaves, wp, run_econn. rewrite (on_econn_with_eval _ _ _ _ _ _ _ Hc Ex).
  eapply (leaves_bind _ _ (after_conn c conn')); [by apply dispatch_close_leaves|]. done.
Qed.
End Close.

Section Live.
Context `{LR : LibReSpec, LJ : LibReJson, LJS : !LibReJsonSpec}.

(** C17: A call does not wait for ever: in every state that can be reached in which
    the connection waits for the other side (to pick up, to answer an offer or a
    renegotiation, to confirm the end), its timer runs, and when it expires the
    call is over: the connection has terminated, every flow that was ever opened
    has been closed, the close handler is gone, and the application has been told: if
    the call is not a conference, exactly once in its life, and in a conference, whose
    renegotiations also call the close handler, at least once. *)
Theorem unanswered_call_ends c0 conv os es c conn (EN : EcEnv) :
  created c0 conv → ecall_run c0 os es c →
  e_econn c = Some conn → waiting (ec_state conn) = true →
  is_Some (ec_tmr_local conn)
  ∧ ∃ c' es',
      ecall_exec DoEconnTimer c = Some ((), c', es')
      ∧ ecall_state c' = ECONN_TERMINATING
      ∧ opened (es ++ es') ≡ₚ closed (es ++ es')
      ∧ e_cb c' CB_CLOSE = false
      ∧ (e_cb c0 CB_CLOSE = true →
         (1 ≤ close_calls (es ++ es'))%nat
         ∧ (conv ≠ ICALL_CONV_TYPE_CONFERENCE → close_calls (es ++ es') = 1%nat)).
Proof.
  intros Hcr Hrun Hc Hw. destruct (created_ok _ _ Hcr) as (Hok0 & Hf0 & _ & Hv0).
  pose proof (run_sp _ _ _ _ Hrun Hok0) as Hs. pose proof (sp_ok _ _ _ Hs) as Hok.
  destruct (expire_leaves c conn Hok Hc Hw) as [Ht (conn' & Hst & _ & Hl)]. split; [done|].
  pose proof (wp_and _ _ _ _ Hl (expire_safe c Hok)) as Hl'.
  apply wp_defined in Hl' as ([] & c' & es' & E & Hr & Hs'). exists c', es'.
  injection Hr as R1 R2 R3 R4. pose proof (sp_trans _ _ _ _ _ Hs Hs') as Hs2.
  split; [done|]. unfold ecall_state. rewrite R1. split; [done|]. split.
  - pose proof (sp_flows _ _ _ Hs2) as Hp. unfold flows in Hp at 2. rewrite Hf0, R2, R3 in Hp.
    cbn in Hp. by rewrite app_nil_r in Hp.
  - split; [done|]. intros Hcb. pose proof (sp_told _ _ _ Hs2) as Ht2. unfold close_set in Ht2.
    rewrite Hcb, R4 in Ht2. cbn in Ht2. split; [lia|]. intros Hv. rewrite <-Hv0 in Hv.
    pose proof (sp_closes _ _ _ Hs2 Hv) as Hn. unfold close_set in Hn. rewrite Hcb, R4 in Hn. cbn in Hn. lia.
Qed.
End Live.
