(* ===== verification/EcallVideo.v ===== *)
(** * The camera during the set-up of a call

    A request to change the state of the camera is put off while the call is being
    set up or renegotiated.  What the functions of a call keep of such a request,
    and what becomes of it when the data channel is established. *)

From stdpp Require Import gmap.
From S2P Require Import Prelude LibRe LibReJson Jzon EconnMsg EconnFmt EconnFmtSpec EconnFmtProps Econn EconnSpec Icall AudioLevel UserList Ecall EcallOps EcallMsg EcallSpec EcallSafe EcallProps EcallView.

#[local] Open Scope string_scope.
#[local] Open Scope Z_scope.
#[local] Open Scope list_scope.

(** ** What is kept *)

(** If [m] is defined it does not change [f]. *)
Definition keeps {T A} (f : ecall → T) (m : EM A) : Prop :=
  ∀ c, wlp m (λ _ c' _, f c' = f c) c.

Create HintDb keeps.

Section Rules.
Context {T : Type} (f : ecall → T).

Lemma keeps_ret {A} (a : A) : keeps f (mret a).
Proof. done. Qed.
Lemma keeps_undef {A} : keeps f (A := A) undef.
Proof. done. Qed.
Lemma keeps_of_ptr {A} (o : option A) : keeps f (of_ptr o).
Proof. by destruct o. Qed.
Lemma keeps_emit es : keeps f (uemit es).
Proof. done. Qed.
Lemma keeps_get : keeps f uget.
Proof. done. Qed.
Lemma keeps_modify g : (∀ c, f (g c) = f c) → keeps f (umodify g).
Proof. intros Hg c. apply Hg. Qed.
Lemma keeps_bind {A B} (m : EM A) (k : A → EM B) :
  keeps f m → (∀ a, keeps f (k a)) → keeps f (m ≫= k).
Proof.
  intros Hm Hk c. apply wlp_bind. eapply wlp_mono; [apply Hm|]. cbn. intros a c1 _ E.
  eapply wlp_mono; [apply Hk|]. cbn. congruence.
Qed.
Lemma keeps_when b m : keeps f m → keeps f (uwhen b m).
Proof. by destruct b. Qed.
Lemma keeps_done {A} (m : EM A) : keeps f m → keeps f (udone m).
Proof. intros Hm. by apply keeps_bind. Qed.
End Rules.

Ltac keeps_step :=
  lazymatch goal with
  | |- keeps _ (_ ≫= _) => apply keeps_bind; [|intros ?]
  | |- keeps _ (mret _) => apply keeps_ret
  | |- keeps _ undef => apply keeps_undef
  | |- keeps _ (of_ptr _) => apply keeps_of_ptr
  | |- keeps _ uget => apply keeps_get
  | |- keeps _ (umodify _) => apply keeps_modify; intros ?; reflexivity
  | |- keeps _ (uemit _) => apply keeps_emit
  | |- keeps _ (uwhen _ _) => apply keeps_when
  | |- keeps _ (udone _) => apply keeps_done
  | |- keeps _ (if ?b then _ else _) => destruct b
  | |- keeps _ (match ?x with _ => _ end) => destruct x
  | |- keeps _ _ => solve [auto with keeps]
  end.
Ltac keeps_steps := cbv beta zeta; repeat (keeps_step; cbv beta zeta).

Section Keeps.
Context `{LR : LibReSpec, LJ : LibReJson, LJS : !LibReJsonSpec, EN : EcEnv}.
Implicit Types c : ecall.

(** The state of the camera and the request that was put off. *)
Definition camera (c : ecall) : icall_vstate * bool * icall_vstate :=
  (e_vstate c, e_update_glare c, e_glare_vstate c).

#[local] Abbreviation kept := (keeps camera).

Lemma next_kept : kept next.
Proof. unfold next. keeps_steps. Qed.
Lemma tmr_start_kept t d : kept (tmr_start t d).
Proof. unfold tmr_start. keeps_steps. Qed.
Lemma tmr_cancel_kept t : kept (tmr_cancel t).
Proof. unfold tmr_cancel. keeps_steps. Qed.
Lemma cb_clear_kept k : kept (cb_clear k).
Proof. unfold cb_clear. keeps_steps. Qed.
Lemma call_cb_kept k e : kept (call_cb k e).
Proof. unfold call_cb. keeps_steps. Qed.
Lemma flow_do_kept o g : kept (flow_do o g).
Proof. unfold flow_do. keeps_steps. Qed.
Hint Resolve next_kept tmr_start_kept tmr_cancel_kept cb_clear_kept call_cb_kept flow_do_kept : keeps.
Lemma flow_call_do_kept g : kept (flow_call_do g).
Proof. unfold flow_call_do. keeps_steps. Qed.
Lemma flow_call_ret_kept {A} g (z : A) r : kept (flow_call_ret g z r).
Proof. unfold flow_call_ret. keeps_steps. Qed.
Lemma flow_ask_kept {A} (z : A) r : kept (flow_ask z r).
Proof. unfold flow_ask. keeps_steps. Qed.
Lemma trace_kept a b d e g : kept (trace_msg a b d e g).
Proof. unfold trace_msg. keeps_steps. Qed.
Lemma local_update_kept k v : kept (props_local_update k v).
Proof. unfold props_local_update. keeps_steps. Qed.
Hint Resolve flow_call_do_kept flow_call_ret_kept flow_ask_kept trace_kept local_update_kept : keeps.
Lemma mute_props_kept : kept update_mute_props.
Proof. unfold update_mute_props. keeps_steps. Qed.
Lemma props_set_kept k v : kept (ecall_props_set_local k v).
Proof. unfold ecall_props_set_local. keeps_steps. Qed.
Lemma props_get_kept k : kept (ecall_props_get_local k) ∧ kept (ecall_props_get_remote k).
Proof. split; unfold ecall_props_get_local, ecall_props_get_remote; keeps_steps. Qed.
Lemma dce_sendmsg_kept m : kept (ecall_dce_sendmsg m).
Proof. unfold ecall_dce_sendmsg, ecall_trace. keeps_steps. Qed.
Lemma dce_send_kept mb : kept (ecall_dce_send mb).
Proof. unfold ecall_dce_send. keeps_steps. Qed.
Hint Resolve mute_props_kept props_set_kept props_get_kept dce_sendmsg_kept dce_send_kept : keeps.
Hint Extern 1 (keeps _ (ecall_props_get_local _)) => apply props_get_kept : keeps.
Hint Extern 1 (keeps _ (ecall_props_get_remote _)) => apply props_get_kept : keeps.
Lemma send_handler_kept n m : kept (send_handler n m).
Proof. unfold send_handler, ecall_trace. keeps_steps. Qed.
Hint Resolve send_handler_kept : keeps.
Lemma dispatch_kept cb n evs : (∀ ev, kept (cb ev)) → kept (dispatch cb n evs).
Proof. intros Hcb. induction evs as [|[] evs IH]; cbn [dispatch]; keeps_steps. Qed.
Lemma on_econn_with_kept {A} cb (m : (econn_message → Z) → ECM A) :
  (∀ ev, kept (cb ev)) → kept (on_econn_with cb m).
Proof. intros Hcb. unfold on_econn_with. keeps_steps. by apply dispatch_kept. Qed.
Lemma on_econn_kept {A} (m : (econn_message → Z) → ECM A) : kept (on_econn m).
Proof. apply on_econn_with_kept. intros ev. apply keeps_undef. Qed.
Hint Resolve on_econn_kept : keeps.

Lemma sync_kept cond r : kept (sync_if cond r).
Proof. unfold sync_if, send_propsync. keeps_steps. Qed.
Lemma create_kept : kept ecall_create_econn.
Proof. unfold ecall_create_econn. keeps_steps. Qed.
Lemma close_flow_kept : kept close_flow.
Proof. unfold close_flow. keeps_steps. Qed.
Lemma close_oldflow_kept : kept close_oldflow.
Proof. unfold close_oldflow. keeps_steps. Qed.
Hint Resolve sync_kept create_kept close_flow_kept close_oldflow_kept : keeps.
Lemma close_kept err t : kept (ecall_close err t).
Proof. unfold ecall_close. keeps_steps. Qed.
Lemma end_kept : kept ecall_end.
Proof. unfold ecall_end. keeps_steps. Qed.
Lemma turnservers_kept l : kept (add_turnservers l).
Proof. induction l; cbn [add_turnservers]; keeps_steps. Qed.
Lemma gather_all_kept b : kept (gather_all b).
Proof. apply flow_call_do_kept. Qed.
Hint Resolve close_kept end_kept turnservers_kept gather_all_kept : keeps.
Lemma alloc_flow_kept role ct cbr : kept (alloc_flow role ct cbr).
Proof. unfold alloc_flow, retire_flow, new_flow. keeps_steps. Qed.
Lemma keep_muted_kept {A} (m : EM A) : kept m → kept (keep_muted m).
Proof. intros Hm. unfold keep_muted. keeps_steps. Qed.
Lemma await_kept : kept await_connection.
Proof. unfold await_connection. keeps_steps. Qed.
Hint Resolve alloc_flow_kept keep_muted_kept await_kept : keeps.
Lemma offer_kept : kept offer_and_connect.
Proof. unfold offer_and_connect, update_req, start_conn. keeps_steps. Qed.
Lemma gen_answer_kept b : kept (generate_answer b).
Proof. unfold generate_answer. keeps_steps. Qed.
Hint Resolve offer_kept gen_answer_kept : keeps.
Lemma gen_offer_kept : kept generate_offer.
Proof. unfold generate_offer. keeps_steps. Qed.
Lemma gather_answer_kept : kept generate_or_gather_answer.
Proof. unfold generate_or_gather_answer. keeps_steps. Qed.
Hint Resolve gen_offer_kept gather_answer_kept : keeps.
Lemma answer_kept ct cbr : kept (ecall_answer ct cbr).
Proof. unfold ecall_answer. keeps_steps. Qed.
Lemma restart_kept ct b : kept (ecall_restart ct b).
Proof. unfold ecall_restart. keeps_steps. Qed.
Hint Resolve answer_kept restart_kept : keeps.
Lemma start_kept ct cbr : kept (ecall_start ct cbr).
Proof. unfold ecall_start. keeps_steps. Qed.
Lemma propsync_handler_kept : kept propsync_handler.
Proof. unfold propsync_handler. keeps_steps. Qed.
Hint Resolve start_kept propsync_handler_kept : keeps.
Lemma handle_propsync_kept m : kept (handle_propsync m).
Proof. unfold handle_propsync. keeps_steps. Qed.
Lemma mf_restart_kept a b : kept (mf_restart_handler a b).
Proof. unfold mf_restart_handler. keeps_steps. Qed.
Hint Resolve handle_propsync_kept mf_restart_kept : keeps.
Lemma handle_answer_kept s : kept (flow_handle_answer s).
Proof. unfold flow_handle_answer. keeps_steps. Qed.
Hint Resolve handle_answer_kept : keeps.
Lemma econn_handler_kept ev : kept (econn_handler ev).
Proof.
  destruct ev; cbn [econn_handler];
    unfold econn_conn_handler, conn_handler, econn_answer_handler, answer_reset,
      econn_update_req_handler, update_req_handler, econn_update_resp_handler, set_offer_sdp,
      econn_alert_handler, econn_confmsg_handler, econn_ping_handler, econn_close_handler,
      ecall_media_stop; keeps_steps.
Qed.
Lemma run_econn_kept m : kept (run_econn m).
Proof. apply on_econn_with_kept, econn_handler_kept. Qed.
Hint Resolve run_econn_kept : keeps.
Lemma end_error_kept err : kept (end_with_error err).
Proof. unfold end_with_error. keeps_steps. Qed.
Lemma media_start_kept : kept ecall_media_start.
Proof. unfold ecall_media_start. keeps_steps. Qed.
Lemma recv_kept u cl m : kept (recv_message u cl m).
Proof. unfold recv_message. keeps_steps. Qed.
Hint Resolve end_error_kept media_start_kept recv_kept : keeps.
Lemma learn_kept u cl : kept (learn_peer u cl).
Proof. unfold learn_peer, ecall_set_peer_userid, ecall_set_peer_clientid. keeps_steps. Qed.
Lemma recv_own_kept m : kept (recv_own m).
Proof. unfold recv_own. keeps_steps. Qed.
Hint Resolve learn_kept recv_own_kept : keeps.
Lemma msg_recv_kept u cl m : kept (ecall_msg_recv u cl m).
Proof. unfold ecall_msg_recv, ecall_trace. keeps_steps. Qed.
Hint Resolve msg_recv_kept : keeps.
Lemma timer_kept t : kept (fire t).
Proof.
  unfold fire, media_start_timeout_handler, connection_timeout_handler, quality_handler,
    audio_level_handler. keeps_steps.
Qed.
Hint Resolve timer_kept : keeps.

(** The operations that decide about the camera. *)
Definition camera_op (o : ecall_op) : bool :=
  match o with DoSetVideoSendState _ | DoChannelEstab _ => true | _ => false end.

Lemma exec_kept o : camera_op o = false → kept (ecall_exec o).
Proof.
  intros Ho. destruct o; try done; cbn [ecall_exec].
  all: unfold ecall_reject, ecall_update_mute_state, icall_restart, ecall_set_clients,
    icall_send_reject_msg, icall_get_members, ecall_sync_props, send_propsync, ecall_ping,
    ecall_add_turnserver, ecall_set_media_laddr, ecall_set_sessid, ecall_set_peer_userid,
    ecall_set_peer_clientid, ecall_set_real_clientid, ecall_set_conf_part,
    ecall_set_confmsg_handler, ecall_set_propsync_handler, ecall_set_ping_handler,
    ecall_update_ssrc, ecall_add_decoders_for_user, ecall_remove_decoders_for_user,
    ecall_sync_decoders, ecall_set_keystore, ecall_set_quality_interval, ecall_transp_recv,
    mf_estab_handler, mf_close_handler, mf_stopped_handler, mf_gather_handler,
    data_channel_handler, channel_close_handler, rtp_start_handler, acbr_detect_handler,
    norelay_handler, econn_expire, ecall_media_stop, ecall_trace, on_flow.
  all: keeps_steps.
Qed.

(** ** The data channel is established *)

Lemma wlp_seq {A B} (m : EM A) (k : A → EM B) (P : A → ecall → Prop) (Q : B → ecall → Prop) c :
  wlp m (λ a c1 _, P a c1) c →
  (∀ a c1, P a c1 → wlp (k a) (λ b c2 _, Q b c2) c1) →
  wlp (m ≫= k) (λ b c2 _, Q b c2) c.
Proof.
  intros Hm Hk. apply wlp_bind. eapply wlp_mono; [exact Hm|]. cbn. intros a c1 _ Ha.
  by apply Hk.
Qed.
Lemma wlp_read {B} (k : ecall → EM B) (Q : B → ecall → Prop) c :
  wlp (k c) (λ b c2 _, Q b c2) c → wlp (uget ≫= k) (λ b c2 _, Q b c2) c.
Proof. intros Hk. apply (wlp_seq _ _ (λ a c1, a = c ∧ c1 = c)); [done|by intros ? ? [-> ->]]. Qed.

(** What else decides whether a request is put off. *)
Definition stage (c : ecall)
    : option econn * icall_conv_type * option econn_props_ref * (icall_vstate * bool * icall_vstate) :=
  (e_econn c, e_conv_type c, e_props_local c, camera c).

Lemma local_update_stage key val c :
  wlp (props_local_update key val) (λ a c' _, a = 0 ∧ stage c' = stage c ∧ e_update c' = e_update c) c.
Proof.
  unfold props_local_update. apply wlp_read. destruct (e_props_local c) as [p|]; [|done].
  unfold econn_props_update, econn_props_add.
  destruct (e_heap c !! p) as [d|] eqn:E; unfold wlp, mbind, MU_bind; cbn; rewrite E; [|done].
  cbn. by destruct (odict_lookup d key) as [[]|].
Qed.

Lemma ask_stage {A} (z : A) r : keeps stage (flow_ask z r).
Proof. unfold flow_ask, next. keeps_steps. Qed.
Lemma dce_send_stage mb : keeps stage (ecall_dce_send mb).
Proof. unfold ecall_dce_send, flow_call_ret, next. keeps_steps. Qed.
Lemma pending_stage n : keeps stage (send_pending n).
Proof. induction n; cbn [send_pending]; pose proof dce_send_stage; keeps_steps. Qed.
Lemma callback_keeps {T} (f : ecall → T) k e : keeps f (call_cb k e).
Proof. unfold call_cb. keeps_steps. Qed.
Lemma dce_sendmsg_stage m : keeps stage (ecall_dce_sendmsg m).
Proof. unfold ecall_dce_sendmsg, ecall_trace, trace_msg, flow_call_ret, next. keeps_steps. Qed.

(** The properties are sent, whatever the data channel says. *)
Lemma sync_stage cond r c conn p :
  e_econn c = Some conn → ec_transp conn = Some {| sendh := true |} → e_props_local c = Some p →
  wlp (sync_if cond r) (λ a c' _, a = 0 ∧ stage c' = stage c) c.
Proof.
  intros Hc Ht Hp. unfold sync_if. apply wlp_read. rewrite Hc. cbn [can_send_propsync].
  destruct (_ && _) eqn:E; [|done]. apply andb_true_iff in E as [_ E].
  unfold send_propsync. apply wlp_read. rewrite Hp.
  unfold wlp, on_econn. erewrite on_econn_with_eval; [|exact Hc|].
  2:{ unfold econn_send_propsync. unfold econn_can_send_propsync in E. run_M. rewrite E. cbn.
      rewrite transp_send_eval. unfold sent_err, sent. rewrite Ht. cbn. reflexivity. }
  cbn [dispatch]. apply (wlp_seq _ _ (λ _ c1, stage c1 = stage c)); [|done].
  eapply (wlp_seq _ _ (λ _ c1, stage c1 = stage c)); [|done].
  unfold send_handler. apply wlp_read. cbv zeta. cbn [address_msg msg_type send_transport].
  eapply (wlp_seq _ _ (λ _ c1, stage c1 = stage c)); [|done].
  eapply wlp_mono; [apply dce_sendmsg_stage|]. cbv beta. intros _ c1 _ ->.
  unfold stage. cbn. by rewrite Hc.
Qed.

(** A request that is not put off is carried out. *)
Lemma set_video_applies v c :
  e_vstate c ≠ v → video_glare c = false →
  wlp (ecall_set_video_send_state v)
    (λ _ c' _, camera c' = (v, e_update_glare c, e_glare_vstate c)) c.
Proof.
  intros Hv Hg. unfold ecall_set_video_send_state. apply wlp_read.
  rewrite bool_decide_false, Hg by done.
  apply (wlp_seq _ _ (λ _ c1, stage c1 = stage c)); [by destruct (bool_decide _)|].
  intros [] c1 E1. eapply wlp_seq; [apply local_update_stage|]. cbv beta. intros a c2 (-> & E2 & _).
  cbn [negb Z.eqb]. eapply wlp_seq; [apply local_update_stage|]. cbv beta. intros a c3 (-> & E3 & _).
  cbn [negb Z.eqb]. rewrite E2, E1 in E3. unfold apply_vstate.
  eapply (wlp_seq _ _ (λ _ c4, camera c4 = (v, e_update_glare c, e_glare_vstate c))).
  { unfold wlp, umodify, camera. cbn. injection E3 as _ _ _ _ -> ->. done. }
  intros [] c4 E4. eapply wlp_mono.
  2:{ intros a c' es E. etrans; [exact E|exact E4]. }
  cbv beta. clear. revert c4. match goal with |- ∀ c4, wlp ?m _ c4 => change (kept m) end.
  keeps_steps.
Qed.

(** The request that was put off is carried out. *)
Lemma channel_ready_applies c conn v :
  e_econn c = Some conn → ec_state conn = ECONN_DATACHAN_ESTABLISHED →
  e_vstate c ≠ v → e_update_glare c = true → e_glare_vstate c = v →
  wlp channel_ready (λ _ c' _, camera c' = (v, false, v)) c.
Proof.
  intros Hc Hst Hv Hg Hgv. unfold channel_ready. apply wlp_read.
  eapply wlp_seq; [apply pending_stage|]. cbv beta. intros [] c1 E1.
  set (P c' := (stage c', e_update c') = (stage c, false)).
  apply (wlp_seq _ _ (λ _, P)); [by unfold wlp, umodify, P; rewrite <-E1|]. intros [] c2 E2.
  apply (wlp_seq _ _ (λ _, P)); [by destruct (e_cb c _)|]. clear dependent c1 c2. intros [] c1 E1.
  assert (∀ k e c', P c' → wlp (call_cb k e) (λ _ c2 _, P c2) c') as Hcb.
  { intros k e c' Hc'. eapply wlp_mono; [apply (callback_keeps (λ c, (stage c, e_update c)))|].
    cbv beta. intros _ c2 _ E. etrans; [exact E|exact Hc']. }
  eapply wlp_seq; [by apply Hcb|]. cbv beta. intros [] c2 E2.
  eapply wlp_seq; [by apply Hcb|]. cbv beta. intros [] c3 E3. rewrite Hg. cbn [uwhen].
  injection E3 as F1 F2 F3 F4 F5 F6 F7.
  apply (wlp_seq _ _ (λ _ c', camera c' = (e_vstate c, false, v) ∧ video_glare c' = false)).
  { unfold wlp, umodify, camera, video_glare. cbn. rewrite F1, F2, F4, F6, F7, Hc, Hgv. cbn.
    rewrite Hst. split; [done|]. by destruct (bool_decide _). }
  intros [] c4 [E4 V4]. injection E4 as G1 G2 G3.
  apply (wlp_seq _ _ (λ _ c', camera c' = (v, false, v))); [|done]. rewrite Hgv.
  eapply wlp_mono; [apply set_video_applies; congruence|]. cbv beta. by rewrite G2, G3.
Qed.

(** The properties are sent before. *)
Lemma channel_sync_stage c conn p :
  e_econn c = Some conn → ec_transp conn = Some {| sendh := true |} → e_props_local c = Some p →
  wlp channel_sync (λ a c' _, a = 0 ∧ stage c' = stage c) c.
Proof.
  intros Hc Ht Hp. unfold channel_sync. eapply wlp_seq; [apply ask_stage|]. cbv beta.
  intros cbr c1 E1. apply (wlp_seq _ _ (λ a c2, a = 0 ∧ stage c2 = stage c)).
  { destruct cbr; [|done]. eapply wlp_mono; [apply local_update_stage|]. cbv beta.
    intros a c2 _ (-> & E2 & _). by rewrite E2. }
  intros a c2 [-> E2]. cbn [Z.eqb negb]. pose proof E2 as E2'. injection E2' as F1 F2 F3 _ _ _.
  eapply wlp_mono; [eapply sync_stage|]; [by rewrite F1|done|by rewrite F3|].
  cbv beta. intros a c3 _ [-> E3]. by rewrite E3.
Qed.

Lemma channel_estab_applies a c conn v :
  ecall_ok c → e_flow c = Some a → e_delayed_restart c = false →
  e_econn c = Some conn → ec_state conn = ECONN_ANSWERED →
  e_vstate c ≠ v → e_update_glare c = true → e_glare_vstate c = v →
  wlp (channel_estab_handler a) (λ _ c' _, camera c' = (v, false, v)) c.
Proof.
  intros Hok Hf Hd Hc Hst Hv Hg Hgv. destruct (ok_local c Hok) as (p & Hp & _).
  destruct (ok_conn c Hok conn Hc) as [_ _ Ht _].
  unfold channel_estab_handler, on_flow. apply wlp_read. rewrite bool_decide_true by done.
  cbn [negb]. set (P c' := (stage c', e_delayed_restart c') = (stage c, false)).
  assert (P c) as E0 by (by unfold P; rewrite Hd).
  apply (wlp_seq _ _ (λ _, P)); [done|]. intros [] c1 E1.
  apply (wlp_seq _ _ (λ _, P)).
  { unfold close_oldflow. apply wlp_read. by destruct (e_oldflow c1). }
  intros [] c2 E2. apply wlp_read. injection E2 as F1 F2 F3 F4 F5 F6 F7.
  set (conn' := {| conn with ec_state := ECONN_DATACHAN_ESTABLISHED |}).
  apply (wlp_seq _ _ (λ _ c3, stage c3 = (Some conn', e_conv_type c, e_props_local c, camera c))).
  { rewrite bool_decide_false by (by rewrite F1, Hc). unfold wlp, on_econn.
    assert (econn_set_datachan_established conn = ((), conn', [])) as Ex.
    { unfold econn_set_datachan_established. run_M. rewrite Hst, bool_decide_true by done.
      by rewrite set_state_eval. }
    rewrite (on_econn_with_eval _ (λ _, econn_set_datachan_established) c2 conn () conn' [])
      by congruence.
    cbn [dispatch]. unfold mbind, MU_bind, stage, camera. cbn. by rewrite F2, F3, F4, F5, F6. }
  intros [] c3 E3. rewrite F7. injection E3 as G1 G2 G3 G4 G5 G6.
  eapply wlp_seq; [by eapply channel_sync_stage; [| |rewrite G3]|]. cbv beta. intros err c4 [-> E4].
  cbn [Z.eqb negb]. injection E4 as K1 K2 K3 K4 K5 K6.
  apply (channel_ready_applies _ conn'); [congruence|done|congruence..].
Qed.
End Keeps.

(** ** Requests that are withdrawn *)

Section Video.
Context `{LR : LibReSpec, LJ : LibReJson, LJS : !LibReJsonSpec}.

Lemma run_kept c os es c' :
  ecall_run c os es c' → Forall (λ o, camera_op o = false) os → camera c' = camera c.
Proof.
  induction 1 as [|EN c o c1 e1 os e2 c2 Ho E _ IH]; intros Hos; [done|].
  apply Forall_cons in Hos as [Ho' Hos]. rewrite IH by done.
  pose proof (exec_kept o Ho' c) as Hk. unfold wlp in Hk. by rewrite E in Hk.
Qed.

(** A request that is put off, and one for the state the camera is in. *)
Lemma put_off (EN : EcEnv) c v :
  video_glare c = true → v ≠ e_vstate c →
  ecall_exec (DoSetVideoSendState v) c
  = Some ((), {| c with e_update_glare := true; e_glare_vstate := v |}, []).
Proof.
  intros Hg Hv. cbn [ecall_exec]. unfold ecall_set_video_send_state, udone, uget, mbind, MU_bind.
  by rewrite bool_decide_false, Hg by done.
Qed.
Lemma ignored (EN : EcEnv) c : ecall_exec (DoSetVideoSendState (e_vstate c)) c = Some ((), c, []).
Proof.
  cbn [ecall_exec]. unfold ecall_set_video_send_state, udone, uget, mbind, MU_bind.
  by rewrite bool_decide_true.
Qed.

(** A request to turn the camera on that is withdrawn while the call is being
    set up is carried out nevertheless.  While a one-to-one call is set up or
    renegotiated a request is put off; a second one for the state the camera is in
    returns early and does not cancel it.  When the data channel is established,
    after whatever else happened to the call, the camera is put in the state the
    user had withdrawn. *)
Theorem withdrawn_video_request_applied (EN : EcEnv) c v os es c3 a :
  ecall_ok c → video_glare c = true → v ≠ e_vstate c →
  ecall_run c (DoSetVideoSendState v :: DoSetVideoSendState (e_vstate c) :: os) es c3 →
  Forall (λ o, camera_op o = false) os →
  e_flow c3 = Some a → ecall_state c3 = ECONN_ANSWERED → e_delayed_restart c3 = false →
  op_ok c3 (DoChannelEstab a) →
  ∃ c4 es4, ecall_exec (DoChannelEstab a) c3 = Some ((), c4, es4) ∧ e_vstate c4 = v.
Proof.
  intros Hok Hg Hv Hrun Hos Hf Hst Hd Ho.
  pose proof (sp_ok _ _ _ (run_sp _ _ _ _ Hrun Hok)) as Hok3.
  inversion Hrun as [|EN1 ? ? c1 e1 ? e2 ? _ E1 Hrun1]; subst.
  inversion Hrun1 as [|EN2 ? ? c2 e3 ? e4 ? _ E2 Hrun2]; subst.
  rewrite put_off in E1 by done. injection E1 as <- <-.
  set (c' := {| c with e_update_glare := true; e_glare_vstate := v |}) in *.
  pose proof (ignored EN2 c') as E2'. change (e_vstate c') with (e_vstate c) in E2'.
  rewrite E2' in E2. injection E2 as <- <-.
  pose proof (run_kept _ _ _ _ Hrun2 Hos) as Hk. injection Hk as K1 K2 K3.
  unfold ecall_state in Hst. destruct (e_econn c3) as [conn|] eqn:Hc; [|done]. cbn in Hst.
  pose proof (exec_safe (DoChannelEstab a) c3 Hok3 Ho) as Hs.
  apply wp_defined in Hs as ([] & c4 & es4 & E & _). exists c4, es4. split; [done|].
  assert (e_vstate c3 ≠ v) as Hv3 by (rewrite K1; done).
  pose proof (channel_estab_applies (EN := EN) a c3 conn v Hok3 Hf Hd Hc Hst Hv3 K2 K3) as Hw.
  cbn [ecall_exec] in E. unfold wlp in Hw. rewrite E in Hw. by injection Hw.
Qed.
End Video.

(** ** Texts received by a call

    What a call does with properties that are not strings. *)

Section Wire.
Context `{LR : LibReSpec, LJ : LibReJson, LJS : !LibReJsonSpec, EN : EcEnv}.
Implicit Types c : ecall.

(** A PROPSYNC whose [videosend] is a truth value of JSON. *)
Definition bool_prop_fields (b : bool) : list field :=
  [("props", Some (ODICT_OBJECT [("videosend", ODICT_BOOL b)]))].
Definition bool_prop_text (m : econn_message) (b : bool) : string :=
  json_encode_odict (present (header_fields m ++ bool_prop_fields b)).

Lemma bool_prop_decoded h m b curr_time mtime :
  msg_type m = ECONN_PROPSYNC → header_ok m →
  ∃ m' p h', econn_message_decode h curr_time mtime (Some (bool_prop_text m b)) = inr (Decoded m' h')
             ∧ msg_type m' = ECONN_PROPSYNC ∧ msg_u m' = u_propsync (Some p)
             ∧ h' !! p = Some [("videosend", ODICT_BOOL b)].
Proof.
  intros Ht Hh. unfold bool_prop_text. rewrite decode_header; [|done|keys_differ|].
  - rewrite Ht. unfold payload_decode, econn_props_decode. read.
    do 3 eexists. split_and!; [reflexivity..|]. apply (lookup_insert_eq h).
  - apply present_ok; [keys_differ|].
    repeat (apply Forall_cons; split); try apply Forall_nil_2.
    all: try first [apply str_field_ok|apply id_field_ok|apply bool_field_ok].
    intros v [= <-]. cbn. split; [apply NoDup_singleton|]. by repeat constructor.
Qed.

(** What decides how a PROPSYNC is handled. *)
Definition syncs (c : ecall) : props_heap * bool := (e_heap c, e_propsynch c).

Lemma trace_syncs m tx tp : keeps syncs (ecall_trace m tx tp).
Proof. unfold ecall_trace, trace_msg, next. keeps_steps. Qed.
Lemma learn_syncs u cl : keeps syncs (learn_peer u cl).
Proof.
  unfold learn_peer, ecall_set_peer_userid, ecall_set_peer_clientid, flow_call_do, flow_do.
  keeps_steps.
Qed.
Lemma sendmsg_syncs m : keeps syncs (ecall_dce_sendmsg m).
Proof. unfold ecall_dce_sendmsg, ecall_trace, trace_msg, flow_call_ret, next. keeps_steps. Qed.
Lemma send_syncs n m : keeps syncs (send_handler n m).
Proof.
  unfold send_handler, ecall_trace, trace_msg, call_cb, next. pose proof sendmsg_syncs. keeps_steps.
Qed.
Lemma econn_syncs {A} (m : (econn_message → Z) → ECM A) : keeps syncs (on_econn m).
Proof.
  unfold on_econn, on_econn_with, next. keeps_steps. generalize (events (m (send_err a a1) a0)).
  intros evs. induction evs as [|[] evs IH]; cbn [dispatch]; pose proof send_syncs; keeps_steps.
Qed.
Lemma sync_syncs cond r : keeps syncs (sync_if cond r).
Proof. unfold sync_if, send_propsync. pose proof @econn_syncs. keeps_steps. Qed.

(** A PROPSYNC whose [videosend] is a JSON truth value instead of a string
    passes the decoder, and the call that receives it, from whomever and in
    whatever state, follows the value as if it were the address of a string: a text
    that any client of the conversation can send leads to undefined behaviour. *)
Theorem nonstring_property_undefined m b c curr_time mtime uid cid :
  msg_type m = ECONN_PROPSYNC → header_ok m → e_propsynch c = false →
  ecall_exec (DoTranspRecv curr_time mtime uid cid (bool_prop_text m b)) c = None.
Proof.
  intros Ht Hh Hs.
  destruct (bool_prop_decoded (e_heap c) m b curr_time mtime Ht Hh) as (m' & p & h' & Hd & Ht' & Hu & Hp).
  cut (wlp (ecall_exec (DoTranspRecv curr_time mtime uid cid (bool_prop_text m b)))
         (λ _ _ _, False) c).
  { unfold wlp. by destruct (ecall_exec _ c) as [[[a c1] e1]|]. }
  cbn [ecall_exec]. unfold ecall_transp_recv. apply wlp_read. rewrite Hd.
  apply (wlp_seq _ _ (λ _ c1, syncs c1 = (h', false))); [by apply pair_eq|].
  intros [] c1 E1. apply (wlp_seq _ _ (λ _ _, False)); [|done]. unfold ecall_msg_recv.
  eapply wlp_seq; [apply trace_syncs|]. cbv beta. intros [] c2 E2.
  eapply wlp_seq; [apply learn_syncs|]. cbv beta. intros [] c3 E3.
  rewrite bool_decide_true by done. unfold handle_propsync.
  eapply wlp_seq; [apply sync_syncs|]. cbv beta. intros err c4 E4.
  rewrite E3, E2, E1 in E4. injection E4 as Eh Es. apply wlp_read. rewrite Es, Hu. cbn [of_ptr].
  apply (wlp_seq _ _ (λ a c5, a = Some p ∧ syncs c5 = (h', false))); [|].
  { split; [done|]. by apply pair_eq. }
  intros a c5 [-> E5].
  apply (wlp_seq _ _ (λ _ c6, syncs c6 = (h', false) ∧ e_props_remote c6 = Some p)); [done|].
  intros [] c6 [E6 R6]. apply (wlp_seq _ _ (λ _ _, False)); [|done].
  unfold propsync_handler. apply wlp_read. rewrite R6. injection E6 as -> _.
  unfold propsync_get_states, econn_props_get. rewrite !str_isset_Some. cbn. rewrite Hp. cbn.
  by rewrite (lookup_nodup _ "videosend") by apply NoDup_singleton.
Qed.
End Wire.
