(* ===== verification/EcallSetup.v ===== *)
(** * Setting up a call between two clients

    The two halves of a call set-up, each on its own: what the caller and the
    callee do at each step, on the way from two idle calls to two connections
    that are in the same call. *)

From stdpp Require Import gmap.
From S2P Require Import Prelude LibRe LibReJson Jzon EconnMsg EconnFmt EconnFmtSpec EconnFmtProps Econn EconnSpec EconnPair Icall AudioLevel UserList Ecall EcallOps EcallMsg EcallSpec EcallSafe EcallProps EcallView.

#[local] Open Scope string_scope.
#[local] Open Scope Z_scope.
#[local] Open Scope list_scope.

(** A flow and a system that work: flows are allocated, gather their candidates in
    the background, produce [sdp] and accept what they are given; messages can be
    sent and memory is available. *)
Record media_ok (EN : EcEnv) (sdp : string) : Prop := {
  md_alloc : ∀ n, iflow_alloc n = 0;
  md_offer : ∀ n, flow_generate_offer n = (0, sdp);
  md_answer : ∀ n, flow_generate_answer n = (0, sdp);
  md_handle_offer : ∀ n, flow_handle_offer n = 0;
  md_handle_answer : ∀ n, flow_handle_answer_ret n = (0, false);
  md_gather : ∀ n, flow_is_gathered n = false;
  md_send : ∀ n, sendh_ret n = 0;
  md_mem : ∀ n, mem_ok n = true;
  md_rand : ∀ n, id_fits (rand_str n);
}.

(** A call that was never used: no connection, no flow, nobody it talks to. *)
Record idle_view (v : ecview) (p : econn_props_ref) : Prop := {
  id_conf : timeout_setup (v_conf v) ≠ 0;
  id_econn : v_econn v = None;
  id_flow : v_flow v = None;
  id_oldflow : v_oldflow v = None;
  id_local : v_local v = Some p;
  id_props : props_ok (v_heap v) p;
  id_remote : v_remote v = None;
  id_upeer : v_upeer v = None;
  id_cpeer : v_cpeer v = None;
  id_uself : id_fits (v_uself v) ∧ v_uself v ≠ "";
  id_cself : id_fits (v_cself v) ∧ v_cself v ≠ "";
  id_sessid : v_sessid v = None;
  id_freed : v_freed v = false;
  id_async : v_async v = ASYNC_NONE;
  id_update : v_update v = false;
  id_answered : v_answered v = false;
  id_devpair : v_devpair v = false;
  id_propsynch : v_propsynch v = false;
  id_restart : v_restart v = false;
  id_glare : v_glare v = false;
  id_dce : v_dce v = [];
  id_send : v_cb v CB_SEND = true;
}.

Section Steps.
Context `{LR : LibReSpec, LJ : LibReJson, LJS : !LibReJsonSpec, EN : EcEnv}.
Implicit Types c : ecall.

(** ** Questions and calls to the flow *)

Lemma ask_sees {A B} (z : A) r a (k : A → EM B) c Q :
  e_flow c = Some a → (∀ n c1, view c1 = view c → sees (k (r n)) c1 Q) →
  sees (flow_ask z r ≫= k) c Q.
Proof.
  intros Hf Hk. unfold flow_ask. apply sees_assoc, sees_read. rewrite Hf.
  apply sees_assoc, sees_skip; [apply next_quiet|]. intros n c1 Hv. by apply sees_step, Hk.
Qed.

Lemma call_ret_sees {A B} f (z : A) r a (k : A → EM B) c Q :
  e_flow c = Some a →
  (∀ n c1, view c1 = view c → sees (k (r n)) c1 (λ b v es, Q b v (visible [EeFlow a f] ++ es))) →
  sees (flow_call_ret f z r ≫= k) c Q.
Proof.
  intros Hf Hk. unfold flow_call_ret. apply sees_assoc, sees_read. rewrite Hf.
  apply sees_assoc, sees_emit. apply sees_assoc, sees_skip; [apply next_quiet|].
  intros n c1 Hv. by apply sees_step, Hk.
Qed.

Lemma callback_sees {B} cb e (k : () → EM B) c Q :
  e_cb c cb = true → sees (k ()) c (λ b v es, Q b v (visible [e] ++ es)) →
  sees (call_cb cb e ≫= k) c Q.
Proof.
  intros Hcb Hk. unfold call_cb. apply sees_assoc, sees_read. rewrite Hcb. cbn [uwhen].
  by apply sees_emit.
Qed.

(** ** Properties *)

(** [h'] is [h] with another value of [key] in [p]. *)
Definition prop_set (p : econn_props_ref) (key val : string) (h h' : props_heap) : Prop :=
  props_ok h' p ∧ econn_props_get h' (Some p) (Some key) = Some (Some val)
  ∧ ∀ k, k ≠ key → econn_props_get h' (Some p) (Some k) = econn_props_get h (Some p) (Some k).

Lemma local_update_sees {B} key val p (k : Z → EM B) c Q :
  e_props_local c = Some p → props_ok (e_heap c) p → key ≠ "" →
  (∀ h c1, prop_set p key val (v_heap (view c)) h →
           view c1 = (let v := view c in {| v with v_heap := h |}) → sees (k 0) c1 Q) →
  sees (props_local_update key val ≫= k) c Q.
Proof.
  intros Hp Hok Hk Hn. destruct (props_update_get _ _ key val Hok Hk) as (h & E & H1 & H2 & H3 & _).
  unfold props_local_update. apply sees_assoc, sees_read, sees_assoc, (sees_ptr _ p); [done|].
  apply sees_assoc, (sees_ptr _ (0, h)); [done|]. cbn [fst snd].
  apply sees_assoc. eapply sees_set; [done|]. intros c1 Hv. by apply sees_step, (Hn h).
Qed.

Lemma mute_props_sees {B} p (k : () → EM B) c Q :
  e_props_local c = Some p → props_ok (e_heap c) p →
  (∀ h b c1, prop_set p "muted" b (v_heap (view c)) h →
             view c1 = (let v := view c in {| v with v_heap := h |}) → sees (k ()) c1 Q) →
  sees (update_mute_props ≫= k) c Q.
Proof.
  intros Hp Hok Hn. unfold update_mute_props. apply sees_assoc, sees_read.
  rewrite bool_decide_false by (by rewrite Hp).
  apply sees_assoc, sees_skip; [apply next_quiet|]. intros n c1 Hv. unfold udone.
  apply sees_assoc, (local_update_sees _ _ p); autorewrite with view; rewrite ?Hv;
    autorewrite with view in Hp, Hok; try done.
  cbv zeta. intros h c2 Hs Hv2. by eapply sees_step, Hn.
Qed.

(** ** The connection *)

(** A connection as [ecall_create_econn] makes it. *)
Definition new_conn (cf : econn_conf) (uid cid sess : string) : econn := {|
  ec_conf := cf; ec_tmr_local := Some (timeout_setup cf, TMR_LOCAL);
  ec_transp := Some {| sendh := true |}; ec_state := ECONN_IDLE; ec_dir := ECONN_DIR_UNKNOWN;
  ec_userid_self := uid; ec_clientid := cid; ec_sessid_local := sess; ec_sessid_remote := "";
  ec_userid_remote := ""; ec_clientid_remote := ""; ec_setup_err := 0; ec_conflict := 0;
  ec_connh := true; ec_answerh := true; ec_update_reqh := true; ec_update_resph := true;
  ec_alerth := true; ec_confmsgh := true; ec_pingh := true; ec_closeh := true; ec_err := 0 |}.

Lemma create_sees {B} sdp (k : Z → EM B) c Q :
  media_ok EN sdp → e_econn c = None → e_sessid c = None → e_sessid_freed c = false →
  e_userid_self c ≠ "" → e_clientid_self c ≠ "" →
  (∀ sess c1, id_fits sess →
     view c1 = (let v := view c in {| v with v_econn :=
       Some (new_conn (v_conf v) (v_uself v) (v_cself v) sess) |}) →
     sees (k 0) c1 Q) →
  sees (ecall_create_econn ≫= k) c Q.
Proof.
  intros Hm Hc Hs Hf Hu Hi Hk. unfold ecall_create_econn. apply sees_assoc, sees_read.
  rewrite bool_decide_true, Hf by done. cbn [negb orb].
  apply sees_assoc, sees_skip; [apply next_quiet|]. intros n c1 Hv1.
  apply sees_assoc, sees_skip; [apply next_quiet|]. intros n2 c2 Hv2. rewrite Hv1 in Hv2.
  rewrite !(md_mem _ _ Hm), Hs. unfold econn_alloc.
  rewrite !str_isset_Some, !bool_decide_true by done. cbn [negb orb].
  apply sees_assoc. eapply sees_set; [reflexivity|]. intros c3 Hv3. apply sees_step.
  apply (Hk (rand_str n)); [apply (md_rand _ _ Hm)|]. rewrite Hv3.
  unfold view at 1. cbn. autorewrite with view. rewrite Hv2. done.
Qed.

(** A function of the connection that does not call back or send. *)
Lemma silent_econn_sees {A B} (m : (econn_message → Z) → ECM A) conn a conn' (k : A → EM B) c Q :
  e_econn c = Some conn → (∀ tx, m tx conn = (a, conn', [])) →
  (∀ c1, view c1 = (let v := view c in {| v with v_econn := Some conn' |}) → sees (k a) c1 Q) →
  sees (on_econn m ≫= k) c Q.
Proof.
  intros Hc Hm Hk. apply sees_bind. unfold sees at 1, wp, on_econn.
  rewrite (on_econn_with_eval _ _ _ _ _ _ _ Hc (Hm _)). intros c1 Hv. by apply Hk.
Qed.

(** A function of the connection that calls back once. *)
Definition is_callback (ev : econn_event) : bool :=
  match ev with EvSend _ => false | _ => true end.
Lemma run_econn_sees {B} m conn conn' ev (k : () → EM B) c Q :
  e_econn c = Some conn → (∀ tx, m tx conn = ((), conn', [ev])) → is_callback ev = true →
  (∀ c1, view c1 = (let v := view c in {| v with v_econn := Some conn' |}) →
         sees (econn_handler ev ≫= k) c1 Q) →
  sees (run_econn m ≫= k) c Q.
Proof.
  intros Hc Hm Hev Hk. unfold sees, wp, run_econn. unfold mbind at 1, MU_bind at 1.
  rewrite (on_econn_with_eval _ _ _ _ _ _ _ Hc (Hm _)).
  change (sees ((dispatch econn_handler (e_tick c) [ev];; mret ()) ≫= k) (after_conn c conn') Q).
  assert (dispatch econn_handler (e_tick c) [ev] = (econn_handler ev;; mret ())) as -> by (by destruct ev).
  specialize (Hk (after_conn c conn') eq_refl). revert Hk.
  unfold sees, wp, mbind, MU_bind, mret, MU_ret.
  destruct (econn_handler ev _) as [[[[] c2] e2]|]; [|done].
  destruct (k () c2) as [[[b c3] e3]|]; [|done]. by rewrite !app_nil_r.
Qed.

(** ** Flows *)

Lemma alloc_flow_sees {B} sdp role ct cbr (k : Z → EM B) c Q :
  media_ok EN sdp → e_flow c = None → e_oldflow c = None →
  (∀ c1, view c1 = (let v := view c in
           {| v with v_flow := Some (v_nflow v); v_nflow := S (v_nflow v) |}) →
         sees (k 0) c1 Q) →
  sees (alloc_flow role ct cbr ≫= k) c Q.
Proof.
  intros Hm Hf Ho Hk. unfold alloc_flow.
  apply sees_assoc, sees_skip.
  { unfold retire_flow. apply quiet_get. rewrite Ho. apply quiet_bind; [done|]. intros [] c1 Hv1.
    split; [|done]. unfold view at 1. cbn. autorewrite with view in *. rewrite Hv1 in *.
    destruct (view c). cbn in *. by subst. }
  intros [] c1 Hv1. unfold new_flow.
  apply sees_assoc, sees_assoc, sees_skip; [apply next_quiet|]. intros n c2 Hv2.
  rewrite (md_alloc _ _ Hm). cbn [Z.eqb negb]. change (negb (0 =? 0)) with false. cbv iota.
  apply sees_assoc, sees_read, sees_assoc, sees_emit. cbn [visible omap list_omap visible1 app].
  apply sees_assoc. eapply sees_set; [reflexivity|]. intros c3 Hv3. apply sees_step.
  change (negb (0 =? 0)) with false. cbv iota. apply sees_assoc, sees_read.
  do 9 hush. apply sees_step, Hk.
  etrans; [eassumption|].
  unfold view at 1. cbn. autorewrite with view. by rewrite Hv2, Hv1.
Qed.

(** ** The caller starts a call *)

Definition pending_conn (conn : econn) : econn :=
  {| conn with ec_state := ECONN_PENDING_OUTGOING |}.

(** The value of [videosend] when a call of type [ct] starts. *)
Definition start_video (v : ecview) (ct : icall_call_type) (p : econn_props_ref)
    : option (option string) :=
  if bool_decide (ct = ICALL_CALL_TYPE_VIDEO ∧ v_vstate v = ICALL_VIDEO_STATE_STARTED)
  then Some (Some "true") else econn_props_get (v_heap v) (Some p) (Some "videosend").

Lemma start_prop_sees {B} p (b : bool) (k : () → EM B) c Q :
  e_props_local c = Some p → props_ok (e_heap c) p →
  (∀ h c1, props_ok h p →
     econn_props_get h (Some p) (Some "videosend")
     = (if b then Some (Some "true") else econn_props_get (v_heap (view c)) (Some p) (Some "videosend")) →
     view c1 = (let v := view c in {| v with v_heap := h |}) → sees (k ()) c1 Q) →
  sees (uwhen b (udone (props_local_update "videosend" "true")) ≫= k) c Q.
Proof.
  intros Hp Hok Hk. destruct b; cbn [uwhen].
  - unfold udone. apply sees_assoc, (local_update_sees _ _ p); [done..|]. intros h c1 (H1 & H2 & _) Hv.
    by apply sees_step, (Hk h).
  - by apply sees_step, (Hk (e_heap c)).
Qed.

Lemma generate_offer_sees {B} sdp a (k : Z → EM B) c Q :
  media_ok EN sdp → e_flow c = Some a → e_async c = ASYNC_NONE →
  (∀ c1, view c1 = (let v := view c in {| v with v_async := ASYNC_OFFER |}) → sees (k 0) c1 Q) →
  sees (generate_offer ≫= k) c Q.
Proof.
  intros Hm Hf Ha Hk. unfold generate_offer. apply sees_assoc, (ask_sees _ _ a); [done|].
  intros n c1 Hv1. rewrite (md_gather _ _ Hm). apply sees_assoc, sees_read.
  rewrite bool_decide_true by in_view. cbn [negb].
  apply sees_assoc. eapply sees_set; [reflexivity|]. intros c2 Hv2. apply sees_step, Hk.
  rewrite Hv2. unfold view at 1. cbn. by autorewrite with view; rewrite Hv1.
Qed.

Lemma start_sees v p sdp ct cbr c :
  media_ok EN sdp → idle_view v p → view c = v →
  sees (ecall_start ct cbr) c (λ r v' es,
    r = 0 ∧ es = [] ∧ ∃ h sess,
    id_fits sess ∧ props_ok h p ∧ econn_props_get h (Some p) (Some "videosend") = start_video v ct p
    ∧ v' = {| v with v_econn := Some (pending_conn (new_conn (v_conf v) (v_uself v) (v_cself v) sess));
                     v_flow := Some (v_nflow v); v_nflow := S (v_nflow v); v_heap := h;
                     v_async := ASYNC_OFFER |}).
Proof.
  intros Hm [] Hv. destruct id_uself0 as [_ Hu], id_cself0 as [_ Hi].
  unfold ecall_start. apply sees_read. rewrite bool_decide_true by in_view. cbn [negb].
  hush. apply (create_sees sdp); try (done || in_view).
  intros sess c1 Hsess Hv1. settle. no_err.
  eapply (silent_econn_sees _ _ ()); [in_view|intros tx; apply set_state_eval|].
  intros c2 Hv2. settle. apply (alloc_flow_sees sdp); [done|in_view..|]. intros c3 Hv3. settle. no_err.
  hush. apply (mute_props_sees p); [in_view..|]. intros h b c5 (Hp5 & _ & Hs5) Hv5. settle.
  apply sees_read, (start_prop_sees p); [in_view..|]. intros h2 c6 Hok6 Hget6 Hv6. settle.
  eapply (sees_set _ (view c6)).
  { unfold view at 1. cbn. autorewrite with view. rewrite Hv6. cbn. congruence. }
  intros c7 Hv7. settle.
  apply (generate_offer_sees sdp (v_nflow v)); [done|in_view..|].
  intros c8 Hv8. settle. no_err. hush. hush. apply sees_ret. split; [done|]. split; [done|].
  exists h2, sess. split; [done|]. split; [done|]. split; [|done].
  rewrite Hget6. unfold start_video. rewrite Hs5 by done.
  rewrite (bool_decide_false (e_props_local c5 = None)) by in_view.
  assert (e_vstate c5 = v_vstate v) as -> by in_view.
  cbn [negb andb]. by repeat case_bool_decide; try tauto.
Qed.

(** ** Sending an offer or an answer *)

(** A message with the identifiers of a call. *)
Definition addressed (v : ecview) (msg : econn_message) : econn_message :=
  {| msg with
     src_userid := str_ncpy (v_uself v) ECONN_ID_LEN;
     src_clientid := str_ncpy (v_cself v) ECONN_ID_LEN;
     dest_userid := match v_upeer v with
                    | Some u => str_ncpy u ECONN_ID_LEN | None => dest_userid msg end;
     dest_clientid := match v_cpeer v with
                      | Some u => str_ncpy u ECONN_ID_LEN | None => dest_clientid msg end |}.

(** A function of the connection that sends one message over the backend. *)
Lemma send_econn_sees {A B} sdp (m : (econn_message → Z) → ECM A) conn a conn' msg (k : A → EM B) c Q :
  media_ok EN sdp → e_econn c = Some conn → e_cb c CB_SEND = true →
  send_transport (msg_type msg) = Some ECONN_TRANSP_BACKEND →
  (∀ tx, tx msg = 0 → m tx conn = (a, conn', [EvSend msg])) →
  (∀ c1, view c1 = (let v := view c in {| v with v_econn := Some conn' |}) →
     sees (k a) c1 (λ b v es,
       Q b v (EeSend (v_uself (view c)) (addressed (view c) msg) None false :: es))) →
  sees (on_econn m ≫= k) c Q.
Proof.
  intros Hm Hc Hcb Ht Hr Hk.
  assert (send_err c (e_tick c) msg = 0) as Htx.
  { unfold send_err. by rewrite Ht, Hcb, (md_send _ _ Hm). }
  apply sees_bind. unfold sees at 1, wp, on_econn.
  rewrite (on_econn_with_eval _ _ _ _ _ _ _ Hc (Hr _ Htx)).
  change (sees (dispatch (λ _, undef) (e_tick c) [EvSend msg];; mret a) (after_conn c conn')
    (λ a v es, ∀ c1, view c1 = v → sees (k a) c1 (λ b v2 e2, Q b v2 (es ++ e2)))).
  cbn [dispatch]. apply sees_assoc. unfold send_handler. apply sees_assoc, sees_read. cbv zeta.
  cbn [address_msg msg_type]. rewrite Ht. hush. repeat apply sees_assoc.
  apply sees_read.
  assert (e_cb c0 CB_SEND = true) as -> by in_view. cbn [uwhen].
  apply sees_emit, sees_step, sees_step, sees_ret. intros c1 Hv1. cbn.
  apply Hk. rewrite Hv1. in_view.
Qed.

Lemma start_pending tx sdp p conn :
  ec_transp conn = Some {| sendh := true |} → ec_state conn = ECONN_PENDING_OUTGOING →
  timeout_setup (ec_conf conn) ≠ 0 → tx (setup_msg conn false sdp p false) = 0 →
  econn_start tx sdp p conn
  = (0, {| conn with ec_dir := ECONN_DIR_OUTGOING;
                     ec_tmr_local := Some (timeout_setup (ec_conf conn), TMR_LOCAL) |},
     [EvSend (setup_msg conn false sdp p false)]).
Proof.
  intros Ht Hst Htmo Htx. eval_call. rewrite Hst. cbn. rewrite set_state_eval. cbn.
  rewrite send_setup_eval. apply Z.eqb_neq in Htmo. unfold sent_err, sent. cbn. rewrite Ht. cbn.
  change (setup_msg _ false sdp p false) with (setup_msg conn false sdp p false).
  rewrite Htx, !Z.eqb_refl. cbn. by rewrite Htmo, <-Hst.
Qed.

Lemma answer_pending tx sdp p conn :
  ec_transp conn = Some {| sendh := true |} → ec_state conn = ECONN_PENDING_INCOMING →
  tx (setup_msg conn true sdp p false) = 0 →
  econn_answer tx sdp p conn
  = (0, {| conn with ec_state := ECONN_ANSWERED; ec_tmr_local := None |},
     [EvSend (setup_msg conn true sdp p false)]).
Proof.
  intros Ht Hst Htx. eval_call. rewrite Hst. cbn.
  rewrite send_setup_eval. unfold sent_err, sent. cbn. rewrite Ht. cbn.
  change (setup_msg _ true sdp p false) with (setup_msg conn true sdp p false).
  rewrite Htx, !Z.eqb_refl. cbn. by rewrite set_state_eval.
Qed.

(** The candidates of the caller's flow are complete: the offer is sent. *)
Lemma offer_sees v p sdp a conn c :
  media_ok EN sdp → view c = v → v_flow v = Some a → v_econn v = Some conn →
  v_async v = ASYNC_OFFER → v_update v = false → v_local v = Some p → v_cb v CB_SEND = true →
  ec_transp conn = Some {| sendh := true |} → ec_state conn = ECONN_PENDING_OUTGOING →
  timeout_setup (ec_conf conn) ≠ 0 →
  sees (mf_gather_handler a) c (λ _ v' es,
    v' = {| v with v_econn := Some {| conn with ec_dir := ECONN_DIR_OUTGOING;
              ec_tmr_local := Some (timeout_setup (ec_conf conn), TMR_LOCAL) |};
            v_async := ASYNC_COMPLETE |}
    ∧ es = [EeSend (v_uself v) (addressed v (setup_msg conn false (Some sdp) (Some p) false)) None false]).
Proof.
  intros Hm Hv Hf Hc Ha Hu Hp Hcb Ht Hst Htmo.
  unfold mf_gather_handler, on_flow. apply sees_read. rewrite bool_decide_true by in_view.
  cbn [negb]. apply sees_read. cbv zeta.
  assert (econn_current_state (e_econn c) = ECONN_PENDING_OUTGOING) as -> by in_view.
  change (is_ending ECONN_PENDING_OUTGOING) with false. cbv iota.
  assert (e_async c = ASYNC_OFFER) as -> by in_view. unfold offer_and_connect.
  hush. rewrite (md_mem _ _ Hm). cbn [negb].
  apply sees_assoc, (call_ret_sees _ _ _ a); [in_view|]. intros n c1 Hv1. settle.
  rewrite (md_offer _ _ Hm). cbn [fst snd]. no_err. apply sees_assoc, sees_read.
  assert (e_update c1 = false) as -> by in_view. unfold start_conn. apply sees_assoc, sees_read.
  rewrite bool_decide_false by in_view.
  assert (e_props_local c1 = Some p) as -> by in_view.
  eapply (send_econn_sees sdp); [done|in_view|in_view| | |].
  2:{ intros tx Htx. by apply start_pending. }
  { done. }
  intros c2 Hv2. settle. no_err. eapply sees_last; [reflexivity|]. split; [in_view|].
  rewrite Hv1. done.
Qed.

(** ** The offer reaches the callee *)

(** The caller as the callee's connection knows it. *)
Definition called_by (conn : econn) (uid cid sess : string) : econn :=
  {| conn with ec_state := ECONN_PENDING_INCOMING; ec_dir := ECONN_DIR_INCOMING;
     ec_sessid_remote := str_ncpy sess ECONN_ID_LEN;
     ec_userid_remote := str_ncpy uid ECONN_ID_LEN;
     ec_clientid_remote := str_ncpy cid ECONN_ID_LEN;
     ec_tmr_local := Some (timeout_setup (ec_conf conn), TMR_LOCAL) |}.

Lemma new_conn_rings tx cf uid cid sess u cl m :
  msg_type m = ECONN_SETUP → resp m = false →
  econn_recv_message tx u cl m (new_conn cf uid cid sess)
  = ((), called_by (new_conn cf uid cid sess) u cl (sessid_sender m),
     [EvConn (msg_time m) u cl (msg_age m) (setup_sdp_msg m) (setup_props m) false]).
Proof.
  intros Ht Hr. change (econn_recv_message tx u cl m) with (deliver tx (new_conn cf u cl sess) m).
  rewrite deliver_setup by (done || by split; left). unfold econn_message_isrequest. rewrite Hr.
  cbn [negb]. rewrite setup_request_idle by done. done.
Qed.

Lemma learn_peer_sees {B} u cl (k : () → EM B) c Q :
  e_userid_peer c = None → e_clientid_peer c = None →
  (∀ c1, view c1 = (let v := view c in {| v with v_upeer := Some u; v_cpeer := Some cl |}) →
         sees (k ()) c1 Q) →
  sees (learn_peer u cl ≫= k) c Q.
Proof.
  intros Hu Hc Hk. unfold learn_peer. apply sees_assoc, sees_read.
  rewrite !bool_decide_true by done. cbn [uwhen]. apply sees_assoc.
  eapply sees_set; [reflexivity|]. intros c1 Hv1. apply sees_assoc.
  eapply sees_set; [reflexivity|]. intros c2 Hv2. apply sees_assoc, sees_read. hush.
  apply Hk. rewrite Hv. unfold view at 1. cbn. autorewrite with view. by rewrite Hv1.
Qed.

(** The handler of the connection: a flow is allocated, the offer is kept and the
    application told. *)
Lemma conn_handler_sees v p sdp u cl t offer pr c :
  media_ok EN sdp → view c = v → v_upeer v = Some u → u ≠ "" → v_flow v = None →
  v_oldflow v = None → v_remote v = None → is_Some (v_econn v) → v_cb v CB_START = true →
  econn_props_get (v_heap v) (Some pr) (Some "videosend") = Some p →
  sees (econn_conn_handler t u cl offer (Some pr) false) c (λ _ v' es,
    v' = {| v with v_flow := Some (v_nflow v); v_nflow := S (v_nflow v); v_offer := offer;
                   v_remote := Some pr |}
    ∧ es = [EeStart t u cl (match p with Some s => String.eqb s "true" | None => false end)]).
Proof.
  intros Hm Hv Hu Hne Hf Ho Hr Hc Hcb Hp. unfold econn_conn_handler, conn_handler.
  apply sees_assoc, sees_read.
  assert (str_isset (e_userid_peer c) = true) as ->.
  { rewrite e_userid_peer_view, Hv, Hu, str_isset_Some. by apply bool_decide_true. }
  apply sees_assoc, sees_step. no_err. rewrite bool_decide_true by in_view. cbn [orb].
  apply sees_assoc, (alloc_flow_sees sdp); [done|in_view..|]. intros c1 Hv1. settle. no_err.
  hush. unfold set_offer_sdp. assign. hush. apply sees_assoc, sees_read.
  rewrite bool_decide_true by in_view. cbn [negb]. assign.
  unfold ecall_props_get_remote. apply sees_assoc, sees_assoc, sees_read.
  destruct Hc as [conn Hc]. assert (e_econn c4 = Some conn) as -> by in_view.
  apply (sees_ptr _ p); [in_view|].
  apply sees_assoc, callback_sees; [in_view|]. hush. hush. apply sees_step. no_err. cbn [uwhen].
  apply sees_ret. split; [in_view|done].
Qed.

(** The text of a SETUP request arrives. *)
Lemma offer_received v p sdp c now time u cl text msg h pr video :
  media_ok EN sdp → idle_view v p → view c = v →
  econn_message_decode (v_heap v) now time (Some text) = inr (Decoded msg h) →
  msg_type msg = ECONN_SETUP → resp msg = false → setup_props msg = Some pr →
  econn_props_get h (Some pr) (Some "videosend") = Some video →
  u ≠ "" → str_casecmp (Some (v_uself v)) (Some u) ≠ 0 → v_cb v CB_START = true →
  sees (ecall_transp_recv now time u cl text) c (λ _ v' es,
    ∃ sess, id_fits sess
    ∧ v' = {| v with v_econn := Some (called_by (new_conn (v_conf v) (v_uself v) (v_cself v) sess)
                                        u cl (sessid_sender msg));
                     v_flow := Some (v_nflow v); v_nflow := S (v_nflow v); v_heap := h;
                     v_remote := Some pr; v_offer := setup_sdp_msg msg;
                     v_upeer := Some u; v_cpeer := Some cl |}
    ∧ es = [EeStart (msg_time msg) u cl
              (match video with Some s => String.eqb s "true" | None => false end)]).
Proof.
  intros Hm [] Hv Hd Ht Hr Hpr Hvid Hu Hne Hcb. destruct id_uself0 as [_ Hus], id_cself0 as [_ Hcs].
  unfold ecall_transp_recv. apply sees_read.
  assert (e_heap c = v_heap v) as -> by in_view. rewrite Hd. assign.
  unfold udone, ecall_msg_recv. hush. apply sees_assoc, learn_peer_sees; [in_view..|].
  intros c2 Hv2. settle. rewrite bool_decide_false by congruence. apply sees_assoc, sees_read.
  assert (e_userid_self c2 = v_uself v) as -> by in_view.
  assert (e_clientid_self c2 = v_cself v) as -> by in_view.
  rewrite (proj2 (Z.eqb_neq _ _) Hne). cbn [andb].
  rewrite bool_decide_true by in_view. cbn [andb]. unfold econn_is_creator_full.
  rewrite !str_isset_Some, !bool_decide_true, (proj2 (Z.eqb_neq _ _) Hne) by done.
  unfold econn_message_isrequest. rewrite Hr. cbn [negb orb andb].
  apply sees_assoc, (create_sees sdp); try (done || in_view). intros sess c3 Hsess Hv3. settle. no_err.
  unfold recv_message. apply sees_assoc, sees_assoc, sees_read. rewrite bool_decide_false by in_view.
  eapply run_econn_sees; [in_view|by intros tx; apply new_conn_rings|done|]. intros c4 Hv4. settle.
  cbn [econn_handler]. rewrite Hpr.
  apply sees_bind. eapply sees_mono.
  { eapply conn_handler_sees with (p := video); try (done || in_view). }
  cbv beta. intros _ v' es [-> ->] c5 Hv5. apply sees_step, sees_ret. exists sess. split; [done|].
  split; [|done]. by rewrite Hv5.
Qed.

(** ** The callee answers *)

Lemma answer_sees v p sdp a offer conn ct cbr c :
  media_ok EN sdp → view c = v → v_econn v = Some conn → ec_state conn = ECONN_PENDING_INCOMING →
  v_flow v = Some a → v_local v = Some p → props_ok (v_heap v) p → v_offer v = Some offer →
  v_async v = ASYNC_NONE →
  sees (ecall_answer ct cbr) c (λ r v' es,
    r = 0 ∧ es = [EeFlow a (FlHandleOffer offer)] ∧ ∃ h b,
    prop_set p "muted" b (v_heap v) h
    ∧ v' = {| v with v_heap := h; v_offer := None; v_async := ASYNC_ANSWER; v_pending := true;
                     v_answered := true |}).
Proof.
  intros Hm Hv Hc Hst Hf Hp Hok Ho Ha. unfold ecall_answer. apply sees_read.
  rewrite bool_decide_false by in_view. rewrite (bool_decide_true (_ = ECONN_PENDING_INCOMING)) by in_view.
  cbn [negb]. rewrite bool_decide_false by in_view.
  do 4 hush. apply (mute_props_sees p); [in_view..|]. intros h b c4 Hs Hv4. settle.
  unfold generate_or_gather_answer. apply sees_assoc, sees_read.
  assert (e_offer c4 = Some offer) as -> by in_view. flat.
  apply (call_ret_sees _ _ _ a); [in_view|]. intros n c5 Hv5. settle.
  rewrite (md_handle_offer _ _ Hm). no_err. assign. apply sees_step. no_err.
  apply sees_assoc, (ask_sees _ _ a); [in_view|]. intros n2 c7 Hv7. settle. rewrite (md_gather _ _ Hm).
  rewrite bool_decide_true by in_view. cbn [uwhen]. assign. hush. apply sees_step. no_err.
  hush. assign. apply sees_ret. split; [done|]. split; [done|]. exists h, b. split; [done|].
  match goal with H : view ?c = _ |- view ?c = _ => rewrite H end.
  by rewrite bool_decide_true by (by rewrite Hc).
Qed.

(** The candidates of the callee's flow are complete: the answer is sent. *)
Lemma answer_sent v p sdp a conn c :
  media_ok EN sdp → view c = v → v_flow v = Some a → v_econn v = Some conn →
  v_async v = ASYNC_ANSWER → v_pending v = true → v_update v = false → v_local v = Some p →
  v_cb v CB_SEND = true → ec_transp conn = Some {| sendh := true |} →
  ec_state conn = ECONN_PENDING_INCOMING →
  sees (mf_gather_handler a) c (λ _ v' es,
    v' = {| v with v_econn := Some {| conn with ec_state := ECONN_ANSWERED; ec_tmr_local := None |};
                   v_async := ASYNC_COMPLETE |}
    ∧ es = [EeSend (v_uself v) (addressed v (setup_msg conn true (Some sdp) (Some p) false)) None false]).
Proof.
  intros Hm Hv Hf Hc Ha Hpe Hu Hp Hcb Ht Hst.
  unfold mf_gather_handler, on_flow. apply sees_read. rewrite bool_decide_true by in_view.
  cbn [negb]. apply sees_read. cbv zeta.
  assert (econn_current_state (e_econn c) = ECONN_PENDING_INCOMING) as -> by in_view.
  change (is_ending ECONN_PENDING_INCOMING) with false. cbv iota.
  assert (e_async c = ASYNC_ANSWER) as -> by in_view.
  assert (e_econn_pending c = true) as -> by in_view. unfold generate_answer. cbn [negb].
  hush. rewrite (md_mem _ _ Hm). cbn [negb].
  apply sees_assoc, (call_ret_sees _ _ _ a); [in_view|]. intros n c1 Hv1. settle.
  rewrite (md_answer _ _ Hm). cbn [fst snd]. no_err. apply sees_assoc, sees_read.
  assert (e_update c1 = false) as -> by in_view.
  assert (e_props_local c1 = Some p) as -> by in_view. flat.
  eapply (send_econn_sees sdp); [done|in_view|in_view| | |].
  2:{ intros tx Htx. by apply answer_pending. }
  { done. }
  intros c2 Hv2. settle. no_err. hush. apply sees_step. no_err.
  eapply sees_last; [reflexivity|]. split; [in_view|]. rewrite Hv1. done.
Qed.

(** ** The answer reaches the caller *)

(** The callee as the caller's connection knows it. *)
Definition answered_by (conn : econn) (uid cid sess : string) : econn :=
  {| conn with ec_state := ECONN_ANSWERED; ec_tmr_local := None;
     ec_sessid_remote := str_ncpy sess ECONN_ID_LEN;
     ec_userid_remote := str_ncpy uid ECONN_ID_LEN;
     ec_clientid_remote := str_ncpy cid ECONN_ID_LEN |}.

Lemma pending_answered tx conn u cl m :
  ec_state conn = ECONN_PENDING_OUTGOING → ec_userid_remote conn = "" →
  ec_clientid_remote conn = "" → ec_answerh conn = true →
  msg_type m = ECONN_SETUP → resp m = true →
  econn_recv_message tx u cl m conn
  = ((), answered_by conn u cl (sessid_sender m),
     [EvAnswer false (setup_sdp_msg m) (setup_props m)]).
Proof.
  intros Hst Hu Hc Hh Ht Hr. set (d := new_conn default_conf u cl "").
  change (econn_recv_message tx u cl m) with (deliver tx d m).
  rewrite deliver_setup by (done || by split; left). unfold econn_message_isrequest. rewrite Hr.
  cbn [negb]. rewrite setup_response_ok by (unfold bound; cbn; rewrite Hst; in_list).
  unfold bound, answered_by. cbn. by rewrite Hh, Hu, Hc.
Qed.

Lemma answer_handler_sees v sdp a conn answer pr c :
  media_ok EN sdp → view c = v → v_flow v = Some a → v_econn v = Some conn →
  v_answered v = false → v_cb v CB_ANSWER = true →
  sees (econn_answer_handler false (Some answer) (Some pr)) c (λ _ v' es,
    v' = {| v with v_remote := Some pr; v_answered := true |}
    ∧ es = [EeFlow a (FlHandleAnswer (Some answer)); EeAnswer]).
Proof.
  intros Hm Hv Hf Hc Ha Hcb. unfold econn_answer_handler. do 2 hush. apply sees_read.
  match goal with |- context [e_answered ?c] => assert (e_answered c = false) as -> by in_view end.
  hush. unfold udone, flow_handle_answer. flat. apply sees_read.
  match goal with |- context [e_flow ?c] => assert (e_flow c = Some a) as -> by in_view end.
  flat. apply sees_emit. hush. rewrite (md_handle_answer _ _ Hm). cbn [fst snd uwhen].
  flat. apply sees_step, sees_step, sees_step. assign. apply callback_sees; [in_view|].
  apply sees_quiet; [apply await_quiet|]. split; [in_view|done].
Qed.

Lemma answer_received v sdp a conn now time u cl text msg h answer pr c :
  media_ok EN sdp → view c = v → v_flow v = Some a → v_econn v = Some conn →
  ec_state conn = ECONN_PENDING_OUTGOING → ec_userid_remote conn = "" →
  ec_clientid_remote conn = "" → ec_answerh conn = true →
  v_answered v = false → v_upeer v = None → v_cpeer v = None → v_cb v CB_ANSWER = true →
  econn_message_decode (v_heap v) now time (Some text) = inr (Decoded msg h) →
  msg_type msg = ECONN_SETUP → resp msg = true → setup_props msg = Some pr →
  setup_sdp_msg msg = Some answer → str_casecmp (Some (v_uself v)) (Some u) ≠ 0 →
  sees (ecall_transp_recv now time u cl text) c (λ _ v' es,
    v' = {| v with v_econn := Some (answered_by conn u cl (sessid_sender msg)); v_heap := h;
                   v_remote := Some pr; v_answered := true;
                   v_upeer := Some u; v_cpeer := Some cl |}
    ∧ es = [EeFlow a (FlHandleAnswer (Some answer)); EeAnswer]).
Proof.
  intros Hm Hv Hf Hc Hst Hur Hcr Hh Ha Hup Hcp Hcb Hd Ht Hr Hpr Hsdp Hne.
  unfold ecall_transp_recv. apply sees_read.
  assert (e_heap c = v_heap v) as -> by in_view. rewrite Hd. assign.
  unfold udone, ecall_msg_recv. hush. apply sees_assoc, learn_peer_sees; [in_view..|].
  intros c2 Hv2. settle. rewrite bool_decide_false by congruence. apply sees_assoc, sees_read.
  assert (e_userid_self c2 = v_uself v) as -> by in_view.
  rewrite (proj2 (Z.eqb_neq _ _) Hne). cbn [andb].
  rewrite bool_decide_false by in_view. cbn [andb]. flat. apply sees_step. no_err.
  unfold recv_message. flat. apply sees_read. rewrite bool_decide_false by in_view.
  eapply run_econn_sees; [in_view|by intros tx; apply pending_answered|done|]. intros c4 Hv4. settle.
  cbn [econn_handler]. rewrite Hpr, Hsdp.
  apply sees_bind. eapply sees_mono.
  { eapply answer_handler_sees; try (done || in_view). }
  cbv beta. intros _ v' es [-> ->] c5 Hv5. apply sees_step, sees_ret. by rewrite Hv5.
Qed.
End Steps.
