(* ===== verification/EcallPair.v ===== *)
(** * Two clients set up a call

    The application starts a call on one side; the offer travels as a text through
    the message format; the other side rings, accepts, and its answer travels
    back.  Calls, connections, message format and flows together. *)

From stdpp Require Import gmap.
From S2P Require Import Prelude LibRe LibReJson Jzon EconnMsg EconnFmt EconnFmtSpec EconnFmtProps Econn EconnSpec EconnPair Icall AudioLevel UserList Ecall EcallOps EcallMsg EcallSpec EcallSafe EcallProps EcallView EcallVideo EcallSetup.

#[local] Open Scope string_scope.
#[local] Open Scope Z_scope.
#[local] Open Scope list_scope.

(** Operations one after the other. *)
Fixpoint ecall_execs `{LibRe, LibReJson, EcEnv} (os : list ecall_op) : EM () :=
  match os with [] => mret () | o :: os => ecall_exec o;; ecall_execs os end.

(** From [c] the operations [os] lead to [c'], and [es] is what is seen of them. *)
Definition plays `{LibRe, LibReJson} (EN : EcEnv) (os : list ecall_op) (c c' : ecall)
    (es : list ecall_event) : Prop :=
  ∃ es', ecall_execs os c = Some ((), c', es') ∧ visible es' = es.

Section Pair.
Context `{LR : LibReSpec, LJ : LibReJson, LJS : !LibReJsonSpec}.
Implicit Types c : ecall.

Lemma sees_plays (EN : EcEnv) os c (Q : () → ecview → list ecall_event → Prop) :
  sees (ecall_execs os) c Q → ∃ c' es, plays EN os c c' es ∧ Q () (view c') es.
Proof.
  intros Hs. apply wp_defined in Hs as ([] & c' & es & E & HQ). exists c', (visible es).
  split; [|done]. by exists es.
Qed.

(** ** Texts *)

Lemma props_fits h p : props_ok h p → props_fit h p.
Proof.
  intros (d & Hd & Hn & Hs). exists d. split; [done|]. cbn. split; [done|].
  eapply Forall_impl; [exact Hs|]. by intros [k w] [s ->].
Qed.

Lemma props_grow h h' p : h ⊆ h' → props_ok h p → props_ok h' p.
Proof. intros Hs (d & Hd & Hrest). exists d. split; [by eapply lookup_weaken|done]. Qed.

(** The SETUP of a call, as it arrives at the other. *)
Lemma setup_arrives v conn rsp sdp p h h2 now time :
  props_ok h p →
  let m := addressed v (setup_msg conn rsp (Some sdp) (Some p) false) in
  ∃ text pr h2',
    econn_message_encode h m = Some (inr text)
    ∧ econn_message_decode h2 now time (Some text)
      = inr (Decoded (delivered m now time (Some pr)) h2')
    ∧ h2 ⊆ h2' ∧ h2' !! pr = h !! p.
Proof.
  intros Hp m.
  assert (message_ok h m) as Hm.
  { split; [|by apply props_fits].
    assert (0 < ECONN_ID_LEN)%nat as H0 by (unfold ECONN_ID_LEN; lia).
    split; unfold id_fits, m, addressed, setup_msg, econn_message_init; cbn; repeat case_match;
      cbn; (done || by apply str_ncpy_bound). }
  destruct (message_arrives h h2 m now time Hm) as (text & pr & h2' & E & D & Hs & Hpr).
  destruct Hp as (d & Hd & _).
  change (pr ≫= (h2' !!.) = h !! p) in Hpr. rewrite Hd in Hpr.
  destruct pr as [pr|]; [|done]. exists text, pr, h2'. by rewrite Hd.
Qed.

(** ** The two halves *)

(** The caller when its offer is on the way. *)
Definition calling_conn (v : ecview) (sess : string) : econn :=
  let conn := new_conn (v_conf v) (v_uself v) (v_cself v) sess in
  {| conn with ec_state := ECONN_PENDING_OUTGOING; ec_dir := ECONN_DIR_OUTGOING |}.
Definition calling (v : ecview) (sess : string) (h : props_heap) : ecview :=
  {| v with v_econn := Some (calling_conn v sess); v_flow := Some (v_nflow v);
            v_nflow := S (v_nflow v); v_heap := h; v_async := ASYNC_COMPLETE |}.
Definition offer_msg (v : ecview) (sess sdp : string) (p : econn_props_ref) : econn_message :=
  addressed v (setup_msg (calling_conn v sess) false (Some sdp) (Some p) false).

Lemma caller_offers (EN : EcEnv) v p sdp ct cbr c :
  media_ok EN sdp → idle_view v p → view c = v →
  ∃ c' h sess, id_fits sess ∧ props_ok h p
    ∧ econn_props_get h (Some p) (Some "videosend") = start_video v ct p
    ∧ plays EN [DoStart ct cbr; DoFlowGather (v_nflow v)] c c'
        [EeSend (v_uself v) (offer_msg v sess sdp p) None false]
    ∧ view c' = calling v sess h.
Proof.
  intros Hm Hid Hv.
  assert (sees (ecall_execs [DoStart ct cbr; DoFlowGather (v_nflow v)]) c (λ _ v' es,
    ∃ h sess, id_fits sess ∧ props_ok h p
    ∧ econn_props_get h (Some p) (Some "videosend") = start_video v ct p
    ∧ es = [EeSend (v_uself v) (offer_msg v sess sdp p) None false]
    ∧ v' = calling v sess h)) as Hs.
  { cbn [ecall_execs ecall_exec]. unfold udone. apply sees_assoc, sees_bind.
    eapply sees_mono; [by eapply (start_sees v p)|]. cbv beta.
    intros r v1 es (-> & -> & h & sess & Hsess & Hp & Hvid & ->) c1 Hv1. apply sees_step.
    apply sees_bind. destruct Hid. eapply sees_mono.
    { eapply offer_sees; [done|exact Hv1|done..]. }
    cbv beta. intros _ v2 es [-> ->] c2 Hv2. apply sees_ret. exists h, sess.
    split; [done|]. split; [done|]. split; [done|]. split; [done|]. by rewrite Hv2. }
  apply sees_plays in Hs as (c' & es & Hplay & h & sess & H1 & H2 & H3 & -> & H5). eauto 10.
Qed.

(** The callee when its answer is on the way. *)
Definition called_conn (v : ecview) (sess u cl remote : string) : econn :=
  let conn := called_by (new_conn (v_conf v) (v_uself v) (v_cself v) sess) u cl remote in
  {| conn with ec_state := ECONN_ANSWERED; ec_tmr_local := None |}.
Definition called (v : ecview) (sess u cl remote : string) (h : props_heap) (pr : econn_props_ref)
    : ecview :=
  {| v with v_econn := Some (called_conn v sess u cl remote); v_flow := Some (v_nflow v);
            v_nflow := S (v_nflow v); v_heap := h; v_remote := Some pr; v_offer := None;
            v_upeer := Some u; v_cpeer := Some cl; v_async := ASYNC_COMPLETE; v_pending := true;
            v_answered := true |}.
Definition with_peer (v : ecview) (u cl : string) : ecview :=
  {| v with v_upeer := Some u; v_cpeer := Some cl |}.
Definition answer_msg (v : ecview) (sess sdp : string) (p : econn_props_ref) (u cl : string)
    : econn_message :=
  addressed (with_peer v u cl)
    (setup_msg (new_conn (v_conf v) (v_uself v) (v_cself v) sess) true (Some sdp) (Some p) false).

Lemma callee_answers (EN : EcEnv) v p sdp now time u cl text msg h pr video offer ct cbr c :
  media_ok EN sdp → idle_view v p → view c = v → v_cb v CB_START = true →
  econn_message_decode (v_heap v) now time (Some text) = inr (Decoded msg h) → v_heap v ⊆ h →
  msg_type msg = ECONN_SETUP → resp msg = false → setup_props msg = Some pr →
  setup_sdp_msg msg = Some offer → econn_props_get h (Some pr) (Some "videosend") = Some video →
  u ≠ "" → str_casecmp (Some (v_uself v)) (Some u) ≠ 0 →
  ∃ c' h' sess, id_fits sess ∧ props_ok h' p
    ∧ plays EN [DoTranspRecv now time u cl text; DoAnswer ct cbr; DoFlowGather (v_nflow v)] c c'
        [EeStart (msg_time msg) u cl
           (match video with Some s => String.eqb s "true" | None => false end);
         EeFlow (v_nflow v) (FlHandleOffer offer);
         EeSend (v_uself v) (answer_msg v sess sdp p u cl) None false]
    ∧ view c' = called v sess u cl (sessid_sender msg) h' pr.
Proof.
  intros Hm Hid Hv Hcb Hd Hh Ht Hr Hpr Hsdp Hvid Hu Hne.
  assert (sees (ecall_execs [DoTranspRecv now time u cl text; DoAnswer ct cbr; DoFlowGather (v_nflow v)])
    c (λ _ v' es, ∃ h' sess, id_fits sess ∧ props_ok h' p
    ∧ es = [EeStart (msg_time msg) u cl
              (match video with Some s => String.eqb s "true" | None => false end);
            EeFlow (v_nflow v) (FlHandleOffer offer);
            EeSend (v_uself v) (answer_msg v sess sdp p u cl) None false]
    ∧ v' = called v sess u cl (sessid_sender msg) h' pr)) as Hs.
  { cbn [ecall_execs ecall_exec]. apply sees_bind.
    eapply sees_mono; [by eapply (offer_received v p)|]. cbv beta.
    intros _ v1 es (sess & Hsess & -> & ->) c1 Hv1. unfold udone. apply sees_assoc, sees_bind.
    destruct Hid. assert (props_ok h p) as Hp by by eapply props_grow.
    eapply sees_mono; [eapply answer_sees; [done|exact Hv1|done..]|]. cbv beta.
    intros r v2 es (-> & -> & h' & b & (Hp' & _) & ->) c2 Hv2. apply sees_step.
    apply sees_bind. eapply sees_mono; [eapply answer_sent; [done|exact Hv2|done..]|]. cbv beta.
    intros _ v3 es [-> ->] c3 Hv3. apply sees_ret. exists h', sess. split; [done|]. split; [done|].
    split; [done|]. by rewrite Hv3. }
  apply sees_plays in Hs as (c' & es & Hplay & h' & sess & H1 & H2 & -> & H4). eauto 10.
Qed.

(** The caller when the answer has arrived. *)
Definition answered (v : ecview) (sess u cl remote : string) (h : props_heap) (pr : econn_props_ref)
    : ecview :=
  let v' := calling v sess h in
  {| v' with v_econn := Some (answered_by (calling_conn v sess) u cl remote); v_remote := Some pr;
             v_answered := true; v_upeer := Some u; v_cpeer := Some cl |}.

Lemma caller_answered (EN : EcEnv) v p sdp sess h now time u cl text msg h' pr answer c :
  media_ok EN sdp → idle_view v p → view c = calling v sess h → v_cb v CB_ANSWER = true →
  econn_message_decode h now time (Some text) = inr (Decoded msg h') →
  msg_type msg = ECONN_SETUP → resp msg = true → setup_props msg = Some pr →
  setup_sdp_msg msg = Some answer → str_casecmp (Some (v_uself v)) (Some u) ≠ 0 →
  ∃ c', plays EN [DoTranspRecv now time u cl text] c c'
          [EeFlow (v_nflow v) (FlHandleAnswer (Some answer)); EeAnswer]
        ∧ view c' = answered v sess u cl (sessid_sender msg) h' pr.
Proof.
  intros Hm [] Hv Hcb Hd Ht Hr Hpr Hsdp Hne.
  assert (sees (ecall_execs [DoTranspRecv now time u cl text]) c (λ _ v' es,
    v' = answered v sess u cl (sessid_sender msg) h' pr
    ∧ es = [EeFlow (v_nflow v) (FlHandleAnswer (Some answer)); EeAnswer])) as Hs.
  { cbn [ecall_execs ecall_exec]. apply sees_bind.
    eapply sees_mono; [eapply (answer_received (calling v sess h) sdp); done|].
    cbv beta. intros _ v' es [-> ->] c1 Hv1. apply sees_ret. by rewrite Hv1. }
  apply sees_plays in Hs as (c' & es & Hplay & Hv' & ->). eauto.
Qed.

(** ** Calls as their owners get them *)

Definition untouched (c : ecall) :=
  (e_conf c, e_econn c, e_flow c, e_oldflow c, e_props_remote c, e_userid_peer c, e_clientid_peer c,
   e_userid_self c, e_clientid_self c, e_sessid c, e_sessid_freed c, e_async c, e_update c,
   e_answered c, e_devpair c, e_propsynch c, e_delayed_restart c, e_update_glare c, e_dce_pendingl c).

Lemma alloc_untouched (EN : EcEnv) ct : keeps untouched (alloc_steps ct).
Proof.
  assert (∀ l, keeps untouched (add_props l)) as Hadd.
  { induction l as [|[k v] l IH]; cbn [add_props]; keeps_steps. }
  unfold alloc_steps, next. keeps_steps.
Qed.

(** Who a call belongs to: names that are set and fit. *)
Definition named (c : ecall) : Prop :=
  id_fits (e_userid_self c) ∧ e_userid_self c ≠ ""
  ∧ id_fits (e_clientid_self c) ∧ e_clientid_self c ≠ "".

Lemma created_idle c conv :
  created c conv → named c → e_cb c CB_SEND = true → ∃ p, idle_view (view c) p.
Proof.
  intros Hc (N1 & N2 & N3 & N4) Hcb. destruct (created_ok _ _ Hc) as [Hok _].
  destruct (ok_local c Hok) as (p & Hp & Hpo). exists p.
  destruct Hc as (EN & h & ct & conf & msys & convid & uid & cid & cb & c0 & Ha & Hcf & ->).
  revert Ha. unfold ecall_alloc. destruct (_ || _); [done|].
  pose proof (alloc_untouched EN ct (ecall_init h conv ct conf convid uid cid)) as Hk.
  unfold wlp in Hk. destruct (alloc_steps ct _) as [[[err c1] e1]|]; [|done].
  destruct (err =? 0); [|done]. intros [= ->].
  injection Hk as U1 U2 U3 U4 U5 U6 U7 U8 U9 U10 U11 U12 U13 U14 U15 U16 U17 U18 U19.
  split; cbn in *; try done. by rewrite U1.
Qed.

(** ** The exchange *)

(** Whether the offer announces video: the caller asked for it and the camera is on,
    or the property was set before. *)
Definition announces_video (c : ecall) (ct : icall_call_type) : bool :=
  match e_props_local c with
  | Some p => match start_video (view c) ct p with Some (Some s) => String.eqb s "true" | _ => false end
  | None => false
  end.

Lemma props_get_same h h' p p' key :
  h' !! p' = h !! p → econn_props_get h' (Some p') (Some key) = econn_props_get h (Some p) (Some key).
Proof. intros E. unfold econn_props_get. by rewrite E. Qed.

(** The exchange, with what is known of both calls at its end. *)
Lemma calls_connect (ENa ENb : EcEnv) a b pa pb sdpa sdpb ct cbr ct' cbr' now time now' time' :
  media_ok ENa sdpa → media_ok ENb sdpb →
  idle_view (view a) pa → idle_view (view b) pb →
  e_cb a CB_ANSWER = true → e_cb b CB_START = true →
  ¬ ci_eq (Some (e_userid_self a)) (Some (e_userid_self b)) →
  ∃ a1 b1 a2 offer text answer text' sa sb pra prb ha hb,
    plays ENa [DoStart ct cbr; DoFlowGather (e_nflow a)] a a1
      [EeSend (e_userid_self a) offer None false]
    ∧ econn_message_encode (e_heap a1) offer = Some (inr text)
    ∧ plays ENb [DoTranspRecv now time (e_userid_self a) (e_clientid_self a) text;
                 DoAnswer ct' cbr'; DoFlowGather (e_nflow b)] b b1
        [EeStart (u32 time) (e_userid_self a) (e_clientid_self a) (announces_video a ct);
         EeFlow (e_nflow b) (FlHandleOffer sdpa);
         EeSend (e_userid_self b) answer None false]
    ∧ econn_message_encode (e_heap b1) answer = Some (inr text')
    ∧ plays ENa [DoTranspRecv now' time' (e_userid_self b) (e_clientid_self b) text'] a1 a2
        [EeFlow (e_nflow a) (FlHandleAnswer (Some sdpb)); EeAnswer]
    ∧ id_fits sa ∧ id_fits sb
    ∧ props_ok ha pa ∧ props_ok hb pb
    ∧ view a2 = answered (view a) sa (e_userid_self b) (e_clientid_self b) sb ha pra
    ∧ view b1 = called (view b) sb (e_userid_self a) (e_clientid_self a) sa hb prb.
Proof.
  intros Hma Hmb Hia Hib Hca Hcb Hne.
  destruct (caller_offers ENa (view a) pa sdpa ct cbr a Hma Hia eq_refl)
    as (a1 & ha & sa & Hsa & Hpa & Hvid & Hplay1 & Hv1).
  destruct (setup_arrives (view a) (calling_conn (view a) sa) false sdpa pa ha (e_heap b) now time Hpa)
    as (text & pr & hb & He1 & Hd1 & Hg1 & Hpr1).
  destruct (props_get_defined ha (Some pa) (Some "videosend")) as [video Evid].
  { by intros r [= <-]. }
  set (m1 := delivered (offer_msg (view a) sa sdpa pa) now time (Some pr)).
  destruct (callee_answers ENb (view b) pb sdpb now time (e_userid_self a) (e_clientid_self a) text
              m1 hb pr video sdpa ct' cbr' b) as (b1 & hb' & sb & Hsb & Hpb & Hplay2 & Hv2); try done.
  { by rewrite (props_get_same ha _ pa). }
  { apply Hia. }
  { intros E. by apply Hne. }
  destruct (setup_arrives (with_peer (view b) (e_userid_self a) (e_clientid_self a))
              (new_conn (v_conf (view b)) (e_userid_self b) (e_clientid_self b) sb) true sdpb pb hb' ha
              now' time' Hpb) as (text' & pr' & ha' & He2 & Hd2 & Hg2 & Hpr2).
  set (m2 := delivered (answer_msg (view b) sb sdpb pb (e_userid_self a) (e_clientid_self a))
               now' time' (Some pr')).
  destruct (caller_answered ENa (view a) pa sdpa sa ha now' time' (e_userid_self b)
              (e_clientid_self b) text' m2 ha' pr' sdpb a1) as (a2 & Hplay3 & Hv3); try done.
  exists a1, b1, a2, (offer_msg (view a) sa sdpa pa), text,
    (answer_msg (view b) sb sdpb pb (e_userid_self a) (e_clientid_self a)), text', sa, sb, pr', pr, ha', hb'.
  split; [done|]. rewrite !e_heap_view, Hv1, Hv2. split; [done|]. split.
  { unfold announces_video. rewrite e_props_local_view, (id_local _ _ Hia), <-Hvid, Evid. exact Hplay2. }
  split; [done|]. split; [done|].
  assert (sessid_sender m1 = sa) as E1 by exact (str_ncpy_fits sa ECONN_ID_LEN Hsa).
  assert (sessid_sender m2 = sb) as E2 by exact (str_ncpy_fits sb ECONN_ID_LEN Hsb).
  rewrite E1 in Hv2. rewrite E2 in Hv3. split_and!; try done.
  - by eapply props_grow.
  - by rewrite E1.
Qed.
End Pair.
