(* ===== verification/EcallTalk.v ===== *)
(** * Two clients in a call

    When the data channel is open: the state of microphone and camera is
    synchronised over it, and hanging up on one side ends the call on both. *)

From stdpp Require Import gmap.
From S2P Require Import Prelude LibRe LibReJson Jzon EconnMsg EconnFmt EconnFmtSpec EconnFmtProps Econn EconnSpec EconnPair Icall AudioLevel UserList Ecall EcallOps EcallMsg EcallSpec EcallSafe EcallProps EcallView EcallLive EcallVideo EcallSetup EcallPair.

#[local] Open Scope string_scope.
#[local] Open Scope Z_scope.
#[local] Open Scope list_scope.

(** A call whose data channel is open. *)
Record talking (v : ecview) (conn : econn) (a : nat) (p : econn_props_ref) : Prop := {
  tk_econn : v_econn v = Some conn;
  tk_state : ec_state conn = ECONN_DATACHAN_ESTABLISHED;
  tk_transp : ec_transp conn = Some {| sendh := true |};
  tk_flow : v_flow v = Some a;
  tk_oldflow : v_oldflow v = None;
  tk_local : v_local v = Some p;
  tk_props : props_ok (v_heap v) p;
  tk_update : v_update v = false;
  tk_devpair : v_devpair v = false;
  tk_propsynch : v_propsynch v = false;
  tk_conv : v_conv v ≠ ICALL_CONV_TYPE_CONFERENCE;
}.

Section Talk.
Context `{LR : LibReSpec, LJ : LibReJson, LJS : !LibReJsonSpec, EN : EcEnv}.
Implicit Types c : ecall.

(** ** Messages over the data channel *)

Lemma sendmsg_sees {B} m a text (k : Z → EM B) c Q :
  e_flow c = Some a → econn_message_encode (e_heap c) m = Some (inr text) →
  (∀ n c1, view c1 = view c →
     sees (k (flow_dce_send n)) c1 (λ b v es, Q b v (EeFlow a (FlDceSend text) :: es))) →
  sees (ecall_dce_sendmsg m ≫= k) c Q.
Proof.
  intros Hf He Hk. unfold ecall_dce_sendmsg. flat. apply sees_read. flat.
  apply (sees_ptr _ (inr text)); [done|]. hush.
  apply (call_ret_sees _ _ _ a); [by rewrite e_flow_view, Hv, <-e_flow_view|]. intros n c1 Hv1.
  apply Hk. by rewrite Hv1.
Qed.

Lemma send_direct_sees {B} n m a text (k : Z → EM B) c Q :
  send_transport (msg_type m) = Some ECONN_TRANSP_DIRECT →
  e_flow c = Some a → econn_message_encode (v_heap (view c)) (addressed (view c) m) = Some (inr text) →
  (∀ c1, view c1 = view c → sees (k 0) c1 (λ b v es, Q b v (EeFlow a (FlDceSend text) :: es))) →
  sees (send_handler n m ≫= k) c Q.
Proof.
  intros Ht Hf He Hk. unfold send_handler. flat. apply sees_read. cbv zeta.
  cbn [address_msg msg_type]. rewrite Ht. flat.
  apply (sendmsg_sees _ a text); [done|exact He|]. intros n' c1 Hv1. by apply sees_step, Hk.
Qed.

(** A function of the connection that sends one message over the channel. *)
Lemma direct_econn_sees {A B} (m : (econn_message → Z) → ECM A) conn x conn' msg a text
    (k : A → EM B) c Q :
  e_econn c = Some conn → send_transport (msg_type msg) = Some ECONN_TRANSP_DIRECT →
  (∀ tx, tx msg = 0 → m tx conn = (x, conn', [EvSend msg])) → e_flow c = Some a →
  econn_message_encode (v_heap (view c)) (addressed (view c) msg) = Some (inr text) →
  (∀ c1, view c1 = (let v := view c in {| v with v_econn := Some conn' |}) →
         sees (k x) c1 (λ b v' es, Q b v' (EeFlow a (FlDceSend text) :: es))) →
  sees (on_econn m ≫= k) c Q.
Proof.
  intros Hc Ht Hm Hf He Hk.
  assert (send_err c (e_tick c) msg = 0) as Htx by (unfold send_err; by rewrite Ht).
  apply sees_bind. unfold sees at 1, wp, on_econn.
  rewrite (on_econn_with_eval _ _ _ _ _ _ _ Hc (Hm _ Htx)).
  change (sees (dispatch (λ _, undef) (e_tick c) [EvSend msg];; mret x) (after_conn c conn')
    (λ a v es, ∀ c1, view c1 = v → sees (k a) c1 (λ b v2 e2, Q b v2 (es ++ e2)))).
  cbn [dispatch]. flat. apply (send_direct_sees _ _ a text); [done|done|exact He|].
  intros c1 Hv1. apply sees_step, sees_ret. intros c2 Hv2. apply Hk. by rewrite Hv2, Hv1.
Qed.

(** ** Synchronising properties *)

Definition propsync_msg (conn : econn) (rsp : bool) (p : econn_props_ref) : econn_message :=
  let msg := econn_message_init ECONN_PROPSYNC (ec_sessid_local conn) in
  {| msg with src_userid := str_ncpy (ec_userid_self conn) ECONN_ID_LEN;
              src_clientid := str_ncpy (ec_clientid conn) ECONN_ID_LEN;
              resp := rsp; msg_u := u_propsync (Some p) |}.

Lemma propsync_evaluates tx conn rsp p :
  ec_state conn = ECONN_DATACHAN_ESTABLISHED → ec_transp conn = Some {| sendh := true |} →
  econn_send_propsync tx rsp p conn
  = (tx (propsync_msg conn rsp p), conn, [EvSend (propsync_msg conn rsp p)]).
Proof.
  intros Hst Ht. unfold econn_send_propsync. run_M. rewrite Hst, bool_decide_true by done. cbn.
  rewrite transp_send_eval. unfold sent_err, sent. by rewrite Ht.
Qed.

(** The properties of a call that talks are sent. *)
Lemma sync_sees {B} cond rsp v conn a p text (k : Z → EM B) c Q :
  view c = v → talking v conn a p → cond c = true →
  econn_message_encode (v_heap v) (addressed v (propsync_msg conn rsp p)) = Some (inr text) →
  (∀ c1, view c1 = v → sees (k 0) c1 (λ b v' es, Q b v' (EeFlow a (FlDceSend text) :: es))) →
  sees (sync_if cond rsp ≫= k) c Q.
Proof.
  intros Hv [] Hcond He Hk. unfold sync_if. flat. apply sees_read.
  assert (e_devpair c = false) as -> by in_view. rewrite Hcond.
  assert (can_send_propsync (e_econn c) = true) as ->.
  { rewrite e_econn_view, Hv, tk_econn0. by apply bool_decide_true. }
  cbn [negb andb]. unfold send_propsync. flat. apply sees_read.
  assert (e_props_local c = Some p) as -> by in_view.
  assert (e_econn c = Some conn) as Hc by in_view.
  apply (direct_econn_sees _ conn 0 conn (propsync_msg conn rsp p) a text); [done|done| |in_view| |].
  - intros tx Htx. rewrite propsync_evaluates by done. by rewrite Htx.
  - by rewrite Hv.
  - intros c1 Hv1. apply Hk. rewrite Hv1, Hv. cbv zeta. rewrite <-tk_econn0. by destruct v.
Qed.

(** What the receiver makes of the properties of the other side. *)
Definition vstate_event (v : ecview) (st : option icall_vstate) : list ecall_event :=
  match st with
  | Some vs => if bool_decide (vs = v_recv v) then []
               else if v_cb v CB_VSTATE_CHANGED then [EeVstateChanged (v_upeer v) (v_cpeer v) vs] else []
  | None => []
  end.
Definition muted_event (v : ecview) (st : option bool) : list ecall_event :=
  match st with
  | Some m => if eqb m (v_muted v) then []
              else if v_cb v CB_MUTED_CHANGED then [EeMutedChanged (v_upeer v) (v_cpeer v) m] else []
  | None => []
  end.

Lemma last_callback cb e c (Q : () → ecview → list ecall_event → Prop) :
  Q () (view c) (if e_cb c cb then visible [e] else []) → sees (call_cb cb e) c Q.
Proof. intros HQ. unfold call_cb. apply sees_read. by destruct (e_cb c cb). Qed.

Lemma vstate_sees v vs u cl c :
  view c = v → v_upeer v = u → v_cpeer v = cl →
  sees (match vs with
        | Some vstate =>
          uwhen (negb (bool_decide (vstate = v_recv v)))
            (umodify (λ c, {| c with e_recv_state := vstate |});;
             (uwhen (bool_decide (vstate = ICALL_VIDEO_STATE_STARTED))
                (umodify (λ c, {| c with e_video_remote := 1 |})));;
             call_cb CB_VSTATE_CHANGED (EeVstateChanged u cl vstate))
        | None => mret ()
        end) c (λ _ v' es,
    v' = {| v with v_recv := default (v_recv v) vs |} ∧ es = vstate_event v vs).
Proof.
  intros Hv <- <-. destruct vs as [vs|]; cbn [default vstate_event].
  - case_bool_decide as E; cbn [negb uwhen].
    + subst vs. apply sees_ret. rewrite Hv. by destruct v.
    + assign. hush. apply last_callback. split; [in_view|].
      match goal with H : view ?c = _ |- _ => assert (e_cb c CB_VSTATE_CHANGED = v_cb v CB_VSTATE_CHANGED) as ->
        by in_view end. done.
  - apply sees_ret. rewrite Hv. by destruct v.
Qed.

Lemma muted_sees v mt u cl c :
  view c = v → v_upeer v = u → v_cpeer v = cl →
  sees (match mt with
        | Some muted =>
          uwhen (negb (eqb muted (v_muted v)))
            (umodify (λ c, {| c with e_remote_muted := muted |});;
             call_cb CB_MUTED_CHANGED (EeMutedChanged u cl muted))
        | None => mret ()
        end) c (λ _ v' es,
    v' = {| v with v_muted := default (v_muted v) mt |} ∧ es = muted_event v mt).
Proof.
  intros Hv <- <-. destruct mt as [m|]; cbn [default muted_event].
  - destruct (eqb m (v_muted v)) eqn:E; cbn [negb uwhen].
    + apply eqb_prop in E as ->. apply sees_ret. rewrite Hv. by destruct v.
    + assign. apply last_callback. split; [in_view|].
      match goal with H : view ?c = _ |- _ => assert (e_cb c CB_MUTED_CHANGED = v_cb v CB_MUTED_CHANGED) as ->
        by in_view end. done.
  - apply sees_ret. rewrite Hv. by destruct v.
Qed.

Lemma propsync_handler_sees v pr vs mt c :
  view c = v → v_remote v = Some pr → propsync_get_states (v_heap v) pr = Some (vs, mt) →
  sees propsync_handler c (λ _ v' es,
    v' = {| v with v_recv := default (v_recv v) vs; v_muted := default (v_muted v) mt |}
    ∧ es = vstate_event v vs ++ muted_event v mt).
Proof.
  intros Hv Hr Hst. unfold propsync_handler. apply sees_read.
  assert (e_props_remote c = Some pr) as -> by in_view. apply (sees_ptr _ (vs, mt)); [in_view|].
  cbn [fst snd]. assert (e_recv_state c = v_recv v) as -> by in_view.
  assert (e_remote_muted c = v_muted v) as -> by in_view.
  apply sees_bind. eapply sees_mono; [apply (vstate_sees v); [done|in_view..]|].
  cbv beta. intros _ v1 es [-> ->] c1 Hv1.
  eapply sees_mono; [apply (muted_sees {| v with v_recv := default (v_recv v) vs |}); [done|in_view..]|].
  cbv beta. by intros _ v2 es [-> ->].
Qed.

(** The states a text of properties announces. *)
Definition synced (v : ecview) (h : props_heap) (pr : econn_props_ref) (vs : option icall_vstate)
    (mt : option bool) : ecview :=
  {| v with v_heap := h; v_remote := Some pr; v_recv := default (v_recv v) vs;
            v_muted := default (v_muted v) mt |}.

(** A PROPSYNC arrives over the data channel; only a request is replied to. *)
Lemma propsync_received v conn a p text msg h pr vs mt reply c :
  view c = v → talking v conn a p →
  econn_message_decode (v_heap v) 0 0 (Some text) = inr (Decoded msg h) → v_heap v ⊆ h →
  msg_type msg = ECONN_PROPSYNC → msg_u msg = u_propsync (Some pr) →
  propsync_get_states h pr = Some (vs, mt) →
  econn_message_encode h (addressed v (propsync_msg conn true p)) = Some (inr reply) →
  sees (data_channel_handler a text) c (λ _ v' es,
    v' = synced v h pr vs mt
    ∧ es = (if resp msg then [] else [EeFlow a (FlDceSend reply)])
           ++ vstate_event v vs ++ muted_event v mt).
Proof.
  intros Hv Ht Hd Hh Hty Hu Hst He. destruct Ht. unfold data_channel_handler. apply sees_read.
  rewrite bool_decide_false by in_view. rewrite bool_decide_true by in_view. cbn [negb andb].
  assert (e_heap c = v_heap v) as -> by in_view. rewrite Hd. assign.
  hush. rewrite bool_decide_true by done. unfold udone, handle_propsync.
  match goal with H : view _ = ?V |- _ => set (v1 := V) in H end.
  assert (talking v1 conn a p) as Ht1 by (split; try done; by eapply props_grow).
  flat. apply sees_bind. eapply (sees_mono _ _ (λ r v' es, r = 0 ∧ v' = v1
    ∧ es = if resp msg then [] else [EeFlow a (FlDceSend reply)])).
  { destruct (resp msg) eqn:Er; unfold econn_message_isrequest; rewrite Er; cbn [negb andb].
    - unfold sync_if. apply sees_read. rewrite andb_false_r. cbn [andb]. by apply sees_ret.
    - apply sees_unbind, (sync_sees _ _ v1 conn a p reply); try done.
      cbn. by rewrite bool_decide_false by in_view. }
  cbv beta. intros r v' es (-> & -> & ->) c2 Hv2. apply sees_assoc, sees_read.
  assert (e_propsynch c2 = false) as -> by in_view. rewrite Hu. flat. apply sees_step. assign.
  flat. apply sees_bind. eapply sees_mono; [eapply propsync_handler_sees; [eassumption|done|exact Hst]|].
  cbv beta. intros _ v' es [-> ->] c9 Hv9. apply sees_step, sees_ret. split; [by rewrite Hv9|].
  cbn. by rewrite app_nil_r.
Qed.

Lemma propsync_arrives v conn rsp p h h2 now time :
  props_ok h p →
  let m := addressed v (propsync_msg conn rsp p) in
  ∃ text pr h2',
    econn_message_encode h m = Some (inr text)
    ∧ econn_message_decode h2 now time (Some text)
      = inr (Decoded (delivered m now time (Some pr)) h2')
    ∧ h2 ⊆ h2' ∧ h2' !! pr = h !! p.
Proof.
  intros Hp m.
  assert (message_ok h m) as Hm.
  { split; [|by apply props_fits].
    assert (0 < ECONN_ID_LEN)%nat as H0 by (unfold ECONN_ID_LEN; lia).
    split; unfold id_fits, m, addressed, propsync_msg, econn_message_init; cbn; repeat case_match;
      cbn; (done || by apply str_ncpy_bound). }
  destruct (message_arrives h h2 m now time Hm) as (text & pr & h2' & E & D & Hs & Hpr).
  destruct Hp as (d & Hd & _).
  change (pr ≫= (h2' !!.) = h !! p) in Hpr. rewrite Hd in Hpr.
  destruct pr as [pr|]; [|done]. exists text, pr, h2'. by rewrite Hd.
Qed.

(** The microphone is turned on or off. *)
Lemma update_mute_sees v conn a p muted c :
  view c = v → talking v conn a p → (∀ n, msystem_get_muted n = muted) →
  sees ecall_update_mute_state c (λ r v' es, ∃ h text,
    prop_set p "muted" (if muted then "true" else "false") (v_heap v) h
    ∧ v' = {| v with v_heap := h |}
    ∧ econn_message_encode h (addressed v (propsync_msg conn false p)) = Some (inr text)
    ∧ es = [EeFlow a (FlDceSend text)]).
Proof.
  intros Hv Ht Hm. pose proof Ht as []. unfold ecall_update_mute_state. hush. rewrite Hm.
  apply (local_update_sees _ _ p); [in_view..|]. intros h c1 Hs Hv1. settle. no_err.
  match type of Hv1 with _ = ?V => set (v1 := V) in Hv1 end.
  destruct (propsync_arrives v1 conn false p h ∅ 0 0) as (text & _ & _ & He & _); [apply Hs|].
  apply sees_unbind, (sync_sees _ _ v1 conn a p text); try done.
  - split; try done. apply Hs.
  - unfold not_updating. assert (e_update c1 = false) as -> by in_view. done.
  - intros c2 Hv2. apply sees_ret. exists h, text. split; [done|]. by rewrite Hv2.
Qed.

(** The states that the properties of [p] stand for, wherever they are read. *)
Lemma states_same h h' p p' :
  h' !! p' = h !! p → propsync_get_states h' p' = propsync_get_states h p.
Proof. intros E. unfold propsync_get_states. by rewrite !(props_get_same h h' p p' _ E). Qed.

Lemma states_defined h p : props_ok h p → is_Some (propsync_get_states h p).
Proof.
  intros Hp. assert (props_opt_ok h (Some p)) as Hok by by intros r [= <-].
  unfold propsync_get_states.
  destruct (props_get_defined h (Some p) (Some "videosend") Hok) as [v1 ->].
  destruct (props_get_defined h (Some p) (Some "screensend") Hok) as [v2 ->].
  destruct (props_get_defined h (Some p) (Some "muted") Hok) as [v3 ->]. by eexists.
Qed.

Lemma states_muted h p vs mt s :
  econn_props_get h (Some p) (Some "muted") = Some (Some s) →
  propsync_get_states h p = Some (vs, mt) → mt = Some (String.eqb s "true").
Proof.
  intros Hs. unfold propsync_get_states. rewrite Hs.
  destruct (econn_props_get _ _ (Some "videosend")); [|done].
  destruct (econn_props_get _ _ (Some "screensend")); [|done]. by intros [= _ <-].
Qed.
End Talk.

(** ** The data channel opens *)

(** A call that was answered and waits for its data channel. *)
Record answered_view (v : ecview) (conn : econn) (a : nat) (p : econn_props_ref) : Prop := {
  aw_econn : v_econn v = Some conn;
  aw_state : ec_state conn = ECONN_ANSWERED;
  aw_transp : ec_transp conn = Some {| sendh := true |};
  aw_flow : v_flow v = Some a;
  aw_oldflow : v_oldflow v = None;
  aw_local : v_local v = Some p;
  aw_props : props_ok (v_heap v) p;
  aw_update : v_update v = false;
  aw_devpair : v_devpair v = false;
  aw_propsynch : v_propsynch v = false;
  aw_conv : v_conv v ≠ ICALL_CONV_TYPE_CONFERENCE;
  aw_restart : v_restart v = false;
  aw_glare : v_glare v = false;
  aw_dce : v_dce v = [];
}.

Definition talking_conn (conn : econn) : econn :=
  {| conn with ec_state := ECONN_DATACHAN_ESTABLISHED |}.

Section Channel.
Context `{LR : LibReSpec, LJ : LibReJson, LJS : !LibReJsonSpec, EN : EcEnv}.
Implicit Types c : ecall.

Lemma cbr_prop_sees {B} (b : bool) p (k : Z → EM B) c Q :
  e_props_local c = Some p → props_ok (e_heap c) p →
  (∀ h c1, props_ok h p → view c1 = (let v := view c in {| v with v_heap := h |}) →
           sees (k 0) c1 Q) →
  sees ((if b then props_local_update "audiocbr" "true" else mret 0) ≫= k) c Q.
Proof.
  intros Hp Hok Hk. destruct b.
  - apply (local_update_sees _ _ p); [done..|]. intros h c1 (H1 & _) Hv. by apply (Hk h).
  - by apply sees_step, (Hk (e_heap c)).
Qed.

(** The other side is told the properties, and the application that the call is
    connected. *)
Lemma channel_opens v conn a p c :
  view c = v → answered_view v conn a p →
  sees (channel_estab_handler a) c (λ _ v' es, ∃ h text,
    props_ok h p ∧ v' = {| v with v_econn := Some (talking_conn conn); v_heap := h |}
    ∧ es = EeFlow a (FlDceSend text)
           :: if v_cb v CB_DATACHAN_ESTAB then [EeDatachanEstab (v_upeer v) (v_cpeer v) false] else []).
Proof.
  intros Hv []. unfold channel_estab_handler, on_flow. apply sees_read.
  rewrite bool_decide_true by in_view. cbn [negb]. hush.
  unfold close_oldflow. flat. apply sees_read.
  match goal with |- context [e_oldflow ?c] => assert (e_oldflow c = None) as -> by in_view end.
  assign. cbn [flow_do]. apply sees_step, sees_read. rewrite bool_decide_false by in_view.
  eapply (silent_econn_sees _ conn () (talking_conn conn)); [in_view| |].
  { intros tx. unfold econn_set_datachan_established. run_M.
    rewrite aw_state0, bool_decide_true by done. apply set_state_eval. }
  intros c2 Hv2. settle.
  match goal with |- context [e_delayed_restart ?c] =>
    assert (e_delayed_restart c = false) as -> by in_view end.
  unfold channel_sync. flat. apply (ask_sees _ _ a); [in_view|]. intros n c3 Hv3. settle.
  flat. apply (cbr_prop_sees _ p); [in_view..|]. intros h c4 Hp4 Hv4. settle. no_err.
  match type of Hv4 with _ = ?V => set (v4 := V) in Hv4 end.
  destruct (propsync_arrives v4 (talking_conn conn) false p h ∅ 0 0 Hp4) as (text & _ & _ & He & _).
  apply (sync_sees _ _ v4 (talking_conn conn) a p text); try done. intros c5 Hv5. no_err.
  unfold channel_ready. apply sees_read. assert (e_dce_pendingl c5 = []) as -> by in_view.
  cbn [length send_pending]. flat. apply sees_read.
  assert (e_dce_pendingl c5 = []) as -> by in_view. apply sees_step.
  assert (e_update_glare c5 = false) as -> by in_view.
  assert (e_userid_peer c5 = v_upeer v) as -> by in_view.
  assert (e_clientid_peer c5 = v_cpeer v) as -> by in_view. cbn [uwhen].
  assign. hush. match goal with H : view ?c = _ |- _ => rename c into c8; rename H into Hv8 end.
  apply sees_bind, last_callback. assert (e_cb c8 CB_DATACHAN_ESTAB = v_cb v CB_DATACHAN_ESTAB) as -> by in_view.
  intros c9 Hv9. apply sees_bind, last_callback. intros c10 Hv10. apply sees_ret.
  exists h, text. split; [done|]. rewrite Hv10, Hv9, Hv8.
  split; [cbn; by rewrite aw_oldflow0, aw_update0|].
  rewrite app_nil_r. by destruct (v_cb v CB_DATACHAN_ESTAB), (e_cb c9 CB_QUALITY).
Qed.
End Channel.

Section Sync.
Context `{LR : LibReSpec, LJ : LibReJson, LJS : !LibReJsonSpec}.
Implicit Types c : ecall.

(** One operation. *)
Lemma plays_one (EN : EcEnv) o c (Q : () → ecview → list ecall_event → Prop) :
  sees (ecall_exec o) c Q → ∃ c' es, plays EN [o] c c' es ∧ Q () (view c') es.
Proof.
  intros Hs. apply (sees_plays EN [o]). cbn [ecall_execs]. revert Hs.
  unfold sees, wp, mbind, MU_bind, mret, MU_ret.
  destruct (ecall_exec o c) as [[[[] c1] e1]|]; [|done]. by rewrite app_nil_r.
Qed.
Lemma sees_done {A} (m : EM A) c (P : ecview → list ecall_event → Prop) :
  sees m c (λ _, P) → sees (udone m) c (λ _, P).
Proof.
  unfold sees, wp, udone, mbind, MU_bind, mret, MU_ret.
  destruct (m c) as [[[a c1] e1]|]; [|done]. by rewrite app_nil_r.
Qed.

(** When two calls are connected by an open data channel and the microphone of
    one side is turned on or off, one message over the channel tells the other
    side, whose application is told when that is news, and one reply tells the
    first side the state of the second; then nothing more is sent, and each side
    knows the states of microphone and camera that the other announces. *)
Theorem mute_state_synced (ENa ENb : EcEnv) a b ca cb fa fb pa pb muted :
  talking (view a) ca fa pa → talking (view b) cb fb pb →
  (∀ n, @msystem_get_muted ENa n = muted) →
  ∃ a1 b1 a2 text reply vsa vsb mb,
    plays ENa [DoUpdateMuteState] a a1 [EeFlow fa (FlDceSend text)]
    ∧ propsync_get_states (e_heap a1) pa = Some (vsa, Some muted)
    ∧ propsync_get_states (e_heap b) pb = Some (vsb, mb)
    ∧ plays ENb [DoChannelData fb text] b b1
        (EeFlow fb (FlDceSend reply)
         :: vstate_event (view b) vsa ++ muted_event (view b) (Some muted))
    ∧ e_remote_muted b1 = muted ∧ e_recv_state b1 = default (e_recv_state b) vsa
    ∧ plays ENa [DoChannelData fa reply] a1 a2
        (vstate_event (view a) vsb ++ muted_event (view a) mb)
    ∧ e_remote_muted a2 = default (e_remote_muted a) mb
    ∧ e_recv_state a2 = default (e_recv_state a) vsb.
Proof.
  intros Ha Hb Hm.
  destruct (plays_one ENa DoUpdateMuteState a _
    (sees_done _ _ _ (update_mute_sees (view a) ca fa pa muted a eq_refl Ha Hm)))
    as (a1 & es1 & Hplay1 & h1 & text & (Hp1 & Hmt1 & _) & Hv1 & He1 & ->).
  destruct (propsync_arrives (view a) ca false pa h1 (e_heap b) 0 0 Hp1)
    as (text' & pr & hb & He1' & Hd1 & Hg1 & Hpr1). rewrite He1 in He1'. injection He1' as <-.
  destruct (states_defined h1 pa Hp1) as [[vsa mt] Hsta].
  assert (mt = Some muted) as ->.
  { rewrite (states_muted _ _ _ _ _ Hmt1 Hsta). by destruct muted. }
  destruct (states_defined (e_heap b) pb (tk_props _ _ _ _ Hb)) as [[vsb mb] Hstb].
  assert (props_ok hb pb) as Hpb by (eapply props_grow; [exact Hg1|apply Hb]).
  destruct (propsync_arrives (view b) cb true pb hb h1 0 0 Hpb)
    as (reply & pr' & ha & He2 & Hd2 & Hg2 & Hpr2).
  destruct (plays_one ENb (DoChannelData fb text) b _
    (propsync_received (view b) cb fb pb text _ hb pr vsa (Some muted) reply b eq_refl Hb Hd1 Hg1
       eq_refl eq_refl (eq_trans (states_same _ _ _ _ Hpr1) Hsta) He2))
    as (b1 & es2 & Hplay2 & Hv2 & ->).
  assert (talking (view a1) ca fa pa) as Ha1 by (rewrite Hv1; by destruct Ha).
  assert (hb !! pb = e_heap b !! pb) as Eb.
  { destruct (tk_props _ _ _ _ Hb) as (d & Hd & _). change (e_heap b !! pb = Some d) in Hd.
    rewrite Hd. by eapply lookup_weaken. }
  assert (v_heap (view a1) = h1) as Eh by by rewrite Hv1.
  destruct (propsync_arrives (view a1) ca true pa ha ∅ 0 0) as (text2 & _ & _ & He3 & _).
  { eapply props_grow; [exact Hg2|done]. }
  destruct (plays_one ENa (DoChannelData fa reply) a1 _
    (propsync_received (EN := ENa) (view a1) ca fa pa reply _ ha pr' vsb mb text2 a1 eq_refl Ha1
       ltac:(rewrite Eh; exact Hd2) ltac:(rewrite Eh; exact Hg2) eq_refl eq_refl
       (eq_trans (states_same _ _ _ _ (eq_trans Hpr2 Eb)) Hstb) He3))
    as (a2 & es3 & Hplay3 & Hv3 & ->).
  exists a1, b1, a2, text, reply, vsa, vsb, mb.
  rewrite Hv1 in Hv3, Hplay3. autorewrite with view. rewrite Hv3, Hv2, Hv1. by split_and!.
Qed.
End Sync.

(** ** Hanging up *)

Section Close.
Context `{LR : LibReSpec, LJ : LibReJson, LJS : !LibReJsonSpec, EN : EcEnv}.
Implicit Types c : ecall.

(** A flow is closed. *)
Definition flow_closed (flow : option nat) : list ecall_event :=
  match flow with Some a => [EeFlow a FlClose] | None => [] end.
Lemma flow_close_sees {B} flow (k : () → EM B) c Q :
  sees (k ()) c (λ b v e, Q b v (flow_closed flow ++ e)) → sees (flow_do flow FlClose ≫= k) c Q.
Proof. destruct flow as [n|]; intros Hk; [exact (sees_emit [EeFlow n FlClose] k c Q Hk)|exact (sees_step () k c Q Hk)]. Qed.

(** What happens when a call closes: its flows are closed, and the application hears
    that the video has stopped and why the call is over ([farewell]). *)
Definition farewell (v : ecview) (err time : Z) : list ecall_event :=
  (if bool_decide (v_recv v = ICALL_VIDEO_STATE_STOPPED) then []
   else if v_cb v CB_VSTATE_CHANGED
        then [EeVstateChanged (v_upeer v) (v_cpeer v) ICALL_VIDEO_STATE_STOPPED] else [])
  ++ (if v_cb v CB_CLOSE then [EeClose err None time (v_upeer v) (v_cpeer v)] else []).
Definition closing (v : ecview) (err time : Z) : list ecall_event :=
  flow_closed (v_flow v) ++ flow_closed (v_oldflow v) ++ farewell v err time.
Lemma closing_flow v a err time :
  v_flow v = Some a → v_oldflow v = None → closing v err time = EeFlow a FlClose :: farewell v err time.
Proof. unfold closing. by intros -> ->. Qed.

Lemma close_sees v err time c :
  view c = v →
  sees (ecall_close err time) c (λ _ v' es,
    v_econn v' = v_econn v ∧ v_flow v' = None ∧ v_oldflow v' = None ∧ es = closing v err time).
Proof.
  intros Hv. unfold ecall_close, cb_clear. assign. do 5 hush.
  unfold close_flow. flat. apply sees_read.
  match goal with |- context [e_flow ?c] => assert (e_flow c = v_flow v) as -> by in_view end.
  assign. flat. apply flow_close_sees. unfold close_oldflow. flat. apply sees_read.
  match goal with |- context [e_oldflow ?c] => assert (e_oldflow c = v_oldflow v) as -> by in_view end.
  assign. flat. apply flow_close_sees. apply sees_read.
  match goal with H : view ?c = ?V |- _ => rename c into c9; rename H into Hv9 end.
  assert (e_recv_state c9 = v_recv v) as -> by in_view.
  assert (∀ k, k ≠ CB_QUALITY → e_cb c9 k = v_cb v k) as Hcb.
  { intros k Hk. rewrite e_cb_view, Hv9. cbn. by rewrite bool_decide_false. }
  apply sees_bind. eapply (sees_mono _ _ (λ _ v1 es,
    (v_econn v1, v_flow v1, v_oldflow v1, v_upeer v1, v_cpeer v1)
    = (v_econn v, None, None, v_upeer v, v_cpeer v)
    ∧ es = (if bool_decide (v_recv v = ICALL_VIDEO_STATE_STOPPED) then []
            else if v_cb v CB_VSTATE_CHANGED
                 then [EeVstateChanged (v_upeer v) (v_cpeer v) ICALL_VIDEO_STATE_STOPPED] else []))).
  { case_bool_decide; cbn [negb uwhen]; [by apply sees_ret; rewrite Hv9|].
    assert (e_userid_peer c9 = v_upeer v) as -> by in_view.
    assert (e_clientid_peer c9 = v_cpeer v) as -> by in_view.
    apply sees_bind, last_callback. rewrite Hcb by done. intros c10 Hv10.
    rewrite Hv9 in Hv10. eapply sees_last; [reflexivity|]. split; [in_view|].
    by destruct (v_cb v CB_VSTATE_CHANGED). }
  cbv beta. intros _ v1 es [E ->] c10 Hv10. injection E as E1 E2 E3 E4 E5.
  unfold closing, farewell. rewrite Hcb by done. destruct (v_cb v CB_CLOSE); cbn [uwhen].
  2:{ apply sees_ret. by rewrite Hv10, E1, E2, E3. }
  hush. unfold cb_clear. assign. apply sees_read.
  cbv zeta. match goal with |- sees _ ?c _ => assert (e_userid_peer c = v_upeer v) as -> by in_view;
    assert (e_clientid_peer c = v_cpeer v) as -> by in_view end.
  apply sees_unbind, sees_emit, sees_ret. split; [in_view|]. split; [in_view|]. split; [in_view|].
  by rewrite app_nil_r.
Qed.

Lemma econn_close_sees v err time c :
  view c = v →
  sees (econn_close_handler err time) c (λ _ v' es,
    v_econn v' = v_econn v ∧ v_flow v' = None ∧ v_oldflow v' = None ∧ es = closing v err time).
Proof.
  intros Hv. unfold econn_close_handler, ecall_media_stop. hush. by apply close_sees.
Qed.

(** The connection says good-bye, and hears it. *)
Lemma end_talking tx conn :
  ec_state conn = ECONN_DATACHAN_ESTABLISHED → ec_transp conn = Some {| sendh := true |} →
  tx (hangup_msg conn false) = 0 →
  econn_end tx conn
  = ((), {| conn with ec_state := ECONN_HANGUP_SENT;
                      ec_tmr_local := Some (timeout_term (ec_conf conn), TMR_TERM) |},
     [EvSend (hangup_msg conn false)]).
Proof.
  intros Hst Ht Htx. eval_call. rewrite Hst. cbn. rewrite send_hangup_eval.
  unfold sent_err, sent. rewrite Ht. cbn. rewrite Htx, Z.eqb_refl. cbn. rewrite set_state_eval. cbn.
  by rewrite Ht.
Qed.

Definition hung_up (conn : econn) : econn :=
  {| conn with ec_state := ECONN_TERMINATING; ec_tmr_local := None; ec_setup_err := ec_err conn;
               ec_closeh := false |}.

Lemma hangup_received tx conn u cl m :
  msg_type m = ECONN_HANGUP → ec_sessid_remote conn = sessid_sender m →
  ec_state conn ∈ [ECONN_DATACHAN_ESTABLISHED; ECONN_HANGUP_SENT] →
  ec_transp conn = Some {| sendh := true |} → ec_closeh conn = true →
  econn_recv_message tx u cl m conn
  = ((), hung_up conn,
     (if resp m then [] else [EvSend (hangup_msg conn true)]) ++ [EvClose (ec_err conn) (msg_time m)]).
Proof.
  intros Ht Hs Hst Htr Hc. unfold econn_recv_message, recv_hangup. rewrite Ht. run_M. cbn.
  rewrite Hs, str_casecmp_refl, Z.eqb_refl. cbn. unfold econn_message_isrequest, hung_up.
  destruct (ec_state conn) eqn:E; try (by apply (bool_decide_pack _) in Hst; vm_compute in Hst).
  all: rewrite set_state_eval; cbn; destruct (resp m); cbn.
  all: rewrite ?send_hangup_eval; cbn; rewrite ?set_state_eval; cbn; rewrite close_eval; cbn.
  all: rewrite (bool_decide_eq_false_2 (ECONN_TERMINATING = ECONN_PENDING_OUTGOING)) by done; cbn.
  all: rewrite Hc, ?app_nil_r; try done.
  all: f_equal; unfold sent; cbn; by rewrite Htr.
Qed.

Lemma end_sees v conn a p text c :
  view c = v → talking v conn a p →
  econn_message_encode (v_heap v) (addressed v (hangup_msg conn false)) = Some (inr text) →
  sees ecall_end c (λ _ v' es,
    v' = {| v with v_econn := Some {| conn with ec_state := ECONN_HANGUP_SENT;
              ec_tmr_local := Some (timeout_term (ec_conf conn), TMR_TERM) |} |}
    ∧ es = [EeFlow a (FlDceSend text)]).
Proof.
  intros Hv [] He. unfold ecall_end. apply sees_read. rewrite bool_decide_false by in_view.
  eapply (direct_econn_sees _ conn _ _ (hangup_msg conn false) a text); [in_view|done| |in_view| |].
  - intros tx Htx. by apply end_talking.
  - by rewrite Hv.
  - intros c1 Hv1. settle. apply sees_quiet; [by apply flow_call_do_quiet|]. split; [in_view|done].
Qed.

Lemma run_econn_dispatch {B} m conn conn' evs (k : () → EM B) c Q :
  e_econn c = Some conn → (∀ tx, m tx conn = ((), conn', evs)) →
  (∀ n c1, view c1 = (let v := view c in {| v with v_econn := Some conn' |}) →
           sees (dispatch econn_handler n evs ≫= k) c1 Q) →
  sees (run_econn m ≫= k) c Q.
Proof.
  intros Hc Hm Hk. unfold sees, wp, run_econn. unfold mbind at 1, MU_bind at 1.
  rewrite (on_econn_with_eval _ _ _ _ _ _ _ Hc (Hm _)).
  specialize (Hk (e_tick c) (after_conn c conn') eq_refl). revert Hk.
  unfold sees, wp, mbind, MU_bind, mret, MU_ret.
  destruct (dispatch econn_handler _ evs _) as [[[[] c2] e2]|]; [|done].
  destruct (k () c2) as [[[b c3] e3]|]; [|done]. by rewrite !app_nil_r.
Qed.

(** A HANGUP arrives over the data channel; only a request is replied to. *)
Lemma hangup_handled v conn a text msg h reply c :
  view c = v → v_econn v = Some conn → v_flow v = Some a → v_oldflow v = None →
  ec_state conn ∈ [ECONN_DATACHAN_ESTABLISHED; ECONN_HANGUP_SENT] →
  ec_transp conn = Some {| sendh := true |} → ec_closeh conn = true →
  econn_message_decode (v_heap v) 0 0 (Some text) = inr (Decoded msg h) →
  msg_type msg = ECONN_HANGUP → ec_sessid_remote conn = sessid_sender msg →
  econn_message_encode h (addressed v (hangup_msg conn true)) = Some (inr reply) →
  sees (data_channel_handler a text) c (λ _ v' es,
    v_econn v' = Some (hung_up conn) ∧ v_flow v' = None ∧ v_oldflow v' = None
    ∧ es = (if resp msg then [] else [EeFlow a (FlDceSend reply)])
           ++ closing v (ec_err conn) (msg_time msg)).
Proof.
  intros Hv Hc Hf Ho Hst Htr Hcl Hd Hty Hs He. unfold data_channel_handler. apply sees_read.
  rewrite bool_decide_false by in_view. rewrite bool_decide_true by in_view. cbn [negb andb].
  assert (e_heap c = v_heap v) as -> by in_view.
  assert (e_econn c = Some conn) as -> by in_view. rewrite Hd. assign. hush.
  rewrite bool_decide_false by congruence. unfold recv_message. apply sees_read.
  rewrite bool_decide_false by in_view.
  apply sees_unbind. eapply run_econn_dispatch; [in_view|by intros tx; apply hangup_received|].
  intros n c2 Hv2. settle.
  match type of Hv2 with _ = ?V => set (v2 := V) in Hv2 end.
  assert (∀ c3 es0, view c3 = v2 →
    sees (econn_handler (EvClose (ec_err conn) (msg_time msg));; mret () ≫= mret) c3 (λ _ v' es,
      v_econn v' = Some (hung_up conn) ∧ v_flow v' = None ∧ v_oldflow v' = None
      ∧ es0 ++ es = es0 ++ closing v (ec_err conn) (msg_time msg))) as Hclose.
  { intros c3 es0 Hv3. apply sees_bind. cbn [econn_handler].
    eapply sees_mono; [by apply (econn_close_sees v2)|]. cbv beta.
    intros _ v3 es (E1 & E2 & E3 & ->) c4 Hv4. apply sees_step, sees_ret.
    by rewrite Hv4, E1, E2, E3, app_nil_r. }
  destruct (resp msg); cbn [app dispatch].
  - flat. by apply (Hclose _ []).
  - flat. apply (send_direct_sees _ _ a reply); [done|in_view|by rewrite Hv2|].
    intros c3 Hv3. flat. apply (Hclose c3 [EeFlow a (FlDceSend reply)]). by rewrite Hv3.
Qed.

Lemma hangup_arrives v conn rsp h h2 :
  let m := addressed v (hangup_msg conn rsp) in
  ∃ text p h2',
    econn_message_encode h m = Some (inr text)
    ∧ econn_message_decode h2 0 0 (Some text) = inr (Decoded (delivered m 0 0 p) h2').
Proof.
  intros m. assert (message_ok h m) as Hm.
  { split; [|done]. assert (0 < ECONN_ID_LEN)%nat as H0 by (unfold ECONN_ID_LEN; lia).
    split; unfold id_fits, m, addressed, hangup_msg, econn_message_init; cbn; repeat case_match;
      cbn; (done || by apply str_ncpy_bound). }
  destruct (message_arrives h h2 m 0 0 Hm) as (text & p & h2' & E & D & _). eauto.
Qed.
End Close.

Section Hangup.
Context `{LR : LibReSpec, LJ : LibReJson, LJS : !LibReJsonSpec}.
Implicit Types c : ecall.

(** C25: Hanging up ends a call on both sides.  One message over the data channel
    tells the other side, which replies, closes its flow and tells its application;
    the reply makes the first side close its flow and tell its application in the same
    way.  Both connections have terminated, without a timer, each flow has been closed
    once and neither call has one left, and each application was told why and with
    whom, and that the video of the other side has stopped. *)
Theorem call_hung_up (ENa ENb : EcEnv) a b ca cb fa fb pa pb :
  talking (view a) ca fa pa → talking (view b) cb fb pb →
  ec_closeh ca = true → ec_closeh cb = true →
  ec_sessid_remote ca = ec_sessid_local cb → ec_sessid_remote cb = ec_sessid_local ca →
  sess_fits ca → sess_fits cb →
  ∃ a1 b1 a2 text reply,
    plays ENa [DoEnd] a a1 [EeFlow fa (FlDceSend text)]
    ∧ plays ENb [DoChannelData fb text] b b1
        (EeFlow fb (FlDceSend reply) :: EeFlow fb FlClose :: farewell (view b) (ec_err cb) 0)
    ∧ plays ENa [DoChannelData fa reply] a1 a2
        (EeFlow fa FlClose :: farewell (view a) (ec_err ca) 0)
    ∧ e_econn a2 = Some (hung_up ca) ∧ e_econn b1 = Some (hung_up cb)
    ∧ flows a2 = [] ∧ flows b1 = [].
Proof.
  intros Ha Hb Hcla Hclb Hra Hrb Hsa Hsb.
  destruct (hangup_arrives (view a) ca false (e_heap a) (e_heap b)) as (text & p1 & hb & He1 & Hd1).
  destruct (plays_one ENa DoEnd a _ (end_sees (view a) ca fa pa text a eq_refl Ha He1))
    as (a1 & es1 & Hplay1 & Hv1 & ->).
  destruct (hangup_arrives (view b) cb true hb (e_heap a)) as (reply & p2 & ha & He2 & Hd2).
  destruct (plays_one ENb (DoChannelData fb text) b _
    (hangup_handled (EN := ENb) (view b) cb fb text _ hb reply b eq_refl (tk_econn _ _ _ _ Hb)
       (tk_flow _ _ _ _ Hb) (tk_oldflow _ _ _ _ Hb) ltac:(rewrite (tk_state _ _ _ _ Hb); in_list)
       (tk_transp _ _ _ _ Hb) Hclb Hd1 eq_refl
       ltac:(rewrite Hrb; symmetry; by apply str_ncpy_fits) He2))
    as (b1 & es2 & Hplay2 & E1 & E2 & E3 & ->).
  set (ca' := {| ca with ec_state := ECONN_HANGUP_SENT;
                         ec_tmr_local := Some (timeout_term (ec_conf ca), TMR_TERM) |}) in Hv1.
  destruct (hangup_arrives (view a1) ca' true ha ∅) as (text2 & _ & _ & He3 & _).
  assert (v_heap (view a1) = e_heap a) as Eh by by rewrite Hv1.
  destruct (plays_one ENa (DoChannelData fa reply) a1 _
    (hangup_handled (EN := ENa) (view a1) ca' fa reply _ ha text2 a1 eq_refl
       ltac:(by rewrite Hv1) ltac:(rewrite Hv1; apply Ha) ltac:(rewrite Hv1; apply Ha)
       ltac:(cbn; in_list) (tk_transp _ _ _ _ Ha) Hcla ltac:(rewrite Eh; exact Hd2) eq_refl
       ltac:(cbn; rewrite Hra; symmetry; by apply str_ncpy_fits) He3))
    as (a2 & es3 & Hplay3 & F1 & F2 & F3 & ->).
  rewrite Hv1 in Hplay3.
  rewrite (closing_flow _ fb) in Hplay2 by apply Hb. rewrite (closing_flow _ fa) in Hplay3 by apply Ha.
  exists a1, b1, a2, text, reply. unfold flows. autorewrite with view.
  by rewrite E1, E2, E3, F1, F2, F3.
Qed.
End Hangup.

(** ** From the first ring to the open channel *)

(** Both calls are in the same call, with each other. *)
Definition connected (a b : ecall) : Prop :=
  ∃ ca cb, e_econn a = Some ca ∧ e_econn b = Some cb ∧ in_call ca cb
    ∧ e_userid_peer a = Some (e_userid_self b) ∧ e_clientid_peer a = Some (e_clientid_self b)
    ∧ e_userid_peer b = Some (e_userid_self a) ∧ e_clientid_peer b = Some (e_clientid_self a)
    ∧ e_answered a = true ∧ e_answered b = true.

(** Both calls have an open data channel and the two ends of one session. *)
Definition in_conversation (a b : ecall) (fa fb : nat) : Prop :=
  ∃ ca cb pa pb, talking (view a) ca fa pa ∧ talking (view b) cb fb pb
    ∧ ec_closeh ca = true ∧ ec_closeh cb = true
    ∧ ec_sessid_remote ca = ec_sessid_local cb ∧ ec_sessid_remote cb = ec_sessid_local ca
    ∧ sess_fits ca ∧ sess_fits cb.

Section SetUp.
Context `{LR : LibReSpec, LJ : LibReJson, LJS : !LibReJsonSpec}.
Implicit Types c : ecall.

(** When the data channel opens the call can use it. *)
Lemma channel_talks (EN : EcEnv) c conn a p :
  answered_view (view c) conn a p →
  ∃ c' es, plays EN [DoChannelEstab a] c c' es ∧ talking (view c') (talking_conn conn) a p.
Proof.
  intros Hw.
  destruct (plays_one EN (DoChannelEstab a) c _ (channel_opens (view c) conn a p c eq_refl Hw))
    as (c' & es & Hplay & h & text & Hp & Hv & _).
  exists c', es. split; [done|]. rewrite Hv. destruct Hw. by split.
Qed.

(** C2: A call is set up end to end.  One client starts a call; when its flow has
    gathered its candidates the application is asked to send an offer.  The text of
    the offer reaches another client, whose application is told who calls and
    whether with video; when the call is accepted the flow gets the caller's SDP,
    and its candidates lead to an answer.  The text of the answer gives the
    caller's flow the callee's SDP, and the application learns that the call was
    answered.  Then both connections are in the same call, know each other's
    session and no timer of theirs runs, each side knows user and client of the
    other, and when the flows open their data channels the two calls can use them. *)
Theorem call_set_up (ENa ENb : EcEnv) a b conva convb sdpa sdpb ct cbr ct' cbr' now time now' time' :
  media_ok ENa sdpa → media_ok ENb sdpb →
  created a conva → created b convb →
  conva ≠ ICALL_CONV_TYPE_CONFERENCE → convb ≠ ICALL_CONV_TYPE_CONFERENCE → named a → named b →
  e_cb a CB_SEND = true → e_cb a CB_ANSWER = true → e_cb b CB_SEND = true → e_cb b CB_START = true →
  ¬ ci_eq (Some (e_userid_self a)) (Some (e_userid_self b)) →
  ∃ a1 b1 a2 offer text answer text',
    plays ENa [DoStart ct cbr; DoFlowGather (e_nflow a)] a a1
      [EeSend (e_userid_self a) offer None false]
    ∧ econn_message_encode (e_heap a1) offer = Some (inr text)
    ∧ plays ENb [DoTranspRecv now time (e_userid_self a) (e_clientid_self a) text;
                 DoAnswer ct' cbr'; DoFlowGather (e_nflow b)] b b1
        [EeStart (u32 time) (e_userid_self a) (e_clientid_self a) (announces_video a ct);
         EeFlow (e_nflow b) (FlHandleOffer sdpa);
         EeSend (e_userid_self b) answer None false]
    ∧ econn_message_encode (e_heap b1) answer = Some (inr text')
    ∧ plays ENa [DoTranspRecv now' time' (e_userid_self b) (e_clientid_self b) text'] a1 a2
        [EeFlow (e_nflow a) (FlHandleAnswer (Some sdpb)); EeAnswer]
    ∧ connected a2 b1
    ∧ ∃ a3 b2 ea eb,
        plays ENa [DoChannelEstab (e_nflow a)] a2 a3 ea
        ∧ plays ENb [DoChannelEstab (e_nflow b)] b1 b2 eb
        ∧ in_conversation a3 b2 (e_nflow a) (e_nflow b).
Proof.
  intros Hma Hmb Ha Hb Hva Hvb Hna Hnb Hsenda Hca Hsendb Hcb Hne.
  destruct (created_idle a _ Ha Hna Hsenda) as [pa Hia].
  destruct (created_idle b _ Hb Hnb Hsendb) as [pb Hib].
  destruct (created_ok _ _ Ha) as (_ & _ & _ & Eca), (created_ok _ _ Hb) as (_ & _ & _ & Ecb).
  destruct (calls_connect ENa ENb a b pa pb sdpa sdpb ct cbr ct' cbr' now time now' time'
              Hma Hmb Hia Hib Hca Hcb Hne)
    as (a1 & b1 & a2 & offer & text & answer & text' & sa & sb & pra & prb & ha & hb
        & H1 & H2 & H3 & H4 & H5 & Hsa & Hsb & Hpa & Hpb & Hv2 & Hv1).
  exists a1, b1, a2, offer, text, answer, text'.
  assert (answered_view (view a2)
    (answered_by (calling_conn (view a) sa) (e_userid_self b) (e_clientid_self b) sb) (e_nflow a) pa) as Wa.
  { rewrite Hv2. destruct Hia. split; try done.
    change (e_conv_type a ≠ ICALL_CONV_TYPE_CONFERENCE). by rewrite Eca. }
  assert (answered_view (view b1)
    (called_conn (view b) sb (e_userid_self a) (e_clientid_self a) sa) (e_nflow b) pb) as Wb.
  { rewrite Hv1. destruct Hib. split; try done.
    change (e_conv_type b ≠ ICALL_CONV_TYPE_CONFERENCE). by rewrite Ecb. }
  destruct (channel_talks ENa a2 _ _ _ Wa) as (a3 & ea & Hplaya & Ta).
  destruct (channel_talks ENb b1 _ _ _ Wb) as (b2 & eb & Hplayb & Tb).
  split; [done|]. split; [done|]. split; [done|]. split; [done|]. split; [done|]. split.
  - do 2 eexists. autorewrite with view. rewrite Hv1, Hv2. cbn. unfold in_call. cbn.
    split; [reflexivity|]. split; [reflexivity|]. cbn. by rewrite !str_ncpy_fits by done.
  - exists a3, b2, ea, eb. split; [done|]. split; [done|]. do 4 eexists.
    split; [exact Ta|]. split; [exact Tb|]. unfold sess_fits. cbn. by rewrite !str_ncpy_fits by done.
Qed.
End SetUp.
