(* ===== verification/EcallWitness.v ===== *)
(** * Concrete calls

    Alice calls Bob, on the concrete libre of [LibReRef] and [LibReJsonRef] and a
    flow that works, and the theorems about calls applied to them. *)

From stdpp Require Import gmap.
From S2P Require Import Prelude LibRe LibReJson Jzon EconnMsg EconnFmt EconnFmtSpec EconnFmtProps Econn EconnSpec EconnPair Icall AudioLevel UserList Ecall EcallOps EcallMsg EcallSpec EcallSafe EcallProps EcallView EcallLive EcallVideo EcallSetup EcallPair EcallTalk.

Import LibReRef LibReJsonRef.

#[local] Open Scope string_scope.
#[local] Open Scope Z_scope.
#[local] Open Scope list_scope.

(** A flow that works and produces [sdp], and a microphone. *)
Definition working (sdp : string) (muted : bool) : EcEnv := {|
  iflow_alloc := λ _, 0;
  flow_generate_offer := λ _, (0, sdp);
  flow_generate_answer := λ _, (0, sdp);
  flow_handle_offer := λ _, 0;
  flow_handle_answer_ret := λ _, (0, false);
  flow_has_video := λ _, false;
  flow_is_gathered := λ _, false;
  flow_get_audio_cbr := λ _, false;
  flow_set_video_state := λ _, 0;
  flow_dce_send := λ _, 0;
  flow_get_stats := λ _, (0, no_stats);
  flow_get_audio_level := λ _, (0, []);
  flow_ret := λ _, 0;
  sendh_ret := λ _, 0;
  propsynch_ret := λ _, 0;
  msystem_get_muted := λ _, muted;
  msystem_get_privacy := false;
  tmr_jiffies := λ n, Z.of_nat n;
  mem_ok := λ _, true;
  rand_str := λ _, "4x12";
|}.
Definition env_a : EcEnv := working "v=0 a" true.
Definition env_b : EcEnv := working "v=0 b" false.

Lemma working_ok sdp muted : media_ok (working sdp muted) sdp.
Proof. split; try done. intros n. unfold id_fits, ECONN_ID_LEN. cbn. lia. Qed.

(** A call of a user, with all callbacks. *)
Definition new_call (uid cid : string) : ecall :=
  match ecall_alloc (H1 := env_a) ∅ ICALL_CONV_TYPE_ONEONONE ICALL_CALL_TYPE_NORMAL None true
          "conv" uid cid with
  | Some (inr c) => icall_set_callbacks (λ _, true) c
  | _ => ecall_init ∅ ICALL_CONV_TYPE_ONEONONE ICALL_CALL_TYPE_NORMAL None "conv" uid cid
  end.
Definition alice : ecall := new_call "alice" "a1".
Definition bob : ecall := new_call "bob" "b7".

Lemma alice_created : created alice ICALL_CONV_TYPE_ONEONONE.
Proof.
  exists env_a, ∅, ICALL_CALL_TYPE_NORMAL, None, true, "conv", "alice", "a1", (λ _, true).
  eexists. split; [|split]; [vm_compute; reflexivity|done|vm_compute; reflexivity].
Qed.
Lemma bob_created : created bob ICALL_CONV_TYPE_ONEONONE.
Proof.
  exists env_a, ∅, ICALL_CALL_TYPE_NORMAL, None, true, "conv", "bob", "b7", (λ _, true).
  eexists. split; [|split]; [vm_compute; reflexivity|done|vm_compute; reflexivity].
Qed.

(** ** Running a call *)

(** The operations one after the other, if all are defined. *)
Fixpoint runs_to (EN : EcEnv) (os : list ecall_op) (c : ecall) : option (ecall * list ecall_event) :=
  match os with
  | [] => Some (c, [])
  | o :: os =>
    match ecall_exec o c with
    | Some (_, c1, e1) =>
      match runs_to EN os c1 with Some (c2, e2) => Some (c2, e1 ++ e2) | None => None end
    | None => None
    end
  end.
Definition after (EN : EcEnv) (os : list ecall_op) (c : ecall) : ecall :=
  match runs_to EN os c with Some (c', _) => c' | None => c end.
Definition heard (EN : EcEnv) (os : list ecall_op) (c : ecall) : list ecall_event :=
  match runs_to EN os c with Some (_, es) => es | None => [] end.

(** Whether an operation is one that needs no condition or a text whose properties
    are strings. *)
Definition strings (h : props_heap) (p : option econn_props_ref) : bool :=
  match p with
  | None => true
  | Some p =>
    match h !! p with
    | Some d => bool_decide (NoDup d.*1)
                && forallb (λ e, match e.2 with ODICT_STRING _ => true | _ => false end) d
    | None => false
    end
  end.
Definition text_strings (h : props_heap) (now time : Z) (str : string) : bool :=
  match econn_message_decode h now time (Some str) with
  | inr (Decoded m h') => strings h' (payload_props (msg_u m))
  | _ => true
  end.
Definition op_plain (c : ecall) (o : ecall_op) : bool :=
  match o with
  | DoTranspRecv now time _ _ str => text_strings (e_heap c) now time str
  | DoChannelData _ str => text_strings (e_heap c) 0 0 str
  | DoPropsSet _ _ | DoSetSessid _ | DoChannelEstab _ => false
  | _ => true
  end.
Fixpoint ops_plain (EN : EcEnv) (os : list ecall_op) (c : ecall) : bool :=
  match os with
  | [] => true
  | o :: os =>
    op_plain c o && match ecall_exec o c with Some (_, c1, _) => ops_plain EN os c1 | None => false end
  end.

Lemma texts_ok h p : strings h (Some p) = true → props_ok h p.
Proof.
  unfold strings. destruct (h !! p) as [d|] eqn:Hd; [|done].
  intros [Hn%bool_decide_eq_true Hs]%andb_true_iff. exists d. split; [done|]. split; [done|].
  apply Forall_forall. intros [k w] Hin. rewrite forallb_forall in Hs.
  apply list_elem_of_In in Hin. specialize (Hs _ Hin). cbn in *. destruct w; try done. by eexists.
Qed.

Lemma text_strings_ok h now time str : text_strings h now time str = true → text_ok h now time str.
Proof.
  intros Hs m h' E. unfold text_strings in Hs. rewrite E in Hs. intros p Hp. rewrite Hp in Hs.
  by apply texts_ok.
Qed.

Lemma op_plain_ok (EN : EcEnv) c o : op_plain c o = true → op_ok c o.
Proof. destruct o; cbn; try done; apply text_strings_ok. Qed.

Lemma run_plain EN os c :
  ops_plain EN os c = true → ecall_run c os (heard EN os c) (after EN os c).
Proof.
  unfold heard, after. revert c. induction os as [|o os IH]; intros c; [constructor|].
  cbn [ops_plain runs_to]. intros [Ho Hr]%andb_true_iff.
  destruct (ecall_exec o c) as [[[[] c1] e1]|] eqn:E; [|done]. specialize (IH c1 Hr).
  assert (∀ os c, ops_plain EN os c = true → is_Some (runs_to EN os c)) as Hdef.
  { clear. induction os as [|o os IH]; intros c; [by eexists|]. cbn. intros [_ Hr]%andb_true_iff.
    destruct (ecall_exec o c) as [[[[] c1] e1]|]; [|done]. destruct (IH c1 Hr) as [[c2 e2] ->]. by eexists. }
  destruct (Hdef os c1 Hr) as [[c2 e2] E2]. rewrite E2 in IH |- *. eapply er_cons; [|done..].
  by apply (op_plain_ok EN).
Qed.

(** Alice's offer and Bob's answer. *)
Definition call_ops : list ecall_op := [DoStart ICALL_CALL_TYPE_NORMAL false; DoFlowGather 0].
Definition alice_calling : ecall := after env_a call_ops alice.
Definition text_sent (c : ecall) (es : list ecall_event) : string :=
  match omap (λ e, match e with EeSend _ m _ _ => Some m | _ => None end) es with
  | m :: _ => match econn_message_encode (e_heap c) m with Some (inr text) => text | _ => "" end
  | [] => ""
  end.
Definition offer : string := text_sent alice_calling (heard env_a call_ops alice).
Definition answer_ops : list ecall_op :=
  [DoTranspRecv 20 10 "alice" "a1" offer; DoAnswer ICALL_CALL_TYPE_NORMAL false; DoFlowGather 0].
Definition bob_answered : ecall := after env_b answer_ops bob.
Definition answer : string := text_sent bob_answered (heard env_b answer_ops bob).

(** ** The theorems *)

(** Alice calls and gives up before anybody answers. *)
Definition give_up_ops : list ecall_op := call_ops ++ [DoEnd].
Definition alice_gives_up : ecall := after env_a give_up_ops alice.

Lemma alice_calling_run : ecall_run alice call_ops (heard env_a call_ops alice) alice_calling.
Proof. apply run_plain. vm_compute. reflexivity. Qed.
Lemma give_up_run : ecall_run alice give_up_ops (heard env_a give_up_ops alice) alice_gives_up.
Proof. apply run_plain. vm_compute. reflexivity. Qed.

Lemma ecall_reachable_ok_witness :
  ecall_ok alice_gives_up
  ∧ ∃ c' es', ecall_exec (H1 := env_a) DoEconnTimer alice_gives_up = Some ((), c', es') ∧ ecall_ok c'.
Proof.
  exact (ecall_reachable_ok alice _ give_up_ops _ alice_gives_up env_a DoEconnTimer alice_created
           give_up_run I).
Defined.

Definition closed_ops : list ecall_op := give_up_ops ++ [DoEconnTimer].
Lemma closed_run :
  ecall_run alice closed_ops (heard env_a closed_ops alice) (after env_a closed_ops alice).
Proof. apply run_plain. vm_compute. reflexivity. Qed.

Lemma flows_owned_or_closed_witness :
  closed (heard env_a closed_ops alice) = [0%nat] ∧ flows (after env_a closed_ops alice) = []
  ∧ ecall_exec (H1 := env_a) (DoFlowEstab 0) (after env_a closed_ops alice)
    = Some ((), after env_a closed_ops alice, []).
Proof.
  split; [vm_compute; reflexivity|]. split; [vm_compute; reflexivity|].
  refine (proj2 (proj2 (flows_owned_or_closed alice _ closed_ops _ _ alice_created closed_run))
            env_a 0%nat (DoFlowEstab 0) _ eq_refl).
  apply (bool_decide_unpack _). vm_compute. reflexivity.
Defined.

Lemma call_closed_once_witness : close_calls (heard env_a closed_ops alice) = 1%nat.
Proof.
  refine (proj2 (proj2 (call_closed_once alice _ closed_ops _ _ alice_created _ closed_run) _) _).
  - discriminate.
  - vm_compute. reflexivity.
  - vm_compute. reflexivity.
Defined.

Definition alice_conn : econn :=
  match e_econn alice_calling with Some conn => conn | None => new_conn default_conf "" "" "" end.

Lemma unanswered_call_ends_witness :
  is_Some (ec_tmr_local alice_conn)
  ∧ ∃ c' es', ecall_exec (H1 := env_a) DoEconnTimer alice_calling = Some ((), c', es')
              ∧ ecall_state c' = ECONN_TERMINATING
              ∧ opened (heard env_a call_ops alice ++ es') ≡ₚ closed (heard env_a call_ops alice ++ es')
              ∧ close_calls (heard env_a call_ops alice ++ es') = 1%nat.
Proof.
  destruct (unanswered_call_ends alice _ call_ops _ alice_calling alice_conn env_a alice_created
              alice_calling_run) as [Ht (c' & es' & E & Hst & Hp & _ & Hn)].
  - vm_compute. reflexivity.
  - vm_compute. reflexivity.
  - split; [exact Ht|]. exists c', es'. split; [exact E|]. split; [exact Hst|]. split; [exact Hp|].
    apply Hn; [vm_compute; reflexivity|discriminate].
Defined.

(** Alice turns the camera on and off again while it rings at Bob's. *)
Definition camera_ops : list ecall_op :=
  [DoSetVideoSendState ICALL_VIDEO_STATE_STARTED; DoSetVideoSendState ICALL_VIDEO_STATE_STOPPED;
   DoTranspRecv 30 29 "bob" "b7" answer].
Definition alice_answered : ecall := after env_a camera_ops alice_calling.

Lemma alice_calling_ok : ecall_ok alice_calling.
Proof.
  destruct (created_ok _ _ alice_created) as [Hok _].
  exact (sp_ok _ _ _ (run_sp _ _ _ _ alice_calling_run Hok)).
Qed.

Lemma withdrawn_video_request_applied_witness :
  e_vstate alice_calling = ICALL_VIDEO_STATE_STOPPED
  ∧ ∃ c4 es4, ecall_exec (H1 := env_a) (DoChannelEstab 0) alice_answered = Some ((), c4, es4)
              ∧ e_vstate c4 = ICALL_VIDEO_STATE_STARTED.
Proof.
  split; [vm_compute; reflexivity|].
  refine (withdrawn_video_request_applied env_a alice_calling ICALL_VIDEO_STATE_STARTED
            [DoTranspRecv 30 29 "bob" "b7" answer] (heard env_a camera_ops alice_calling)
            alice_answered 0 alice_calling_ok _ _ _ _ _ _ _ _).
  - vm_compute. reflexivity.
  - vm_compute. discriminate.
  - apply run_plain. vm_compute. reflexivity.
  - repeat constructor.
  - vm_compute. reflexivity.
  - vm_compute. reflexivity.
  - vm_compute. reflexivity.
  - intros n. discriminate.
Defined.

(** A PROPSYNC of anybody whose properties are not strings. *)
Definition propsync_of (uid cid : string) : econn_message := {|
  msg_type := ECONN_PROPSYNC; sessid_sender := "zzzz"; src_userid := uid; src_clientid := cid;
  dest_userid := ""; dest_clientid := ""; resp := false; transient := false;
  msg_time := 0; msg_age := 0; msg_u := u_zero |}.

Lemma nonstring_property_undefined_witness :
  ecall_exec (H1 := env_a)
    (DoTranspRecv 20 10 "eve" "e1" (bool_prop_text (propsync_of "eve" "e1") true)) alice = None.
Proof.
  apply nonstring_property_undefined.
  - reflexivity.
  - split; unfold id_fits, ECONN_ID_LEN; cbn; lia.
  - vm_compute. reflexivity.
Defined.

Lemma alice_named : named alice.
Proof.
  split_and!; [apply Nat.ltb_lt; vm_compute; reflexivity|vm_compute; discriminate|
               apply Nat.ltb_lt; vm_compute; reflexivity|vm_compute; discriminate].
Qed.
Lemma bob_named : named bob.
Proof.
  split_and!; [apply Nat.ltb_lt; vm_compute; reflexivity|vm_compute; discriminate|
               apply Nat.ltb_lt; vm_compute; reflexivity|vm_compute; discriminate].
Qed.

(** Alice and Bob are set up with each other. *)
Lemma call_set_up_witness :
  ∃ a1 b1 a2 a3 b2 offer text answer text' ea eb,
    plays env_a [DoStart ICALL_CALL_TYPE_NORMAL false; DoFlowGather 0] alice a1
      [EeSend "alice" offer None false]
    ∧ econn_message_encode (e_heap a1) offer = Some (inr text)
    ∧ plays env_b [DoTranspRecv 20 10 "alice" "a1" text; DoAnswer ICALL_CALL_TYPE_NORMAL false;
                   DoFlowGather 0] bob b1
        [EeStart 10 "alice" "a1" false; EeFlow 0 (FlHandleOffer "v=0 a");
         EeSend "bob" answer None false]
    ∧ econn_message_encode (e_heap b1) answer = Some (inr text')
    ∧ plays env_a [DoTranspRecv 30 29 "bob" "b7" text'] a1 a2
        [EeFlow 0 (FlHandleAnswer (Some "v=0 b")); EeAnswer]
    ∧ connected a2 b1
    ∧ plays env_a [DoChannelEstab 0] a2 a3 ea ∧ plays env_b [DoChannelEstab 0] b1 b2 eb
    ∧ in_conversation a3 b2 0 0.
Proof.
  destruct (call_set_up env_a env_b alice bob ICALL_CONV_TYPE_ONEONONE ICALL_CONV_TYPE_ONEONONE
              "v=0 a" "v=0 b" ICALL_CALL_TYPE_NORMAL false ICALL_CALL_TYPE_NORMAL false 20 10 30 29
              (working_ok _ _) (working_ok _ _) alice_created bob_created)
    as (a1 & b1 & a2 & offer & text & answer & text' & H1 & H2 & H3 & H4 & H5 & H6 & a3 & b2 & ea & eb
        & H7 & H8 & H9).
  - discriminate.
  - discriminate.
  - exact alice_named.
  - exact bob_named.
  - vm_compute. reflexivity.
  - vm_compute. reflexivity.
  - vm_compute. reflexivity.
  - vm_compute. reflexivity.
  - intros E. vm_compute in E. discriminate.
  - exists a1, b1, a2, a3, b2, offer, text, answer, text', ea, eb. by split_and!.
Defined.

(** Alice and Bob with an open data channel. *)
Definition open_env (muted : bool) : EcEnv := working "v=0" muted.
Definition alice_talking : ecall :=
  after env_a [DoTranspRecv 30 29 "bob" "b7" answer; DoChannelEstab 0] alice_calling.
Definition bob_talking : ecall := after env_b [DoChannelEstab 0] bob_answered.
Definition conn_of (c : ecall) : econn :=
  match e_econn c with Some conn => conn | None => new_conn default_conf "" "" "" end.
Definition local_of (c : ecall) : econn_props_ref := default 1%positive (e_props_local c).

Lemma alice_talks : talking (view alice_talking) (conn_of alice_talking) 0 (local_of alice_talking).
Proof.
  split; try (vm_compute; reflexivity); [|vm_compute; discriminate].
  apply texts_ok. vm_compute. reflexivity.
Qed.
Lemma bob_talks : talking (view bob_talking) (conn_of bob_talking) 0 (local_of bob_talking).
Proof.
  split; try (vm_compute; reflexivity); [|vm_compute; discriminate].
  apply texts_ok. vm_compute. reflexivity.
Qed.

(** Alice's microphone is off when the channel is open. *)
Lemma mute_state_synced_witness :
  ∃ a1 b1 a2 text reply vsa vsb mb,
    plays (open_env true) [DoUpdateMuteState] alice_talking a1 [EeFlow 0 (FlDceSend text)]
    ∧ propsync_get_states (e_heap a1) (local_of alice_talking) = Some (vsa, Some true)
    ∧ propsync_get_states (e_heap bob_talking) (local_of bob_talking) = Some (vsb, mb)
    ∧ plays (open_env false) [DoChannelData 0 text] bob_talking b1
        (EeFlow 0 (FlDceSend reply)
         :: vstate_event (view bob_talking) vsa ++ muted_event (view bob_talking) (Some true))
    ∧ e_remote_muted b1 = true ∧ e_recv_state b1 = default (e_recv_state bob_talking) vsa
    ∧ plays (open_env true) [DoChannelData 0 reply] a1 a2
        (vstate_event (view alice_talking) vsb ++ muted_event (view alice_talking) mb)
    ∧ e_remote_muted a2 = default (e_remote_muted alice_talking) mb
    ∧ e_recv_state a2 = default (e_recv_state alice_talking) vsb.
Proof.
  exact (mute_state_synced (open_env true) (open_env false) alice_talking bob_talking
           (conn_of alice_talking) (conn_of bob_talking) 0 0 (local_of alice_talking)
           (local_of bob_talking) true alice_talks bob_talks (λ _, eq_refl)).
Defined.

(** Alice hangs up. *)
Lemma call_hung_up_witness :
  ∃ a1 b1 a2 text reply,
    plays env_a [DoEnd] alice_talking a1 [EeFlow 0 (FlDceSend text)]
    ∧ plays env_b [DoChannelData 0 text] bob_talking b1
        [EeFlow 0 (FlDceSend reply); EeFlow 0 FlClose; EeClose 0 None 0 (Some "alice") (Some "a1")]
    ∧ plays env_a [DoChannelData 0 reply] a1 a2
        [EeFlow 0 FlClose; EeClose 0 None 0 (Some "bob") (Some "b7")]
    ∧ ecall_state a2 = ECONN_TERMINATING ∧ ecall_state b1 = ECONN_TERMINATING
    ∧ flows a2 = [] ∧ flows b1 = [].
Proof.
  destruct (call_hung_up env_a env_b alice_talking bob_talking (conn_of alice_talking)
              (conn_of bob_talking) 0 0 (local_of alice_talking) (local_of bob_talking)
              alice_talks bob_talks)
    as (a1 & b1 & a2 & text & reply & H1 & H2 & H3 & H4 & H5 & H6 & H7).
  - vm_compute. reflexivity.
  - vm_compute. reflexivity.
  - vm_compute. reflexivity.
  - vm_compute. reflexivity.
  - apply Nat.ltb_lt. vm_compute. reflexivity.
  - apply Nat.ltb_lt. vm_compute. reflexivity.
  - exists a1, b1, a2, text, reply. unfold ecall_state. rewrite H4, H5. by split_and!.
Defined.
