(* ===== verification/Egcall.v ===== *)
(** * The group call ([src/egcall/egcall.c])

    A call among several clients without a server: an [egcall] has an [ecall] for
    every client it is connected to and a roster of those that take part.  Calls are
    announced with GROUP_START, left with GROUP_LEAVE and kept alive with
    GROUP_CHECK messages.

    - An [ecall] is its address with what the group call knows of it
      ([group_ecall]); calls into it are events and their results are in [EgEnv].
      [eg_live] are the objects that exist, in the order of their allocation; those
      that are linked are the list [ecalll].  An [ecall] calls back from the event
      loop, so its callbacks are operations of their own, but for the stopped
      handler, which [ecall_end] and [ecall_media_stop] may call.
    - Every [ecall] holds a reference to its group call.  [eg_refs] counts them and
      that of the owner; when it reaches 0 the object is destroyed, and every later
      access is undefined ([gget]).
    - The roster is a dictionary ([Dict]).
    - The participants of one user have equal entries in the list of positions, so
      an entry is removed by its user. *)

From stdpp Require Import gmap.
From S2P Require Import Prelude LibRe LibReJson Jzon EconnMsg EconnFmt Econn ConfPos Dict Icall AudioLevel UserList Ecall EcallMsg.

#[local] Open Scope string_scope.
#[local] Open Scope Z_scope.
#[local] Open Scope list_scope.

(** ** Data *)

Definition EGCALL_START_TIMEOUT : Z := 30000.
Definition EGCALL_SHOULD_RING_TIMEOUT : Z := 30000.
Definition EGCALL_RING_TIMEOUT : Z := 35000.
Definition EGCALL_ANSWER_TIMEOUT : Z := 60000.
Definition EGCALL_ACTIVE_ROSTER_TIMEOUT : Z := 60000.
Definition EGCALL_ACTIVE_ROSTER_RAND : Z := 30000.
Definition EGCALL_PASSIVE_ROSTER_TIMEOUT : Z := 120000.
Definition EGCALL_NOCONN_TIMEOUT : Z := 5000.

(** [enum egcall_state] *)
Inductive egcall_state :=
| EGCALL_STATE_NONE | EGCALL_STATE_IDLE | EGCALL_STATE_OUTGOING | EGCALL_STATE_INCOMING
| EGCALL_STATE_ANSWERED | EGCALL_STATE_ACTIVE | EGCALL_STATE_TERMINATING.

#[export] Instance egcall_state_eq_dec : EqDecision egcall_state.
Proof. solve_decision. Defined.

#[export] Instance icall_audio_state_eq_dec : EqDecision icall_audio_state.
Proof. solve_decision. Defined.

(** The handlers of [call_timer] and of [roster_timer]. *)
Inductive call_tmr := StartTimeout | RingTimeout | AnswerTimeout.
Inductive roster_tmr := ActiveTimeout | PassiveTimeout.

(** [struct roster_item], without its key. *)
Record roster_item := {
  ri_userid : string;
  ri_clientid : string;
  ri_audio_state : icall_audio_state;
  ri_video_recv : icall_vstate;
  ri_muted : bool;
}.

(** An [ecall] as its group call sees it: the user and the client it is connected
    to, whether it is in the list, and the user of its conference position. *)
Record group_ecall := {
  ge_addr : nat;
  ge_userid : string;
  ge_clientid : string;
  ge_linked : bool;
  ge_part : option string;
}.

(** [struct media_entry] *)
Record media_entry := {
  me_ecall : nat;
  me_started : bool;
}.

(** [struct egcall] *)
Record egcall := {
  eg_cb : icall_cb → bool;
  eg_live : list group_ecall;
  eg_media : list media_entry;
  eg_state : egcall_state;
  eg_convid : string;
  eg_userid_self : string;
  eg_clientid_self : string;
  eg_call_type : icall_call_type;
  eg_should_reject : bool;
  eg_meeting : bool;
  eg_roster : dict roster_item;
  eg_partl : list conf_part;
  eg_turnv : list zapi_ice_server;
  eg_is_call_answered : bool;
  eg_call_timer : option (call_tmr * Z);
  eg_roster_timer : option (roster_tmr * Z);
  eg_noconn_timer : option Z;
  eg_audio_cbr : bool;
  eg_send_state : icall_vstate;
  eg_interval : Z;
  eg_heap : props_heap;
  eg_refs : nat;
  eg_tick : nat;
  eg_naddr : nat;
}.

(** The calls into an [ecall]. *)
Inductive group_call :=
| GeStart (call_type : icall_call_type) (audio_cbr meeting : bool)
| GeAnswer (call_type : icall_call_type) (audio_cbr : bool)
| GeEnd
| GeMsgRecv (userid clientid : string) (msg : econn_message)
| GeMediaStart
| GeMediaStop
| GeSetVideoSendState (state : icall_vstate)
| GeSetQualityInterval (interval : Z)
| GeUpdateMuteState
| GeAddTurnserver (srv : zapi_ice_server)
| GeDestroy.

Inductive egcall_event :=
| EgEcallAlloc (ecall : nat) (userid clientid : string)
| EgEcall (ecall : nat) (f : group_call)
| EgConfParts (partl : list conf_part)
| EgSend (userid : string) (msg : econn_message) (targets : list icall_client)
    (my_clients_only : bool)
| EgStarted (time : Z) (userid clientid : string) (video should_ring : bool)
| EgAnswered
| EgMediaEstab (ecall : nat) (userid clientid : option string) (update : bool)
| EgAudioEstab (ecall : nat) (userid clientid : option string) (update : bool)
| EgDatachanEstab (ecall : nat) (userid clientid : option string) (update : bool)
| EgMediaStopped (ecall : nat)
| EgGroupChanged
| EgLeft (reason time : Z)
| EgClosed (err time : Z) (userid clientid : option string)
| EgMetrics (metrics : icall_metrics)
| EgVstateChanged (ecall : option nat) (userid clientid : option string) (state : icall_vstate)
| EgMutedChanged (ecall : nat) (userid clientid : option string) (muted : bool)
| EgQuality (userid clientid : option string) (stats : stats_report) (conv : icall_conv_type)
| EgReqClients
| EgDestroyed.

Abbreviation GM := (MU egcall egcall_event).

(** The results of other components, by the number of the call. *)
Class EgEnv := {
  ge_alloc_ret : nat → Z;
  ge_start_ret : nat → Z;
  ge_media_start_ret : nat → Z;
  ge_turnserver_ret : nat → Z;
  ge_mute_ret : nat → Z;
  ge_state : nat → econn_state;
  (** Whether ending an [ecall] or stopping its media calls the stopped handler. *)
  ge_stops : nat → bool;
  eg_sendh_ret : nat → Z;
  eg_muted : nat → bool;
  eg_rand : nat → Z;
  eg_mem : nat → bool;
}.

Section Ops.
Context `{LibRe, LibReJson, EgEnv}.

(** ** Primitives *)

(** An access to the object, which exists. *)
Definition gget : GM egcall :=
  c ← uget; if (eg_refs c =? 0)%nat then undef else mret c.
Definition gmod (f : egcall → egcall) : GM () := _ ← gget; umodify f.
Definition gnext : GM nat :=
  c ← gget; umodify (λ c, {| c with eg_tick := S (eg_tick c) |});; mret (eg_tick c).
Definition gwhen (b : bool) (m : GM ()) : GM () := if b then m else mret ().

(** [ICALL_CALL_CB] *)
Definition gcall_cb (k : icall_cb) (e : egcall_event) : GM () :=
  c ← gget; gwhen (eg_cb c k) (uemit [e]).

(** [mem_ref(egcall)], [mem_deref(egcall)]: the last reference destroys the object
    and the [ecall]s that are still in its list. *)
Definition mem_ref : GM () := gmod (λ c, {| c with eg_refs := S (eg_refs c) |}).
Definition ecalll (c : egcall) : list group_ecall := filter (λ e, ge_linked e = true) (eg_live c).
Definition mem_deref : GM () :=
  c ← gget;
  if (eg_refs c =? 1)%nat then
    uemit (EgDestroyed :: ((λ e, EgEcall (ge_addr e) GeDestroy) <$> ecalll c));;
    umodify (λ c, {| c with eg_refs := 0; eg_call_timer := None; eg_roster_timer := None;
                            eg_noconn_timer := None; eg_media := [];
                            eg_live := filter (λ e, ge_linked e = false) (eg_live c) |})
  else umodify (λ c, {| c with eg_refs := pred (eg_refs c) |}).

(** The [ecall] at an address; there is one. *)
Definition get_ecall (a : nat) : GM group_ecall :=
  c ← gget; of_ptr (List.find (λ e, ge_addr e =? a)%nat (eg_live c)).
Definition set_ecall (a : nat) (f : group_ecall → group_ecall) : GM () :=
  gmod (λ c, {| c with eg_live := (λ e, if (ge_addr e =? a)%nat then f e else e) <$> eg_live c |}).

(** [ecall_find_userclient(&egcall->ecalll, ...)] *)
Definition find_userclient (c : egcall) (userid clientid : string) : option group_ecall :=
  List.find (λ e, (str_casecmp (Some userid) (Some (ge_userid e)) =? 0)
                  && (str_casecmp (Some clientid) (Some (ge_clientid e)) =? 0)) (ecalll c).

(** ** Media *)

(** [all_media_stopped], [lookup_media_entry], [set_media_started] *)
Definition all_media_stopped (c : egcall) : bool := negb (existsb me_started (eg_media c)).
Definition lookup_media_entry (c : egcall) (a : nat) : option media_entry :=
  List.find (λ me, me_ecall me =? a)%nat (eg_media c).
Definition set_media_started (a : nat) (started : bool) : GM () :=
  gmod (λ c, {| c with eg_media :=
    (λ me, if (me_ecall me =? a)%nat then {| me with me_started := started |} else me)
    <$> eg_media c |}).

(** [ecall_media_stopped_handler] *)
Definition ecall_media_stopped_handler (a : nat) : GM () :=
  set_media_started a false;;
  c ← gget;
  gwhen (all_media_stopped c) (gcall_cb CB_MEDIA_STOPPED (EgMediaStopped a)).

(** [ecall_end(ecall)] *)
Definition end_ecall (a : nat) : GM () :=
  uemit [EgEcall a GeEnd];;
  n ← gnext;
  gwhen (ge_stops n) (ecall_media_stopped_handler a).

(** ** Positions *)

(** [update_conf_pos] *)
Definition update_conf_pos : GM () :=
  gmod (λ c, {| c with eg_partl := conf_pos_sort (eg_partl c) |});;
  c ← gget;
  uemit [EgConfParts (eg_partl c)].

Fixpoint remove_part (uid : string) (partl : list conf_part) : list conf_part :=
  match partl with
  | [] => []
  | p :: partl => if String.eqb (cp_uid p) uid then partl else p :: remove_part uid partl
  end.

(** [ecall_set_conf_part(ecall, NULL)]: the position is released and leaves the list. *)
Definition drop_part (a : nat) : GM () :=
  e ← get_ecall a;
  match ge_part e with
  | None => mret ()
  | Some uid =>
    gmod (λ c, {| c with eg_partl := remove_part uid (eg_partl c) |});;
    set_ecall a (λ e, {| e with ge_part := None |})
  end.

(** [destroy_ecall]; [None] is [NULL]. *)
Definition remove_ecall (a : nat) : GM () :=
  drop_part a;;
  gmod (λ c, {| c with eg_live := filter (λ e, ge_addr e ≠ a) (eg_live c) |});;
  uemit [EgEcall a GeDestroy].
Definition destroy_ecall (ecall : option nat) : GM () :=
  _ ← gget;
  match ecall with
  | Some a =>
    gmod (λ c, {| c with eg_media := filter (λ me, me_ecall me ≠ a) (eg_media c) |});;
    end_ecall a;;
    remove_ecall a
  | None => mret ()
  end;;
  mem_deref.

(** ** The roster *)

(** [get_userclient]: a text of at most 127 characters. *)
Definition get_userclient (userid clientid : string) : string :=
  String.substring 0 127 (userid ++ "." ++ clientid)%string.

(** What [roster_add] returns: nothing, an item of the roster, or an item that was
    released when it could not be added. *)
Inductive roster_ret := NoItem | Item (key : string) | Released.

Definition new_item (userid clientid : string) : roster_item :=
  {| ri_userid := userid; ri_clientid := clientid;
     ri_audio_state := ICALL_AUDIO_STATE_CONNECTING;
     ri_video_recv := ICALL_VIDEO_STATE_STOPPED; ri_muted := false |}.

(** [roster_add] *)
Definition roster_add (userid clientid : string) : GM roster_ret :=
  c ← gget;
  let key := get_userclient userid clientid in
  match dict_lookup (eg_roster c) key with
  | Some _ => mret (Item key)
  | None =>
    n ← gnext;
    if negb (eg_mem n) then mret NoItem
    else
      n ← gnext;
      if negb (eg_mem n) then mret Released
      else
        n ← gnext;
        c ← gget;
        let r := dict_add (eg_mem n) (eg_roster c) key (new_item userid clientid) in
        if negb (r.1 =? 0) && negb (r.1 =? EADDRINUSE) then mret Released
        else
          gmod (λ c, {| c with eg_roster := r.2; eg_is_call_answered := false |});;
          gcall_cb CB_GROUP_CHANGED EgGroupChanged;;
          mret (Item key)
  end.

(** [roster_remove] *)
Definition roster_remove (userid clientid : string) : GM () :=
  gmod (λ c, {| c with eg_roster := dict_remove (eg_roster c) (get_userclient userid clientid) |});;
  c ← gget;
  match find_userclient c userid clientid with
  | Some e => drop_part (ge_addr e);; update_conf_pos
  | None => mret ()
  end;;
  gcall_cb CB_GROUP_CHANGED EgGroupChanged.

(** Writing to the item [roster_lookup] finds for an [ecall]. *)
Definition roster_write (a : nat) (f : roster_item → roster_item) : GM () :=
  e ← get_ecall a;
  gmod (λ c, {| c with eg_roster :=
    dict_alter f (get_userclient (ge_userid e) (ge_clientid e)) (eg_roster c) |}).

(** ** States *)

(** [egcall_start_active_roster_timer] *)
Definition egcall_start_active_roster_timer : GM () :=
  n ← gnext;
  gmod (λ c, {| c with eg_roster_timer := Some (ActiveTimeout,
    EGCALL_ACTIVE_ROSTER_TIMEOUT + eg_rand n mod EGCALL_ACTIVE_ROSTER_RAND) |}).

(** [set_state] *)
Definition set_state (state : egcall_state) : GM () :=
  gmod (λ c, {| c with eg_state := state |});;
  match state with
  | EGCALL_STATE_IDLE | EGCALL_STATE_TERMINATING | EGCALL_STATE_NONE =>
    gmod (λ c, {| c with eg_call_timer := None; eg_roster_timer := None |})
  | EGCALL_STATE_OUTGOING =>
    gmod (λ c, {| c with eg_is_call_answered := true;
                         eg_call_timer := Some (StartTimeout, EGCALL_START_TIMEOUT) |});;
    egcall_start_active_roster_timer
  | EGCALL_STATE_INCOMING =>
    gmod (λ c, {| c with eg_call_timer := None;
      eg_roster_timer := Some (PassiveTimeout, EGCALL_PASSIVE_ROSTER_TIMEOUT) |})
  | EGCALL_STATE_ANSWERED =>
    gmod (λ c, {| c with eg_is_call_answered := true;
                         eg_call_timer := Some (AnswerTimeout, EGCALL_ANSWER_TIMEOUT) |});;
    egcall_start_active_roster_timer
  | EGCALL_STATE_ACTIVE =>
    gmod (λ c, {| c with eg_is_call_answered := true; eg_call_timer := None |});;
    egcall_start_active_roster_timer
  end.

(** [send_msg]: the message is not addressed to anybody. *)
Definition group_msg (type : econn_msg) (rsp tr : bool) (u : econn_payload) : econn_message := {|
  msg_type := type; sessid_sender := ""; src_userid := ""; src_clientid := "";
  dest_userid := ""; dest_clientid := ""; resp := rsp; transient := tr;
  msg_time := 0; msg_age := 0; msg_u := u |}.
Definition start_props : GM (option econn_props_ref) :=
  n ← gnext;
  if negb (eg_mem n) then mret None
  else
    c ← gget;
    let a := econn_props_alloc (eg_heap c) None in
    r ← of_ptr (econn_props_add a.2 (Some a.1) (Some "videosend")
          (Some (if bool_decide (eg_call_type c = ICALL_CALL_TYPE_VIDEO) then "true" else "false")));
    gmod (λ c, {| c with eg_heap := r.2 |});;
    mret (Some a.1).
Definition send_msg (type : econn_msg) (rsp tr : bool) : GM Z :=
  n ← gnext;
  if negb (eg_mem n) then mret ENOMEM
  else
    u ← (if bool_decide (type = ECONN_GROUP_START)
         then p ← start_props; mret (u_groupstart p) else mret u_zero);
    c ← gget;
    gcall_cb CB_SEND (EgSend (eg_userid_self c) (group_msg type rsp tr u) [] false);;
    n ← gnext;
    mret (if eg_cb c CB_SEND then eg_sendh_ret n else 0).


(** ** Ending *)

(** [send_leave] *)
Definition send_leave (time : Z) : GM () :=
  _ ← send_msg ECONN_GROUP_LEAVE false false;
  c ← gget;
  if (dict_count (eg_roster c) =? 0)%nat then
    set_state EGCALL_STATE_IDLE;;
    gcall_cb CB_CLOSE (EgClosed 0 ECONN_MESSAGE_TIME_UNKNOWN None None)
  else
    set_state EGCALL_STATE_INCOMING;;
    gcall_cb CB_LEAVE (EgLeft ICALL_REASON_STILL_ONGOING time).

Fixpoint end_ecalls (l : list group_ecall) : GM () :=
  match l with
  | [] => mret ()
  | e :: l => end_ecall (ge_addr e);; end_ecalls l
  end.

(** [egcall_end_with_err], whose error is not used; [egcall_end] *)
Definition egcall_end_with_err : GM () :=
  c ← gget;
  match eg_state c with
  | EGCALL_STATE_IDLE | EGCALL_STATE_INCOMING | EGCALL_STATE_TERMINATING => mret ()
  | _ =>
    if (0 <? length (ecalll c))%nat then
      set_state EGCALL_STATE_TERMINATING;;
      end_ecalls (ecalll c)
    else send_leave ECONN_MESSAGE_TIME_UNKNOWN
  end.
Definition egcall_end : GM () := egcall_end_with_err.

(** ** Timers *)

Definition flush_roster : GM () := gmod (λ c, {| c with eg_roster := dict_flush (eg_roster c) |}).

(** [egcall_start_timeout], [egcall_answer_timeout] *)
Definition egcall_start_timeout : GM () :=
  c ← gget;
  gwhen (negb (bool_decide (eg_state c = EGCALL_STATE_ACTIVE))) (flush_roster;; egcall_end_with_err).
Definition egcall_answer_timeout : GM () := egcall_start_timeout.

(** [egcall_ring_timeout] *)
Definition egcall_ring_timeout : GM () :=
  c ← gget;
  gwhen (bool_decide (eg_state c = EGCALL_STATE_INCOMING))
    (gcall_cb CB_LEAVE (EgLeft ICALL_REASON_STILL_ONGOING ECONN_MESSAGE_TIME_UNKNOWN)).

(** [egcall_active_roster_timeout], [egcall_passive_roster_timeout] *)
Definition egcall_active_roster_timeout : GM () :=
  c ← gget;
  gwhen (bool_decide (eg_state c = EGCALL_STATE_ACTIVE))
    (_ ← send_msg ECONN_GROUP_CHECK true true; egcall_start_active_roster_timer).
Definition egcall_passive_roster_timeout : GM () :=
  flush_roster;;
  set_state EGCALL_STATE_IDLE;;
  gcall_cb CB_CLOSE (EgClosed 0 ECONN_MESSAGE_TIME_UNKNOWN None None).

(** [noconn_handler] *)
Definition network_problem : stats_report :=
  {| st_rtt := 0; st_lost_tx := ICALL_NETWORK_PROBLEM; st_lost_rx := ICALL_NETWORK_PROBLEM |}.
Definition noconn_handler : GM () :=
  c ← gget;
  gcall_cb CB_QUALITY (EgQuality (Some (eg_userid_self c)) (Some (eg_clientid_self c))
                         network_problem ICALL_CONV_TYPE_GROUP).

(** A timer expires: it is stopped, then its handler runs. *)
Definition fire_call_timer : GM () :=
  c ← gget;
  match eg_call_timer c with
  | None => mret ()
  | Some (t, _) =>
    gmod (λ c, {| c with eg_call_timer := None |});;
    match t with
    | StartTimeout => egcall_start_timeout
    | RingTimeout => egcall_ring_timeout
    | AnswerTimeout => egcall_answer_timeout
    end
  end.
Definition fire_roster_timer : GM () :=
  c ← gget;
  match eg_roster_timer c with
  | None => mret ()
  | Some (t, _) =>
    gmod (λ c, {| c with eg_roster_timer := None |});;
    match t with
    | ActiveTimeout => egcall_active_roster_timeout
    | PassiveTimeout => egcall_passive_roster_timeout
    end
  end.
Definition fire_noconn_timer : GM () :=
  c ← gget;
  match eg_noconn_timer c with
  | None => mret ()
  | Some _ => gmod (λ c, {| c with eg_noconn_timer := None |});; noconn_handler
  end.

(** ** The functions of the application *)

(** [egcall_add_turnserver] *)
Definition egcall_add_turnserver (srv : zapi_ice_server) : GM Z :=
  c ← gget;
  if (MAX_TURN_SERVERS <=? length (eg_turnv c))%nat then mret EOVERFLOW
  else gmod (λ c, {| c with eg_turnv := eg_turnv c ++ [srv] |});; mret 0.

(** [egcall_start] *)
Definition egcall_start (call_type : icall_call_type) (audio_cbr meeting : bool) : GM Z :=
  gmod (λ c, {| c with eg_call_type := call_type; eg_audio_cbr := audio_cbr;
                       eg_meeting := meeting |});;
  c ← gget;
  match eg_state c with
  | EGCALL_STATE_IDLE | EGCALL_STATE_INCOMING =>
    err ← send_msg ECONN_GROUP_START false false;
    if negb (err =? 0) then mret err
    else set_state EGCALL_STATE_OUTGOING;; mret 0
  | _ => mret EALREADY
  end.

(** [egcall_answer] *)
Definition egcall_answer (call_type : icall_call_type) (audio_cbr : bool) : GM Z :=
  gmod (λ c, {| c with eg_call_type := call_type; eg_audio_cbr := audio_cbr |});;
  c ← gget;
  if negb (bool_decide (eg_state c = EGCALL_STATE_INCOMING)) then mret EPROTO
  else
    err ← send_msg ECONN_GROUP_START true false;
    if negb (err =? 0) then mret err
    else set_state EGCALL_STATE_ANSWERED;; mret 0.

(** [egcall_set_clients] (with [icall_send_reject_msg]), [egcall_reject] *)
Definition send_reject (clientl : list (option icall_client)) : GM () :=
  c ← gget;
  let targets := reject_targets clientl (eg_userid_self c) (eg_clientid_self c) in
  if bool_decide (targets = []) then mret ()
  else
    n ← gnext;
    gwhen (eg_mem n)
      (gcall_cb CB_SEND (EgSend (eg_userid_self c)
         (reject_msg (eg_userid_self c) (eg_clientid_self c)) targets true)).
Definition egcall_set_clients (clientl : list (option icall_client)) : GM () :=
  c ← gget;
  gwhen (eg_should_reject c)
    (send_reject clientl;; gmod (λ c, {| c with eg_should_reject := false |})).
Definition egcall_reject : GM () :=
  gmod (λ c, {| c with eg_should_reject := true |});;
  gcall_cb CB_REQ_CLIENTS EgReqClients.

(** [egcall_media_start]: the error of the last [ecall]. *)
Fixpoint media_start_loop (l : list group_ecall) (err : Z) : GM Z :=
  match l with
  | [] => mret err
  | e :: l =>
    uemit [EgEcall (ge_addr e) GeMediaStart];;
    n ← gnext;
    (gwhen (ge_media_start_ret n =? 0) (set_media_started (ge_addr e) true));;
    media_start_loop l (ge_media_start_ret n)
  end.
Definition egcall_media_start : GM Z := c ← gget; media_start_loop (ecalll c) 0.

(** [egcall_media_stop] *)
Fixpoint media_stop_loop (l : list group_ecall) : GM () :=
  match l with
  | [] => mret ()
  | e :: l =>
    uemit [EgEcall (ge_addr e) GeMediaStop];;
    n ← gnext;
    (gwhen (ge_stops n) (ecall_media_stopped_handler (ge_addr e)));;
    media_stop_loop l
  end.
Definition egcall_media_stop : GM () := c ← gget; media_stop_loop (ecalll c).

(** A call into every [ecall] of the list. *)
Definition for_ecalls (f : group_call) : GM () :=
  c ← gget; uemit ((λ e, EgEcall (ge_addr e) f) <$> ecalll c).

(** [egcall_set_video_send_state], [egcall_set_quality_interval]: the interval is kept
    as an [int]. *)
Definition egcall_set_video_send_state (state : icall_vstate) : GM Z :=
  gmod (λ c, {| c with eg_send_state := state |});;
  c ← gget;
  gcall_cb CB_VSTATE_CHANGED (EgVstateChanged None (Some (eg_userid_self c))
                                (Some (eg_clientid_self c)) state);;
  for_ecalls (GeSetVideoSendState state);;
  mret 0.
Definition egcall_set_quality_interval (interval : Z) : GM Z :=
  gmod (λ c, {| c with eg_interval := s32 interval |});;
  for_ecalls (GeSetQualityInterval interval);;
  mret 0.

(** [egcall_update_mute_state] *)
Fixpoint mute_loop (l : list group_ecall) (err : Z) : GM Z :=
  match l with
  | [] => mret err
  | e :: l =>
    uemit [EgEcall (ge_addr e) GeUpdateMuteState];;
    n ← gnext;
    mute_loop l (Z.lor err (ge_mute_ret n))
  end.
Definition egcall_update_mute_state : GM Z := c ← gget; mute_loop (ecalll c) 0.

(** [egcall_get_members], [roster_members_handler] *)
Definition roster_member (ri : roster_item) : wcall_member :=
  {| wm_userid := Some (ri_userid ri); wm_clientid := Some (ri_clientid ri);
     wm_audio_state := ri_audio_state ri; wm_video_recv := ri_video_recv ri;
     wm_muted := ri_muted ri |}.
Definition egcall_get_members : GM (Z + list wcall_member) :=
  n1 ← gnext;
  n2 ← gnext;
  if negb (eg_mem n1) || negb (eg_mem n2) then mret (inl ENOMEM)
  else
    c ← gget;
    n ← gnext;
    let items := (dict_entries (eg_roster c)).*2 in
    mret (inr (
      {| wm_userid := Some (eg_userid_self c); wm_clientid := Some (eg_clientid_self c);
         wm_audio_state :=
           if existsb (λ ri, negb (bool_decide (ri_audio_state ri = ICALL_AUDIO_STATE_CONNECTING)))
                items
           then ICALL_AUDIO_STATE_ESTABLISHED else ICALL_AUDIO_STATE_CONNECTING;
         wm_video_recv := eg_send_state c; wm_muted := eg_muted n |}
      :: (roster_member <$> items))).


(** ** The handlers given to [ecall] *)

(** [ecall_setup_handler], [ecall_setup_resp_handler] *)
Definition ecall_setup_handler (userid clientid : string) : GM () :=
  c ← gget;
  match find_userclient c userid clientid with
  | Some e => uemit [EgEcall (ge_addr e) (GeAnswer (eg_call_type c) (eg_audio_cbr c))]
  | None => mret ()
  end.
Definition ecall_setup_resp_handler : GM () :=
  gmod (λ c, {| c with eg_call_timer := None |}).

(** [ecall_media_estab_handler], [ecall_datachan_estab_handler] *)
Definition ecall_media_estab_handler (a : nat) (userid clientid : option string) (update : bool)
    : GM () := gcall_cb CB_MEDIA_ESTAB (EgMediaEstab a userid clientid update).
Definition ecall_datachan_estab_handler (a : nat) (userid clientid : option string) (update : bool)
    : GM () := gcall_cb CB_DATACHAN_ESTAB (EgDatachanEstab a userid clientid update).

(** [ecall_audio_estab_handler] *)
Definition roster_established (a : nat) (userid clientid : option string) (update : bool) : GM () :=
  e ← get_ecall a;
  ri ← roster_add (ge_userid e) (ge_clientid e);
  match ri with
  | NoItem => mret ()
  | Released => undef
  | Item key =>
    gmod (λ c, {| c with eg_roster := dict_alter
      (λ ri, {| ri with ri_audio_state := ICALL_AUDIO_STATE_ESTABLISHED |}) key (eg_roster c) |});;
    gcall_cb CB_AUDIO_ESTAB (EgAudioEstab a userid clientid update);;
    gcall_cb CB_GROUP_CHANGED EgGroupChanged
  end.
Definition place_ecall (a : nat) (userid : option string) : GM () :=
  e ← get_ecall a;
  match ge_part e with
  | Some _ => mret ()
  | None =>
    n ← gnext;
    c ← gget;
    let r := conf_part_add (eg_mem n) (eg_partl c) userid in
    gwhen (r.1 =? 0)
      (gmod (λ c, {| c with eg_partl := r.2 |});;
       set_ecall a (λ e, {| e with ge_part := userid |});;
       update_conf_pos)
  end.
Definition ecall_audio_estab_handler (a : nat) (userid clientid : option string) (update : bool)
    : GM () :=
  gmod (λ c, {| c with eg_noconn_timer := None |});;
  c ← gget;
  (gwhen (bool_decide (eg_state c = EGCALL_STATE_ANSWERED)) (set_state EGCALL_STATE_ACTIVE));;
  roster_established a userid clientid update;;
  place_ecall a userid.

(** [ecall_vstate_handler], [ecall_muted_changed_handler]; [ecall_audiocbr_handler]
    does nothing *)
Definition ecall_vstate_handler (a : nat) (userid clientid : option string) (state : icall_vstate)
    : GM () :=
  roster_write a (λ ri, {| ri with ri_video_recv := state |});;
  gcall_cb CB_VSTATE_CHANGED (EgVstateChanged (Some a) userid clientid state);;
  gcall_cb CB_GROUP_CHANGED EgGroupChanged.
Definition ecall_muted_changed_handler (a : nat) (userid clientid : option string) (muted : bool)
    : GM () :=
  roster_write a (λ ri, {| ri with ri_muted := muted |});;
  gcall_cb CB_MUTED_CHANGED (EgMutedChanged a userid clientid muted);;
  gcall_cb CB_GROUP_CHANGED EgGroupChanged.
Definition ecall_audiocbr_handler : GM () := mret ().

(** [roster_conn_handler], [ecall_norelay_handler] *)
Definition roster_conn_handler (ri : roster_item) : bool :=
  bool_decide (ri_audio_state ri = ICALL_AUDIO_STATE_ESTABLISHED).
Definition ecall_norelay_handler (a : nat) (local : bool) : GM () :=
  c ← gget;
  if local then
    if (dict_count (eg_roster c) =? 0)%nat then mret ()
    else
      match dict_apply (eg_roster c) (λ _, roster_conn_handler) with
      | Some _ => mret ()
      | None =>
        gwhen (bool_decide (eg_noconn_timer c = None))
          (gmod (λ c, {| c with eg_noconn_timer := Some EGCALL_NOCONN_TIMEOUT |}))
      end
  else
    e ← get_ecall a;
    match dict_lookup (eg_roster c) (get_userclient (ge_userid e) (ge_clientid e)) with
    | Some ri =>
      gwhen (negb (roster_conn_handler ri))
        (roster_write a (λ ri, {| ri with ri_audio_state := ICALL_AUDIO_STATE_NETWORK_PROBLEM |});;
         gcall_cb CB_GROUP_CHANGED EgGroupChanged)
    | None => mret ()
    end.

(** [ecall_close_handler] *)
Definition ecall_close_handler (a : nat) (err : Z) (metrics : option icall_metrics) (time : Z)
    (userid clientid : option string) : GM () :=
  match metrics with Some m => gcall_cb CB_METRICS (EgMetrics m) | None => mret () end;;
  drop_part a;;
  update_conf_pos;;
  c ← gget;
  match userid, clientid with
  | Some u, Some cl =>
    gwhen (negb (err =? 0) || negb (bool_decide (eg_state c = EGCALL_STATE_TERMINATING)))
      (roster_remove u cl)
  | _, _ => mret ()
  end;;
  mem_ref;;
  destroy_ecall (Some a);;
  c ← gget;
  (gwhen (negb (bool_decide (eg_state c = EGCALL_STATE_IDLE)) && (length (ecalll c) =? 0)%nat)
     (send_leave time));;
  mem_deref.

(** [ecall_transp_send_handler] *)
Definition ecall_transp_send_handler (userid : string) (msg : econn_message) (my_clients_only : bool)
    : GM Z :=
  c ← gget;
  if negb (eg_cb c CB_SEND) then mret ENOTSUP
  else
    let type := if bool_decide (msg_type msg = ECONN_SETUP) then ECONN_GROUP_SETUP
                else msg_type msg in
    let msg := {| msg with msg_type := type |} in
    n ← gnext;
    let addressed := negb (String.eqb (dest_userid msg) "") && negb (String.eqb (dest_clientid msg) "") in
    if addressed && negb (eg_mem n) then mret ENOMEM
    else
      uemit [EgSend userid msg
               (if addressed
                then [icall_client_alloc (Some (dest_userid msg)) (Some (dest_clientid msg))] else [])
               my_clients_only];;
      mret (eg_sendh_ret n).

(** [ecall_quality_handler] *)
Definition ecall_quality_handler (userid clientid : option string) (stats : stats_report)
    (peer : icall_conv_type) : GM () := gcall_cb CB_QUALITY (EgQuality userid clientid stats peer).

(** ** Messages *)

(** [add_ecall]: when [ecall_alloc] fails its callbacks are set through a pointer
    that was not initialised. *)
Fixpoint give_turnservers (a : nat) (l : list zapi_ice_server) : GM Z :=
  match l with
  | [] => mret 0
  | srv :: l =>
    uemit [EgEcall a (GeAddTurnserver srv)];;
    n ← gnext;
    if negb (ge_turnserver_ret n =? 0) then mret (ge_turnserver_ret n) else give_turnservers a l
  end.
Definition prepare_ecall (a : nat) : GM Z :=
  n ← gnext;
  if negb (eg_mem n) then mret ENOMEM
  else
    gmod (λ c, {| c with eg_media := eg_media c ++ [{| me_ecall := a; me_started := false |}] |});;
    c ← gget;
    uemit [EgEcall a (GeSetQualityInterval (u64 (eg_interval c)));
           EgEcall a (GeSetVideoSendState (eg_send_state c))];;
    give_turnservers a (eg_turnv c).
Definition add_ecall (userid clientid : string) : GM (Z * option nat) :=
  mem_ref;;
  c ← gget;
  match find_userclient c userid clientid with
  | Some old => destroy_ecall (Some (ge_addr old))
  | None => mret ()
  end;;
  n ← gnext;
  if negb (ge_alloc_ret n =? 0) then undef
  else
    c ← gget;
    let a := eg_naddr c in
    uemit [EgEcallAlloc a userid clientid];;
    gmod (λ c, {| c with eg_naddr := S a; eg_live := eg_live c ++
      [{| ge_addr := a; ge_userid := userid; ge_clientid := clientid; ge_linked := true;
          ge_part := None |}] |});;
    err ← prepare_ecall a;
    if negb (err =? 0) then destroy_ecall (Some a);; mret (err, None)
    else mret (0, Some a).

(** [ecall_end(ecall); ecall_remove(ecall);] *)
Definition end_and_unlink (a : nat) : GM () :=
  end_ecall a;;
  set_ecall a (λ e, {| e with ge_linked := false |}).

Definition is_young (msg : econn_message) : bool :=
  u32 (msg_age msg * 1000) <? EGCALL_SHOULD_RING_TIMEOUT.
Definition is_self (c : egcall) (userid : string) : bool :=
  strcaseeq (Some userid) (Some (eg_userid_self c)).

(** [recv_start]: a call that was not known. *)
Definition tell_started (userid clientid : string) (msg : econn_message) : GM () :=
  c ← gget;
  gwhen (eg_cb c CB_START)
    (let should_ring := econn_message_isrequest msg && is_young msg && negb (is_self c userid) in
     vsend ← (match msg_u msg with
              | u_groupstart (Some p) =>
                of_ptr (econn_props_get (eg_heap c) (Some p) (Some "videosend"))
              | _ => mret None
              end);
     let video := match vsend with Some v => String.eqb v "true" | None => false end in
     uemit [EgStarted (msg_time msg) userid clientid video should_ring];;
     gwhen should_ring
       (gmod (λ c, {| c with eg_call_timer := Some (RingTimeout, EGCALL_RING_TIMEOUT) |}))).
Definition announce (userid clientid : string) (msg : econn_message) : GM () :=
  set_state EGCALL_STATE_INCOMING;;
  tell_started userid clientid msg.

(** The client that announced itself is connected to. *)
Definition is_updating (st : econn_state) : bool :=
  bool_decide (st = ECONN_UPDATE_SENT ∨ st = ECONN_UPDATE_RECV).
Definition reset_updating (userid clientid : string) : GM (option nat) :=
  c ← gget;
  match find_userclient c userid clientid with
  | None => mret None
  | Some e =>
    n ← gnext;
    if is_updating (ge_state n) && String.eqb (ge_clientid e) clientid
    then end_and_unlink (ge_addr e);; mret None
    else mret (Some (ge_addr e))
  end.
Definition connect (userid clientid : string) : GM () :=
  e ← reset_updating userid clientid;
  r ← (match e with Some a => mret (0, Some a) | None => add_ecall userid clientid end);
  match r with
  | (err, None) => destroy_ecall None
  | (_, Some a) =>
    c ← gget;
    uemit [EgEcall a (GeStart (eg_call_type c) (eg_audio_cbr c) (eg_meeting c))];;
    n ← gnext;
    let err := if ge_start_ret n =? EALREADY then 0 else ge_start_ret n in
    if negb (err =? 0) then destroy_ecall (Some a)
    else
      c ← gget;
      gwhen (bool_decide (eg_state c = EGCALL_STATE_OUTGOING))
        (set_state EGCALL_STATE_ANSWERED;; gcall_cb CB_ANSWER EgAnswered)
  end.
Definition recv_start (userid clientid : string) (msg : econn_message) : GM () :=
  _ ← roster_add userid clientid;
  c ← gget;
  (gwhen (negb (bool_decide (eg_state c = EGCALL_STATE_IDLE)) || negb (econn_message_isrequest msg))
     (gmod (λ c, {| c with eg_is_call_answered := true |})));;
  match eg_state c with
  | EGCALL_STATE_IDLE => announce userid clientid msg
  | EGCALL_STATE_INCOMING =>
    gwhen (negb (econn_message_isrequest msg) && is_young msg && is_self c userid)
      (gcall_cb CB_LEAVE (EgLeft ICALL_REASON_STILL_ONGOING (msg_time msg)))
  | EGCALL_STATE_OUTGOING | EGCALL_STATE_ANSWERED | EGCALL_STATE_ACTIVE => connect userid clientid
  | EGCALL_STATE_TERMINATING | EGCALL_STATE_NONE => mret ()
  end.

(** [recv_leave] *)
Definition recv_leave (userid clientid : string) (msg : econn_message) : GM () :=
  roster_remove userid clientid;;
  c ← gget;
  match find_userclient c userid clientid with
  | Some e => end_and_unlink (ge_addr e)
  | None => mret ()
  end;;
  c ← gget;
  gwhen (bool_decide (eg_state c = EGCALL_STATE_INCOMING)
         && (dict_count (eg_roster c) =? 0)%nat)
    (set_state EGCALL_STATE_IDLE;;
     gcall_cb CB_CLOSE (EgClosed (if eg_is_call_answered c then 0 else ECANCELED) (msg_time msg)
                          (Some userid) (Some clientid))).

(** [recv_check] *)
Definition recv_check (userid clientid : string) (msg : econn_message) : GM () :=
  _ ← roster_add userid clientid;
  gmod (λ c, {| c with eg_is_call_answered := true |});;
  c ← gget;
  match eg_state c with
  | EGCALL_STATE_IDLE =>
    set_state EGCALL_STATE_INCOMING;;
    gcall_cb CB_START (EgStarted (msg_time msg) userid clientid false false)
  | EGCALL_STATE_ACTIVE => egcall_start_active_roster_timer
  | _ => gmod (λ c, {| c with eg_roster_timer := Some (PassiveTimeout, EGCALL_PASSIVE_ROSTER_TIMEOUT) |})
  end.

(** [recv_reject] *)
Definition recv_reject (userid : string) : GM () :=
  c ← gget;
  gwhen ((str_casecmp (Some (eg_userid_self c)) (Some userid) =? 0)
         && bool_decide (eg_state c = EGCALL_STATE_INCOMING))
    (gcall_cb CB_LEAVE (EgLeft ICALL_REASON_STILL_ONGOING ECONN_MESSAGE_TIME_UNKNOWN)).

(** A message for the [ecall] of its sender. *)
Definition takes_part (st : egcall_state) : bool :=
  bool_decide (st = EGCALL_STATE_OUTGOING ∨ st = EGCALL_STATE_ANSWERED ∨ st = EGCALL_STATE_ACTIVE).
Definition recv_ecall (userid clientid : string) (msg : econn_message) : GM () :=
  let type := if bool_decide (msg_type msg = ECONN_GROUP_SETUP) then ECONN_SETUP
              else msg_type msg in
  let msg := {| msg with msg_type := type |} in
  c ← gget;
  e ← (match find_userclient c userid clientid with
       | Some e => mret (Some (ge_addr e))
       | None =>
         if bool_decide (msg_type msg = ECONN_SETUP) && econn_message_isrequest msg
            && takes_part (eg_state c)
         then
           r ← add_ecall userid clientid;
           _ ← roster_add userid clientid;
           c ← gget;
           (gwhen (bool_decide (eg_state c = EGCALL_STATE_OUTGOING)) (set_state EGCALL_STATE_ANSWERED));;
           mret r.2
         else mret None
       end);
  match e with
  | Some a => uemit [EgEcall a (GeMsgRecv userid clientid msg)]
  | None => mret ()
  end.

(** [egcall_msg_recv] *)
Definition egcall_msg_recv (userid clientid : string) (msg : econn_message) : GM Z :=
  match msg_type msg with
  | ECONN_GROUP_START => recv_start userid clientid msg;; mret 0
  | ECONN_GROUP_LEAVE => recv_leave userid clientid msg;; mret 0
  | ECONN_GROUP_CHECK => recv_check userid clientid msg;; mret 0
  | ECONN_REJECT => recv_reject userid;; mret 0
  | _ =>
    c ← gget;
    if negb (str_isset (Some (dest_userid msg))) || negb (str_isset (Some (dest_clientid msg)))
    then mret EINVAL
    else
      (gwhen (strcaseeq (Some (dest_userid msg)) (Some (eg_userid_self c))
              && strcaseeq (Some (dest_clientid msg)) (Some (eg_clientid_self c)))
         (recv_ecall userid clientid msg));;
      mret 0
  end.

(** [egcall_alloc] *)
Definition egcall_init (cb : icall_cb → bool) (h : props_heap) (convid userid_self clientid : string)
    (roster : dict roster_item) : egcall := {|
  eg_cb := cb; eg_live := []; eg_media := []; eg_state := EGCALL_STATE_IDLE; eg_convid := convid;
  eg_userid_self := userid_self; eg_clientid_self := clientid;
  eg_call_type := ICALL_CALL_TYPE_NORMAL; eg_should_reject := false; eg_meeting := false;
  eg_roster := roster; eg_partl := []; eg_turnv := []; eg_is_call_answered := false;
  eg_call_timer := None; eg_roster_timer := None; eg_noconn_timer := None; eg_audio_cbr := false;
  eg_send_state := ICALL_VIDEO_STATE_STOPPED; eg_interval := 0; eg_heap := h; eg_refs := 1;
  eg_tick := 0; eg_naddr := 0 |}.
Definition egcall_alloc (mem dup : bool) (cb : icall_cb → bool) (h : props_heap)
    (convid : option string) (userid_self clientid : string) : Z + egcall :=
  match convid with
  | None => inl EINVAL
  | Some convid =>
    if negb mem then inl ENOMEM
    else match dict_alloc mem with
         | inl err => inl err
         | inr roster =>
           if negb dup then inl ENOMEM
           else inr (egcall_init cb h convid userid_self clientid roster)
         end
  end.

End Ops.
