(* ===== verification/EgcallSpec.v ===== *)
(** * The group call: operations and invariant

    Everything that can happen to a group call ([egcall_op], [egcall_exec]), the
    invariant of its memory ([core]: references, objects, roster and positions), and
    what the parts of an operation leave alone ([frame], [quiet]). *)

From stdpp Require Import gmap.
From S2P Require Import Prelude LibRe LibReJson Jzon EconnMsg EconnFmt Econn ConfPos Dict Icall AudioLevel UserList Ecall EcallMsg Egcall.

#[local] Open Scope string_scope.
#[local] Open Scope Z_scope.
#[local] Open Scope list_scope.

(** ** Operations *)

(** What happens to a group call: the application, messages (with the heap on which
    their properties are), the callbacks of an [ecall] and the timers.  [EgRelease]
    is the owner giving up its reference, [EgPartDropped] an [ecall] that gives up
    its position by itself when it restarts or closes. *)
Inductive egcall_op :=
| EgStart (call_type : icall_call_type) (audio_cbr meeting : bool)
| EgAnswer (call_type : icall_call_type) (audio_cbr : bool)
| EgEnd
| EgReject
| EgSetClients (clientl : list (option icall_client))
| EgAddTurnserver (srv : zapi_ice_server)
| EgMediaStart
| EgMediaStop
| EgSetVideoSendState (state : icall_vstate)
| EgSetQualityInterval (interval : Z)
| EgUpdateMuteState
| EgGetMembers
| EgRelease
| EgMsgRecv (h : props_heap) (userid clientid : string) (msg : econn_message)
| EgCallTimer
| EgRosterTimer
| EgNoconnTimer
| EgEcallSetup (ecall : nat) (userid clientid : string)
| EgEcallSetupResp (ecall : nat)
| EgEcallMediaEstab (ecall : nat) (userid clientid : option string) (update : bool)
| EgEcallAudioEstab (ecall : nat) (userid clientid : option string) (update : bool)
| EgEcallDatachanEstab (ecall : nat) (userid clientid : option string) (update : bool)
| EgEcallMediaStopped (ecall : nat)
| EgEcallVstate (ecall : nat) (userid clientid : option string) (state : icall_vstate)
| EgEcallMuted (ecall : nat) (userid clientid : option string) (muted : bool)
| EgEcallQuality (ecall : nat) (userid clientid : option string) (stats : stats_report)
    (peer : icall_conv_type)
| EgEcallNorelay (ecall : nat) (local : bool)
| EgEcallClose (ecall : nat) (err : Z) (metrics : option icall_metrics) (time : Z)
    (userid clientid : option string)
| EgEcallSend (ecall : nat) (userid : string) (msg : econn_message) (my_clients_only : bool)
| EgPartDropped (ecall : nat).

(** The [ecall] that calls back. *)
Definition op_ecall (o : egcall_op) : option nat :=
  match o with
  | EgEcallSetup a _ _ | EgEcallSetupResp a | EgEcallMediaEstab a _ _ _
  | EgEcallAudioEstab a _ _ _ | EgEcallDatachanEstab a _ _ _ | EgEcallMediaStopped a
  | EgEcallVstate a _ _ _ | EgEcallMuted a _ _ _ | EgEcallQuality a _ _ _ _
  | EgEcallNorelay a _ | EgEcallClose a _ _ _ _ _ | EgEcallSend a _ _ _ | EgPartDropped a => Some a
  | _ => None
  end.

Section Exec.
Context `{LibRe, LibReJson, EgEnv}.

Definition egcall_exec (o : egcall_op) : GM () :=
  match o with
  | EgStart ct cbr m => udone (egcall_start ct cbr m)
  | EgAnswer ct cbr => udone (egcall_answer ct cbr)
  | EgEnd => egcall_end
  | EgReject => egcall_reject
  | EgSetClients l => egcall_set_clients l
  | EgAddTurnserver srv => udone (egcall_add_turnserver srv)
  | EgMediaStart => udone egcall_media_start
  | EgMediaStop => egcall_media_stop
  | EgSetVideoSendState v => udone (egcall_set_video_send_state v)
  | EgSetQualityInterval i => udone (egcall_set_quality_interval i)
  | EgUpdateMuteState => udone egcall_update_mute_state
  | EgGetMembers => udone egcall_get_members
  | EgRelease => mem_deref
  | EgMsgRecv h u cl msg =>
    gmod (λ c, {| c with eg_heap := h |});; udone (egcall_msg_recv u cl msg)
  | EgCallTimer => fire_call_timer
  | EgRosterTimer => fire_roster_timer
  | EgNoconnTimer => fire_noconn_timer
  | EgEcallSetup _ u cl => ecall_setup_handler u cl
  | EgEcallSetupResp _ => ecall_setup_resp_handler
  | EgEcallMediaEstab a u cl b => ecall_media_estab_handler a u cl b
  | EgEcallAudioEstab a u cl b => ecall_audio_estab_handler a u cl b
  | EgEcallDatachanEstab a u cl b => ecall_datachan_estab_handler a u cl b
  | EgEcallMediaStopped a => ecall_media_stopped_handler a
  | EgEcallVstate a u cl v => ecall_vstate_handler a u cl v
  | EgEcallMuted a u cl m => ecall_muted_changed_handler a u cl m
  | EgEcallQuality _ u cl s p => ecall_quality_handler u cl s p
  | EgEcallNorelay a l => ecall_norelay_handler a l
  | EgEcallClose a err m t u cl => ecall_close_handler a err m t u cl
  | EgEcallSend _ u msg b => udone (ecall_transp_send_handler u msg b)
  | EgPartDropped a => drop_part a
  end.
End Exec.

(** ** The invariant *)

(** The users of the positions that are held. *)
Definition held (l : list group_ecall) : list string := omap ge_part l.

Section Core.
Context `{LibReSpec} `{!LibReJson}.

Definition same_client (e e' : group_ecall) : Prop :=
  ci_eq (Some (ge_userid e)) (Some (ge_userid e'))
  ∧ ci_eq (Some (ge_clientid e)) (Some (ge_clientid e')).

(** [k] references are held by the owner and by code that is running, and one by
    every [ecall]. *)
Record core (k : nat) (c : egcall) : Prop := {
  co_refs : eg_refs c = (k + length (eg_live c))%nat;
  co_alive : (0 < eg_refs c)%nat;
  co_addrs : NoDup (ge_addr <$> eg_live c);
  co_bound : Forall (λ e, ge_addr e < eg_naddr c)%nat (eg_live c);
  co_roster : dict_ok (eg_roster c);
  co_parts : cp_uid <$> eg_partl c ≡ₚ held (eg_live c);
  co_uniq : ∀ e e', e ∈ ecalll c → e' ∈ ecalll c → same_client e e' → ge_addr e = ge_addr e';
}.

(** What the parts of an operation leave alone: state and timers, the [ecall]s with
    their clients, references, callbacks and servers. *)
Definition ident (e : group_ecall) : nat * string * string * bool :=
  (ge_addr e, ge_userid e, ge_clientid e, ge_linked e).
Definition frame (c : egcall) :=
  (eg_state c, eg_call_timer c, eg_roster_timer c, ident <$> eg_live c, eg_refs c, eg_cb c,
   eg_turnv c).

(** How others and the application are told that it is no longer in the call. *)
Definition is_end (e : egcall_event) : bool :=
  match e with
  | EgLeft _ _ | EgClosed _ _ _ _ => true
  | EgSend _ msg _ _ => bool_decide (msg_type msg = ECONN_GROUP_LEAVE)
  | _ => false
  end.
Definition ends (es : list egcall_event) : list egcall_event := filter (λ e, is_end e = true) es.

Lemma ends_app es es' : ends (es ++ es') = ends es ++ ends es'.
Proof. apply filter_app. Qed.

Definition quiet {A} (k : nat) (m : GM A) (c : egcall) : Prop :=
  wp m (λ _ c' es, core k c' ∧ frame c' = frame c ∧ ends es = []) c.

Context `{EN : EgEnv}.

Lemma gget_eval k c : core k c → gget c = Some (c, c, []).
Proof.
  intros Hc. unfold gget, uget, mbind, MU_bind. pose proof (co_alive k c Hc).
  destruct (eg_refs c); [lia|]. done.
Qed.

Lemma wp_gget {A} k (f : egcall → GM A) Q c : core k c → wp (f c) Q c → wp (gget ≫= f) Q c.
Proof.
  intros Hc Hf. unfold wp, mbind, MU_bind. rewrite (gget_eval k c Hc).
  unfold wp in Hf. by destruct (f c c) as [[[? ?] ?]|].
Qed.

Lemma quiet_gget {A} k (f : egcall → GM A) c : core k c → quiet k (f c) c → quiet k (gget ≫= f) c.
Proof. intros Hc. by apply (wp_gget k). Qed.

Lemma gquiet_bind {A B} k (m : GM A) (f : A → GM B) c :
  quiet k m c → (∀ a c', core k c' → frame c' = frame c → quiet k (f a) c') → quiet k (m ≫= f) c.
Proof.
  intros Hm Hf. unfold quiet. apply wp_bind. eapply wp_mono; [exact Hm|].
  intros a c1 e1 (H1 & F1 & E1). eapply wp_mono; [exact (Hf a c1 H1 F1)|].
  intros b c2 e2 (H2 & F2 & E2). split; [done|]. split; [by rewrite F2|]. by rewrite ends_app, E1, E2.
Qed.

Lemma gquiet_ret {A} k (a : A) c : core k c → quiet k (mret a) c.
Proof. intros Hc. split; [done|]. split; done. Qed.

Lemma quiet_emit k es c : core k c → ends es = [] → quiet k (uemit es) c.
Proof. intros Hc He. split; [done|]. split; done. Qed.

Lemma quiet_gmod k f c : core k c → core k (f c) → frame (f c) = frame c → quiet k (gmod f) c.
Proof. intros Hc Hf Hr. unfold gmod. apply quiet_gget; [done|]. split; [done|]. split; done. Qed.

Lemma gquiet_when k b m c : core k c → (b = true → quiet k m c) → quiet k (gwhen b m) c.
Proof. unfold gwhen. destruct b; [auto|]. intros. by apply gquiet_ret. Qed.

Lemma quiet_done {A} k (m : GM A) c : quiet k m c → quiet k (udone m) c.
Proof. apply wp_udone. Qed.

(** Changes of fields that neither the invariant nor the frame mentions. *)
Lemma core_change k (f : egcall → egcall) c :
  core k c →
  eg_refs (f c) = eg_refs c → eg_live (f c) = eg_live c → eg_naddr (f c) = eg_naddr c →
  eg_roster (f c) = eg_roster c → eg_partl (f c) = eg_partl c → core k (f c).
Proof.
  intros [] E1 E2 E3 E4 E5. split; rewrite ?E1, ?E2, ?E3, ?E4, ?E5; try done.
  unfold ecalll in *. by rewrite E2.
Qed.

Lemma quiet_change k (f : egcall → egcall) c :
  core k c →
  eg_refs (f c) = eg_refs c → eg_live (f c) = eg_live c → eg_naddr (f c) = eg_naddr c →
  eg_roster (f c) = eg_roster c → eg_partl (f c) = eg_partl c → frame (f c) = frame c →
  quiet k (gmod f) c.
Proof. intros. apply quiet_gmod; [done| |done]. by apply core_change. Qed.

Lemma quiet_next k c : core k c → quiet k gnext c.
Proof.
  intros Hc. apply quiet_gget; [done|]. apply gquiet_bind; [|intros; by apply gquiet_ret].
  split; [|done]. by apply (core_change k (λ c, {| c with eg_tick := S (eg_tick c) |})).
Qed.

Lemma quiet_cb k cb e c : core k c → is_end e = false → quiet k (gcall_cb cb e) c.
Proof.
  intros Hc He. apply quiet_gget; [done|]. apply gquiet_when; [done|]. intros _.
  apply quiet_emit; [done|]. unfold ends. rewrite filter_cons, decide_False; [done|]. congruence.
Qed.

End Core.

(** One step of a quiet computation. *)
Ltac quiet_step :=
  lazymatch goal with
  | |- quiet _ (gget ≫= _) _ => apply quiet_gget; [done|]
  | |- quiet _ (_ ≫= _) _ => apply gquiet_bind; [|intros ? ? ? ?]
  | |- quiet _ (mret _) _ => apply gquiet_ret; [done]
  | |- quiet _ (gwhen _ _) _ => apply gquiet_when; [done|intros ?]
  | |- quiet _ gnext _ => apply quiet_next; [done]
  | |- quiet _ (gcall_cb _ _) _ => apply quiet_cb; [done|reflexivity]
  | |- quiet _ (uemit _) _ => apply quiet_emit; [done|]
  | |- quiet _ (udone _) _ => apply quiet_done
  | |- quiet _ (gmod _) _ =>
    apply quiet_change; [done|reflexivity..]
  | |- quiet _ (if ?b then _ else _) _ => destruct b eqn:?
  end; cbv zeta.
Ltac quiet_steps := repeat quiet_step.

Section Parts.
Context `{LibReSpec} `{!LibReJson} `{EN : EgEnv}.

Lemma ident_live (l l' : list group_ecall) :
  ident <$> l' = ident <$> l → ge_addr <$> l' = ge_addr <$> l.
Proof.
  intros E.
  assert (∀ l : list group_ecall, ge_addr <$> l = (λ i : nat * string * string * bool, i.1.1.1) <$> (ident <$> l)) as Hi.
  { intros l0. rewrite <- list_fmap_compose. done. }
  by rewrite !Hi, E.
Qed.
Lemma frame_ident c c' : frame c' = frame c → ident <$> eg_live c' = ident <$> eg_live c.
Proof. unfold frame. congruence. Qed.
Lemma frame_live c c' a :
  frame c' = frame c → a ∈ ge_addr <$> eg_live c → a ∈ ge_addr <$> eg_live c'.
Proof. intros E%frame_ident%ident_live. by rewrite E. Qed.
Lemma frame_state c c' : frame c' = frame c → eg_state c' = eg_state c.
Proof. unfold frame. congruence. Qed.
Lemma frame_refs c c' : frame c' = frame c → eg_refs c' = eg_refs c.
Proof. unfold frame. congruence. Qed.
Lemma ident_ecalll c c' :
  ident <$> eg_live c' = ident <$> eg_live c → ident <$> ecalll c' = ident <$> ecalll c.
Proof.
  unfold ecalll. generalize (eg_live c). induction (eg_live c') as [|e l IH];
    intros [|e' l'] E; [done..|]. cbn in E. injection E as E1 E2 E3 E4 E5. rewrite !filter_cons, E4.
  specialize (IH l' E5). case_decide; [|done]. cbn. f_equal; [|done]. unfold ident. congruence.
Qed.

Lemma find_live k c a :
  core k c → a ∈ ge_addr <$> eg_live c →
  ∃ e, List.find (λ e, ge_addr e =? a)%nat (eg_live c) = Some e ∧ e ∈ eg_live c ∧ ge_addr e = a.
Proof.
  intros Hc Ha. destruct (List.find _ _) as [e|] eqn:Hf.
  - apply find_Some_split in Hf as [E He]. apply Nat.eqb_eq in E. eauto.
  - apply list_elem_of_fmap in Ha as (e & -> & He). pose proof (find_None_all _ _ Hf e He) as E.
    cbn in E. by rewrite Nat.eqb_refl in E.
Qed.

Lemma quiet_get_ecall {A} k a (f : group_ecall → GM A) c :
  core k c → a ∈ ge_addr <$> eg_live c →
  (∀ e, e ∈ eg_live c → ge_addr e = a →
        List.find (λ e, ge_addr e =? a)%nat (eg_live c) = Some e → quiet k (f e) c) →
  quiet k (get_ecall a ≫= f) c.
Proof.
  intros Hc Ha Hf. destruct (find_live k c a Hc Ha) as (e & E & He & Ea).
  specialize (Hf e He Ea E). unfold quiet, wp, get_ecall, mbind, MU_bind in *.
  rewrite (gget_eval k c Hc), E. unfold of_ptr, mret, MU_ret. cbn.
  by destruct (f e c) as [[[? ?] ?]|].
Qed.

(** *** Media *)

Lemma media_stopped_quiet k a c : core k c → quiet k (ecall_media_stopped_handler a) c.
Proof. intros Hc. unfold ecall_media_stopped_handler, set_media_started. quiet_steps. Qed.
Lemma end_ecall_quiet k a c : core k c → quiet k (end_ecall a) c.
Proof.
  intros Hc. unfold end_ecall. quiet_steps; [done|]. by apply media_stopped_quiet.
Qed.

(** *** Positions *)

Lemma sort_uids l : cp_uid <$> conf_pos_sort l ≡ₚ cp_uid <$> l.
Proof.
  unfold conf_pos_sort. destruct l as [|p [|q l]]; [done|done|].
  rewrite list_sort_perm. rewrite <- list_fmap_compose. done.
Qed.

Lemma update_conf_pos_quiet k c : core k c → quiet k update_conf_pos c.
Proof.
  intros Hc. unfold update_conf_pos. apply gquiet_bind.
  - apply quiet_gmod; [done| |done]. destruct Hc. split; cbn; try done. by rewrite sort_uids.
  - intros ? c1 H1 F1. quiet_steps. done.
Qed.

Lemma remove_part_uids uid l :
  uid ∈ cp_uid <$> l → cp_uid <$> l ≡ₚ uid :: (cp_uid <$> remove_part uid l).
Proof.
  induction l as [|p l IH]; [by intros ?%elem_of_nil|]. cbn. destruct (String.eqb_spec (cp_uid p) uid) as [<-|Hne]; [done|].
  intros [->|Hin]%elem_of_cons; [done|]. rewrite (IH Hin) at 1. cbn. apply perm_swap.
Qed.

(** An [ecall] of the list is replaced. *)
Lemma update_split (l : list group_ecall) a e g :
  NoDup (ge_addr <$> l) → List.find (λ e, ge_addr e =? a)%nat l = Some e →
  ∃ l1 l2, l = l1 ++ e :: l2
    ∧ ((λ e, if (ge_addr e =? a)%nat then g e else e) <$> l) = l1 ++ g e :: l2.
Proof.
  induction l as [|x l IH]; [done|]. cbn. rewrite NoDup_cons. intros [Hx Hn].
  destruct (Nat.eqb_spec (ge_addr x) a) as [<-|Hne].
  - intros [= ->]. exists [], l. split; [done|]. cbn. f_equal.
    rewrite <- (list_fmap_id l) at 2. apply list_fmap_ext. intros i y Hy.
    destruct (Nat.eqb_spec (ge_addr y) (ge_addr e)) as [E|]; [|done].
    destruct Hx. rewrite <- E. apply list_elem_of_fmap_2. by eapply list_elem_of_lookup_2.
  - intros Hf. destruct (IH Hn Hf) as (l1 & l2 & -> & E). exists (x :: l1), l2.
    split; [done|]. cbn. by rewrite E.
Qed.

(** The invariant only depends on who is who and on the positions. *)
Lemma core_ident k c c' :
  core k c → ident <$> eg_live c' = ident <$> eg_live c →
  eg_refs c' = eg_refs c → eg_naddr c' = eg_naddr c → eg_roster c' = eg_roster c →
  cp_uid <$> eg_partl c' ≡ₚ held (eg_live c') → core k c'.
Proof.
  intros Hc El Er En Ero Hp. pose proof (ident_live _ _ El) as Ea.
  pose proof (f_equal length El) as Elen. rewrite !length_fmap in Elen.
  destruct Hc. split; try rewrite ?Er, ?Ero, ?En, ?Elen; try done.
  - by rewrite Ea.
  - apply Forall_forall. intros e He. rewrite Forall_forall in co_bound0.
    assert (ge_addr e ∈ ge_addr <$> eg_live c) as Hin by (rewrite <- Ea; by apply list_elem_of_fmap_2).
    apply list_elem_of_fmap in Hin as (e0 & -> & He0). by apply co_bound0.
  - intros e e' [L1 H1]%list_elem_of_filter [L2 H2]%list_elem_of_filter Hs.
    assert (∀ x, x ∈ eg_live c' → ∃ y, y ∈ eg_live c ∧ ident x = ident y) as Hx.
    { intros x Hx. apply (list_elem_of_fmap_2 ident) in Hx. rewrite El in Hx.
      apply list_elem_of_fmap in Hx as (y & ? & ?). eauto. }
    destruct (Hx e H1) as (y & Hy & E1). destruct (Hx e' H2) as (y' & Hy' & E2).
    unfold ident in E1, E2. injection E1 as A1 A2 A3 A4. injection E2 as B1 B2 B3 B4.
    rewrite A1, B1. apply co_uniq0.
    + apply list_elem_of_filter. split; [congruence|done].
    + apply list_elem_of_filter. split; [congruence|done].
    + unfold same_client in *. by rewrite <- A2, <- A3, <- B2, <- B3.
Qed.

Lemma gmod_eval f c : (0 < eg_refs c)%nat → gmod f c = Some ((), f c, []).
Proof.
  intros Hr. unfold gmod, gget, uget, mbind, MU_bind. destruct (eg_refs c); [lia|]. done.
Qed.

Lemma held_app l1 l2 : held (l1 ++ l2) = held l1 ++ held l2.
Proof. apply omap_app. Qed.

Lemma drop_part_quiet k a c :
  core k c → a ∈ ge_addr <$> eg_live c → quiet k (drop_part a) c.
Proof.
  intros Hc Ha. unfold drop_part. apply quiet_get_ecall; [done..|]. intros e He Ea Hf.
  destruct (ge_part e) as [uid|] eqn:Hp; [|quiet_steps].
  destruct (update_split _ a e (λ e, {| e with ge_part := None |}) (co_addrs k c Hc) Hf)
    as (l1 & l2 & E1 & E2).
  pose proof (co_alive k c Hc) as Hr.
  unfold quiet, wp, set_ecall, mbind, MU_bind. rewrite gmod_eval by done. rewrite gmod_eval by done.
  cbn [app]. assert (ident <$> (l1 ++ {| e with ge_part := None |} :: l2) = ident <$> eg_live c) as Hi.
  { rewrite E1, !fmap_app. done. }
  cbn [eg_live]. rewrite E2. split.
  - apply (core_ident k c); try done. cbn. pose proof (co_parts k c Hc) as Hpp.
    rewrite E1, held_app in Hpp. cbn in Hpp. rewrite Hp in Hpp.
    rewrite held_app. cbn. assert (uid ∈ cp_uid <$> eg_partl c) as Hu.
    { rewrite Hpp. apply elem_of_app. right. by left. }
    rewrite (remove_part_uids uid _ Hu), <- Permutation_middle in Hpp.
    by apply Permutation_cons_inv in Hpp.
  - split; [|done]. unfold frame. cbn. by rewrite Hi.
Qed.

(** *** The roster *)

Lemma quiet_roster k c d : core k c → dict_ok d → quiet k (gmod (λ c, {| c with eg_roster := d |})) c.
Proof. intros Hc Hd. apply quiet_gmod; [done| |done]. destruct Hc. by split. Qed.

(** Allocations succeed, and new [ecall]s can be set up. *)
Class EgEnvOk : Prop := ok_mem n : eg_mem n = true.
Class EgAddOk : Prop := {
  ok_alloc n : ge_alloc_ret n = 0;
  ok_turnserver n : ge_turnserver_ret n = 0;
}.
Context {EO : EgEnvOk}.

Lemma add_ok d key (ri : roster_item) :
  dict_ok d →
  let r := dict_add true d key ri in
  dict_ok r.2 ∧ negb (r.1 =? 0) && negb (r.1 =? EADDRINUSE) = false.
Proof.
  intros Hd. cbv zeta. destruct (dict_add_map true d key ri Hd) as [Hok Hr]. split; [done|].
  destruct (dict_map d !! key); [by rewrite Hr|]. destruct Hr as [-> _]. done.
Qed.

Lemma wp_gnext {A} k (f : nat → GM A) Q c :
  core k c →
  (∀ n c', core k c' → frame c' = frame c → wp (f n) Q c') → wp (gnext ≫= f) Q c.
Proof.
  intros Hc Hf. unfold gnext. apply wp_bind, (wp_gget k); [done|]. apply wp_bind, wp_modify, wp_ret.
  apply (Hf (eg_tick c)); [|done].
  by apply (core_change k (λ c, {| c with eg_tick := S (eg_tick c) |})).
Qed.

(** With the result: the item is in the roster. *)
Definition quiet_item (k : nat) (m : GM roster_ret) (c : egcall) : Prop :=
  wp m (λ r c' es, (∃ key, r = Item key) ∧ core k c' ∧ frame c' = frame c ∧ ends es = []) c.

Lemma roster_add_item k u cl c : core k c → quiet_item k (roster_add u cl) c.
Proof.
  intros Hc. unfold quiet_item, roster_add. apply (wp_gget k); [done|]. cbv zeta.
  destruct (dict_lookup _ _). { apply wp_ret. split; [eauto|]. done. }
  apply (wp_gnext k); [done|]. intros n1 c1 H1 F1. rewrite ok_mem. cbn [negb].
  apply (wp_gnext k); [done|]. intros n2 c2 H2 F2. rewrite ok_mem. cbn [negb].
  apply (wp_gnext k); [done|]. intros n3 c3 H3 F3. apply (wp_gget k); [done|]. rewrite ok_mem. cbv zeta.
  destruct (add_ok (eg_roster c3) (get_userclient u cl) (new_item u cl) (co_roster k c3 H3))
    as [Hok ->].
  apply wp_bind, wp_of_run with () {| c3 with eg_roster := (dict_add true (eg_roster c3)
    (get_userclient u cl) (new_item u cl)).2; eg_is_call_answered := false |} [].
  { apply gmod_eval, (co_alive k c3 H3). }
  set (c4 := {| c3 with eg_roster := _; eg_is_call_answered := _ |}).
  assert (core k c4) as H4 by (destruct H3; by split).
  apply wp_bind. eapply wp_mono; [by apply (quiet_cb k)|]. intros ? c5 e5 (H5 & F5 & E5).
  apply wp_ret. split; [eauto|]. split; [done|]. split.
  - by rewrite F5, <- F1, <- F2, <- F3.
  - by rewrite app_nil_r.
Qed.
Lemma roster_add_quiet k u cl c : core k c → quiet k (roster_add u cl) c.
Proof. intros Hc. eapply wp_mono; [by apply (roster_add_item k u cl)|]. by intros ? ? ? [_ ?]. Qed.

Lemma find_userclient_in c u cl e :
  find_userclient c u cl = Some e → e ∈ ecalll c ∧ ge_addr e ∈ ge_addr <$> eg_live c.
Proof.
  intros [_ He]%find_Some_split. split; [done|]. apply list_elem_of_filter in He as [_ He].
  by apply list_elem_of_fmap_2.
Qed.

Lemma roster_remove_quiet k u cl c : core k c → quiet k (roster_remove u cl) c.
Proof.
  intros Hc. unfold roster_remove. quiet_steps.
  - apply quiet_gmod; [done| |done]. destruct (dict_remove_map (eg_roster c) (get_userclient u cl)
      (co_roster k c Hc)) as [? _]. destruct Hc. by split.
  - destruct (find_userclient _ _ _) as [e|] eqn:He; [|quiet_steps].
    apply find_userclient_in in He as [_ He]. quiet_steps; [by apply drop_part_quiet|].
    by apply update_conf_pos_quiet.
Qed.

Lemma roster_alter_quiet k f key c :
  core k c → quiet k (gmod (λ c, {| c with eg_roster := dict_alter f key (eg_roster c) |})) c.
Proof.
  intros Hc. apply quiet_gmod; [done| |done].
  destruct (dict_alter_map f key (eg_roster c) (co_roster k c Hc)) as [? _]. destruct Hc. by split.
Qed.
Lemma roster_write_quiet k a f c :
  core k c → a ∈ ge_addr <$> eg_live c → quiet k (roster_write a f) c.
Proof.
  intros Hc Ha. unfold roster_write. apply quiet_get_ecall; [done..|]. intros.
  by apply roster_alter_quiet.
Qed.
Lemma flush_roster_quiet k c : core k c → quiet k flush_roster c.
Proof.
  intros Hc. apply quiet_gmod; [done| |done].
  destruct (dict_flush_map (eg_roster c) (co_roster k c Hc)) as [? _]. destruct Hc. by split.
Qed.

(** *** Messages *)

Lemma start_props_quiet k c : core k c → quiet k start_props c.
Proof.
  intros Hc. unfold start_props. quiet_step; [by apply quiet_next|]. quiet_step; [quiet_steps|].
  quiet_step. unfold econn_props_add.
  assert ((econn_props_alloc (eg_heap c') None).2 !! (econn_props_alloc (eg_heap c') None).1 = Some [])
    as -> by apply lookup_insert_eq.
  cbn [mbind option_bind of_ptr]. quiet_steps.
Qed.
Lemma send_msg_quiet k t r tr c :
  core k c → t ≠ ECONN_GROUP_LEAVE → quiet k (send_msg t r tr) c.
Proof.
  intros Hc Ht. unfold send_msg. quiet_step; [by apply quiet_next|]. quiet_step; [quiet_steps|].
  quiet_step. { quiet_steps. by apply start_props_quiet. }
  quiet_step. quiet_step; [|quiet_steps]. apply quiet_cb; [done|]. by apply bool_decide_eq_false.
Qed.

(** ** States and timers *)

Definition call_timer_of (st : egcall_state) : option call_tmr :=
  match st with
  | EGCALL_STATE_OUTGOING => Some StartTimeout
  | EGCALL_STATE_INCOMING => Some RingTimeout
  | EGCALL_STATE_ANSWERED => Some AnswerTimeout
  | _ => None
  end.

(** The call timer, if it runs, is that of the state; a call that rings or goes on
    elsewhere is forgotten after two minutes without a sign of life, an active one
    gives such a sign every 60 to 90 seconds; a call that is being ended waits for an
    [ecall]. *)
Record running (c : egcall) : Prop := {
  ru_call t d : eg_call_timer c = Some (t, d) → call_timer_of (eg_state c) = Some t;
  ru_incoming : eg_state c = EGCALL_STATE_INCOMING →
    eg_roster_timer c = Some (PassiveTimeout, EGCALL_PASSIVE_ROSTER_TIMEOUT);
  ru_active : eg_state c = EGCALL_STATE_ACTIVE →
    ∃ d, eg_roster_timer c = Some (ActiveTimeout, d) ∧ 60000 <= d < 90000;
  ru_term : eg_state c = EGCALL_STATE_TERMINATING → eg_live c ≠ [];
  ru_none : eg_state c ≠ EGCALL_STATE_NONE;
}.

Lemma running_frame c c' : running c → frame c' = frame c → running c'.
Proof.
  intros [] E. pose proof (frame_ident _ _ E) as Hi. unfold frame in E. injection E as E1 E2 E3 E4 E5 E6 E7.
  split; rewrite ?E1, ?E2, ?E3; try done. intros Ht Hl. rewrite Hl in Hi. cbn in Hi.
  apply (ru_term0 Ht). by destruct (eg_live c).
Qed.

(** What a change of state leaves alone. *)
Definition kept (c c' : egcall) : Prop :=
  ident <$> eg_live c' = ident <$> eg_live c ∧ eg_refs c' = eg_refs c ∧ eg_cb c' = eg_cb c.
Lemma kept_frame c c' : frame c' = frame c → kept c c'.
Proof. intros E. unfold frame in E. injection E as E1 E2 E3 E4 E5 E6 E7. done. Qed.
Lemma kept_trans c c1 c2 : kept c c1 → kept c1 c2 → kept c c2.
Proof. unfold kept. intros (? & ? & ?) (? & ? & ?). repeat split; by etrans. Qed.
Lemma kept_live c c' : kept c c' → eg_live c ≠ [] → eg_live c' ≠ [].
Proof. intros (E & _) Hl Hl'. rewrite Hl' in E. by destruct (eg_live c). Qed.

(** The state was changed to [st], and the timers are those of a new state. *)
Definition changed (k : nat) (st : egcall_state) (c c' : egcall) : Prop :=
  core k c' ∧ eg_state c' = st ∧ kept c c'
  ∧ ((st = EGCALL_STATE_TERMINATING → eg_live c ≠ []) → st ≠ EGCALL_STATE_NONE → running c').

Lemma active_timer_eval k c :
  core k c →
  wp egcall_start_active_roster_timer
    (λ _ c' es, core k c' ∧ es = [] ∧ kept c c' ∧ eg_state c' = eg_state c
       ∧ eg_call_timer c' = eg_call_timer c
       ∧ ∃ d, eg_roster_timer c' = Some (ActiveTimeout, d) ∧ 60000 <= d < 90000) c.
Proof.
  intros Hc. unfold egcall_start_active_roster_timer, gnext, wp, mbind, MU_bind.
  rewrite (gget_eval k c Hc). unfold umodify, mret, MU_ret. rewrite gmod_eval by apply (co_alive k c Hc).
  cbn [app]. split.
  - apply (core_change k (λ c', {| c with eg_tick := S (eg_tick c); eg_roster_timer := _ |}) c); done.
  - split; [done|]. split; [done|]. split; [done|]. split; [done|]. eexists. split; [done|].
    unfold EGCALL_ACTIVE_ROSTER_TIMEOUT, EGCALL_ACTIVE_ROSTER_RAND.
    pose proof (Z.mod_pos_bound (eg_rand (eg_tick c)) 30000). lia.
Qed.

Lemma set_state_changes k st c :
  core k c → wp (set_state st) (λ _ c' es, changed k st c c' ∧ es = []) c.
Proof.
  intros Hc. pose proof (co_alive k c Hc) as Hr. unfold set_state. apply wp_bind.
  eapply wp_of_run; [by apply gmod_eval|]. set (c1 := {| c with eg_state := st |}).
  assert (core k c1) as H1 by (by apply (core_change k (λ c, {| c with eg_state := st |}))).
  assert (∀ f, (∀ c, eg_refs (f c) = eg_refs c ∧ eg_live (f c) = eg_live c ∧ eg_naddr (f c) = eg_naddr c
            ∧ eg_roster (f c) = eg_roster c ∧ eg_partl (f c) = eg_partl c ∧ eg_cb (f c) = eg_cb c
            ∧ eg_state (f c) = eg_state c) → core k (f c1) ∧ kept c (f c1)) as Hf.
  { intros f Hf. destruct (Hf c1) as (E1 & E2 & E3 & E4 & E5 & E6 & E7). split.
    - by apply core_change.
    - unfold kept. by rewrite E1, E2, E6. }
  assert (∀ f, (∀ c, eg_refs (f c) = eg_refs c ∧ eg_live (f c) = eg_live c ∧ eg_naddr (f c) = eg_naddr c
            ∧ eg_roster (f c) = eg_roster c ∧ eg_partl (f c) = eg_partl c ∧ eg_cb (f c) = eg_cb c
            ∧ eg_state (f c) = eg_state c) →
    (∀ t d, eg_call_timer (f c1) = Some (t, d) → call_timer_of st = Some t) →
    takes_part st = true →
    wp (gmod f;; egcall_start_active_roster_timer)
      (λ _ c' es, changed k st c c' ∧ [] ++ es = []) c1) as Ha.
  { intros f Hff Ht Hst. destruct (Hf f Hff) as [Hcf Hkf]. apply wp_bind.
    eapply wp_of_run; [by apply gmod_eval|]. eapply wp_mono; [by apply (active_timer_eval k)|].
    intros [] c2 es (H2 & -> & K2 & S2 & T2 & d & R2 & Hd). destruct (Hff c1) as (_ & _ & _ & _ & _ & _ & Es).
    split; [|done]. split; [done|]. split; [by rewrite S2, Es|]. split; [by eapply kept_trans|].
    intros Hterm Hnone. split.
    - intros t d' E. rewrite S2, Es. cbn. apply (Ht t d'). by rewrite <- T2.
    - rewrite S2, Es. cbn. by intros ->.
    - intros _. eauto.
    - rewrite S2, Es. cbn. intros E. by subst st.
    - by rewrite S2, Es. }
  destruct st.
  all: try (apply Ha; [done| |done]; cbn; intros ? ? [= <- <-]; done).
  1,2,4: (eapply wp_of_run; [by apply gmod_eval|]; split; [|done];
    destruct (Hf (λ c, {| c with eg_call_timer := None; eg_roster_timer := None |})) as [H2 K2];
      [done|]; split; [done|]; split; [done|]; split; [done|]; intros Hterm Hnone;
    split; try done; cbn; intros _; by apply Hterm).
  - eapply wp_of_run; [by apply gmod_eval|]; split; [|done].
    destruct (Hf (λ c, {| c with eg_call_timer := None;
      eg_roster_timer := Some (PassiveTimeout, EGCALL_PASSIVE_ROSTER_TIMEOUT) |})) as [H2 K2]; [done|].
    split; [done|]. split; [done|]. split; [done|]. intros Hterm Hnone. by split.
Qed.
End Parts.
