(* ===== verification/EgcallSafe.v ===== *)
(** * Every operation of a group call is safe

    From a group call that satisfies its invariant ([core], [running]) no operation
    leads to undefined behaviour; it keeps the invariant, or gives up the last
    reference and leaves nothing behind. *)

From stdpp Require Import gmap.
From S2P Require Import Prelude LibRe LibReJson Jzon EconnMsg EconnFmt Econn ConfPos Dict Icall AudioLevel UserList Ecall EcallMsg EcallSpec EcallSafe Egcall EgcallSpec.

#[local] Open Scope string_scope.
#[local] Open Scope Z_scope.
#[local] Open Scope list_scope.

Section Stays.
Context `{LibReSpec} `{!LibReJson} `{EN : EgEnv}.

Definition good (k : nat) (c : egcall) : Prop := core k c ∧ running c.

(** Operations that leave the [ecall]s in place. *)
Definition stays {A} (k : nat) (m : GM A) (c : egcall) : Prop :=
  wp m (λ _ c' _, good k c' ∧ kept c c') c.

Lemma kept_refl c : kept c c.
Proof. done. Qed.

Lemma good_frame k c c' : core k c' → running c → frame c' = frame c → good k c'.
Proof. intros ? ? ?. split; [done|]. by eapply running_frame. Qed.

Lemma stays_quiet {A} k (m : GM A) c : running c → quiet k m c → stays k m c.
Proof.
  intros Hr Hm. eapply wp_mono; [exact Hm|]. intros a c' es (Hc & Hf & _).
  split; [by eapply good_frame|]. by apply kept_frame.
Qed.

Lemma stays_bind {A B} k (m : GM A) (f : A → GM B) c :
  stays k m c → (∀ a c', good k c' → kept c c' → stays k (f a) c') → stays k (m ≫= f) c.
Proof.
  intros Hm Hf. apply wp_bind. eapply wp_mono; [exact Hm|]. intros a c1 e1 [G1 K1].
  eapply wp_mono; [exact (Hf a c1 G1 K1)|]. intros b c2 e2 [G2 K2]. split; [done|].
  by eapply kept_trans.
Qed.

Lemma stays_gget {A} k (f : egcall → GM A) c : good k c → stays k (f c) c → stays k (gget ≫= f) c.
Proof. intros [Hc _]. by apply (wp_gget k). Qed.

Lemma stays_ret {A} k (a : A) c : good k c → stays k (mret a) c.
Proof. intros G. apply wp_ret. split; [done|]. apply kept_refl. Qed.

Lemma stays_when k b m c : good k c → (b = true → stays k m c) → stays k (gwhen b m) c.
Proof. unfold gwhen. destruct b; [auto|]. intros. by apply stays_ret. Qed.

Lemma stays_done {A} k (m : GM A) c : stays k m c → stays k (udone m) c.
Proof. apply wp_udone. Qed.

Lemma stays_emit k es c : good k c → stays k (uemit es) c.
Proof. intros G. apply wp_emit. split; [done|]. apply kept_refl. Qed.

Lemma stays_cb k cb e c : good k c → stays k (gcall_cb cb e) c.
Proof.
  intros G. apply stays_gget; [done|]. apply stays_when; [done|]. intros _. by apply stays_emit.
Qed.

Lemma stays_next k c : good k c → stays k gnext c.
Proof. intros [Hc Hr]. apply stays_quiet; [done|]. by apply quiet_next. Qed.

(** A change of fields that the invariant does not mention, or that keeps it. *)
Lemma stays_change k (f : egcall → egcall) c :
  good k c →
  eg_refs (f c) = eg_refs c → eg_live (f c) = eg_live c → eg_naddr (f c) = eg_naddr c →
  eg_roster (f c) = eg_roster c → eg_partl (f c) = eg_partl c → eg_cb (f c) = eg_cb c →
  running (f c) → stays k (gmod f) c.
Proof.
  intros [Hc Hr] ? El ? ? ? ? ?. eapply wp_of_run; [apply gmod_eval, (co_alive k c Hc)|].
  split; [split; [by apply core_change|done]|]. unfold kept. rewrite El. done.
Qed.

Lemma kept_addrs c c' a : kept c c' → a ∈ ge_addr <$> eg_live c → a ∈ ge_addr <$> eg_live c'.
Proof. intros [E%ident_live _]. by rewrite E. Qed.

End Stays.

(** One step of an operation. *)
Ltac stays_step :=
  lazymatch goal with
  | |- stays _ (gget ≫= _) _ => apply stays_gget; [done|]
  | |- stays _ (_ ≫= _) _ => apply stays_bind; [|intros ? ? ? ?]
  | |- stays _ (mret _) _ => apply stays_ret; [done]
  | |- stays _ (gwhen _ _) _ => apply stays_when; [done|intros ?]
  | |- stays _ gnext _ => apply stays_next; [done]
  | |- stays _ (gcall_cb _ _) _ => apply stays_cb; [done]
  | |- stays _ (uemit _) _ => apply stays_emit; [done]
  | |- stays _ (udone _) _ => apply stays_done
  | |- stays _ (gmod _) _ =>
    apply stays_change; [done|reflexivity..|
      match goal with G : good _ ?c |- running _ => apply (running_frame c); [apply G|reflexivity] end]
  | |- stays _ (if ?b then _ else _) _ => destruct b eqn:?
  | |- stays _ (match ?b with _ => _ end) _ => destruct b eqn:?
  end; cbv zeta.
Ltac stays_steps := repeat stays_step.
Ltac by_good := match goal with G : good _ ?c |- core _ ?c => exact (proj1 G) end.
(** A part that is quiet. *)
Ltac by_quiet :=
  match goal with G : good _ ?c |- stays _ _ ?c => apply stays_quiet; [apply G|] end.

Section Ops.
Context `{LibReSpec} `{!LibReJson} `{EN : EgEnv} {EO : EgEnvOk}.

Lemma set_state_stays k st c :
  good k c → (st = EGCALL_STATE_TERMINATING → eg_live c ≠ []) → st ≠ EGCALL_STATE_NONE →
  stays k (set_state st) c.
Proof.
  intros [Hc _] Ht Hn. eapply wp_mono; [by apply (set_state_changes k)|].
  intros [] c' es [(H1 & H2 & H3 & H4) _]. split; [split; [done|]|done]. by apply H4.
Qed.

Lemma end_ecalls_quiet k l : ∀ c, core k c → quiet k (end_ecalls l) c.
Proof.
  induction l as [|e l IH]; intros c Hc; cbn [end_ecalls]; quiet_steps.
  - by apply end_ecall_quiet.
  - by apply IH.
Qed.

(** *** Leaving *)

Definition plain_msg (type : econn_msg) (rsp tr : bool) (c : egcall) : egcall_event :=
  EgSend (eg_userid_self c) (group_msg type rsp tr u_zero) [] false.

Lemma send_plain_eval k type rsp tr c :
  core k c → type ≠ ECONN_GROUP_START → ∃ r, send_msg type rsp tr c
    = Some (r, {| c with eg_tick := S (S (eg_tick c)) |},
            if eg_cb c CB_SEND then [plain_msg type rsp tr c] else []).
Proof.
  intros Hc Ht. unfold send_msg, gnext, gcall_cb, gwhen, mbind, MU_bind.
  rewrite (gget_eval k c Hc). unfold umodify, mret, MU_ret. cbn [app]. rewrite ok_mem. cbn [negb].
  rewrite bool_decide_false by done.
  assert (core k {| c with eg_tick := S (eg_tick c) |}) as H1
    by (by apply (core_change k (λ c, {| c with eg_tick := S (eg_tick c) |}))).
  rewrite !(gget_eval k _ H1). cbn [eg_cb].
  destruct (eg_cb c CB_SEND); cbn [uemit app]; rewrite !(gget_eval k _ H1); eexists; done.
Qed.
Definition leave_msg : egcall → egcall_event := plain_msg ECONN_GROUP_LEAVE false false.
Definition check_msg : egcall → egcall_event := plain_msg ECONN_GROUP_CHECK true true.

(** The application is told that the call is over or that it is out of it. *)
Definition is_told (e : egcall_event) : Prop :=
  match e with EgLeft _ _ | EgClosed _ _ _ _ => True | _ => False end.
Definition left_call (c c' : egcall) (es : list egcall_event) : Prop :=
  (eg_state c' = EGCALL_STATE_IDLE ∧ dict_count (eg_roster c) = 0%nat
   ∨ eg_state c' = EGCALL_STATE_INCOMING ∧ dict_count (eg_roster c) ≠ 0%nat)
  ∧ ((∀ cb, eg_cb c cb = true) → ∃ e, ends es = [leave_msg c; e] ∧ is_told e).

Lemma wp_gcb k cb e (Q : () → egcall → list egcall_event → Prop) c :
  core k c → Q () c (if eg_cb c cb then [e] else []) → wp (gcall_cb cb e) Q c.
Proof.
  intros Hc HQ. apply (wp_gget k); [done|]. unfold gwhen. by destruct (eg_cb c cb).
Qed.

Lemma leave_state k st cb e c :
  core k c → st ≠ EGCALL_STATE_TERMINATING → st ≠ EGCALL_STATE_NONE →
  wp (set_state st;; gcall_cb cb e)
    (λ _ c' es, good k c' ∧ kept c c' ∧ eg_state c' = st
                ∧ es = if eg_cb c cb then [e] else []) c.
Proof.
  intros Hc Ht Hn. apply wp_bind. eapply wp_mono; [by apply (set_state_changes k)|].
  intros [] c' es [(H1 & H2 & H3 & H4) ->]. apply (wp_gcb k); [done|]. destruct H3 as (? & ? & Ecb).
  rewrite Ecb. split; [split; [done|by apply H4]|]. done.
Qed.

Lemma send_leave_left k time c :
  core k c →
  wp (send_leave time) (λ _ c' es, good k c' ∧ kept c c' ∧ left_call c c' es) c.
Proof.
  intros Hc. unfold send_leave. destruct (send_plain_eval k ECONN_GROUP_LEAVE false false c Hc) as [r Er]; [done|].
  apply wp_bind. eapply wp_of_run; [exact Er|].
  assert (core k {| c with eg_tick := S (S (eg_tick c)) |}) as H1
    by (by apply (core_change k (λ c, {| c with eg_tick := S (S (eg_tick c)) |}))).
  apply (wp_gget k); [done|]. cbn [eg_roster].
  destruct (Nat.eqb_spec (dict_count (eg_roster c)) 0) as [Hn|Hn].
  all: eapply wp_mono; [by apply (leave_state k)|]; cbn [eg_cb];
    intros [] c2 es (G & K & S & ->); split; [done|]; split; [done|]; split;
    [by auto|]; intros Hcb; rewrite !Hcb, ends_app; by eexists.
Qed.

Lemma send_leave_stays k time c : good k c → stays k (send_leave time) c.
Proof.
  intros [Hc _]. eapply wp_mono; [by apply (send_leave_left k)|]. by intros [] c' es (? & ? & _).
Qed.

Lemma end_with_err_stays k c : good k c → stays k egcall_end_with_err c.
Proof.
  intros G. unfold egcall_end_with_err. stays_step.
  assert (stays k (if (0 <? length (ecalll c))%nat
                   then set_state EGCALL_STATE_TERMINATING;; end_ecalls (ecalll c)
                   else send_leave ECONN_MESSAGE_TIME_UNKNOWN) c).
  { destruct (Nat.ltb_spec 0 (length (ecalll c))) as [Hl|Hl]; [|by apply send_leave_stays].
    stays_step.
    - apply set_state_stays; [done| |done]. intros _ E. unfold ecalll in Hl.
      rewrite E in Hl. cbn in Hl. lia.
    - by_quiet. apply end_ecalls_quiet. by_good. }
  destruct (eg_state c); first [assumption|by stays_steps].
Qed.

(** *** Timers *)

Lemma running_no_call c : running c → running {| c with eg_call_timer := None |}.
Proof. intros []. by split. Qed.

Lemma stop_call_timer_stays k c : good k c → stays k (gmod (λ c, {| c with eg_call_timer := None |})) c.
Proof. intros G. apply stays_change; try done. apply running_no_call, G. Qed.

Lemma start_timeout_stays k c : good k c → stays k egcall_start_timeout c.
Proof.
  intros G. unfold egcall_start_timeout. stays_steps.
  - by_quiet. apply flush_roster_quiet. by_good.
  - by apply end_with_err_stays.
Qed.

Lemma call_timer_stays k c : good k c → stays k fire_call_timer c.
Proof.
  intros G. unfold fire_call_timer. stays_steps; try by apply start_timeout_stays.
  - by apply stop_call_timer_stays.
  - unfold egcall_ring_timeout. stays_steps.
Qed.

(** The timer of an active call is restarted. *)
Lemma active_timer_stays k c :
  core k c → eg_state c = EGCALL_STATE_ACTIVE → eg_call_timer c = None →
  wp egcall_start_active_roster_timer (λ _ c' es, good k c' ∧ kept c c' ∧ es = []) c.
Proof.
  intros Hc Hs Ht. eapply wp_mono; [by apply (active_timer_eval k)|].
  intros [] c' es (H1 & -> & K & S & T & d & R & Hd). split; [|done]. split; [done|].
  rewrite Hs in S. rewrite Ht in T. split; rewrite ?S, ?T; try done. eauto.
Qed.
Lemma running_active c : running c → eg_state c = EGCALL_STATE_ACTIVE → eg_call_timer c = None.
Proof.
  intros Hr Hs. destruct (eg_call_timer c) as [[t d]|] eqn:E; [|done].
  pose proof (ru_call c Hr t d E) as Ht. by rewrite Hs in Ht.
Qed.


Lemma core_tick k c t : core k c → core k {| c with eg_tick := t |}.
Proof. intros Hc. by apply (core_change k (λ c, {| c with eg_tick := t |})). Qed.
Lemma core_no_roster k c : core k c → core k {| c with eg_roster_timer := None |}.
Proof. intros Hc. by apply (core_change k (λ c, {| c with eg_roster_timer := None |})). Qed.

(** What the expiry of the roster timer does. *)
Lemma active_expires k c d :
  good k c → eg_state c = EGCALL_STATE_ACTIVE → eg_roster_timer c = Some (ActiveTimeout, d) →
  wp fire_roster_timer
    (λ _ c' es, good k c' ∧ kept c c' ∧ eg_state c' = EGCALL_STATE_ACTIVE
                ∧ es = if eg_cb c CB_SEND then [check_msg c] else []) c.
Proof.
  intros G Hs Ht. pose proof (running_active c (proj2 G) Hs) as Hct. unfold fire_roster_timer.
  apply (wp_gget k); [by_good|]. rewrite Ht.
  apply wp_bind. eapply wp_of_run; [apply gmod_eval, (co_alive k c), G|].
  pose proof (core_no_roster k c (proj1 G)) as H1. unfold egcall_active_roster_timeout.
  apply (wp_gget k); [done|]. cbn [eg_state]. rewrite bool_decide_true by done. cbn [gwhen].
  destruct (send_plain_eval k ECONN_GROUP_CHECK true true _ H1) as [r Er]; [done|].
  apply wp_bind. eapply wp_of_run; [exact Er|]. cbn [eg_cb].
  eapply wp_mono; [apply (active_timer_eval k)|].
  { exact (core_tick k _ _ H1). }
  intros [] c' es (H2 & -> & K & S & T & d' & R & Hd). cbn in K, S, T.
  rewrite Hs in S. rewrite Hct in T. rewrite app_nil_r. split; [|done].
  split; [done|]. split; rewrite ?S, ?T; try done. eauto.
Qed.

Lemma passive_expires k c d :
  good k c → eg_roster_timer c = Some (PassiveTimeout, d) →
  wp fire_roster_timer
    (λ _ c' es, good k c' ∧ kept c c' ∧ eg_state c' = EGCALL_STATE_IDLE
                ∧ es = if eg_cb c CB_CLOSE then [EgClosed 0 ECONN_MESSAGE_TIME_UNKNOWN None None] else []) c.
Proof.
  intros G Ht. unfold fire_roster_timer. apply (wp_gget k); [by_good|]. rewrite Ht.
  apply wp_bind. eapply wp_of_run; [apply gmod_eval, (co_alive k c), G|].
  pose proof (core_no_roster k c (proj1 G)) as H1. unfold egcall_passive_roster_timeout.
  apply wp_bind. eapply wp_of_run; [apply gmod_eval, (co_alive k _ H1)|]. cbn beta.
  eapply wp_mono; [apply (leave_state k)|]; [|done|done|].
  { destruct H1. split; cbn; try done. by apply (dict_flush_map (eg_roster c)). }
  intros [] c3 e3 (G3 & K3 & S3 & ->). by split.
Qed.

Lemma roster_timer_stays k c : good k c → stays k fire_roster_timer c.
Proof.
  intros G. destruct (eg_roster_timer c) as [[[] d]|] eqn:Ht.
  - destruct (decide (eg_state c = EGCALL_STATE_ACTIVE)) as [Hs|Hs].
    + eapply wp_mono; [by apply (active_expires k c d)|]. by intros [] c' es (? & ? & _).
    + unfold fire_roster_timer, egcall_active_roster_timeout. apply (wp_gget k); [by_good|]. rewrite Ht.
      apply wp_bind. eapply wp_of_run; [apply gmod_eval, (co_alive k c), G|].
      pose proof (core_no_roster k c (proj1 G)) as H1. apply (wp_gget k); [done|]. cbn [eg_state].
      rewrite bool_decide_false by done. apply wp_ret. split; [|done]. split; [done|].
      destruct G as [_ Hr]. pose proof (ru_incoming c Hr) as Hi. destruct Hr. split; try done.
      cbn. intros E. rewrite (Hi E) in Ht. done.
  - eapply wp_mono; [by apply (passive_expires k c d)|]. by intros [] c' es (? & ? & _).
  - unfold fire_roster_timer. apply (wp_gget k); [by_good|]. rewrite Ht. by apply stays_ret.
Qed.

Lemma noconn_timer_stays k c : good k c → stays k fire_noconn_timer c.
Proof. intros G. unfold fire_noconn_timer, noconn_handler. stays_steps. Qed.

(** *** The application *)

Lemma send_msg_stays k t r tr c :
  good k c → t ≠ ECONN_GROUP_LEAVE → stays k (send_msg t r tr) c.
Proof. intros G Ht. by_quiet. apply send_msg_quiet; [by_good|done]. Qed.

Lemma start_stays k ct cbr m c : good k c → stays k (egcall_start ct cbr m) c.
Proof.
  intros G. unfold egcall_start. stays_steps; first [by apply send_msg_stays|by apply set_state_stays].
Qed.
Lemma answer_stays k ct cbr c : good k c → stays k (egcall_answer ct cbr) c.
Proof.
  intros G. unfold egcall_answer. stays_steps; first [by apply send_msg_stays|by apply set_state_stays].
Qed.

Lemma media_stopped_stays k a c : good k c → stays k (ecall_media_stopped_handler a) c.
Proof. intros G. by_quiet. apply media_stopped_quiet. by_good. Qed.
Lemma media_start_stays k l : ∀ c err, good k c → stays k (media_start_loop l err) c.
Proof.
  induction l as [|e l IH]; intros c err G; cbn [media_start_loop]; unfold set_media_started; stays_steps.
  by apply IH.
Qed.
Lemma media_stop_stays k l : ∀ c, good k c → stays k (media_stop_loop l) c.
Proof.
  induction l as [|e l IH]; intros c G; cbn [media_stop_loop]; stays_steps; auto using media_stopped_stays.
Qed.
Lemma mute_stays k l : ∀ c err, good k c → stays k (mute_loop l err) c.
Proof.
  induction l as [|e l IH]; intros c err G; cbn [mute_loop]; stays_steps. by apply IH.
Qed.

Lemma set_clients_stays k l c : good k c → stays k (egcall_set_clients l) c.
Proof. intros G. unfold egcall_set_clients, send_reject. stays_steps. Qed.
Lemma reject_stays k c : good k c → stays k egcall_reject c.
Proof. intros G. unfold egcall_reject. stays_steps. Qed.
Lemma add_turnserver_stays k srv c : good k c → stays k (egcall_add_turnserver srv) c.
Proof.
  intros G. unfold egcall_add_turnserver. stays_steps. apply stays_change; try done.
  destruct G as [_ []]. by split.
Qed.
Lemma video_send_state_stays k v c : good k c → stays k (egcall_set_video_send_state v) c.
Proof. intros G. unfold egcall_set_video_send_state, for_ecalls. stays_steps. Qed.
Lemma quality_interval_stays k i c : good k c → stays k (egcall_set_quality_interval i) c.
Proof. intros G. unfold egcall_set_quality_interval, for_ecalls. stays_steps. Qed.
Lemma get_members_stays k c : good k c → stays k egcall_get_members c.
Proof. intros G. unfold egcall_get_members. stays_steps. Qed.

(** *** The callbacks of an [ecall] *)

Lemma setup_handler_stays k u cl c : good k c → stays k (ecall_setup_handler u cl) c.
Proof. intros G. unfold ecall_setup_handler. stays_steps. Qed.

Lemma stays_get_ecall {A} k a (f : group_ecall → GM A) c :
  good k c → a ∈ ge_addr <$> eg_live c →
  (∀ e, List.find (λ e, ge_addr e =? a)%nat (eg_live c) = Some e → stays k (f e) c) →
  stays k (get_ecall a ≫= f) c.
Proof.
  intros [Hc Hr] Ha Hf. destruct (find_live k c a Hc Ha) as (e & E & He & Ea).
  apply wp_bind. unfold get_ecall. apply (wp_gget k); [done|].
  eapply wp_of_ptr; [exact E|]. by apply Hf.
Qed.

Lemma roster_write_stays k a f c :
  good k c → a ∈ ge_addr <$> eg_live c → stays k (roster_write a f) c.
Proof. intros G Ha. by_quiet. apply roster_write_quiet; [by_good|done]. Qed.
Lemma vstate_stays k a u cl v c :
  good k c → a ∈ ge_addr <$> eg_live c → stays k (ecall_vstate_handler a u cl v) c.
Proof. intros G Ha. unfold ecall_vstate_handler. stays_steps. by apply roster_write_stays. Qed.
Lemma muted_stays k a u cl m c :
  good k c → a ∈ ge_addr <$> eg_live c → stays k (ecall_muted_changed_handler a u cl m) c.
Proof. intros G Ha. unfold ecall_muted_changed_handler. stays_steps. by apply roster_write_stays. Qed.
Lemma norelay_stays k a l c :
  good k c → a ∈ ge_addr <$> eg_live c → stays k (ecall_norelay_handler a l) c.
Proof.
  intros G Ha. unfold ecall_norelay_handler. stays_step. destruct l; [stays_steps|].
  apply stays_get_ecall; [done..|]. intros e _. stays_steps. by apply roster_write_stays.
Qed.
Lemma transp_send_stays k u msg b c : good k c → stays k (ecall_transp_send_handler u msg b) c.
Proof. intros G. unfold ecall_transp_send_handler. stays_steps. Qed.
Lemma drop_part_stays k a c :
  good k c → a ∈ ge_addr <$> eg_live c → stays k (drop_part a) c.
Proof. intros G Ha. by_quiet. apply drop_part_quiet; [by_good|done]. Qed.

Lemma roster_established_stays k a u cl b c :
  good k c → a ∈ ge_addr <$> eg_live c → stays k (roster_established a u cl b) c.
Proof.
  intros G Ha. unfold roster_established. apply stays_get_ecall; [done..|]. intros e _.
  apply wp_bind. eapply wp_mono; [apply (roster_add_item k); by_good|].
  intros r c1 e1 ([key ->] & H1 & F1 & _). pose proof (good_frame k c c1 H1 (proj2 G) F1) as G1.
  eapply wp_mono.
  - assert (stays k (gmod (λ c0, {| c0 with eg_roster := dict_alter
      (λ ri, {| ri with ri_audio_state := ICALL_AUDIO_STATE_ESTABLISHED |}) key (eg_roster c0) |});;
      gcall_cb CB_AUDIO_ESTAB (EgAudioEstab a u cl b);; gcall_cb CB_GROUP_CHANGED EgGroupChanged) c1) as Hs.
    { stays_step; [|stays_steps]. by_quiet. apply roster_alter_quiet. by_good. }
    exact Hs.
  - intros [] c2 e2 [G2 K2]. split; [done|]. eapply kept_trans; [|done]. by apply kept_frame.
Qed.

Lemma quiet_tick {A} k (f : nat → GM A) c :
  core k c → quiet k (f (eg_tick c)) {| c with eg_tick := S (eg_tick c) |} → quiet k (gnext ≫= f) c.
Proof.
  intros Hc Hf. unfold quiet, gnext. apply wp_bind, wp_bind, wp_of_run with c c []; [by apply (gget_eval k)|].
  apply wp_bind, wp_modify, wp_ret. exact Hf.
Qed.
Lemma quiet_bind_assoc {A B D} k (m : GM A) (f : A → GM B) (g : B → GM D) c :
  quiet k ((m ≫= f) ≫= g) c → quiet k (m ≫= λ a, f a ≫= g) c.
Proof.
  intros Hq. apply wp_bind. eapply wp_mono; [exact (wp_bind_inv _ _ _ _ (wp_bind_inv _ _ _ _ Hq))|].
  cbn. intros a c1 e1 Hf. apply wp_bind. eapply wp_mono; [exact Hf|]. cbn. intros b c2 e2 Hg.
  eapply wp_mono; [exact Hg|]. cbn. intros d c3 e3. by rewrite app_assoc.
Qed.

(** An [ecall] gets its position. *)
Lemma place_quiet k a uid e c :
  core k c → List.find (λ e, ge_addr e =? a)%nat (eg_live c) = Some e → ge_part e = None →
  quiet k (gmod (λ c', {| c' with eg_partl := eg_partl c ++ [{| cp_uid := uid; cp_pos := conf_pos_calc uid |}] |});;
           set_ecall a (λ e, {| e with ge_part := Some uid |})) c.
Proof.
  intros Hc Hf Hp. pose proof (co_alive k c Hc) as Hr.
  destruct (update_split _ a e (λ e, {| e with ge_part := Some uid |}) (co_addrs k c Hc) Hf)
    as (l1 & l2 & E1 & E2).
  unfold quiet, wp, set_ecall, mbind, MU_bind. rewrite gmod_eval by done. rewrite gmod_eval by done.
  cbn [app]. assert (ident <$> (l1 ++ {| e with ge_part := Some uid |} :: l2) = ident <$> eg_live c) as Hi.
  { rewrite E1, !fmap_app. done. }
  cbn [eg_live]. rewrite E2. split.
  - apply (core_ident k c); try done. cbn. pose proof (co_parts k c Hc) as Hpp.
    rewrite E1, held_app in Hpp. cbn in Hpp. rewrite Hp in Hpp.
    rewrite fmap_app, Hpp, held_app. cbn.
    by rewrite <- (Permutation_middle (held l1)), <- Permutation_cons_append.
  - split; [|done]. unfold frame. cbn. by rewrite Hi.
Qed.

Lemma place_ecall_stays k a u c :
  good k c → a ∈ ge_addr <$> eg_live c → stays k (place_ecall a u) c.
Proof.
  intros G Ha. unfold place_ecall. apply stays_get_ecall; [done..|]. intros e He.
  destruct (ge_part e) eqn:Hp; [by stays_steps|].
  by_quiet. destruct G as [Hc _]. apply quiet_tick; [done|].
  pose proof (core_tick k c (S (eg_tick c)) Hc) as H1.
  apply quiet_gget; [done|]. rewrite ok_mem. cbv zeta. unfold conf_part_add. cbn [negb].
  destruct u as [uid|]; [|by apply gquiet_ret]. cbn [fst snd Z.eqb gwhen].
  apply quiet_bind_assoc, gquiet_bind; [by apply (place_quiet k a uid e)|].
  intros. by apply update_conf_pos_quiet.
Qed.

Lemma audio_estab_stays k a u cl b c :
  good k c → a ∈ ge_addr <$> eg_live c → stays k (ecall_audio_estab_handler a u cl b) c.
Proof.
  intros G Ha. unfold ecall_audio_estab_handler. do 3 stays_step.
  - stays_step. by apply set_state_stays.
  - assert (a ∈ ge_addr <$> eg_live c'0) by (eapply kept_addrs; [done|]; by eapply kept_addrs).
    stays_step; [by apply roster_established_stays|]. apply place_ecall_stays; [done|].
    by eapply kept_addrs.
Qed.
End Ops.

(** ** The list of [ecall]s changes *)

Section Live.
Context `{LibReSpec} `{!LibReJson} `{EN : EgEnv} {EO : EgEnvOk} {EA : EgAddOk}.

(** State, timers and callbacks. *)
Definition mood (c : egcall) := (eg_state c, eg_call_timer c, eg_roster_timer c, eg_cb c).

Lemma mood_frame c c' : frame c' = frame c → mood c' = mood c.
Proof. unfold frame. intros E. injection E as E1 E2 E3 E4 E5 E6 E7. unfold mood. congruence. Qed.

Lemma running_mood c c' :
  running c → mood c' = mood c → (eg_state c = EGCALL_STATE_TERMINATING → eg_live c' ≠ []) →
  running c'.
Proof.
  intros [] E Hl. unfold mood in E. injection E as E1 E2 E3 E4.
  split; rewrite ?E1, ?E2, ?E3; try done.
Qed.

(** Everything was released. *)
Definition destroyed (c : egcall) : Prop :=
  eg_refs c = 0%nat ∧ eg_live c = [] ∧ eg_call_timer c = None ∧ eg_roster_timer c = None
  ∧ eg_noconn_timer c = None.
Definition over (k : nat) (c : egcall) : Prop := good k c ∨ k = 0%nat ∧ destroyed c.
Definition holds {A} (k : nat) (m : GM A) (c : egcall) : Prop := wp m (λ _ c' _, over k c') c.

Lemma holds_stays {A} k (m : GM A) c : stays k m c → holds k m c.
Proof. intros Hm. eapply wp_mono; [exact Hm|]. intros a c' es [G _]. by left. Qed.

(** An [ecall] leaves the list. *)
Lemma unlink_core k a c :
  core k c →
  core k {| c with eg_live :=
    (λ e, if (ge_addr e =? a)%nat then {| e with ge_linked := false |} else e) <$> eg_live c |}.
Proof.
  intros [Hrefs Hal Haddrs Hbound Hros Hparts Huniq]. set (g := λ e : group_ecall, _). 
  assert (∀ {B} (p : group_ecall → B), (∀ e, p {| e with ge_linked := false |} = p e) →
            p <$> (g <$> eg_live c) = p <$> eg_live c) as Hg.
  { intros B p Hp. rewrite <- list_fmap_compose. apply list_fmap_ext. intros i e _. unfold g. cbn.
    by destruct (ge_addr e =? a)%nat. }
  split; cbn; try done.
  - by rewrite length_fmap.
  - by rewrite Hg.
  - apply Forall_fmap. eapply Forall_impl; [exact Hbound|]. intros e He. unfold g. cbn.
    by destruct (ge_addr e =? a)%nat.
  - change (cp_uid <$> eg_partl c ≡ₚ held (g <$> eg_live c)).
    assert (held (g <$> eg_live c) = held (eg_live c)) as ->; [|done]. unfold held. clear -g.
    induction (eg_live c) as [|e l IH]; [done|]. cbn. unfold g at 1.
    destruct (ge_addr e =? a)%nat; cbn; by rewrite IH.
  - assert (∀ e, e ∈ filter (λ e, ge_linked e = true) (g <$> eg_live c) → e ∈ ecalll c) as Hsub.
    { intros e [Hl He]%list_elem_of_filter. apply list_elem_of_fmap in He as (e0 & -> & He).
      unfold g in *. destruct (ge_addr e0 =? a)%nat; [done|]. by apply list_elem_of_filter. }
    intros e e' ?%Hsub ?%Hsub. by apply Huniq.
Qed.

Lemma end_and_unlink_good k a c :
  good k c → wp (end_and_unlink a) (λ _ c' es, good k c' ∧ mood c' = mood c ∧ ends es = []) c.
Proof.
  intros [Hc Hr]. unfold end_and_unlink. apply wp_bind. eapply wp_mono; [by apply (end_ecall_quiet k)|].
  intros [] c1 e1 (H1 & F1 & E1). eapply wp_of_run; [apply gmod_eval, (co_alive k _ H1)|].
  pose proof (unlink_core k a c1 H1) as H2. split; [|split].
  - split; [done|]. apply (running_mood c1); [by eapply running_frame|done|].
    cbn. intros Hs Hl. apply fmap_nil_inv in Hl. pose proof (running_frame c c1 Hr F1) as Hr1.
    by apply (ru_term c1 Hr1 Hs).
  - by apply (mood_frame c c1).
  - by rewrite app_nil_r.
Qed.

(** *** References *)

(** What is left of a group call after a reference was given up. *)
Definition one_less (c : egcall) : egcall := {| c with eg_refs := pred (eg_refs c) |}.

Lemma deref_core k c :
  core (S k) c →
  wp mem_deref (λ _ c' es, eg_state c' = eg_state c ∧ ends es = [] ∧
    (core k c' ∧ c' = one_less c ∨ k = 0%nat ∧ eg_live c = [] ∧ destroyed c')) c.
Proof.
  intros Hc. pose proof (co_refs _ c Hc) as Hr. unfold mem_deref. apply (wp_gget (S k)); [done|].
  destruct (Nat.eqb_spec (eg_refs c) 1) as [H1|H1].
  - assert (eg_live c = []) as Hl by (apply length_zero_iff_nil; lia).
    assert (k = 0%nat) as -> by (rewrite Hl in Hr; cbn in Hr; lia).
    apply wp_bind, wp_emit, wp_modify. split; [done|]. split.
    + unfold ecalll. rewrite Hl. done.
    + right. split; [done|]. split; [done|]. split; [done|]. cbn. by rewrite Hl.
  - apply wp_modify. split; [done|]. split; [done|]. left. split; [|done].
    destruct Hc as [? ? ? ? ? ? ?]. split; cbn; try done; lia.
Qed.

Lemma one_less_running c : running c → running (one_less c).
Proof. intros Hr. apply (running_mood c); [done|done|]. apply (ru_term c Hr). Qed.

(** *** Destroying an [ecall] *)

Lemma filter_every {A} (P : A → Prop) `{∀ x, Decision (P x)} (l : list A) :
  (∀ x, x ∈ l → P x) → filter P l = l.
Proof.
  induction l as [|x l IH]; intros HP; [done|]. rewrite filter_cons, decide_True by (apply HP; by left).
  f_equal. apply IH. intros y Hy. apply HP. by right.
Qed.
Lemma filter_held (l : list group_ecall) a :
  Forall (λ e, ge_addr e = a → ge_part e = None) l →
  held (filter (λ e, ge_addr e ≠ a) l) = held l.
Proof.
  unfold held. induction 1 as [|e l He _ IH]; [done|]. rewrite filter_cons. case_decide as Ha; cbn.
  - by rewrite IH.
  - by rewrite He.
Qed.

Lemma remove_core k a c :
  core k c → a ∈ ge_addr <$> eg_live c →
  Forall (λ e, ge_addr e = a → ge_part e = None) (eg_live c) →
  core (S k) {| c with eg_live := filter (λ e, ge_addr e ≠ a) (eg_live c) |}.
Proof.
  intros [Hrefs Hal Haddrs Hbound Hros Hparts Huniq] Ha Hn. split; cbn; try done.
  - rewrite Hrefs. clear -Ha Haddrs. induction (eg_live c) as [|e l IH]; [by apply elem_of_nil in Ha|].
    cbn in Ha, Haddrs. apply NoDup_cons in Haddrs as [He Hnd]. rewrite filter_cons.
    case_decide as Hea; cbn.
    + apply elem_of_cons in Ha as [->|Ha]; [done|]. specialize (IH Hnd Ha). lia.
    + subst a. rewrite filter_every; [lia|]. intros x Hx E. destruct He. rewrite <- E.
      by apply list_elem_of_fmap_2.
  - eapply sublist_NoDup; [exact Haddrs|]. apply fmap_sublist, sublist_filter.
  - apply Forall_forall. intros e [_ He]%list_elem_of_filter. rewrite Forall_forall in Hbound.
    by apply Hbound.
  - rewrite Hparts. fold (held (filter (λ e, ge_addr e ≠ a) (eg_live c))). by rewrite filter_held.
  - intros e e' [Le [_ He]%list_elem_of_filter]%list_elem_of_filter [Le' [_ He']%list_elem_of_filter]%list_elem_of_filter.
    apply Huniq; by apply list_elem_of_filter.
Qed.

Lemma live_same k c e e' :
  core k c → e ∈ eg_live c → e' ∈ eg_live c → ge_addr e = ge_addr e' → e = e'.
Proof.
  intros Hc He He' E. apply list_elem_of_lookup in He as [i Hi]. apply list_elem_of_lookup in He' as [j Hj].
  assert (i = j) as ->.
  { apply (NoDup_lookup (ge_addr <$> eg_live c) i j (ge_addr e)); [apply (co_addrs k c Hc)| |].
    - rewrite list_lookup_fmap, Hi. done.
    - rewrite list_lookup_fmap, Hj, E. done. }
  congruence.
Qed.

Lemma drop_part_gone k a c :
  core k c → a ∈ ge_addr <$> eg_live c →
  wp (drop_part a) (λ _ c' _, Forall (λ e, ge_addr e = a → ge_part e = None) (eg_live c')) c.
Proof.
  intros Hc Ha. destruct (find_live k c a Hc Ha) as (e & E & He & Ea). unfold drop_part, get_ecall.
  apply wp_bind, (wp_gget k); [done|]. eapply wp_of_ptr; [exact E|].
  destruct (ge_part e) as [uid|] eqn:Hp.
  - apply wp_bind. eapply wp_of_run; [apply gmod_eval, (co_alive k c Hc)|].
    eapply wp_of_run; [apply gmod_eval, (co_alive k c Hc)|]. cbn. apply Forall_fmap, Forall_forall.
    intros x _. cbn. destruct (Nat.eqb_spec (ge_addr x) a); [done|]. by intros.
  - apply wp_ret, Forall_forall. intros x Hx Hxa. by rewrite (live_same k c x e Hc Hx He) by congruence.
Qed.

Lemma ident_filter (l l' : list group_ecall) a :
  ident <$> l' = ident <$> l →
  ident <$> filter (λ e, ge_addr e ≠ a) l' = ident <$> filter (λ e, ge_addr e ≠ a) l.
Proof.
  revert l. induction l' as [|e l' IH]; intros [|e' l] E; [done..|].
  cbn in E. injection E as E1 E2 E3 E4 E5. rewrite !filter_cons, E1.
  specialize (IH l E5). case_decide; [|done]. cbn. f_equal; [|done]. unfold ident. congruence.
Qed.

(** Before the reference of the [ecall] is given up. *)
Definition without (a : nat) (c c' : egcall) : Prop :=
  mood c' = mood c ∧ ident <$> eg_live c' = ident <$> filter (λ e, ge_addr e ≠ a) (eg_live c).

Definition release_ecall (a : nat) : GM () :=
  gmod (λ c, {| c with eg_media := filter (λ me, me_ecall me ≠ a) (eg_media c) |});;
  end_ecall a;;
  remove_ecall a.

Lemma release_without k a c :
  core k c → a ∈ ge_addr <$> eg_live c →
  wp (release_ecall a) (λ _ c' es, core (S k) c' ∧ without a c c' ∧ ends es = []) c.
Proof.
  intros Hc Ha. unfold release_ecall, remove_ecall.
  assert (quiet k (gmod (λ c, {| c with eg_media := filter (λ me, me_ecall me ≠ a) (eg_media c) |})) c)
    as Hq by (by apply quiet_change).
  apply wp_bind. eapply wp_mono; [exact Hq|]. intros [] c1 e1 (H1 & F1 & E1).
  apply wp_bind. eapply wp_mono; [by apply (end_ecall_quiet k)|]. intros [] c2 e2 (H2 & F2 & E2).
  assert (a ∈ ge_addr <$> eg_live c2) as Ha2 by (eapply frame_live; [done|]; by eapply frame_live).
  apply wp_bind. eapply wp_mono; [apply wp_and; [by apply (drop_part_quiet k)|by apply (drop_part_gone k)]|].
  intros [] c3 e3 [(H3 & F3 & E3) Hg]. apply wp_bind.
  eapply wp_of_run; [apply gmod_eval, (co_alive k _ H3)|]. apply wp_emit.
  assert (frame c3 = frame c) as F by (by rewrite F3, F2).
  split; [|split].
  - apply remove_core; [done| |done]. by eapply frame_live.
  - split; [by apply (mood_frame c c3)|]. by apply ident_filter, frame_ident.
  - cbn [app]. rewrite !ends_app, E1, E2, E3. done.
Qed.

Lemma destroy_over k a c :
  good k c → a ∈ ge_addr <$> eg_live c → eg_state c ≠ EGCALL_STATE_TERMINATING →
  holds k (destroy_ecall (Some a)) c.
Proof.
  intros [Hc Hr] Ha Hs. unfold destroy_ecall. apply (wp_gget k); [done|]. fold (release_ecall a).
  apply wp_bind. eapply wp_mono; [by apply (release_without k a)|]. intros [] c1 e1 (H1 & [M1 L1] & E1).
  eapply wp_mono; [by apply (deref_core k)|]. intros [] c2 e2 (_ & _ & [[H2 ->]|(-> & Hl & Hd)]).
  - left. split; [done|]. apply one_less_running, (running_mood c); [done..|]. by intros.
  - right. by split.
Qed.

(** *** Adding an [ecall] *)

Lemma turnservers_quiet k a l : ∀ c,
  core k c →
  wp (give_turnservers a l) (λ r c' es, r = 0 ∧ core k c' ∧ frame c' = frame c ∧ ends es = []) c.
Proof.
  induction l as [|srv l IH]; intros c Hc; cbn [give_turnservers]; [by apply wp_ret|].
  apply wp_bind, wp_emit, (wp_gnext k); [done|]. intros n c1 H1 F1. rewrite ok_turnserver. cbn [Z.eqb negb].
  eapply wp_mono; [by apply IH|]. intros r c2 es (-> & H2 & F2 & E2). split; [done|]. split; [done|].
  split; [by rewrite F2|]. by rewrite ends_app, E2.
Qed.

Lemma prepare_quiet k a c :
  core k c →
  wp (prepare_ecall a) (λ r c' es, r = 0 ∧ core k c' ∧ frame c' = frame c ∧ ends es = []) c.
Proof.
  intros Hc. unfold prepare_ecall. apply (wp_gnext k); [done|]. intros n c1 H1 F1. rewrite ok_mem.
  cbn [negb]. apply wp_bind. eapply wp_of_run; [apply gmod_eval, (co_alive k _ H1)|].
  set (c2 := {| c1 with eg_media := _ |}).
  assert (core k c2) as H2 by (by apply (core_change k (λ c, {| c with eg_media := eg_media c ++ _ |}))).
  apply (wp_gget k); [done|]. apply wp_bind, wp_emit.
  eapply wp_mono; [by apply turnservers_quiet|]. intros r c3 es (-> & H3 & F3 & E3).
  split; [done|]. split; [done|]. split; [by rewrite F3, <- F1|]. by rewrite !ends_app, E3.
Qed.

(** There is no other [ecall] for the client in the list. *)
Definition free (c : egcall) (u cl : string) : Prop :=
  ∀ e, e ∈ ecalll c → ci_eq (Some u) (Some (ge_userid e)) → ci_eq (Some cl) (Some (ge_clientid e)) →
       False.

Lemma find_free c u cl : find_userclient c u cl = None → free c u cl.
Proof.
  intros Hf e He Hu Hcl. pose proof (find_None_all _ _ Hf e He) as E. cbn in E.
  unfold ci_eq in *. by rewrite Hu, Hcl in E.
Qed.
Lemma find_same c u cl e :
  find_userclient c u cl = Some e →
  ci_eq (Some u) (Some (ge_userid e)) ∧ ci_eq (Some cl) (Some (ge_clientid e)).
Proof.
  intros [[E1 E2]%andb_prop _]%find_Some_split. apply Z.eqb_eq in E1, E2. done.
Qed.

Lemma without_free k c c' u cl e :
  core k c → find_userclient c u cl = Some e → without (ge_addr e) c c' → free c' u cl.
Proof.
  intros Hc Hf [_ Hl] x Hx Hu Hcl. pose proof (find_same c u cl e Hf) as [Hu' Hcl'].
  pose proof (find_userclient_in c u cl e Hf) as [He _]. apply list_elem_of_filter in Hx as [Lx Hx].
  apply (list_elem_of_fmap_2 ident) in Hx. rewrite Hl in Hx.
  apply list_elem_of_fmap in Hx as (y & Ey & [Hne Hy]%list_elem_of_filter).
  unfold ident in Ey. injection Ey as A1 A2 A3 A4. apply Hne, (co_uniq k c Hc); [|done|].
  - apply list_elem_of_filter. split; [congruence|done].
  - rewrite A2 in Hu. rewrite A3 in Hcl. split.
    + by rewrite <- Hu, Hu'.
    + by rewrite <- Hcl, Hcl'.
Qed.

Lemma append_core k c u cl :
  core (S k) c → free c u cl →
  core k {| c with eg_naddr := S (eg_naddr c); eg_live := eg_live c ++
      [{| ge_addr := eg_naddr c; ge_userid := u; ge_clientid := cl; ge_linked := true;
          ge_part := None |}] |}.
Proof.
  intros [Hrefs Hal Haddrs Hbound Hros Hparts Huniq] Hfree. split; cbn; try done.
  - rewrite length_app. cbn. lia.
  - rewrite fmap_app. apply NoDup_app. split; [done|]. split; [|apply NoDup_singleton].
    intros x Hx ->%list_elem_of_singleton. apply list_elem_of_fmap in Hx as (e & E & He).
    rewrite Forall_forall in Hbound. specialize (Hbound e He). cbn in E. lia.
  - apply Forall_app. split; [|apply Forall_singleton; cbn; lia].
    eapply Forall_impl; [exact Hbound|]. cbn. lia.
  - change (cp_uid <$> eg_partl c ≡ₚ held (eg_live c ++ [{| ge_addr := eg_naddr c; ge_userid := u;
      ge_clientid := cl; ge_linked := true; ge_part := None |}])).
    rewrite held_app. cbn. by rewrite app_nil_r.
  - unfold ecalll. cbn. rewrite filter_app. set (new := {| ge_addr := _ |}).
    change (filter (λ e, ge_linked e = true) [new]) with [new].
    intros e e' [He|He]%elem_of_app [He'|He']%elem_of_app [Hu Hcl].
    + by apply Huniq.
    + apply list_elem_of_singleton in He' as ->. exfalso. apply (Hfree e); [done| |]; by symmetry.
    + apply list_elem_of_singleton in He as ->. exfalso. by apply (Hfree e').
    + apply list_elem_of_singleton in He as ->. by apply list_elem_of_singleton in He' as ->.
Qed.
End Live.
