(* ===== verification/EgcallProps.v ===== *)
(** * What a group call promises

    Messages and closing [ecall]s, every operation ([exec_holds]), and the theorems
    on group calls: no sequence of operations is undefined, calls are kept alive and
    forgotten, a call that is left is left once, and two ways in which a call is
    lost. *)

From stdpp Require Import gmap.
From S2P Require Import Prelude LibRe LibReJson Jzon EconnMsg EconnFmt Econn ConfPos Dict Icall AudioLevel UserList Ecall EcallMsg EcallSpec EcallSafe Egcall EgcallSpec EgcallSafe.

#[local] Open Scope string_scope.
#[local] Open Scope Z_scope.
#[local] Open Scope list_scope.

Section Messages.
Context `{LR : LibReSpec, LJ : LibReJson, LJS : !LibReJsonSpec} `{EN : EgEnv} {EO : EgEnvOk} {EA : EgAddOk}.

Lemma ref_core k c : core k c → core (S k) {| c with eg_refs := S (eg_refs c) |}.
Proof. intros [? ? ? ? ? ? ?]. split; cbn; try done; lia. Qed.

(** An [ecall] for a client that is not in the list any more. *)
Lemma fresh_ecall k c u cl :
  core (S k) c → free c u cl →
  wp (n ← gnext;
      if negb (ge_alloc_ret n =? 0) then undef
      else
        c ← gget;
        let a := eg_naddr c in
        uemit [EgEcallAlloc a u cl];;
        gmod (λ c, {| c with eg_naddr := S a; eg_live := eg_live c ++
          [{| ge_addr := a; ge_userid := u; ge_clientid := cl; ge_linked := true;
              ge_part := None |}] |});;
        err ← prepare_ecall a;
        if negb (err =? 0) then destroy_ecall (Some a);; mret (err, None)
        else mret (0, Some a))
    (λ r c' es, ∃ a, r = (0, Some a) ∧ core k c' ∧ mood c' = mood c
       ∧ a ∈ ge_addr <$> eg_live c' ∧ ends es = []) c.
Proof.
  intros Hc Hfree. apply wp_bind. unfold gnext. apply (wp_gget (S k)); [done|].
  apply wp_bind, wp_modify, wp_ret. rewrite ok_alloc. cbn [Z.eqb negb].
  set (c1 := {| c with eg_tick := _ |}). pose proof (core_tick _ c (S (eg_tick c)) Hc) as H1.
  apply (wp_gget (S k)); [done|]. apply wp_bind, wp_emit, wp_bind.
  eapply wp_of_run; [apply gmod_eval, (co_alive _ _ H1)|].
  pose proof (append_core k c1 u cl H1 Hfree) as H2. apply wp_bind.
  eapply wp_mono; [by apply (prepare_quiet k)|]. intros r c3 es (-> & H3 & F3 & E3).
  apply wp_ret. exists (eg_naddr c). split; [done|]. split; [done|]. split; [by rewrite (mood_frame _ _ F3)|].
  split; [|by rewrite !ends_app, E3]. eapply frame_live; [exact F3|]. cbn. rewrite fmap_app.
  apply elem_of_app. right. by left.
Qed.

Lemma add_ecall_good k u cl c :
  good k c →
  wp (add_ecall u cl) (λ r c' _, ∃ a, r = (0, Some a) ∧ good k c' ∧ mood c' = mood c
                                 ∧ a ∈ ge_addr <$> eg_live c') c.
Proof.
  intros [Hc Hr]. unfold add_ecall, mem_ref. apply wp_bind.
  eapply wp_of_run; [apply gmod_eval, (co_alive _ _ Hc)|].
  pose proof (ref_core k c Hc) as H1. set (c1 := {| c with eg_refs := _ |}) in *.
  apply (wp_gget (S k)); [done|]. apply wp_bind.
  apply wp_mono with (λ _ c' _, core (S k) c' ∧ mood c' = mood c ∧ free c' u cl).
  { destruct (find_userclient c1 u cl) as [old|] eqn:Hf; [|by apply wp_ret; split; [|split; [|apply find_free]]].
    unfold destroy_ecall. apply (wp_gget (S k)); [done|]. fold (release_ecall (ge_addr old)).
    pose proof (find_userclient_in _ _ _ _ Hf) as [_ Hold]. apply wp_bind.
    eapply wp_mono; [by apply (release_without (S k))|]. intros [] c2 e2 (H2 & W2 & E2).
    eapply wp_mono; [by apply (deref_core (S k))|]. intros [] c3 e3 (_ & _ & [[H3 ->]|(? & ? & ?)]); [|done].
    split; [done|]. split; [apply W2|]. apply (without_free (S k) c1 c2 u cl old H1 Hf W2). }
  intros [] c2 e2 (H2 & M2 & F2). eapply wp_mono; [by apply fresh_ecall|].
  intros r c3 e3 (a & -> & H3 & M3 & Ha & _). exists a. split; [done|]. split; [|split; [by rewrite M3|done]].
  split; [done|]. apply (running_mood c); [done|by rewrite M3|]. intros _ E. rewrite E in Ha.
  by apply elem_of_nil in Ha.
Qed.

Lemma holds_bind {A B} k (m : GM A) (f : A → GM B) (Q : A → egcall → Prop) c :
  wp m (λ a c' _, Q a c') c → (∀ a c', Q a c' → holds k (f a) c') → holds k (m ≫= f) c.
Proof.
  intros Hm Hf. apply wp_bind. eapply wp_mono; [exact Hm|]. intros a c1 e1 HQ.
  eapply wp_mono; [exact (Hf a c1 HQ)|]. by intros.
Qed.
Lemma holds_after {A B} k (m : GM A) (f : A → GM B) c :
  stays k m c → (∀ a c', good k c' → kept c c' → holds k (f a) c') → holds k (m ≫= f) c.
Proof. intros Hm Hf. eapply holds_bind; [exact Hm|]. intros a c' [??]. by apply Hf. Qed.
Lemma holds_quiet {A B} k (m : GM A) (f : A → GM B) c :
  good k c → quiet k m c → (∀ a c', good k c' → frame c' = frame c → holds k (f a) c') →
  holds k (m ≫= f) c.
Proof.
  intros G Hm Hf. apply wp_bind. eapply wp_mono; [exact Hm|]. intros a c1 e1 (H1 & F1 & _).
  eapply wp_mono; [exact (Hf a c1 (good_frame k c c1 H1 (proj2 G) F1) F1)|]. by intros.
Qed.
Lemma holds_gget {A} k (f : egcall → GM A) c : good k c → holds k (f c) c → holds k (gget ≫= f) c.
Proof. intros [Hc _]. by apply (wp_gget k). Qed.
Lemma holds_done {A} k (m : GM A) c : holds k m c → holds k (udone m) c.
Proof. apply wp_udone. Qed.
Lemma holds_then k (m : GM ()) (r : Z) c : holds k m c → holds k (m;; mret r) c.
Proof. intros Hm. apply wp_bind. eapply wp_mono; [exact Hm|]. intros [] c' es Ho. by apply wp_ret. Qed.

Lemma mood_state c c' : mood c' = mood c → eg_state c' = eg_state c.
Proof. unfold mood. congruence. Qed.

Lemma reset_updating_good k u cl c :
  good k c →
  wp (reset_updating u cl) (λ r c' _, good k c' ∧ mood c' = mood c
    ∧ (∀ a, r = Some a → a ∈ ge_addr <$> eg_live c')) c.
Proof.
  intros G. unfold reset_updating. apply (wp_gget k); [by_good|].
  destruct (find_userclient c u cl) as [e|] eqn:Hf; [|by apply wp_ret].
  pose proof (find_userclient_in _ _ _ _ Hf) as [_ He]. apply (wp_gnext k); [by_good|].
  intros n c1 H1 F1. pose proof (good_frame k c c1 H1 (proj2 G) F1) as G1.
  destruct (is_updating (ge_state n) && String.eqb (ge_clientid e) cl).
  - apply wp_bind. eapply wp_mono; [by apply (end_and_unlink_good k)|]. intros [] c2 e2 (G2 & M2 & _).
    apply wp_ret. split; [done|]. split; [by rewrite M2; apply mood_frame|done].
  - apply wp_ret. split; [done|]. split; [by apply mood_frame|]. intros a [= <-]. by eapply frame_live.
Qed.

Lemma connect_holds k u cl c :
  good k c → eg_state c ≠ EGCALL_STATE_TERMINATING → holds k (connect u cl) c.
Proof.
  intros G Hs. unfold connect.
  eapply holds_bind; [by apply (reset_updating_good k)|]. intros r c1 (G1 & M1 & Hr). cbn.
  apply holds_bind with (λ r c', ∃ a, r = (0, Some a) ∧ good k c' ∧ mood c' = mood c
                                      ∧ a ∈ ge_addr <$> eg_live c').
  { destruct r as [a|]; [apply wp_ret; exists a; by auto|].
    eapply wp_mono; [by apply (add_ecall_good k)|]. intros r c2 es (a & -> & G2 & M2 & Ha).
    exists a. by rewrite M2. }
  intros _ c2 (a & -> & G2 & M2 & Ha). apply holds_gget; [done|].
  apply holds_quiet; [done|by apply quiet_emit, eq_refl; by_good|]. intros [] c3 G3 F3.
  apply holds_quiet; [done|by apply quiet_next; by_good|]. intros n c4 G4 F4. cbv zeta.
  assert (eg_state c4 ≠ EGCALL_STATE_TERMINATING) as Hs4.
  { by rewrite (frame_state _ _ F4), (frame_state _ _ F3), (mood_state _ _ M2). }
  destruct (negb _).
  - apply destroy_over; [done| |done]. eapply frame_live; [done|]. by eapply frame_live.
  - apply holds_stays. stays_steps. by apply set_state_stays.
Qed.

(** *** Messages *)

Lemma roster_add_stays k u cl c : good k c → stays k (roster_add u cl) c.
Proof. intros G. by_quiet. apply roster_add_quiet. by_good. Qed.
Lemma roster_remove_stays k u cl c : good k c → stays k (roster_remove u cl) c.
Proof. intros G. by_quiet. apply roster_remove_quiet. by_good. Qed.

Lemma roster_add_heap k u cl c :
  core k c →
  wp (roster_add u cl) (λ _ c' es, eg_heap c' = eg_heap c ∧ Forall (eq EgGroupChanged) es) c.
Proof.
  intros Hc. pose proof (co_alive k c Hc) as Hr. apply Nat.neq_0_lt_0, Nat.eqb_neq in Hr.
  unfold wp, roster_add, gnext, gcall_cb, gmod, gget, gwhen, uget, umodify, uemit, mbind, MU_bind,
    mret, MU_ret. rewrite !Hr.
  destruct (dict_lookup (eg_roster c) (get_userclient u cl)) as [|]; [done|]. cbn -[dict_add].
  do 4 (rewrite ?Hr, ?ok_mem; cbn -[dict_add]).
  destruct (negb _ && negb _); [done|]. do 3 (rewrite ?Hr; cbn -[dict_add]).
  destruct (eg_cb c CB_GROUP_CHANGED); by repeat constructor.
Qed.

Lemma ring_running c :
  running c → eg_state c = EGCALL_STATE_INCOMING →
  running {| c with eg_call_timer := Some (RingTimeout, EGCALL_RING_TIMEOUT) |}.
Proof.
  intros Hr Hs. pose proof (ru_incoming c Hr Hs). destruct Hr. split; try done.
  intros t d [= <- _]. cbn. by rewrite Hs.
Qed.

Lemma tell_started_stays k u cl msg c :
  good k c → eg_state c = EGCALL_STATE_INCOMING → msg_ok (eg_heap c) msg →
  stays k (tell_started u cl msg) c.
Proof.
  intros G Hs [_ Hp]. unfold tell_started. stays_step. stays_step. cbv zeta. apply wp_bind.
  eapply wp_mono.
  - assert (wp (E := egcall_event) (match msg_u msg with
            | u_groupstart (Some p) => of_ptr (econn_props_get (eg_heap c) (Some p) (Some "videosend"))
            | _ => mret None
            end) (λ _ c' es, c' = c ∧ es = []) c) as Hv.
    { destruct (msg_u msg); try by apply wp_ret. destruct props as [p|]; [|by apply wp_ret].
      destruct (props_get_defined (eg_heap c) (Some p) (Some "videosend") Hp) as [v Ev].
      by eapply wp_of_ptr. }
    exact Hv.
  - intros v c' es [-> ->]. cbn.
    assert (∀ e b, stays k (uemit [e];; gwhen b
      (gmod (λ c, {| c with eg_call_timer := Some (RingTimeout, EGCALL_RING_TIMEOUT) |}))) c) as Hb.
    { intros e b. apply wp_bind, wp_emit. destruct b; [|by apply wp_ret].
      eapply wp_of_run; [apply gmod_eval, (co_alive k c), G|]. split; [|done]. split.
      - apply (core_change k (λ c, {| c with eg_call_timer := _ |})); try done. by_good.
      - apply ring_running; [apply G|done]. }
    apply Hb.
Qed.

Lemma announce_stays k u cl msg c :
  good k c → msg_ok (eg_heap c) msg → stays k (announce u cl msg) c.
Proof.
  intros [Hc Hr] Hm. unfold announce. apply wp_bind.
  apply wp_mono with (λ _ c' _, good k c' ∧ kept c c' ∧ eg_state c' = EGCALL_STATE_INCOMING
                                ∧ eg_heap c' = eg_heap c).
  { unfold set_state. apply wp_bind. eapply wp_of_run; [apply gmod_eval, (co_alive k c Hc)|].
    eapply wp_of_run; [apply gmod_eval, (co_alive k c Hc)|]. split; [|done]. split; [|by split].
    by apply (core_change k (λ c, {| c with eg_state := EGCALL_STATE_INCOMING; eg_call_timer := None;
      eg_roster_timer := Some (PassiveTimeout, EGCALL_PASSIVE_ROSTER_TIMEOUT) |}) c). }
  intros [] c1 e1 (G1 & K1 & S1 & E1). eapply wp_mono; [apply (tell_started_stays k); by rewrite ?E1|].
  intros [] c2 e2 [G2 K2]. split; [done|]. by eapply kept_trans.
Qed.

Lemma recv_start_holds k u cl msg c :
  good k c → msg_ok (eg_heap c) msg → holds k (recv_start u cl msg) c.
Proof.
  intros G Hm. unfold recv_start.
  eapply (holds_bind k _ _ (λ _ c', good k c' ∧ frame c' = frame c ∧ eg_heap c' = eg_heap c)).
  { eapply wp_mono; [apply wp_and; [apply (roster_add_quiet k); by_good|apply (roster_add_heap k); by_good]|].
    intros r c1 es [(H1 & F1 & _) [E1 _]]. split; [exact (good_frame k c c1 H1 (proj2 G) F1)|done]. }
  intros r c1 (G1 & F1 & E1). apply holds_gget; [done|].
  eapply (holds_bind k _ _ (λ _ c', good k c' ∧ frame c' = frame c1 ∧ eg_heap c' = eg_heap c1)).
  { destruct (_ || _); cbn; [|done]. eapply wp_of_run; [apply gmod_eval, (co_alive k c1), G1|].
    split; [|done]. apply (good_frame k c1); [|apply G1|done].
    apply (core_change k (λ c, {| c with eg_is_call_answered := true |})); try done. by_good. }
  intros [] c2 (G2 & F2 & E2). pose proof (frame_state _ _ F2) as S2.
  destruct (eg_state c1) eqn:Hs; try (apply holds_stays; by stays_steps).
  2-4: apply connect_holds; [done|by rewrite S2].
  apply holds_stays, announce_stays; [done|]. by rewrite E2, E1.
Qed.

Lemma recv_leave_stays k u cl msg c :
  good k c → wp (recv_leave u cl msg) (λ _ c' _, good k c') c.
Proof.
  intros G. unfold recv_leave. apply wp_bind. eapply wp_mono; [by apply (roster_remove_stays k)|].
  intros [] c1 e1 [G1 _]. apply (wp_gget k); [by_good|]. apply wp_bind.
  apply wp_mono with (λ _ c' _, good k c').
  { destruct (find_userclient c1 u cl); [|by apply wp_ret].
    eapply wp_mono; [by apply (end_and_unlink_good k)|]. by intros [] c2 e2 (? & _). }
  intros [] c2 e2 G2.
  assert (stays k (c ← gget; gwhen (bool_decide (eg_state c = EGCALL_STATE_INCOMING)
         && (dict_count (eg_roster c) =? 0)%nat)
    (set_state EGCALL_STATE_IDLE;;
     gcall_cb CB_CLOSE (EgClosed (if eg_is_call_answered c then 0 else ECANCELED) (msg_time msg)
                          (Some u) (Some cl)))) c2) as Hs.
  { stays_steps. by apply set_state_stays. }
  eapply wp_mono; [exact Hs|]. by intros [] c3 e3 [? _].
Qed.

Lemma passive_stays k c :
  good k c → eg_state c ≠ EGCALL_STATE_ACTIVE →
  stays k (gmod (λ c, {| c with eg_roster_timer :=
                            Some (PassiveTimeout, EGCALL_PASSIVE_ROSTER_TIMEOUT) |})) c.
Proof. intros G Hs. apply stays_change; try done. destruct G as [_ []]. by split. Qed.

Lemma recv_check_stays k u cl msg c : good k c → stays k (recv_check u cl msg) c.
Proof.
  intros G. unfold recv_check. stays_step; [by apply roster_add_stays|]. stays_step; [stays_step|].
  stays_step. destruct (eg_state c'0) eqn:Hs; try (apply passive_stays; [done|by rewrite Hs]).
  - stays_steps. by apply set_state_stays.
  - eapply wp_mono; [apply (active_timer_stays k); [by_good|done|]|by intros [] c1 e1 (? & ? & _)].
    apply running_active; [|done]. by match goal with G : good k c'0 |- _ => apply G end.
Qed.

Lemma recv_reject_stays k u c : good k c → stays k (recv_reject u) c.
Proof. intros G. unfold recv_reject. stays_steps. Qed.

Lemma recv_ecall_holds k u cl msg c : good k c → holds k (recv_ecall u cl msg) c.
Proof.
  intros G. unfold recv_ecall. cbv zeta. apply holds_gget; [done|].
  apply holds_bind with (λ _ c', good k c').
  - destruct (find_userclient c u cl); [by apply wp_ret|]. destruct (_ && _); [|by apply wp_ret].
    apply wp_bind. eapply wp_mono; [by apply (add_ecall_good k)|]. intros r c1 e1 (a & -> & G1 & _ & _).
    assert (stays k (_ ← roster_add u cl; c ← gget;
      gwhen (bool_decide (eg_state c = EGCALL_STATE_OUTGOING)) (set_state EGCALL_STATE_ANSWERED);;
      mret (Some a)) c1) as Hs.
    { stays_step; [by apply roster_add_stays|]. stays_steps. by apply set_state_stays. }
    eapply wp_mono; [exact Hs|]. by intros ? ? ? [? _].
  - intros e c1 G1. apply holds_stays. stays_steps.
Qed.

Lemma msg_recv_holds k u cl msg c :
  good k c → msg_ok (eg_heap c) msg → holds k (egcall_msg_recv u cl msg) c.
Proof.
  intros G Hm. unfold egcall_msg_recv.
  assert (holds k (c ← gget;
    if negb (str_isset (Some (dest_userid msg))) || negb (str_isset (Some (dest_clientid msg)))
    then mret EINVAL
    else
      (gwhen (strcaseeq (Some (dest_userid msg)) (Some (eg_userid_self c))
              && strcaseeq (Some (dest_clientid msg)) (Some (eg_clientid_self c)))
         (recv_ecall u cl msg));;
      mret 0) c) as Hother.
  { apply holds_gget; [done|]. destruct (_ || _); [apply holds_stays; stays_steps|]. apply holds_then.
    destruct (strcaseeq _ _ && strcaseeq _ _); [by apply recv_ecall_holds|].
    by apply holds_stays, stays_ret. }
  destruct (msg_type msg); try exact Hother; apply holds_then.
  - by apply recv_start_holds.
  - eapply wp_mono; [by apply (recv_leave_stays k)|]. intros [] c' es G'. by left.
  - by apply holds_stays, recv_check_stays.
  - by apply holds_stays, recv_reject_stays.
Qed.

(** *** An [ecall] that closes *)

Lemma filter_ident (l l' : list group_ecall) a :
  ident <$> l' = ident <$> filter (λ e, ge_addr e ≠ a) l →
  ident <$> filter (λ e, ge_linked e = true) l'
    = ident <$> filter (λ e, ge_addr e ≠ a) (filter (λ e, ge_linked e = true) l).
Proof.
  rewrite list_filter_filter. revert l'. induction l as [|e l IH]; intros l'.
  - by destruct l'.
  - rewrite !filter_cons. case_decide as Ha.
    + destruct l' as [|e' l']; [done|]. intros E. cbn in E. injection E as E1 E2 E3 E4 E5.
      rewrite filter_cons, E4. specialize (IH l' E5). destruct (decide (ge_linked e = true)) as [Hl|Hl].
      * rewrite decide_True by done. cbn. f_equal; [|done]. unfold ident. congruence.
      * rewrite decide_False; [done|]. by intros [].
    + rewrite decide_False by (by intros []). apply IH.
Qed.

Lemma without_ecalll a c c' :
  without a c c' → ident <$> ecalll c' = ident <$> filter (λ e, ge_addr e ≠ a) (ecalll c).
Proof. intros [_ E]. by apply filter_ident. Qed.

(** The [ecall]s that are left in the list. *)
Definition rest (a : nat) (c : egcall) : list group_ecall := filter (λ e, ge_addr e ≠ a) (ecalll c).

(** With the last one the call is left. *)
Definition closed_one (k a : nat) (c c' : egcall) (es : list egcall_event) : Prop :=
  (eg_state c = EGCALL_STATE_IDLE ∨ rest a c ≠ [] → eg_state c' = eg_state c ∧ ends es = [])
  ∧ (rest a c ≠ [] → good k c' ∧ without a c c')
  ∧ (eg_state c ≠ EGCALL_STATE_IDLE → rest a c = [] →
     (eg_state c' = EGCALL_STATE_IDLE ∨ eg_state c' = EGCALL_STATE_INCOMING)
     ∧ ecalll c' = [] ∧ (eg_live c' ≠ [] → eg_cb c' = eg_cb c)
     ∧ ((∀ cb, eg_cb c cb = true) →
        ∃ u e, ends es = [EgSend u (group_msg ECONN_GROUP_LEAVE false false u_zero) [] false; e]
               ∧ is_told e)).

(** The first part of the handler. *)
Lemma close_prefix k a err m u cl (f : GM ()) Q c :
  good k c → a ∈ ge_addr <$> eg_live c →
  (∀ c' es, good k c' → frame c' = frame c → ends es = [] → wp f (λ r c'' es', Q r c'' (es ++ es')) c') →
  wp (match m with Some m => gcall_cb CB_METRICS (EgMetrics m) | None => mret () end;;
      drop_part a;;
      update_conf_pos;;
      c ← gget;
      match u, cl with
      | Some u, Some cl =>
        gwhen (negb (err =? 0) || negb (bool_decide (eg_state c = EGCALL_STATE_TERMINATING)))
          (roster_remove u cl)
      | _, _ => mret ()
      end;;
      f) Q c.
Proof.
  intros [Hc Hr] Ha Hf. apply wp_bind. eapply wp_mono.
  { assert (quiet k (match m with Some m => gcall_cb CB_METRICS (EgMetrics m) | None => mret () end) c)
      as Hq by (destruct m; quiet_steps). exact Hq. }
  intros [] c1 e1 (H1 & F1 & E1). apply wp_bind.
  eapply wp_mono; [apply (drop_part_quiet k); [done|by eapply frame_live]|]. intros [] c2 e2 (H2 & F2 & E2).
  apply wp_bind. eapply wp_mono; [by apply (update_conf_pos_quiet k)|]. intros [] c3 e3 (H3 & F3 & E3).
  apply (wp_gget k); [done|]. apply wp_bind. eapply wp_mono.
  { assert (quiet k (match u, cl with
      | Some u, Some cl =>
        gwhen (negb (err =? 0) || negb (bool_decide (eg_state c3 = EGCALL_STATE_TERMINATING)))
          (roster_remove u cl)
      | _, _ => mret ()
      end) c3) as Hq.
    { destruct u, cl; quiet_steps. by apply roster_remove_quiet. }
    exact Hq. }
  intros [] c4 e4 (H4 & F4 & E4). assert (frame c4 = frame c) as F by (by rewrite F4, F3, F2).
  eapply wp_mono; [apply (Hf c4 (e1 ++ e2 ++ e3 ++ e4)); [by apply (good_frame k c)|done|]|].
  - by rewrite !ends_app, E1, E2, E3, E4.
  - intros [] c5 e5. by rewrite !app_assoc.
Qed.

(** The owner's or the handler's reference is given up. *)
Lemma deref_over k c :
  good (S k) c →
  wp mem_deref (λ _ c' es, over k c' ∧ eg_state c' = eg_state c ∧ ends es = []
    ∧ eg_live c' = eg_live c ∧ (eg_live c ≠ [] → good k c' ∧ mood c' = mood c)) c.
Proof.
  intros [Hc Hr]. eapply wp_mono; [by apply (deref_core k)|].
  intros [] c' es (S & E & [[H1 ->]|(-> & Hl & Hd)]).
  - assert (good k (one_less c)) as G by (split; [done|by apply one_less_running]).
    split; [by left|]. done.
  - split; [by right|]. split; [done|]. split; [done|]. rewrite Hl.
    by destruct Hd as (_ & -> & _).
Qed.

Lemma ident_nil (l l' : list group_ecall) : ident <$> l = ident <$> l' → l = [] ↔ l' = [].
Proof. by destruct l, l'. Qed.

Lemma close_end k a time c c3 pre :
  core (S k) c3 → running c → without a c c3 → ends pre = [] →
  wp ((gwhen (negb (bool_decide (eg_state c3 = EGCALL_STATE_IDLE)) && (length (ecalll c3) =? 0)%nat)
         (send_leave time));; mem_deref)
    (λ _ c' es, over k c' ∧ closed_one k a c c' (pre ++ es)) c3.
Proof.
  intros H3 Hr W3 Ep. pose proof (proj1 W3) as M3. pose proof (without_ecalll _ _ _ W3) as L3.
  fold (rest a c) in L3. pose proof (mood_state _ _ M3) as S3. pose proof (ident_nil _ _ L3) as N3.
  rewrite S3. apply wp_bind.
  destruct (bool_decide_reflect (eg_state c = EGCALL_STATE_IDLE)) as [Hi|Hi]; cbn [negb andb];
    [|destruct (Nat.eqb_spec (length (ecalll c3)) 0) as [Hl|Hl]]; cbn [gwhen].
  2: { apply length_zero_iff_nil, N3 in Hl. eapply wp_mono; [by apply (send_leave_left (S k) time)|].
    intros [] c4 e4 (G4 & K4 & [S4 T4]). eapply wp_mono; [by apply (deref_over k)|].
    intros [] c5 e5 (O5 & S5 & E5 & L5 & D5). split; [done|]. split; [|split].
    - by intros [|].
    - done.
    - intros _ _. rewrite S5. split; [by destruct S4 as [[-> _]|[-> _]]; auto|]. split; [|split].
      + unfold ecalll at 1. rewrite L5. by apply (ident_nil _ _ (ident_ecalll _ _ (proj1 K4))), N3.
      + rewrite L5. intros Hn. destruct (D5 Hn) as [_ M5]. destruct K4 as (_ & _ & K4).
        unfold mood in M3, M5. congruence.
      + intros Hcb. destruct T4 as (e & Et & He). { intros cb. unfold mood in M3. injection M3 as _ _ _ ->. apply Hcb. }
      exists (eg_userid_self c3), e. split; [|done]. by rewrite !ends_app, Ep, Et, E5. }
  all: apply wp_ret.
  - eapply wp_mono; [apply (deref_over k)|].
    { split; [done|]. apply (running_mood c); [done|done|]. by rewrite Hi. }
    intros [] c5 e5 (O5 & S5 & E5 & L5 & D5). split; [done|]. split; [|split].
    + intros _. rewrite S5. split; [done|]. by rewrite !ends_app, Ep, E5.
    + intros Hn. destruct D5 as [G5 M5]. { intros E. apply Hn, N3. unfold ecalll. by rewrite E. }
      split; [done|]. split; [by rewrite M5|]. rewrite L5. apply W3.
    + done.
  - assert (eg_live c3 ≠ []) as Hlive. { intros E. apply Hl. unfold ecalll. by rewrite E. }
    eapply wp_mono; [apply (deref_over k)|].
    { split; [done|]. by apply (running_mood c). }
    intros [] c5 e5 (O5 & S5 & E5 & L5 & D5). destruct D5 as [G5 M5]; [done|].
    split; [done|]. split; [|split].
    + intros _. rewrite S5. split; [done|]. by rewrite !ends_app, Ep, E5.
    + intros _. split; [done|]. split; [by rewrite M5|]. rewrite L5. apply W3.
    + intros _ Hn. destruct Hl. apply length_zero_iff_nil, N3, Hn.
Qed.

Lemma close_rest k a time c :
  good k c → a ∈ ge_addr <$> eg_live c →
  wp (mem_ref;; destroy_ecall (Some a);; c ← gget;
      (gwhen (negb (bool_decide (eg_state c = EGCALL_STATE_IDLE)) && (length (ecalll c) =? 0)%nat)
         (send_leave time));; mem_deref)
    (λ _ c' es, over k c' ∧ ∀ pre, ends pre = [] → closed_one k a c c' (pre ++ es)) c.
Proof.
  intros [Hc Hr] Ha. unfold mem_ref at 1. apply wp_bind.
  eapply wp_of_run; [apply gmod_eval, (co_alive _ _ Hc)|]. pose proof (ref_core k c Hc) as H1.
  set (c1 := {| c with eg_refs := _ |}) in *. unfold destroy_ecall. apply wp_bind, (wp_gget (S k)); [done|].
  fold (release_ecall a). apply wp_bind. eapply wp_mono; [by apply (release_without (S k))|].
  intros [] c2 e2 (H2 & W2 & E2). eapply wp_mono; [by apply (deref_core (S k))|].
  intros [] c3 e3 (_ & E3 & [[H3 ->]|(? & ? & ?)]); [|done].
  assert (without a c (one_less c2)) as W3 by exact W2.
  apply (wp_gget (S k)); [done|].
  assert (ends (e2 ++ e3) = []) as E by (by rewrite ends_app, E2, E3).
  pose proof (close_end k a time c (one_less c2) (e2 ++ e3) H3 Hr W3 E) as Hw.
  eapply wp_mono; [exact Hw|]. intros [] c' es [Ho Hcl]. split; [done|]. intros pre Hp.
  destruct Hcl as (C1 & C2 & C3). cbn [app]. split; [|split]; [|done|].
  - intros Hx. destruct (C1 Hx) as [? Ee]. split; [done|]. by rewrite ends_app, Hp, Ee.
  - intros Hx Hy. destruct (C3 Hx Hy) as (? & ? & ? & Ht). do 3 (split; [done|]). intros Hcb.
    destruct (Ht Hcb) as (u & e & Ee & He). exists u, e. split; [|done]. by rewrite ends_app, Hp, Ee.
Qed.

Lemma closed_one_frame k a c c1 c' es :
  frame c1 = frame c → closed_one k a c1 c' es → closed_one k a c c' es.
Proof.
  intros F (C1 & C2 & C3). pose proof (ident_filter _ _ a (ident_ecalll _ _ (frame_ident _ _ F))) as Hl.
  fold (rest a c1) (rest a c) in Hl. pose proof (ident_nil _ _ Hl) as N. pose proof (frame_state _ _ F) as S.
  assert (eg_cb c1 = eg_cb c) as Ec by (unfold frame in F; congruence).
  rewrite S in *. rewrite Ec in C3. split; [|split].
  - intros [?|Hn]; apply C1; [by left|]. right. by rewrite N.
  - intros Hn. destruct C2 as [G2 [M2 L2]]; [by rewrite N|]. split; [done|]. split.
    + by rewrite <- (mood_frame _ _ F).
    + rewrite L2. apply ident_filter, (frame_ident _ _ F).
  - intros Hi Hn. apply C3; [done|]. by apply N.
Qed.

Lemma close_holds k a err m time u cl c :
  good k c → a ∈ ge_addr <$> eg_live c →
  wp (ecall_close_handler a err m time u cl) (λ _ c' es, over k c' ∧ closed_one k a c c' es) c.
Proof.
  intros G Ha. unfold ecall_close_handler. eapply (close_prefix k); [done..|].
  intros c1 e1 G1 F1 E1. eapply wp_mono; [apply (close_rest k); [done|by eapply frame_live]|].
  intros [] c' es [Ho Hcl]. split; [done|]. by apply (closed_one_frame k a c c1), Hcl.
Qed.

(** *** Every operation *)

(** The application only uses a call it owns, an [ecall] only calls back while it
    exists, timers expire only when they were started; messages come from the
    decoder. *)
Definition allowed (k : nat) (c : egcall) (o : egcall_op) : Prop :=
  match op_ecall o with
  | Some a => a ∈ ge_addr <$> eg_live c
  | None =>
    match o with
    | EgCallTimer => is_Some (eg_call_timer c)
    | EgRosterTimer => is_Some (eg_roster_timer c)
    | EgNoconnTimer => is_Some (eg_noconn_timer c)
    | EgMsgRecv h _ _ msg => k = 1%nat ∧ msg_ok h msg
    | _ => k = 1%nat
    end
  end.
Definition owner_after (k : nat) (o : egcall_op) : nat :=
  match o with EgRelease => 0%nat | _ => k end.

Lemma allowed_good k c o : over k c → allowed k c o → good k c.
Proof.
  intros [G|(-> & _ & El & E1 & E2 & E3)]; [done|]. unfold allowed. rewrite El, E1, E2, E3.
  destruct (op_ecall o); [by intros ?%elem_of_nil|]. destruct o; try done.
  all: try by intros [? ?]. all: by intros [? _].
Qed.

Lemma exec_holds k c o :
  good k c → allowed k c o → holds (owner_after k o) (egcall_exec o) c.
Proof.
  intros G Ha. destruct o; cbn [egcall_exec owner_after]; cbn in Ha;
    try (apply holds_stays; try apply stays_done;
         auto using start_stays, answer_stays, end_with_err_stays, reject_stays, set_clients_stays,
           add_turnserver_stays, media_start_stays, media_stop_stays, video_send_state_stays,
           quality_interval_stays, mute_stays, get_members_stays, call_timer_stays, roster_timer_stays,
           noconn_timer_stays, setup_handler_stays, stop_call_timer_stays, audio_estab_stays,
           media_stopped_stays, vstate_stays, muted_stays, norelay_stays, transp_send_stays,
           drop_part_stays, stays_cb; fail).
  - apply holds_done, holds_stays. unfold egcall_media_start. stays_step. by apply media_start_stays.
  - apply holds_stays. unfold egcall_media_stop. stays_step. by apply media_stop_stays.
  - apply holds_done, holds_stays. unfold egcall_update_mute_state. stays_step. by apply mute_stays.
  - subst k. eapply wp_mono; [by apply (deref_over 0)|]. by intros [] c' es [? _].
  - destruct Ha as [-> Hm]. apply wp_bind. eapply wp_of_run; [apply gmod_eval, (co_alive _ _ (proj1 G))|].
    eapply wp_mono; [apply (holds_done 1), msg_recv_holds|by intros [] c' es Ho].
    + destruct G as [Hc Hr]. split; [by apply (core_change 1 (λ c, {| c with eg_heap := h |}))|].
      by apply (running_frame c).
    + done.
  - apply holds_stays. unfold ecall_media_estab_handler. stays_steps.
  - apply holds_stays. unfold ecall_datachan_estab_handler. stays_steps.
  - apply holds_stays. unfold ecall_quality_handler. stays_steps.
  - eapply wp_mono; [by apply (close_holds k)|]. by intros [] c' es [? _].
Qed.

(** ** Reachable group calls *)

Inductive group_reach : nat → egcall → Prop :=
| GrAlloc cb h convid userid_self clientid c :
    egcall_alloc true true cb h (Some convid) userid_self clientid = inr c → group_reach 1 c
| GrStep k c o c' es :
    group_reach k c → allowed k c o → egcall_exec o c = Some ((), c', es) →
    group_reach (owner_after k o) c'.

Lemma alloc_good cb h convid us cl c :
  egcall_alloc true true cb h (Some convid) us cl = inr c → good 1 c.
Proof.
  unfold egcall_alloc. cbn. intros [= <-]. split.
  - split; cbn; try done; try by constructor.
    + by destruct (dict_alloc_map (V := roster_item)) as (d & [= <-] & Hd & _).
    + by intros e e' ?%elem_of_nil.
  - by split.
Qed.

Lemma reach_over k c : group_reach k c → over k c.
Proof.
  induction 1 as [cb h convid us cl c E|k c o c' es _ IH Ha E]; [left; by eapply alloc_good|].
  pose proof (exec_holds k c o (allowed_good k c o IH Ha) Ha) as Hw. unfold holds, wp in Hw.
  by rewrite E in Hw.
Qed.
Lemma reach_good k c : group_reach k c → eg_refs c ≠ 0%nat → good k c.
Proof. intros [G|(_ & E & _)]%reach_over Hr; done. Qed.

(** C13: No group call gets into undefined behaviour, under these conditions: every
    allocation of the group call succeeds ([EgEnvOk]), [ecall_alloc] succeeds and the
    [ecall]s accept the TURN servers ([EgAddOk]); the application uses a call only
    until it releases it, an [ecall] calls back only while it exists, a timer expires
    only when it was started, and the properties of a received GROUP_START are
    strings, since reading another value is undefined ([allowed], with [msg_ok]).  Then
    in every call reached by any sequence of such operations, in any order and with any
    answers of the [ecall]s and of the send handler: the next operation is defined,
    the references to the object are those of the owner and of the [ecall]s, so that it
    is destroyed exactly when the owner and the last [ecall] have given it up; as long
    as it exists [ecall]s have different addresses, there is at most one of them in the
    list for each client, and the positions of the conference are those of the [ecall]s
    that hold one. *)
Theorem group_call_safe k c :
  group_reach k c →
  (∀ o, allowed k c o → ∃ c' es, egcall_exec o c = Some ((), c', es))
  ∧ eg_refs c = (k + length (eg_live c))%nat
  ∧ (eg_refs c ≠ 0%nat →
     NoDup (ge_addr <$> eg_live c)
     ∧ (∀ e e', e ∈ ecalll c → e' ∈ ecalll c → same_client e e' → ge_addr e = ge_addr e')
     ∧ cp_uid <$> eg_partl c ≡ₚ held (eg_live c)).
Proof.
  intros Hr. pose proof (reach_over k c Hr) as Ho. split; [|split].
  - intros o Ha. destruct (wp_defined _ _ _ (exec_holds k c o (allowed_good k c o Ho Ha) Ha))
      as ([] & c' & es & E & _). eauto.
  - destruct Ho as [[[]]|(-> & E & El & _)]; [done|]. by rewrite E, El.
  - intros Hn. destruct (reach_good k c Hr Hn) as [[] _]. done.
Qed.

(** A GROUP_CHECK starts the roster timer of the state anew, whatever was left of it. *)
Lemma check_restarts k c t h u cl msg :
  good k c → msg_type msg = ECONN_GROUP_CHECK →
  eg_state c = EGCALL_STATE_INCOMING ∨ eg_state c = EGCALL_STATE_ACTIVE →
  wp (egcall_exec (EgMsgRecv h u cl msg))
    (λ _ c' es, eg_state c' = eg_state c ∧ Forall (eq EgGroupChanged) es
       ∧ match eg_state c with
         | EGCALL_STATE_INCOMING =>
           eg_roster_timer c' = Some (PassiveTimeout, EGCALL_PASSIVE_ROSTER_TIMEOUT)
         | _ => ∃ d, eg_roster_timer c' = Some (ActiveTimeout, d) ∧ 60000 <= d < 90000
         end) {| c with eg_roster_timer := t |}.
Proof.
  intros [Hc _] Hty Hs. cbn [egcall_exec]. set (c0 := {| c with eg_roster_timer := t |}).
  assert (core k c0) as H0 by (by apply (core_change k (λ c, {| c with eg_roster_timer := t |}))).
  apply wp_bind. eapply wp_of_run; [apply gmod_eval, (co_alive k c0 H0)|].
  set (c1 := {| c0 with eg_heap := h |}).
  assert (core k c1) as H1 by (by apply (core_change k (λ c, {| c with eg_heap := h |}))).
  apply wp_udone. unfold egcall_msg_recv, recv_check. rewrite Hty. apply wp_bind, wp_bind.
  eapply wp_mono; [apply wp_and; [by apply (roster_add_quiet k)|by apply (roster_add_heap k)]|].
  intros r c2 e2 [(H2 & F2 & _) [_ E2]].
  apply wp_bind. eapply wp_of_run; [apply gmod_eval, (co_alive k c2 H2)|].
  set (c3 := {| c2 with eg_is_call_answered := true |}).
  assert (core k c3) as H3 by (by apply (core_change k (λ c, {| c with eg_is_call_answered := true |}))).
  assert (eg_state c3 = eg_state c) as S3 by exact (frame_state _ _ F2).
  apply (wp_gget k); [done|]. rewrite S3. destruct Hs as [Hs|Hs]; rewrite Hs.
  - eapply wp_of_run; [apply gmod_eval, (co_alive k c3 H3)|]. apply wp_ret.
    split; [by rewrite <- Hs, <- S3|]. split; [by rewrite !app_nil_r|done].
  - eapply wp_mono; [by apply (active_timer_eval k)|]. intros [] c4 e4 (_ & -> & _ & S4 & _ & Hd).
    apply wp_ret. split; [by rewrite S4, S3|]. split; [by rewrite !app_nil_r|done].
Qed.

(** C18: A group call is kept alive while it is active and forgotten when nobody is left,
    under the conditions of [group_reach]: allocations succeed, [ecall]s can be added.
    In every reachable call that exists: in the state [INCOMING] the roster timer runs
    for two minutes, its expiry closes the call, and the application is told if it has set
    a close handler, and a GROUP_CHECK of anybody, at whatever moment and so with whatever is left of the
    timer, starts the two minutes anew; in the state [ACTIVE] it runs for 60 to 90
    seconds, its expiry sends a GROUP_CHECK (with a send handler), leaves the call active
    and starts it again for 60 to 90 seconds, and a GROUP_CHECK that is received
    meanwhile starts it anew for 60 to 90 seconds; in both states a received GROUP_CHECK
    keeps the state, sends nothing and tells the application at most that the group has
    changed; a call that is being ended has an [ecall] to wait for. *)
Theorem group_call_kept_alive k c :
  group_reach k c → eg_refs c ≠ 0%nat →
  (eg_state c = EGCALL_STATE_INCOMING →
   eg_roster_timer c = Some (PassiveTimeout, EGCALL_PASSIVE_ROSTER_TIMEOUT)
   ∧ ∃ c', egcall_exec EgRosterTimer c
       = Some ((), c', if eg_cb c CB_CLOSE
                       then [EgClosed 0 ECONN_MESSAGE_TIME_UNKNOWN None None] else [])
     ∧ eg_state c' = EGCALL_STATE_IDLE)
  ∧ (eg_state c = EGCALL_STATE_INCOMING →
     ∀ t h u cl msg, msg_type msg = ECONN_GROUP_CHECK →
     ∃ c' es, egcall_exec (EgMsgRecv h u cl msg) {| c with eg_roster_timer := t |} = Some ((), c', es)
       ∧ eg_state c' = EGCALL_STATE_INCOMING ∧ Forall (eq EgGroupChanged) es
       ∧ eg_roster_timer c' = Some (PassiveTimeout, EGCALL_PASSIVE_ROSTER_TIMEOUT))
  ∧ (eg_state c = EGCALL_STATE_ACTIVE →
     ∃ d, eg_roster_timer c = Some (ActiveTimeout, d) ∧ 60000 <= d < 90000
     ∧ ∃ c' d', egcall_exec EgRosterTimer c
         = Some ((), c', if eg_cb c CB_SEND
                         then [EgSend (eg_userid_self c) (group_msg ECONN_GROUP_CHECK true true u_zero) [] false]
                         else [])
       ∧ eg_state c' = EGCALL_STATE_ACTIVE
       ∧ eg_roster_timer c' = Some (ActiveTimeout, d') ∧ 60000 <= d' < 90000)
  ∧ (eg_state c = EGCALL_STATE_ACTIVE →
     ∀ t h u cl msg, msg_type msg = ECONN_GROUP_CHECK →
     ∃ c' es d, egcall_exec (EgMsgRecv h u cl msg) {| c with eg_roster_timer := t |} = Some ((), c', es)
       ∧ eg_state c' = EGCALL_STATE_ACTIVE ∧ Forall (eq EgGroupChanged) es
       ∧ eg_roster_timer c' = Some (ActiveTimeout, d) ∧ 60000 <= d < 90000)
  ∧ (eg_state c = EGCALL_STATE_TERMINATING → eg_live c ≠ []).
Proof.
  intros Hr Hn. pose proof (reach_good k c Hr Hn) as G. split; [|split; [|split; [|split]]].
  - intros Hs. pose proof (ru_incoming c (proj2 G) Hs) as Ht. split; [done|].
    destruct (wp_defined _ _ _ (passive_expires k c _ G Ht)) as ([] & c' & es & E & _ & _ & S & ->). eauto.
  - intros Hs t h u cl msg Hty.
    destruct (wp_defined _ _ _ (check_restarts k c t h u cl msg G Hty (or_introl Hs)))
      as ([] & c' & es & E & S & En & T). rewrite Hs in S, T. exists c', es. done.
  - intros Hs. destruct (ru_active c (proj2 G) Hs) as (d & Ht & Hd). exists d. split; [done|]. split; [done|].
    destruct (wp_defined _ _ _ (active_expires k c d G Hs Ht)) as ([] & c' & es & E & G' & _ & S & ->).
    destruct (ru_active c' (proj2 G') S) as (d' & Ht' & Hd'). exists c', d'. done.
  - intros Hs t h u cl msg Hty.
    destruct (wp_defined _ _ _ (check_restarts k c t h u cl msg G Hty (or_intror Hs)))
      as ([] & c' & es & E & S & En & T). rewrite Hs in S, T. destruct T as (d & T & Hd).
    exists c', es, d. done.
  - intros Hs. exact (ru_term c (proj2 G) Hs).
Qed.

End Messages.
