(* ===== verification/EgcallEnd.v ===== *)
(** * The end of a group call

    A call that is ended is left once, whatever the order in which its [ecall]s
    close; an [ecall] that closes late ends a call that was joined again; a failure to add an
    [ecall] takes a reference from the owner. *)

From stdpp Require Import gmap.
From S2P Require Import Prelude LibRe LibReJson Jzon EconnMsg EconnFmt Econn ConfPos Dict Icall AudioLevel UserList Ecall EcallMsg EcallSpec EcallSafe Egcall EgcallSpec EgcallSafe EgcallProps.

#[local] Open Scope string_scope.
#[local] Open Scope Z_scope.
#[local] Open Scope list_scope.

Section End_.
Context `{LR : LibReSpec, LJ : LibReJson, LJS : !LibReJsonSpec} `{EN : EgEnv} {EO : EgEnvOk} {EA : EgAddOk}.

Fixpoint exec_all (l : list egcall_op) : GM () :=
  match l with [] => mret () | o :: l => egcall_exec o;; exec_all l end.

(** An [ecall] closes, with any error, metrics, time and client. *)
Definition closes (a : nat) (o : egcall_op) : Prop :=
  ∃ err m time u cl, o = EgEcallClose a err m time u cl.

(** One GROUP_LEAVE is sent, then the application is told, and nothing else. *)
Definition left_once (es : list egcall_event) : Prop :=
  ∃ u e, ends es = [EgSend u (group_msg ECONN_GROUP_LEAVE false false u_zero) [] false; e] ∧ is_told e.
Definition out_of_call (c : egcall) : Prop :=
  eg_state c = EGCALL_STATE_IDLE ∨ eg_state c = EGCALL_STATE_INCOMING.

Lemma end_terminates k c :
  good k c → takes_part (eg_state c) = true → ecalll c ≠ [] →
  wp egcall_end (λ _ c' es, good k c' ∧ eg_state c' = EGCALL_STATE_TERMINATING ∧ kept c c'
                            ∧ ends es = []) c.
Proof.
  intros G Ht Hl. unfold egcall_end, egcall_end_with_err. apply (wp_gget k); [by_good|].
  assert (wp (if (0 <? length (ecalll c))%nat
              then set_state EGCALL_STATE_TERMINATING;; end_ecalls (ecalll c)
              else send_leave ECONN_MESSAGE_TIME_UNKNOWN)
    (λ _ c' es, good k c' ∧ eg_state c' = EGCALL_STATE_TERMINATING ∧ kept c c' ∧ ends es = []) c) as Hw.
  { destruct (ecalll c) as [|e l] eqn:El; [done|]. cbn [length Nat.ltb Nat.leb]. apply wp_bind.
    eapply wp_mono; [apply (set_state_changes k); by_good|]. intros [] c1 e1 [(H1 & S1 & K1 & R1) ->].
    eapply wp_mono; [by apply (end_ecalls_quiet k)|]. intros [] c2 e2 (H2 & F2 & E2).
    split; [split; [done|]|split; [|split]].
    - eapply running_frame; [|exact F2]. apply R1; [|done]. intros _ E. unfold ecalll in El.
      by rewrite E in El.
    - by rewrite (frame_state _ _ F2).
    - eapply kept_trans; [exact K1|]. by apply kept_frame.
    - done. }
  by destruct (eg_state c).
Qed.

(** All but one of the [ecall]s close; those that were taken out of the list may be
    among them. *)
Definition still (c : egcall) (a : nat) (l : list nat) : Prop :=
  NoDup (l ++ [a]) ∧ (∀ b, b ∈ l → b ∈ ge_addr <$> eg_live c) ∧ a ∈ ge_addr <$> ecalll c
  ∧ (∀ b, b ∈ ge_addr <$> ecalll c → b ∈ l ++ [a]).
Definition waiting (k : nat) (c : egcall) (a : nat) (c' : egcall) : Prop :=
  good k c' ∧ eg_state c' = EGCALL_STATE_TERMINATING ∧ eg_cb c' = eg_cb c ∧ still c' a [].

Lemma ecalll_live c a : a ∈ ge_addr <$> ecalll c → a ∈ ge_addr <$> eg_live c.
Proof.
  intros (e & -> & [_ He]%list_elem_of_filter)%list_elem_of_fmap. by apply list_elem_of_fmap_2.
Qed.

Lemma filter_addr (a b : nat) (l : list group_ecall) :
  b ∈ ge_addr <$> filter (λ e, ge_addr e ≠ a) l ↔ b ≠ a ∧ b ∈ ge_addr <$> l.
Proof.
  rewrite !list_elem_of_fmap. setoid_rewrite list_elem_of_filter. naive_solver.
Qed.

Lemma still_rest c a b l : still c a (b :: l) → rest b c ≠ [].
Proof.
  intros (Hn & _ & Ha & _) E. assert (a ∈ ge_addr <$> rest b c) as Hr.
  { unfold rest. apply filter_addr. split; [|done]. intros ->. cbn in Hn.
    apply NoDup_cons in Hn as [Hb _]. apply Hb, elem_of_app. right. by left. }
  rewrite E in Hr. by apply elem_of_nil in Hr.
Qed.

Lemma still_without c c' a b l : still c a (b :: l) → without b c c' → still c' a l.
Proof.
  intros (Hn & Hl & Ha & Hall) W. cbn in Hn. apply NoDup_cons in Hn as [Hb Hn].
  rewrite not_elem_of_app in Hb. destruct Hb as [Hb Hba].
  pose proof (ident_live _ _ (proj2 W)) as Hlive. pose proof (ident_live _ _ (without_ecalll _ _ _ W)) as Hec.
  unfold still. rewrite Hlive, Hec. setoid_rewrite filter_addr. split; [done|]. split; [|split].
  - intros x Hx. split; [by intros ->|]. apply Hl. by right.
  - split; [|done]. intros ->. apply Hba. by left.
  - intros x [Hx Hin]. apply Hall in Hin. cbn in Hin. by apply elem_of_cons in Hin as [|].
Qed.

Lemma still_kept c c' a l : still c a l → kept c c' → still c' a l.
Proof.
  intros Hs [K _]. unfold still. by rewrite (ident_live _ _ K), (ident_live _ _ (ident_ecalll _ _ K)).
Qed.

Lemma still_last c a : still c a [] → rest a c = [].
Proof.
  intros (_ & _ & _ & Hall). destruct (rest a c) as [|e r] eqn:E; [done|]. exfalso.
  assert (ge_addr e ∈ ge_addr <$> rest a c) as He by (rewrite E; by left).
  unfold rest in He. apply filter_addr in He as [Hne He]. apply Hall, list_elem_of_singleton in He. done.
Qed.

Lemma close_most k a l : ∀ os c,
  good k c → eg_state c = EGCALL_STATE_TERMINATING → still c a l → Forall2 closes l os →
  wp (exec_all os) (λ _ c' es, waiting k c a c' ∧ ends es = []) c.
Proof.
  induction l as [|b l IH]; intros os c G Hs Hp Hos.
  { inversion Hos. subst. by apply wp_ret. }
  inversion Hos as [|? o ? os' (err & m & time & u & cl & ->) Hos']; subst. cbn [exec_all egcall_exec].
  assert (b ∈ ge_addr <$> eg_live c) as Hb by (apply Hp; by left).
  pose proof (still_rest _ _ _ _ Hp) as Hn.
  apply wp_bind. eapply wp_mono; [by apply (close_holds k)|]. intros [] c1 e1 [Ho (C1 & C2 & _)].
  destruct (C2 Hn) as [G1 W1]. destruct C1 as [S1 E1]; [by right|].
  eapply wp_mono; [apply (IH os' c1); try done|].
  - by rewrite S1.
  - by eapply still_without.
  - intros [] c2 e2 [(G2 & S2 & B2 & P2) E2]. split; [|by rewrite ends_app, E1, E2].
    split; [done|]. split; [done|]. split; [|done]. rewrite B2. destruct W1 as [M1 _].
    unfold mood in M1. congruence.
Qed.

Lemma close_last k a o c c' :
  waiting k c a c' → (∀ cb, eg_cb c cb = true) → closes a o →
  wp (egcall_exec o) (λ _ c'' es, over k c'' ∧ out_of_call c'' ∧ left_once es
     ∧ ecalll c'' = [] ∧ (eg_live c'' ≠ [] → ∀ cb, eg_cb c'' cb = true)) c'.
Proof.
  intros (G & Hs & Ecb & Hp) Hcb (err & m & time & u & cl & ->). cbn [egcall_exec].
  assert (a ∈ ge_addr <$> eg_live c') as Ha by (apply ecalll_live, Hp).
  eapply wp_mono; [by apply (close_holds k)|]. intros [] c1 e1 [Ho (_ & _ & C3)].
  destruct C3 as (S1 & L1 & B1 & T1); [by rewrite Hs|by apply still_last|].
  split; [done|]. split; [done|]. split; [apply T1; by rewrite Ecb|]. split; [done|].
  intros Hl cb. rewrite (B1 Hl), Ecb. apply Hcb.
Qed.

(** After that an [ecall] that had been taken out of the list before closes. *)
Lemma close_stale k b o c :
  over k c → ecalll c = [] → (eg_live c ≠ [] → ∀ cb, eg_cb c cb = true) →
  b ∈ ge_addr <$> eg_live c → closes b o →
  wp (egcall_exec o) (λ _ _ es, (eg_state c = EGCALL_STATE_IDLE → ends es = [])
                                ∧ (eg_state c = EGCALL_STATE_INCOMING → left_once es)) c.
Proof.
  intros Ho Hl Hcb Hb (err & m & time & u & cl & ->). cbn [egcall_exec].
  assert (eg_live c ≠ []) as Hn. { intros E. rewrite E in Hb. by apply elem_of_nil in Hb. }
  destruct Ho as [G|(_ & _ & E & _)]; [|done].
  eapply wp_mono; [by apply (close_holds k)|]. intros [] c1 e1 [_ (C1 & _ & C3)]. split.
  - intros Hs. apply C1. by left.
  - intros Hs. destruct C3 as (_ & _ & _ & T); [by rewrite Hs|unfold rest; by rewrite Hl|].
    apply T. by apply Hcb.
Qed.

(** C16: A call is left once, as long as no [ecall] is left over.  The application ends
    a reachable call in which it takes part, with all its handlers set.  [l] and [a]
    are [ecall]s that exist, each once: [a] and all others of the list, and any of those
    that were taken out of the list when their client had left and have not closed yet;
    they close in that order, with any errors and without anything else in between.
    Until the last of the list, [a], closes, the call is terminating and nobody is
    told; then exactly one GROUP_LEAVE is sent and the application is told exactly once
    that it has left the call or that the call is over, and the call is idle, or goes
    on without us.  An [ecall] that had been taken out of the list and closes only after
    that causes nothing when the call is idle, and when it goes on without us it causes
    a second GROUP_LEAVE and a second notification, which is a defect.  (The conditions
    of [group_reach] hold: allocations succeed, [ecall]s can be added.) *)
Theorem group_call_left_once k c l os a o :
  group_reach k c → takes_part (eg_state c) = true → (∀ cb, eg_cb c cb = true) →
  still c a l → Forall2 closes l os → closes a o →
  ∃ c1 e1 c2 e2,
    exec_all (EgEnd :: os) c = Some ((), c1, e1) ∧ eg_state c1 = EGCALL_STATE_TERMINATING ∧ ends e1 = []
    ∧ egcall_exec o c1 = Some ((), c2, e2) ∧ out_of_call c2 ∧ left_once e2
    ∧ ∀ b ob, b ∈ ge_addr <$> eg_live c2 → closes b ob →
      ∃ c3 e3, egcall_exec ob c2 = Some ((), c3, e3)
        ∧ (eg_state c2 = EGCALL_STATE_IDLE → ends e3 = [])
        ∧ (eg_state c2 = EGCALL_STATE_INCOMING → left_once e3).
Proof.
  intros Hr Ht Hcb Hp Hos Ho. assert (ecalll c ≠ []) as Hl.
  { destruct Hp as (_ & _ & Ha & _). intros E. rewrite E in Ha. by apply elem_of_nil in Ha. }
  assert (good k c) as G.
  { destruct (reach_over k c Hr) as [G|(_ & _ & El & _)]; [done|]. unfold ecalll in Hl. by rewrite El in Hl. }
  assert (wp (exec_all (EgEnd :: os)) (λ _ c' es, waiting k c a c' ∧ ends es = []) c) as H1.
  { cbn [exec_all egcall_exec]. apply wp_bind. eapply wp_mono; [by apply (end_terminates k)|].
    intros [] c1 e1 (G1 & S1 & K1 & E1).
    eapply wp_mono; [apply (close_most k a l os c1); [done|done|by eapply still_kept|done]|].
    intros [] c2 e2 [(G2 & S2 & B2 & P2) E2]. split; [|by rewrite ends_app, E1, E2].
    split; [done|]. split; [done|]. split; [|done]. rewrite B2. apply K1. }
  destruct (wp_defined _ _ _ H1) as ([] & c1 & e1 & R1 & W1 & E1).
  destruct (wp_defined _ _ _ (close_last k a o c c1 W1 Hcb Ho)) as ([] & c2 & e2 & R2 & V2 & O2 & T2 & L2 & B2).
  exists c1, e1, c2, e2. destruct W1 as (_ & S1 & _). do 6 (split; [done|]). intros b ob Hb Hob.
  destruct (wp_defined _ _ _ (close_stale k b ob c2 V2 L2 B2 Hb Hob)) as ([] & c3 & e3 & R3 & H3). eauto.
Qed.

(** *** Joining again *)

Lemma send_msg_zero k t r tr c :
  (∀ n, eg_sendh_ret n = 0) → core k c → wp (send_msg t r tr) (λ r _ _, r = 0) c.
Proof.
  intros Hret Hc. unfold send_msg. apply (wp_gnext k); [done|]. intros n c1 H1 F1. rewrite ok_mem.
  cbn [negb]. apply wp_bind. eapply wp_mono.
  { assert (quiet k (if bool_decide (t = ECONN_GROUP_START)
      then p ← start_props; mret (u_groupstart p) else mret u_zero) c1) as Hq
      by (quiet_steps; by apply start_props_quiet).
    exact Hq. }
  intros u c2 e2 (H2 & _ & _). apply (wp_gget k); [done|]. apply wp_bind.
  apply (wp_gcb k); [done|]. apply (wp_gnext k); [done|]. intros n' c3 H3 _. apply wp_ret.
  rewrite Hret. by destruct (eg_cb c2 CB_SEND).
Qed.

Lemma answer_answered k ct cbr c :
  (∀ n, eg_sendh_ret n = 0) → good k c → eg_state c = EGCALL_STATE_INCOMING →
  wp (egcall_answer ct cbr) (λ _ c' _, good k c' ∧ eg_state c' = EGCALL_STATE_ANSWERED ∧ kept c c') c.
Proof.
  intros Hret [Hc Hr] Hs. unfold egcall_answer. apply wp_bind.
  eapply wp_of_run; [apply gmod_eval, (co_alive k c Hc)|].
  set (c1 := {| c with eg_call_type := ct; eg_audio_cbr := cbr |}).
  assert (core k c1) as H1
    by (by apply (core_change k (λ c, {| c with eg_call_type := ct; eg_audio_cbr := cbr |}))).
  apply (wp_gget k); [done|]. change (eg_state c1) with (eg_state c). rewrite bool_decide_true by done.
  cbn [negb]. apply wp_bind.
  eapply wp_mono; [apply wp_and; [by apply (send_msg_quiet k)|by apply (send_msg_zero k)]|].
  intros r c2 e2 [(H2 & F2 & _) ->]. cbn [Z.eqb negb]. apply wp_bind.
  eapply wp_mono; [by apply (set_state_changes k)|]. intros [] c3 e3 [(H3 & S3 & K3 & R3) _].
  apply wp_ret. split; [split; [done|by apply R3]|]. split; [done|].
  eapply kept_trans; [|exact K3]. by apply (kept_frame c1).
Qed.

(** C36: An [ecall] that closes late ends the call the user has joined again.  The
    [ecall] of a client that has left is taken out of the list and closes later.  When
    the user has left as well, while others go on, and joins again before it is
    connected to anybody, then the closing of such an [ecall] finds the list empty,
    takes that for the end of the call, sends a GROUP_LEAVE and tells the application
    that it has left. *)
Theorem stale_ecall_ends_rejoined_call c a ct cbr o :
  group_reach 1 c → eg_state c = EGCALL_STATE_INCOMING → ecalll c = [] → a ∈ ge_addr <$> eg_live c →
  (∀ cb, eg_cb c cb = true) → (∀ n, eg_sendh_ret n = 0) → closes a o →
  ∃ c1 e1 c2 e2,
    egcall_exec (EgAnswer ct cbr) c = Some ((), c1, e1) ∧ eg_state c1 = EGCALL_STATE_ANSWERED
    ∧ egcall_exec o c1 = Some ((), c2, e2) ∧ out_of_call c2 ∧ left_once e2.
Proof.
  intros Hr Hs Hl Ha Hcb Hret (err & me & time & u & cl & ->).
  assert (good 1 c) as G by (destruct (reach_over 1 c Hr) as [|[]]; done).
  assert (wp (egcall_exec (EgAnswer ct cbr))
    (λ _ c' _, good 1 c' ∧ eg_state c' = EGCALL_STATE_ANSWERED ∧ kept c c') c) as H1
    by (apply wp_udone; by apply answer_answered).
  destruct (wp_defined _ _ _ H1) as ([] & c1 & e1 & E1 & G1 & S1 & K1).
  destruct (wp_defined _ _ _ (close_holds 1 a err me time u cl c1 G1 (kept_addrs _ _ _ K1 Ha)))
    as ([] & c2 & e2 & E2 & _ & _ & _ & C3).
  exists c1, e1, c2, e2. split; [done|]. split; [done|]. split; [done|].
  destruct C3 as (C3 & _ & _ & C4).
  - by rewrite S1.
  - unfold rest. pose proof (ident_nil _ _ (ident_ecalll _ _ (proj1 K1))) as [_ ->]; done.
  - split; [done|]. apply C4. destruct K1 as (_ & _ & ->). apply Hcb.
Qed.
End End_.

(** ** A failure to add an [ecall] *)

Section Failure.
Context `{LR : LibReSpec, LJ : LibReJson, LJS : !LibReJsonSpec} `{EN : EgEnv} {EO : EgEnvOk}.

Lemma failed_prepare k a srv l c :
  (∀ n, ge_turnserver_ret n ≠ 0) → core k c → eg_turnv c = srv :: l →
  wp (prepare_ecall a) (λ r c' _, r ≠ 0 ∧ core k c' ∧ frame c' = frame c) c.
Proof.
  intros Hfail Hc Hs. unfold prepare_ecall. apply (wp_gnext k); [done|]. intros n c1 H1 F1.
  rewrite ok_mem. cbn [negb]. apply wp_bind. eapply wp_of_run; [apply gmod_eval, (co_alive k _ H1)|].
  set (c2 := {| c1 with eg_media := _ |}).
  assert (core k c2) as H2 by (by apply (core_change k (λ c, {| c with eg_media := eg_media c ++ _ |}))).
  apply (wp_gget k); [done|]. apply wp_bind, wp_emit.
  assert (eg_turnv c2 = srv :: l) as Hs2. { rewrite <- Hs. unfold frame in F1. cbn. congruence. }
  rewrite Hs2. cbn [give_turnservers]. apply wp_bind, wp_emit. apply (wp_gnext k); [done|].
  intros n' c3 H3 F3. rewrite (proj2 (Z.eqb_neq _ _) (Hfail n')). cbn [negb]. apply wp_ret.
  split; [done|]. split; [done|]. by rewrite F3, <- F1.
Qed.

(** The first [ecall] cannot be set up. *)
Lemma failed_add k u cl srv l c :
  (∀ n, ge_alloc_ret n = 0) → (∀ n, ge_turnserver_ret n ≠ 0) →
  core k c → eg_live c = [] → eg_turnv c = srv :: l →
  wp (add_ecall u cl) (λ r c' _, r.2 = None ∧ core k c' ∧ eg_live c' = []) c.
Proof.
  intros Halloc Hfail Hc Hl Hs. unfold add_ecall, mem_ref. apply wp_bind.
  eapply wp_of_run; [apply gmod_eval, (co_alive _ _ Hc)|].
  pose proof (ref_core k c Hc) as H1. set (c1 := {| c with eg_refs := _ |}) in *.
  apply (wp_gget (S k)); [done|].
  assert (find_userclient c1 u cl = None) as Hf
    by (unfold find_userclient, ecalll; cbn; by rewrite Hl).
  rewrite Hf. apply wp_bind, wp_ret, wp_bind. unfold gnext. apply (wp_gget (S k)); [done|].
  apply wp_bind, wp_modify, wp_ret. rewrite Halloc. cbn [Z.eqb negb].
  pose proof (core_tick _ c1 (S (eg_tick c1)) H1) as H2. set (c2 := {| c1 with eg_tick := _ |}) in *.
  apply (wp_gget (S k)); [done|]. apply wp_bind, wp_emit, wp_bind.
  eapply wp_of_run; [apply gmod_eval, (co_alive _ _ H2)|].
  pose proof (append_core k c2 u cl H2 (find_free c2 u cl Hf)) as H3. apply wp_bind.
  eapply wp_mono; [by apply (failed_prepare k _ srv l)|]. intros r c4 e4 (Hr & H4 & F4).
  rewrite (proj2 (Z.eqb_neq _ _) Hr). cbn [negb]. apply wp_bind. unfold destroy_ecall.
  assert (eg_naddr c2 ∈ ge_addr <$> eg_live c4) as Ha.
  { eapply frame_live; [exact F4|]. cbn. rewrite Hl. by left. }
  apply (wp_gget k); [done|]. fold (release_ecall (eg_naddr c2)). apply wp_bind.
  eapply wp_mono; [by apply (release_without k)|]. intros [] c5 e5 (H5 & [_ L5] & _).
  rewrite (ident_filter _ _ _ (frame_ident _ _ F4)) in L5. cbn [eg_live] in L5.
  change (eg_live c2) with (eg_live c) in L5. rewrite Hl in L5. cbn [app] in L5.
  rewrite filter_cons, decide_False in L5 by auto. apply fmap_nil_inv in L5.
  eapply wp_mono; [by apply (deref_core k)|]. intros [] c6 e6 (_ & _ & [[H6 ->]|(-> & _ & Hd)]).
  - by apply wp_ret.
  - exfalso. pose proof (co_alive _ _ Hc) as Hpos. rewrite (co_refs _ _ Hc), Hl in Hpos. cbn in Hpos. lia.
Qed.

Lemma failed_connect u cl srv l c :
  (∀ n, ge_alloc_ret n = 0) → (∀ n, ge_turnserver_ret n ≠ 0) →
  core 1 c → eg_live c = [] → eg_turnv c = srv :: l → wp (connect u cl) (λ _ c' _, destroyed c') c.
Proof.
  intros Halloc Hfail Hc Hl Hs. unfold connect, reset_updating. apply wp_bind, (wp_gget 1); [done|].
  assert (find_userclient c u cl = None) as -> by (unfold find_userclient, ecalll; by rewrite Hl).
  apply wp_ret, wp_bind. eapply wp_mono; [by apply (failed_add 1 u cl srv l)|].
  intros [err [a|]] c4 e4 (E4 & H4 & L4); [done|]. unfold destroy_ecall.
  apply (wp_gget 1); [done|]. apply wp_bind, wp_ret.
  eapply wp_mono; [by apply (deref_core 0)|]. intros [] c5 e5 (_ & _ & [[H5 ->]|(_ & _ & Hd)]); [|done].
  pose proof (co_refs _ _ H5) as Hr. pose proof (co_alive _ _ H5) as Hp. cbn in Hr, Hp.
  rewrite L4 in Hr. cbn in Hr. lia.
Qed.

(** When an [ecall] cannot be set up, a reference that nobody gave up is released.
    [add_ecall] destroys the [ecall] it could not give a TURN server to, and with it
    the reference it had taken; [recv_start] then calls [destroy_ecall] with [NULL],
    which releases another one.  In a call with no other [ecall] that is the owner's:
    the object is destroyed while the owner goes on using it. *)
Theorem failed_add_destroys_call c h u cl msg srv l :
  (∀ n, ge_alloc_ret n = 0) → (∀ n, ge_turnserver_ret n ≠ 0) →
  core 1 c → eg_live c = [] → takes_part (eg_state c) = true → eg_turnv c = srv :: l →
  msg_type msg = ECONN_GROUP_START →
  ∃ c' es, egcall_exec (EgMsgRecv h u cl msg) c = Some ((), c', es) ∧ destroyed c'
    ∧ egcall_exec EgEnd c' = None.
Proof.
  intros Halloc Hfail Hc Hl Ht Hs Hty.
  assert (wp (egcall_exec (EgMsgRecv h u cl msg)) (λ _ c' _, destroyed c') c) as Hw.
  { cbn [egcall_exec]. apply wp_bind. eapply wp_of_run; [apply gmod_eval, (co_alive _ _ Hc)|].
    set (c1 := {| c with eg_heap := h |}).
    assert (core 1 c1) as H1 by (by apply (core_change 1 (λ c, {| c with eg_heap := h |}))).
    apply wp_udone. unfold egcall_msg_recv, recv_start. rewrite Hty. apply wp_bind, wp_bind.
    eapply wp_mono; [by apply (roster_add_quiet 1)|]. intros r c2 e2 (H2 & F2 & _).
    apply (wp_gget 1); [done|]. apply wp_bind. eapply wp_mono.
    { assert (quiet 1 (gwhen (negb (bool_decide (eg_state c2 = EGCALL_STATE_IDLE))
          || negb (econn_message_isrequest msg))
        (gmod (λ c, {| c with eg_is_call_answered := true |}))) c2) as Hq by quiet_steps. exact Hq. }
    intros [] c3 e3 (H3 & F3 & _). assert (frame c3 = frame c1) as F by (by rewrite F3).
    assert (eg_state c2 = eg_state c) as S2 by (by rewrite (frame_state _ _ F2)).
    assert (eg_live c3 = []) as L3. { apply frame_ident in F. cbn in F. rewrite Hl in F. by apply fmap_nil_inv in F. }
    assert (eg_turnv c3 = srv :: l) as T3. { rewrite <- Hs. unfold frame in F. cbn in F. congruence. }
    pose proof (failed_connect u cl srv l c3 Halloc Hfail H3 L3 T3) as Hconn.
    rewrite S2. destruct (eg_state c); try done; (eapply wp_mono; [exact Hconn|]; intros [] c5 e5 Hd;
      by apply wp_ret). }
  destruct (wp_defined _ _ _ Hw) as ([] & c' & es & E & Hd). exists c', es. split; [done|]. split; [done|].
  destruct Hd as [Hr _]. cbn. unfold egcall_end, egcall_end_with_err, gget, uget, mbind, MU_bind.
  by rewrite Hr.
Qed.
End Failure.
