(* ===== verification/EgcallWitness.v ===== *)
(** * Concrete group calls

    Alice takes part in calls with Bob and Carl, on the concrete libre of [LibReRef]
    and [LibReJsonRef], and the theorems about group calls applied to them. *)

From stdpp Require Import gmap.
From S2P Require Import Prelude LibRe LibReJson Jzon EconnMsg EconnFmt EconnFmtSpec Econn ConfPos Dict Icall AudioLevel UserList Ecall EcallMsg EcallSpec EcallSafe Egcall EgcallSpec EgcallSafe EgcallProps EgcallEnd.

Import LibReRef LibReJsonRef.

#[local] Open Scope string_scope.
#[local] Open Scope Z_scope.
#[local] Open Scope list_scope.

(** [ecall]s that work, or that cannot be given a TURN server. *)
Definition group_env (turnserver : Z) : EgEnv := {|
  ge_alloc_ret := λ _, 0;
  ge_start_ret := λ _, 0;
  ge_media_start_ret := λ _, 0;
  ge_turnserver_ret := λ _, turnserver;
  ge_mute_ret := λ _, 0;
  ge_state := λ _, ECONN_IDLE;
  ge_stops := λ _, true;
  eg_sendh_ret := λ _, 0;
  eg_muted := λ _, false;
  eg_rand := λ n, Z.of_nat n;
  eg_mem := λ _, true;
|}.
#[local] Instance group_env_ok : EgEnvOk (EN := group_env 0).
Proof. done. Qed.
#[local] Instance group_add_ok : EgAddOk (EN := group_env 0).
Proof. done. Qed.
#[local] Instance failing_env_ok : EgEnvOk (EN := group_env ENOMEM).
Proof. done. Qed.

Definition group_alice : egcall :=
  match egcall_alloc true true (λ _, true) ∅ (Some "conv") "alice" "a1" with
  | inr c => c
  | inl _ => egcall_init (λ _, true) ∅ "conv" "alice" "a1" []
  end.

(** ** Running a group call *)

(** The operations are allowed, one after the other, and defined. *)
Fixpoint allowed_run (os : list egcall_op) (c : egcall) : Prop :=
  match os with
  | [] => True
  | o :: os =>
    allowed 1 c o ∧ owner_after 1 o = 1%nat
    ∧ match egcall_exec (H1 := group_env 0) o c with
      | Some (_, c', _) => allowed_run os c'
      | None => False
      end
  end.
Definition group_after (os : list egcall_op) : egcall :=
  match exec_all (EN := group_env 0) os group_alice with Some (_, c, _) => c | None => group_alice end.

Lemma run_reached os c c' es :
  group_reach (EN := group_env 0) 1 c → allowed_run os c →
  exec_all (EN := group_env 0) os c = Some ((), c', es) → group_reach (EN := group_env 0) 1 c'.
Proof.
  revert c c' es. induction os as [|o os IH]; intros c c' es Hc Ha; cbn [exec_all].
  - by intros [= <- _].
  - cbn [allowed_run] in Ha. destruct Ha as (Ho & Hk & Ha). unfold mbind, MU_bind.
    destruct (egcall_exec o c) as [[[[] c1] e1]|] eqn:E; [|done].
    destruct (exec_all os c1) as [[[[] c2] e2]|] eqn:E'; [|done]. intros [= <- _].
    apply (IH c1 c2 e2); [|done|done]. rewrite <- Hk. by eapply GrStep.
Qed.

(** Bob and Carl announce themselves, Bob leaves. *)
Definition joins (u cl : string) : egcall_op :=
  EgMsgRecv ∅ u cl (group_msg ECONN_GROUP_START true false (u_groupstart None)).
Definition goes (u cl : string) : egcall_op :=
  EgMsgRecv ∅ u cl (group_msg ECONN_GROUP_LEAVE false false u_zero).
Definition checks (u cl : string) : egcall_op :=
  EgMsgRecv ∅ u cl (group_msg ECONN_GROUP_CHECK true false u_zero).
Definition start : egcall_op := EgStart ICALL_CALL_TYPE_NORMAL false false.

Definition talking : list egcall_op :=
  [start; joins "bob" "b7"; joins "carl" "c3"; EgEcallAudioEstab 0 (Some "bob") (Some "b7") false].
Definition all_left : list egcall_op :=
  [start; joins "bob" "b7"; joins "carl" "c3"; goes "bob" "b7"; EgEnd;
   EgEcallClose 1 0 None 7 (Some "carl") (Some "c3")].

Lemma reached_run os :
  allowed_run os group_alice →
  match exec_all (EN := group_env 0) os group_alice with Some _ => True | None => False end →
  group_reach (EN := group_env 0) 1 (group_after os).
Proof.
  intros Ha Hd. unfold group_after. destruct (exec_all os group_alice) as [[[[] c] es]|] eqn:E; [|done].
  eapply (run_reached os group_alice); [|done|exact E]. by eapply (GrAlloc _ ∅ "conv" "alice" "a1").
Qed.

(** Every operation of a run was allowed. *)
Ltac all_allowed :=
  apply reached_run; [|vm_compute; exact I];
  vm_compute; repeat match goal with |- _ ∧ _ => split end;
  first [exact I | reflexivity | intros; discriminate | by repeat constructor].

Lemma talking_reached : group_reach (EN := group_env 0) 1 (group_after talking).
Proof. all_allowed. Qed.
Lemma all_left_reached : group_reach (EN := group_env 0) 1 (group_after all_left).
Proof. all_allowed. Qed.

(** ** The theorems on these calls *)

(** Bob's [ecall] says that his video was turned on. *)
Lemma group_call_safe_witness :
  let c := group_after talking in
  group_reach (EN := group_env 0) 1 c
  ∧ eg_refs c = 3%nat
  ∧ ∃ c' es, egcall_exec (H1 := group_env 0)
      (EgEcallVstate 0 (Some "bob") (Some "b7") ICALL_VIDEO_STATE_STARTED) c = Some ((), c', es).
Proof.
  cbv zeta. split; [exact talking_reached|].
  destruct (group_call_safe (EN := group_env 0) 1 (group_after talking) talking_reached) as (Hd & Hr & _).
  split; [rewrite Hr; vm_compute; reflexivity|]. apply Hd. vm_compute. by repeat constructor.
Defined.

Lemma group_call_kept_alive_witness :
  let c := group_after talking in
  group_reach (EN := group_env 0) 1 c ∧ eg_refs c ≠ 0%nat ∧ eg_state c = EGCALL_STATE_ACTIVE
  ∧ (∃ d, eg_roster_timer c = Some (ActiveTimeout, d) ∧ 60000 <= d < 90000)
  ∧ ∃ c' es d, egcall_exec (H1 := group_env 0) (checks "bob" "b7")
        {| c with eg_roster_timer := Some (ActiveTimeout, 500) |} = Some ((), c', es)
      ∧ eg_state c' = EGCALL_STATE_ACTIVE ∧ Forall (eq EgGroupChanged) es
      ∧ eg_roster_timer c' = Some (ActiveTimeout, d) ∧ 60000 <= d < 90000.
Proof.
  cbv zeta. split; [exact talking_reached|]. assert (eg_refs (group_after talking) ≠ 0%nat) as Hn by done.
  split; [exact Hn|]. split; [vm_compute; reflexivity|].
  destruct (group_call_kept_alive (EN := group_env 0) 1 (group_after talking) talking_reached Hn)
    as (_ & _ & Ha & Hc & _). split.
  - destruct Ha as (d & Hd & Hb & _); [vm_compute; reflexivity|]. exists d. split; [exact Hd|exact Hb].
  - apply Hc; vm_compute; reflexivity.
Defined.

(** Bob and Carl have left, their [ecall]s are out of the list; Alice ends the call;
    Bob's, Dora's and Erin's [ecall]s close, and after them Carl's. *)
Definition two_left : list egcall_op :=
  [start; joins "bob" "b7"; joins "carl" "c3"; joins "dora" "d1"; joins "erin" "e4";
   goes "bob" "b7"; goes "carl" "c3"].
Lemma two_left_reached : group_reach (EN := group_env 0) 1 (group_after two_left).
Proof. all_allowed. Qed.
Lemma two_left_still : still (group_after two_left) 3 [0%nat; 2%nat].
Proof.
  split; [|split; [|split]].
  - apply (bool_decide_unpack _). vm_compute. exact I.
  - assert (ge_addr <$> eg_live (group_after two_left) = [0%nat; 1%nat; 2%nat; 3%nat]) as ->
      by (vm_compute; reflexivity).
    apply (proj1 (Forall_forall (λ b, b ∈ [0%nat; 1%nat; 2%nat; 3%nat]) _)). repeat constructor.
  - vm_compute. repeat constructor.
  - assert (ge_addr <$> ecalll (group_after two_left) = [2%nat; 3%nat]) as -> by (vm_compute; reflexivity).
    intros b Hb. right. exact Hb.
Qed.

Lemma group_call_left_once_witness :
  let c := group_after two_left in
  let close a u cl := EgEcallClose a 0 None 7 (Some u) (Some cl) in
  ge_addr <$> eg_live c = [0%nat; 1%nat; 2%nat; 3%nat] ∧ ge_addr <$> ecalll c = [2%nat; 3%nat]
  ∧ ∃ c1 e1 c2 e2,
    exec_all (EN := group_env 0) [EgEnd; close 0%nat "bob" "b7"; close 2%nat "dora" "d1"] c
      = Some ((), c1, e1)
    ∧ eg_state c1 = EGCALL_STATE_TERMINATING ∧ ends e1 = []
    ∧ egcall_exec (H1 := group_env 0) (close 3%nat "erin" "e4") c1 = Some ((), c2, e2)
    ∧ out_of_call c2 ∧ left_once e2
    ∧ ∀ b ob, b ∈ ge_addr <$> eg_live c2 → closes b ob →
      ∃ c3 e3, egcall_exec (H1 := group_env 0) ob c2 = Some ((), c3, e3)
        ∧ (eg_state c2 = EGCALL_STATE_IDLE → ends e3 = [])
        ∧ (eg_state c2 = EGCALL_STATE_INCOMING → left_once e3).
Proof.
  cbv zeta. split; [vm_compute; reflexivity|]. split; [vm_compute; reflexivity|].
  apply (group_call_left_once (EN := group_env 0) 1 (group_after two_left) [0%nat; 2%nat] _ 3%nat).
  - exact two_left_reached.
  - vm_compute. reflexivity.
  - intros cb. vm_compute. reflexivity.
  - exact two_left_still.
  - repeat constructor; eexists _, _, _, _, _; reflexivity.
  - eexists _, _, _, _, _. reflexivity.
Defined.

(** Bob has left, then Alice; she joins again; Bob's [ecall] closes. *)
Lemma stale_ecall_ends_rejoined_call_witness :
  let c := group_after all_left in
  eg_state c = EGCALL_STATE_INCOMING
  ∧ ∃ c1 e1 c2 e2,
    egcall_exec (H1 := group_env 0) (EgAnswer ICALL_CALL_TYPE_NORMAL false) c = Some ((), c1, e1)
    ∧ eg_state c1 = EGCALL_STATE_ANSWERED
    ∧ egcall_exec (H1 := group_env 0) (EgEcallClose 0 0 None 9 (Some "bob") (Some "b7")) c1
      = Some ((), c2, e2)
    ∧ out_of_call c2 ∧ left_once e2.
Proof.
  cbv zeta. split; [vm_compute; reflexivity|].
  apply (stale_ecall_ends_rejoined_call (EN := group_env 0) (group_after all_left) 0%nat).
  - exact all_left_reached.
  - vm_compute. reflexivity.
  - vm_compute. reflexivity.
  - vm_compute. constructor.
  - intros cb. vm_compute. reflexivity.
  - reflexivity.
  - eexists _, _, _, _, _. reflexivity.
Defined.

(** Alice has started a call with a TURN server that no [ecall] accepts. *)
Definition turn_srv : zapi_ice_server := {| srv_url := "turn:x"; srv_username := "u"; srv_credential := "p" |}.
Definition waiting_alice : egcall :=
  {| group_alice with eg_state := EGCALL_STATE_OUTGOING; eg_turnv := [turn_srv] |}.

Lemma waiting_core : core 1 waiting_alice.
Proof.
  apply (core_change 1 (λ c, {| c with eg_state := EGCALL_STATE_OUTGOING; eg_turnv := [turn_srv] |})
           group_alice); try done.
  apply (alloc_good (λ _, true) ∅ "conv" "alice" "a1" group_alice). reflexivity.
Qed.

Lemma failed_add_destroys_call_witness :
  ∃ c' es, egcall_exec (H1 := group_env ENOMEM) (joins "bob" "b7") waiting_alice = Some ((), c', es)
    ∧ destroyed c' ∧ egcall_exec (H1 := group_env ENOMEM) EgEnd c' = None.
Proof.
  apply (failed_add_destroys_call (EN := group_env ENOMEM) waiting_alice ∅ "bob" "b7" _ turn_srv []).
  - reflexivity.
  - intros n. vm_compute. discriminate.
  - exact waiting_core.
  - reflexivity.
  - reflexivity.
  - reflexivity.
  - reflexivity.
Defined.
