(* ===== verification/Wcall.v ===== *)
(** * Calls and their instance ([src/wcall/wcall.c])

    An instance of the library holds the calls of a user, one per conversation, each
    with a call object ([ecall], [egcall] or [ccall]), and stands between these and
    the application.

    - [wi_wcalls] is the list of the instance, which is also the set of [wcall]s that
      exist: an object leaves the list in its destructor.  Following a pointer to one
      that is not there is undefined ([get_wcall]); [WCALL_VALID] reads [wcall->inst]
      and so is undefined for it as well.
    - A call into a call object is an event ([WcCall]); its result and the callbacks
      it makes before it returns are in [WcEnv], by the number of the call
      ([call_icall]).  The callbacks are those of [icall_callback]; they can also come
      from the event loop.  The calls that callbacks themselves make
      ([media_start], [get_members]) and those on a new object make none
      ([ask_icall]).
    - The configuration is that of [Config].
    - The numbers of [WCALL_CONV_TYPE] are those of [ICALL_CONV_TYPE], so the latter
      stand for both.
    - Texts made for the application (members, targets, metrics, levels and quality)
      are described by what they are made of. *)

From stdpp Require Import gmap.
From S2P Require Import Prelude LibRe LibReJson Jzon EconnMsg EconnFmt Icall AudioLevel UserList CcallSft Config.

#[local] Open Scope string_scope.
#[local] Open Scope Z_scope.
#[local] Open Scope list_scope.

(** ** Data *)

Inductive wcall_state :=
| WCALL_STATE_NONE | WCALL_STATE_OUTGOING | WCALL_STATE_INCOMING | WCALL_STATE_ANSWERED
| WCALL_STATE_MEDIA_ESTAB | WCALL_STATE_TERM_LOCAL | WCALL_STATE_TERM_REMOTE.

#[export] Instance wcall_state_eq_dec : EqDecision wcall_state.
Proof. solve_decision. Defined.

Inductive wcall_call_type := WCALL_CALL_TYPE_NORMAL | WCALL_CALL_TYPE_VIDEO | WCALL_CALL_TYPE_FORCED_AUDIO.

#[export] Instance wcall_call_type_eq_dec : EqDecision wcall_call_type.
Proof. solve_decision. Defined.

(** Codes of [errno.h] and [avs_icall.h]. *)
Definition EREMOTE : Z := 66.
Definition ECONNRESET : Z := 104.
Definition ICALL_REASON_ANSWERED_ELSEWHERE : Z := 5.

Definition WCALL_REASON_NORMAL : Z := 0.
Definition WCALL_REASON_ERROR : Z := 1.
Definition WCALL_REASON_TIMEOUT : Z := 2.
Definition WCALL_REASON_LOST_MEDIA : Z := 3.
Definition WCALL_REASON_CANCELED : Z := 4.
Definition WCALL_REASON_ANSWERED_ELSEWHERE : Z := 5.
Definition WCALL_REASON_IO_ERROR : Z := 6.
Definition WCALL_REASON_STILL_ONGOING : Z := 7.
Definition WCALL_REASON_TIMEOUT_ECONN : Z := 8.
Definition WCALL_REASON_DATACHANNEL : Z := 9.
Definition WCALL_REASON_REJECTED : Z := 10.
Definition WCALL_REASON_OUTDATED_CLIENT : Z := 11.
Definition WCALL_REASON_NOONE_JOINED : Z := 12.
Definition WCALL_REASON_EVERYONE_LEFT : Z := 13.
Definition WCALL_REASON_AUTH_FAILED : Z := 14.
Definition WCALL_REASON_AUTH_FAILED_START : Z := 15.
Definition WCALL_REASON_DURATION : Z := 16.
Definition WCALL_QUALITY_NETWORK_PROBLEM : Z := 4.
Definition WCALL_QUALITY_RECONNECTING : Z := 5.

(** [enum mediamgr_state] *)
Inductive mediamgr_state :=
| MEDIAMGR_STATE_NORMAL | MEDIAMGR_STATE_OUTGOING_AUDIO_CALL | MEDIAMGR_STATE_OUTGOING_VIDEO_CALL
| MEDIAMGR_STATE_INCOMING_AUDIO_CALL | MEDIAMGR_STATE_INCOMING_VIDEO_CALL | MEDIAMGR_STATE_INCALL
| MEDIAMGR_STATE_INVIDEOCALL | MEDIAMGR_STATE_ROAMING | MEDIAMGR_STATE_HOLD | MEDIAMGR_STATE_RESUME
| MEDIAMGR_STATE_ERROR | MEDIAMGR_STATE_UNKNOWN.

(** The kind of a call object. *)
Inductive icall_kind := IcEcall | IcEgcall | IcCcall.

(** [struct wcall] *)
Record wcall := {
  wc_addr : nat;
  wc_convid : string;
  wc_conv_type : icall_conv_type;
  wc_duration : Z;
  wc_icall : icall_kind;
  wc_video_call : bool;
  wc_state : wcall_state;
  wc_disable_audio : bool;
  wc_refs : nat;
}.

(** [struct incoming_event] *)
Record incoming_event := {
  ie_convid : string;
  ie_msg_time : Z;
  ie_userid : string;
  ie_clientid : string;
  ie_video_call : bool;
  ie_should_ring : bool;
  ie_conv_type : icall_conv_type;
}.

(** [struct config_update_entry] *)
Record config_update_entry := {
  ce_msg : econn_message;
  ce_curr_time : Z;
  ce_msg_time : Z;
  ce_convid : string;
  ce_userid : string;
  ce_clientid : string;
  ce_conv_type : icall_conv_type;
  ce_meeting : bool;
}.

(** The handlers of an application. *)
Inductive wcall_h :=
| H_READY | H_SEND | H_SFT | H_INCOMING | H_MISSED | H_ANSWER | H_ESTAB | H_CLOSE | H_METRICS
| H_STATE | H_VSTATE | H_ACBR | H_MESTAB | H_MSTOP | H_DCESTAB | H_REQ_CLIENTS | H_ACTIVE_SPEAKER
| H_REQ_NEW_EPOCH | H_GROUP_CHANGED | H_PARTICIPANT_CHANGED | H_NETWORK_QUALITY | H_MUTE.

(** An event that waits for the configuration ([g_ready_pendingl]). *)
Inductive ready_event :=
| RdStart (convid : string) (call_type : wcall_call_type) (conv_type : icall_conv_type)
    (audio_cbr meeting : bool)
| RdAnswer (convid : string) (call_type : wcall_call_type) (audio_cbr : bool).

(** [struct calling_instance]; a context is its address and that of its [wcall]. *)
Record calling_instance := {
  wi_h : wcall_h → bool;
  wi_mm : bool;
  wi_userid : string;
  wi_clientid : string;
  wi_timeout_setup : Z;
  wi_call_config : bool;
  wi_cfg : config;
  wi_wcalls : list wcall;
  wi_ctxl : list (nat * nat);
  wi_tmr_roam : bool;
  wi_interval : Z;
  wi_media_laddr : bool;
  wi_processing : bool;
  wi_pending : list incoming_event;
  wi_durationl : list (string * Z);
  wi_config_updatel : list config_update_entry;
  wi_ready_pendingl : list ready_event;
  wi_tick : nat;
  wi_naddr : nat;
}.

(** The functions of a call object. *)
Inductive icall_fn :=
| FnAddTurnserver (srv : zapi_ice_server)
| FnAddSft (url : string)
| FnStart (video cbr meeting : bool)
| FnAnswer (video cbr : bool)
| FnEnd
| FnReject
| FnMediaStart
| FnMediaStop
| FnSetMediaLaddr
| FnSetVideoSendState (state : icall_vstate)
| FnMsgRecv (curr_time msg_time : Z) (userid clientid : string) (msg : econn_message)
| FnSftMsgRecv (status : Z) (msg : option econn_message)
| FnGetMembers
| FnSetQualityInterval (interval : Z)
| FnDceSend
| FnSetClients (clientl : list icall_client) (epoch : Z)
| FnUpdateMuteState
| FnRequestVideoStreams (clientl : list icall_client)
| FnSetMediaKey (epochid : Z) (key : list Z)
| FnSetBackground (background : bool)
| FnActivate (active : bool)
| FnSetDuration (duration : Z)
| FnRestart
| FnRelease.

(** The functions that are set by [icall_set_functions], for each kind. *)
Definition has_fn (k : icall_kind) (f : icall_fn) : bool :=
  match f, k with
  | (FnAddSft _ | FnSftMsgRecv _ _ | FnRequestVideoStreams _ | FnSetMediaKey _ _ | FnSetDuration _),
    (IcEcall | IcEgcall) => false
  | (FnSetMediaLaddr | FnDceSend), (IcEgcall | IcCcall) => false
  | (FnSetBackground _ | FnActivate _ | FnRestart), IcEgcall => false
  | _, _ => true
  end.

Inductive wcall_event :=
| WcAlloc (wcall : nat) (k : icall_kind) (convid : string) (mls meeting : bool)
| WcSetConfig (wcall : nat)
| WcCall (wcall : nat) (f : icall_fn)
| WcMm (state : mediamgr_state)
| WcMmIncoming (e : incoming_event)
| WcUnmute
| WcStopSilencing
| WcReady
| WcState (convid : string) (state : wcall_state)
| WcIncoming (e : incoming_event)
| WcMissed (convid : string) (msg_time : Z) (userid clientid : string) (video : bool)
| WcAnswered (convid : string)
| WcMediaEstab (convid : string) (userid clientid : option string)
| WcMediaStopped (convid : string)
| WcEstab (convid : string) (userid clientid : option string)
| WcDatachanEstab (convid : string) (userid clientid : option string)
| WcVstate (convid : string) (userid clientid : option string) (state : icall_vstate)
| WcAcbr (userid clientid : option string) (enabled : bool)
| WcMembers (convid : string) (members : list wcall_member)
| WcClosed (reason : Z) (convid : string) (msg_time : Z) (userid : string) (clientid : option string)
| WcMetrics (convid : string) (metrics : icall_metrics) (reason : option Z)
| WcGroupChanged (convid : string)
| WcSend (ctx : nat) (convid userid : string) (text : string) (targets : list icall_client)
    (transient my_clients_only : bool)
| WcSft (ctx : nat) (url text : string)
| WcQuality (convid : string) (userid clientid : option string) (quality : Z) (stats : stats_report)
| WcReqClients (convid : string)
| WcSpeakers (convid : string)
| WcNewEpoch (convid : string)
| WcMuted (muted : bool)
| WcSetMute (muted : bool).

Abbreviation WM := (MU calling_instance wcall_event).

(** The callbacks of a call object. *)
Inductive icall_callback :=
| OnStart (msg_time : Z) (userid clientid : string) (video should_ring : bool)
    (conv_type : icall_conv_type)
| OnAnswer
| OnMediaEstab (userid clientid : option string) (update : bool)
| OnMediaStopped
| OnAudioEstab (userid clientid : option string) (update : bool)
| OnDatachanEstab (userid clientid : option string) (update : bool)
| OnVstate (userid clientid : option string) (state : icall_vstate)
| OnAudiocbr (userid clientid : option string) (enabled : bool)
| OnMutedChanged (userid clientid : option string) (muted : bool)
| OnClose (err : Z) (metrics : option icall_metrics) (msg_time : Z) (userid clientid : option string)
| OnLeave (reason msg_time : Z)
| OnGroupChanged
| OnMetrics (metrics : option icall_metrics)
| OnSend (h : props_heap) (userid : string) (msg : econn_message) (targets : list icall_client)
    (my_clients_only : bool)
| OnSft (h : props_heap) (url : string) (msg : econn_message)
| OnQuality (userid clientid : option string) (stats : stats_report) (peer : icall_conv_type)
| OnReqClients
| OnAulevel
| OnReqNewEpoch.

(** The results of other components, by the number of the call. *)
Class WcEnv := {
  wc_mem : nat → bool;
  wc_alloc : nat → Z;
  wc_ret : nat → Z;
  wc_members : nat → Z + list wcall_member;
  wc_callbacks : nat → icall_fn → list icall_callback;
  (** [wcall_has_calls] for the other instances. *)
  wc_others : nat → bool;
  (** [normalize_quality] *)
  wc_normal : nat → Z;
  wc_levels : nat → Z;
  wc_metrics_ok : nat → bool;
  wc_request : nat → Z;
  wc_now : nat → Z;
}.

Section Ops.
Context `{LibRe, LibReJson, WcEnv}.

(** ** Primitives *)

Definition wnext : WM nat :=
  i ← uget; umodify (λ i, {| i with wi_tick := S (wi_tick i) |});; mret (wi_tick i).
Definition wwhen (b : bool) (m : WM ()) : WM () := if b then m else mret ().
Definition whandler (h : wcall_h) (e : wcall_event) : WM () := i ← uget; wwhen (wi_h i h) (uemit [e]).

(** The object at an address; it exists. *)
Definition find_wcall (i : calling_instance) (a : nat) : option wcall :=
  List.find (λ w, wc_addr w =? a)%nat (wi_wcalls i).
Definition get_wcall (a : nat) : WM wcall := i ← uget; of_ptr (find_wcall i a).
Definition set_wcall (a : nat) (f : wcall → wcall) : WM () :=
  _ ← get_wcall a;
  umodify (λ i, {| i with wi_wcalls := (λ w, if (wc_addr w =? a)%nat then f w else w) <$> wi_wcalls i |}).

(** [ICALL_CALLE] where the call object, of the kind [k], calls nobody back. *)
Definition ask_new (a : nat) (k : icall_kind) (f : icall_fn) : WM Z :=
  if negb (has_fn k f) then mret 0
  else uemit [WcCall a f];; n ← wnext; mret (wc_ret n).
Definition ask_icall (a : nat) (f : icall_fn) : WM Z := w ← get_wcall a; ask_new a (wc_icall w) f.

(** [wcall_has_calls] *)
Definition wcall_in_call (w : wcall) : bool :=
  negb (bool_decide (wc_state w ∈ [WCALL_STATE_NONE; WCALL_STATE_TERM_LOCAL; WCALL_STATE_TERM_REMOTE]))
  && negb (wc_disable_audio w).
Definition wcall_has_calls : WM bool :=
  n ← wnext; i ← uget; mret (existsb wcall_in_call (wi_wcalls i) || wc_others n).

(** [mediamgr_set_call_state(inst->mm, state)]; without a media manager it does nothing,
    also where the caller does not test for one. *)
Definition set_mm (state : mediamgr_state) : WM () := i ← uget; wwhen (wi_mm i) (uemit [WcMm state]).

(** [destructor], [mem_ref(wcall)], [mem_deref(wcall)]; [icall] tells whether there is
    a call object. *)
Definition wcall_destructor (icall : bool) (a : nat) : WM () :=
  umodify (λ i, {| i with wi_wcalls := filter (λ w, wc_addr w ≠ a) (wi_wcalls i) |});;
  has_calls ← wcall_has_calls;
  i ← uget;
  (wwhen (negb has_calls) (if wi_mm i then uemit [WcMm MEDIAMGR_STATE_NORMAL] else uemit [WcUnmute]));;
  wwhen icall (uemit [WcCall a FnRelease]).
Definition wcall_ref (a : nat) : WM () := set_wcall a (λ w, {| w with wc_refs := S (wc_refs w) |}).
Definition wcall_deref (a : nat) : WM () :=
  w ← get_wcall a;
  if (wc_refs w =? 1)%nat then wcall_destructor true a
  else set_wcall a (λ w, {| w with wc_refs := pred (wc_refs w) |}).

(** [set_state] *)
Definition wcall_set_state (a : nat) (st : wcall_state) : WM () :=
  w ← get_wcall a;
  set_wcall a (λ w, {| w with wc_state := st |});;
  wwhen (negb (bool_decide (wc_state w = st))) (whandler H_STATE (WcState (wc_convid w) st)).

(** [wcall_lookup], [find_pending_event] *)
Definition wcall_lookup (i : calling_instance) (convid : string) : option wcall :=
  List.find (λ w, String.eqb convid (wc_convid w)) (wi_wcalls i).
Definition find_pending_event (eventl : list incoming_event) (convid : string) : option incoming_event :=
  List.find (λ ie, String.eqb convid (ie_convid ie)) eventl.

Fixpoint update_event (f : incoming_event → list incoming_event) (convid : string)
    (l : list incoming_event) : list incoming_event :=
  match l with
  | [] => []
  | ie :: l => if String.eqb convid (ie_convid ie) then f ie ++ l else ie :: update_event f convid l
  end.

(** ** The callbacks of the call objects *)

(** [wcall_i_invoke_incoming_handler] *)
Definition wcall_i_invoke_incoming_handler (e : incoming_event) : WM () :=
  i ← uget;
  match wcall_lookup i (ie_convid e) with
  | None => mret ()
  | Some w =>
    wwhen (bool_decide (wc_state w = WCALL_STATE_INCOMING)) (whandler H_INCOMING (WcIncoming e))
  end.
Definition invoke_incoming (e : incoming_event) : WM () :=
  i ← uget;
  if wi_mm i then uemit [WcMmIncoming e] else wcall_i_invoke_incoming_handler e.

(** [icall_start_handler]: an event for the same conversation is looked for by the
    sender. *)
Definition pend_incoming (w : wcall) (msg_time : Z) (userid clientid : string) (video should_ring : bool)
    (conv_type : icall_conv_type) : WM () :=
  n ← wnext;
  if negb (wc_mem n) then mret ()
  else
    i ← uget;
    let e := {| ie_convid := wc_convid w; ie_msg_time := msg_time; ie_userid := userid;
                ie_clientid := clientid; ie_video_call := video; ie_should_ring := should_ring;
                ie_conv_type := conv_type |} in
    match find_pending_event (wi_pending i) userid with
    | Some prev =>
      umodify (λ i, {| i with wi_pending :=
        update_event (λ _, []) userid (wi_pending i)
        ++ [{| prev with ie_convid := wc_convid w; ie_msg_time := msg_time |}] |})
    | None => umodify (λ i, {| i with wi_pending := wi_pending i ++ [e] |})
    end.
Definition icall_start_handler (a : nat) (msg_time : Z) (userid clientid : string)
    (video should_ring : bool) (conv_type : icall_conv_type) : WM () :=
  wcall_set_state a WCALL_STATE_INCOMING;;
  set_wcall a (λ w, {| w with wc_video_call := video; wc_disable_audio := negb should_ring |});;
  (wwhen should_ring
     (set_mm (if video then MEDIAMGR_STATE_INCOMING_VIDEO_CALL else MEDIAMGR_STATE_INCOMING_AUDIO_CALL)));;
  i ← uget;
  w ← get_wcall a;
  wwhen (wi_h i H_INCOMING)
    (if wi_processing i then pend_incoming w msg_time userid clientid video should_ring conv_type
     else invoke_incoming {| ie_convid := wc_convid w; ie_msg_time := msg_time; ie_userid := userid;
            ie_clientid := clientid; ie_video_call := video; ie_should_ring := should_ring;
            ie_conv_type := conv_type |}).

(** [icall_answer_handler] *)
Definition icall_answer_handler (a : nat) : WM () :=
  w ← get_wcall a;
  whandler H_ANSWER (WcAnswered (wc_convid w));;
  wcall_set_state a WCALL_STATE_ANSWERED.

(** [members_json], [call_group_change_json] *)
Definition call_group_change_json (a : nat) : WM () :=
  w ← get_wcall a;
  uemit [WcCall a FnGetMembers];;
  n ← wnext;
  match wc_members n with
  | inl _ => mret ()
  | inr members => whandler H_PARTICIPANT_CHANGED (WcMembers (wc_convid w) members)
  end.
Definition participants_changed (a : nat) : WM () :=
  i ← uget; wwhen (wi_h i H_PARTICIPANT_CHANGED) (call_group_change_json a).

Definition is_conference (ct : icall_conv_type) : bool :=
  bool_decide (ct = ICALL_CONV_TYPE_CONFERENCE ∨ ct = ICALL_CONV_TYPE_CONFERENCE_MLS).
Definition is_oneonone (ct : icall_conv_type) : bool := bool_decide (ct = ICALL_CONV_TYPE_ONEONONE).

(** [icall_media_estab_handler], [icall_media_stopped_handler] *)
Definition icall_media_estab_handler (a : nat) (userid clientid : option string) : WM () :=
  wcall_set_state a WCALL_STATE_MEDIA_ESTAB;;
  w ← get_wcall a;
  whandler H_MESTAB (WcMediaEstab (wc_convid w) userid clientid);;
  (wwhen (is_oneonone (wc_conv_type w)) (participants_changed a));;
  i ← uget;
  if wi_mm i
  then uemit [WcMm (if wc_video_call w then MEDIAMGR_STATE_INVIDEOCALL else MEDIAMGR_STATE_INCALL)]
  else udone (ask_icall a FnMediaStart).
Definition icall_media_stopped_handler (a : nat) : WM () :=
  w ← get_wcall a;
  wwhen (bool_decide (wc_state w = WCALL_STATE_TERM_LOCAL))
    (whandler H_MSTOP (WcMediaStopped (wc_convid w))).

(** [icall_audio_estab_handler], [icall_datachan_estab_handler] *)
Definition icall_audio_estab_handler (a : nat) (userid clientid : option string) (update : bool) : WM () :=
  w ← get_wcall a;
  uemit [WcStopSilencing];;
  (wwhen (negb update) (whandler H_ESTAB (WcEstab (wc_convid w) userid clientid)));;
  wwhen (is_oneonone (wc_conv_type w) && negb update) (participants_changed a).
Definition icall_datachan_estab_handler (a : nat) (userid clientid : option string) : WM () :=
  w ← get_wcall a;
  whandler H_DCESTAB (WcDatachanEstab (wc_convid w) userid clientid).

(** [icall_vstate_handler], [icall_audiocbr_handler], [icall_muted_changed_handler] *)
Definition icall_vstate_handler (a : nat) (userid clientid : option string) (state : icall_vstate) : WM () :=
  w ← get_wcall a;
  whandler H_VSTATE (WcVstate (wc_convid w) userid clientid state);;
  wwhen (negb (is_conference (wc_conv_type w))) (participants_changed a).
Definition icall_audiocbr_handler (a : nat) (userid clientid : option string) (enabled : bool) : WM () :=
  _ ← get_wcall a;
  whandler H_ACBR (WcAcbr userid clientid enabled).
Definition icall_muted_changed_handler (a : nat) : WM () := _ ← get_wcall a; participants_changed a.

(** [err2reason] *)
Definition err2reason (err : Z) : Z :=
  if err =? 0 then WCALL_REASON_NORMAL
  else if err =? ETIMEDOUT then WCALL_REASON_TIMEOUT
  else if err =? ETIMEDOUT_ECONN then WCALL_REASON_TIMEOUT_ECONN
  else if err =? ECONNRESET then WCALL_REASON_LOST_MEDIA
  else if err =? ECANCELED then WCALL_REASON_CANCELED
  else if err =? EALREADY then WCALL_REASON_ANSWERED_ELSEWHERE
  else if err =? EIO then WCALL_REASON_IO_ERROR
  else if err =? EDATACHANNEL then WCALL_REASON_DATACHANNEL
  else if err =? EREMOTE then WCALL_REASON_REJECTED
  else if err =? ENOONEJOINED then WCALL_REASON_NOONE_JOINED
  else if err =? EEVERYONELEFT then WCALL_REASON_EVERYONE_LEFT
  else if err =? EDURATION then WCALL_REASON_DURATION
  else WCALL_REASON_ERROR.

(** [icall_close_handler] *)
Definition report_close (a : nat) (err : Z) (metrics : option icall_metrics) (msg_time : Z)
    (userid clientid : option string) : WM () :=
  w ← get_wcall a;
  (wwhen (negb (bool_decide (wc_state w = WCALL_STATE_TERM_LOCAL)))
     (wcall_set_state a WCALL_STATE_TERM_REMOTE));;
  wcall_set_state a WCALL_STATE_NONE;;
  i ← uget;
  let ignore_close := wi_processing i
                      && bool_decide (is_Some (find_pending_event (wi_pending i) (wc_convid w))) in
  (wwhen (negb ignore_close)
     (whandler H_CLOSE (WcClosed (err2reason err) (wc_convid w) msg_time (default (wi_userid i) userid)
                          clientid)));;
  match metrics with
  | Some m =>
    n ← wnext;
    wwhen (negb (wi_processing i) && wc_metrics_ok n)
      (whandler H_METRICS (WcMetrics (wc_convid w) m (Some (err2reason err))))
  | None => mret ()
  end.
Definition icall_close_handler (a : nat) (err : Z) (metrics : option icall_metrics) (msg_time : Z)
    (userid clientid : option string) : WM () :=
  w ← get_wcall a;
  (wwhen (negb (bool_decide (wc_state w = WCALL_STATE_NONE)))
     (report_close a err metrics msg_time userid clientid));;
  wcall_deref a.

(** [icall_leave_handler] *)
Definition leave_reason (reason : Z) : Z :=
  if reason =? ICALL_REASON_STILL_ONGOING then WCALL_REASON_STILL_ONGOING
  else if reason =? ICALL_REASON_ANSWERED_ELSEWHERE then WCALL_REASON_ANSWERED_ELSEWHERE
  else if reason =? ICALL_REASON_REJECTED then WCALL_REASON_REJECTED
  else if reason =? ICALL_REASON_OUTDATED_CLIENT then WCALL_REASON_OUTDATED_CLIENT
  else if reason =? ICALL_REASON_TIMEOUT then WCALL_REASON_TIMEOUT
  else if reason =? ICALL_REASON_NOONE_JOINED then WCALL_REASON_NOONE_JOINED
  else if reason =? ICALL_REASON_EVERYONE_LEFT then WCALL_REASON_EVERYONE_LEFT
  else if reason =? ICALL_REASON_AUTH_FAILED then WCALL_REASON_AUTH_FAILED
  else if reason =? ICALL_REASON_AUTH_FAILED_START then WCALL_REASON_AUTH_FAILED_START
  else if reason =? ICALL_REASON_DURATION then WCALL_REASON_DURATION
  else WCALL_REASON_NORMAL.
Definition wcall_silence (a : nat) : WM () :=
  set_wcall a (λ w, {| w with wc_disable_audio := true |});;
  has_calls ← wcall_has_calls;
  wwhen (negb has_calls) (set_mm MEDIAMGR_STATE_NORMAL).
Definition icall_leave_handler (a : nat) (reason msg_time : Z) : WM () :=
  wcall_set_state a WCALL_STATE_INCOMING;;
  w ← get_wcall a;
  i ← uget;
  (if wi_processing i && bool_decide (is_Some (find_pending_event (wi_pending i) (wc_convid w)))
   then umodify (λ i, {| i with wi_pending :=
          update_event (λ ie, [{| ie with ie_should_ring := false |}]) (wc_convid w) (wi_pending i) |})
   else whandler H_CLOSE (WcClosed (leave_reason reason) (wc_convid w) msg_time (wi_userid i)
                            (Some (wi_clientid i))));;
  wcall_silence a.

(** [icall_group_changed_handler], [icall_metrics_handler] *)
Definition icall_group_changed_handler (a : nat) : WM () :=
  w ← get_wcall a;
  whandler H_GROUP_CHANGED (WcGroupChanged (wc_convid w));;
  participants_changed a.
Definition icall_metrics_handler (a : nat) (metrics : option icall_metrics) : WM () :=
  w ← get_wcall a;
  match metrics with
  | Some m => n ← wnext; wwhen (wc_metrics_ok n) (whandler H_METRICS (WcMetrics (wc_convid w) m None))
  | None => mret ()
  end.

(** [ctx_alloc], [icall_send_handler], [icall_sft_handler] *)
Definition ctx_alloc (a : nat) : WM (Z + nat) :=
  n ← wnext;
  if negb (wc_mem n) then mret (inl ENOMEM)
  else
    i ← uget;
    umodify (λ i, {| i with wi_ctxl := wi_ctxl i ++ [(wi_naddr i, a)]; wi_naddr := S (wi_naddr i) |});;
    mret (inr (wi_naddr i)).
Definition icall_send_handler (a : nat) (h : props_heap) (userid : string) (msg : econn_message)
    (targets : list icall_client) (my_clients_only : bool) : WM Z :=
  w ← get_wcall a;
  i ← uget;
  if negb (wi_h i H_SEND) then mret ENOSYS
  else
    ctx ← ctx_alloc a;
    match ctx with
    | inl err => mret err
    | inr ctx =>
      text ← of_ptr (econn_message_encode h msg);
      match text with
      | inl err => mret err
      | inr text =>
        uemit [WcSend ctx (wc_convid w) userid text targets (transient msg) my_clients_only];;
        n ← wnext;
        mret (wc_ret n)
      end
    end.
Definition icall_sft_handler (a : nat) (h : props_heap) (url : string) (msg : econn_message) : WM Z :=
  _ ← get_wcall a;
  i ← uget;
  if negb (wi_h i H_SFT) then mret ENOSYS
  else
    ctx ← ctx_alloc a;
    match ctx with
    | inl err => mret err
    | inr ctx =>
      text ← of_ptr (econn_message_encode h msg);
      match text with
      | inl err => mret err
      | inr text => uemit [WcSft ctx url text];; n ← wnext; mret (wc_ret n)
      end
    end.

(** [icall_quality_handler] *)
Definition icall_quality_handler (a : nat) (userid clientid : option string) (stats : stats_report) : WM () :=
  w ← get_wcall a;
  i ← uget;
  if negb (wi_h i H_NETWORK_QUALITY) then mret ()
  else
    n ← wnext;
    let lost x := (st_lost_tx stats =? x) && (st_lost_rx stats =? x) in
    let quality := if lost ICALL_NETWORK_PROBLEM then WCALL_QUALITY_NETWORK_PROBLEM
                   else if lost ICALL_RECONNECTING then WCALL_QUALITY_RECONNECTING
                   else wc_normal n in
    let stats' := if lost ICALL_NETWORK_PROBLEM || lost ICALL_RECONNECTING
                  then {| stats with st_lost_tx := 0; st_lost_rx := 0 |} else stats in
    uemit [WcQuality (wc_convid w) userid clientid quality stats'];;
    wwhen ((quality =? WCALL_QUALITY_RECONNECTING) && negb (is_conference (wc_conv_type w)))
      (participants_changed a).

(** [icall_req_clients_handler], [icall_aulevel_handler], [icall_req_new_epoch_handler] *)
Definition icall_req_clients_handler (a : nat) : WM () :=
  w ← get_wcall a; whandler H_REQ_CLIENTS (WcReqClients (wc_convid w)).
Definition icall_aulevel_handler (a : nat) : WM () :=
  w ← get_wcall a;
  n ← wnext;
  wwhen (wc_levels n =? 0) (whandler H_ACTIVE_SPEAKER (WcSpeakers (wc_convid w))).
Definition icall_req_new_epoch_handler (a : nat) : WM () :=
  w ← get_wcall a; whandler H_REQ_NEW_EPOCH (WcNewEpoch (wc_convid w)).

(** A callback for the [wcall] that is the argument of the call object. *)
Definition handle (a : nat) (cb : icall_callback) : WM () :=
  match cb with
  | OnStart t u c v r ct => icall_start_handler a t u c v r ct
  | OnAnswer => icall_answer_handler a
  | OnMediaEstab u c _ => icall_media_estab_handler a u c
  | OnMediaStopped => icall_media_stopped_handler a
  | OnAudioEstab u c b => icall_audio_estab_handler a u c b
  | OnDatachanEstab u c _ => icall_datachan_estab_handler a u c
  | OnVstate u c v => icall_vstate_handler a u c v
  | OnAudiocbr u c b => icall_audiocbr_handler a u c b
  | OnMutedChanged _ _ _ => icall_muted_changed_handler a
  | OnClose err m t u c => icall_close_handler a err m t u c
  | OnLeave r t => icall_leave_handler a r t
  | OnGroupChanged => icall_group_changed_handler a
  | OnMetrics m => icall_metrics_handler a m
  | OnSend h u msg l b => udone (icall_send_handler a h u msg l b)
  | OnSft h url msg => udone (icall_sft_handler a h url msg)
  | OnQuality u c s _ => icall_quality_handler a u c s
  | OnReqClients => icall_req_clients_handler a
  | OnAulevel => icall_aulevel_handler a
  | OnReqNewEpoch => icall_req_new_epoch_handler a
  end.
Fixpoint handle_all (a : nat) (l : list icall_callback) : WM () :=
  match l with [] => mret () | cb :: l => handle a cb;; handle_all a l end.

(** [ICALL_CALL], [ICALL_CALLE] *)
Definition call_icall (a : nat) (f : icall_fn) : WM Z :=
  w ← get_wcall a;
  if negb (has_fn (wc_icall w) f) then mret 0
  else
    uemit [WcCall a f];;
    n ← wnext;
    handle_all a (wc_callbacks n f);;
    mret (wc_ret n).
End Ops.
