(* ===== verification/WcallOps.v ===== *)
(** * The operations of an instance ([src/wcall/wcall.c], [src/wcall/marshal.c])

    The events of the application and of the platform, which [mqueue_handler] hands to
    an instance one at a time.  [None] is also a loop that runs for ever
    ([wcall_duration_lookup]). *)

From stdpp Require Import gmap.
From S2P Require Import Prelude LibRe LibReJson Jzon EconnMsg EconnFmt Icall AudioLevel UserList Config Wcall.

#[local] Open Scope string_scope.
#[local] Open Scope Z_scope.
#[local] Open Scope list_scope.

Section Ops.
Context `{LibRe, LibReJson, WcEnv}.

(** ** Adding a call *)

(** The servers that a loop over an array and its count reads. *)
Definition server_list (p : option (list zapi_ice_server) * option nat) : option (list zapi_ice_server) :=
  match p with
  | (_, None) => Some []
  | (None, Some _) => None
  | (Some v, Some n) => if (n <=? length v)%nat then Some (take n v) else None
  end.
Definition server_count (p : option (list zapi_ice_server) * option nat) : nat := default 0%nat (p.2).

Fixpoint add_servers (a : nat) (k : icall_kind) (f : zapi_ice_server → icall_fn)
    (l : list zapi_ice_server) (err : Z) : WM Z :=
  match l with
  | [] => mret err
  | srv :: l => err ← ask_new a k (f srv); add_servers a k f l err
  end.

Definition kind_of (ct : icall_conv_type) : icall_kind :=
  match ct with
  | ICALL_CONV_TYPE_ONEONONE => IcEcall
  | ICALL_CONV_TYPE_GROUP => IcEgcall
  | ICALL_CONV_TYPE_CONFERENCE | ICALL_CONV_TYPE_CONFERENCE_MLS => IcCcall
  end.

(** The configuration of a new call object; the error is that of the last call. *)
Definition set_up_icall (a : nat) (k : icall_kind) : WM Z :=
  i ← uget;
  let turn := config_get_iceservers (wi_cfg i) in
  let sft := config_get_sftservers (wi_cfg i) in
  err ← ask_new a k (FnSetQualityInterval (wi_interval i));
  turnv ← of_ptr (server_list turn);
  err ← add_servers a k FnAddTurnserver turnv err;
  err ← (if negb (has_fn k (FnAddSft ""))
         then mret (if (server_count sft =? 0)%nat then err else 0)
         else sftv ← of_ptr (server_list sft); add_servers a k (λ s, FnAddSft (srv_url s)) sftv err);
  if wi_media_laddr i then ask_new a k FnSetMediaLaddr else mret err.

(** [wcall_add] *)
Definition wcall_add (convid : string) (conv_type : icall_conv_type) (meeting : bool) : WM (Z + nat) :=
  i ← uget;
  match wcall_lookup i convid with
  | Some _ => mret (inl EALREADY)
  | None =>
    n ← wnext;
    if negb (wc_mem n) then mret (inl EINVAL)
    else
      let a := wi_naddr i in
      umodify (λ i, {| i with wi_naddr := S (wi_naddr i) |});;
      let ct := if (server_count (config_get_sftservers (wi_cfg i)) =? 0)%nat && is_conference conv_type
                then ICALL_CONV_TYPE_GROUP else conv_type in
      let k := kind_of ct in
      uemit [WcAlloc a k convid (bool_decide (ct = ICALL_CONV_TYPE_CONFERENCE_MLS)) meeting];;
      n ← wnext;
      if negb (wc_alloc n =? 0) then wcall_destructor false a;; mret (inl (wc_alloc n))
      else
        (wwhen (is_conference ct) (uemit [WcSetConfig a]));;
        err ← set_up_icall a k;
        umodify (λ i, {| i with wi_wcalls := wi_wcalls i ++
          [{| wc_addr := a; wc_convid := convid; wc_conv_type := conv_type; wc_duration := 0;
              wc_icall := k; wc_video_call := false; wc_state := WCALL_STATE_NONE;
              wc_disable_audio := false; wc_refs := 1 |}] |});;
        if negb (err =? 0) then wcall_deref a;; mret (inl err) else mret (inr a)
  end.

(** ** Notifications *)

(** [handle_pending_events], [wcall_i_process_notifications] *)
Fixpoint handle_pending_events (l : list incoming_event) : WM () :=
  match l with
  | [] => mret ()
  | e :: l =>
    invoke_incoming e;;
    umodify (λ i, {| i with wi_pending := tail (wi_pending i) |});;
    handle_pending_events l
  end.
Definition wcall_i_process_notifications (processing : bool) : WM () :=
  i ← uget;
  umodify (λ i, {| i with wi_processing := processing |});;
  wwhen (wi_processing i && negb processing) (handle_pending_events (wi_pending i)).

(** ** The operations on a call *)

(** [wcall_end_internal], [wcall_i_end] *)
Definition wcall_end_internal (a : nat) : WM () :=
  w ← get_wcall a;
  (wwhen (negb (bool_decide (wc_state w = WCALL_STATE_TERM_REMOTE)))
     (wcall_set_state a WCALL_STATE_TERM_LOCAL));;
  udone (call_icall a FnEnd);;
  wcall_silence a.
Definition wcall_i_end (a : nat) : WM () := wcall_end_internal a.

Definition is_video_call (call_type : wcall_call_type) : bool := bool_decide (call_type = WCALL_CALL_TYPE_VIDEO).
Definition video_state (video : bool) : icall_vstate :=
  if video then ICALL_VIDEO_STATE_STARTED else ICALL_VIDEO_STATE_STOPPED.

(** [wcall_i_start] *)
Definition wcall_i_start (a : nat) (call_type : wcall_call_type) (audio_cbr meeting : bool) : WM Z :=
  let video := is_video_call call_type in
  set_wcall a (λ w, {| w with wc_disable_audio := false; wc_video_call := video |});;
  w ← get_wcall a;
  (wwhen (bool_decide (wc_state w = WCALL_STATE_NONE)) (wcall_set_state a WCALL_STATE_OUTGOING));;
  udone (call_icall a (FnSetVideoSendState (video_state video)));;
  w ← get_wcall a;
  (wwhen (negb (wc_duration w =? 0)) (udone (call_icall a (FnSetDuration (wc_duration w)))));;
  err ← call_icall a (FnStart video audio_cbr meeting);
  if negb (err =? 0) then mret err
  else
    set_mm (if video then MEDIAMGR_STATE_OUTGOING_VIDEO_CALL else MEDIAMGR_STATE_OUTGOING_AUDIO_CALL);;
    mret 0.

(** [wcall_i_answer] *)
Definition wcall_i_answer (a : nat) (call_type : wcall_call_type) (audio_cbr : bool) : WM Z :=
  let video := is_video_call call_type in
  set_wcall a (λ w, {| w with wc_disable_audio := false |});;
  w ← get_wcall a;
  if bool_decide (wc_state w = WCALL_STATE_ANSWERED ∨ wc_state w = WCALL_STATE_MEDIA_ESTAB) then mret 0
  else
    wcall_set_state a WCALL_STATE_ANSWERED;;
    udone (call_icall a (FnSetVideoSendState (video_state video)));;
    call_icall a (FnAnswer video audio_cbr).

(** [wcall_i_reject] *)
Definition wcall_i_reject (a : nat) : WM Z :=
  w ← get_wcall a;
  let reason := if is_oneonone (wc_conv_type w) then WCALL_REASON_REJECTED else WCALL_REASON_STILL_ONGOING in
  wcall_silence a;;
  (wwhen (bool_decide (wc_state w = WCALL_STATE_INCOMING))
     (udone (call_icall a FnReject);;
      i ← uget;
      wwhen (wi_h i H_CLOSE)
        (w ← get_wcall a;
         uemit [WcClosed reason (wc_convid w) ECONN_MESSAGE_TIME_UNKNOWN (wi_userid i)
                  (Some (wi_clientid i))])));;
  mret 0.

(** [wcall_i_set_duration] *)
Definition wcall_i_set_duration (a : nat) (duration : Z) : WM () :=
  set_wcall a (λ w, {| w with wc_duration := duration |});;
  udone (call_icall a (FnSetDuration duration)).

(** [wcall_i_set_video_send_state] *)
Definition wcall_i_set_video_send_state (a : nat) (state : icall_vstate) : WM () :=
  if bool_decide (state = ICALL_VIDEO_STATE_BAD_CONN) then mret ()
  else
    udone (call_icall a (FnSetVideoSendState state));;
    w ← get_wcall a;
    wwhen (bool_decide (wc_state w = WCALL_STATE_MEDIA_ESTAB))
      (set_mm (if bool_decide (state = ICALL_VIDEO_STATE_STARTED)
               then MEDIAMGR_STATE_INVIDEOCALL else MEDIAMGR_STATE_INCALL)).

(** The clients of [wcall_set_clients_for_epoch] and of
    [wcall_i_request_video_streams]: [None] if an element is missing. *)
Fixpoint read_clients (read : json_object → icall_client → icall_client) (jclients : json_object)
    (i : Z) (n : nat) : option (list icall_client) :=
  match n with
  | O => Some []
  | S n =>
    jcli ← json_object_array_get_idx (Some jclients) i;
    l ← read_clients read jclients (i + 1) n;
    Some (match jzon_str (Some jcli) "userid", jzon_str (Some jcli) "clientid" with
          | Some uid, Some cid => read jcli (icall_client_alloc (Some uid) (Some cid)) :: l
          | _, _ => l
          end)
  end.
Definition clients_of (read : json_object → icall_client → icall_client) (json : string)
    : option (list icall_client) :=
  match jzon_decode (Some json) with
  | inl _ => None
  | inr jobj =>
    match jzon_array (Some jobj) "clients" with
    | inl _ => None
    | inr jclients =>
      if negb (jzon_is_array (Some jclients)) then None
      else read_clients read jclients 0 (Z.to_nat (json_object_array_length (Some jclients)))
    end
  end.

(** [wcall_set_clients_for_epoch], [wcall_i_set_clients_for_conv] *)
Definition with_subconv (jcli : json_object) (cli : icall_client) : icall_client :=
  {| cli with cl_in_subconv := or_keep (jzon_bool (Some jcli) "in_subconv") false |}.
Definition wcall_set_clients_for_epoch (a : nat) (json : string) (epoch : Z) : WM () :=
  _ ← get_wcall a;
  match clients_of with_subconv json with
  | None => mret ()
  | Some clientl => udone (call_icall a (FnSetClients clientl epoch))
  end.
Definition wcall_i_set_clients_for_conv (a : nat) (json : string) : WM () :=
  wcall_set_clients_for_epoch a json 0.

(** [wcall_i_request_video_streams] *)
Definition with_quality (jcli : json_object) (cli : icall_client) : icall_client :=
  {| cli with cl_quality := or_keep (jzon_int (Some jcli) "quality") 0 |}.
Definition wcall_i_request_video_streams (a : nat) (json : string) : WM () :=
  _ ← get_wcall a;
  match clients_of with_quality json with
  | None => mret ()
  | Some clientl => udone (call_icall a (FnRequestVideoStreams clientl))
  end.

(** [wcall_i_set_epoch_info] *)
Definition wcall_i_set_epoch_info (a : nat) (epochid : Z) (clients_json : string) (key : list Z) : WM () :=
  wcall_set_clients_for_epoch a clients_json epochid;;
  udone (call_icall a (FnSetMediaKey epochid key)).

(** [wcall_i_dce_send] *)
Definition wcall_i_dce_send (a : nat) : WM () := udone (call_icall a FnDceSend).

(** ** The operations on all calls *)

(** [LIST_FOREACH] over the calls: the next one is read from the current one after
    the body. *)
Fixpoint each_wcall (f : nat → WM ()) (l : list nat) : WM () :=
  match l with
  | [] => mret ()
  | a :: l => f a;; _ ← get_wcall a; each_wcall f l
  end.
Definition foreach_wcall (f : nat → WM ()) : WM () :=
  i ← uget; each_wcall f (wc_addr <$> wi_wcalls i).

(** [msys_mute_handler], [msys_activate_handler], [wcall_set_background] *)
Definition msys_mute_handler (muted : bool) : WM () :=
  whandler H_MUTE (WcMuted muted);;
  foreach_wcall (λ a, udone (call_icall a FnUpdateMuteState);; call_group_change_json a).
Definition msys_activate_handler (active : bool) : WM () :=
  foreach_wcall (λ a, udone (call_icall a (FnActivate active))).
Definition wcall_set_background (background : bool) : WM () :=
  foreach_wcall (λ a, udone (call_icall a (FnSetBackground background))).

(** [wcall_set_network_quality_handler]; the handler is set when [netqh]. *)
Definition wcall_set_network_quality_handler (netqh : bool) (interval : Z) : WM () :=
  umodify (λ i, let h := wi_h i in
    {| i with wi_h := (λ x, match x with H_NETWORK_QUALITY => netqh | _ => h x end);
              wi_interval := s32 (interval * 1000) |});;
  i ← uget;
  foreach_wcall (λ a, udone (call_icall a (FnSetQualityInterval (wi_interval i)))).

(** [call_restart_handler], [tmr_roaming_handler], [wcall_i_network_changed]: the next
    call is read before the current one is restarted. *)
Fixpoint restart_all (l : list nat) : WM () :=
  match l with
  | [] => mret ()
  | a :: l => udone (call_icall a FnRestart);; restart_all l
  end.
Definition tmr_roaming_handler : WM () :=
  umodify (λ i, {| i with wi_tmr_roam := false |});;
  i ← uget; restart_all (wc_addr <$> wi_wcalls i).
Definition wcall_i_network_changed : WM () := umodify (λ i, {| i with wi_tmr_roam := true |}).

(** [wcall_i_mcat_changed]: the calls are kept alive in a list of entries; a call is
    read from the entry of the round before, the first one from the last entry. *)
Fixpoint ref_all (l : list nat) : WM () :=
  match l with
  | [] => mret ()
  | a :: l =>
    n ← wnext;
    if negb (wc_mem n) then undef else wcall_ref a;; ref_all l
  end.
Fixpoint deref_all (l : list nat) : WM () :=
  match l with [] => mret () | a :: l => wcall_deref a;; deref_all l end.
Definition mcat_one (state : mediamgr_state) (a : nat) : WM () :=
  match state with
  | MEDIAMGR_STATE_INCALL | MEDIAMGR_STATE_INVIDEOCALL | MEDIAMGR_STATE_RESUME =>
    udone (call_icall a FnMediaStart)
  | MEDIAMGR_STATE_HOLD => udone (call_icall a FnMediaStop)
  | MEDIAMGR_STATE_ERROR => wcall_end_internal a
  | _ => mret ()
  end.
Fixpoint mcat_loop (state : mediamgr_state) (we : nat) (l : list nat) : WM () :=
  match l with
  | [] => mret ()
  | a :: l => mcat_one state we;; mcat_loop state a l
  end.
Definition wcall_i_mcat_changed (state : mediamgr_state) : WM () :=
  i ← uget;
  let l := wc_addr <$> wi_wcalls i in
  ref_all l;;
  mcat_loop state (default 0%nat (last l)) l;;
  deref_all l.

(** ** Events that wait for the configuration *)

(** [wcall_duration_add] *)
Definition wcall_duration_add (convid : string) (duration : Z) : WM Z :=
  n ← wnext;
  if negb (wc_mem n) then mret ENOMEM
  else umodify (λ i, {| i with wi_durationl := wi_durationl i ++ [(convid, duration)] |});; mret 0.

(** [wcall_duration_lookup]: the loop stays at the first entry. *)
Definition wcall_duration_lookup (convid : string) : WM (option Z) :=
  i ← uget;
  match wi_durationl i with
  | [] => mret None
  | (c, d) :: _ => if String.eqb c convid then mret (Some d) else undef
  end.

(** [wcall_is_ready] *)
Definition wcall_is_ready (i : calling_instance) (conv_type : icall_conv_type) : bool :=
  if is_oneonone conv_type then wi_call_config i else true.
Definition pend_ready (e : ready_event) : WM () :=
  umodify (λ i, {| i with wi_ready_pendingl := wi_ready_pendingl i ++ [e] |}).

(** [WCALL_MEV_START] *)
Definition start_wcall (a : nat) (convid : string) (call_type : wcall_call_type)
    (audio_cbr meeting : bool) : WM () :=
  dent ← wcall_duration_lookup convid;
  (match dent with
   | None => mret ()
   | Some d =>
     wcall_i_set_duration a d;;
     umodify (λ i, {| i with wi_durationl := tail (wi_durationl i) |})
   end);;
  err ← wcall_i_start a call_type audio_cbr meeting;
  wwhen (negb (err =? 0)) (wcall_i_end a).
Definition handle_start (convid : string) (call_type : wcall_call_type) (conv_type : icall_conv_type)
    (audio_cbr meeting : bool) : WM () :=
  i ← uget;
  if negb (wcall_is_ready i conv_type)
  then pend_ready (RdStart convid call_type conv_type audio_cbr meeting)
  else
    match wcall_lookup i convid with
    | Some w => start_wcall (wc_addr w) convid call_type audio_cbr meeting
    | None =>
      r ← wcall_add convid conv_type meeting;
      match r with
      | inl _ => mret ()
      | inr a => start_wcall a convid call_type audio_cbr meeting
      end
    end.

(** [WCALL_MEV_ANSWER]: the type of the conversation is read from the other member of
    the union, where an answer has [audio_cbr]. *)
Definition handle_answer (convid : string) (call_type : wcall_call_type) (audio_cbr : bool) : WM () :=
  i ← uget;
  if negb (wcall_is_ready i (if audio_cbr then ICALL_CONV_TYPE_GROUP else ICALL_CONV_TYPE_ONEONONE))
  then pend_ready (RdAnswer convid call_type audio_cbr)
  else
    match wcall_lookup i convid with
    | None => mret ()
    | Some w =>
      err ← wcall_i_answer (wc_addr w) call_type audio_cbr;
      wwhen (negb (err =? 0)) (wcall_i_end (wc_addr w))
    end.

(** [wcall_invoke_ready] *)
Fixpoint invoke_ready_loop (l : list ready_event) : WM () :=
  match l with
  | [] => mret ()
  | e :: l =>
    umodify (λ i, {| i with wi_ready_pendingl := tail (wi_ready_pendingl i) |});;
    (match e with
     | RdStart convid call_type conv_type cbr meeting => handle_start convid call_type conv_type cbr meeting
     | RdAnswer convid call_type cbr => handle_answer convid call_type cbr
     end);;
    invoke_ready_loop l
  end.
Definition wcall_invoke_ready : WM () := i ← uget; invoke_ready_loop (wi_ready_pendingl i).

(** [add_wcall] *)
Definition conference_type (conv_type : icall_conv_type) : icall_conv_type :=
  if bool_decide (conv_type = ICALL_CONV_TYPE_CONFERENCE_MLS) then conv_type else ICALL_CONV_TYPE_CONFERENCE.
Definition add_wcall (msg : econn_message) (convid userid : string) (conv_type : icall_conv_type)
    (meeting : bool) : WM (Z + nat) :=
  i ← uget;
  let req := econn_message_isrequest msg in
  let has t := bool_decide (msg_type msg = t) in
  if has ECONN_GROUP_START && req then wcall_add convid ICALL_CONV_TYPE_GROUP meeting
  else if has ECONN_GROUP_CHECK && negb req then wcall_add convid ICALL_CONV_TYPE_GROUP meeting
  else if has ECONN_CONF_START && req then wcall_add convid (conference_type conv_type) meeting
  else if has ECONN_CONF_CHECK && negb req then wcall_add convid (conference_type conv_type) meeting
  else if econn_is_creator (Some (wi_userid i)) (Some userid) (Some msg)
  then wcall_add convid ICALL_CONV_TYPE_ONEONONE meeting
  else mret (inl EPROTO).

(** [config_update_handler] *)
Definition deliver_update (e : config_update_entry) : WM () :=
  r ← add_wcall (ce_msg e) (ce_convid e) (ce_userid e) (ce_conv_type e) (ce_meeting e);
  match r with
  | inl _ => mret ()
  | inr a =>
    udone (call_icall a (FnMsgRecv (ce_curr_time e) (ce_msg_time e) (ce_userid e) (ce_clientid e) (ce_msg e)))
  end.
Fixpoint update_loop (l : list config_update_entry) : WM () :=
  match l with
  | [] => mret ()
  | e :: l =>
    deliver_update e;;
    umodify (λ i, {| i with wi_config_updatel := tail (wi_config_updatel i) |});;
    update_loop l
  end.
Definition config_update_handler : WM () :=
  i ← uget;
  umodify (λ i, {| i with wi_call_config := true |});;
  (wwhen (negb (wi_call_config i) && wi_h i H_READY) (uemit [WcReady];; wcall_invoke_ready));;
  i ← uget;
  update_loop (wi_config_updatel i).

(** [wcall_i_config_update]: the handler of the instance is that of its configuration. *)
Fixpoint run_updates (l : list config_event) : WM () :=
  match l with
  | [] => mret ()
  | CgUpdate None _ :: l => config_update_handler;; run_updates l
  | _ :: l => run_updates l
  end.
Definition wcall_i_config_update (err : Z) (json_str : option string) : WM () :=
  n ← wnext;
  i ← uget;
  let r := config_update err json_str (wc_now n) (wi_cfg i) in
  umodify (λ i, {| i with wi_cfg := final r |});;
  run_updates (events r).

(** ** Messages *)

(** [wcall_i_recv_msg]; [heap] holds the properties of the message. *)
Definition report_missed (heap : props_heap) (msg : econn_message) (msg_time : Z)
    (convid userid clientid : string) : WM () :=
  match setup_props msg with
  | None => mret ()
  | Some p =>
    vr ← of_ptr (econn_props_get heap (Some p) (Some "videosend"));
    whandler H_MISSED (WcMissed convid msg_time userid clientid
                         (match vr with Some vr => String.eqb vr "true" | None => false end))
  end.
Definition wcall_i_recv_msg (heap : props_heap) (msg : econn_message) (curr_time msg_time : Z)
    (convid userid clientid : string) (conv_type : icall_conv_type) (meeting : bool) : WM () :=
  i ← uget;
  let recv a := udone (call_icall a (FnMsgRecv curr_time msg_time userid clientid msg)) in
  if econn_is_creator (Some (wi_userid i)) (Some userid) (Some msg)
     && (wi_timeout_setup i <? u32 (msg_age msg * 1000))
  then report_missed heap msg msg_time convid userid clientid
  else
    match wcall_lookup i convid with
    | Some w => recv (wc_addr w)
    | None =>
      n ← wnext;
      if config_needs_update (wi_cfg i) (wc_now n)
      then
        wwhen (wc_mem n)
          (umodify (λ i, {| i with wi_config_updatel := wi_config_updatel i ++
             [{| ce_msg := msg; ce_curr_time := curr_time; ce_msg_time := msg_time; ce_convid := convid;
                 ce_userid := userid; ce_clientid := clientid; ce_conv_type := conv_type;
                 ce_meeting := meeting |}] |}))
      else
        r ← add_wcall msg convid userid conv_type meeting;
        match r with inl _ => mret () | inr a => recv a end
    end.

(** [wcall_i_resp]: the context is read before it is looked for. *)
Definition find_ctx (i : calling_instance) (ctx : nat) : option (nat * nat) :=
  List.find (λ c, c.1 =? ctx)%nat (wi_ctxl i).
Definition release_ctx (ctx : nat) : WM () :=
  umodify (λ i, {| i with wi_ctxl := filter (λ c, c.1 ≠ ctx) (wi_ctxl i) |}).
Definition wcall_i_resp (ctx : option nat) : WM () :=
  match ctx with
  | None => mret ()
  | Some ctx => i ← uget; _ ← of_ptr (find_ctx i ctx); release_ctx ctx
  end.

(** [wcall_i_sft_resp]: the entries are those there was memory for. *)
Fixpoint copy_ctxl (l : list (nat * nat)) : WM (list nat) :=
  match l with
  | [] => mret []
  | c :: l => n ← wnext; r ← copy_ctxl l; mret (if wc_mem n then c.1 :: r else r)
  end.
Definition wcall_i_sft_resp (status : Z) (msg : option econn_message) (ctx : option nat) : WM () :=
  match ctx with
  | None => mret ()
  | Some ctx =>
    i ← uget;
    c ← of_ptr (find_ctx i ctx);
    _ ← get_wcall (c.2);
    l ← copy_ctxl (wi_ctxl i);
    wwhen (bool_decide (ctx ∈ l))
      (udone (call_icall (c.2) (FnSftMsgRecv status msg));; release_ctx ctx)
  end.

(** ** The end of an instance *)

(** The calls of [instance_destroy]: the first one is released until it is gone. *)
Fixpoint release_calls (l : list wcall) : WM () :=
  match l with [] => mret () | w :: l => wcall_destructor true (wc_addr w);; release_calls l end.
Definition wcall_i_destroy : WM () :=
  i ← uget;
  umodify (λ i, {| i with wi_tmr_roam := false |});;
  release_calls (wi_wcalls i);;
  umodify (λ i, {| i with wi_ctxl := [] |}).

(** ** The queue of events *)

(** [struct mq_data]; a route that changes is the media system's. *)
Inductive mq_data :=
| MEV_RECV_MSG (heap : props_heap) (msg : econn_message) (curr_time msg_time : Z)
    (convid userid clientid : string) (conv_type : icall_conv_type) (meeting : bool)
| MEV_CONFIG_UPDATE (err : Z) (json_str : option string)
| MEV_RESP (arg : option nat)
| MEV_SFT_RESP (err : Z) (msg : option econn_message) (ctx : option nat)
| MEV_START (convid : string) (call_type : wcall_call_type) (conv_type : icall_conv_type)
    (audio_cbr meeting : bool)
| MEV_ANSWER (convid : string) (call_type : wcall_call_type) (audio_cbr : bool)
| MEV_REJECT (convid : string)
| MEV_END (convid : string)
| MEV_VIDEO_SET_STATE (convid : string) (state : icall_vstate)
| MEV_MCAT_CHANGED (state : mediamgr_state)
| MEV_AUDIO_ROUTE_CHANGED
| MEV_NETWORK_CHANGED
| MEV_INCOMING (e : incoming_event)
| MEV_DCE_SEND (convid : string)
| MEV_SET_CLIENTS (convid json : string)
| MEV_DESTROY
| MEV_SET_MUTE (muted : bool)
| MEV_SET_DURATION (convid : string) (duration : Z)
| MEV_REQ_VSTREAMS (convid json : string)
| MEV_SET_EPOCH_INFO (convid : string) (epochid : Z) (clients_json : string) (key : list Z)
| MEV_PROCESS_NOTIFICATIONS (processing : bool).

Definition on_wcall (convid : string) (f : nat → WM ()) : WM () :=
  i ← uget;
  match wcall_lookup i convid with None => mret () | Some w => f (wc_addr w) end.

(** [mqueue_handler] *)
Definition mqueue_handler (md : mq_data) : WM () :=
  match md with
  | MEV_RECV_MSG h msg ct mt cv u c conv_type meeting => wcall_i_recv_msg h msg ct mt cv u c conv_type meeting
  | MEV_CONFIG_UPDATE err json_str => wcall_i_config_update err json_str
  | MEV_RESP arg => wcall_i_resp arg
  | MEV_SFT_RESP err msg ctx => wcall_i_sft_resp err msg ctx
  | MEV_START cv call_type conv_type cbr meeting => handle_start cv call_type conv_type cbr meeting
  | MEV_ANSWER cv call_type cbr => handle_answer cv call_type cbr
  | MEV_REJECT cv => on_wcall cv (λ a, udone (wcall_i_reject a))
  | MEV_END cv => on_wcall cv wcall_i_end
  | MEV_VIDEO_SET_STATE cv state => on_wcall cv (λ a, wcall_i_set_video_send_state a state)
  | MEV_MCAT_CHANGED state => wcall_i_mcat_changed state
  | MEV_AUDIO_ROUTE_CHANGED => mret ()
  | MEV_NETWORK_CHANGED => wcall_i_network_changed
  | MEV_INCOMING e => wcall_i_invoke_incoming_handler e
  | MEV_DCE_SEND cv => on_wcall cv wcall_i_dce_send
  | MEV_SET_CLIENTS cv json => on_wcall cv (λ a, wcall_i_set_clients_for_conv a json)
  | MEV_DESTROY => wcall_i_destroy
  | MEV_SET_MUTE muted => uemit [WcSetMute muted]
  | MEV_SET_DURATION cv d =>
    i ← uget;
    match wcall_lookup i cv with
    | Some w => wcall_i_set_duration (wc_addr w) d
    | None => udone (wcall_duration_add cv d)
    end
  | MEV_REQ_VSTREAMS cv json => on_wcall cv (λ a, wcall_i_request_video_streams a json)
  | MEV_SET_EPOCH_INFO cv epochid json key => on_wcall cv (λ a, wcall_i_set_epoch_info a epochid json key)
  | MEV_PROCESS_NOTIFICATIONS processing => wcall_i_process_notifications processing
  end.
End Ops.
