(* ===== verification/WcallSafe.v ===== *)
(** * How an instance changes, and its invariant

    The calls of an instance have different conversations and addresses ([wi_ok]).
    What the callbacks of a call object leave alone is [fixed]: [wkeeps a m] tells that
    [m] is defined where the call [a] exists, and leaves it so.  [close_spec] is what
    the closing of a call does to the list; [mcat_changed_spec] what a change of the
    media category does to all calls. *)

From stdpp Require Import gmap.
From S2P Require Import Prelude LibRe LibReJson Jzon EconnMsg EconnFmt Icall AudioLevel UserList CcallSft Config Wcall WcallOps.

#[local] Open Scope string_scope.
#[local] Open Scope Z_scope.
#[local] Open Scope list_scope.

(** ** What is fixed *)

Definition wcall_id (w : wcall) : nat * string * nat := (wc_addr w, wc_convid w, wc_refs w).
Definition skel (i : calling_instance) : list (nat * string * nat) := wcall_id <$> wi_wcalls i.
Definition fixed (i : calling_instance) :=
  (wi_cfg i, wi_durationl i, wi_call_config i,
   (wi_config_updatel i, wi_ready_pendingl i, wi_h i, wi_mm i, wi_media_laddr i)).

(** From [i] to [i'], with the calls [sk]. *)
Record evolve (sk : list (nat * string * nat)) (i i' : calling_instance) : Prop := {
  ev_skel : skel i' = sk;
  ev_fixed : fixed i' = fixed i;
  ev_naddr : (wi_naddr i ≤ wi_naddr i')%nat;
}.
Definition same (i i' : calling_instance) : Prop := evolve (skel i) i i'.

(** The calls that are told to end. *)
Definition ended (e : list wcall_event) : list nat :=
  omap (λ x, match x with WcCall a FnEnd => Some a | _ => None end) e.

Definition live (i : calling_instance) (a : nat) : Prop := a ∈ wc_addr <$> wi_wcalls i.

#[export] Instance same_preorder : PreOrder same.
Proof. split; [by split|]. intros i j k [] []. split; [congruence..|lia]. Qed.

Lemma evolve_after sk i i1 i2 : same i i1 → evolve sk i1 i2 → evolve sk i i2.
Proof. intros [] []. split; [done|congruence|lia]. Qed.
Lemma same_after sk i i1 i2 : evolve sk i i1 → same i1 i2 → evolve sk i i2.
Proof. intros [] []. split; [congruence..|lia]. Qed.

Lemma ended_app e1 e2 : ended (e1 ++ e2) = ended e1 ++ ended e2.
Proof. apply omap_app. Qed.

Lemma same_skel i i' : same i i' → skel i' = skel i.
Proof. by intros []. Qed.

Lemma live_skel i a : live i a ↔ a ∈ (λ p : nat * string * nat, p.1.1) <$> skel i.
Proof. unfold live, skel. by rewrite <- list_fmap_compose. Qed.
Lemma wlive_same i i' a : same i i' → live i a → live i' a.
Proof. intros Hs. rewrite !live_skel. by rewrite (same_skel _ _ Hs). Qed.

Lemma find_wcall_live i a : live i a → ∃ w, find_wcall i a = Some w ∧ w ∈ wi_wcalls i ∧ wc_addr w = a.
Proof.
  intros (w & -> & Hw)%list_elem_of_fmap. unfold find_wcall.
  destruct (List.find _ _) as [w'|] eqn:Hf.
  - apply find_some in Hf as [Hin He]. exists w'. split; [done|]. apply list_elem_of_In in Hin.
    by apply Nat.eqb_eq in He.
  - apply list_elem_of_In in Hw. pose proof (find_none _ _ Hf w Hw) as Hn. cbn in Hn.
    by rewrite Nat.eqb_refl in Hn.
Qed.

(** ** Computations that keep it *)

Definition ticked (i : calling_instance) : calling_instance := {| i with wi_tick := S (wi_tick i) |}.
Lemma wp_wnext (Q : nat → calling_instance → list wcall_event → Prop) i :
  Q (wi_tick i) (ticked i) [] → wp wnext Q i.
Proof. done. Qed.

Section Keeps.
Context `{LibRe, LibReJson, WcEnv}.

Definition wkeeps (a : nat) {A} (m : WM A) : Prop :=
  ∀ i, live i a → wp m (λ _ i' e, same i i' ∧ ended e = []) i.

Lemma wp_keeps a {A} (m : WM A) (Q : A → calling_instance → list wcall_event → Prop) i :
  wkeeps a m → live i a → (∀ x i' e, same i i' → live i' a → ended e = [] → Q x i' e) → wp m Q i.
Proof.
  intros Hm Hl HQ. eapply wp_mono; [by apply Hm|]. intros x i' e [Hs He].
  apply HQ; [done| |done]. by apply (wlive_same i).
Qed.

Lemma wkeeps_ret a {A} (x : A) : wkeeps a (mret x).
Proof. by intros i Hl. Qed.
Lemma wkeeps_bind a {A B} (m : WM A) (k : A → WM B) :
  wkeeps a m → (∀ x, wkeeps a (k x)) → wkeeps a (m ≫= k).
Proof.
  intros Hm Hk i Hl. apply wp_bind. eapply wp_mono; [by apply Hm|]. intros x i1 e1 [Hs He]. cbn beta.
  eapply wp_mono; [apply Hk; exact (wlive_same i i1 a Hs Hl)|]. intros y i2 e2 [Hs2 He2].
  split; [exact (transitivity Hs Hs2)|]. by rewrite ended_app, He, He2.
Qed.
Lemma wkeeps_get a : wkeeps a uget.
Proof. by intros i Hl. Qed.
Lemma wkeeps_emit a e : ended e = [] → wkeeps a (uemit e).
Proof. by intros He i Hl. Qed.
Lemma wkeeps_modify a f : (∀ i, same i (f i)) → wkeeps a (umodify f).
Proof. intros Hf i Hl. split; [apply Hf|done]. Qed.
Lemma wkeeps_udone a {A} (m : WM A) : wkeeps a m → wkeeps a (udone m).
Proof. intros Hm. apply wkeeps_bind; [done|]. intros x. apply wkeeps_ret. Qed.
Lemma wkeeps_wwhen a b m : (b = true → wkeeps a m) → wkeeps a (wwhen b m).
Proof. intros Hm. destruct b; [by apply Hm|apply wkeeps_ret]. Qed.
Lemma wkeeps_next a : wkeeps a wnext.
Proof. by intros i Hl. Qed.
Lemma wkeeps_of_ptr a {A} (o : option A) : is_Some o → wkeeps a (of_ptr o).
Proof. intros [x ->]. apply wkeeps_ret. Qed.

Lemma wkeeps_get_wcall a : wkeeps a (get_wcall a).
Proof.
  intros i Hl. destruct (find_wcall_live i a Hl) as (w & Hw & _).
  unfold get_wcall, wp, mbind, MU_bind, uget. rewrite Hw. done.
Qed.

Lemma update_skel f a (l : list wcall) :
  (∀ w, wcall_id (f w) = wcall_id w) →
  wcall_id <$> ((λ w, if (wc_addr w =? a)%nat then f w else w) <$> l) = wcall_id <$> l.
Proof.
  intros Hf. rewrite <- list_fmap_compose. apply list_fmap_ext. intros k w _. cbn.
  by case_match; rewrite ?Hf.
Qed.
Lemma wkeeps_set_wcall a f : (∀ w, wcall_id (f w) = wcall_id w) → wkeeps a (set_wcall a f).
Proof.
  intros Hf. unfold set_wcall. apply wkeeps_bind; [apply wkeeps_get_wcall|]. intros _.
  apply wkeeps_modify. intros i. split; [|done..]. unfold skel. cbn. by rewrite update_skel.
Qed.
End Keeps.

(** Step through a computation that keeps the instance. *)
Ltac keep_step :=
  lazymatch goal with
  | |- wkeeps _ (_ ≫= _) => apply wkeeps_bind; [|intros ?]
  | |- wkeeps _ (mret _) => apply wkeeps_ret
  | |- wkeeps _ uget => apply wkeeps_get
  | |- wkeeps _ (uemit _) => apply wkeeps_emit; try done
  | |- wkeeps _ wnext => apply wkeeps_next
  | |- wkeeps _ (udone _) => apply wkeeps_udone
  | |- wkeeps _ (wwhen _ _) => apply wkeeps_wwhen; intros ?
  | |- wkeeps _ (get_wcall _) => apply wkeeps_get_wcall
  | |- wkeeps _ (set_wcall _ _) => apply wkeeps_set_wcall; done
  | |- wkeeps _ (umodify _) => apply wkeeps_modify; intros ?; split; [done..|cbn; lia]
  | |- wkeeps _ (whandler _ _) => unfold whandler
  | |- wkeeps _ (set_mm _) => unfold set_mm
  | |- wkeeps _ wcall_has_calls => unfold wcall_has_calls
  | |- wkeeps _ (match ?x with _ => _ end) => destruct x
  end.
Ltac keep := repeat keep_step; try done.

Section Handlers.
Context `{LibRe, LibReJson, WcEnv}.

Lemma set_state_keeps a st : wkeeps a (wcall_set_state a st).
Proof. unfold wcall_set_state. keep. Qed.
Definition is_end (f : icall_fn) : bool := match f with FnEnd => true | _ => false end.
Lemma ended_call a f : ended [WcCall a f] = if is_end f then [a] else [].
Proof. by destruct f. Qed.
Lemma ask_icall_keeps a f : is_end f = false → wkeeps a (ask_icall a f).
Proof. intros Hf. unfold ask_icall, ask_new. keep. by rewrite ended_call, Hf. Qed.
Lemma participants_keeps a : wkeeps a (participants_changed a).
Proof. unfold participants_changed, call_group_change_json. keep. Qed.
Lemma invoke_incoming_keeps a e : wkeeps a (invoke_incoming e).
Proof. unfold invoke_incoming, wcall_i_invoke_incoming_handler. keep. Qed.
Lemma wcall_silence_keeps a : wkeeps a (wcall_silence a).
Proof. unfold wcall_silence. keep. Qed.
Lemma ctx_alloc_keeps a : wkeeps a (ctx_alloc a).
Proof. unfold ctx_alloc. keep. Qed.

(** A callback other than the closing, with a message that can be encoded. *)
Definition is_close (cb : icall_callback) : bool := match cb with OnClose _ _ _ _ _ => true | _ => false end.
Definition encodable (cb : icall_callback) : Prop :=
  match cb with
  | OnSend h _ msg _ _ | OnSft h _ msg => is_Some (econn_message_encode h msg)
  | _ => True
  end.

Lemma handle_keeps a cb : is_close cb = false → encodable cb → wkeeps a (handle a cb).
Proof.
  intros Hc He. destruct cb; try done; cbn [handle encodable] in *;
  unfold icall_start_handler, icall_answer_handler, icall_media_estab_handler, icall_media_stopped_handler,
    icall_audio_estab_handler, icall_datachan_estab_handler, icall_vstate_handler, icall_audiocbr_handler,
    icall_muted_changed_handler, icall_leave_handler, icall_group_changed_handler, icall_metrics_handler,
    icall_send_handler, icall_sft_handler, icall_quality_handler, icall_req_clients_handler,
    icall_aulevel_handler, icall_req_new_epoch_handler, pend_incoming; cbv zeta;
  repeat first
    [ keep_step
    | apply set_state_keeps | apply ask_icall_keeps; done | apply participants_keeps
    | apply invoke_incoming_keeps | apply wcall_silence_keeps | apply ctx_alloc_keeps
    | apply wkeeps_of_ptr ]; try done.
Qed.

Lemma handle_all_keeps a l :
  Forall (λ cb, is_close cb = false ∧ encodable cb) l → wkeeps a (handle_all a l).
Proof.
  induction 1 as [|cb l [Hc He] Hl IH]; cbn [handle_all]; [apply wkeeps_ret|].
  apply wkeeps_bind; [by apply handle_keeps|]. by intros _.
Qed.
End Handlers.

(** ** The operations of an instance keep its invariant

    [wi_ok] holds between the operations.  A call object may close its call while it
    is called, as the last thing it does, in the functions of [may_close]; [WcEnvOk] is
    this promise. *)

(** ** The invariant *)

Abbreviation call_id := (nat * string * nat)%type.

(** The calls, with addresses below [n]: an address and a conversation each. *)
Record calls_ok (n : nat) (sk : list call_id) : Prop := {
  co_addr : NoDup ((λ p, p.1.1) <$> sk);
  co_convid : NoDup ((λ p, p.1.2) <$> sk);
  co_refs : Forall (λ p, p.2 = 1%nat ∧ (p.1.1 < n)%nat) sk;
}.
Definition wi_ok (i : calling_instance) : Prop := calls_ok (wi_naddr i) (skel i).

Definition without (a : nat) (sk : list call_id) : list call_id := filter (λ p, p.1.1 ≠ a) sk.

Lemma calls_ok_sublist n n' sk sk' : sublist sk' sk → (n ≤ n')%nat → calls_ok n sk → calls_ok n' sk'.
Proof.
  intros Hs Hn [Ha Hc Hr]. split.
  - eapply sublist_NoDup; [exact Ha|]. by apply fmap_sublist.
  - eapply sublist_NoDup; [exact Hc|]. by apply fmap_sublist.
  - rewrite Forall_forall in *. intros p Hp. destruct (Hr p) as [H1 H2]; [|split; [done|lia]].
    by eapply elem_of_sublist.
Qed.

Lemma without_sublist a sk : sublist (without a sk) sk.
Proof. apply sublist_filter. Qed.
Lemma without_fresh a sk : Forall (λ p : call_id, p.1.1 ≠ a) sk → without a sk = sk.
Proof.
  induction 1 as [|p l Hp Hl IH]; [done|]. unfold without in *.
  rewrite filter_cons_True by done. by f_equal.
Qed.

Lemma ok_evolve sk i i' : wi_ok i → sublist sk (skel i) → evolve sk i i' → wi_ok i'.
Proof. intros Hok Hs []. unfold wi_ok. subst. by eapply calls_ok_sublist. Qed.
Lemma ok_same i i' : wi_ok i → same i i' → wi_ok i'.
Proof. intros Hok Hs. by eapply ok_evolve. Qed.

Lemma ok_refs i w : wi_ok i → w ∈ wi_wcalls i → wc_refs w = 1%nat ∧ (wc_addr w < wi_naddr i)%nat.
Proof.
  intros [_ _ Hr] Hw. rewrite Forall_forall in Hr. apply (Hr (wcall_id w)). unfold skel.
  by apply list_elem_of_fmap_2.
Qed.

(** ** Closing a call *)

Section Close.
Context `{LibRe, LibReJson, WcEnv}.

Lemma report_close_keeps a err m t u c : wkeeps a (report_close a err m t u c).
Proof.
  unfold report_close. cbv zeta. repeat first [keep_step|apply set_state_keeps]; done.
Qed.

Lemma skel_filter a l : wcall_id <$> filter (λ w, wc_addr w ≠ a) l = without a (wcall_id <$> l).
Proof.
  unfold without. induction l as [|w l IH]; [done|]. rewrite fmap_cons.
  destruct (decide (wc_addr w = a)).
  - rewrite !filter_cons_False; [done|by cbn; auto..].
  - by rewrite !filter_cons_True, fmap_cons, IH.
Qed.

(** Computations that need no call, and do not end one. *)
Definition free {A} (m : WM A) : Prop := ∀ i, wp m (λ _ i' e, same i i' ∧ ended e = []) i.
Lemma has_calls_free : free wcall_has_calls.
Proof. intros i. done. Qed.

Lemma destructor_spec icall a i :
  wp (wcall_destructor icall a) (λ _ i' e, evolve (without a (skel i)) i i' ∧ ended e = []) i.
Proof.
  unfold wcall_destructor. wp_steps.
  eapply wp_mono; [apply has_calls_free|]. intros b i1 e1 [Hs1 He1]. cbn beta.
  wp_steps. destruct b, icall, (wi_mm i1); cbn -[skel fixed without];
    (split; [eapply same_after; [|exact Hs1]; split; [apply skel_filter|done..]|]);
    rewrite ?app_nil_r, ?ended_app, ?He1; try done; by cbn; rewrite ?ended_app, ?He1.
Qed.

(** A reference to a call is dropped. *)
Definition release_one (a : nat) (p : call_id) : option call_id :=
  if decide (p.1.1 = a) then if (p.2 =? 1)%nat then None else Some (p.1, pred p.2) else Some p.
Definition release (a : nat) (sk : list call_id) : list call_id := omap (release_one a) sk.

Definition distinct (sk : list call_id) : Prop := NoDup ((λ p, p.1.1) <$> sk).

Lemma release_last a sk :
  (∀ p, p ∈ sk → p.1.1 = a → p.2 = 1%nat) → release a sk = without a sk.
Proof.
  unfold release, without. induction sk as [|p sk IH]; intros Hr; [done|].
  rewrite filter_cons. cbn [omap list_omap]. unfold release_one at 1.
  destruct (decide (p.1.1 = a)) as [Hp|Hp].
  - rewrite (Hr p) by (done || left). rewrite decide_False by auto. apply IH. intros q Hq. apply Hr. by right.
  - rewrite decide_True by done. f_equal. apply IH. intros q Hq. apply Hr. by right.
Qed.
Lemma release_more a sk :
  (∀ p, p ∈ sk → p.1.1 = a → p.2 ≠ 1%nat) →
  release a sk = (λ p : call_id, if (p.1.1 =? a)%nat then (p.1, pred p.2) else p) <$> sk.
Proof.
  unfold release. induction sk as [|p sk IH]; intros Hr; [done|]. cbn. unfold release_one at 1.
  rewrite <- IH by (intros q Hq; apply Hr; by right).
  destruct (decide (p.1.1 = a)) as [Hp|Hp].
  - rewrite (proj2 (Nat.eqb_eq _ _) Hp). destruct (p.2 =? 1)%nat eqn:Hp1; [|done].
    apply Nat.eqb_eq in Hp1. destruct (Hr p); [left|done..].
  - by rewrite (proj2 (Nat.eqb_neq _ _) Hp).
Qed.

(** Elements of the list with one address are the same. *)
Lemma distinct_refs i a w p :
  distinct (skel i) → w ∈ wi_wcalls i → wc_addr w = a → p ∈ skel i → p.1.1 = a → p = wcall_id w.
Proof.
  intros Hd Hw Ha Hp Hpa. unfold distinct, skel in *. rewrite <- list_fmap_compose in Hd.
  apply list_elem_of_fmap in Hp as (w' & -> & Hw'). f_equal. cbn in Hpa.
  apply list_elem_of_lookup in Hw as [j Hj], Hw' as [j' Hj'].
  assert (j' = j) as ->; [|congruence].
  eapply (NoDup_lookup _ _ _ a Hd); rewrite list_lookup_fmap; [rewrite Hj'|rewrite Hj]; cbn; congruence.
Qed.

Lemma deref_spec a i :
  distinct (skel i) → live i a →
  wp (wcall_deref a) (λ _ i' e, evolve (release a (skel i)) i i' ∧ ended e = []) i.
Proof.
  intros Hd Hl. destruct (find_wcall_live i a Hl) as (w & Hf & Hw & Ha).
  assert (Hone : ∀ p, p ∈ skel i → p.1.1 = a → p.2 = wc_refs w).
  { intros p Hp Hpa. by rewrite (distinct_refs i a w p). }
  unfold wcall_deref, get_wcall. wp_steps. eapply wp_of_ptr; [done|]. cbn beta.
  destruct (wc_refs w =? 1)%nat eqn:Hw1.
  - apply Nat.eqb_eq in Hw1. rewrite release_last by (intros; rewrite Hone; done).
    apply destructor_spec.
  - apply Nat.eqb_neq in Hw1. unfold set_wcall, get_wcall. wp_steps.
    eapply wp_of_ptr; [done|]. cbn beta. wp_steps. split; [|done]. split; [|done..].
    rewrite release_more by (intros; rewrite Hone; done). unfold skel. cbn.
    rewrite <- !list_fmap_compose. apply list_fmap_ext. intros k x _. cbn. by case_match.
Qed.

Lemma close_spec a err m t u c i :
  distinct (skel i) → live i a →
  wp (icall_close_handler a err m t u c) (λ _ i' e, evolve (release a (skel i)) i i' ∧ ended e = []) i.
Proof.
  intros Hd Hl. unfold icall_close_handler. apply wp_bind.
  apply (wp_keeps a); [apply wkeeps_get_wcall|done|]. intros w i1 e1 Hs1 Hl1 He1. apply wp_bind.
  apply (wp_keeps a); [apply wkeeps_wwhen; intros _; apply report_close_keeps|done|].
  intros _ i2 e2 Hs2 Hl2 He2. pose proof (transitivity Hs1 Hs2) as Hs.
  eapply wp_mono; [apply deref_spec; [by rewrite (same_skel _ _ Hs)|done]|].
  intros _ i3 e3 [Hs3 He3]. rewrite !ended_app, He1, He2, He3. split; [|done].
  rewrite (same_skel _ _ Hs) in Hs3. by eapply evolve_after.
Qed.

(** ** Calls into a call object *)

(** The object closes the call at most once, as the last thing it does. *)
Fixpoint closes_last (l : list icall_callback) : bool :=
  match l with
  | [] => true
  | cb :: l => if is_close cb then match l with [] => true | _ => false end else closes_last l
  end.
Definition closes (l : list icall_callback) : bool := existsb is_close l.

(** The call is as before, or a reference to it was dropped. *)
Definition settled (a : nat) (i i' : calling_instance) : Prop :=
  same i i' ∨ evolve (release a (skel i)) i i'.

Lemma handle_all_spec a l : ∀ i,
  closes_last l = true → Forall encodable l → distinct (skel i) → live i a →
  wp (handle_all a l)
     (λ _ i' e, (if closes l then evolve (release a (skel i)) i i' else same i i') ∧ ended e = []) i.
Proof.
  induction l as [|cb l IH]; intros i Hc He Hd Hl; [done|]. cbn [handle_all]. apply wp_bind.
  inversion_clear He as [|? ? Hcb Hls]. cbn [closes_last] in Hc.
  destruct (is_close cb) eqn:Hcl.
  - destruct l as [|]; [|done]. cbn [closes existsb]. rewrite Hcl. destruct cb; try done.
    eapply wp_mono; [by apply close_spec|]. intros _ i1 e1 [Hs1 He1]. cbn beta. cbn [handle_all].
    wp_steps. by rewrite app_nil_r.
  - eapply wp_mono; [by apply handle_keeps|]. intros _ i1 e1 [Hs1 He1]. cbn beta.
    eapply wp_mono; [apply IH; try done|].
    + by rewrite (same_skel _ _ Hs1).
    + by eapply wlive_same.
    + intros _ i2 e2 [Hs2 He2]. rewrite ended_app, He1, He2. split; [|done].
      change (closes (cb :: l)) with (is_close cb || closes l). rewrite Hcl. cbn [orb].
      destruct (closes l); [|exact (transitivity Hs1 Hs2)].
      rewrite (same_skel _ _ Hs1) in Hs2. by eapply evolve_after.
Qed.

Lemma call_icall_spec a f i :
  (∀ n, closes_last (wc_callbacks n f) = true ∧ Forall encodable (wc_callbacks n f)) →
  distinct (skel i) → live i a →
  wp (call_icall a f)
     (λ r i' e, (same i i'
                 ∨ (evolve (release a (skel i)) i i' ∧ ∃ n, r = wc_ret n ∧ closes (wc_callbacks n f) = true))
                ∧ (is_end f = false → ended e = []) ∧ (is_end f = true → ended e = [a])) i.
Proof.
  intros Hcb Hd Hl. destruct (find_wcall_live i a Hl) as (w & Hf & Hw & Ha).
  unfold call_icall, get_wcall. wp_steps. eapply wp_of_ptr; [done|]. cbn beta.
  destruct (has_fn (wc_icall w) f) eqn:Hfn; cbn [negb].
  - wp_steps. apply wp_wnext. apply wp_bind. destruct (Hcb (wi_tick i)) as [Hc He].
    eapply wp_mono; [apply (handle_all_spec a _ (ticked i)); done|]. intros _ i1 e1 [Hs1 He1]. cbn beta. wp_steps.
    assert (Hen : ended ([] ++ [] ++ [WcCall a f] ++ [] ++ e1 ++ []) = if is_end f then [a] else []).
    { rewrite !ended_app, He1, ended_call. by destruct (is_end f). }
    cbn [app] in *. rewrite Hen.
    split; [|split; by intros ->].
    destruct (closes (wc_callbacks (wi_tick i) f)) eqn:Hcl; [right|left].
    + split; [|by exists (wi_tick i)]. destruct Hs1. by split.
    + destruct Hs1. by split.
  - wp_steps. split; [by left|]. split; [done|]. by destruct f, (wc_icall w).
Qed.
End Close.

(** ** The media category of the platform

    [wcall_i_mcat_changed] holds a reference to every call while it goes through them,
    so that a call may be closed while it is told; it tells every call once. *)

Section Mcat.
Context `{LibRe, LibReJson, WcEnv}.

Hypothesis Hcb : ∀ n f, closes_last (wc_callbacks n f) = true ∧ Forall encodable (wc_callbacks n f).

Implicit Types (sk : list call_id) (ids : list (nat * string)).

Definition ids_of sk : list (nat * string) := fst <$> sk.

Lemma live_ids i a : live i a ↔ a ∈ fst <$> ids_of (skel i).
Proof. rewrite live_skel. unfold ids_of. by rewrite <- list_fmap_compose. Qed.
Lemma distinct_ids sk : distinct sk ↔ NoDup (fst <$> ids_of sk).
Proof. unfold distinct, ids_of. by rewrite <- list_fmap_compose. Qed.

(** A reference to [a] is taken. *)
Definition retain (a : nat) (p : call_id) : call_id := if (p.1.1 =? a)%nat then (p.1, S p.2) else p.
Lemma retain_ids a sk : ids_of (retain a <$> sk) = ids_of sk.
Proof.
  unfold ids_of. rewrite <- list_fmap_compose. apply list_fmap_ext. intros k p _. cbn. unfold retain.
  by case_match.
Qed.

Lemma ref_spec a i :
  live i a → wp (wcall_ref a) (λ _ i' e, evolve (retain a <$> skel i) i i' ∧ ended e = []) i.
Proof.
  intros Hl. destruct (find_wcall_live i a Hl) as (w & Hf & Hw & Ha).
  unfold wcall_ref, set_wcall, get_wcall. wp_steps. eapply wp_of_ptr; [done|]. cbn beta. wp_steps.
  split; [|done]. split; [|done..]. unfold skel. cbn. rewrite <- !list_fmap_compose.
  apply list_fmap_ext. intros k x _. unfold retain. cbn. by case_match.
Qed.

(** The calls of [l] are still to be referenced. *)
Lemma ref_all_spec l : ∀ i ids,
  (∀ n, wc_mem n = true) → NoDup l → (∀ a, a ∈ l → a ∈ fst <$> ids) → ids_of (skel i) = ids →
  Forall (λ p, p.2 = if decide (p.1.1 ∈ l) then 1%nat else 2%nat) (skel i) →
  wp (ref_all l) (λ _ i' e, (ids_of (skel i') = ids ∧ Forall (λ p, p.2 = 2%nat) (skel i')
                             ∧ fixed i' = fixed i ∧ (wi_naddr i ≤ wi_naddr i')%nat) ∧ ended e = []) i.
Proof.
  induction l as [|a l IH]; intros i ids Hmem Hnd Hin Hids Hr; cbn [ref_all].
  { wp_steps. split; [|done]. split; [done|]. split; [|done]. eapply Forall_impl; [exact Hr|]. cbn.
    intros p Hp. rewrite decide_False in Hp; [done|apply not_elem_of_nil]. }
  apply NoDup_cons in Hnd as [Ha Hnd]. apply wp_bind, wp_wnext. rewrite Hmem. cbn [negb]. apply wp_bind.
  eapply wp_mono; [apply ref_spec; apply live_ids; change (skel (ticked i)) with (skel i); rewrite Hids;
                   apply Hin; left|].
  intros _ i1 e1 [[Hs1 Hf1 Hn1] He1]. change (skel (ticked i)) with (skel i) in Hs1.
  eapply wp_mono; [apply (IH i1 ids)|].
  - done.
  - done.
  - intros b Hb. apply Hin. by right.
  - by rewrite Hs1, retain_ids.
  - rewrite Hs1. apply Forall_fmap. eapply Forall_impl; [exact Hr|]. cbn. intros p Hp. unfold retain.
    destruct p as [[x c] r]; cbn in *. destruct (x =? a)%nat eqn:He; cbn.
    + apply Nat.eqb_eq in He as ->. rewrite decide_False by done. rewrite decide_True in Hp by left.
      by rewrite Hp.
    + apply Nat.eqb_neq in He. rewrite Hp.
      destruct (decide (x ∈ l)); [by rewrite decide_True by (by right)|].
      rewrite decide_False; [done|]. by intros [->|?]%elem_of_cons.
  - intros _ i2 e2 [(Hi2 & Hr2 & Hf2 & Hn2) He2]. cbn [app]. rewrite ended_app, He1, He2.
    split; [|done]. split; [done|]. split; [done|]. split; [by rewrite Hf2|]. cbn in Hn1. lia.
Qed.

(** ** Telling one call *)

Lemma release_ids_more a sk :
  (∀ p, p ∈ sk → p.1.1 = a → p.2 ≠ 1%nat) → ids_of (release a sk) = ids_of sk.
Proof.
  intros Hr. rewrite release_more by done. unfold ids_of. rewrite <- list_fmap_compose.
  apply list_fmap_ext. intros k p _. cbn. by case_match.
Qed.
Lemma settled_live a i i' :
  (∀ p, p ∈ skel i → p.1.1 = a → p.2 ≠ 1%nat) → live i a → settled a i i' → live i' a.
Proof.
  intros Hr Hl [Hs|[Hs _ _]]; [by eapply wlive_same|].
  rewrite live_ids, Hs, release_ids_more by done. by apply live_ids.
Qed.

Lemma settled_same a i i1 i2 : settled a i i1 → same i1 i2 → settled a i i2.
Proof.
  intros [Hs|Hs] Hs2; [left; exact (transitivity Hs Hs2)|]. right. by eapply same_after.
Qed.
Lemma same_settled a i i1 i2 : same i i1 → settled a i1 i2 → settled a i i2.
Proof.
  intros Hs [Hs2|Hs2]; [left; exact (transitivity Hs Hs2)|]. right.
  rewrite (same_skel _ _ Hs) in Hs2. by eapply evolve_after.
Qed.

Definition told (st : mediamgr_state) (l : list nat) : list nat :=
  match st with MEDIAMGR_STATE_ERROR => l | _ => [] end.

Lemma call_settled a f i :
  distinct (skel i) → live i a → is_end f = false →
  wp (udone (call_icall a f)) (λ _ i' e, settled a i i' ∧ ended e = []) i.
Proof.
  intros Hd Hl Hf. apply wp_udone. eapply wp_mono; [apply call_icall_spec; [by intros n|done..]|].
  intros r i' e ([Hs|[Hs _]] & He & _); (split; [by (left + right)|by apply He]).
Qed.

Lemma mcat_one_spec st a i :
  distinct (skel i) → live i a → (∀ p, p ∈ skel i → p.1.1 = a → p.2 ≠ 1%nat) →
  wp (mcat_one st a) (λ _ i' e, settled a i i' ∧ ended e = told st [a]) i.
Proof.
  intros Hd Hl Hr.
  assert (Hend : wp (wcall_end_internal a) (λ _ i' e, settled a i i' ∧ ended e = [a]) i).
  { unfold wcall_end_internal. apply wp_bind.
    apply (wp_keeps a); [apply wkeeps_get_wcall|done|]. intros w i1 e1 Hs1 Hl1 He1. apply wp_bind.
    apply (wp_keeps a); [apply wkeeps_wwhen; intros _; apply set_state_keeps|done|].
    intros _ i2 e2 Hs2 Hl2 He2. pose proof (transitivity Hs1 Hs2) as Hs. apply wp_bind.
    apply wp_udone. eapply wp_mono; [apply call_icall_spec; [by intros n| |done]|].
    { by rewrite (same_skel _ _ Hs). }
    intros r i3 e3 (Hc & _ & He3).
    assert (Hs3 : settled a i i3).
    { eapply same_settled; [exact Hs|]. destruct Hc as [Hc|[Hc _]]; by (left + right). }
    apply (wp_keeps a); [apply wcall_silence_keeps|by eapply settled_live|].
    intros _ i4 e4 Hs4 _ He4. split; [by eapply settled_same|].
    by rewrite !ended_app, He1, He2, (He3 eq_refl), He4. }
  destruct st; cbn [mcat_one told]; try (by apply call_settled); try done;
    (wp_steps; split; [by left|done]).
Qed.

(** ** Telling all calls *)

(** The calls of [l] are still to be told, and hold two references. *)
Definition telling (ids : list (nat * string)) (l : list nat) (i : calling_instance) : Prop :=
  ids_of (skel i) = ids ∧
  Forall (λ p, (p.2 = 1%nat ∨ p.2 = 2%nat) ∧ (p.1.1 ∈ l → p.2 = 2%nat)) (skel i).

Lemma telling_settled ids a l i i' :
  a ∉ l → telling ids (a :: l) i → settled a i i' → telling ids l i'.
Proof.
  intros Ha [Hids Hr] Hs. destruct Hs as [Hs|[Hs _ _]].
  - rewrite <- (same_skel _ _ Hs) in *. split; [done|]. eapply Forall_impl; [exact Hr|].
    cbn. intros p [H1' H2']. split; [done|]. intros Hp. apply H2'. by right.
  - assert (Hne : ∀ p, p ∈ skel i → p.1.1 = a → p.2 ≠ 1%nat).
    { intros p Hp Hpa. rewrite Forall_forall in Hr. destruct (Hr p Hp) as [_ Ht].
      rewrite Ht; [done|]. rewrite Hpa. left. }
    unfold telling. rewrite Hs. split; [by rewrite release_ids_more|].
    rewrite release_more by done. apply Forall_fmap. eapply Forall_impl; [exact Hr|]. cbn.
    intros p [H1' H2']. destruct (p.1.1 =? a)%nat eqn:He; cbn.
    + apply Nat.eqb_eq in He. rewrite H2' by (rewrite He; left). split; [by left|].
      rewrite He. done.
    + split; [done|]. intros Hp. apply H2'. by right.
Qed.

Fixpoint tell_all (st : mediamgr_state) (l : list nat) : WM () :=
  match l with [] => mret () | a :: l => mcat_one st a;; tell_all st l end.

Lemma mcat_loop_tell st l : ∀ we, mcat_loop st we l = tell_all st (take (length l) (we :: l)).
Proof. induction l as [|a l IH]; intros we; [done|]. cbn -[take]. by rewrite IH. Qed.

Lemma settled_fixed a i i' : settled a i i' → fixed i' = fixed i ∧ (wi_naddr i ≤ wi_naddr i')%nat.
Proof. by intros [[]|[]]. Qed.

Lemma told_app st l1 l2 : told st (l1 ++ l2) = told st l1 ++ told st l2.
Proof. by destruct st. Qed.

Lemma tell_all_spec st r : ∀ i ids,
  NoDup r → NoDup (fst <$> ids) → (∀ a, a ∈ r → a ∈ fst <$> ids) → telling ids r i →
  wp (tell_all st r) (λ _ i' e, (telling ids [] i' ∧ fixed i' = fixed i ∧ (wi_naddr i ≤ wi_naddr i')%nat)
                                ∧ ended e = told st r) i.
Proof.
  induction r as [|a r IH]; intros i ids Hnd Hd Hin Ht; cbn [tell_all].
  { wp_steps. by destruct st. }
  apply NoDup_cons in Hnd as [Ha Hnd]. pose proof Ht as [Hids Hr]. apply wp_bind.
  eapply wp_mono; [apply mcat_one_spec|].
  - apply distinct_ids. by rewrite Hids.
  - apply live_ids. rewrite Hids. apply Hin. left.
  - intros p Hp Hpa. rewrite Forall_forall in Hr. destruct (Hr p Hp) as [_ Hp2]. rewrite Hp2; [done|].
    rewrite Hpa. left.
  - intros _ i1 e1 [Hs1 He1]. destruct (settled_fixed _ _ _ Hs1) as [Hf1 Hn1].
    eapply wp_mono; [apply (IH i1 ids); [done|done| |by eapply telling_settled]|].
    + intros b Hb. apply Hin. by right.
    + intros _ i2 e2 [(Ht2 & Hf2 & Hn2) He2]. split; [split; [done|]; split; [congruence|lia]|].
      rewrite ended_app, He1, He2. symmetry. apply (told_app st [a] r).
Qed.

(** The calls of [l] are still to be released. *)
Definition releasing (ids : list (nat * string)) (l : list nat) (i : calling_instance) : Prop :=
  sublist (ids_of (skel i)) ids ∧ (∀ a, a ∈ l → live i a) ∧
  Forall (λ p, (p.2 = 1%nat ∨ p.2 = 2%nat) ∧ (p.1.1 ∉ l → p.2 = 1%nat)) (skel i).

Lemma release_ids a sk : sublist (ids_of (release a sk)) (ids_of sk).
Proof.
  unfold release, ids_of. induction sk as [|p sk IH]; [constructor|]. cbn. unfold release_one at 1.
  repeat case_match; simplify_eq/=; by constructor.
Qed.
Lemma release_elem a sk q :
  q ∈ release a sk ↔ ∃ p, p ∈ sk ∧ release_one a p = Some q.
Proof. apply list_elem_of_omap. Qed.

Lemma deref_all_spec l : ∀ i ids,
  NoDup l → NoDup (fst <$> ids) → releasing ids l i →
  wp (deref_all l) (λ _ i' e, (releasing ids [] i' ∧ fixed i' = fixed i ∧ (wi_naddr i ≤ wi_naddr i')%nat)
                              ∧ ended e = []) i.
Proof.
  induction l as [|a l IH]; intros i ids Hnd Hd Ht; cbn [deref_all]; [by wp_steps|].
  apply NoDup_cons in Hnd as [Ha Hnd]. destruct Ht as (Hids & Hl & Hr). apply wp_bind.
  eapply wp_mono; [apply deref_spec; [|apply Hl; left]|].
  { apply distinct_ids. eapply sublist_NoDup; [exact Hd|]. by apply fmap_sublist. }
  intros _ i1 e1 [[Hs1 Hf1 Hn1] He1]. eapply wp_mono; [apply (IH i1 ids); [done|done|]|].
  - split; [|split].
    + rewrite Hs1. etrans; [apply release_ids|done].
    + intros b Hb. assert (Hne : b ≠ a) by (by intros ->). apply live_skel.
      assert (Hlb : live i b) by (apply Hl; by right).
      apply live_skel, list_elem_of_fmap in Hlb as (p & -> & Hp). apply list_elem_of_fmap. exists p.
      split; [done|]. rewrite Hs1. apply release_elem. exists p. split; [done|]. unfold release_one.
      by rewrite decide_False.
    + rewrite Hs1. rewrite Forall_forall in *. intros q (p & Hp & Hq)%release_elem.
      destruct (Hr p Hp) as [H1' H2']. unfold release_one in Hq.
      destruct (decide (p.1.1 = a)) as [Hpa|Hpa].
      * destruct (p.2 =? 1)%nat eqn:He; simplify_eq/=. apply Nat.eqb_neq in He.
        destruct H1' as [H1'|H1']; [done|]. rewrite H1'. by split; [left|].
      * simplify_eq. split; [done|]. intros Hq. apply H2'. by intros [?|?]%elem_of_cons.
  - intros _ i2 e2 [(Ht2 & Hf2 & Hn2) He2]. rewrite ended_app, He1, He2.
    split; [|done]. split; [done|]. split; [congruence|lia].
Qed.

(** The calls in the order they are told. *)
Definition rotate (l : list nat) : list nat := take (length l) (default 0%nat (last l) :: l).

Lemma rotate_snoc l a : rotate (l ++ [a]) = a :: l.
Proof.
  unfold rotate. rewrite last_snoc, length_app. cbn. rewrite Nat.add_comm. cbn. f_equal.
  by rewrite take_app_length.
Qed.
Lemma rotate_perm l : rotate l ≡ₚ l.
Proof.
  destruct l as [|a l] using rev_ind; [done|]. rewrite rotate_snoc. by rewrite Permutation_app_comm.
Qed.

Lemma all_one sk : Forall (λ p : call_id, p.2 = 1%nat) sk → sk = (λ q, (q, 1%nat)) <$> ids_of sk.
Proof.
  intros Hsk. unfold ids_of. rewrite <- list_fmap_compose. rewrite <- (list_fmap_id sk) at 1.
  apply list_fmap_ext. intros k [q r] Hq. rewrite Forall_forall in Hsk.
  specialize (Hsk (q, r) ltac:(by eapply list_elem_of_lookup_2)). cbn in *. by subst.
Qed.

Lemma mcat_changed_spec st i :
  (∀ n, wc_mem n = true) → wi_ok i →
  wp (wcall_i_mcat_changed st)
     (λ _ i' e, (wi_ok i' ∧ sublist (skel i') (skel i) ∧ fixed i' = fixed i)
                ∧ ended e = told st (rotate (wc_addr <$> wi_wcalls i))) i.
Proof.
  intros Hmem [Ha Hc Hr]. unfold wcall_i_mcat_changed. apply wp_bind, wp_get. cbv zeta.
  set (l := wc_addr <$> wi_wcalls i). set (ids := ids_of (skel i)).
  assert (Hl : l = fst <$> ids) by (unfold l, ids, ids_of, skel; by rewrite <- !list_fmap_compose).
  assert (Hnd : NoDup (fst <$> ids)) by by apply (distinct_ids (skel i)).
  assert (Hin : ∀ p, p ∈ skel i → p.1.1 ∈ l).
  { intros p Hp. rewrite Hl. unfold ids, ids_of. rewrite <- list_fmap_compose.
    apply list_elem_of_fmap. by exists p. }
  apply wp_bind. eapply wp_mono; [apply (ref_all_spec l i ids); [done|by rewrite Hl|by rewrite Hl|done|]|].
  { rewrite Forall_forall in *. intros p Hp. rewrite decide_True by by apply Hin. by apply Hr. }
  intros _ i1 e1 [(Hi1 & Hr1 & Hf1 & Hn1) He1]. apply wp_bind. rewrite mcat_loop_tell.
  change (take _ _) with (rotate l).
  eapply wp_mono; [apply (tell_all_spec st (rotate l) i1 ids)|].
  - rewrite rotate_perm. by rewrite Hl.
  - done.
  - intros a. rewrite rotate_perm. by rewrite Hl.
  - split; [done|]. eapply Forall_impl; [exact Hr1|]. cbn. intros p ->. by auto.
  - intros _ i2 e2 [([Hi2 Hr2] & Hf2 & Hn2) He2].
    eapply wp_mono; [apply (deref_all_spec l i2 ids); [by rewrite Hl|done|]|].
    + split; [by rewrite Hi2|]. split.
      * intros a Hal. apply live_ids. by rewrite Hi2, <- Hl.
      * rewrite Forall_forall in *. intros p Hp. destruct (Hr2 p Hp) as [Hp2 _]. split; [done|].
        intros Hno. destruct Hno. rewrite Hl, <- Hi2. unfold ids_of. rewrite <- list_fmap_compose.
        apply list_elem_of_fmap. by exists p.
    + intros _ i3 e3 [((Hi3 & _ & Hr3) & Hf3 & Hn3) He3].
      rewrite !ended_app, He1, He2, He3, app_nil_r. split; [|done].
      assert (Hsub : sublist (skel i3) (skel i)).
      { rewrite (all_one (skel i3)), (all_one (skel i)); [by apply fmap_sublist| |].
        - eapply Forall_impl; [exact Hr|]. by intros p [].
        - eapply Forall_impl; [exact Hr3|]. cbn. intros p [_ Hp]. apply Hp. apply not_elem_of_nil. }
      split; [|split; [done|congruence]]. eapply calls_ok_sublist; [exact Hsub| |by split]. lia.
Qed.
End Mcat.
