(* ===== verification/WcallInv.v ===== *)
(** * Safety of an instance

    What the operations of an instance do to its invariant.  Those that end a call may
    use it after it was released: [sp] describes an operation that keeps the invariant
    whenever it is defined, and is defined if ending a call does not close it. *)

From stdpp Require Import gmap.
From S2P Require Import Prelude LibRe LibReJson Jzon EconnMsg EconnFmt Icall AudioLevel UserList CcallSft Config Wcall WcallOps WcallSafe.

#[local] Open Scope string_scope.
#[local] Open Scope Z_scope.
#[local] Open Scope list_scope.

(** The functions in which a call object may close its call; [r] is the result.  A call
    object may close its call in [FnEnd] too, although the code goes on with the call
    then. *)
Definition may_close (r : Z) (f : icall_fn) : bool :=
  match f with
  | FnMsgRecv _ _ _ _ _ | FnSftMsgRecv _ _ | FnRestart | FnDceSend | FnSetMediaKey _ _
  | FnRequestVideoStreams _ | FnMediaStart | FnMediaStop | FnEnd => true
  | FnStart _ _ _ | FnAnswer _ _ => r =? 0
  | _ => false
  end.

(** What the call objects promise. *)
Class WcEnvOk `{LibRe, LibReJson, WcEnv} : Prop := {
  eok_last n f : closes_last (wc_callbacks n f) = true;
  eok_encodable n f : Forall encodable (wc_callbacks n f);
  eok_close n f : closes (wc_callbacks n f) = true → may_close (wc_ret n) f = true;
}.

(** The instance after an operation. *)
Record after (i i' : calling_instance) : Prop := {
  af_ok : wi_ok i';
  af_cfg : wi_cfg i' = wi_cfg i;
  af_duration : wi_durationl i = [] → wi_durationl i' = [];
  af_config : wi_call_config i = true → wi_call_config i' = true;
  af_ready : wi_call_config i = true → wi_ready_pendingl i = [] → wi_ready_pendingl i' = [];
}.

Lemma after_refl i : wi_ok i → after i i.
Proof. by split. Qed.
Lemma after_trans i j k : after i j → after j k → after i k.
Proof. intros [] []. split; auto; congruence. Qed.
Lemma after_evolve sk i i' : wi_ok i → sublist sk (skel i) → evolve sk i i' → after i i'.
Proof.
  intros Hok Hs He. split; [by eapply ok_evolve|..]; destruct He as [_ Hf _]; inversion Hf; congruence.
Qed.
Lemma after_same i i' : wi_ok i → same i i' → after i i'.
Proof. intros Hok. by apply after_evolve. Qed.

Lemma ok_release a i : wi_ok i → release a (skel i) = without a (skel i).
Proof.
  intros [_ _ Hr]. apply release_last. intros p Hp _. rewrite Forall_forall in Hr. by apply Hr.
Qed.
Lemma after_settled a i i' : wi_ok i → settled a i i' → after i i'.
Proof.
  intros Hok [Hs|He]; [by apply after_same|]. rewrite ok_release in He by done.
  eapply after_evolve; [done| |done]. apply without_sublist.
Qed.
Lemma live_settled a b i i' : wi_ok i → a ≠ b → settled a i i' → live i b → live i' b.
Proof.
  intros Hok Hne [Hs|He]; [by apply wlive_same|]. rewrite ok_release in He by done.
  rewrite !live_skel, (ev_skel _ _ _ He). unfold without. intros (p & -> & Hp)%list_elem_of_fmap.
  apply list_elem_of_fmap. exists p. split; [done|]. apply list_elem_of_filter. by split.
Qed.

Lemma ok_distinct i : wi_ok i → distinct (skel i).
Proof. by intros []. Qed.

(** ** Ending a call *)

Lemma bind_none {A B} (m : WM A) (k : A → WM B) Q i :
  wp m Q i → (∀ x i' e, Q x i' e → k x i' = None) → (m ≫= k) i = None.
Proof.
  unfold wp, mbind, MU_bind. destruct (m i) as [[[x i'] e]|]; [|done]. intros HQ Hk. by rewrite (Hk x i' e).
Qed.

Lemma get_wcall_gone i a : ¬ live i a → get_wcall a i = None.
Proof.
  intros Hl. unfold get_wcall, mbind, MU_bind, uget, of_ptr. destruct (find_wcall i a) as [w|] eqn:Hf; [|done].
  apply find_some in Hf as [Hw Ha%Nat.eqb_eq]. destruct Hl. unfold live. rewrite <- Ha.
  apply list_elem_of_fmap_2. by apply list_elem_of_In.
Qed.
Lemma released_gone a i i' : wi_ok i → evolve (release a (skel i)) i i' → ¬ live i' a.
Proof.
  intros Hok He. rewrite live_skel, (ev_skel _ _ _ He), ok_release by done. unfold without.
  intros (p & -> & Hp)%list_elem_of_fmap. by apply list_elem_of_filter in Hp as [Hp _].
Qed.

Section End_.
Context `{LibRe, LibReJson, WcEnv}.

(** The call object closes its call, or keeps it. *)
Definition ends_closed (a n : nat) (i i' : calling_instance) : Prop :=
  if closes (wc_callbacks n FnEnd) then evolve (release a (skel i)) i i' else same i i'.

Lemma call_end a i :
  (∀ n, closes_last (wc_callbacks n FnEnd) = true ∧ Forall encodable (wc_callbacks n FnEnd)) →
  wi_ok i → live i a →
  wp (call_icall a FnEnd) (λ _ i' e, ends_closed a (wi_tick i) i i' ∧ ended e = [a]) i.
Proof.
  intros Hcb Hok Hl. destruct (find_wcall_live i a Hl) as (w & Hw & _ & _).
  unfold call_icall, get_wcall. wp_steps. eapply wp_of_ptr; [done|]. cbn beta.
  assert (has_fn (wc_icall w) FnEnd = true) as -> by (by destruct (wc_icall w)). cbn [negb].
  apply wp_bind, wp_emit, wp_bind, wp_wnext, wp_bind. destruct (Hcb (wi_tick i)) as [Hc He].
  eapply wp_mono; [apply (handle_all_spec a _ (ticked i)); try done; by apply ok_distinct|].
  intros _ i1 e1 [Hs1 He1]. apply wp_ret. split; [|by rewrite !ended_app, He1].
  unfold ends_closed. destruct (closes _); destruct Hs1; by split.
Qed.

Lemma set_state_ticks a st b i :
  live i a → wp (wwhen b (wcall_set_state a st)) (λ _ i' _, wi_tick i' = wi_tick i) i.
Proof.
  intros Hl. destruct (find_wcall_live i a Hl) as (w & Hw & _). destruct b; [|done].
  unfold wcall_set_state, set_wcall, get_wcall, whandler. cbn [wwhen].
  apply wp_bind, wp_bind, wp_get. eapply wp_of_ptr; [done|]. cbn beta.
  apply wp_bind, wp_bind, wp_bind, wp_get. eapply wp_of_ptr; [done|]. cbn beta. apply wp_modify. destruct (negb _); cbn [wwhen]; [|by apply wp_ret].
  apply wp_bind, wp_get. destruct (wi_h _ _); cbn [wwhen]; [by apply wp_emit|by apply wp_ret].
Qed.

(** The object of the call is told to end, then the call is used again. *)
Lemma end_internal_spec a i :
  (∀ n, closes_last (wc_callbacks n FnEnd) = true ∧ Forall encodable (wc_callbacks n FnEnd)) →
  wi_ok i → live i a →
  if closes (wc_callbacks (wi_tick i) FnEnd) then wcall_end_internal a i = None
  else wp (wcall_end_internal a) (λ _ i' e, same i i' ∧ ended e = [a]) i.
Proof.
  intros Hcb Hok Hl.
  assert (Hpre : ∀ b, wp (wwhen b (wcall_set_state a WCALL_STATE_TERM_LOCAL))
    (λ _ i' e, (same i i' ∧ ended e = []) ∧ wi_tick i' = wi_tick i) i).
  { intros b. apply wp_and; [|by apply set_state_ticks].
    apply (wkeeps_wwhen a b); [intros _; apply set_state_keeps|done]. }
  assert (Hend : ∀ i2, same i i2 ∧ wi_tick i2 = wi_tick i →
    wp (udone (call_icall a FnEnd)) (λ _ i' e, ends_closed a (wi_tick i) i2 i' ∧ ended e = [a]) i2).
  { intros i2 [Hs2 Ht2]. apply wp_udone. rewrite <- Ht2.
    apply call_end; [done|by eapply ok_same|by eapply wlive_same]. }
  assert (Hget : wp (get_wcall a) (λ _ i' e, i' = i ∧ e = []) i).
  { destruct (find_wcall_live i a Hl) as (w & Hw & _). unfold get_wcall. apply wp_bind, wp_get.
    by eapply wp_of_ptr. }
  unfold ends_closed in Hend. unfold wcall_end_internal. destruct (closes _).
  - eapply bind_none; [exact Hget|]. intros w i1 e1 [-> _]. eapply bind_none; [apply Hpre|].
    intros _ i2 e2 [[Hs2 _] Ht2]. eapply bind_none; [by apply Hend|]. intros _ i3 e3 [Hs3 _].
    unfold wcall_silence, set_wcall, mbind, MU_bind. rewrite get_wcall_gone; [done|].
    eapply released_gone; [|exact Hs3]. by eapply ok_same.
  - apply wp_bind. eapply wp_mono; [exact Hget|]. intros w i1 e1 [-> ->]. apply wp_bind.
    eapply wp_mono; [apply Hpre|]. intros _ i2 e2 [[Hs2 He2] Ht2]. apply wp_bind.
    eapply wp_mono; [by apply Hend|]. intros _ i3 e3 [Hs3 He3]. pose proof (transitivity Hs2 Hs3) as Hs.
    apply (wp_keeps a); [apply wcall_silence_keeps|by eapply wlive_same|]. intros _ i4 e4 Hs4 _ He4.
    split; [exact (transitivity Hs Hs4)|]. by rewrite !ended_app, He2, He3, He4.
Qed.

(** *** Operations that may end a call *)

(** No call object closes its call while it is ended. *)
Definition calm_end : Prop := ∀ n, closes (wc_callbacks n FnEnd) = false.

(** If it is defined it leads to [Q], and it is defined under [calm_end]. *)
Definition sp {A} (m : WM A) (Q : A → calling_instance → Prop) (i : calling_instance) : Prop :=
  (calm_end → wp m (λ x i' _, Q x i') i) ∧ wlp m (λ x i' _, Q x i') i.

Lemma sp_wp {A} (m : WM A) (Q : A → calling_instance → Prop) i :
  wp m (λ x i' _, Q x i') i → sp m Q i.
Proof. intros Hw. split; [done|]. unfold wp, wlp in *. by destruct (m i) as [[[x i'] e]|]. Qed.
Lemma sp_mono {A} (m : WM A) (Q Q' : A → calling_instance → Prop) i :
  sp m Q i → (∀ x i', Q x i' → Q' x i') → sp m Q' i.
Proof.
  intros [Hw Hl] HQ. split.
  - intros Hc. eapply wp_mono; [by apply Hw|]. intros x i' e. apply HQ.
  - eapply wlp_mono; [exact Hl|]. intros x i' e. apply HQ.
Qed.
Lemma sp_bind {A B} (m : WM A) (k : A → WM B) (R : A → calling_instance → Prop)
    (Q : B → calling_instance → Prop) i :
  sp m R i → (∀ x i', R x i' → sp (k x) Q i') → sp (m ≫= k) Q i.
Proof.
  intros [Hw Hl] Hk. split.
  - intros Hc. apply wp_bind. eapply wp_mono; [by apply Hw|]. intros x i' e HR. by apply Hk.
  - apply wlp_bind. eapply wlp_mono; [exact Hl|]. intros x i' e HR. apply (Hk x i' HR).
Qed.
Lemma sp_seq {A B} (m : WM A) (k : A → WM B) (R : A → calling_instance → Prop)
    (Q : B → calling_instance → Prop) i :
  wp m (λ x i' _, R x i') i → (∀ x i', R x i' → sp (k x) Q i') → sp (m ≫= k) Q i.
Proof. intros Hm. by apply sp_bind, sp_wp. Qed.
Lemma sp_get {A} (k : calling_instance → WM A) (Q : A → calling_instance → Prop) i :
  sp (k i) Q i → sp (uget ≫= k) Q i.
Proof. intros Hk. apply (sp_seq _ _ (λ x i', x = i ∧ i' = i)); [done|]. by intros ? ? [-> ->]. Qed.
Lemma sp_modify {A} f (k : () → WM A) (Q : A → calling_instance → Prop) i :
  sp (k ()) Q (f i) → sp (umodify f ≫= k) Q i.
Proof. intros Hk. apply (sp_seq _ _ (λ _ i', i' = f i)); [done|]. by intros [] ? ->. Qed.
End End_.

Section Ops.
Context `{WcEnvOk}.

(** ** Calls into a call object *)

Lemma call_keeps a f : is_end f = false → (∀ r, may_close r f = false) → wkeeps a (call_icall a f).
Proof.
  intros He Hm. unfold call_icall. keep; [by rewrite ended_call, He|]. apply handle_all_keeps.
  match goal with |- Forall _ (wc_callbacks ?n f) =>
    pose proof (eok_encodable n f) as Hen; pose proof (eok_close n f) as Hc end.
  rewrite Hm in Hc. rewrite Forall_forall in *. intros cb Hcb. split; [|by apply Hen].
  destruct (is_close cb) eqn:Hcl; [|done]. discriminate Hc. apply existsb_exists. exists cb.
  split; [by apply list_elem_of_In|done].
Qed.

Lemma call_settles a f i :
  wi_ok i → live i a →
  wp (call_icall a f) (λ r i' e, settled a i i' ∧ (may_close r f = false → same i i')) i.
Proof.
  intros Hok Hl. eapply wp_mono; [apply call_icall_spec; [|by apply ok_distinct|done]|].
  - intros n. split; [apply eok_last|apply eok_encodable].
  - intros r i' e ([Hs|[He (n & -> & Hc)]] & _); [by split; [left|]|].
    split; [by right|]. apply eok_close in Hc. congruence.
Qed.

(** A call that is the last thing an operation does. *)
Lemma call_last a f i : wi_ok i → live i a → wp (udone (call_icall a f)) (λ _ i' _, after i i') i.
Proof.
  intros Hok Hl. apply wp_udone. eapply wp_mono; [by apply call_settles|]. intros r i' e [Hs _].
  by eapply after_settled.
Qed.

Lemma wkeeps_after a {A} (m : WM A) i :
  wkeeps a m → wi_ok i → live i a → wp m (λ _ i' _, after i i') i.
Proof.
  intros Hm Hok Hl. apply (wp_keeps a); [done..|]. intros x i' e Hs _ _. by apply after_same.
Qed.

(** ** Operations on a call *)

Lemma end_after a i : wi_ok i → live i a → sp (wcall_end_internal a) (λ _ i', after i i') i.
Proof.
  intros Hok Hl.
  assert (Hcb : ∀ n, closes_last (wc_callbacks n FnEnd) = true ∧ Forall encodable (wc_callbacks n FnEnd))
    by (intros n; split; [apply eok_last|apply eok_encodable]).
  pose proof (end_internal_spec a i Hcb Hok Hl) as He. destruct (closes _) eqn:Hc.
  - split; [|unfold wlp; by rewrite He]. intros Hcalm. by rewrite Hcalm in Hc.
  - apply sp_wp. eapply wp_mono; [exact He|]. intros _ i' e [Hs _]. by apply after_same.
Qed.

(** A computation that keeps the instance and then calls the call object. *)
Lemma wkeeps_then a {A B} (m : WM A) (k : A → WM B) (Q : B → calling_instance → Prop) i :
  wkeeps a m → wi_ok i → live i a →
  (∀ x i1, wi_ok i1 → live i1 a → same i i1 → wp (k x) (λ y i2 _, Q y i2) i1) →
  wp (m ≫= k) (λ y i2 _, Q y i2) i.
Proof.
  intros Hm Hok Hl Hk. apply wp_bind. apply (wp_keeps a); [done..|]. intros x i1 e1 Hs1 Hl1 _.
  eapply wp_mono; [apply Hk; [by eapply ok_same|done..]|]. done.
Qed.

Lemma start_spec a t cbr meeting i :
  wi_ok i → live i a →
  wp (wcall_i_start a t cbr meeting) (λ r i' _, after i i' ∧ (r ≠ 0 → live i' a)) i.
Proof.
  intros Hok Hl. unfold wcall_i_start. cbv zeta.
  apply (wkeeps_then a); [by apply wkeeps_set_wcall|done..|]. intros _ i1 Hok1 Hl1 Hs1.
  apply (wkeeps_then a); [apply wkeeps_get_wcall|done..|]. intros w i2 Hok2 Hl2 Hs2.
  apply (wkeeps_then a); [apply wkeeps_wwhen; intros _; apply set_state_keeps|done..|]. intros _ i3 Hok3 Hl3 Hs3.
  apply (wkeeps_then a); [apply wkeeps_udone; by apply call_keeps|done..|]. intros _ i4 Hok4 Hl4 Hs4.
  apply (wkeeps_then a); [apply wkeeps_get_wcall|done..|]. intros w' i5 Hok5 Hl5 Hs5.
  apply (wkeeps_then a); [apply wkeeps_wwhen; intros _; apply wkeeps_udone; by apply call_keeps|done..|].
  intros _ i6 Hok6 Hl6 Hs6.
  assert (Hs : same i i6) by (do 5 (etrans; [eassumption|]); eassumption).
  apply wp_bind. eapply wp_mono; [by apply call_settles|]. intros r i7 e7 [Hs7 Hr]. cbn beta.
  assert (Ha : after i i7).
  { eapply after_trans; [by apply (after_same i i6)|]. by eapply after_settled. }
  destruct (negb (r =? 0)) eqn:Hr0.
  - wp_steps. split; [done|]. intros _. eapply wlive_same; [apply Hr|done]. cbn.
    by apply negb_true_iff in Hr0.
  - unfold set_mm. wp_steps. destruct (wi_mm i7); cbn; (split; [done|]); done.
Qed.

Lemma answer_spec a t cbr i :
  wi_ok i → live i a →
  wp (wcall_i_answer a t cbr) (λ r i' _, after i i' ∧ (r ≠ 0 → live i' a)) i.
Proof.
  intros Hok Hl. unfold wcall_i_answer. cbv zeta.
  apply (wkeeps_then a); [by apply wkeeps_set_wcall|done..|]. intros _ i1 Hok1 Hl1 Hs1.
  apply (wkeeps_then a); [apply wkeeps_get_wcall|done..|]. intros w i2 Hok2 Hl2 Hs2.
  destruct (bool_decide _).
  { wp_steps. split; [|done]. apply after_same; [done|exact (transitivity Hs1 Hs2)]. }
  apply (wkeeps_then a); [apply set_state_keeps|done..|]. intros _ i3 Hok3 Hl3 Hs3.
  apply (wkeeps_then a); [apply wkeeps_udone; by apply call_keeps|done..|]. intros _ i4 Hok4 Hl4 Hs4.
  assert (Hs : same i i4) by (do 3 (etrans; [eassumption|]); eassumption).
  eapply wp_mono; [by apply call_settles|]. intros r i7 e7 [Hs7 Hr]. cbn beta.
  split.
  - eapply after_trans; [by apply (after_same i i4)|]. by eapply after_settled.
  - intros Hr0. eapply wlive_same; [apply Hr|done]. cbn. by apply Z.eqb_neq.
Qed.

Lemma reject_keeps a : wkeeps a (wcall_i_reject a).
Proof.
  unfold wcall_i_reject. cbv zeta.
  repeat first [keep_step|apply wcall_silence_keeps|by apply call_keeps]; done.
Qed.

Lemma set_duration_keeps a d : wkeeps a (wcall_i_set_duration a d).
Proof. unfold wcall_i_set_duration. repeat first [keep_step|by apply call_keeps]. Qed.
Lemma video_state_keeps a st : wkeeps a (wcall_i_set_video_send_state a st).
Proof. unfold wcall_i_set_video_send_state. repeat first [keep_step|by apply call_keeps]; done. Qed.
Lemma set_clients_keeps a json epoch : wkeeps a (wcall_set_clients_for_epoch a json epoch).
Proof. unfold wcall_set_clients_for_epoch. repeat first [keep_step|by apply call_keeps]. Qed.

Lemma streams_spec a json i :
  wi_ok i → live i a → wp (wcall_i_request_video_streams a json) (λ _ i' _, after i i') i.
Proof.
  intros Hok Hl. unfold wcall_i_request_video_streams.
  apply (wkeeps_then a); [apply wkeeps_get_wcall|done..|]. intros w i1 Hok1 Hl1 Hs1.
  destruct (clients_of _ _); [|wp_steps; by apply after_same].
  eapply wp_mono; [by apply call_last|]. intros x i2 e2 Ha. eapply after_trans; [by apply after_same|done].
Qed.
Lemma epoch_spec a epochid json key i :
  wi_ok i → live i a → wp (wcall_i_set_epoch_info a epochid json key) (λ _ i' _, after i i') i.
Proof.
  intros Hok Hl. unfold wcall_i_set_epoch_info.
  apply (wkeeps_then a); [apply set_clients_keeps|done..|]. intros _ i1 Hok1 Hl1 Hs1.
  eapply wp_mono; [by apply call_last|]. intros x i2 e2 Ha. eapply after_trans; [by apply after_same|done].
Qed.
End Ops.

(** ** Safety of an instance: its events

    Adding a call, the operations on all calls, the events that wait for the
    configuration, and [mqueue_handler]. *)

Lemma after_fixed i i' : wi_ok i' → fixed i' = fixed i → after i i'.
Proof. intros Hok Hf. inversion Hf. split; [done|congruence..]. Qed.

(** The arrays of servers can be read. *)
Definition servers_ok (c : config) : Prop :=
  is_Some (server_list (config_get_iceservers c)) ∧ is_Some (server_list (config_get_sftservers c)).

(** The first duration that waits is for the conversation. *)
Definition duration_ok (i : calling_instance) (convid : string) : Prop :=
  match wi_durationl i with [] => True | (c, _) :: _ => c = convid end.

Section Step.
Context `{WcEnvOk}.

(** ** Adding a call *)

Lemma free_bind {A B} (m : WM A) (k : A → WM B) : free m → (∀ x, free (k x)) → free (m ≫= k).
Proof.
  intros Hm Hk i. apply wp_bind. eapply wp_mono; [apply Hm|]. intros x i1 e1 [Hs1 He1].
  eapply wp_mono; [apply Hk|]. intros y i2 e2 [Hs2 He2].
  split; [exact (transitivity Hs1 Hs2)|]. by rewrite ended_app, He1, He2.
Qed.
Lemma free_ret {A} (x : A) : free (mret x : WM A).
Proof. by intros i. Qed.
Lemma ask_new_free a k f : is_end f = false → free (ask_new a k f).
Proof.
  intros Hf. unfold ask_new. destruct (negb _); [apply free_ret|].
  apply free_bind; [intros i; split; [done|by rewrite ended_call, Hf]|]. intros _.
  apply free_bind; [by intros i|]. intros n. apply free_ret.
Qed.
Lemma add_servers_free a k f l : (∀ s, is_end (f s) = false) → ∀ err, free (add_servers a k f l err).
Proof.
  intros Hf. induction l as [|s l IH]; intros err; cbn [add_servers]; [apply free_ret|].
  apply free_bind; [by apply ask_new_free|done].
Qed.

Lemma set_up_spec a k i :
  servers_ok (wi_cfg i) → wp (set_up_icall a k) (λ _ i' e, same i i' ∧ ended e = []) i.
Proof.
  intros [[tv Ht] [sv Hs]]. unfold set_up_icall. apply wp_bind, wp_get. cbv zeta. revert i Ht Hs.
  assert (Hfree : ∀ i0, server_list (config_get_iceservers (wi_cfg i0)) = Some tv →
    server_list (config_get_sftservers (wi_cfg i0)) = Some sv → free (
    err ← ask_new a k (FnSetQualityInterval (wi_interval i0));
    turnv ← of_ptr (server_list (config_get_iceservers (wi_cfg i0)));
    err ← add_servers a k FnAddTurnserver turnv err;
    err ← (if negb (has_fn k (FnAddSft ""))
           then mret (if (server_count (config_get_sftservers (wi_cfg i0)) =? 0)%nat then err else 0)
           else sftv ← of_ptr (server_list (config_get_sftservers (wi_cfg i0)));
                add_servers a k (λ s, FnAddSft (srv_url s)) sftv err);
    if wi_media_laddr i0 then ask_new a k FnSetMediaLaddr else mret err)).
  { intros i0 -> ->. apply free_bind; [by apply ask_new_free|]. intros err.
    apply free_bind; [apply free_ret|]. intros turnv.
    apply free_bind; [by apply add_servers_free|]. intros err'.
    apply free_bind.
    - destruct (negb _); [apply free_ret|]. apply free_bind; [apply free_ret|]. intros sftv.
      by apply add_servers_free.
    - intros err''. destruct (wi_media_laddr i0); [by apply ask_new_free|apply free_ret]. }
  intros i Ht Hs. eapply wp_mono; [by apply Hfree|]. done.
Qed.

Lemma lookup_none i convid :
  wcall_lookup i convid = None → convid ∉ (λ p : call_id, p.1.2) <$> skel i.
Proof.
  intros Hn (p & -> & Hp)%list_elem_of_fmap. apply list_elem_of_fmap in Hp as (w & -> & Hw).
  apply list_elem_of_In in Hw. pose proof (find_none _ _ Hn w Hw) as He. cbn in He.
  by rewrite String.eqb_refl in He.
Qed.
Lemma lookup_live i convid w : wcall_lookup i convid = Some w → live i (wc_addr w).
Proof.
  intros [Hw _]%find_some. apply list_elem_of_fmap_2. by apply list_elem_of_In.
Qed.

Lemma calls_ok_add n n' sk convid :
  calls_ok n sk → convid ∉ (λ p : call_id, p.1.2) <$> sk → (n < n')%nat →
  calls_ok n' (sk ++ [(n, convid, 1%nat)]).
Proof.
  intros [Ha Hc Hr] Hno Hn. split.
  - rewrite fmap_app. apply NoDup_app. split; [done|]. split; [|apply NoDup_singleton].
    intros x (p & -> & Hp)%list_elem_of_fmap. cbn. rewrite list_elem_of_singleton.
    rewrite Forall_forall in Hr. specialize (Hr p Hp). lia.
  - rewrite fmap_app. apply NoDup_app. split; [done|]. split; [|apply NoDup_singleton].
    intros x Hx. cbn. rewrite list_elem_of_singleton. intros ->. by apply Hno.
  - apply Forall_app. split; [|repeat constructor; cbn; lia].
    eapply Forall_impl; [exact Hr|]. cbn. intros p [H1' H2']. split; [done|lia].
Qed.

Lemma add_spec convid ct meeting i :
  wi_ok i → servers_ok (wi_cfg i) →
  wp (wcall_add convid ct meeting) (λ r i' _, after i i' ∧ ∀ a, r = inr a → live i' a ∧ wi_durationl i' = wi_durationl i) i.
Proof.
  intros Hok Hsv. unfold wcall_add. apply wp_bind, wp_get.
  destruct (wcall_lookup i convid) as [w|] eqn:Hlk.
  { wp_steps. split; [by apply after_refl|intros; discriminate]. }
  apply wp_bind, wp_wnext. destruct (negb (wc_mem _)).
  { wp_steps. split; [|intros; discriminate]. by apply after_fixed. }
  cbv zeta. apply wp_bind, wp_modify. apply wp_bind, wp_emit. apply wp_bind, wp_wnext.
  match goal with |- wp _ _ ?s => set (i1 := s) end.
  assert (Hi1 : evolve (skel i) i i1) by (split; [done..|cbn; lia]).
  assert (Hn1 : wi_naddr i1 = S (wi_naddr i)) by done.
  destruct (negb _).
  { apply wp_bind. eapply wp_mono; [apply destructor_spec|]. intros _ i2 e2 [Hs2 _]. wp_steps.
    split; [|intros; discriminate]. eapply after_trans; [apply (after_same i i1); done|].
    eapply after_evolve; [by eapply ok_same| |done]. apply without_sublist. }
  apply wp_bind. set (k := kind_of _). set (b := is_conference _).
  assert (Hb : wp (wwhen b (uemit [WcSetConfig (wi_naddr i)])) (λ _ i' e, i' = i1) i1) by by destruct b.
  eapply wp_mono; [exact Hb|]. intros _ i' e' ->. apply wp_bind.
  eapply wp_mono; [by apply set_up_spec|]. intros err i2 e2 [Hs2 _].
  apply wp_bind, wp_modify. set (i3 := {| i2 with wi_wcalls := _ |}).
  assert (Hi2 : same i i2) by exact (transitivity Hi1 Hs2).
  assert (Hok3 : wi_ok i3).
  { unfold wi_ok, skel. cbn. rewrite fmap_app. fold (skel i2). rewrite (same_skel _ _ Hi2).
    apply calls_ok_add; [done|by apply lookup_none|]. destruct Hs2 as [_ _ Hn2]. change (wi_naddr i < wi_naddr i2)%nat. rewrite Hn1 in Hn2. lia. }
  assert (Ha3 : after i i3) by (apply after_fixed; [done|by destruct Hi2]).
  assert (Hl3 : live i3 (wi_naddr i)).
  { unfold live. cbn. rewrite fmap_app. apply elem_of_app. right. by left. }
  destruct (negb (err =? 0)).
  - apply wp_bind. eapply wp_mono; [apply deref_spec; [by apply ok_distinct|done]|].
    intros _ i4 e4 [Hs4 _]. wp_steps. split; [|intros; discriminate]. eapply after_trans; [done|].
    eapply after_settled; [done|]. by right.
  - wp_steps. split; [done|]. intros a [= <-]. split; [done|]. destruct Hi2 as [_ Hf _]. by inversion Hf.
Qed.

(** ** Operations on all calls *)

Lemma each_spec f l : ∀ i,
  (∀ a, wkeeps a (f a)) → (∀ a, a ∈ l → live i a) →
  wp (each_wcall f l) (λ _ i' _, same i i') i.
Proof.
  induction l as [|a l IH]; intros i Hf Hl; cbn [each_wcall]; [by wp_steps|]. apply wp_bind.
  apply (wp_keeps a); [apply Hf|apply Hl; left|]. intros x i1 e1 Hs1 Hl1 _. apply wp_bind.
  apply (wp_keeps a); [apply wkeeps_get_wcall|done|]. intros w i2 e2 Hs2 Hl2 _.
  pose proof (transitivity Hs1 Hs2) as Hs. eapply wp_mono; [apply IH; [done|]|].
  - intros b Hb. eapply wlive_same; [exact Hs|]. apply Hl. by right.
  - intros y i3 e3 Hs3. exact (transitivity Hs Hs3).
Qed.
Lemma foreach_spec f i :
  (∀ a, wkeeps a (f a)) → wi_ok i → wp (foreach_wcall f) (λ _ i' _, after i i') i.
Proof.
  intros Hf Hok. unfold foreach_wcall. apply wp_bind, wp_get.
  eapply wp_mono; [by apply each_spec|]. intros x i' e Hs. by apply after_same.
Qed.

Lemma mute_keeps a : wkeeps a (udone (call_icall a FnUpdateMuteState);; call_group_change_json a).
Proof.
  apply wkeeps_bind; [apply wkeeps_udone; by apply call_keeps|]. intros _. unfold call_group_change_json. keep.
Qed.

Lemma restart_spec l : ∀ i,
  wi_ok i → NoDup l → (∀ a, a ∈ l → live i a) → wp (restart_all l) (λ _ i' _, after i i') i.
Proof.
  induction l as [|a l IH]; intros i Hok Hnd Hl; cbn [restart_all]; [wp_steps; by apply after_refl|].
  apply NoDup_cons in Hnd as [Ha Hnd]. apply wp_bind, wp_udone.
  eapply wp_mono; [apply call_settles; [done|apply Hl; left]|]. intros r i1 e1 [Hs _].
  pose proof (after_settled _ _ _ Hok Hs) as Haf. eapply wp_mono; [apply IH; [apply Haf|done|]|].
  - intros b Hb. eapply live_settled; [done| |done|apply Hl; by right]. by intros ->.
  - intros x i2 e2 Ha2. by eapply after_trans.
Qed.

(** ** Events that wait for the configuration *)

Lemma start_wcall_spec a convid t cbr meeting i :
  wi_ok i → live i a → duration_ok i convid →
  sp (start_wcall a convid t cbr meeting) (λ _ i', after i i') i.
Proof.
  intros Hok Hl Hd. unfold start_wcall, wcall_duration_lookup.
  assert (Hgo : ∀ j, after i j → live j a →
    sp (err ← wcall_i_start a t cbr meeting; wwhen (negb (err =? 0)) (wcall_i_end a))
       (λ _ i', after i i') j).
  { intros j Hj Hlj. eapply sp_seq; [apply start_spec; [apply Hj|done]|].
    intros r i1 [Ha1 Hl1]. destruct (negb (r =? 0)) eqn:Hr; cbn [wwhen].
    - eapply sp_mono; [apply end_after; [apply Ha1|apply Hl1]|].
      + apply negb_true_iff, Z.eqb_neq in Hr. done.
      + intros x i2 Ha2. eapply after_trans; [exact Hj|]. by eapply after_trans.
    - apply sp_wp. wp_steps. by eapply after_trans. }
  unfold duration_ok in Hd. destruct (wi_durationl i) as [|[c d] ds] eqn:Hds.
  - apply (sp_seq _ _ (λ r i', r = None ∧ i' = i)).
    { apply wp_bind, wp_get. rewrite Hds. by apply wp_ret. }
    intros _ _ [-> ->]. apply (sp_seq _ _ (λ _ i', i' = i)); [by apply wp_ret|]. intros _ _ ->.
    apply Hgo; [by apply after_refl|done].
  - apply (sp_seq _ _ (λ r i', r = Some d ∧ i' = i)).
    { apply wp_bind, wp_get. rewrite Hds, (proj2 (String.eqb_eq _ _) Hd). by apply wp_ret. }
    intros _ _ [-> ->]. apply (sp_seq _ _ (λ _ i', after i i' ∧ live i' a)).
    2:{ intros _ j [? ?]. by apply Hgo. }
    apply wp_bind. apply (wp_keeps a); [apply set_duration_keeps|done|].
    intros _ i1 e1 Hs1 Hl1 _. apply wp_modify. split; [|done].
    assert (Ha1 : after i i1) by by apply after_same. destruct Ha1. by split; rewrite ?Hds.
Qed.

Lemma duration_none i j convid : after i j → wi_durationl i = [] → duration_ok j convid.
Proof. intros Ha Hd. unfold duration_ok. by rewrite (af_duration _ _ Ha Hd). Qed.

Lemma pend_after e i : wi_ok i → wi_call_config i = false → after i {| i with wi_ready_pendingl := e |}.
Proof. intros Hok Hc. split; [done..|]. cbn. congruence. Qed.

Lemma not_ready i ct : wcall_is_ready i ct = false → wi_call_config i = false.
Proof. unfold wcall_is_ready. by destruct (is_oneonone ct). Qed.

Lemma handle_start_spec convid t ct cbr meeting i :
  wi_ok i → servers_ok (wi_cfg i) → duration_ok i convid →
  sp (handle_start convid t ct cbr meeting) (λ _ i', after i i') i.
Proof.
  intros Hok Hsv Hd. unfold handle_start. apply sp_get.
  destruct (wcall_is_ready i ct) eqn:Hr; cbn [negb].
  2:{ apply sp_wp, wp_modify. apply pend_after; [done|]. by eapply not_ready. }
  destruct (wcall_lookup i convid) as [w|] eqn:Hlk.
  - apply start_wcall_spec; [done|by eapply lookup_live|done].
  - eapply sp_seq; [by apply add_spec|]. intros [err|a] i1 [Ha1 Hl1]; [apply sp_wp; by wp_steps|].
    destruct (Hl1 a eq_refl) as [Hla Hda].
    eapply sp_mono; [apply start_wcall_spec; [apply Ha1|done|]|].
    + unfold duration_ok. by rewrite Hda.
    + intros x i2 Ha2. by eapply after_trans.
Qed.

Lemma handle_answer_spec convid t cbr i :
  wi_ok i → sp (handle_answer convid t cbr) (λ _ i', after i i') i.
Proof.
  intros Hok. unfold handle_answer. apply sp_get.
  destruct (wcall_is_ready i _) eqn:Hr; cbn [negb].
  2:{ apply sp_wp, wp_modify. apply pend_after; [done|]. by eapply not_ready. }
  destruct (wcall_lookup i convid) as [w|] eqn:Hlk; [|apply sp_wp; wp_steps; by apply after_refl].
  eapply sp_seq; [apply answer_spec; [done|by eapply lookup_live]|].
  intros r i1 [Ha1 Hl1]. destruct (negb (r =? 0)) eqn:Hr0; cbn [wwhen]; [|apply sp_wp; by wp_steps].
  eapply sp_mono; [apply end_after; [apply Ha1|apply Hl1]|].
  - by apply negb_true_iff, Z.eqb_neq in Hr0.
  - intros x i2 Ha2. by eapply after_trans.
Qed.

Lemma after_pop_ready i :
  wi_ok i → after i {| i with wi_ready_pendingl := tail (wi_ready_pendingl i) |}.
Proof. intros Hok. split; [done..|]. cbn. by intros _ ->. Qed.
Lemma invoke_ready_spec l : ∀ i,
  wi_ok i → servers_ok (wi_cfg i) → (l = [] ∨ wi_durationl i = []) →
  sp (invoke_ready_loop l) (λ _ i', after i i') i.
Proof.
  induction l as [|e l IH]; intros i Hok Hsv Hd; cbn [invoke_ready_loop];
    [apply sp_wp; wp_steps; by apply after_refl|].
  destruct Hd as [Hd|Hd]; [done|]. apply sp_modify. set (i1 := {| i with wi_ready_pendingl := _ |}).
  assert (Ha1 : after i i1) by by apply after_pop_ready.
  assert (He : sp (match e with
     | RdStart convid call_type conv_type cbr meeting => handle_start convid call_type conv_type cbr meeting
     | RdAnswer convid call_type cbr => handle_answer convid call_type cbr
     end) (λ _ i', after i1 i') i1).
  { destruct e; [apply handle_start_spec|apply handle_answer_spec]; try done. by eapply duration_none. }
  eapply sp_bind; [exact He|]. intros x i2 Ha2.
  assert (Ha : after i i2) by by eapply after_trans.
  eapply sp_mono; [apply IH; [apply Ha|by rewrite (af_cfg _ _ Ha)|right; by apply (af_duration _ _ Ha)]|].
  intros y i3 Ha3. by eapply after_trans.
Qed.

Lemma add_wcall_spec msg convid userid ct meeting i :
  wi_ok i → servers_ok (wi_cfg i) →
  wp (add_wcall msg convid userid ct meeting) (λ r i' _, after i i' ∧ ∀ a, r = inr a → live i' a) i.
Proof.
  intros Hok Hsv. unfold add_wcall. apply wp_bind, wp_get. cbv zeta.
  assert (Hadd : ∀ ct, wp (wcall_add convid ct meeting) (λ r i' _, after i i' ∧ ∀ a, r = inr a → live i' a) i).
  { intros ct'. eapply wp_mono; [by apply add_spec|]. intros r i' e [Ha Hl]. split; [done|].
    intros a Hr. by apply Hl. }
  repeat case_match; try (eapply wp_mono; [apply Hadd|done]).
  wp_steps. split; [by apply after_refl|intros; discriminate].
Qed.

Lemma deliver_spec e i :
  wi_ok i → servers_ok (wi_cfg i) → wp (deliver_update e) (λ _ i' _, after i i') i.
Proof.
  intros Hok Hsv. unfold deliver_update. apply wp_bind. eapply wp_mono; [by apply add_wcall_spec|].
  intros [err|a] i1 e1 [Ha1 Hl1]; [by wp_steps|].
  eapply wp_mono; [apply call_last; [apply Ha1|by apply Hl1]|]. intros x i2 e2 Ha2. by eapply after_trans.
Qed.
Lemma update_loop_spec l : ∀ i,
  wi_ok i → servers_ok (wi_cfg i) → wp (update_loop l) (λ _ i' _, after i i') i.
Proof.
  induction l as [|e l IH]; intros i Hok Hsv; cbn [update_loop]; [wp_steps; by apply after_refl|].
  apply wp_bind. eapply wp_mono; [by apply deliver_spec|]. intros x i1 e1 Ha1. apply wp_bind, wp_modify.
  set (i2 := {| i1 with wi_config_updatel := _ |}).
  assert (Ha2 : after i i2) by (destruct Ha1; by split).
  eapply wp_mono; [apply IH; [apply Ha2|by rewrite (af_cfg _ _ Ha2)]|].
  intros y i3 e3 Ha3. by eapply after_trans.
Qed.

(** The state in which the configuration is updated. *)
Definition updatable (i : calling_instance) : Prop :=
  wi_ok i ∧ servers_ok (wi_cfg i) ∧ (wi_ready_pendingl i = [] ∨ wi_durationl i = []).

Lemma update_handler_spec i : updatable i → sp config_update_handler (λ _ i', updatable i') i.
Proof.
  intros (Hok & Hsv & Hd). unfold config_update_handler. apply sp_get. apply sp_modify.
  set (i1 := {| i with wi_call_config := true |}).
  assert (Hgo : sp (wwhen (negb (wi_call_config i) && wi_h i H_READY) (uemit [WcReady];; wcall_invoke_ready))
                   (λ _ i', after i1 i') i1).
  { destruct (_ && _); cbn [wwhen]; [|apply sp_wp; wp_steps; by apply after_refl].
    apply (sp_seq _ _ (λ _ i', i' = i1)); [by apply wp_emit|]. intros _ _ ->.
    unfold wcall_invoke_ready. apply sp_get. by apply invoke_ready_spec. }
  eapply sp_bind; [exact Hgo|]. intros x i2 Ha2. apply sp_get, sp_wp.
  eapply wp_mono; [apply update_loop_spec; [apply Ha2|by rewrite (af_cfg _ _ Ha2)]|].
  intros y i3 e3 Ha3. assert (Ha : after i1 i3) by exact (after_trans _ _ _ Ha2 Ha3).
  split; [apply Ha|]. split; [by rewrite (af_cfg _ _ Ha)|].
  destruct Hd as [Hd|Hd]; [left; by apply (af_ready _ _ Ha)|right; by apply (af_duration _ _ Ha)].
Qed.
Lemma run_updates_spec l : ∀ i, updatable i → sp (run_updates l) (λ _ i', updatable i') i.
Proof.
  induction l as [|e l IH]; intros i Hi; cbn [run_updates]; [apply sp_wp; by wp_steps|].
  destruct e as [|[a|] c]; try (by apply IH).
  eapply sp_bind; [by apply update_handler_spec|]. intros x i1 H1'. by apply IH.
Qed.

(** ** Messages and responses *)

(** The property that is read of a message can be read. *)
Definition props_ok (heap : props_heap) (msg : econn_message) : Prop :=
  ∀ p, setup_props msg = Some p → is_Some (econn_props_get heap (Some p) (Some "videosend")).

Lemma recv_spec heap msg ct mt convid userid clientid conv_type meeting i :
  wi_ok i → servers_ok (wi_cfg i) → props_ok heap msg →
  wp (wcall_i_recv_msg heap msg ct mt convid userid clientid conv_type meeting) (λ _ i' _, after i i') i.
Proof.
  intros Hok Hsv Hp. unfold wcall_i_recv_msg. apply wp_bind, wp_get. cbv zeta. destruct (_ && _).
  { unfold report_missed. destruct (setup_props msg) as [p|] eqn:Hsp; [|wp_steps; by apply after_refl].
    destruct (Hp p Hsp) as [vr Hvr]. apply wp_bind. eapply wp_of_ptr; [exact Hvr|].
    unfold whandler. apply wp_bind, wp_get. destruct (wi_h i H_MISSED); cbn [wwhen];
      [apply wp_emit|apply wp_ret]; by apply after_refl. }
  destruct (wcall_lookup i convid) as [w|] eqn:Hlk; [apply call_last; [done|by eapply lookup_live]|].
  apply wp_bind, wp_wnext. assert (Ha : after i (ticked i)) by by apply after_fixed.
  destruct (config_needs_update _ _).
  - destruct (wc_mem _); cbn [wwhen]; [apply wp_modify|by apply wp_ret]. by destruct Ha; split.
  - apply wp_bind. eapply wp_mono; [by apply add_wcall_spec|]. intros [err|a] i1 e1 [Ha1 Hl1].
    + apply wp_ret. by eapply after_trans.
    + eapply wp_mono; [apply call_last; [apply Ha1|by apply Hl1]|]. intros x i2 e2 Ha2.
      eapply after_trans; [exact Ha|]. by eapply after_trans.
Qed.

Lemma copy_ctxl_free l : free (copy_ctxl l).
Proof.
  induction l as [|c l IH]; cbn [copy_ctxl]; [apply free_ret|].
  apply free_bind; [by intros i|]. intros n. apply free_bind; [done|]. intros r. apply free_ret.
Qed.
Lemma sft_resp_spec status msg ctx c i :
  wi_ok i → find_ctx i ctx = Some c → live i (c.2) →
  wp (wcall_i_sft_resp status msg (Some ctx)) (λ _ i' _, after i i') i.
Proof.
  intros Hok Hc Hl. unfold wcall_i_sft_resp. apply wp_bind, wp_get. rewrite Hc. apply wp_bind, wp_ret.
  apply (wkeeps_then (c.2)); [apply wkeeps_get_wcall|done..|]. intros w i1 Hok1 Hl1 Hs1.
  apply wp_bind. eapply wp_mono; [apply copy_ctxl_free|]. intros l i2 e2 [Hs2 _].
  pose proof (transitivity Hs1 Hs2) as Hs.
  destruct (bool_decide _); cbn [wwhen]; [|apply wp_ret; by apply after_same].
  apply wp_bind. eapply wp_mono; [apply call_last; [by eapply ok_same|by eapply wlive_same]|].
  intros x i3 e3 Ha3. apply wp_modify.
  assert (Ha : after i i3) by (eapply after_trans; [by apply after_same|done]). by destruct Ha; split.
Qed.

Lemma incoming_handler_free e : free (wcall_i_invoke_incoming_handler e).
Proof.
  intros i. unfold wcall_i_invoke_incoming_handler, whandler. apply wp_bind, wp_get.
  destruct (wcall_lookup _ _); [|by apply wp_ret]. destruct (bool_decide _); cbn [wwhen]; [|by apply wp_ret].
  apply wp_bind, wp_get. by destruct (wi_h i H_INCOMING).
Qed.
Lemma incoming_free e : free (invoke_incoming e).
Proof.
  intros i. unfold invoke_incoming. apply wp_bind, wp_get.
  destruct (wi_mm i); [by apply wp_emit|]. apply incoming_handler_free.
Qed.
Lemma pending_spec l : ∀ i, wi_ok i → wp (handle_pending_events l) (λ _ i' _, after i i') i.
Proof.
  induction l as [|e l IH]; intros i Hok; cbn [handle_pending_events]; [wp_steps; by apply after_refl|].
  apply wp_bind. eapply wp_mono; [apply incoming_free|]. intros x i1 e1 [Hs1 _]. apply wp_bind, wp_modify.
  set (i2 := {| i1 with wi_pending := _ |}).
  assert (Ha2 : after i i2) by (apply after_same in Hs1; [by destruct Hs1; split|done]).
  eapply wp_mono; [apply IH, Ha2|]. intros y i3 e3 Ha3. by eapply after_trans.
Qed.

Lemma release_calls_spec l : ∀ i, wi_ok i → wp (release_calls l) (λ _ i' _, wi_ok i') i.
Proof.
  induction l as [|w l IH]; intros i Hok; cbn [release_calls]; [by wp_steps|]. apply wp_bind.
  eapply wp_mono; [apply destructor_spec|]. intros x i1 e1 [Hs1 _]. eapply wp_mono; [apply IH|done].
  eapply ok_evolve; [done| |done]. apply without_sublist.
Qed.
End Step.
