(* ===== verification/WcallProps.v ===== *)
(** * Properties of an instance

    Under [op_pre] and the promises of the call objects an operation of an instance is
    undefined exactly when it uses a call that was released; when the media fail every
    call is ended once; and where the conditions do not hold, the code goes wrong. *)

From stdpp Require Import gmap.
From S2P Require Import Prelude LibRe LibReJson Jzon EconnMsg EconnFmt Econn ConfPos Dict Icall AudioLevel UserList CcallSft Config Ecall EcallMsg Egcall Wcall WcallOps WcallSafe WcallInv.

#[local] Open Scope string_scope.
#[local] Open Scope Z_scope.
#[local] Open Scope list_scope.

(** ** Operations *)

(** What happens to an instance: an event of its queue, a callback of a call object
    from the event loop, the timer, and the calls of the platform. *)
Inductive wc_op :=
| OpEvent (md : mq_data)
| OpCallback (a : nat) (cb : icall_callback)
| OpRoamed
| OpMuted (muted : bool)
| OpActivate (active : bool)
| OpBackground (background : bool)
| OpQuality (netqh : bool) (interval : Z).

Section Props.
Context `{WcEnvOk}.

Definition wcall_exec (o : wc_op) : WM () :=
  match o with
  | OpEvent md => mqueue_handler md
  | OpCallback a cb => handle a cb
  | OpRoamed => i ← uget; wwhen (wi_tmr_roam i) tmr_roaming_handler
  | OpMuted muted => msys_mute_handler muted
  | OpActivate active => msys_activate_handler active
  | OpBackground background => wcall_set_background background
  | OpQuality netqh interval => wcall_set_network_quality_handler netqh interval
  end.

(** The conditions of an operation: servers that can be read when a call is added, a
    context that exists when a server responds, no duration that waits for another
    conversation, memory when the media category changes, messages whose properties are
    texts, callbacks of calls that exist and with messages that can be encoded. *)
Definition event_pre (i : calling_instance) (md : mq_data) : Prop :=
  match md with
  | MEV_RECV_MSG heap msg _ _ _ _ _ _ _ => servers_ok (wi_cfg i) ∧ props_ok heap msg
  | MEV_CONFIG_UPDATE err json =>
    servers_ok (final (config_update err json (wc_now (wi_tick i)) (wi_cfg i)))
    ∧ (wi_ready_pendingl i = [] ∨ wi_durationl i = [])
  | MEV_RESP (Some ctx) | MEV_SFT_RESP _ _ (Some ctx) => is_Some (find_ctx i ctx)
  | MEV_START convid _ _ _ _ => servers_ok (wi_cfg i) ∧ duration_ok i convid
  | MEV_MCAT_CHANGED _ => ∀ n, wc_mem n = true
  | _ => True
  end.
Definition op_pre (i : calling_instance) (o : wc_op) : Prop :=
  match o with
  | OpEvent md => event_pre i md
  | OpCallback a cb => live i a ∧ encodable cb
  | _ => True
  end.

(** An operation that uses a call after it was released: the call object closes the
    call while it is ended, or the call of a response is gone. *)
Definition uses_released (i : calling_instance) (o : wc_op) : Prop :=
  match o with
  | OpEvent (MEV_END convid) =>
    is_Some (wcall_lookup i convid) ∧ closes (wc_callbacks (wi_tick i) FnEnd) = true
  | OpEvent (MEV_SFT_RESP _ _ (Some ctx)) => ∃ c, find_ctx i ctx = Some c ∧ ¬ live i (c.2)
  | _ => False
  end.
(** An operation that ends a call which cannot be started or answered. *)
Definition ends_failed (o : wc_op) : bool :=
  match o with
  | OpEvent (MEV_START _ _ _ _ _ | MEV_ANSWER _ _ _ | MEV_CONFIG_UPDATE _ _) => true
  | _ => false
  end.

Lemma on_wcall_spec convid f i :
  wi_ok i → (∀ a, live i a → wp (f a) (λ _ i' _, after i i') i) →
  wp (on_wcall convid f) (λ _ i' _, wi_ok i') i.
Proof.
  intros Hok Hf. unfold on_wcall. apply wp_bind, wp_get.
  destruct (wcall_lookup i convid) as [w|] eqn:Hlk; [|by wp_steps].
  eapply wp_mono; [apply Hf; by eapply lookup_live|]. intros x i' e Ha. apply Ha.
Qed.
Lemma wp_after_ok {A} (m : WM A) i : wp m (λ _ i' _, after i i') i → wp m (λ _ i' _, wi_ok i') i.
Proof. intros Hm. eapply wp_mono; [exact Hm|]. intros x i' e Ha. apply Ha. Qed.

Lemma end_spec convid i :
  wi_ok i → ¬ uses_released i (OpEvent (MEV_END convid)) →
  wp (mqueue_handler (MEV_END convid)) (λ _ i' _, wi_ok i') i.
Proof.
  intros Hok Hn. cbn [mqueue_handler uses_released] in *. unfold on_wcall. apply wp_bind, wp_get.
  destruct (wcall_lookup i convid) as [w|] eqn:Hlk; [|by wp_steps].
  assert (Hcb : ∀ n, closes_last (wc_callbacks n FnEnd) = true ∧ Forall encodable (wc_callbacks n FnEnd))
    by (intros n; split; [apply eok_last|apply eok_encodable]).
  pose proof (end_internal_spec (wc_addr w) i Hcb Hok (lookup_live _ _ _ Hlk)) as He.
  destruct (closes _); [by destruct Hn; eauto|]. eapply wp_mono; [exact He|].
  intros x i' e [Hs _]. by eapply ok_same.
Qed.

Lemma mqueue_spec md i :
  wi_ok i → event_pre i md → ¬ uses_released i (OpEvent md) → ends_failed (OpEvent md) = false →
  wp (mqueue_handler md) (λ _ i' _, wi_ok i') i.
Proof.
  intros Hok Hpre Hu Hf. destruct md; try discriminate Hf; try (by apply end_spec); cbn [mqueue_handler event_pre] in *.
  - destruct Hpre. apply wp_after_ok. by apply recv_spec.
  - destruct arg as [ctx|]; cbn [wcall_i_resp]; [|by wp_steps]. destruct Hpre as [c Hc].
    apply wp_bind, wp_get. apply wp_bind. eapply wp_of_ptr; [exact Hc|]. by apply wp_modify.
  - destruct ctx as [ctx|]; [|by wp_steps]. destruct Hpre as [c Hc]. apply wp_after_ok.
    eapply sft_resp_spec; [done..|]. destruct (decide (c.2 ∈ wc_addr <$> wi_wcalls i)) as [|Hn]; [done|].
    destruct Hu. exists c. by split.
  - apply on_wcall_spec; [done|]. intros a Hl. apply (wkeeps_after a); [|done..].
    apply wkeeps_udone, reject_keeps.
  - apply on_wcall_spec; [done|]. intros a Hl. apply (wkeeps_after a); [|done..]. apply video_state_keeps.
  - eapply wp_mono; [apply mcat_changed_spec; [|done..]|]; [|by intros x i' e [[] _]].
    intros n f. split; [apply eok_last|apply eok_encodable].
  - by wp_steps.
  - unfold wcall_i_network_changed. by apply wp_modify.
  - eapply wp_mono; [exact (incoming_handler_free e i)|]. intros x i' e' [Hs _]. by eapply ok_same.
  - apply on_wcall_spec; [done|]. intros a Hl. by apply call_last.
  - apply on_wcall_spec; [done|]. intros a Hl. apply (wkeeps_after a); [|done..]. apply set_clients_keeps.
  - unfold wcall_i_destroy. apply wp_bind, wp_get. apply wp_bind, wp_modify. apply wp_bind.
    eapply wp_mono; [by apply release_calls_spec|]. intros x i' e Hi. by apply wp_modify.
  - by apply wp_emit.
  - apply wp_bind, wp_get. destruct (wcall_lookup i convid) as [w|] eqn:Hlk.
    + eapply wp_mono; [apply (wkeeps_after (wc_addr w)); [apply set_duration_keeps|done|by eapply lookup_live]|].
      intros x i' e Ha. apply Ha.
    + apply wp_udone. unfold wcall_duration_add. apply wp_bind, wp_wnext. by destruct (wc_mem _).
  - apply on_wcall_spec; [done|]. intros a Hl. by apply streams_spec.
  - apply on_wcall_spec; [done|]. intros a Hl. by apply epoch_spec.
  - unfold wcall_i_process_notifications. apply wp_bind, wp_get. apply wp_bind, wp_modify.
    destruct (_ && _); cbn [wwhen]; [|by apply wp_ret]. apply wp_after_ok. by apply pending_spec.
Qed.

Lemma exec_spec o i :
  wi_ok i → op_pre i o → ¬ uses_released i o → ends_failed o = false →
  wp (wcall_exec o) (λ _ i' _, wi_ok i') i.
Proof.
  intros Hok Hpre Hu Hf. destruct o; cbn [wcall_exec op_pre] in *.
  - by apply mqueue_spec.
  - destruct Hpre as [Hl He]. destruct (is_close cb) eqn:Hc.
    + destruct cb; try done. eapply wp_mono; [apply close_spec; [by apply ok_distinct|done]|].
      intros x i' e [Hs _]. eapply af_ok, after_settled; [exact Hok|]. by right.
    + apply wp_after_ok. apply (wkeeps_after a); [by apply handle_keeps|done..].
  - apply wp_bind, wp_get. destruct (wi_tmr_roam i); cbn [wwhen]; [|by apply wp_ret].
    unfold tmr_roaming_handler. apply wp_bind, wp_modify. apply wp_bind, wp_get. apply wp_after_ok.
    apply restart_spec; [done| |done]. destruct Hok as [Ha _ _]. unfold skel in Ha.
    by rewrite <- list_fmap_compose in Ha.
  - unfold msys_mute_handler, whandler. apply wp_bind, wp_bind, wp_get. destruct (wi_h i H_MUTE); cbn [wwhen].
    + apply wp_emit, wp_after_ok, foreach_spec; [apply mute_keeps|done].
    + apply wp_ret, wp_after_ok, foreach_spec; [apply mute_keeps|done].
  - apply wp_after_ok, foreach_spec; [|done]. intros a. apply wkeeps_udone. by apply call_keeps.
  - apply wp_after_ok, foreach_spec; [|done]. intros a. apply wkeeps_udone. by apply call_keeps.
  - unfold wcall_set_network_quality_handler. apply wp_bind, wp_modify. apply wp_bind, wp_get.
    apply wp_after_ok, foreach_spec; [|done]. intros a. apply wkeeps_udone. by apply call_keeps.
Qed.

(** Operations that may end a call. *)
Lemma sp_after_ok {A} (m : WM A) i : sp m (λ _ i', after i i') i → sp m (λ _ i', wi_ok i') i.
Proof. intros Hm. eapply sp_mono; [exact Hm|]. intros x i' Ha. apply Ha. Qed.
Lemma exec_sp o i :
  wi_ok i → op_pre i o → ends_failed o = true → sp (wcall_exec o) (λ _ i', wi_ok i') i.
Proof.
  intros Hok Hpre Hf. destruct o as [md| | | | | |]; try done.
  destruct md; try done; cbn [wcall_exec mqueue_handler op_pre event_pre] in *.
  - destruct Hpre as [Hsv Hd]. unfold wcall_i_config_update.
    apply (sp_seq _ _ (λ n i', n = wi_tick i ∧ i' = ticked i)); [by apply wp_wnext|]. intros _ _ [-> ->].
    apply sp_get. cbv zeta. apply sp_modify. eapply sp_mono; [apply run_updates_spec; by split|].
    intros x i' Hu. apply Hu.
  - destruct Hpre. by apply sp_after_ok, handle_start_spec.
  - by apply sp_after_ok, handle_answer_spec.
Qed.

Lemma exec_released o i : wi_ok i → uses_released i o → wcall_exec o i = None.
Proof.
  intros Hok Hu. destruct o as [md| | | | | |]; try done.
  destruct md; try done; cbn [wcall_exec mqueue_handler uses_released] in *.
  - destruct ctx as [ctx|]; [|done]. destruct Hu as (c & Hc & Hl). unfold wcall_i_sft_resp, mbind, MU_bind, uget.
    rewrite Hc. cbn -[get_wcall]. by rewrite get_wcall_gone.
  - destruct Hu as [[w Hlk] Hc]. unfold on_wcall, mbind, MU_bind, uget. rewrite Hlk.
    assert (Hcb : ∀ n, closes_last (wc_callbacks n FnEnd) = true ∧ Forall encodable (wc_callbacks n FnEnd))
      by (intros n; split; [apply eok_last|apply eok_encodable]).
    pose proof (end_internal_spec (wc_addr w) i Hcb Hok (lookup_live _ _ _ Hlk)) as He.
    rewrite Hc in He. unfold wcall_i_end. by rewrite He.
Qed.

#[export] Instance uses_released_dec i o : Decision (uses_released i o).
Proof.
  destruct o as [md| | | | | |]; try (right; exact id). destruct md; try (right; exact id); cbn [uses_released].
  - destruct ctx as [ctx|]; [|right; exact id].
    destruct (find_ctx i ctx) as [c|]; [|right; by intros (? & ? & _)].
    destruct (decide (c.2 ∈ wc_addr <$> wi_wcalls i)) as [Hl|Hl].
    + right. intros (c' & [= <-] & Hn). by apply Hn.
    + left. eauto.
  - apply _.
Defined.

(** Whatever an operation does, if it is defined it keeps the invariant. *)
Lemma exec_keeps o i i' e : wi_ok i → op_pre i o → wcall_exec o i = Some ((), i', e) → wi_ok i'.
Proof.
  intros Hok Hpre He. destruct (decide (uses_released i o)) as [Hu|Hu].
  { by rewrite exec_released in He. }
  destruct (ends_failed o) eqn:Hf.
  - destruct (exec_sp o i Hok Hpre Hf) as [_ Hl]. unfold wlp in Hl. by rewrite He in Hl.
  - pose proof (exec_spec o i Hok Hpre Hu Hf) as Hw. unfold wp in Hw. by rewrite He in Hw.
Qed.

(** A step of an instance under the conditions. *)
Definition wc_step (i i' : calling_instance) : Prop :=
  ∃ o e, op_pre i o ∧ wcall_exec o i = Some ((), i', e).

(** C14: What an instance does with the calls it has released, exactly.  An instance
    that has no calls yet is taken through operations, in any order, under [op_pre] (a
    response names a context that exists; a new call finds servers that can be read and
    no duration that waits for another conversation; there is memory when the media
    category changes; the property that is read of a message is a text; callbacks come
    from calls that exist and can be encoded) and [WcEnvOk] (a call object closes its
    call at most once, as the last thing it does, and only in the functions of
    [may_close], that of ending a call among them, and its callbacks can be encoded).  Then the calls always have
    different addresses and conversations and one reference each; and the next operation
    is undefined if it uses a call that was released ([uses_released]: a call is ended
    whose object closes it meanwhile, or the server responds to a call that is gone),
    and otherwise it is defined, except that starting, answering and updating the
    configuration, which end a call that cannot be started or answered, are shown to be
    defined only if no call object closes its call while it is ended ([calm_end]). *)
Theorem instance_safe i0 i :
  wi_wcalls i0 = [] → rtc wc_step i0 i →
  wi_ok i
  ∧ ∀ o, op_pre i o →
    (uses_released i o → wcall_exec o i = None)
    ∧ (¬ uses_released i o → (ends_failed o = true → calm_end) →
       ∃ i' e, wcall_exec o i = Some ((), i', e) ∧ wi_ok i').
Proof.
  intros Hnone Hr. assert (Hok : wi_ok i).
  { assert (Hok0 : wi_ok i0) by (unfold wi_ok, skel; rewrite Hnone; by split; constructor).
    clear Hnone. induction Hr as [|i0 i1 i (o & e & Hpre & He) _ IH]; [done|]. apply IH.
    by eapply exec_keeps. }
  split; [done|]. intros o Hpre. split; [by apply exec_released|]. intros Hu Hc.
  assert (Hw : wp (wcall_exec o) (λ _ i' _, wi_ok i') i).
  { destruct (ends_failed o) eqn:Hf; [|by apply exec_spec]. apply exec_sp; [done..|]. by apply Hc. }
  apply wp_defined in Hw as ([] & i' & e & He & Hok'). eauto.
Qed.
End Props.

(** ** Where an instance goes wrong

    Calls that end: all of them when the media fail, one that closes while it is
    ended, and what reaches a call or an instance too late. *)

Section Fail.
Context `{LibRe, LibReJson, WcEnv}.

(** C15: When the media manager reports an error every call is told to end exactly once
    (the last one first, then the others in their order), whether or not the calls
    close while they are told, and the instance keeps its invariant; as long as a call
    object closes its call at most once and last, and there is memory. *)
Theorem media_error_ends_every_call i :
  (∀ n f, closes_last (wc_callbacks n f) = true ∧ Forall encodable (wc_callbacks n f)) →
  (∀ n, wc_mem n = true) → wi_ok i →
  ∃ i' e, wcall_i_mcat_changed MEDIAMGR_STATE_ERROR i = Some ((), i', e)
          ∧ wi_ok i' ∧ sublist (skel i') (skel i)
          ∧ ended e = rotate (wc_addr <$> wi_wcalls i) ∧ ended e ≡ₚ wc_addr <$> wi_wcalls i.
Proof.
  intros Hcb Hmem Hok. pose proof (mcat_changed_spec Hcb MEDIAMGR_STATE_ERROR i Hmem Hok) as Hw.
  apply wp_defined in Hw as ([] & i' & e & He & (Hok' & Hs & _) & Hen). exists i', e.
  split; [done|]. split; [done|]. split; [done|]. rewrite Hen. split; [done|]. apply rotate_perm.
Qed.

(** ** Ending a call *)

Section Group.
Context `{EgEnv}.

Lemma gget_run c : eg_refs c ≠ 0%nat → gget c = Some (c, c, []).
Proof. intros Hr%Nat.eqb_neq. unfold gget, mbind, MU_bind, uget. by rewrite Hr. Qed.

Lemma leave_sent c :
  eg_refs c ≠ 0%nat →
  ∃ r n e, send_msg ECONN_GROUP_LEAVE false false c = Some (r, {| c with eg_tick := n |}, e).
Proof.
  intros Hr. unfold send_msg, gnext, gcall_cb, gwhen, mbind, MU_bind.
  rewrite (gget_run c) by done. unfold umodify, mret, MU_ret. destruct (eg_mem (eg_tick c)); cbn -[gget].
  - rewrite bool_decide_eq_false_2 by done. do 2 (rewrite gget_run by done; cbn -[gget]).
    destruct (eg_cb c CB_SEND) eqn:Hs; cbn -[gget]; rewrite gget_run by done; cbn; by eexists _, _, _.
  - by eexists _, _, _.
Qed.

Lemma unjoined_closes g :
  eg_state g = EGCALL_STATE_OUTGOING → eg_refs g ≠ 0%nat → ecalll g = [] →
  dict_count (eg_roster g) = 0%nat → eg_cb g CB_CLOSE = true →
  ∃ g' e, egcall_end g = Some ((), g', e) ∧ EgClosed 0 ECONN_MESSAGE_TIME_UNKNOWN None None ∈ e.
Proof.
  intros Hst Hr He Hd Hc. unfold egcall_end, egcall_end_with_err, send_leave.
  destruct (leave_sent g Hr) as (r & n & e & Hl). unfold mbind, MU_bind.
  rewrite gget_run, Hst, He by done. cbn -[send_msg gget set_state gcall_cb dict_count]. rewrite Hl.
  rewrite gget_run by done. cbn -[gget set_state gcall_cb dict_count]. rewrite Hd, Nat.eqb_refl.
  unfold set_state, gmod, gcall_cb, gwhen, mbind, MU_bind, umodify.
  repeat (rewrite gget_run by done; cbn -[gget]). rewrite Hc. cbn.
  eexists _, _. split; [reflexivity|]. apply elem_of_app. right. by left.
Qed.
End Group.

(** C37: Hanging up a group call that nobody has joined uses the call after it was
    released: the group call closes itself while it is ended, before [egcall_end]
    returns; and whenever a call object does so, [wcall_end_internal] goes on with the
    call that is gone. *)
Theorem hang_up_unjoined_undefined `{EgEnv} g i a :
  eg_state g = EGCALL_STATE_OUTGOING → eg_refs g ≠ 0%nat → ecalll g = [] →
  dict_count (eg_roster g) = 0%nat → eg_cb g CB_CLOSE = true →
  wi_ok i → live i a →
  (∀ n, closes_last (wc_callbacks n FnEnd) = true ∧ Forall encodable (wc_callbacks n FnEnd)
        ∧ closes (wc_callbacks n FnEnd) = true) →
  (∃ g' e, egcall_end g = Some ((), g', e) ∧ EgClosed 0 ECONN_MESSAGE_TIME_UNKNOWN None None ∈ e)
  ∧ wcall_i_end a i = None.
Proof.
  intros Hst Hr Hec Hd Hc Hok Hl Hcb. split.
  - by apply unjoined_closes.
  - assert (Hcb' : ∀ n, closes_last (wc_callbacks n FnEnd) = true ∧ Forall encodable (wc_callbacks n FnEnd))
      by (intros n; by destruct (Hcb n) as (? & ? & _)).
    pose proof (end_internal_spec a i Hcb' Hok Hl) as He. destruct (Hcb (wi_tick i)) as (_ & _ & Hc').
    by rewrite Hc' in He.
Qed.

(** ** What comes too late *)

(** Computations that leave the contexts alone. *)
Definition kept {A} (m : WM A) : Prop := ∀ i, wlp m (λ _ i' _, wi_ctxl i' = wi_ctxl i) i.

Lemma kept_bind {A B} (m : WM A) (k : A → WM B) : kept m → (∀ x, kept (k x)) → kept (m ≫= k).
Proof.
  intros Hm Hk i. apply wlp_bind. eapply wlp_mono; [apply Hm|]. intros x i1 e1 He1.
  eapply wlp_mono; [apply Hk|]. intros y i2 e2 He2. congruence.
Qed.
Lemma kept_of_ptr {A} (o : option A) : kept (of_ptr o).
Proof. intros i. by destruct o. Qed.
Ltac kept :=
  repeat first
    [ done
    | apply kept_of_ptr
    | lazymatch goal with
      | |- kept (_ ≫= _) => apply kept_bind; [|intros ?]
      | |- kept (match ?x with _ => _ end) => destruct x
      end
    | progress unfold wwhen, whandler, get_wcall, set_wcall, set_mm, wnext, wcall_has_calls, udone ].

Lemma close_keeps_ctxl a err m t u c : kept (icall_close_handler a err m t u c).
Proof.
  unfold icall_close_handler, report_close, wcall_deref, wcall_destructor, wcall_set_state. cbv zeta. kept.
Qed.

(** The context of a request. *)
Definition with_ctx (a : nat) (i : calling_instance) : calling_instance :=
  {| i with wi_ctxl := wi_ctxl i ++ [(wi_naddr i, a)]; wi_naddr := S (wi_naddr i);
            wi_tick := S (S (wi_tick i)) |}.
Lemma sft_request_run h url msg text a i :
  live i a → wi_h i H_SFT = true → wc_mem (wi_tick i) = true →
  econn_message_encode h msg = Some (inr text) →
  handle a (OnSft h url msg) i = Some ((), with_ctx a i, [WcSft (wi_naddr i) url text]).
Proof.
  intros Hl Hh Hm Ht. destruct (find_wcall_live i a Hl) as (w & Hf & _).
  cbn [handle]. unfold icall_sft_handler, ctx_alloc, udone, get_wcall, wnext, mbind, MU_bind, mret, MU_ret, uget,
    umodify, uemit. rewrite Hf. cbn. rewrite Hh. cbn. rewrite Hm. cbn. rewrite Ht. done.
Qed.

Lemma ctx_found (l : list (nat * nat)) n a :
  Forall (λ c, (c.1 < n)%nat) l → List.find (λ c, (c.1 =? n)%nat) (l ++ [(n, a)]) = Some (n, a).
Proof.
  induction 1 as [|c l Hc Hl IH]; cbn; [by rewrite Nat.eqb_refl|].
  by rewrite (proj2 (Nat.eqb_neq _ _)) by lia.
Qed.

(** C38: A response of the server that arrives after its call has closed is handled with
    the call that is gone: the context outlives the call, and [wcall_i_sft_resp] reads
    the call in order to find out whether it is valid. *)
Theorem late_sft_response_undefined h url msg text err m t u c status response a i :
  wi_ok i → live i a → wi_h i H_SFT = true → wc_mem (wi_tick i) = true →
  econn_message_encode h msg = Some (inr text) → Forall (λ c, (c.1 < wi_naddr i)%nat) (wi_ctxl i) →
  ∃ i' e, (handle a (OnSft h url msg);; handle a (OnClose err m t u c)) i = Some ((), i', e)
          ∧ WcSft (wi_naddr i) url text ∈ e
          ∧ mqueue_handler (MEV_SFT_RESP status response (Some (wi_naddr i))) i' = None.
Proof.
  intros Hok Hl Hh Hm Ht Hctx. unfold mbind, MU_bind. erewrite sft_request_run by done.
  set (i1 := with_ctx a i). assert (Hok1 : wi_ok i1) by (eapply ok_same; [exact Hok|]; split; [done..|cbn; lia]).
  pose proof (close_spec a err m t u c i1 (ok_distinct _ Hok1) Hl) as Hw.
  pose proof (close_keeps_ctxl a err m t u c i1) as Hk.
  apply wp_defined in Hw as ([] & i2 & e2 & He2 & Hev & _). cbn [handle].
  unfold wlp in Hk. rewrite He2 in Hk |- *. exists i2, (WcSft (wi_naddr i) url text :: e2).
  split; [done|]. split; [by left|]. cbn [mqueue_handler wcall_i_sft_resp].
  unfold mbind, MU_bind, uget, find_ctx. rewrite Hk. cbn [wi_ctxl i1 with_ctx]. rewrite ctx_found by done.
  cbn -[get_wcall]. rewrite get_wcall_gone; [done|]. by eapply released_gone.
Qed.

Lemma call_told a f i :
  (∀ k, has_fn k f = true) →
  (∀ n, closes_last (wc_callbacks n f) = true ∧ Forall encodable (wc_callbacks n f)) →
  wi_ok i → live i a →
  ∃ i' e, udone (call_icall a f) i = Some ((), i', e) ∧ WcCall a f ∈ e.
Proof.
  intros Hf Hcb Hok Hl. destruct (find_wcall_live i a Hl) as (w & Hw & _).
  unfold udone, call_icall, get_wcall, wnext, mbind, MU_bind, mret, MU_ret, uget, umodify, uemit.
  rewrite Hw. cbn -[handle_all]. rewrite Hf. cbn -[handle_all]. destruct (Hcb (wi_tick i)) as [Hc He].
  pose proof (handle_all_spec a _ (ticked i) Hc He (ok_distinct _ Hok) Hl) as Hh.
  apply wp_defined in Hh as ([] & i1 & e1 & He1 & _). unfold ticked in He1. rewrite He1.
  eexists _, _. split; [done|]. cbn. by left.
Qed.

(** C39: A message that had to wait for the configuration is lost if its conversation
    has got a call in the meantime, from a message that waited before it: it is not
    delivered to the call, as it is when it arrives with a current configuration.  A
    call that was announced and cancelled while the configuration was updated rings. *)
Theorem queued_message_dropped heap e w i :
  wi_ok i → wcall_lookup i (ce_convid e) = Some w →
  econn_is_creator (Some (wi_userid i)) (Some (ce_userid e)) (Some (ce_msg e)) = false →
  (∀ n f, closes_last (wc_callbacks n f) = true ∧ Forall encodable (wc_callbacks n f)) →
  deliver_update e i = Some ((), i, [])
  ∧ ∃ i' ev, wcall_i_recv_msg heap (ce_msg e) (ce_curr_time e) (ce_msg_time e) (ce_convid e) (ce_userid e)
               (ce_clientid e) (ce_conv_type e) (ce_meeting e) i = Some ((), i', ev)
             ∧ WcCall (wc_addr w) (FnMsgRecv (ce_curr_time e) (ce_msg_time e) (ce_userid e) (ce_clientid e)
                                     (ce_msg e)) ∈ ev.
Proof.
  intros Hok Hlk Hcr Hcb. split.
  - assert (Hadd : ∀ ct, wcall_add (ce_convid e) ct (ce_meeting e) i = Some (inl EALREADY, i, [])).
    { intros ct. unfold wcall_add, mbind, MU_bind, uget. by rewrite Hlk. }
    assert (Hno : ∃ err, add_wcall (ce_msg e) (ce_convid e) (ce_userid e) (ce_conv_type e) (ce_meeting e) i
                         = Some (inl err, i, [])).
    { unfold add_wcall. unfold mbind, MU_bind, uget. cbv zeta. rewrite Hcr.
      destruct (_ && econn_message_isrequest _); [by rewrite Hadd; eexists|].
      destruct (_ && negb _); [by rewrite Hadd; eexists|].
      destruct (_ && econn_message_isrequest _); [by rewrite Hadd; eexists|].
      destruct (_ && negb _); [by rewrite Hadd; eexists|]. by eexists. }
    destruct Hno as [err Hno]. unfold deliver_update, mbind, MU_bind. by rewrite Hno.
  - unfold wcall_i_recv_msg, mbind, MU_bind, uget. cbv zeta. rewrite Hcr. cbn [andb]. rewrite Hlk.
    match goal with |- context [udone (call_icall _ ?f)] =>
      destruct (call_told (wc_addr w) f i ltac:(by intros []) (λ n, Hcb n f) Hok (lookup_live _ _ _ Hlk))
        as (i' & ev & He & Hin)
    end.
    rewrite He. exists i', ev. by split.
Qed.

(** A duration that waits for one conversation keeps the call of another one from
    being started: the search for it does not end. *)
Lemma duration_blocks_start c d convid w t ct cbr meeting i :
  wcall_lookup i c = None → wcall_lookup i convid = Some w → wi_durationl i = [] →
  wc_mem (wi_tick i) = true → wcall_is_ready i ct = true →
  (mqueue_handler (MEV_SET_DURATION c d);; mqueue_handler (MEV_START convid t ct cbr meeting)) i = None.
Proof.
  intros Hc Hw Hd Hm Hr. cbn [mqueue_handler]. unfold wcall_duration_add, udone, wnext, mbind, MU_bind, mret,
    MU_ret, uget, umodify. rewrite Hc, Hm. cbn -[handle_start]. rewrite Hd.
  unfold handle_start, start_wcall, wcall_duration_lookup, wcall_is_ready, wcall_lookup, mbind, MU_bind, uget in *.
  cbn. rewrite Hr, Hw. cbn. destruct (String.eqb c convid) eqn:He; [|done].
  apply String.eqb_eq in He as ->. congruence.
Qed.
End Fail.
