(* ===== verification/WcallEvent.v ===== *)
(** * Calls from notifications ([src/wcall/event.c])

    An application that is woken up by a notification decides with this interface
    what to tell its user, without making a call: between [wcall_event_start] and
    [wcall_event_end] it hands over the messages it received, and the end reports a
    call that came in, was missed or was closed.

    [event_calls] is [calling_event].  [None] is a loop that runs on or a [NULL]
    pointer that is followed.  The messages are decoded with [EconnFmt]; [heap] holds
    the properties of other messages.  The properties follow the definitions. *)

From S2P Require Import Prelude LibRe LibReJson Jzon EconnMsg EconnFmt Icall.

#[local] Open Scope string_scope.
#[local] Open Scope Z_scope.
#[local] Open Scope list_scope.

(** ** Data *)

Definition EVENT_AGE_VALID : Z := 60.
Definition WU_MAGIC : Z := 0x57550000.
Definition WUSER_INVALID_HANDLE : Z := 0.
Definition WCALL_ERROR_UNKNOWN_PROTOCOL : Z := 1000.
Definition EVENT_REASON_NORMAL : Z := 0.
Definition EVENT_REASON_ANSWERED_ELSEWHERE : Z := 5.
Definition EVENT_REASON_REJECTED : Z := 10.

(** [enum call_event_state] *)
Inductive call_event_state :=
| CALL_EVENT_STATE_IDLE | CALL_EVENT_STATE_INCOMING | CALL_EVENT_STATE_MISSED
| CALL_EVENT_STATE_CLOSED.

#[export] Instance call_event_state_eq_dec : EqDecision call_event_state.
Proof. solve_decision. Defined.

(** [struct call_event] *)
Record call_event := {
  ev_convid : string;
  ev_userid : string;
  ev_clientid : string;
  ev_state : call_event_state;
  ev_msg_time : Z;
  ev_conv_type : icall_conv_type;
  ev_reason : Z;
}.

(** [struct call_event_instance] *)
Record call_event_instance := {
  ei_wuser : Z;
  ei_userid : string;
  ei_clientid : string;
  ei_processing : bool;
  ei_incomingh : bool;
  ei_missedh : bool;
  ei_closeh : bool;
  ei_eventl : list call_event;
}.

(** [calling_event] *)
Record event_calls := {
  ce_wuser_index : Z;
  ce_instances : list call_event_instance;
}.

(** What the handlers of an instance are called with. *)
Inductive event_report :=
| EvIncoming (convid : string) (msg_time : Z) (userid clientid : string) (video should_ring : bool)
    (conv_type : icall_conv_type)
| EvMissed (convid : string) (msg_time : Z) (userid clientid : string) (video : bool)
| EvClosed (reason : Z) (convid : string) (msg_time : Z) (userid clientid : string).

Abbreviation EVM := (MU event_calls event_report).

(** ** Handles and instances *)

(** [wcall_create_wuser]: the handle and the next index *)
Definition wcall_create_wuser (idx : Z) : Z * Z := (u32 (WU_MAGIC + idx), Z.land (u32 (idx + 1)) 0xFFFF).

(** [wuser2evinst], and an update of the instance it finds *)
Definition wuser2evinst (s : event_calls) (wuser : Z) : option call_event_instance :=
  if negb (Z.land wuser WU_MAGIC =? WU_MAGIC) then None
  else List.find (λ i, ei_wuser i =? wuser) (ce_instances s).
Fixpoint update_first {A} (p : A → bool) (f : A → A) (l : list A) : list A :=
  match l with
  | [] => []
  | x :: l => if p x then f x :: l else x :: update_first p f l
  end.
Definition set_evinst (wuser : Z) (f : call_event_instance → call_event_instance) : EVM () :=
  umodify (λ s, {| s with ce_instances := update_first (λ i, ei_wuser i =? wuser) f (ce_instances s) |}).

(** The search of [wcall_event_create], which stays at the first instance; [fuel]
    rounds. *)
Fixpoint search_instance (fuel : nat) (userid clientid : string) (le : list call_event_instance)
    : option (option call_event_instance) :=
  match le with
  | [] => Some None
  | i :: _ =>
    if bool_decide (ei_userid i = userid) && bool_decide (ei_clientid i = clientid) then Some (Some i)
    else match fuel with O => None | S fuel => search_instance fuel userid clientid le end
  end.

(** [wcall_event_create]; [mem] tells whether the allocation succeeds. *)
Definition wcall_event_create (fuel : nat) (mem : bool) (userid clientid : option string)
    (incomingh missedh closeh : bool) : EVM Z :=
  match userid, clientid with
  | Some userid, Some clientid =>
    s ← uget;
    found ← of_ptr (search_instance fuel userid clientid (ce_instances s));
    match found with
    | Some i => mret (ei_wuser i)
    | None =>
      if negb mem then mret WUSER_INVALID_HANDLE
      else
        let '(wuser, idx) := wcall_create_wuser (ce_wuser_index s) in
        umodify (λ s, {| ce_wuser_index := idx;
          ce_instances := ce_instances s ++
            [{| ei_wuser := wuser; ei_userid := userid; ei_clientid := clientid; ei_processing := false;
                ei_incomingh := incomingh; ei_missedh := missedh; ei_closeh := closeh;
                ei_eventl := [] |}] |});;
        mret wuser
    end
  | _, _ => mret WUSER_INVALID_HANDLE
  end.

(** ** The queue *)

(** [queue_event]; [mem] tells whether the allocations, of the event and of the copies
    of its strings, succeed. *)
Definition queue_event (mem : bool) (ev : call_event) (i : call_event_instance) : call_event_instance :=
  if mem then {| i with ei_eventl := ei_eventl i ++ [ev] |} else i.

(** The test of [queue_find] without a user and a client, as it is called. *)
Definition event_is (convid : string) (state : call_event_state) (ev : call_event) : bool :=
  bool_decide (ev_state ev = state) && bool_decide (ev_convid ev = convid).

(** [queue_find]: the index of the event.  The body and the header of the loop both
    go on to the next event. *)
Fixpoint queue_find_from (p : call_event → bool) (n : nat) (l : list call_event) : option (option nat) :=
  match l with
  | [] => Some None
  | ev :: l =>
    if p ev then Some (Some n)
    else match l with [] => None | _ :: l => queue_find_from p (S (S n)) l end
  end.
Definition queue_find (convid : string) (state : call_event_state) (i : call_event_instance)
    : option (option nat) :=
  queue_find_from (event_is convid state) 0 (ei_eventl i).

(** ** Operations *)

(** [wcall_event_start] *)
Definition wcall_event_start (wuser : Z) : EVM () :=
  s ← uget;
  match wuser2evinst s wuser with
  | None => mret ()
  | Some _ => set_evinst wuser (λ i, {| i with ei_processing := true |})
  end.

(** The arguments of [wcall_event_process]. *)
Record event_msg := {
  em_buf : option string;
  em_curr_time : Z;
  em_msg_time : Z;
  em_convid : option string;
  em_userid : option string;
  em_clientid : option string;
  em_conv_type : icall_conv_type;
  em_mem : bool;
}.

Section Process.
Context `{LibRe, LibReJson}.

(** The message is that of the instance itself. *)
Definition from_self (i : call_event_instance) (userid clientid : string) : bool :=
  bool_decide (ei_userid i = userid) && bool_decide (ei_clientid i = clientid).

(** The [switch] of [wcall_event_process]: an error, or the instance after it. *)
Definition process_message (m : event_msg) (convid userid clientid : string) (msg : econn_message)
    (i : call_event_instance) : option (Z + call_event_instance) :=
  let queue state reason :=
    queue_event (em_mem m)
      {| ev_convid := convid; ev_userid := userid; ev_clientid := clientid; ev_state := state;
         ev_msg_time := msg_time msg; ev_conv_type := em_conv_type m; ev_reason := reason |} i in
  match msg_type msg with
  | ECONN_SETUP | ECONN_GROUP_START | ECONN_CONF_START =>
    if EVENT_AGE_VALID <? msg_age msg then Some (inl ETIMEDOUT)
    else if econn_message_isrequest msg
    then Some (inr (queue CALL_EVENT_STATE_INCOMING EVENT_REASON_NORMAL))
    else if from_self i userid clientid
    then Some (inr (queue CALL_EVENT_STATE_CLOSED EVENT_REASON_ANSWERED_ELSEWHERE))
    else Some (inr i)
  | ECONN_CONF_END =>
    if negb (econn_message_isrequest msg) then Some (inr i)
    else
      found ← queue_find convid CALL_EVENT_STATE_INCOMING i;
      Some (inr
        match found with
        | Some n =>
          {| i with ei_eventl := alter (λ ev, {| ev with ev_state := CALL_EVENT_STATE_MISSED;
                                                       ev_reason := EVENT_REASON_NORMAL |})
                                       n (ei_eventl i) |}
        | None => queue CALL_EVENT_STATE_CLOSED EVENT_REASON_NORMAL
        end)
  | ECONN_REJECT =>
    if from_self i userid clientid
    then Some (inr (queue CALL_EVENT_STATE_CLOSED EVENT_REASON_REJECTED))
    else Some (inr i)
  | _ => Some (inr i)
  end.

(** [wcall_event_process] *)
Definition wcall_event_process (heap : props_heap) (wuser : Z) (m : event_msg) : EVM Z :=
  match em_buf m, em_convid m, em_userid m, em_clientid m with
  | Some buf, Some convid, Some userid, Some clientid =>
    if String.eqb buf "" then mret EINVAL
    else
      s ← uget;
      match wuser2evinst s wuser with
      | None => mret ENOENT
      | Some i =>
        if negb (ei_processing i) then mret EAGAIN
        else
          match econn_message_decode heap (em_curr_time m) (em_msg_time m) (Some buf) with
          | inl err => mret (if err =? EPROTONOSUPPORT then WCALL_ERROR_UNKNOWN_PROTOCOL else err)
          | inr DecodedBlank => mret 0
          | inr (Decoded msg _) =>
            r ← of_ptr (process_message m convid userid clientid msg i);
            match r with
            | inl err => mret err
            | inr i' => set_evinst wuser (λ _, i');; mret 0
            end
          end
      end
  | _, _, _, _ => mret EINVAL
  end.

End Process.

(** What [wcall_event_end] reports of an event. *)
Definition report_event (i : call_event_instance) (ev : call_event) : list event_report :=
  match ev_state ev with
  | CALL_EVENT_STATE_INCOMING =>
    if ei_incomingh i
    then [EvIncoming (ev_convid ev) (ev_msg_time ev) (ev_userid ev) (ev_clientid ev) false true
            (ev_conv_type ev)]
    else []
  | CALL_EVENT_STATE_MISSED =>
    if ei_missedh i
    then [EvMissed (ev_convid ev) (ev_msg_time ev) (ev_userid ev) (ev_clientid ev) false] else []
  | CALL_EVENT_STATE_CLOSED =>
    if ei_closeh i
    then [EvClosed (ev_reason ev) (ev_convid ev) (ev_msg_time ev) (ev_userid ev) (ev_clientid ev)]
    else []
  | CALL_EVENT_STATE_IDLE => []
  end.

(** [wcall_event_end]: the events are reported and removed from the front. *)
Fixpoint end_loop (wuser : Z) (l : list call_event) : EVM () :=
  match l with
  | [] => mret ()
  | ev :: l =>
    s ← uget;
    i ← of_ptr (wuser2evinst s wuser);
    uemit (report_event i ev);;
    set_evinst wuser (λ i, {| i with ei_eventl := tail (ei_eventl i) |});;
    end_loop wuser l
  end.
Definition wcall_event_end (wuser : Z) : EVM () :=
  s ← uget;
  match wuser2evinst s wuser with
  | None => mret ()
  | Some i =>
    if negb (ei_processing i) then mret ()
    else
      end_loop wuser (ei_eventl i);;
      set_evinst wuser (λ i, {| i with ei_processing := false |})
  end.

(** ** Properties of the calls from notifications

    A batch of messages reports what each of them means, in the order of arrival, as
    long as the search for the call a conference message ends can see it; the search
    is characterised.  [effect] is what a message is to do to the queue. *)

(** ** The search *)

(** The search sees the events at even positions, and leaves the list when it is
    odd. *)
Lemma queue_find_spec p l : ∀ n,
  match queue_find_from p n l with
  | Some (Some k) => ∃ j, k = (n + 2 * j)%nat ∧ (∃ ev, l !! (2 * j)%nat = Some ev ∧ p ev = true)
                          ∧ ∀ j', (j' < j)%nat → ∀ ev, l !! (2 * j')%nat = Some ev → p ev = false
  | Some None => Nat.Even (length l) ∧ ∀ j ev, l !! (2 * j)%nat = Some ev → p ev = false
  | None => Nat.Odd (length l) ∧ ∀ j ev, l !! (2 * j)%nat = Some ev → p ev = false
  end.
Proof.
  induction l as [l IH] using (induction_ltof1 _ (@length call_event)). intros n.
  destruct l as [|ev [|ev' l]]; cbn [queue_find_from].
  - split; [by exists 0%nat|by intros [|j]].
  - destruct (p ev) eqn:Hp.
    + exists 0%nat. split; [lia|]. split; [by exists ev|lia].
    + split; [by exists 0%nat|]. intros [|j] ev0; cbn; [by intros [= <-]|].
      by replace (j + S (j + 0))%nat with (S (2 * j)) by lia.
  - destruct (p ev) eqn:Hp.
    + exists 0%nat. split; [lia|]. split; [by exists ev|lia].
    + assert (Hall : ∀ (P : nat → Prop) j, P 0%nat → (∀ j', j = S j' → P (S j')) → P j)
        by (intros P [|j]; auto).
      assert (Hpos : ∀ j, (ev :: ev' :: l) !! (2 * S j)%nat = l !! (2 * j)%nat)
        by (intros j; by replace (2 * S j)%nat with (S (S (2 * j))) by lia).
      specialize (IH l ltac:(unfold ltof; cbn; lia) (S (S n))).
      destruct (queue_find_from p (S (S n)) l) as [[k|]|].
      * destruct IH as (j & -> & Hj & Hno). exists (S j). split; [lia|]. rewrite Hpos. split; [done|].
        intros [|j'] Hj' ev0; [by intros [= <-]|]. rewrite Hpos. apply Hno. lia.
      * destruct IH as [[m Hm] Hno]. split; [exists (S m); cbn; lia|].
        intros [|j] ev0; [by intros [= <-]|]. rewrite Hpos. apply Hno.
      * destruct IH as [[m Hm] Hno]. split; [exists (S m); cbn; lia|].
        intros [|j] ev0; [by intros [= <-]|]. rewrite Hpos. apply Hno.
Qed.

(** The first event that is looked for is at an even position, or there is none and
    the number of events is even. *)
Definition visible (p : call_event → bool) (l : list call_event) : Prop :=
  match list_find (λ ev, p ev = true) l with
  | Some (n, _) => Nat.Even n
  | None => Nat.Even (length l)
  end.

Lemma visible_found p l :
  visible p l → queue_find_from p 0 l = Some (fst <$> list_find (λ ev, p ev = true) l).
Proof.
  unfold visible. pose proof (queue_find_spec p l 0) as Hs. intros Hv.
  destruct (list_find _ l) as [[n ev]|] eqn:Hf; cbn.
  - apply list_find_Some in Hf as (Hn & Hp & Hmin). destruct Hv as [m ->].
    destruct (queue_find_from p 0 l) as [[k|]|].
    + destruct Hs as (j & -> & (ev' & Hev' & Hp') & Hno). cbn in *. do 2 f_equal.
      destruct (decide (j = m)) as [->|]; [done|].
      destruct (decide (m < j)%nat).
      * pose proof (Hno m ltac:(lia) ev Hn). congruence.
      * exfalso. apply (Hmin (2 * j)%nat ev' Hev'); [lia|done].
    + destruct Hs as [_ Hs]. pose proof (Hs m ev Hn). congruence.
    + destruct Hs as [_ Hs]. pose proof (Hs m ev Hn). congruence.
  - assert (Hno : ∀ n ev, l !! n = Some ev → p ev ≠ true).
    { intros n ev Hn. rewrite list_find_None, Forall_lookup in Hf. eauto. }
    destruct (queue_find_from p 0 l) as [[k|]|]; [|done|].
    + destruct Hs as (j & _ & (ev & Hev & Hp) & _). by destruct (Hno _ _ Hev).
    + destruct Hs as [Ho _]. destruct (Nat.Even_Odd_False _ Hv Ho).
Qed.

(** ** Instances *)

Lemma evinst_set wuser f s i :
  wuser2evinst s wuser = Some i → (∀ i, ei_wuser i = wuser → ei_wuser (f i) = wuser) →
  ∃ s', set_evinst wuser f s = Some ((), s', []) ∧ wuser2evinst s' wuser = Some (f i)
        ∧ ce_wuser_index s' = ce_wuser_index s.
Proof.
  intros Hi Hf. eexists. split; [done|]. split; [|done]. unfold wuser2evinst in *. cbn.
  destruct (negb _); [done|]. induction (ce_instances s) as [|x l IH]; [done|]. cbn in *.
  destruct (ei_wuser x =? wuser) eqn:Hx; cbn.
  - apply Z.eqb_eq in Hx. simplify_eq. by rewrite (proj2 (Z.eqb_eq _ _) (Hf _ eq_refl)).
  - rewrite Hx. auto.
Qed.

Lemma evinst_wuser s wuser i : wuser2evinst s wuser = Some i → ei_wuser i = wuser.
Proof.
  unfold wuser2evinst. destruct (negb _); [done|]. intros [_ Hi]%find_some. by apply Z.eqb_eq.
Qed.

(** ** A batch of messages *)

Section Batch.
Context `{LibRe, LibReJson}.

(** What a message is to do to the queue of an instance: a call that comes in, was
    answered or rejected by this client or has ended is queued, but the end of a call
    that is queued makes it a missed one. *)
Definition effect (heap : props_heap) (i : call_event_instance) (l : list call_event) (m : event_msg)
    : list call_event :=
  match econn_message_decode heap (em_curr_time m) (em_msg_time m) (em_buf m) with
  | inr (Decoded msg _) =>
    let convid := default "" (em_convid m) in
    let userid := default "" (em_userid m) in
    let clientid := default "" (em_clientid m) in
    let queue state reason :=
      l ++ [{| ev_convid := convid; ev_userid := userid; ev_clientid := clientid; ev_state := state;
               ev_msg_time := msg_time msg; ev_conv_type := em_conv_type m; ev_reason := reason |}] in
    match msg_type msg with
    | ECONN_SETUP | ECONN_GROUP_START | ECONN_CONF_START =>
      if EVENT_AGE_VALID <? msg_age msg then l
      else if negb (resp msg) then queue CALL_EVENT_STATE_INCOMING EVENT_REASON_NORMAL
      else if from_self i userid clientid
      then queue CALL_EVENT_STATE_CLOSED EVENT_REASON_ANSWERED_ELSEWHERE else l
    | ECONN_CONF_END =>
      if resp msg then l
      else match list_find (λ ev, event_is convid CALL_EVENT_STATE_INCOMING ev = true) l with
           | Some (n, ev) =>
             <[n := {| ev with ev_state := CALL_EVENT_STATE_MISSED; ev_reason := EVENT_REASON_NORMAL |}]> l
           | None => queue CALL_EVENT_STATE_CLOSED EVENT_REASON_NORMAL
           end
    | ECONN_REJECT =>
      if from_self i userid clientid then queue CALL_EVENT_STATE_CLOSED EVENT_REASON_REJECTED else l
    | _ => l
    end
  | _ => l
  end.

(** The message ends a conference. *)
Definition ends (heap : props_heap) (m : event_msg) : bool :=
  match econn_message_decode heap (em_curr_time m) (em_msg_time m) (em_buf m) with
  | inr (Decoded msg _) => bool_decide (msg_type msg = ECONN_CONF_END) && negb (resp msg)
  | _ => false
  end.

(** The arguments are there, and there is memory. *)
Definition complete (m : event_msg) : Prop :=
  is_Some (em_buf m) ∧ em_buf m ≠ Some "" ∧ is_Some (em_convid m) ∧ is_Some (em_userid m)
  ∧ is_Some (em_clientid m) ∧ em_mem m = true.

(** Every call that is ended is visible. *)
Fixpoint all_visible (heap : props_heap) (i : call_event_instance) (l : list call_event)
    (ms : list event_msg) : Prop :=
  match ms with
  | [] => True
  | m :: ms =>
    (ends heap m = true → visible (event_is (default "" (em_convid m)) CALL_EVENT_STATE_INCOMING) l)
    ∧ all_visible heap i (effect heap i l m) ms
  end.

Fixpoint process_all (heap : props_heap) (wuser : Z) (ms : list event_msg) : EVM () :=
  match ms with
  | [] => mret ()
  | m :: ms => udone (wcall_event_process heap wuser m);; process_all heap wuser ms
  end.

(** An instance that processes events, with the events [l]. *)
Definition working (i : call_event_instance) (l : list call_event) : call_event_instance :=
  {| i with ei_processing := true; ei_eventl := l |}.
Definition idle (i : call_event_instance) : call_event_instance :=
  {| i with ei_processing := false; ei_eventl := [] |}.

Lemma process_message_effect heap m i l convid userid clientid msg h' :
  em_mem m = true → em_convid m = Some convid → em_userid m = Some userid →
  em_clientid m = Some clientid →
  econn_message_decode heap (em_curr_time m) (em_msg_time m) (em_buf m) = inr (Decoded msg h') →
  (ends heap m = true → visible (event_is convid CALL_EVENT_STATE_INCOMING) l) →
  (process_message m convid userid clientid msg (working i l)
     = Some (inr (working i (effect heap i l m))))
  ∨ (process_message m convid userid clientid msg (working i l) = Some (inl ETIMEDOUT)
     ∧ effect heap i l m = l).
Proof.
  intros Hmem Hc Hu Hcl Hd Hv. unfold effect, ends in *. rewrite Hd, ?Hc, ?Hu, ?Hcl in *.
  unfold process_message, queue_event, econn_message_isrequest, from_self. rewrite Hmem. cbn -[visible] in *.
  destruct (msg_type msg) eqn:Ht;
    try (destruct (EVENT_AGE_VALID <? msg_age msg); [by right|]); left;
    try (by repeat case_match).
  destruct (resp msg); [done|]. cbn. unfold queue_find. cbn [ei_eventl working].
  rewrite visible_found by (apply Hv; by rewrite bool_decide_true).
  destruct (list_find _ l) as [[n ev]|] eqn:Hf; cbn; [|done].
  apply list_find_Some in Hf as (Hn & _ & _). unfold working. do 3 f_equal.
  revert n Hn. clear. induction l as [|x l IH]; intros [|n] Hn; simplify_eq/=; [done|]. f_equal. auto.
Qed.

Lemma process_step heap wuser m s i l :
  complete m →
  (ends heap m = true → visible (event_is (default "" (em_convid m)) CALL_EVENT_STATE_INCOMING) l) →
  wuser2evinst s wuser = Some (working i l) →
  ∃ err s', wcall_event_process heap wuser m s = Some (err, s', [])
            ∧ wuser2evinst s' wuser = Some (working i (effect heap i l m)).
Proof.
  intros ([buf Hb] & Hne & [convid Hc] & [userid Hu] & [clientid Hcl] & Hmem) Hv Hi.
  assert (Hkeep : ∀ (err : Z), effect heap i l m = l →
    ∃ err' s', (mret err : EVM Z) s = Some (err', s', [])
               ∧ wuser2evinst s' wuser = Some (working i (effect heap i l m)))
    by (intros err ->; by exists err, s).
  unfold wcall_event_process. rewrite Hb, Hc, Hu, Hcl in *. cbn [default] in Hv.
  rewrite (proj2 (String.eqb_neq buf "")) by congruence.
  unfold mbind at 1, MU_bind, uget. rewrite Hi. cbn [ei_processing working negb].
  rewrite <- Hb. destruct (econn_message_decode heap _ _ _) as [err|[msg h'|]] eqn:Hd.
  - unfold effect in *. rewrite Hd in *. by eexists _, s.
  - destruct (process_message_effect heap m i l convid userid clientid msg h' Hmem Hc Hu Hcl Hd Hv)
      as [Hp|[Hp He]]; rewrite Hp; cbn -[set_evinst wuser2evinst effect working].
    + destruct (evinst_set wuser (λ _, working i (effect heap i l m)) s _ Hi) as (s' & Hs' & Hi' & _).
      * intros _ _. apply (evinst_wuser _ _ _ Hi).
      * unfold mbind, MU_bind, mret, MU_ret. rewrite Hs'. by eexists _, s'.
    + rewrite He. by eexists _, s.
  - unfold effect in *. rewrite Hd in *. by eexists _, s.
Qed.

Lemma process_all_effect heap wuser ms : ∀ s i l,
  Forall complete ms → all_visible heap i l ms → wuser2evinst s wuser = Some (working i l) →
  ∃ s', process_all heap wuser ms s = Some ((), s', [])
        ∧ wuser2evinst s' wuser = Some (working i (fold_left (effect heap i) ms l)).
Proof.
  induction ms as [|m ms IH]; intros s i l Hc Hv Hi; [by exists s|].
  inversion_clear Hc as [|? ? Hm Hms]. destruct Hv as [Hv Hvs].
  destruct (process_step heap wuser m s i l Hm Hv Hi) as (err & s1 & He & Hi1).
  destruct (IH s1 i _ Hms Hvs Hi1) as (s2 & He2 & Hi2). exists s2. split; [|done].
  cbn. unfold udone, mbind, MU_bind. rewrite He. cbn. by rewrite He2.
Qed.

Lemma end_loop_reports wuser i l : ∀ s,
  wuser2evinst s wuser = Some (working i l) →
  ∃ s', end_loop wuser l s = Some ((), s', flat_map (report_event i) l)
        ∧ wuser2evinst s' wuser = Some (working i []).
Proof.
  induction l as [|ev l IH]; intros s Hi; [by exists s|]. cbn [end_loop].
  unfold mbind, MU_bind, uget, of_ptr. rewrite Hi. cbn -[set_evinst wuser2evinst flat_map working].
  destruct (evinst_set wuser (λ i, {| i with ei_eventl := tail (ei_eventl i) |}) s _ Hi)
    as (s1 & Hs1 & Hi1 & _); [done|].
  rewrite Hs1. destruct (IH s1 Hi1) as (s2 & Hs2 & Hi2). rewrite Hs2. cbn.
  by exists s2.
Qed.

(** C6: A batch of messages between [wcall_event_start] and [wcall_event_end] is
    handled to the end: the reports are those of the queue the messages are to make
    ([effect], in the order of arrival), with the instance's handlers, and the
    instance is left idle with an empty queue; for complete messages whose ended
    conferences the search can see. *)
Theorem event_batch_reported heap wuser s i ms :
  wuser2evinst s wuser = Some i →
  Forall complete ms →
  all_visible heap i (ei_eventl i) ms →
  ∃ s', (wcall_event_start wuser;; process_all heap wuser ms;; wcall_event_end wuser) s
        = Some ((), s', flat_map (report_event i) (fold_left (effect heap i) ms (ei_eventl i)))
        ∧ wuser2evinst s' wuser = Some (idle i).
Proof.
  intros Hi Hc Hv. unfold wcall_event_start, wcall_event_end. unfold mbind at 1, MU_bind at 1.
  unfold mbind at 1, MU_bind at 1, uget at 1. rewrite Hi.
  destruct (evinst_set wuser (λ i, {| i with ei_processing := true |}) s _ Hi) as (s1 & -> & Hi1 & _); [done|].
  destruct (process_all_effect heap wuser ms s1 i _ Hc Hv ltac:(by rewrite Hi1)) as (s2 & Hs2 & Hi2).
  unfold mbind, MU_bind, uget. rewrite Hs2. rewrite Hi2. cbn [ei_processing ei_eventl working negb].
  destruct (end_loop_reports wuser i _ s2 Hi2) as (s3 & Hs3 & Hi3). rewrite Hs3.
  destruct (evinst_set wuser (λ i, {| i with ei_processing := false |}) s3 _ Hi3)
    as (s4 & Hs4 & Hi4 & _); [done|].
  rewrite Hs4. cbn. rewrite !app_nil_r. by exists s4.
Qed.

(** C40: The end of a conference makes the library follow a [NULL] pointer when an odd
    number of events are queued and the call is not among those at even positions,
    for instance when one other event is queued. *)
Theorem conference_end_undefined heap wuser s i m msg h' convid :
  wuser2evinst s wuser = Some i → ei_processing i = true → complete m → em_convid m = Some convid →
  econn_message_decode heap (em_curr_time m) (em_msg_time m) (em_buf m) = inr (Decoded msg h') →
  msg_type msg = ECONN_CONF_END → resp msg = false →
  Nat.Odd (length (ei_eventl i)) →
  (∀ j ev, ei_eventl i !! (2 * j)%nat = Some ev → event_is convid CALL_EVENT_STATE_INCOMING ev = false) →
  wcall_event_process heap wuser m s = None.
Proof.
  intros Hi Hp ([buf Hb] & Hne & _ & [userid Hu] & [clientid Hcl] & _) Hc Hd Ht Hr Hodd Hno.
  unfold wcall_event_process. rewrite Hb, Hc, Hu, Hcl, (proj2 (String.eqb_neq buf "")) by congruence.
  unfold mbind, MU_bind, uget. rewrite Hi, Hp. cbn [negb]. rewrite <- Hb, Hd.
  unfold process_message, econn_message_isrequest, queue_find. rewrite Ht, Hr. cbn [negb].
  pose proof (queue_find_spec (event_is convid CALL_EVENT_STATE_INCOMING) (ei_eventl i) 0) as Hs.
  destruct (queue_find_from _ _ _) as [[k|]|]; [| |done].
  - destruct Hs as (j & _ & (ev & Hev & He) & _). specialize (Hno _ _ Hev). congruence.
  - destruct Hs as [He _]. destruct (Nat.Even_Odd_False _ He Hodd).
Qed.

(** [wcall_event_create] for a user or a client other than that of the first
    instance runs for ever, so there is never a second instance. *)
Theorem second_instance_never_created fuel mem userid clientid h1 h2 h3 s i l :
  ce_instances s = i :: l → (ei_userid i, ei_clientid i) ≠ (userid, clientid) →
  wcall_event_create fuel mem (Some userid) (Some clientid) h1 h2 h3 s = None.
Proof.
  intros Hs Hne. unfold wcall_event_create, mbind, MU_bind, uget. rewrite Hs.
  assert (search_instance fuel userid clientid (i :: l) = None) as ->; [|done].
  assert (Hno : bool_decide (ei_userid i = userid) && bool_decide (ei_clientid i = clientid) = false).
  { apply not_true_iff_false. rewrite andb_true_iff, !bool_decide_eq_true. intros [<- <-]. by apply Hne. }
  induction fuel as [|fuel IH]; cbn; by rewrite Hno.
Qed.
End Batch.
