(* ===== verification/WcallWitness.v ===== *)
(** * Instances and notifications on concrete inputs *)

From stdpp Require Import gmap.
From S2P Require Import Prelude LibRe LibReJson Jzon EconnMsg EconnFmt EconnFmtSpec Econn ConfPos Dict Icall AudioLevel UserList Ecall EcallMsg Egcall EgcallWitness Config Wcall WcallOps WcallSafe WcallInv WcallProps WcallEvent.

Import LibReRef LibReJsonRef.

#[local] Open Scope string_scope.
#[local] Open Scope Z_scope.
#[local] Open Scope list_scope.

Definition ev_message (t : econn_msg) (resp : bool) (u : econn_payload) : econn_message := {|
  msg_type := t; sessid_sender := "3F2A"; src_userid := "alice"; src_clientid := "c1";
  dest_userid := ""; dest_clientid := ""; resp := resp; transient := true;
  msg_time := 0; msg_age := 0; msg_u := u |}.
Definition ev_text (m : econn_message) : option string :=
  match econn_message_encode ∅ m with Some (inr text) => Some text | _ => None end.

Definition conf_start_text : option string :=
  ev_text (ev_message ECONN_CONF_START false (u_confstart {|
    cs_props := None; cs_sft_url := Some "https://sft1/"; cs_sft_tuple := None;
    cs_secret := [1; 2]; cs_timestamp := 7; cs_seqno := 1; cs_sftl := [] |})).
Definition conf_end_text : option string := ev_text (ev_message ECONN_CONF_END false u_zero).

Definition notification (text : option string) (convid : string) : event_msg := {|
  em_buf := text; em_curr_time := 100; em_msg_time := 90; em_convid := Some convid;
  em_userid := Some "alice"; em_clientid := Some "c1"; em_conv_type := ICALL_CONV_TYPE_CONFERENCE;
  em_mem := true |}.

Definition text_set (text : option string) : bool :=
  match text with Some t => negb (String.eqb t "") | None => false end.
Lemma notification_complete text convid : text_set text = true → complete (notification text convid).
Proof. destruct text as [[|a t]|]; [done| |done]. intros _. repeat split; cbn; by eauto. Qed.
Lemma conf_start_set : text_set conf_start_text = true.
Proof. vm_compute. reflexivity. Qed.
Lemma conf_end_set : text_set conf_end_text = true.
Proof. vm_compute. reflexivity. Qed.

Definition bob_instance : call_event_instance := {|
  ei_wuser := WU_MAGIC; ei_userid := "bob"; ei_clientid := "b1"; ei_processing := false;
  ei_incomingh := true; ei_missedh := true; ei_closeh := true; ei_eventl := [] |}.
Definition bob_events : event_calls := {| ce_wuser_index := 1; ce_instances := [bob_instance] |}.

(** A conference that starts and ends, then one that starts: a missed and an incoming
    call. *)
Definition bob_batch : list event_msg :=
  [notification conf_start_text "conv"; notification conf_end_text "conv";
   notification conf_start_text "work"].

Example bob_reports :
  flat_map (report_event bob_instance) (fold_left (effect ∅ bob_instance) bob_batch [])
  = [EvMissed "conv" 90 "alice" "c1" false;
     EvIncoming "work" 90 "alice" "c1" false true ICALL_CONV_TYPE_CONFERENCE].
Proof. vm_compute. reflexivity. Qed.

Lemma event_batch_reported_witness :
  ∃ s', (wcall_event_start WU_MAGIC;; process_all ∅ WU_MAGIC bob_batch;; wcall_event_end WU_MAGIC) bob_events
        = Some ((), s', flat_map (report_event bob_instance)
                          (fold_left (effect ∅ bob_instance) bob_batch (ei_eventl bob_instance)))
        ∧ wuser2evinst s' WU_MAGIC = Some (idle bob_instance).
Proof.
  apply event_batch_reported; [done|..].
  - repeat apply List.Forall_cons; try apply List.Forall_nil;
      apply notification_complete; first [apply conf_start_set|apply conf_end_set].
  - unfold bob_batch. cbn [all_visible]. split; [|split; [|split; [|exact I]]].
    + intros Hf. exfalso. revert Hf. by vm_compute.
    + intros _. vm_compute. exists 0%nat. reflexivity.
    + intros Hf. exfalso. revert Hf. by vm_compute.
Defined.

(** One call of another conversation is queued. *)
Definition busy_instance : call_event_instance := {|
  ei_wuser := WU_MAGIC; ei_userid := "bob"; ei_clientid := "b1"; ei_processing := true;
  ei_incomingh := true; ei_missedh := true; ei_closeh := true;
  ei_eventl := [{| ev_convid := "work"; ev_userid := "alice"; ev_clientid := "c1";
                   ev_state := CALL_EVENT_STATE_INCOMING; ev_msg_time := 90;
                   ev_conv_type := ICALL_CONV_TYPE_CONFERENCE; ev_reason := 0 |}] |}.
Definition busy_events : event_calls := {| ce_wuser_index := 1; ce_instances := [busy_instance] |}.

Lemma conference_end_undefined_witness :
  wcall_event_process ∅ WU_MAGIC (notification conf_end_text "conv") busy_events = None.
Proof.
  eapply (conference_end_undefined ∅ WU_MAGIC busy_events busy_instance); [done|done| |done|..].
  - apply notification_complete, conf_end_set.
  - vm_compute. reflexivity.
  - reflexivity.
  - reflexivity.
  - by exists 0%nat.
  - intros [|j] ev; cbn; [by intros [= <-]|]. by destruct j.
Defined.

Lemma second_instance_never_created_witness :
  wcall_event_create 1000 true (Some "bob") (Some "b2") true true true bob_events = None.
Proof. by apply (second_instance_never_created 1000 true "bob" "b2" true true true bob_events bob_instance []). Defined.

(** ** Concrete instances

    Alice's instance with calls, on the concrete libre of [LibReRef] and
    [LibReJsonRef], and the theorems about instances applied to it. *)

(** Call objects that work; [f] tells when they close the call. *)
Definition wc_env (f : icall_fn → bool) : WcEnv := {|
  wc_mem := λ _, true;
  wc_alloc := λ _, 0;
  wc_ret := λ _, 0;
  wc_members := λ _, inl 0;
  wc_callbacks := λ _ g, if f g then [OnClose 0 None 0 None None] else [];
  wc_others := λ _, false;
  wc_normal := λ _, 1;
  wc_levels := λ _, 0;
  wc_metrics_ok := λ _, true;
  wc_request := λ _, 0;
  wc_now := λ _, 1000;
|}.
Definition calm_env : WcEnv := wc_env (λ _, false).
Definition closing_env : WcEnv := wc_env is_end.

#[local] Instance closing_env_ok : WcEnvOk (H1 := closing_env).
Proof. split; intros n f; cbn; destruct f; by repeat constructor. Qed.

Definition alice_cfg : config := {|
  cg_updh := true; cg_reqh := true; cg_tmr := None; cg_expires_ts := 5000; cg_is_updating := false;
  cg_config := {| sc_iceserver := no_servers; sc_sftserver := no_servers; sc_sftservers_all := no_servers;
                  sc_sfticeserver := no_servers; sc_is_federating := false |};
  cg_updl := [] |}.
Definition alice_inst : calling_instance := {|
  wi_h := λ _, true; wi_mm := false; wi_userid := "alice"; wi_clientid := "a1"; wi_timeout_setup := 60000;
  wi_call_config := true; wi_cfg := alice_cfg; wi_wcalls := []; wi_ctxl := []; wi_tmr_roam := false;
  wi_interval := 0; wi_media_laddr := false; wi_processing := false; wi_pending := []; wi_durationl := [];
  wi_config_updatel := []; wi_ready_pendingl := []; wi_tick := 0; wi_naddr := 0 |}.

Definition after_ops (EN : WcEnv) (os : list wc_op) (i : calling_instance) : calling_instance :=
  fold_left (λ i o, match wcall_exec (H1 := EN) o i with Some (_, i', _) => i' | None => i end) os i.
Definition starts (convid : string) (ct : icall_conv_type) : wc_op :=
  OpEvent (MEV_START convid WCALL_CALL_TYPE_NORMAL ct false false).

(** Alice calls a group and Bob. *)
Definition two_calls : calling_instance :=
  after_ops calm_env [starts "group" ICALL_CONV_TYPE_GROUP; starts "bob" ICALL_CONV_TYPE_ONEONONE] alice_inst.

Example two_calls_made :
  (λ w, (wc_addr w, wc_convid w, wc_icall w)) <$> wi_wcalls two_calls
  = [(0%nat, "group", IcEgcall); (1%nat, "bob", IcEcall)].
Proof. vm_compute. reflexivity. Qed.

Lemma step_run o i i' e :
  op_pre (H1 := closing_env) i o → wcall_exec (H1 := closing_env) o i = Some ((), i', e) →
  wc_step (H1 := closing_env) i i'.
Proof. intros Hp He. by exists o, e. Qed.

Lemma two_calls_reached : rtc (wc_step (H1 := closing_env)) alice_inst two_calls.
Proof.
  eapply rtc_l; [eapply (step_run (starts "group" ICALL_CONV_TYPE_GROUP)); [by vm_compute; eauto|by vm_compute]|].
  eapply rtc_once. eapply (step_run (starts "bob" ICALL_CONV_TYPE_ONEONONE)); [by vm_compute; eauto|].
  vm_compute. reflexivity.
Qed.

(** The calls close while they are ended: ending one is undefined, rejecting it is not. *)
Lemma instance_safe_witness :
  wi_ok two_calls
  ∧ wcall_exec (H1 := closing_env) (OpEvent (MEV_END "group")) two_calls = None
  ∧ ∃ i' e, wcall_exec (H1 := closing_env) (OpEvent (MEV_REJECT "group")) two_calls = Some ((), i', e)
            ∧ wi_ok i'.
Proof.
  destruct (instance_safe (H1 := closing_env) alice_inst two_calls eq_refl two_calls_reached) as [Hok Ho].
  split; [exact Hok|]. split.
  - apply (proj1 (Ho (OpEvent (MEV_END "group")) I)). vm_compute. split; [eexists; reflexivity|reflexivity].
  - apply (proj2 (Ho (OpEvent (MEV_REJECT "group")) I)); [exact id|intros E; vm_compute in E; discriminate E].
Defined.

Lemma two_calls_ok : wi_ok two_calls.
Proof.
  split; try (apply (bool_decide_unpack _); vm_compute; exact I).
Qed.

(** The calls close while they are ended. *)
Lemma media_error_ends_every_call_witness :
  ∃ i' e, wcall_i_mcat_changed (H1 := closing_env) MEDIAMGR_STATE_ERROR two_calls = Some ((), i', e)
          ∧ wi_ok i' ∧ sublist (skel i') (skel two_calls)
          ∧ ended e = rotate (wc_addr <$> wi_wcalls two_calls) ∧ ended e ≡ₚ wc_addr <$> wi_wcalls two_calls.
Proof.
  apply (media_error_ends_every_call (H1 := closing_env)); [|done|apply two_calls_ok].
  intros n f. cbn. by destruct (is_end f); repeat constructor.
Defined.

Lemma hang_up_unjoined_undefined_witness :
  (∃ g' e, egcall_end (H1 := group_env 0) waiting_alice = Some ((), g', e)
           ∧ EgClosed 0 ECONN_MESSAGE_TIME_UNKNOWN None None ∈ e)
  ∧ wcall_i_end (H1 := closing_env) 0 two_calls = None.
Proof.
  apply (hang_up_unjoined_undefined (H1 := closing_env) (H2 := group_env 0)); try reflexivity; try done.
  - apply two_calls_ok.
  - vm_compute. left.
  - intros n. by repeat constructor.
Defined.

(** A conference, with a server that is asked before the call closes. *)
Definition sft_cfg : config :=
  {| alice_cfg with cg_config := let s := cg_config alice_cfg in
     {| s with sc_sftserver := {| sv_v := Some [{| srv_url := "https://sft1/"; srv_username := "";
                                                  srv_credential := "" |}];
                                 sv_c := 1 |} |} |}.
Definition conference : calling_instance :=
  after_ops calm_env [starts "conf" ICALL_CONV_TYPE_CONFERENCE] {| alice_inst with wi_cfg := sft_cfg |}.
Definition conf_end_msg : econn_message := ev_message ECONN_CONF_END false u_zero.

Lemma conference_ok : wi_ok conference.
Proof. split; try (apply (bool_decide_unpack _); vm_compute; exact I). Qed.

Lemma late_sft_response_undefined_witness :
  ∃ i' e, (handle (H1 := calm_env) 0 (OnSft ∅ "https://sft1/" conf_end_msg);;
           handle (H1 := calm_env) 0 (OnClose 0 None 0 None None)) conference = Some ((), i', e)
          ∧ WcSft (wi_naddr conference) "https://sft1/" (default "" (ev_text conf_end_msg)) ∈ e
          ∧ mqueue_handler (H1 := calm_env) (MEV_SFT_RESP 0 None (Some (wi_naddr conference))) i' = None.
Proof.
  apply (late_sft_response_undefined (H1 := calm_env)).
  - apply conference_ok.
  - vm_compute. left.
  - vm_compute. reflexivity.
  - reflexivity.
  - vm_compute. reflexivity.
  - vm_compute. constructor.
Defined.

(** Bob cancels his call, and Alice has the call. *)
Definition cancelled : config_update_entry := {|
  ce_msg := ev_message ECONN_CANCEL false u_zero; ce_curr_time := 100; ce_msg_time := 90; ce_convid := "bob";
  ce_userid := "bob"; ce_clientid := "b1"; ce_conv_type := ICALL_CONV_TYPE_ONEONONE; ce_meeting := false |}.

Lemma queued_message_dropped_witness :
  deliver_update (H1 := calm_env) cancelled two_calls = Some ((), two_calls, [])
  ∧ ∃ i' ev, wcall_i_recv_msg (H1 := calm_env) ∅ (ce_msg cancelled) (ce_curr_time cancelled)
               (ce_msg_time cancelled) (ce_convid cancelled) (ce_userid cancelled) (ce_clientid cancelled)
               (ce_conv_type cancelled) (ce_meeting cancelled) two_calls = Some ((), i', ev)
             ∧ WcCall 1 (FnMsgRecv 100 90 "bob" "b1" (ce_msg cancelled)) ∈ ev.
Proof.
  apply (queued_message_dropped (H1 := calm_env) ∅ cancelled
           {| wc_addr := 1; wc_convid := "bob"; wc_conv_type := ICALL_CONV_TYPE_ONEONONE; wc_duration := 0;
              wc_icall := IcEcall; wc_video_call := false; wc_state := WCALL_STATE_OUTGOING;
              wc_disable_audio := false; wc_refs := 1 |} two_calls).
  - apply two_calls_ok.
  - vm_compute. reflexivity.
  - vm_compute. reflexivity.
  - intros n f. by repeat constructor.
Defined.

(** ** Reports *)

Definition reports_of (o : option (() * calling_instance * list wcall_event)) : list wcall_event :=
  match o with
  | Some (_, _, e) =>
    filter (λ x, match x with WcClosed _ _ _ _ _ | WcIncoming _ | WcMissed _ _ _ _ _ => true | _ => false end = true) e
  | None => []
  end.
Definition bob_rings (time : Z) : icall_callback :=
  OnStart time "bob" "b1" false true ICALL_CONV_TYPE_ONEONONE.

(** A call that is rejected is reported as closed when it is rejected and when it
    closes, contrary to the comment in [icall_close_handler]. *)
Example rejected_call_closed_twice :
  reports_of ((handle (H1 := calm_env) 1 (bob_rings 7);; udone (wcall_i_reject (H1 := calm_env) 1);;
               handle (H1 := calm_env) 1 (OnClose 0 None 9 None None)) two_calls)
  = [WcIncoming {| ie_convid := "bob"; ie_msg_time := 7; ie_userid := "bob"; ie_clientid := "b1";
                   ie_video_call := false; ie_should_ring := true; ie_conv_type := ICALL_CONV_TYPE_ONEONONE |};
     WcClosed WCALL_REASON_REJECTED "bob" ECONN_MESSAGE_TIME_UNKNOWN "alice" (Some "a1");
     WcClosed WCALL_REASON_NORMAL "bob" 9 "alice" None].
Proof. vm_compute. reflexivity. Qed.

(** Of two notifications of a call in another conversation than the sender's own name,
    both are reported: the first one is looked for under the sender. *)
Definition group_rings (time : Z) : icall_callback :=
  OnStart time "bob" "b1" false true ICALL_CONV_TYPE_GROUP.
Example incoming_call_reported_twice :
  length (reports_of ((wcall_i_process_notifications true;;
    handle (H1 := calm_env) 0 (group_rings 7);; handle (H1 := calm_env) 0 (group_rings 8);;
    wcall_i_process_notifications false) two_calls)) = 2%nat.
Proof. vm_compute. reflexivity. Qed.

(** An announcement that is 61 seconds old is reported as missed; one that is 49 days
    and some hours old rings: its age in milliseconds wraps around. *)
Definition old_setup (age : Z) : econn_message := {|
  msg_type := ECONN_SETUP; sessid_sender := "3F2A"; src_userid := "bob"; src_clientid := "b1";
  dest_userid := ""; dest_clientid := ""; resp := false; transient := true; msg_time := 0; msg_age := age;
  msg_u := u_setup (Some "sdp") (Some 1%positive) None None |}.
Definition old_props : props_heap := {[ 1%positive := [("videosend", ODICT_STRING "false")] ]}.
Definition receives (age : Z) : list wcall_event :=
  match wcall_i_recv_msg (H1 := calm_env) old_props (old_setup age) 0 0 "bob" "bob" "b1"
          ICALL_CONV_TYPE_ONEONONE false two_calls with
  | Some (_, _, e) => e
  | None => []
  end.
Example old_setup_wraps :
  receives 61 = [WcMissed "bob" 0 "bob" "b1" false]
  ∧ receives 4294968 = [WcCall 1 (FnMsgRecv 0 0 "bob" "b1" (old_setup 4294968))].
Proof. vm_compute. done. Qed.

(** An answer with a constant bit rate does not wait for the configuration. *)
Example answer_waits_by_bit_rate :
  let i := {| two_calls with wi_call_config := false |} in
  let pending cbr := match handle_answer (H1 := calm_env) "bob" WCALL_CALL_TYPE_NORMAL cbr i with
                     | Some (_, i', _) => length (wi_ready_pendingl i') | None => 0%nat end in
  pending false = 1%nat ∧ pending true = 0%nat.
Proof. vm_compute. done. Qed.
