(* ===== verification/FrameCrypto.v ===== *)
(** * Encrypting and decrypting media frames
    ([src/frame_enc/frame_encryptor.c], [frame_decryptor.c])

    The encryptor puts a header ([FrameHdr]) in front of a frame and seals it
    with AES-256-GCM under the current media key of the key store ([Keystore]);
    the decryptor reads the header, looks the key up in its own store and opens
    the frame.

    - The cipher contexts belong to OpenSSL: [EVP] lists the calls, [EVPSpec]
      the behaviour its documentation promises for GCM.
    - [peerflow_inc_frame_count] and [peerflow_get_userid_for_ssrc] belong to
      the media engine: they are the parameters of [Peerflow].
    - The objects share the key store, so a computation runs on a [world]: the
      object and the store it points to.  A pointer to the store is a flag: set
      or [NULL].
    - An access outside a buffer is undefined behaviour ([None]). *)

From S2P Require Import Prelude LibRe FrameHdr Keystore.

Definition BLOCK_SIZE : nat := 32.
Definition TAG_SIZE : nat := 16.
Definition IV_SIZE : nat := 12.

(** [enum frame_media_type] *)
Inductive frame_media_type := FRAME_MEDIA_AUDIO | FRAME_MEDIA_VIDEO.

Definition is_video (mtype : frame_media_type) : bool :=
  match mtype with FRAME_MEDIA_VIDEO => true | FRAME_MEDIA_AUDIO => false end.

(** [frame_type_name] *)
Definition frame_type_name (mtype : frame_media_type) : string :=
  match mtype with
  | FRAME_MEDIA_AUDIO => "audio"
  | FRAME_MEDIA_VIDEO => "video"
  end.

(** The stream name the base IV is derived with. *)
Definition iv_name (mtype : frame_media_type) : string :=
  if is_video mtype then "video_iv" else "audio_iv".

(** ** Interfaces *)

(** The OpenSSL calls, with AES-256-GCM.  A call returns the context, whether
    it succeeded, and the bytes it wrote.  The input of [EVP_DecryptUpdate] is
    [None] when its length is negative. *)
Class EVP := {
  evp_ctx : Type;
  EVP_CIPHER_CTX_new : option evp_ctx;
  EVP_EncryptInit_key : evp_ctx → list Z → evp_ctx * bool;
  EVP_EncryptInit_iv : evp_ctx → list Z → evp_ctx * bool;
  EVP_EncryptUpdate_aad : evp_ctx → list Z → evp_ctx * bool;
  EVP_EncryptUpdate : evp_ctx → list Z → evp_ctx * bool * list Z;
  EVP_EncryptFinal : evp_ctx → evp_ctx * bool * list Z;
  EVP_CTRL_GCM_GET_TAG : evp_ctx → nat → evp_ctx * bool * list Z;
  EVP_DecryptInit_key : evp_ctx → list Z → evp_ctx * bool;
  EVP_DecryptInit_iv : evp_ctx → list Z → evp_ctx * bool;
  EVP_CTRL_GCM_SET_TAG : evp_ctx → list Z → evp_ctx * bool;
  EVP_DecryptUpdate_aad : evp_ctx → list Z → evp_ctx * bool;
  EVP_DecryptUpdate : evp_ctx → option (list Z) → evp_ctx * bool * list Z;
  EVP_DecryptFinal : evp_ctx → evp_ctx * bool * list Z;
}.

(** AES-256-GCM as a function: seal and open. *)
Class AEAD := {
  seal : list Z → list Z → list Z → list Z → list Z * list Z;
  open : list Z → list Z → list Z → list Z → list Z → option (list Z);
}.

(** The whole sequence of calls that encrypts one frame, and that decrypts
    one, on a context that holds its key. *)
Definition evp_encrypt `{EVP} (c : evp_ctx) (iv aad pt : list Z)
    : option (evp_ctx * list Z * list Z) :=
  let '(c, ok) := EVP_EncryptInit_iv c iv in
  if negb ok then None else
  let '(c, ok) := EVP_EncryptUpdate_aad c aad in
  if negb ok then None else
  let '(c, ok, ct) := EVP_EncryptUpdate c pt in
  if negb ok then None else
  let '(c, ok, fin) := EVP_EncryptFinal c in
  if negb ok then None else
  let '(c, ok, tag) := EVP_CTRL_GCM_GET_TAG c TAG_SIZE in
  if negb ok then None else Some (c, ct ++ fin, tag).

Definition evp_decrypt `{EVP} (c : evp_ctx) (iv aad ct tag : list Z)
    : option (evp_ctx * list Z) :=
  let '(c, ok) := EVP_DecryptInit_iv c iv in
  if negb ok then None else
  let '(c, ok) := EVP_CTRL_GCM_SET_TAG c tag in
  if negb ok then None else
  let '(c, ok) := EVP_DecryptUpdate_aad c aad in
  if negb ok then None else
  let '(c, ok, pt) := EVP_DecryptUpdate c (Some ct) in
  if negb ok then None else
  let '(c, ok, fin) := EVP_DecryptFinal c in
  if negb ok then None else Some (c, pt ++ fin).

(** What OpenSSL promises: a context keeps its key over any number of frames
    ([holds]); encrypting seals; decrypting opens; sealing and opening are
    inverse to each other; the ciphertext is as long as the plaintext and the
    tag has sixteen bytes; decrypting writes no more than it reads, and the
    final call writes nothing. *)
Class EVPSpec `{EV : EVP, AE : AEAD} (holds : evp_ctx → list Z → Prop) : Prop := {
  evp_new : is_Some EVP_CIPHER_CTX_new;
  evp_enc_key c key : holds (EVP_EncryptInit_key c key).1 key;
  evp_dec_key c key : holds (EVP_DecryptInit_key c key).1 key;
  evp_enc c key iv aad pt : holds c key →
    ∃ c', evp_encrypt c iv aad pt = Some (c', (seal key iv aad pt).1, (seal key iv aad pt).2) ∧
          holds c' key;
  evp_dec c key iv aad ct tag pt : holds c key → open key iv aad ct tag = Some pt →
    ∃ c', evp_decrypt c iv aad ct tag = Some (c', pt) ∧ holds c' key;
  evp_dec_reject c key iv aad ct tag : holds c key → open key iv aad ct tag = None →
    evp_decrypt c iv aad ct tag = None;
  evp_dec_update_len c ct : (length (EVP_DecryptUpdate c (Some ct)).2 ≤ length ct)%nat;
  evp_dec_final_len c : (EVP_DecryptFinal c).2 = [];
  open_seal key iv aad pt :
    open key iv aad (seal key iv aad pt).1 (seal key iv aad pt).2 = Some pt;
  seal_open key iv aad ct tag pt :
    open key iv aad ct tag = Some pt → seal key iv aad pt = (ct, tag);
  seal_length key iv aad pt : length (seal key iv aad pt).1 = length pt;
  seal_tag_length key iv aad pt : length (seal key iv aad pt).2 = TAG_SIZE;
}.

(** The media engine. *)
Class Peerflow := {
  (** [peerflow_inc_frame_count(pf, csrc, is_video, frames)] *)
  peerflow_inc_frame_count : Z → bool → Z → Z;
  (** [peerflow_get_userid_for_ssrc(pf, csrc, is_video, NULL, NULL, &hash)] *)
  peerflow_get_userid_for_ssrc : Z → bool → Z * option string;
}.

Inductive fc_event :=
| FcKs (e : ks_event)
| FcIncFrames (csrc : Z) (video : bool) (count : Z).

Record world (O : Type) := World { w_obj : O; w_ks : keystore }.
Arguments World {O} _ _.
Arguments w_obj {O} _.
Arguments w_ks {O} _.

Abbreviation FCM O := (MU (world O) fc_event).

Section Lift.
Context {O : Type}.

(** A call into the key store. *)
Definition on_ks {A} (m : KSM A) : FCM O A := λ w,
  match m (w_ks w) with
  | None => None
  | Some (a, ks, e) => Some (a, World (w_obj w) ks, FcKs <$> e)
  end.

Definition oget : FCM O O := w ← uget; mret (w_obj w).
Definition oset (f : O → O) : FCM O () := umodify (λ w, World (f (w_obj w)) (w_ks w)).
End Lift.

(** ** The initialisation vector *)

(** The eight bytes the counter and the key index are spread to. *)
Definition iv_bytes (frameid keyid : Z) : list Z :=
  [Z.land (Z.shiftr frameid 24) 0xFF; Z.land (Z.shiftr frameid 16) 0xFF;
   Z.land (Z.shiftr frameid 8) 0xFF; Z.land frameid 0xFF;
   Z.land (Z.shiftr keyid 24) 0xFF; Z.land (Z.shiftr keyid 16) 0xFF;
   Z.land (Z.shiftr keyid 8) 0xFF; Z.land keyid 0xFF].

(** [dstiv\[npos\] ^= fbytes\[npos\]] *)
Fixpoint xor_bytes (iv fb : list Z) : list Z :=
  match iv, fb with
  | b :: iv, f :: fb => Z.lxor b f :: xor_bytes iv fb
  | _, _ => iv
  end.

(** [frame_encryptor_xor_iv]: its parameters are [uint32_t]; [dstiv]. *)
Definition frame_encryptor_xor_iv (srciv : list Z) (frameid keyid : Z) : list Z :=
  xor_bytes srciv (iv_bytes (u32 frameid) (u32 keyid)).

(** ** The encryptor *)

Section Encryptor.
Context `{LibRe, KsEnv, EVP}.

(** [struct frame_encryptor] *)
Record frame_encryptor := {
  fe_userid_hash : string;
  fe_kidx : Z;
  fe_frameid : Z;
  fe_ctx : option evp_ctx;
  fe_keystore : bool;
  fe_iv : list Z;
  fe_mtype : frame_media_type;
  fe_frame_recv : bool;
  fe_frame_enc : bool;
  fe_updated_ts : Z;
}.

(** [frame_encryptor_alloc]: the memory is there or not, [str_dup] returns
    [dup_err], [randombytes_buf] gives [fstart]. *)
Definition frame_encryptor_alloc (mem : bool) (dup_err fstart : Z)
    (userid_hash : option string) (mtype : frame_media_type) : Z * option frame_encryptor :=
  match userid_hash with
  | None => (EINVAL, None)
  | Some userid_hash =>
    if negb mem then (ENOMEM, None)
    else if negb (dup_err =? 0) then (dup_err, None)
    else (0, Some {|
      fe_userid_hash := userid_hash; fe_kidx := 0; fe_frameid := u32 fstart;
      fe_ctx := None; fe_keystore := false; fe_iv := replicate IV_SIZE 0;
      fe_mtype := mtype; fe_frame_recv := false; fe_frame_enc := false;
      fe_updated_ts := 0 |})
  end.

(** [frame_encryptor_set_keystore]; [keystore] tells whether the argument is
    the store or [NULL]. *)
Definition frame_encryptor_set_keystore (keystore : bool) : FCM frame_encryptor Z :=
  oset (λ e, {| e with fe_keystore := keystore |});;
  if keystore then
    e ← oget;
    '(err, iv) ← on_ks (keystore_generate_iv (fe_userid_hash e) (iv_name (fe_mtype e)) IV_SIZE);
    oset (λ e, {| e with fe_iv := iv |});;
    mret err
  else mret EINVAL.

(** [frame_encryptor_max_size] *)
Definition frame_encryptor_max_size (srcsz : nat) : nat :=
  (srcsz + BLOCK_SIZE + TAG_SIZE + frame_hdr_max_size)%nat.

(** What [frame_encryptor_encrypt] leaves behind: the return value, [dst], and
    [*dstsz] when it was assigned. *)
Definition enc_reply : Type := Z * list Z * option nat.

(** The EVP calls of [frame_encryptor_encrypt], from the header on. *)
Definition encrypt_frame (c : evp_ctx) (iv src dst : list Z) (hlen : nat)
    : FCM frame_encryptor enc_reply :=
  let put c : FCM frame_encryptor () := oset (λ e, {| e with fe_ctx := Some c |}) in
  let '(c, ok) := EVP_EncryptInit_iv c iv in
  put c;;
  if negb ok then mret (ENOSYS, dst, None) else
  let '(c, ok) := EVP_EncryptUpdate_aad c (take hlen dst) in
  put c;;
  if negb ok then mret (EBADF, dst, None) else
  let '(c, ok, out) := EVP_EncryptUpdate c src in
  put c;;
  dst ← of_ptr (store dst hlen out);
  if negb ok then mret (EBADF, dst, None) else
  let enc_len := length out in
  let '(c, ok, out) := EVP_EncryptFinal c in
  put c;;
  dst ← of_ptr (store dst (hlen + enc_len) out);
  if negb ok then mret (EBADF, dst, None) else
  let enc_len := (enc_len + length out)%nat in
  let '(c, ok, tag) := EVP_CTRL_GCM_GET_TAG c TAG_SIZE in
  put c;;
  dst ← of_ptr (store dst (hlen + enc_len) tag);
  if negb ok then mret (EBADF, dst, None) else
  oset (λ e, {| e with fe_frame_enc := true |});;
  mret (0, dst, Some (hlen + enc_len + TAG_SIZE)%nat).

(** A context for key [kid], made if there is none: [enc->ctx], or an error. *)
Definition encryptor_ctx (kid updated_ts : Z) : FCM frame_encryptor (Z + evp_ctx) :=
  oset (λ e,
    if bool_decide (is_Some (fe_ctx e)) &&
       (negb (kid =? fe_kidx e) || negb (updated_ts =? fe_updated_ts e))
    then {| e with fe_ctx := None |} else e);;
  e ← oget;
  match fe_ctx e with
  | Some c => mret (inr c)
  | None =>
    '(err, key) ← on_ks (keystore_get_media_key kid E2EE_SESSIONKEY_SIZE);
    if negb (err =? 0) then mret (inl EAGAIN)
    else
      c ← of_ptr EVP_CIPHER_CTX_new;
      let '(c, _) := EVP_EncryptInit_key c key in
      oset (λ e, {| e with fe_ctx := Some c; fe_kidx := kid; fe_updated_ts := updated_ts |});;
      mret (inr c)
  end.

(** [frame_encryptor_encrypt] *)
Definition frame_encryptor_encrypt (ssrc : Z) (src dst : list Z)
    : FCM frame_encryptor enc_reply :=
  oset (λ e, {| e with fe_frameid := Z.land (u64 (fe_frameid e + 1)) 0xFFFFFFFF |});;
  e ← oget;
  if negb (fe_keystore e) then mret (EINVAL, dst, None) else
  oset (λ e, {| e with fe_frame_recv := true |});;
  '(_, cur) ← on_ks keystore_get_current;
  match cur with
  | None => mret (EAGAIN, dst, None)
  | Some (kid, updated_ts) =>
    r ← encryptor_ctx kid updated_ts;
    match r with
    | inl err => mret (err, dst, None)
    | inr c =>
      e ← oget;
      '(dst, hlen) ← of_ptr
        (frame_hdr_write dst (frame_encryptor_max_size (length src)) (fe_frameid e) kid ssrc);
      let iv := frame_encryptor_xor_iv (fe_iv e) (fe_frameid e) kid in
      encrypt_frame c iv src dst hlen
    end
  end.
End Encryptor.

(** ** The decryptor *)

Section Decryptor.
Context `{LibRe, KsEnv, EVP, Peerflow}.

(** [struct frame_decryptor] *)
Record frame_decryptor := {
  fd_pf : bool;
  fd_kidx : Z;
  fd_ctx : option evp_ctx;
  fd_keystore : bool;
  fd_iv : list Z;
  fd_mtype : frame_media_type;
  fd_userid_hash : option string;
  fd_csrc : Z;
  fd_frame_count : Z;
  fd_frame_recv : bool;
  fd_frame_dec : bool;
}.

Abbreviation FDM := (FCM frame_decryptor).

(** [frame_decryptor_alloc] *)
Definition frame_decryptor_alloc (mem : bool) (mtype : frame_media_type)
    : Z * option frame_decryptor :=
  if negb mem then (ENOMEM, None)
  else (0, Some {|
    fd_pf := false; fd_kidx := 0; fd_ctx := None; fd_keystore := false;
    fd_iv := replicate IV_SIZE 0; fd_mtype := mtype; fd_userid_hash := None;
    fd_csrc := 0; fd_frame_count := 0; fd_frame_recv := false; fd_frame_dec := false |}).

(** [frame_decryptor_set_uid]; [dup_err] is the outcome of [str_dup]. *)
Definition frame_decryptor_set_uid (dup_err : Z) (userid_hash : option string) : FDM Z :=
  match userid_hash with
  | None => mret EINVAL
  | Some hash =>
    oset (λ d, {| d with fd_userid_hash := if dup_err =? 0 then Some hash else None |});;
    mret dup_err
  end.

(** [frame_decryptor_set_peerflow] *)
Definition frame_decryptor_set_peerflow (pf : bool) : FDM Z :=
  if pf then oset (λ d, {| d with fd_pf := true |});; mret 0 else mret EINVAL.

(** [frame_decryptor_set_keystore] *)
Definition frame_decryptor_set_keystore (keystore : bool) : FDM Z :=
  if keystore then oset (λ d, {| d with fd_keystore := true |});; mret 0 else mret EINVAL.

(** The calls into the key store, which may be [NULL]. *)
Definition dec_generate_iv (hash name : string) : FDM Z :=
  d ← oget;
  if fd_keystore d then
    '(err, iv) ← on_ks (keystore_generate_iv hash name IV_SIZE);
    oset (λ d, {| d with fd_iv := iv |});;
    mret err
  else mret EINVAL.

Definition dec_get_media_key (kid : Z) : FDM (Z * list Z) :=
  d ← oget;
  if fd_keystore d then on_ks (keystore_get_media_key kid E2EE_SESSIONKEY_SIZE)
  else mret (EINVAL, []).

Definition dec_ks_flag (m : KSM Z) : FDM () :=
  d ← oget;
  if fd_keystore d then _ ← on_ks m; mret () else mret ().

Definition inc_frame_count (csrc count : Z) : FDM Z :=
  d ← oget;
  uemit [FcIncFrames csrc (is_video (fd_mtype d)) count];;
  mret (peerflow_inc_frame_count csrc (is_video (fd_mtype d)) count).

(** The source of the frame, first part of [frame_decryptor_decrypt]: a new
    CSRC, or the first frame.  An error, or whether the user is new. *)
Definition decrypt_source (csrc : Z) : FDM (Z + bool) :=
  d ← oget;
  if negb (csrc =? 0) && negb (csrc =? fd_csrc d) && fd_pf d then
    oset (λ d, {| d with fd_userid_hash := None |});;
    err ← (if negb (fd_frame_count d =? 0) then inc_frame_count csrc (fd_frame_count d)
           else mret 0 : FDM Z);
    if negb (err =? 0) then mret (inl err)
    else
      let '(err, hash) := peerflow_get_userid_for_ssrc csrc (is_video (fd_mtype d)) in
      oset (λ d, {| d with fd_userid_hash := hash |});;
      if negb (err =? 0) then mret (inl err)
      else
        oset (λ d, {| d with fd_csrc := csrc; fd_frame_recv := true; fd_frame_count := 0 |});;
        mret (inr true)
  else if negb (fd_frame_recv d) then
    oset (λ d, {| d with fd_frame_recv := true; fd_frame_dec := false |});;
    mret (inr true)
  else mret (inr false).

(** The base IV of a new user. *)
Definition decrypt_new_user : FDM Z :=
  d ← oget;
  match fd_userid_hash d with
  | None => mret EAGAIN
  | Some hash =>
    err ← dec_generate_iv hash (iv_name (fd_mtype d));
    if negb (err =? 0) then mret err
    else
      oset (λ d, {| d with fd_frame_dec := false |});;
      dec_ks_flag keystore_set_decrypt_attempted;;
      mret 0
  end.

(** A context for key [kid]. *)
Definition decryptor_ctx (kid : Z) : FDM (Z + evp_ctx) :=
  oset (λ d, if negb (kid =? fd_kidx d) && bool_decide (is_Some (fd_ctx d))
             then {| d with fd_ctx := None |} else d);;
  d ← oget;
  match fd_ctx d with
  | Some c => mret (inr c)
  | None =>
    '(err, key) ← dec_get_media_key (u32 kid);
    if negb (err =? 0) then mret (inl EAGAIN)
    else
      c ← of_ptr EVP_CIPHER_CTX_new;
      let '(c, _) := EVP_DecryptInit_key c key in
      oset (λ d, {| d with fd_ctx := Some c; fd_kidx := u32 kid |});;
      mret (inr c)
  end.

(** What [frame_decryptor_decrypt] leaves behind: the return value, [dst], and
    [*dstsz] when it was assigned. *)
Definition dec_reply : Type := Z * list Z * option nat.

(** The tag: sixteen bytes at [src + srcsz - 16]. *)
Definition read_tag (src : list Z) : option (list Z) :=
  if decide (TAG_SIZE ≤ length src)%nat then Some (drop (length src - TAG_SIZE) src) else None.

(** [enc], [enc_size] bytes at [src + hsize]; the size may be negative. *)
Definition enc_bytes (src : list Z) (hsize : nat) : option (list Z) :=
  if decide (hsize + TAG_SIZE ≤ length src)%nat
  then Some (take (length src - hsize - TAG_SIZE) (drop hsize src)) else None.

(** The EVP calls of [frame_decryptor_decrypt]. *)
Definition decrypt_frame (c : evp_ctx) (iv src dst : list Z) (hsize : nat) : FDM dec_reply :=
  let put c : FDM () := oset (λ d, {| d with fd_ctx := Some c |}) in
  let '(c, ok) := EVP_DecryptInit_iv c iv in
  put c;;
  if negb ok then mret (EIO, dst, None) else
  tag ← of_ptr (read_tag src);
  let '(c, ok) := EVP_CTRL_GCM_SET_TAG c tag in
  put c;;
  if negb ok then mret (EIO, dst, None) else
  let '(c, ok) := EVP_DecryptUpdate_aad c (take hsize src) in
  put c;;
  if negb ok then mret (EIO, dst, None) else
  let '(c, ok, out) := EVP_DecryptUpdate c (enc_bytes src hsize) in
  put c;;
  dst ← of_ptr (store dst 0 out);
  if negb ok then mret (EIO, dst, None) else
  let dec_len := length out in
  let '(c, ok, out) := EVP_DecryptFinal c in
  put c;;
  dst ← of_ptr (store dst dec_len out);
  if negb ok then mret (EIO, dst, None) else
  mret (0, dst, Some (dec_len + length out)%nat).

(** The frame counter and its report to the media engine. *)
Definition count_frame (csrc : Z) (r : dec_reply) : FDM dec_reply :=
  let '(_, dst, dstsz) := r in
  oset (λ d, {| d with fd_frame_count := u32 (fd_frame_count d + 1) |});;
  d ← oget;
  let frm_res := if is_video (fd_mtype d) then 15 else 50 in
  if fd_pf d && (frm_res <=? fd_frame_count d) then
    err ← inc_frame_count csrc (fd_frame_count d);
    oset (λ d, {| d with fd_frame_count := 0 |});;
    mret (err, dst, dstsz)
  else mret (0, dst, dstsz).

(** [frame_decryptor_decrypt] up to the label [out]. *)
Definition decrypt_body (csrc : Z) (src dst : list Z) : FDM dec_reply :=
  if decide (length src < FRAME_HDR_MINSZ)%nat then mret (EAGAIN, dst, None) else
  match frame_hdr_read src (length src) 0 with
  | HdrOOB => undef
  | HdrErr err => mret (err, dst, None)
  | HdrOk frameid kid fcsrc hsize =>
    let fid32 := u32 frameid in
    let csrc := if negb (fcsrc =? 0) then fcsrc else csrc in
    r ← decrypt_source csrc;
    match r with
    | inl err => mret (err, dst, None)
    | inr new_user =>
      err ← (if (new_user : bool) then decrypt_new_user else mret 0 : FDM Z);
      if negb (err =? 0) then mret (err, dst, None)
      else
        d ← oget;
        let iv := frame_encryptor_xor_iv (fd_iv d) fid32 kid in
        r ← decryptor_ctx kid;
        match r with
        | inl err => mret (err, dst, None)
        | inr c =>
          r ← decrypt_frame c iv src dst hsize;
          if negb (r.1.1 =? 0) then mret r else count_frame csrc r
        end
    end
  end.

(** [frame_decryptor_decrypt] *)
Definition frame_decryptor_decrypt (csrc : Z) (src dst : list Z) : FDM dec_reply :=
  r ← decrypt_body csrc src dst;
  (if negb (r.1.1 =? 0)
   then oset (λ d, {| d with fd_ctx := None |})
   else
     d ← oget;
     if negb (fd_frame_dec d) then
       oset (λ d, {| d with fd_frame_dec := true |});;
       dec_ks_flag keystore_set_decrypt_successful
     else mret () : FDM ());;
  mret r.

(** [frame_decryptor_max_size] *)
Definition frame_decryptor_max_size (srcsz : nat) : nat := srcsz.
End Decryptor.
