(* ===== verification/FrameCryptoSpec.v ===== *)
(** * Correctness of frame encryption

    What the encryptor writes, what the decryptor accepts, and that a frame
    survives the way from one to the other, across rotations of the key. *)

From S2P Require Import Prelude LibRe FrameHdr Keystore KeystoreSpec KeystoreOps KeystoreProps FrameCrypto.

(** ** The initialisation vector *)

Lemma xor_bytes_inj iv a b :
  length a = length b → (length a ≤ length iv)%nat →
  xor_bytes iv a = xor_bytes iv b → a = b.
Proof.
  revert iv b. induction a as [|x a IH]; intros [|i iv] [|y b] Hlen Hle Heq; cbn in *;
    try done; try lia.
  injection Heq as Hxy Heq. f_equal; [|by apply (IH iv); [lia|lia|]].
  assert (Z.lxor i (Z.lxor i x) = Z.lxor i (Z.lxor i y)) as E by congruence.
  by rewrite <-!Z.lxor_assoc, Z.lxor_nilpotent, !Z.lxor_0_l in E.
Qed.

Lemma bytes_value x :
  0 <= x < 2 ^ 32 →
  x = Z.land (Z.shiftr x 24) 0xFF * 2 ^ 24 + Z.land (Z.shiftr x 16) 0xFF * 2 ^ 16 +
      Z.land (Z.shiftr x 8) 0xFF * 2 ^ 8 + Z.land x 0xFF.
Proof.
  intros Hx. change 0xFF with (Z.ones 8). rewrite !Z.land_ones, !Z.shiftr_div_pow2 by lia.
  change (2 ^ 8) with 256. lia_div.
Qed.

Lemma iv_bytes_inj f k f' k' :
  0 <= f < 2 ^ 32 → 0 <= k < 2 ^ 32 → 0 <= f' < 2 ^ 32 → 0 <= k' < 2 ^ 32 →
  iv_bytes f k = iv_bytes f' k' → f = f' ∧ k = k'.
Proof.
  intros Hf Hk Hf' Hk' He. unfold iv_bytes in He.
  injection He as ? ? ? ? ? ? ? ?. split.
  - rewrite (bytes_value f Hf), (bytes_value f' Hf'). congruence.
  - rewrite (bytes_value k Hk), (bytes_value k' Hk'). congruence.
Qed.

(** No two frames share an initialisation vector: for one base IV, the
    vectors of two frames are equal only if both the 32-bit frame counters and
    the 32-bit key indices are. *)
Theorem xor_iv_injective iv f k f' k' :
  (8 ≤ length iv)%nat →
  frame_encryptor_xor_iv iv f k = frame_encryptor_xor_iv iv f' k' →
  u32 f = u32 f' ∧ u32 k = u32 k'.
Proof.
  intros Hiv He. apply iv_bytes_inj; [by apply uwrap_range..|].
  by apply (xor_bytes_inj iv).
Qed.

Lemma xor_iv_injective_witness :
  frame_encryptor_xor_iv (replicate 12 7) 5 9
  = frame_encryptor_xor_iv (replicate 12 7) (2 ^ 32 + 5) 9 ∧
  u32 5 = u32 (2 ^ 32 + 5) ∧ u32 9 = u32 9.
Proof.
  split; [reflexivity|].
  apply (xor_iv_injective (replicate 12 7)); vm_compute; [lia|reflexivity].
Defined.

(** ** Lifting *)

Lemma wp_on_ks {O A} (m : KSM A) (Q : A → world O → list fc_event → Prop) w :
  wp m (λ a ks e, Q a (World (w_obj w) ks) (FcKs <$> e)) (w_ks w) → wp (on_ks m) Q w.
Proof. unfold wp, on_ks. by destruct (m (w_ks w)) as [[[a ks] e]|]. Qed.

Lemma wp_oget {O} (Q : O → world O → list fc_event → Prop) w :
  Q (w_obj w) w [] → wp oget Q w.
Proof. done. Qed.

Lemma wp_oset {O} (f : O → O) (Q : () → world O → list fc_event → Prop) w :
  Q () (World (f (w_obj w)) (w_ks w)) [] → wp (oset f) Q w.
Proof. done. Qed.

Ltac fc_step :=
  lazymatch goal with
  | |- wp (_ ≫= _) _ _ => apply wp_bind
  | |- wp (mret _) _ _ => apply wp_ret
  | |- wp oget _ _ => apply wp_oget
  | |- wp (oset _) _ _ => apply wp_oset
  | |- wp (uemit _) _ _ => apply wp_emit
  end;
  cbn [w_obj w_ks fe_userid_hash fe_kidx fe_frameid fe_ctx fe_keystore fe_iv fe_mtype
       fe_frame_recv fe_frame_enc fe_updated_ts fd_pf fd_kidx fd_ctx fd_keystore fd_iv
       fd_mtype fd_userid_hash fd_csrc fd_frame_count fd_frame_recv fd_frame_dec].
Ltac fc_steps := repeat fc_step.

(** Storing at the end of what has been written. *)
Lemma store_at pre suf new n :
  n = length pre → (length new ≤ length suf)%nat →
  store (pre ++ suf) n new = Some ((pre ++ new) ++ drop (length new) suf).
Proof. intros ->. apply store_app. Qed.

(** ** The encryptor *)

(** A frame as it travels. *)
Definition sealed_frame `{AEAD} (key iv : list Z) (fid kid ssrc : Z) (src : list Z) : list Z :=
  let hdr := hdr_bytes fid kid ssrc in
  let '(ct, tag) := seal key (frame_encryptor_xor_iv iv fid kid) hdr src in
  hdr ++ ct ++ tag.

(** Bounds on the sizes of a frame. *)
Ltac sizes :=
  unfold frame_encryptor_max_size, BLOCK_SIZE, TAG_SIZE, frame_hdr_max_size in *; lia.

Section Encrypt.
Context `{LibReSpec} {KE : KsEnv} `{HLen : !KsEnvLen KE}.
Context `{HEV : EVPSpec holds}.

Lemma wp_encrypt_frame c key iv src hdr suf w :
  holds c key → (length src + TAG_SIZE ≤ length suf)%nat →
  wp (encrypt_frame c iv src (hdr ++ suf) (length hdr)) (λ r w' e,
    ∃ c' e', holds c' key ∧ w' = World e' (w_ks w) ∧
    e' = (let e := w_obj w in {| e with fe_ctx := Some c'; fe_frame_enc := true |}) ∧
    let '(ct, tag) := seal key iv hdr src in
    r = (0, (hdr ++ ct ++ tag) ++ drop (length src + TAG_SIZE) suf,
         Some (length hdr + length src + TAG_SIZE)%nat)) w.
Proof.
  intros Hc Hsuf. destruct (evp_enc c key iv hdr src Hc) as (c' & He & Hc').
  pose proof (seal_length key iv hdr src) as Hlen.
  pose proof (seal_tag_length key iv hdr src) as Htag.
  destruct (seal key iv hdr src) as [ct tag]. cbn in He, Hlen, Htag.
  unfold evp_encrypt in He. unfold encrypt_frame. rewrite take_app_length.
  destruct (EVP_EncryptInit_iv c iv) as [c1 []]; [|done]. cbn [negb] in *.
  destruct (EVP_EncryptUpdate_aad c1 hdr) as [c2 []]; [|done]. cbn [negb] in *.
  destruct (EVP_EncryptUpdate c2 src) as [[c3 []] out]; [|done]. cbn [negb] in *.
  destruct (EVP_EncryptFinal c3) as [[c4 []] fin]; [|done]. cbn [negb] in *.
  destruct (EVP_CTRL_GCM_GET_TAG c4 TAG_SIZE) as [[c5 []] tg]; [|done]. cbn [negb] in *.
  injection He as -> <- ->. rewrite length_app in Hlen.
  fc_steps. eapply wp_of_ptr; [apply store_at; [done|lia]|]. fc_steps.
  eapply wp_of_ptr; [apply store_at; [by rewrite length_app|rewrite length_drop; lia]|]. fc_steps.
  eapply wp_of_ptr; [apply store_at; [rewrite !length_app; lia|rewrite !length_drop; lia]|]. fc_steps.
  exists c', (let e := w_obj w in {| e with fe_ctx := Some c'; fe_frame_enc := true |}).
  split_and!; [done..|].
  rewrite !drop_drop, <-!app_assoc. do 2 f_equal; [|f_equal; lia].
  do 5 f_equal. lia.
Qed.

(** The key [kid] of the store is current, and a context the encryptor would
    reuse holds its media key. *)
Definition enc_ready (w : world frame_encryptor) (kid : Z) (mkey : list Z) : Prop :=
  let e := w_obj w in let ks := w_ks w in
  fe_keystore e = true ∧ ks_ok ks ∧
  (∃ k, k ∈ ks_keyl ks ∧ ks_current ks = Some (ki_addr k) ∧ ki_index k = kid ∧ ki_mkey k = mkey) ∧
  (∀ c, fe_ctx e = Some c → fe_kidx e = kid → fe_updated_ts e = ks_update_ts ks → holds c mkey).

(** Looking up the current key leaves the store alone. *)
Lemma wp_get_current_key s k :
  ks_ok s → k ∈ ks_keyl s → ks_current s = Some (ki_addr k) →
  wp (keystore_get_media_key (ki_index k) E2EE_SESSIONKEY_SIZE)
     (λ r s' _, r = (0, ki_mkey k) ∧ s' = s) s.
Proof.
  intros Hok Hk Hc. destruct (keyl_ok_elem _ _ _ (ok_keyl _ Hok) Hk) as (_ & Hi & _ & Hm).
  eapply wp_mono; [apply wp_get_media_key; [done|lia]|]. cbn beta.
  intros r s' e ((_ & Hp) & _).
  destruct Hp as [(pre & k' & post & He & Hk' & -> & Hs')|[Hno _]]; [|by edestruct Hno].
  assert (k' = k) as ->.
  { apply (keys_sorted_inj (ks_keyl s)); [apply Hok| |done|done]. rewrite He. apply elem_mid. }
  rewrite copy_key_all by done. split; [done|].
  destruct Hs' as [[(kc & Hkc & Hcc & Hlt) _]|[_ ->]]; [|done].
  rewrite Hc in Hcc. injection Hcc as Ha. rewrite (ks_addr_inj s k kc) in Hlt by done. lia.
Qed.

(** What stays the same while a context is fetched. *)
Definition same_sender (e e' : frame_encryptor) : Prop :=
  fe_frameid e' = fe_frameid e ∧ fe_iv e' = fe_iv e ∧ fe_keystore e' = fe_keystore e ∧
  fe_mtype e' = fe_mtype e ∧ fe_userid_hash e' = fe_userid_hash e.

Lemma wp_encryptor_ctx w kid mkey :
  enc_ready w kid mkey →
  wp (encryptor_ctx kid (ks_update_ts (w_ks w))) (λ r w' _,
    ∃ c, r = inr c ∧ holds c mkey ∧ w_ks w' = w_ks w ∧ same_sender (w_obj w) (w_obj w') ∧
    fe_ctx (w_obj w') = Some c ∧ fe_kidx (w_obj w') = kid ∧
    fe_updated_ts (w_obj w') = ks_update_ts (w_ks w)) w.
Proof.
  intros (Hks & Hok & (k & Hk & Hc & Hi & Hm) & Hctx). unfold encryptor_ctx. fc_steps.
  destruct (decide (is_Some (fe_ctx (w_obj w)) ∧ fe_kidx (w_obj w) = kid ∧
    fe_updated_ts (w_obj w) = ks_update_ts (w_ks w))) as [([c Ec] & Ek & Et)|Hnew].
  - rewrite Ek, Et, !Z.eqb_refl, andb_false_r. cbn [w_obj fe_ctx]. rewrite Ec. fc_steps.
    exists c. split_and!; [done|by apply Hctx|done..].
  - match goal with |- context [if ?b then _ else _] => set (e1 := if b then _ else _) end.
    assert (fe_ctx e1 = None ∧ same_sender (w_obj w) e1) as [-> Hsame].
    { unfold e1. destruct (fe_ctx (w_obj w)) as [c|] eqn:Ec; [|by cbn].
      rewrite bool_decide_true by done. cbn [andb].
      destruct (Z.eqb_spec kid (fe_kidx (w_obj w))); cbn [negb orb]; [|done].
      destruct (Z.eqb_spec (ks_update_ts (w_ks w)) (fe_updated_ts (w_obj w))); [|done].
      exfalso. apply Hnew. by split_and!. }
    apply wp_bind, wp_on_ks. cbn [w_ks w_obj]. rewrite <-Hi.
    eapply wp_mono; [by apply wp_get_current_key|]. cbn beta. intros r s' e [-> ->].
    cbn [negb Z.eqb]. destruct evp_new as [c0 Hc0].
    apply wp_bind, (wp_of_ptr _ _ c0); [done|].
    pose proof (evp_enc_key c0 (ki_mkey k)) as Hh.
    destruct (EVP_EncryptInit_key c0 (ki_mkey k)) as [c b]. cbn in Hh. fc_steps.
    exists c. rewrite Hm in Hh. by split_and!.
Qed.

(** The frame counter of the next frame. *)
Definition next_fid (e : frame_encryptor) : Z := Z.land (u64 (fe_frameid e + 1)) 0xFFFFFFFF.

Lemma next_fid_mod e : next_fid e = u32 (fe_frameid e + 1).
Proof.
  unfold next_fid, uwrap. change 0xFFFFFFFF with (Z.ones 32). rewrite Z.land_ones by lia. lia_div.
Qed.

Lemma hdr_bytes_bound fid kid ssrc : (length (hdr_bytes fid kid ssrc) ≤ 15)%nat.
Proof.
  rewrite length_hdr_bytes. destruct (calc_len_spec fid) as [? _], (calc_len_spec kid) as [? _].
  destruct (7 <? kid), (ssrc =? 0); lia.
Qed.

Lemma sealed_frame_length key iv fid kid ssrc src :
  length (sealed_frame key iv fid kid ssrc src)
  = (length (hdr_bytes fid kid ssrc) + length src + TAG_SIZE)%nat.
Proof.
  unfold sealed_frame. set (iv' := frame_encryptor_xor_iv iv fid kid).
  pose proof (seal_length key iv' (hdr_bytes fid kid ssrc) src) as H1.
  pose proof (seal_tag_length key iv' (hdr_bytes fid kid ssrc) src) as H2.
  destruct (seal _ _ _ _) as [ct tag]. cbn in *. rewrite !length_app. lia.
Qed.

(** The encryptor under the current key. *)
Lemma wp_encrypt_seals w kid mkey ssrc src dst :
  enc_ready w kid mkey → (frame_encryptor_max_size (length src) ≤ length dst)%nat →
  let fid := next_fid (w_obj w) in
  let frame := sealed_frame mkey (fe_iv (w_obj w)) fid kid ssrc src in
  wp (frame_encryptor_encrypt ssrc src dst) (λ r w' _,
    r = (0, frame ++ drop (length frame) dst, Some (length frame)) ∧
    (length frame ≤ frame_encryptor_max_size (length src))%nat ∧
    enc_ready w' kid mkey ∧ w_ks w' = w_ks w ∧
    fe_frameid (w_obj w') = fid ∧ fe_iv (w_obj w') = fe_iv (w_obj w)) w.
Proof.
  intros Hready Hdst fid frame.
  pose proof Hready as (Hks & Hok & (k & Hk & Hc & Hi & Hm) & Hctx).
  pose proof (hdr_bytes_bound fid kid ssrc) as Hhdr.
  assert (0 <= kid) as Hkid.
  { destruct (keyl_ok_elem _ _ _ (ok_keyl _ Hok) Hk) as (_ & ? & _). lia. }
  unfold frame_encryptor_encrypt. fc_steps. rewrite Hks. cbn [negb]. fc_steps.
  apply wp_on_ks. cbn [w_ks w_obj]. eapply wp_mono; [by apply wp_get_current|]. cbn beta.
  intros r s' e (-> & _ & ->). rewrite (current_index_of _ k), Hi by done.
  apply wp_bind. match goal with |- wp _ _ ?w1 =>
    eapply wp_mono; [apply (wp_encryptor_ctx w1 kid mkey)|] end.
  { split_and!; [done|done|by exists k|done]. }
  cbn beta. cbn [w_ks w_obj]. fold (next_fid (w_obj w)).
  intros r w1 e1 (c & -> & Hh & Eks & (Efid & Eiv & Ek & _) & Ec & Ekid & Ets).
  cbn in Efid, Eiv, Ek. fc_steps. rewrite Efid, Eiv. fold fid.
  rewrite write_hdr_bytes by sizes.
  rewrite decide_False by sizes.
  eapply wp_of_ptr; [done|].
  eapply wp_mono; [apply (wp_encrypt_frame c mkey); [done|rewrite length_drop; sizes]|].
  cbn beta. intros r w2 e2 (c' & e' & Hh' & -> & -> & Hr).
  assert (length frame = (length (hdr_bytes fid kid ssrc) + length src + TAG_SIZE)%nat) as Hfl
    by apply sealed_frame_length.
  split_and!; [|sizes| |done|done|done].
  - rewrite Hfl. unfold frame, sealed_frame. destruct (seal _ _ _ _) as [ct tag]. rewrite Hr.
    rewrite drop_drop. do 2 f_equal. f_equal. f_equal. lia.
  - split_and!; cbn [w_obj w_ks fe_keystore fe_ctx fe_kidx fe_updated_ts]; rewrite ?Eks; [congruence|done|by exists k|].
    intros c2 [= <-] _ _. done.
Qed.

(** Frames encrypted one after the other, each into its own buffer. *)
Fixpoint encrypt_stream (ssrc : Z) (frames : list (list Z * list Z))
    : FCM frame_encryptor (list enc_reply) :=
  match frames with
  | [] => mret []
  | (src, dst) :: frames =>
    r ← frame_encryptor_encrypt ssrc src dst;
    rs ← encrypt_stream ssrc frames;
    mret (r :: rs)
  end.

(** What they become: the [i]-th one carries the [i]-th next frame counter. *)
Definition sealed_reply (mkey iv : list Z) (kid ssrc f0 : Z) (i : nat)
    (frame : list Z * list Z) : enc_reply :=
  let sealed := sealed_frame mkey iv (u32 (f0 + 1 + Z.of_nat i)) kid ssrc frame.1 in
  (0, sealed ++ drop (length sealed) frame.2, Some (length sealed)).

(** Ready for the frames up to [f0]. *)
Definition enc_at (w : world frame_encryptor) kid mkey iv (f0 : Z) : Prop :=
  enc_ready w kid mkey ∧ fe_iv (w_obj w) = iv ∧ u32 (fe_frameid (w_obj w)) = u32 f0.

Lemma wp_encrypt_stream frames w kid mkey ssrc iv f0 :
  enc_at w kid mkey iv f0 →
  Forall (λ f, frame_encryptor_max_size (length f.1) ≤ length f.2)%nat frames →
  wp (encrypt_stream ssrc frames) (λ rs _ _,
    rs = imap (sealed_reply mkey iv kid ssrc f0) frames) w.
Proof.
  revert w f0. induction frames as [|[src dst] frames IH]; intros w f0 (Hw & Hiv & Hf) Hdst;
    cbn [encrypt_stream]; [by wp_steps|].
  apply Forall_cons in Hdst as [Hd Hdst]. apply wp_bind.
  eapply wp_mono; [by apply (wp_encrypt_seals w kid mkey)|]. cbn beta zeta.
  intros r w' e (-> & _ & Hw' & _ & Hf' & Hiv'). apply wp_bind. rewrite next_fid_mod in *.
  assert (u32 (fe_frameid (w_obj w) + 1) = u32 (f0 + 1)) as Hn.
  { unfold uwrap in *. rewrite <-Zplus_mod_idemp_l, Hf, Zplus_mod_idemp_l. done. }
  eapply wp_mono; [apply (IH w' (f0 + 1)); [|done]|].
  { split_and!; [done|congruence|]. rewrite Hf', Hn. unfold uwrap. by rewrite Zmod_mod. }
  cbn beta. intros rs w2 e2 ->. wp_steps. cbn [imap]. f_equal.
  - unfold sealed_reply. cbn [fst snd]. by rewrite Hn, Hiv, Z.add_0_r.
  - apply imap_ext. intros i f _. cbn. unfold sealed_reply.
    by replace (f0 + 1 + 1 + Z.of_nat i) with (f0 + 1 + Z.of_nat (S i)) by lia.
Qed.

(** a stream of frames under one key: every frame is sealed under the
    media key of the current index with the next frame counter, never more than
    [frame_encryptor_max_size] bytes are needed, what lies behind a frame in its
    buffer is not touched, and no initialisation vector is used twice as long as
    the counter does not come round (2^32 frames). *)
Theorem encrypt_stream_sealed w kid mkey ssrc frames :
  enc_ready w kid mkey → (8 ≤ length (fe_iv (w_obj w)))%nat →
  Forall (λ f, frame_encryptor_max_size (length f.1) ≤ length f.2)%nat frames →
  Z.of_nat (length frames) <= 2 ^ 32 →
  let f0 := fe_frameid (w_obj w) in
  let iv := fe_iv (w_obj w) in
  wp (encrypt_stream ssrc frames) (λ rs _ _,
    rs = imap (sealed_reply mkey iv kid ssrc f0) frames) w ∧
  NoDup (imap (λ i _, frame_encryptor_xor_iv iv (u32 (f0 + 1 + Z.of_nat i)) kid) frames).
Proof.
  intros Hw Hiv Hdst Hlen f0 iv. split; [by apply wp_encrypt_stream|].
  apply NoDup_alt. intros i j x Hi Hj.
  rewrite !list_lookup_imap in *.
  destruct (frames !! i) as [fi|] eqn:Ei; [|done]. destruct (frames !! j) as [fj|] eqn:Ej; [|done].
  apply lookup_lt_Some in Ei, Ej. cbn in Hi, Hj. injection Hi as Hi. injection Hj as Hj.
  rewrite <-Hj in Hi. apply (xor_bytes_inj iv) in Hi; [|done|done].
  apply iv_bytes_inj in Hi as [Hi _]; [|by apply uwrap_range..].
  unfold uwrap in Hi. rewrite !Zmod_mod in Hi. lia_div.
Qed.

End Encrypt.

(** ** The decryptor *)

(** Stores with the same keys: what the decryptor's bookkeeping preserves. *)
Definition same_keys (s s' : keystore) : Prop :=
  ks_ok s' ∧ ks_keyl s' = ks_keyl s ∧ ks_current s' = ks_current s ∧ same_setup s s'.

Section Decrypt.
Context `{LibReSpec} {KE : KsEnv} {kdf} `{HOk : !KsEnvOk KE kdf}.
Context `{HEV : EVPSpec holds} `{PF : Peerflow}.

(** The base IV of a sender's stream. *)
Definition base_iv (hash : string) (mtype : frame_media_type) : list Z :=
  kdf IV_SIZE (bytes_of_string hash) (bytes_of_string (iv_name mtype)) [].

(** The frame does not announce a new CSRC. *)
Definition no_new_csrc (d : frame_decryptor) (csrc : Z) : Prop :=
  csrc = 0 ∨ csrc = fd_csrc d ∨ fd_pf d = false.

(** The decryptor can tell the base IV of the stream: it is the one in use, or
    it follows from the user of the first frame or of the new CSRC. *)
Inductive source_known (d : frame_decryptor) (csrc : Z) (iv : list Z) : Prop :=
| src_same :
    fd_frame_recv d = true → no_new_csrc d csrc → fd_iv d = iv → source_known d csrc iv
| src_first hash :
    fd_frame_recv d = false → no_new_csrc d csrc → fd_userid_hash d = Some hash →
    iv = base_iv hash (fd_mtype d) → source_known d csrc iv
| src_new hash :
    ¬ no_new_csrc d csrc →
    peerflow_inc_frame_count csrc (is_video (fd_mtype d)) (fd_frame_count d) = 0 →
    peerflow_get_userid_for_ssrc csrc (is_video (fd_mtype d)) = (0, Some hash) →
    iv = base_iv hash (fd_mtype d) → source_known d csrc iv.

(** The store yields [mkey] for [kid], now and after any bookkeeping. *)
Definition dec_key (ks : keystore) (kid : Z) (mkey : list Z) : Prop :=
  ∀ s, same_keys ks s →
    wp (keystore_get_media_key kid E2EE_SESSIONKEY_SIZE) (λ r _ _, r = (0, mkey)) s.

(** What the bookkeeping leaves alone. *)
Definition same_receiver (w w' : world frame_decryptor) : Prop :=
  same_keys (w_ks w) (w_ks w') ∧ fd_keystore (w_obj w') = fd_keystore (w_obj w) ∧
  fd_ctx (w_obj w') = fd_ctx (w_obj w) ∧ fd_kidx (w_obj w') = fd_kidx (w_obj w) ∧
  fd_mtype (w_obj w') = fd_mtype (w_obj w) ∧ fd_pf (w_obj w') = fd_pf (w_obj w).

Lemma same_keys_refl s : ks_ok s → same_keys s s.
Proof. done. Qed.

Lemma same_keys_trans s1 s2 s3 : same_keys s1 s2 → same_keys s2 s3 → same_keys s1 s3.
Proof.
  intros (? & E1 & E2 & E3 & E4 & E5) (? & F1 & F2 & F3 & F4 & F5).
  unfold same_keys, same_setup. split_and!; congruence.
Qed.

Lemma wp_dec_generate_iv w hash name :
  ks_ok (w_ks w) → fd_keystore (w_obj w) = true →
  wp (dec_generate_iv hash name) (λ r w' _, r = 0 ∧ same_receiver w w' ∧
    w_obj w' = (let d := w_obj w in
      {| d with fd_iv := kdf IV_SIZE (bytes_of_string hash) (bytes_of_string name) [] |})) w.
Proof.
  intros Hok Hks. unfold dec_generate_iv. fc_steps. rewrite Hks. apply wp_bind, wp_on_ks.
  unfold keystore_generate_iv, next_tick. wp_steps. rewrite HKDF_ok, length_replicate. wp_steps.
  fc_steps. split; [done|]. rewrite Hks. split; [|done].
  split; [split; [by apply ks_ok_tick|done]|done].
Qed.

Lemma wp_dec_ks_attempted w :
  ks_ok (w_ks w) →
  wp (dec_ks_flag keystore_set_decrypt_attempted) (λ _ w' _,
    same_receiver w w' ∧ w_obj w' = w_obj w) w.
Proof.
  intros Hok. unfold dec_ks_flag. fc_steps. destruct (fd_keystore _); fc_steps; [|done].
  apply wp_on_ks, wp_locked. wp_steps. fc_steps. split; [|done].
  split; [split; [by destruct Hok|done]|done].
Qed.

Lemma wp_decrypt_new_user w hash :
  ks_ok (w_ks w) → fd_keystore (w_obj w) = true → fd_userid_hash (w_obj w) = Some hash →
  wp decrypt_new_user (λ r w' _, r = 0 ∧ same_receiver w w' ∧
    fd_iv (w_obj w') = base_iv hash (fd_mtype (w_obj w)) ∧
    fd_frame_count (w_obj w') = fd_frame_count (w_obj w)) w.
Proof.
  intros Hok Hks Hh. unfold decrypt_new_user. fc_steps. rewrite Hh. apply wp_bind.
  eapply wp_mono; [by apply wp_dec_generate_iv|]. cbn beta.
  intros r w1 e (-> & (Hk1 & Hrest) & Ew1). cbn [negb Z.eqb]. fc_steps.
  eapply wp_mono; [apply wp_dec_ks_attempted; apply Hk1|]. cbn beta.
  intros [] w2 e2 ((Hk2 & Hrest2) & Ew2). fc_steps. rewrite Ew2, Ew1.
  split; [done|]. split; [|done].
  split; [by eapply same_keys_trans|]. rewrite Ew2, Ew1. done.
Qed.
#[local] Instance no_new_csrc_dec d csrc : Decision (no_new_csrc d csrc).
Proof. unfold no_new_csrc. apply _. Defined.

Lemma new_csrc_test d csrc :
  negb (csrc =? 0) && negb (csrc =? fd_csrc d) && fd_pf d = bool_decide (¬ no_new_csrc d csrc).
Proof.
  destruct (decide (no_new_csrc d csrc)) as [Hn|Hn];
    [rewrite bool_decide_false by tauto|rewrite bool_decide_true by done];
    unfold no_new_csrc in Hn;
    destruct (Z.eqb_spec csrc 0), (Z.eqb_spec csrc (fd_csrc d)), (fd_pf d); cbn;
    try done; exfalso; naive_solver.
Qed.

Lemma wp_decrypt_source w csrc iv :
  ks_ok (w_ks w) → source_known (w_obj w) csrc iv →
  wp (decrypt_source csrc) (λ r w' _, same_receiver w w' ∧
    ∃ nu, r = inr nu ∧
    if (nu : bool) then ∃ hash, fd_userid_hash (w_obj w') = Some hash ∧
      iv = base_iv hash (fd_mtype (w_obj w))
    else fd_iv (w_obj w') = iv) w.
Proof.
  intros Hok Hsrc. unfold decrypt_source. fc_steps. rewrite new_csrc_test.
  destruct Hsrc as [Hrecv Hno Hiv|hash Hrecv Hno Hh Hiv|hash Hnew Hinc Hget Hiv].
  - rewrite bool_decide_false by tauto. rewrite Hrecv. cbn [negb]. fc_steps.
    split; [done|]. by exists false.
  - rewrite bool_decide_false by tauto. rewrite Hrecv. cbn [negb]. fc_steps.
    split; [done|]. exists true. split; [done|]. by exists hash.
  - rewrite bool_decide_true by done. fc_steps. rewrite Hget.
    assert (∀ Q : Z → world frame_decryptor → list fc_event → Prop, ∀ w1,
      fd_mtype (w_obj w1) = fd_mtype (w_obj w) → (∀ e, Q 0 w1 e) →
      wp (if negb (fd_frame_count (w_obj w) =? 0)
          then inc_frame_count csrc (fd_frame_count (w_obj w)) else mret 0) Q w1) as Hrep.
    { intros Q w1 Hm HQ. destruct (negb _); [|fc_steps; apply HQ].
      unfold inc_frame_count. fc_steps. rewrite Hm, Hinc. apply HQ. }
    apply Hrep; [done|]. intros e. cbn [negb Z.eqb]. fc_steps.
    split; [done|]. exists true. split; [done|]. by exists hash.
Qed.

Lemma wp_decryptor_ctx w kid mkey :
  0 <= kid < 2 ^ 32 → ks_ok (w_ks w) → fd_keystore (w_obj w) = true → dec_key (w_ks w) kid mkey →
  (∀ c, fd_ctx (w_obj w) = Some c → fd_kidx (w_obj w) = kid → holds c mkey) →
  wp (decryptor_ctx kid) (λ r w' _, ∃ c, r = inr c ∧ holds c mkey ∧
    fd_ctx (w_obj w') = Some c ∧ fd_kidx (w_obj w') = kid ∧
    fd_iv (w_obj w') = fd_iv (w_obj w) ∧ fd_mtype (w_obj w') = fd_mtype (w_obj w) ∧
    fd_keystore (w_obj w') = true ∧ fd_pf (w_obj w') = fd_pf (w_obj w)) w.
Proof.
  intros Hkid Hok Hks Hkey Hctx. unfold decryptor_ctx. fc_steps.
  destruct (decide (is_Some (fd_ctx (w_obj w)) ∧ fd_kidx (w_obj w) = kid)) as [[[c Ec] Ek]|Hnew].
  - rewrite Ek, !Z.eqb_refl. cbn [negb andb]. rewrite Ec. fc_steps.
    exists c. split_and!; [done|by apply Hctx|done..].
  - match goal with |- context [if ?b then _ else _] => set (d1 := if b then _ else _) end.
    assert (fd_ctx d1 = None ∧ fd_iv d1 = fd_iv (w_obj w) ∧ fd_mtype d1 = fd_mtype (w_obj w) ∧
      fd_keystore d1 = true ∧ fd_pf d1 = fd_pf (w_obj w)) as (-> & Hiv & Hm & Hk1 & Hp).
    { unfold d1. destruct (fd_ctx (w_obj w)) as [c|] eqn:Ec.
      - destruct (Z.eqb_spec kid (fd_kidx (w_obj w))) as [->|]; cbn [negb andb]; [|done].
        exfalso. apply Hnew. by split.
      - by rewrite andb_false_r. }
    unfold dec_get_media_key. fc_steps. rewrite Hk1. apply wp_on_ks. cbn [w_ks w_obj].
    rewrite uwrap_small by done.
    eapply wp_mono; [by apply Hkey, same_keys_refl|]. cbn beta. intros r s' e ->.
    cbn [negb Z.eqb]. destruct evp_new as [c0 Hc0].
    apply wp_bind, (wp_of_ptr _ _ c0); [done|].
    pose proof (evp_dec_key c0 mkey) as Hh.
    destruct (EVP_DecryptInit_key c0 mkey) as [c b]. cbn in Hh. fc_steps.
    exists c. by split_and!.
Qed.

(** Ciphertext and tag of a frame. *)
Lemma frame_parts src h ct tag :
  src = take h src ++ ct ++ tag → length tag = TAG_SIZE →
  read_tag src = Some tag ∧ enc_bytes src h = Some ct.
Proof.
  intros Hsrc Htag. assert (length src = h + length ct + TAG_SIZE)%nat as Hl.
  { apply (f_equal length) in Hsrc. rewrite !length_app, length_take in Hsrc.
    unfold TAG_SIZE in *. lia. }
  unfold read_tag, enc_bytes. rewrite !decide_True by lia.
  assert (length (take h src) = h) as Ht by (rewrite length_take; lia). split; f_equal.
  - rewrite Hsrc at 2. rewrite app_assoc. rewrite drop_app_length'; [done|].
    rewrite length_app, Ht. lia.
  - rewrite Hsrc at 2. rewrite drop_app_length' by done. rewrite take_app_length' by lia. done.
Qed.

(** A call that failed. *)
Ltac eio := split; [reflexivity|split; [eexists; split; [reflexivity|discriminate]|reflexivity]].

(** What the EVP calls do with a frame: they return the plaintext, or
    [EIO]. *)
Lemma wp_decrypt_frame w c key iv src dst h ct tag :
  holds c key → src = take h src ++ ct ++ tag → length tag = TAG_SIZE →
  (length ct ≤ length dst)%nat →
  wp (decrypt_frame c iv src dst h) (λ r w' _, w_ks w' = w_ks w ∧
    (∃ c', w_obj w' = (let d := w_obj w in {| d with fd_ctx := Some c' |}) ∧
      (r.1.1 = 0 → holds c' key)) ∧
    match open key iv (take h src) ct tag with
    | Some pt => r = (0, pt ++ drop (length pt) dst, Some (length pt))
    | None => r.1.1 = EIO
    end) w.
Proof.
  intros Hc Hsrc Htag Hdst.
  destruct (frame_parts src h ct tag Hsrc Htag) as [Et Ee].
  unfold decrypt_frame. rewrite Et, Ee.
  pose proof (evp_dec_update_len) as Hul. pose proof evp_dec_final_len as Hfl.
  destruct (open key iv (take h src) ct tag) as [pt|] eqn:Eo.
  - destruct (evp_dec c key iv (take h src) ct tag pt Hc Eo) as (c' & He & Hc').
    unfold evp_decrypt in He.
    destruct (EVP_DecryptInit_iv c iv) as [c1 []]; [|done]. cbn [negb] in *.
    fc_steps. apply (wp_of_ptr _ _ tag); [done|].
    destruct (EVP_CTRL_GCM_SET_TAG c1 tag) as [c2 []]; [|done]. cbn [negb] in *.
    destruct (EVP_DecryptUpdate_aad c2 (take h src)) as [c3 []]; [|done]. cbn [negb] in *.
    specialize (Hul c3 ct).
    destruct (EVP_DecryptUpdate c3 (Some ct)) as [[c4 []] out]; [|done]. cbn [negb snd] in *.
    specialize (Hfl c4).
    destruct (EVP_DecryptFinal c4) as [[c5 []] fin]; [|done]. cbn [negb snd] in *.
    subst fin. rewrite app_nil_r in He. injection He as -> ->.
    fc_steps. eapply wp_of_ptr; [apply (store_at [] dst); [done|lia]|]. fc_steps.
    eapply wp_of_ptr; [apply store_at; [done|cbn; lia]|]. fc_steps.
    split; [done|]. split; [by exists c'|]. cbn [app length]. rewrite drop_0, app_nil_r. do 2 f_equal. lia.
  - pose proof (evp_dec_reject c key iv (take h src) ct tag Hc Eo) as He.
    unfold evp_decrypt in He.
    destruct (EVP_DecryptInit_iv c iv) as [c1 []]; cbn [negb] in *; fc_steps; [|eio].
    apply (wp_of_ptr _ _ tag); [done|].
    destruct (EVP_CTRL_GCM_SET_TAG c1 tag) as [c2 []]; cbn [negb] in *; fc_steps; [|eio].
    destruct (EVP_DecryptUpdate_aad c2 (take h src)) as [c3 []]; cbn [negb] in *; fc_steps; [|eio].
    specialize (Hul c3 ct).
    destruct (EVP_DecryptUpdate c3 (Some ct)) as [[c4 ok] out]; cbn [snd] in *; fc_steps.
    eapply wp_of_ptr; [apply (store_at [] dst); [done|lia]|]. destruct ok; cbn [negb] in *; fc_steps;
      [|eio].
    specialize (Hfl c4).
    destruct (EVP_DecryptFinal c4) as [[c5 []] fin]; [done|]. cbn [negb snd] in *. subst fin. fc_steps.
    eapply wp_of_ptr; [apply store_at; [done|cbn; lia]|]. fc_steps. eio.
Qed.

(** The decryptor can find the stream and the key of a frame. *)
Definition dec_ready (w : world frame_decryptor) (csrc : Z) (iv : list Z) (kid : Z)
    (mkey : list Z) : Prop :=
  let d := w_obj w in
  fd_keystore d = true ∧ ks_ok (w_ks w) ∧ source_known d csrc iv ∧ dec_key (w_ks w) kid mkey ∧
  (∀ c, fd_ctx d = Some c → fd_kidx d = kid → holds c mkey) ∧
  (fd_pf d = true → ∀ n, peerflow_inc_frame_count csrc (is_video (fd_mtype d)) n = 0).

Lemma wp_count_frame w csrc r :
  r.1.1 = 0 →
  (fd_pf (w_obj w) = true → ∀ n, peerflow_inc_frame_count csrc (is_video (fd_mtype (w_obj w))) n = 0) →
  wp (count_frame csrc r) (λ r' w' _, r' = r ∧ fd_ctx (w_obj w') = fd_ctx (w_obj w)) w.
Proof.
  destruct r as [[err dst] dstsz]. cbn. intros -> Hinc. unfold count_frame. fc_steps.
  destruct (fd_pf (w_obj w)); cbn [andb]; [|by fc_steps]. destruct (_ <=? _); fc_steps; [|done].
  unfold inc_frame_count. fc_steps. by rewrite Hinc.
Qed.

Lemma dec_key_same s s' kid mkey : same_keys s s' → dec_key s kid mkey → dec_key s' kid mkey.
Proof. intros Hs Hk s2 Hs2. apply Hk. by eapply same_keys_trans. Qed.

(** The stream of the frame: source, user and base IV. *)
Lemma wp_decrypt_stream w csrc iv (k : FCM frame_decryptor dec_reply)
    (fail : Z → FCM frame_decryptor dec_reply) (Q : dec_reply → world frame_decryptor → Prop) :
  ks_ok (w_ks w) → fd_keystore (w_obj w) = true → source_known (w_obj w) csrc iv →
  (∀ w', same_receiver w w' → fd_iv (w_obj w') = iv → wp k (λ r w2 _, Q r w2) w') →
  wp (r ← decrypt_source csrc;
      match r with
      | inl err => fail err
      | inr new_user =>
        err ← (if (new_user : bool) then decrypt_new_user else mret 0 : FCM frame_decryptor Z);
        if negb (err =? 0) then fail err else k
      end) (λ r w2 _, Q r w2) w.
Proof.
  intros Hok Hks Hsrc Hk. apply wp_bind.
  eapply wp_mono; [by apply (wp_decrypt_source w csrc iv)|]. cbn beta.
  intros r w1 e1 (Hs1 & nu & -> & Hnu). apply wp_bind. destruct nu.
  - destruct Hnu as (hash & Hh & ->). pose proof Hs1 as (Hk1 & Hks1 & Hc1 & Hi1 & Hm1 & Hp1).
    eapply wp_mono; [apply (wp_decrypt_new_user w1 hash); [apply Hk1|congruence|done]|].
    cbn beta. intros r w2 e2 (-> & (Hk2 & ? & ? & ? & ? & ?) & Hiv & _). cbn [negb Z.eqb].
    apply Hk; [|by rewrite Hiv, Hm1].
    split_and!; [by eapply same_keys_trans|congruence..].
  - fc_steps. cbn [negb Z.eqb]. by apply Hk.
Qed.

(** The CSRC a frame is accounted to: the one of its header, if it has one. *)
Definition frame_csrc (fcsrc csrc : Z) : Z := if negb (fcsrc =? 0) then fcsrc else csrc.

(** What [frame_decryptor_decrypt] makes of a frame: the plaintext, or [EIO]
    and no context. *)
Definition decrypted (o : option (list Z)) (dst : list Z) (r : dec_reply)
    (w' : world frame_decryptor) : Prop :=
  match o with
  | Some pt => r = (0, pt ++ drop (length pt) dst, Some (length pt)) ∧
      fd_frame_dec (w_obj w') = true
  | None => r.1.1 = EIO ∧ fd_ctx (w_obj w') = None
  end.

Lemma wp_decrypt_finish (w : world frame_decryptor) (r : dec_reply) dst o :
  match o with
  | Some pt => r = (0, pt ++ drop (length pt) dst, Some (length pt))
  | None => r.1.1 = EIO
  end →
  wp ((if negb (r.1.1 =? 0)
       then oset (λ d, {| d with fd_ctx := None |})
       else
         d ← oget;
         if negb (fd_frame_dec d) then
           oset (λ d, {| d with fd_frame_dec := true |});;
           dec_ks_flag keystore_set_decrypt_successful
         else mret () : FCM frame_decryptor ());;
      mret r) (λ r w' _, decrypted o dst r w') w.
Proof.
  destruct o as [pt|]; [intros ->|intros Hr].
  - cbn [fst negb Z.eqb]. fc_steps. destruct (fd_frame_dec (w_obj w)) eqn:Hd; cbn [negb]; fc_steps.
    { by split. }
    unfold dec_ks_flag. fc_steps. destruct (fd_keystore _); fc_steps; [|by split].
    apply wp_on_ks, wp_locked. wp_steps. fc_steps. by split.
  - rewrite Hr. cbn [negb Z.eqb]. fc_steps. by split.
Qed.

Lemma wp_decrypt w csrc iv mkey src dst fid kid fcsrc h ct tag :
  frame_hdr_read src (length src) 0 = HdrOk fid kid fcsrc h → 0 <= kid < 2 ^ 32 →
  src = take h src ++ ct ++ tag → length tag = TAG_SIZE → (length ct ≤ length dst)%nat →
  dec_ready w (frame_csrc fcsrc csrc) iv kid mkey →
  wp (frame_decryptor_decrypt csrc src dst) (λ r w' _,
    decrypted (open mkey (frame_encryptor_xor_iv iv (u32 fid) kid) (take h src) ct tag) dst r w') w.
Proof.
  intros Hhdr Hkid Hsrc Htag Hdst (Hks & Hok & Hknown & Hkey & Hctx & Hinc).
  unfold frame_decryptor_decrypt. apply wp_bind.
  set (iv' := frame_encryptor_xor_iv iv (u32 fid) kid).
  eapply (wp_mono _ (λ r w' _, match open mkey iv' (take h src) ct tag with
    | Some pt => r = (0, pt ++ drop (length pt) dst, Some (length pt))
    | None => r.1.1 = EIO end)).
  2:{ cbn beta. intros r w1 e Hr. by apply wp_decrypt_finish. }
  unfold decrypt_body. rewrite decide_False.
  2:{ apply (f_equal length) in Hsrc. rewrite !length_app in Hsrc.
      unfold TAG_SIZE, FRAME_HDR_MINSZ in *. lia. }
  rewrite Hhdr. fold (frame_csrc fcsrc csrc).
  apply (wp_decrypt_stream w (frame_csrc fcsrc csrc) iv _ (λ err, mret (err, dst, None))
    (λ r w', match open mkey iv' (take h src) ct tag with
    | Some pt => r = (0, pt ++ drop (length pt) dst, Some (length pt))
    | None => r.1.1 = EIO end)); [done..|].
  intros w1 (Hk1 & Hks1 & Hc1 & Hi1 & Hm1 & Hp1) Hiv. fc_steps. rewrite Hiv.
  eapply wp_mono; [apply (wp_decryptor_ctx w1 kid mkey); [done|apply Hk1|congruence| |]|].
  { by eapply dec_key_same. }
  { intros c. rewrite Hc1, Hi1. apply Hctx. }
  cbn beta. intros r w2 e2 (c & -> & Hh & _ & _ & _ & Hm2 & _ & Hp2). apply wp_bind. fold iv'.
  eapply wp_mono; [by apply (wp_decrypt_frame w2 c mkey iv' src dst h ct tag)|]. cbn beta.
  intros r w3 e3 (_ & (c' & Ew3 & _) & Hr).
  destruct (open mkey iv' (take h src) ct tag) as [pt|].
  - subst r. cbn [fst negb Z.eqb].
    eapply wp_mono; [apply wp_count_frame; [done|]|].
    { rewrite Ew3. cbn [fd_mtype fd_pf]. rewrite Hm2, Hm1, Hp2, Hp1. done. }
    cbn beta. by intros r w4 e4 [-> _].
  - rewrite Hr. cbn [negb Z.eqb]. by fc_steps.
Qed.

(** A sealed frame is opened. *)
Lemma wp_decrypt_sealed w csrc iv mkey fid kid ssrc src dst :
  0 <= kid < 2 ^ 32 → 0 <= ssrc < 2 ^ 32 → fid = u32 fid → (length src ≤ length dst)%nat →
  dec_ready w (frame_csrc ssrc csrc) iv kid mkey →
  wp (frame_decryptor_decrypt csrc (sealed_frame mkey iv fid kid ssrc src) dst)
    (λ r w' _, decrypted (Some src) dst r w') w.
Proof.
  intros Hkid Hssrc Hfid Hdst Hw.
  pose proof (sealed_frame_length mkey iv fid kid ssrc src) as Hlen.
  set (hdr := hdr_bytes fid kid ssrc) in *. set (iv' := frame_encryptor_xor_iv iv fid kid).
  assert (sealed_frame mkey iv fid kid ssrc src
    = hdr ++ (seal mkey iv' hdr src).1 ++ (seal mkey iv' hdr src).2) as Ef.
  { unfold sealed_frame. fold hdr iv'. by destruct (seal mkey iv' hdr src). }
  set (frame := sealed_frame mkey iv fid kid ssrc src) in *.
  assert (take (length hdr) frame = hdr) as Etake by (by rewrite Ef, take_app_length).
  assert (decrypted (Some src) dst = decrypted (open mkey
    (frame_encryptor_xor_iv iv (u32 (u32 fid)) kid) (take (length hdr) frame)
    (seal mkey iv' hdr src).1 (seal mkey iv' hdr src).2) dst) as ->.
  { rewrite <-!Hfid, Etake. fold iv'. by rewrite open_seal. }
  eapply (wp_decrypt w csrc iv mkey frame dst _ kid ssrc (length hdr)); [|done| | |
    rewrite seal_length; lia|done].
  - rewrite Ef at 1. unfold hdr. rewrite read_hdr_bytes; [by rewrite (uwrap_small 32 kid)|lia|lia|].
    fold hdr. unfold TAG_SIZE in *. lia.
  - by rewrite Etake.
  - apply seal_tag_length.
Qed.

(** a frame arrives as it was sent: what [frame_encryptor_encrypt] wrote
    under the media key [mkey] of index [kid], a decryptor that can tell the
    stream (the first frame of a user, a new CSRC, or a later frame) and whose
    store yields the same key for [kid] turns back into the same bytes. *)
Theorem frame_encryption_roundtrip (we : world frame_encryptor) (wd : world frame_decryptor)
    kid mkey ssrc csrc src dst dst' :
  enc_ready (holds := holds) we kid mkey →
  (frame_encryptor_max_size (length src) ≤ length dst)%nat → 0 <= ssrc < 2 ^ 32 →
  dec_ready wd (frame_csrc ssrc csrc) (fe_iv (w_obj we)) kid mkey →
  (length src ≤ length dst')%nat →
  wp (frame_encryptor_encrypt ssrc src dst) (λ r _ _,
    ∃ buf n, r = (0, buf, Some n) ∧
    wp (frame_decryptor_decrypt csrc (take n buf) dst') (λ r' w' _,
      r' = (0, src ++ drop (length src) dst', Some (length src)) ∧
      fd_frame_dec (w_obj w') = true) wd) we.
Proof.
  intros Hready Hdst Hssrc Hdec Hdst'.
  pose proof Hready as (_ & Hok & (k & Hk & _ & Hi & _) & _).
  assert (0 <= kid < 2 ^ 32) as Hkid.
  { destruct (keyl_ok_elem _ _ _ (ok_keyl _ Hok) Hk) as (_ & ? & _). lia. }
  eapply wp_mono; [by apply (wp_encrypt_seals we kid mkey ssrc src dst)|]. cbn beta zeta.
  set (fid := next_fid (w_obj we)). set (frame := sealed_frame _ _ _ _ _ _).
  intros r we' e (-> & _). eexists _, _. split; [done|]. rewrite take_app_length.
  eapply wp_mono; [apply (wp_decrypt_sealed wd csrc); [done|done| |done|done]|].
  2:{ intros r' w' e' Hr. exact Hr. }
  unfold fid. rewrite next_fid_mod. unfold uwrap. by rewrite Zmod_mod.
Qed.

(** Only sealed frames are accepted: when [frame_decryptor_decrypt]
    succeeds on a frame of the network, the bytes it returns are the plaintext
    of that frame: sealing them under the key of the index in the header, with
    the vector of the counter in the header and the header as associated data,
    gives back exactly the ciphertext and the tag that arrived. *)
Theorem decrypt_authentic w csrc iv mkey src dst fid kid fcsrc h ct tag :
  frame_hdr_read src (length src) 0 = HdrOk fid kid fcsrc h → 0 <= kid < 2 ^ 32 →
  src = take h src ++ ct ++ tag → length tag = TAG_SIZE → (length ct ≤ length dst)%nat →
  dec_ready w (frame_csrc fcsrc csrc) iv kid mkey →
  wp (frame_decryptor_decrypt csrc src dst) (λ r w' _,
    if r.1.1 =? 0 then
      ∃ pt, r = (0, pt ++ drop (length pt) dst, Some (length pt)) ∧
        seal mkey (frame_encryptor_xor_iv iv (u32 fid) kid) (take h src) pt = (ct, tag)
    else r.1.1 = EIO ∧ fd_ctx (w_obj w') = None) w.
Proof.
  intros Hh Hk Hs Ht Hd Hw. eapply wp_mono; [by apply (wp_decrypt w csrc iv mkey src dst fid kid fcsrc h ct tag)|]. cbn beta.
  intros r w' e Hr. unfold decrypted in Hr.
  destruct (open mkey _ _ ct tag) as [pt|] eqn:Eo.
  - destruct Hr as [-> _]. cbn [fst Z.eqb]. exists pt. split; [done|]. by apply seal_open.
  - destruct Hr as [Hr Hc]. by rewrite Hr.
Qed.

End Decrypt.
