(* ===== verification/FrameCryptoProps.v ===== *)
(** * From the key store to the speaker

    Two ends that share one session key: a frame encrypted after rotations of
    the key arrives; and what happens to frames that are too short, to frames
    that do not decrypt, and to the frame statistics. *)

From S2P Require Import Prelude LibRe FrameHdr Keystore KeystoreSpec KeystoreOps KeystoreProps FrameCrypto FrameCryptoSpec.

Section EndToEnd.
Context `{LibReSpec} {KE : KsEnv} {kdf} `{HOk : !KsEnvOk KE kdf}.
Context `{HEV : EVPSpec holds} `{PF : Peerflow}.

Lemma chain_at_same_keys salt index key i s s' :
  same_keys s s' → chain_at (kdf := kdf) salt index key i s → chain_at (kdf := kdf) salt index key i s'.
Proof.
  intros (Hok' & E1 & E2 & Hset) (Hok & Hf & Hsalt & l & k & He & Hc & Hrest).
  split_and!; [done| |by rewrite (same_setup_salt s s')|].
  - destruct Hset as (_ & _ & ->). done.
  - exists l, k. rewrite E1, E2. done.
Qed.

Lemma chain_at_dec_key salt index key n ks :
  chain_at (kdf := kdf) salt index key 0 ks → 0 <= index → index + NUM_KEYS <= UINT32_MAX →
  Z.of_nat n < NUM_KEYS →
  dec_key ks (index + Z.of_nat n) (media_key (kdf := kdf) salt (chain_key (kdf := kdf) salt n (pad key))).
Proof.
  intros Hc H0 Hm Hn s Hs. apply (wp_get_chain salt index key n s); [|done..].
  by eapply chain_at_same_keys.
Qed.

Lemma chain_at_enc_ready salt index key n (w : world frame_encryptor) :
  chain_at (kdf := kdf) salt index key n (w_ks w) →
  fe_keystore (w_obj w) = true → fe_ctx (w_obj w) = None →
  enc_ready (holds := holds) w (index + Z.of_nat n)
    (media_key (kdf := kdf) salt (chain_key (kdf := kdf) salt n (pad key))).
Proof.
  intros (Hok & _ & _ & l & k & He & Hc & Hi & Hs & Hm) Hks Hctx.
  split_and!; [done|done| |by rewrite Hctx].
  exists k. split_and!; [rewrite He; apply elem_mid|done|done|congruence].
Qed.

(** Deriving the base IV of the sender. *)
Lemma wp_enc_set_keystore (w : world frame_encryptor) :
  ks_ok (w_ks w) →
  wp (frame_encryptor_set_keystore true) (λ err w' _, err = 0 ∧
    same_keys (w_ks w) (w_ks w') ∧
    w_obj w' = (let e := w_obj w in {| e with fe_keystore := true;
      fe_iv := base_iv (kdf := kdf) (fe_userid_hash e) (fe_mtype e) |})) w.
Proof.
  intros Hok. unfold frame_encryptor_set_keystore. fc_steps. apply wp_on_ks.
  unfold keystore_generate_iv, next_tick. wp_steps. rewrite HKDF_ok, length_replicate. wp_steps.
  fc_steps. split; [done|]. split; [|done]. split; [by apply ks_ok_tick|done].
Qed.

(** The sender: install the key, take the store, rotate, encrypt. *)
Definition send_frame (index : Z) (key : list Z) (n : nat) (ssrc : Z) (src dst : list Z)
    : FCM frame_encryptor enc_reply :=
  _ ← on_ks (keystore_set_session_key index key);
  _ ← frame_encryptor_set_keystore true;
  _ ← on_ks (rotate_n n);
  frame_encryptor_encrypt ssrc src dst.

(** The receiver: install the key, take the store and the sender's identity,
    decrypt. *)
Definition receive_frame (index : Z) (key : list Z) (hash : string) (csrc : Z)
    (src dst : list Z) : FCM frame_decryptor dec_reply :=
  _ ← on_ks (keystore_set_session_key index key);
  _ ← frame_decryptor_set_keystore true;
  _ ← frame_decryptor_set_uid 0 (Some hash);
  frame_decryptor_decrypt csrc src dst.

Lemma wp_send_frame e s index key n ssrc src dst :
  ks_ok s → ks_keyl s = [] → ks_hash_forward s = true → key ≠ [] →
  0 <= index → index + Z.of_nat n <= UINT32_MAX → fe_ctx e = None →
  (frame_encryptor_max_size (length src) ≤ length dst)%nat →
  let salt := ks_salt_bytes s in
  let frame := sealed_frame
    (media_key (kdf := kdf) salt (chain_key (kdf := kdf) salt n (pad key)))
    (base_iv (kdf := kdf) (fe_userid_hash e) (fe_mtype e))
    (u32 (fe_frameid e + 1)) (index + Z.of_nat n) ssrc src in
  wp (send_frame index key n ssrc src dst) (λ r _ _,
    r = (0, frame ++ drop (length frame) dst, Some (length frame))) (World e s).
Proof.
  intros Hok Hnil Hf Hkey H0 Hmax Hctx Hdst salt frame. unfold UINT32_MAX in Hmax.
  unfold send_frame. apply wp_bind, wp_on_ks. cbn [w_obj w_ks].
  eapply wp_mono; [apply (wp_set_first s index key); [done..|lia]|]. cbn beta.
  intros err s1 e1 [_ Hc1]. apply wp_bind.
  eapply wp_mono; [apply wp_enc_set_keystore; apply Hc1|]. cbn beta. cbn [w_obj w_ks].
  intros r [e2 s2] ev2 (_ & Hk2 & Ee2). cbn [w_obj w_ks] in *.
  apply wp_bind, wp_on_ks. cbn [w_obj w_ks].
  eapply wp_mono; [apply (wp_rotate_n salt index key n 0)|].
  { by eapply chain_at_same_keys. }
  { unfold UINT32_MAX. lia. }
  cbn beta. intros [] s3 ev3 Hc3.
  eapply wp_mono; [apply (wp_encrypt_seals (World e2 s3) (index + Z.of_nat n)
    (media_key (kdf := kdf) salt (chain_key (kdf := kdf) salt n (pad key)))); [|done]|].
  { apply chain_at_enc_ready; [exact Hc3|by rewrite Ee2|by rewrite Ee2]. }
  cbn beta zeta. cbn [w_obj w_ks]. rewrite next_fid_mod, Ee2.
  cbn [fe_iv fe_frameid fe_userid_hash fe_mtype]. by intros a w' ev' (-> & _).
Qed.

(** C1: end to end across rotations.  Sender and receiver have empty stores
    with the same salt, install the same session key for [index], and the
    receiver knows the sender's identity.  The sender rotates its key
    [n < 16] times and encrypts a frame; the receiver, which was told nothing
    of the rotations, decrypts it to the same bytes. *)
Theorem media_end_to_end e s d r index key n ssrc csrc src dst dst' :
  ks_ok s → ks_ok r → ks_keyl s = [] → ks_keyl r = [] →
  ks_hash_forward s = true → ks_hash_forward r = true → ks_salt_bytes s = ks_salt_bytes r →
  key ≠ [] → 0 <= index → index + NUM_KEYS <= UINT32_MAX → Z.of_nat n < NUM_KEYS →
  fe_ctx e = None → fd_ctx d = None → fd_frame_recv d = false → fd_pf d = false →
  fe_mtype e = fd_mtype d → 0 <= ssrc < 2 ^ 32 →
  (frame_encryptor_max_size (length src) ≤ length dst)%nat → (length src ≤ length dst')%nat →
  wp (send_frame index key n ssrc src dst) (λ a _ _,
    ∃ buf m, a = (0, buf, Some m) ∧
    wp (receive_frame index key (fe_userid_hash e) csrc (take m buf) dst') (λ a' _ _,
      a' = (0, src ++ drop (length src) dst', Some (length src))) (World d r)) (World e s).
Proof.
  intros Hs Hr Ns Nr Fs Fr Hsalt Hkey H0 Hmax Hn Ee Ed Erecv Epf Emt Hssrc Hdst Hdst'.
  unfold NUM_KEYS, UINT32_MAX in *.
  eapply wp_mono; [apply wp_send_frame; [done..|unfold UINT32_MAX; lia|done|done]|]. cbn beta.
  intros a w1 ev1 ->. eexists _, _. split; [done|]. rewrite take_app_length.
  unfold receive_frame. apply wp_bind, wp_on_ks. cbn [w_obj w_ks].
  eapply wp_mono; [apply (wp_set_first r index key); [done..|lia]|]. cbn beta.
  intros err r1 e1 [_ Hc1]. unfold frame_decryptor_set_keystore, frame_decryptor_set_uid.
  fc_steps. rewrite Hsalt.
  eapply wp_mono; [apply wp_decrypt_sealed; [lia|done|unfold uwrap; by rewrite Zmod_mod|done|]|].
  2:{ cbn beta. intros a' w' e' [-> _]. done. }
  split_and!; cbn [w_obj w_ks fd_keystore fd_ctx fd_pf].
  - done.
  - apply Hc1.
  - apply (src_first _ _ _ (fe_userid_hash e)); cbn; [done|right; right; done|done|by rewrite Emt].
  - apply chain_at_dec_key; [exact Hc1|lia| |]; unfold NUM_KEYS, UINT32_MAX; lia.
  - by rewrite Ed.
  - by rewrite Epf.
Qed.
End EndToEnd.

(** ** Failures *)

Section FrameFailures.
Context `{LibReSpec} {KE : KsEnv} {kdf} `{HOk : !KsEnvOk KE kdf}.
Context `{HEV : EVPSpec holds} `{PF : Peerflow}.

Lemma wp_undef_bind {S E A B} (m : MU S E A) (k : A → MU S E B) s :
  wp m (λ a s1 _, k a s1 = None) s → (m ≫= k) s = None.
Proof.
  unfold wp, mbind, MU_bind. destruct (m s) as [[[a s1] e]|]; [|done]. by intros ->.
Qed.

Lemma bind_some {S E A B} (m : MU S E A) (k : A → MU S E B) s b s' e :
  (m ≫= k) s = Some (b, s', e) →
  ∃ a s1 e1 e2, m s = Some (a, s1, e1) ∧ k a s1 = Some (b, s', e2).
Proof.
  unfold mbind, MU_bind. destruct (m s) as [[[a s1] e1]|]; [|done].
  destruct (k a s1) as [[[b' s2] e2]|] eqn:Hk; [|done].
  intros [= -> -> _]. exists a, s1, e1, e2. by rewrite <-Hk.
Qed.

Lemma bind_ret_result {S E A B} (m : MU S E A) (b b' : B) s s' e :
  (m;; mret b) s = Some (b', s', e) → b = b'.
Proof. intros (a & s1 & e1 & e2 & _ & Hr)%bind_some. by injection Hr. Qed.

(** A context accepts every vector. *)
Lemma evp_dec_iv_ok c key iv : holds c key → (EVP_DecryptInit_iv c iv).2 = true.
Proof.
  intros Hc. destruct (evp_dec c key iv [] _ _ [] Hc (open_seal key iv [] [])) as (c' & He & _).
  unfold evp_decrypt in He. by destruct (EVP_DecryptInit_iv c iv) as [c1 []].
Qed.

(** a frame shorter than the tag is read out of bounds: its header is
    complete and its key known, but [tag] then points in front of [src], and
    [EVP_CIPHER_CTX_ctrl] reads sixteen bytes from there. *)
Theorem decrypt_short_frame_undefined w csrc iv mkey src dst fid kid fcsrc h :
  frame_hdr_read src (length src) 0 = HdrOk fid kid fcsrc h → 0 <= kid < 2 ^ 32 →
  (FRAME_HDR_MINSZ ≤ length src < TAG_SIZE)%nat →
  dec_ready (holds := holds) (kdf := kdf) w (frame_csrc fcsrc csrc) iv kid mkey →
  frame_decryptor_decrypt csrc src dst w = None.
Proof.
  intros Hhdr Hkid Hlen (Hks & Hok & Hknown & Hkey & Hctx & Hinc).
  unfold frame_decryptor_decrypt. cut (decrypt_body csrc src dst w = None).
  { intros He. unfold mbind, MU_bind. by rewrite He. }
  unfold decrypt_body. rewrite decide_False by lia. rewrite Hhdr. fold (frame_csrc fcsrc csrc).
  apply wp_undef_bind. eapply wp_mono; [by apply (wp_decrypt_source (kdf := kdf) w _ iv)|]. cbn beta.
  intros a w1 e1 ((Hk1 & Hks1 & Hc1 & Hi1 & Hm1 & Hp1) & nu & -> & Hnu).
  apply wp_undef_bind. set (iv' := frame_encryptor_xor_iv).
  assert (wp (if nu then decrypt_new_user else mret 0) (λ err w2 _, err = 0 ∧
    same_keys (w_ks w) (w_ks w2) ∧ fd_keystore (w_obj w2) = true ∧
    fd_ctx (w_obj w2) = fd_ctx (w_obj w) ∧ fd_kidx (w_obj w2) = fd_kidx (w_obj w)) w1) as Hnew.
  { destruct nu; [|by fc_steps; split_and!; [..|congruence|done|done]].
    destruct Hnu as (hash & Hh & _).
    eapply wp_mono; [apply (wp_decrypt_new_user (kdf := kdf) w1 hash); [apply Hk1|congruence|done]|].
    cbn beta. intros r w2 e2 (-> & (Hk2 & ? & ? & ? & _) & _).
    split_and!; [done|by eapply same_keys_trans|congruence..]. }
  eapply wp_mono; [exact Hnew|]. cbn beta. intros err w2 e2 (-> & Hk2 & Hks2 & Hc2 & Hi2).
  cbn [negb Z.eqb]. apply wp_undef_bind. fc_steps.
  apply wp_undef_bind.
  eapply wp_mono; [apply (wp_decryptor_ctx w2 kid mkey); [done|apply Hk2|done| |]|].
  { by eapply dec_key_same. }
  { intros c. rewrite Hc2, Hi2. apply Hctx. }
  cbn beta. intros r w3 e3 (c & -> & Hh & _). unfold mbind, MU_bind.
  unfold decrypt_frame. pose proof (evp_dec_iv_ok c mkey (iv' (fd_iv (w_obj w2)) (u32 fid) kid) Hh) as Hiv.
  destruct (EVP_DecryptInit_iv _ _) as [c1 b]. cbn in Hiv. subst b. cbn.
  unfold read_tag. by rewrite decide_False by lia.
Qed.

(** A failed frame costs the context: whenever [frame_decryptor_decrypt]
    returns an error, the cipher context is gone, so that the next frame fetches
    its key from the store again. *)
Theorem decrypt_error_drops_context csrc src dst w r w' e :
  frame_decryptor_decrypt csrc src dst w = Some (r, w', e) →
  r.1.1 ≠ 0 → fd_ctx (w_obj w') = None.
Proof.
  unfold frame_decryptor_decrypt. intros (r1 & w1 & e1 & e2 & _ & Hr)%bind_some Hne.
  pose proof (bind_ret_result _ _ _ _ _ _ Hr) as <-. revert Hr.
  rewrite (proj2 (Z.eqb_neq _ _) Hne). cbn. by intros [= <- _].
Qed.

(** Frames are credited to the wrong sender: when a frame of another CSRC
    arrives, the frames counted for the sender so far are reported to the media
    engine under the new CSRC. *)
Theorem frame_count_misattributed w csrc iv :
  ks_ok (w_ks w) → source_known (kdf := kdf) (w_obj w) csrc iv →
  fd_pf (w_obj w) = true → csrc ≠ 0 → csrc ≠ fd_csrc (w_obj w) → fd_frame_count (w_obj w) ≠ 0 →
  wp (decrypt_source csrc) (λ _ w' e,
    e = [FcIncFrames csrc (is_video (fd_mtype (w_obj w))) (fd_frame_count (w_obj w))] ∧
    fd_frame_count (w_obj w') = 0) w.
Proof.
  intros Hok Hsrc Hpf H0 Hne Hcnt.
  assert (¬ no_new_csrc (w_obj w) csrc) as Hnew.
  { unfold no_new_csrc. rewrite Hpf. naive_solver. }
  destruct Hsrc as [|hash|hash _ Hinc Hget _]; [done..|].
  unfold decrypt_source. fc_steps. rewrite (proj2 (Z.eqb_neq _ _) H0), (proj2 (Z.eqb_neq _ _) Hne), Hpf.
  cbn [negb andb]. fc_steps. rewrite (proj2 (Z.eqb_neq _ _) Hcnt). cbn [negb].
  unfold inc_frame_count. fc_steps. rewrite Hinc, Hget. cbn [negb Z.eqb]. fc_steps. done.
Qed.
End FrameFailures.
