(* ===== verification/FrameCryptoWitness.v ===== *)
(** * Frame encryption at concrete inputs

    A toy cipher with the interface and the laws of AES-256-GCM (a keystream
    xored onto the plaintext, a checksum as tag), and the theorems about frames
    applied to concrete objects. *)

From S2P Require Import Prelude LibRe FrameHdr Keystore KeystoreSpec KeystoreOps KeystoreProps KeystoreWitness FrameCrypto FrameCryptoSpec FrameCryptoProps.

Module EvpRef.

Definition xor_stream (key iv l : list Z) : list Z :=
  imap (λ i b, Z.lxor b ((KsRef.mix (key ++ iv) + 37 * Z.of_nat i) mod 256)) l.

Definition tag_of (key iv aad ct : list Z) : list Z :=
  (λ i, KsRef.mix (key ++ iv ++ aad ++ ct ++ [Z.of_nat i]) mod 256) <$> seq 0 TAG_SIZE.

#[export] Instance aead : AEAD := {|
  seal := λ key iv aad pt,
    (xor_stream key iv pt, tag_of key iv aad (xor_stream key iv pt));
  open := λ key iv aad ct tag,
    if bool_decide (tag_of key iv aad ct = tag) then Some (xor_stream key iv ct) else None;
|}.

Record ctx := { tc_key : list Z; tc_iv : list Z; tc_aad : list Z; tc_data : list Z; tc_tag : list Z }.

#[export] Instance evp : EVP := {|
  evp_ctx := ctx;
  EVP_CIPHER_CTX_new := Some {| tc_key := []; tc_iv := []; tc_aad := []; tc_data := []; tc_tag := [] |};
  EVP_EncryptInit_key := λ c key, ({| c with tc_key := key |}, true);
  EVP_EncryptInit_iv := λ c iv, ({| c with tc_iv := iv |}, true);
  EVP_EncryptUpdate_aad := λ c aad, ({| c with tc_aad := aad |}, true);
  EVP_EncryptUpdate := λ c pt,
    let ct := xor_stream (tc_key c) (tc_iv c) pt in ({| c with tc_data := ct |}, true, ct);
  EVP_EncryptFinal := λ c, (c, true, []);
  EVP_CTRL_GCM_GET_TAG := λ c _, (c, true, tag_of (tc_key c) (tc_iv c) (tc_aad c) (tc_data c));
  EVP_DecryptInit_key := λ c key, ({| c with tc_key := key |}, true);
  EVP_DecryptInit_iv := λ c iv, ({| c with tc_iv := iv |}, true);
  EVP_CTRL_GCM_SET_TAG := λ c tag, ({| c with tc_tag := tag |}, true);
  EVP_DecryptUpdate_aad := λ c aad, ({| c with tc_aad := aad |}, true);
  EVP_DecryptUpdate := λ c ct,
    match ct with
    | Some ct => ({| c with tc_data := ct |}, true, xor_stream (tc_key c) (tc_iv c) ct)
    | None => (c, false, [])
    end;
  EVP_DecryptFinal := λ c,
    (c, bool_decide (tag_of (tc_key c) (tc_iv c) (tc_aad c) (tc_data c) = tc_tag c), []);
|}.

Definition holds (c : evp_ctx) (key : list Z) : Prop := tc_key c = key.

Lemma xor_stream_length key iv l : length (xor_stream key iv l) = length l.
Proof. apply length_imap. Qed.

Lemma xor_stream_twice key iv l : xor_stream key iv (xor_stream key iv l) = l.
Proof.
  unfold xor_stream. apply list_eq. intros i. rewrite !list_lookup_imap.
  destruct (l !! i); [|done]. cbn. by rewrite Z.lxor_assoc, Z.lxor_nilpotent, Z.lxor_0_r.
Qed.

#[export] Instance evp_spec : EVPSpec holds.
Proof.
  split; unfold holds.
  - by eexists.
  - done.
  - done.
  - intros c key iv aad pt <-. eexists. unfold evp_encrypt. cbn. rewrite app_nil_r.
    split; reflexivity.
  - intros c key iv aad ct tag pt <-. cbn. case_bool_decide as E; [|done]. intros [= <-].
    eexists. unfold evp_decrypt. cbn. rewrite bool_decide_true by done. cbn.
    rewrite app_nil_r. split; reflexivity.
  - intros c key iv aad ct tag <-. cbn. case_bool_decide as E; [done|]. intros _.
    unfold evp_decrypt. cbn. by rewrite bool_decide_false by done.
  - intros c ct. cbn. by rewrite xor_stream_length.
  - done.
  - intros key iv aad pt. cbn -[xor_stream tag_of]. rewrite bool_decide_true by done.
    by rewrite xor_stream_twice.
  - intros key iv aad ct tag pt. cbn -[xor_stream tag_of]. case_bool_decide as E; [|done]. intros [= <-].
    by rewrite xor_stream_twice, E.
  - intros. apply xor_stream_length.
  - intros. cbn -[xor_stream tag_of]. unfold tag_of. by rewrite length_fmap, length_seq.
Qed.

#[export] Instance peerflow : Peerflow := {|
  peerflow_inc_frame_count := λ _ _ _, 0;
  peerflow_get_userid_for_ssrc := λ csrc _, (0, Some (if csrc =? 5 then "carol"%string else "alice"%string));
|}.

End EvpRef.

Import LibReRef KsRef EvpRef.

Definition enc0 : frame_encryptor :=
  {| fe_userid_hash := "alice"; fe_kidx := 0; fe_frameid := 41; fe_ctx := None;
     fe_keystore := true; fe_iv := base_iv (kdf := kdf) "alice" FRAME_MEDIA_AUDIO;
     fe_mtype := FRAME_MEDIA_AUDIO; fe_frame_recv := false; fe_frame_enc := false;
     fe_updated_ts := 0 |}.

Definition dec0 : frame_decryptor :=
  {| fd_pf := true; fd_kidx := 0; fd_ctx := None; fd_keystore := true;
     fd_iv := replicate IV_SIZE 0; fd_mtype := FRAME_MEDIA_AUDIO;
     fd_userid_hash := Some "alice"%string; fd_csrc := 3; fd_frame_count := 12;
     fd_frame_recv := false; fd_frame_dec := false |}.

Definition we0 : world frame_encryptor := World enc0 sender.
Definition wd0 : world frame_decryptor := World dec0 sender.

(** [mkey] is the media key of the current key of [sender], index 9. *)
Definition is_key9 (mkey : list Z) : Prop :=
  ∃ k, k ∈ ks_keyl sender ∧ ks_current sender = Some (ki_addr k) ∧ ki_index k = 9 ∧ ki_mkey k = mkey.

Lemma key9 : ∃ mkey, is_key9 mkey.
Proof.
  destruct (current_index_inv sender 9 sender_ok sender_index) as (pre & k & post & He & Hc & Hi).
  exists (ki_mkey k), k. split_and!; [rewrite He; apply elem_mid|done..].
Qed.

Lemma we0_ready mkey : is_key9 mkey → enc_ready (holds := holds) we0 9 mkey.
Proof.
  intros Hk. split; [reflexivity|]. split; [exact sender_ok|]. split; [exact Hk|].
  intros c Hc. discriminate Hc.
Qed.

Lemma wd0_key mkey : is_key9 mkey → dec_key sender 9 mkey.
Proof.
  intros (k & Hk & _ & <- & <-) s (Hok & El & _). apply wp_get_present; [done|by rewrite El].
Qed.

Lemma wd0_ready mkey csrc :
  is_key9 mkey → no_new_csrc dec0 csrc →
  dec_ready (holds := holds) (kdf := kdf) wd0 csrc (fe_iv enc0) 9 mkey.
Proof.
  intros Hk Hc. split; [reflexivity|]. split; [exact sender_ok|]. split.
  { apply (src_first _ _ _ "alice"); [reflexivity|exact Hc|reflexivity..]. }
  split; [by apply wd0_key|]. split; [intros c He; discriminate He|]. reflexivity.
Qed.

Lemma encrypt_stream_sealed_witness :
  NoDup (imap (λ i (_ : list Z * list Z),
    frame_encryptor_xor_iv (fe_iv enc0) (u32 (41 + 1 + Z.of_nat i)) 9)
    [([1; 2; 3], replicate 200 0); ([4; 5], replicate 150 0)]).
Proof.
  destruct key9 as [mkey Hk].
  refine (proj2 (encrypt_stream_sealed (holds := holds) we0 9 mkey 3
    [([1; 2; 3], replicate 200 0); ([4; 5], replicate 150 0)] (we0_ready mkey Hk) _ _ _)).
  - vm_compute. lia.
  - repeat constructor; vm_compute; lia.
  - cbn. lia.
Defined.

Lemma frame_encryption_roundtrip_witness :
  wp (frame_encryptor_encrypt 3 [10; 20; 30] (replicate 200 0)) (λ r _ _,
    ∃ buf n, r = (0, buf, Some n) ∧
    wp (frame_decryptor_decrypt 0 (take n buf) (replicate 8 0)) (λ r' w' _,
      r' = (0, [10; 20; 30] ++ replicate 5 0, Some 3%nat) ∧
      fd_frame_dec (w_obj w') = true) wd0) we0.
Proof.
  destruct key9 as [mkey Hk].
  refine (frame_encryption_roundtrip (holds := holds) (kdf := kdf) we0 wd0 9 mkey 3 0
    [10; 20; 30] (replicate 200 0) (replicate 8 0) (we0_ready mkey Hk) _ _
    (wd0_ready mkey 3 Hk _) _).
  - vm_compute. lia.
  - lia.
  - right; left. reflexivity.
  - cbn. lia.
Defined.

(** A frame with counter 42 and key 9, and a forged tag. *)
Definition forged : list Z := hdr_bytes 42 9 3 ++ [7; 7; 7] ++ replicate 16 0.

Lemma decrypt_authentic_witness :
  ∃ mkey, is_key9 mkey ∧
  wp (frame_decryptor_decrypt 0 forged (replicate 8 0)) (λ r w' _,
    if r.1.1 =? 0 then
      ∃ pt, r = (0, pt ++ drop (length pt) (replicate 8 0), Some (length pt)) ∧
        seal mkey (frame_encryptor_xor_iv (fe_iv enc0) (u32 42) 9)
          (take 9 forged) pt = ([7; 7; 7], replicate 16 0)
    else r.1.1 = EIO ∧ fd_ctx (w_obj w') = None) wd0.
Proof.
  destruct key9 as [mkey Hk]. exists mkey. split; [exact Hk|].
  refine (decrypt_authentic (holds := holds) (kdf := kdf) wd0 0 (fe_iv enc0) mkey
    forged (replicate 8 0) 42 9 3 9 [7; 7; 7] (replicate 16 0) _ _ _ _ _ (wd0_ready mkey 3 Hk _)).
  - vm_compute. reflexivity.
  - lia.
  - vm_compute. reflexivity.
  - reflexivity.
  - cbn. lia.
  - right; left. reflexivity.
Defined.

(** A decryptor with a context, and a frame of one byte. *)
Definition ctx0 : evp_ctx :=
  {| tc_key := [1]; tc_iv := []; tc_aad := []; tc_data := []; tc_tag := [] |}.
Definition wd1 : world frame_decryptor := World {| dec0 with fd_ctx := Some ctx0 |} sender.

Lemma decrypt_error_drops_context_witness :
  ∃ w', frame_decryptor_decrypt 0 [0x80] [] wd1 = Some ((EAGAIN, [], None), w', []) ∧
    fd_ctx (w_obj w') = None.
Proof.
  eexists. split; [reflexivity|].
  refine (decrypt_error_drops_context 0 [0x80] [] wd1 (EAGAIN, [], None) _ [] _ _);
    [reflexivity|discriminate].
Defined.

Lemma decrypt_short_frame_undefined_witness :
  frame_decryptor_decrypt 0 (hdr_bytes 42 9 3) (replicate 8 0) wd0 = None.
Proof.
  destruct key9 as [mkey Hk].
  refine (decrypt_short_frame_undefined (holds := holds) (kdf := kdf) wd0 0 (fe_iv enc0)
    mkey (hdr_bytes 42 9 3) (replicate 8 0) 42 9 0 4 _ _ _ (wd0_ready mkey 0 Hk _)).
  - vm_compute. reflexivity.
  - lia.
  - vm_compute. lia.
  - left. reflexivity.
Defined.

Lemma frame_count_misattributed_witness :
  wp (decrypt_source 5) (λ _ w' e,
    e = [FcIncFrames 5 false 12] ∧ fd_frame_count (w_obj w') = 0) wd0.
Proof.
  refine (frame_count_misattributed (kdf := kdf) wd0 5
    (base_iv (kdf := kdf) "carol" FRAME_MEDIA_AUDIO) sender_ok _ _ _ _ _);
    [|reflexivity|discriminate..].
  apply (src_new _ _ _ "carol"); [|reflexivity..].
  intros [H|[H|H]]; vm_compute in H; discriminate H.
Defined.

Definition enc1 : frame_encryptor := {| enc0 with fe_keystore := false |}.
Definition dec1 : frame_decryptor :=
  {| dec0 with fd_pf := false; fd_keystore := false; fd_userid_hash := None |}.

Lemma media_end_to_end_witness :
  wp (send_frame 7 [10; 20; 30] 3 5 [1; 2; 3; 4] (replicate 200 0)) (λ a _ _,
    ∃ buf m, a = (0, buf, Some m) ∧
    wp (receive_frame 7 [10; 20; 30] "alice" 0 (take m buf) (replicate 4 9)) (λ a' _ _,
      a' = (0, [1; 2; 3; 4], Some 4%nat)) (World dec1 (fresh true))) (World enc1 (fresh true)).
Proof.
  apply (media_end_to_end (holds := holds) (kdf := kdf) enc1 (fresh true) dec1 (fresh true)
    7 [10; 20; 30] 3 5 0 [1; 2; 3; 4] (replicate 200 0) (replicate 4 9));
    try reflexivity; try apply fresh_ok; try discriminate; try lia.
  all: first [unfold NUM_KEYS, UINT32_MAX; lia | vm_compute; lia].
Defined.
